(* ===== verification/_CoqProject ===== *)
-Q . S2P
Prelude.v
F32.v
Text.v
F64.v
Paths.v
Http.v
Middleware.v
KvCache.v
RadixCache.v
Model.v
SpecDecode.v
SpecDecodeTree.v
Scheduler.v
PdScheduler.v
Engine.v
SchedulerEngine.v
Resilience.v
ControlPlane.v
LlmRouter.v
Autoscaler.v
Supervisor.v
InferenceGateway.v
Metrics.v
Health.v
Memory.v
Docs.v
OpenAi.v
OpenAiHttp.v
Compress.v
Validate.v
Errors.v
HttpRouter.v
RateLimit.v
Coalesce.v
Batching.v
Dag.v
CronScheduler.v
StaticFiles.v
ReverseGateway.v
Serve.v
Server.v
Connections.v
Xml.v
Migrations.v
Crud.v
Query.v
Workers.v
Forms.v
OpenApi.v
NativeApp.v
NativeHandler.v
NativeRun.v
Requests.v
Adapters.v
Background.v
GilPool.v
Diagnostics.v
Mail.v
GenClient.v
Database.v
DbBridge.v
WebSockets.v
Profile.v
CommandLine.v
FrontEnds.v
PyTypes.v
