(* ===== verification/Prelude.v ===== *)
(** * JustAPI: a verification library

    JustAPI is a web framework in Rust ([crates/justapi-core]) with a Python
    binding ([crates/justapi-py]) and a serving stack for language models
    ([crates/justapi-inference]).  This library models the decision logic of
    the three crates as Rocq functions, translated from the source operation
    by operation, and proves what makes each part correct.  Paths below are
    relative to [src/crates/].

    ** How the program fits together

    A request of the web side passes a chain of middleware (JWT gate, CORS,
    limiters, access log), is dispatched by method and path through a route
    cache, and reaches a handler; circuit breakers, time-outs, retries and
    fallbacks wrap handlers, identical requests in flight may share one call,
    and small calls may be gathered into batches.  Static files, XML bodies,
    migrations, a cron scheduler and a graph of dependent tasks serve the
    handlers.  On the inference side a gateway resolves a model name in the
    control plane and routes to one of the replicas, whose number an
    autoscaler decides and a supervisor brings about.  Inside a replica a
    scheduler admits requests in order, gives every step a token budget, and
    holds the KV blocks of the sequences in a pool with a radix tree of
    reusable prefixes; a loop thread runs the model, possibly with
    speculative decoding, and sends the tokens to their requests.

    ** The files and the code they model

    Shared data and library code:
    - [Prelude]: machine integers, panics, association lists for hash maps,
      stable sorts, decimal digits, automation;
    - [F32] and [F64]: the IEEE numbers of [f32] and [f64];
    - [Text] and [Paths]: the methods of [str] and [std::path] the code uses;
    - [Http]: requests, responses, JSON values, and the error responses of
      [justapi-core/src/lib.rs] and [middleware.rs]; [Errors] ([error.rs]): the
      error type and its problem responses.

    Inference ([justapi-inference/src]):
    - [KvCache] ([kv_cache.rs]): [KvBlockPool] (allocation, reference counts,
      clock-sweep eviction), [Sequence], [PrefixCache].  [pool_refines_spec]
      relates the pool to three states per block, [evict_one_clock_sweep] says
      which block goes, [alloc_exclusive] that no live block is handed out;
    - [RadixCache] ([radix_cache.rs]): insertion, lookup, eviction, hash
      verification.  The theorems speak of the set of token sequences the tree
      holds and of the blocks on its edges, over every reachable cache;
    - [Model] ([model.rs]), [SpecDecode] ([spec_decode.rs]),
      [SpecDecodeTree] ([spec_decode_tree.rs]): the model interface, sampling
      and the two speculative loops; greedy speculation is plain decoding
      ([speculative_lossless], [tree_lossless]) and every run ends;
    - [Scheduler] ([scheduler.rs]) over the pool and the radix cache, and
      [PdScheduler] ([pd.rs]), two schedulers with a transfer between them:
      the token budget, the order of admission, no request lost;
    - [Engine] ([engine.rs]) and [SchedulerEngine] ([scheduler_engine.rs]):
      the registry, direct generation, and one turn of the loop thread with
      the channels of its requests;
    - [ControlPlane] ([control_plane.rs]), [LlmRouter] ([router.rs]),
      [Autoscaler] ([autoscaler.rs]), [Supervisor] ([supervisor.rs]),
      [InferenceGateway] ([gateway.rs]): resolution of names and aliases, the
      three routing strategies, the decision of a tick, the reconciliation and
      its mirror in the router, readiness.  [supervisor_invariant] and
      [reconcile_converges] compose the autoscaler, the supervisor and the
      router;
    - [OpenAi] ([openai.rs]) and [OpenAiHttp] ([justapi-core/src/openai.rs]):
      the OpenAI protocol on an engine or through the scheduler, and its
      endpoints; [chat_stream_agrees] and [routed_chat_answers] follow a
      request from the body to the tokens;
    - [Adapters] ([real/lora.rs], [real/quant.rs]): the registry of adapters,
      the method of each layer and its memory.

    Web ([justapi-core/src] unless said otherwise):
    - [Middleware] ([middleware.rs]): the chain and its middleware.  A
      middleware is a function of its continuation, so
      [jwt_gate_noninterference] compares whole chains;
    - [HttpRouter] ([router.rs] and the dispatch in [server/mod.rs]): routes
      per method, the bounded route cache, 404 and 405;
    - [RateLimit] ([rate_limit.rs]): the Lua script on a Redis store, refined
      to the generic cell rate algorithm;
    - [Resilience] ([resilience.rs]): circuit breakers as sequences of the
      operations their mutex makes atomic, per-route breakers, time-outs,
      retries, bulkheads, fallbacks and chaos;
    - [Coalesce] ([coalesce.rs]) and [Batching] ([batching.rs]): concurrent
      code as events on the shared state, in any order;
    - [Dag] and [CronScheduler] ([justapi-py/src/dag.rs], [scheduler.rs]): the
      task graph as a step relation with its spawned tasks, and the tick loop;
    - [StaticFiles] ([static_files.rs]), [Xml] ([xml.rs]): path resolution and
      ranges, the conversion of reader events to values;
    - [Compress] ([compress.rs]), [Forms] ([multipart.rs], [extract.rs]),
      [Validate] ([validate.rs]), [OpenApi] ([openapi.rs]) and [Docs]: the
      encoding of a response, multipart bodies, cookies and typed extractors,
      formats, coercions and schemas, the description of the routes;
    - [Migrations] ([db/migrations.rs]), [Query] ([db/query.rs]), [Crud]
      ([server/crud.rs]), [Database] ([db/pool.rs]): versioned scripts, the
      builders of statements, the routes that run SQL, and pools with their
      streams and transactions.  [crud_no_injection] and [crud_reaches_driver]
      say what of a request reaches the engine, [transaction_all_or_nothing]
      what a transaction leaves;
    - [Metrics], [Health], [Memory] (files of the same names): counters under
      interleaving, probes, the arena and the buffer pool; [Diagnostics]
      ([dx.rs], [error_catalog.rs], [alerting.rs], [audit.rs], [secrets.rs]);
      [Mail] ([mail/], [justapi-py/src/message_builder.rs], [mail.rs]);
    - [WebSockets] ([server/ws.rs], [justapi-py/src/websocket.rs]): the echo
      handler, and a session as the steps of its two tasks and the calls of its
      handler ([websocket_in_order]); [FrontEnds] ([grpc.rs], [graphql.rs],
      [serialize.rs], [tracing_setup.rs]): codecs, end points, typed responses;
    - [Serve] ([server/handler_exec.rs], [sse_ws.rs]), [Server]
      ([server/mod.rs], [plugin.rs]), [Connections] (the accept loops),
      [ReverseGateway] ([gateway.rs]): the path of one request through the
      server, its builder and life cycle, tasks and permits of connections,
      routes to upstreams from a file that changes.

    Python ([justapi-py/src]) and the command line ([justapi-cli/src]):
    - [NativeApp], [NativeHandler], [NativeRun] ([native/app.rs],
      [native/handlers.rs]): the tables behind the application class, the way
      of a request to a Python handler and back, and the server [run] builds.
      [registration_refines_map] relates the tables to a map of routes,
      [refused_body_untouched] and [errors_stay_inside] say what a handler
      never sees and what never leaves it;
    - [Requests] ([request.rs]): the request object and its mapping; [PyTypes]
      ([auth.rs], [multipart.rs]): tokens and uploaded files;
    - [DbBridge] ([database.rs]): configuration, values and the pool handle;
    - [GilPool] ([gil_pool.rs]) and [Background] ([background.rs]): the threads
      that run Python and the background tasks, as events on shared state;
    - [Workers] ([workers.rs]): the prefork supervisor; [CommandLine]
      ([main.rs], [watcher.rs]): what [serve] runs and what stops it, the hot
      reload, new projects; [Profile] ([profile.rs]); [GenClient]
      ([gen_client.rs]): clients written from a document.

    ** Conventions

    The code is modelled in its release profile: [usize] and [u64] are 64-bit
    and arithmetic wraps unless the source saturates or checks it.  Quantities
    that come from outside (budgets, counters, times) are [Z] with the wrap
    written out; the length or the index of a vector in memory is a [nat].  A
    call that can panic returns in [exec]; token generation runs in [gen],
    which keeps the tokens already delivered when the run fails.  A string is
    its bytes; operations on characters agree with Rust's on ASCII text.  A
    [HashMap] whose iteration order the code can observe is an association
    list in that order, any other a finite map.  Code under a mutex is one
    step; code with awaits is split there into events, and the theorems
    quantify over the sequences of events.

    Recursions that are not structural have fuel, and running out of it is a
    panic or an error the theorems exclude.  Enough is: [S (length tokens)]
    for the descents of the radix tree, one more than its number of nodes for
    its evictions, [max_tokens] for the speculative loops (each step delivers
    a token), the desired or live number of replicas for the supervisor's
    loops, the number of middleware for the chain, four steps per node and one
    more for the task graph, the length of the text for trimming and
    splitting, 40 decimal and 16 hexadecimal digits for 64-bit numbers.

    Code that is not in the repository is a parameter, a type class with its
    documented laws where a theorem needs them: the random generator and the
    exponential ([Entropy]), the path matcher ([Matchit]), Redis
    ([RedisStore]; its clock is the caller's, and its Lua numbers are doubles
    that are rounded beyond 53 bits), [serde_json]'s printer and parsers
    ([SerdeJson], [OpenAiSerde], [ParseValue]), tokens ([JsonWebToken]), the
    in-memory limiters ([Governor]), [serde_urlencoded], the [cron] crate
    ([Cron]), the file system ([FileSystem]), compressors ([Codec]), tokens for
    Python ([Jwt]), what the sink of a WebSocket accepts, the
    schema compiler ([JsonSchema]), [sqlx] ([Database], [TrackingTable],
    [Driver]), the reader and the printer of [quick_xml], the parts multer
    makes of a body, [lettre]'s addresses, base64, letters beyond ASCII, GraphQL,
    the WASM engine and the key of a WebSocket, clocks and timers.  The Python
    interpreter is a parameter too: opaque objects ([PyObject]), what the code
    reads of a value ([PyPure]), calls that act on a world ([Python]), plugins
    ([Plugin]).  Every theorem with such a law has a witness that instantiates it.

    ** Not modelled

    Log lines other than the access log, and the text of [Debug] output but
    where it becomes source text.  Of modelled files: device discovery and the
    loading of weights in [engine.rs], the sleep of the loop thread and requests
    that arrive inside a turn, direct calls on the router the supervisor lends
    out, streaming of large files as separate chunks, temporary files but for
    their list and the bytes of an upload.

    What is left of the program has no decision of its own that a model could
    state without that of a library: tensor computation and tokenisation
    (Candle, [real/model.rs], [real/tokenizer.rs]), the bytes of the frames of
    WebSockets, HTTP/2 and 3 and gRPC, GraphQL and WebAssembly themselves
    (bindings of tonic, quinn, async-graphql and wasmtime), sockets and TLS,
    tracing exporters, the registration of classes with pyo3, the argument
    parser and most templates of the command line, test clients and benchmarks. *)

From stdpp Require Export base tactics option list gmap sets strings.
From Stdlib Require Export ZArith Lia Permutation Sorted.

#[global] Set Default Goal Selector "!".

#[global] Arguments Nat.div : simpl never.
#[global] Arguments Nat.modulo : simpl never.

(** ** Machine integers

    [usize] and [u64] values that come from outside the program (token
    budgets, timestamps, counters) are kept as [Z] with the wrap-around or the
    saturation of the Rust operator written out; a length or an index of an
    in-memory vector is a [nat].  The arithmetic is that of the release
    profile of [Cargo.toml]: no overflow check, so [+] wraps. *)

#[local] Open Scope Z_scope.

Definition u8_modulus : Z := 2 ^ 8.
Definition u32_modulus : Z := 2 ^ 32.
Definition u64_modulus : Z := 2 ^ 64.
Definition u32_max : Z := 4294967295.
Definition u64_max : Z := 18446744073709551615.

Definition wadd64 (a b : Z) : Z := (a + b) mod u64_modulus.
Definition wmul64 (a b : Z) : Z := (a * b) mod u64_modulus.
Definition wadd32 (a b : Z) : Z := (a + b) mod u32_modulus.
Definition sadd32 (a b : Z) : Z := Z.min (a + b) u32_max.
Definition sadd64 (a b : Z) : Z := Z.min (a + b) u64_max.
Definition smul64 (a b : Z) : Z := Z.min (a * b) u64_max.
(** [saturating_sub] on any unsigned width. *)
Definition ssub (a b : Z) : Z := Z.max 0 (a - b).

Definition is_u64 (a : Z) : Prop := 0 ≤ a ≤ u64_max.
Definition is_u32 (a : Z) : Prop := 0 ≤ a ≤ u32_max.

(** [n / d] rounded to nearest, ties to even. *)
Definition round_half_even (n d : Z) : Z :=
  let q := n / d in
  let r := n mod d in
  if (d <? 2 * r) || ((2 * r =? d) && Z.odd q) then q + 1 else q.

Lemma wadd32_small a b : 0 ≤ a + b ≤ u32_max → wadd32 a b = a + b.
Proof. unfold wadd32, u32_modulus, u32_max. intros. apply Z.mod_small. lia. Qed.

Lemma wadd64_small a b : 0 ≤ a + b ≤ u64_max → wadd64 a b = a + b.
Proof. unfold wadd64, u64_modulus, u64_max. intros. apply Z.mod_small. lia. Qed.

#[local] Close Scope Z_scope.

(** [a.div_ceil(b)] on lengths. *)
Definition div_ceil (a b : nat) : nat :=
  a / b + (if decide (a mod b = 0) then 0 else 1).

(** ** Panics

    A Rust operation that can panic (an [assert!], an index out of range, an
    [unwrap] on [None]) returns in [exec].  [Panic] is a call that does not
    return: it also stands for a loop or a recursion that exhausts the fuel of
    its model, so a theorem that a call returns rules out both. *)

Inductive exec (A : Type) : Type :=
| Ret (a : A)
| Panic.
Arguments Ret {A} a.
Arguments Panic {A}.

#[export] Instance exec_ret : MRet exec := @Ret.
#[export] Instance exec_bind : MBind exec := λ A B k m,
  match m with Ret a => k a | Panic => Panic end.

(** [m] does not panic and its value satisfies [P]. *)
Definition returns {A} (m : exec A) (P : A → Prop) : Prop :=
  match m with Ret a => P a | Panic => False end.

(** A loop over a list whose body can panic. *)
Fixpoint mfold {S A} (f : S → A → exec S) (s : S) (l : list A) : exec S :=
  match l with
  | [] => Ret s
  | a :: l' => s' ← f s a; mfold f s' l'
  end.

Section exec.
  Context {A B : Type}.
  Implicit Types (m : exec A) (P : A → Prop) (Q : B → Prop).

Lemma returns_ret (a : A) P : P a → returns (Ret a) P.
  Proof. done. Qed.

Lemma returns_mono m P P' : returns m P → (∀ a, P a → P' a) → returns m P'.
  Proof. destruct m; naive_solver. Qed.

Lemma returns_bind m (k : A → exec B) P Q :
    returns m P → (∀ a, P a → returns (k a) Q) → returns (m ≫= k) Q.
  Proof. destruct m; naive_solver. Qed.

Lemma returns_and m P P' : returns m P → returns m P' → returns m (λ a, P a ∧ P' a).
  Proof. destruct m; naive_solver. Qed.

Lemma returns_inv m P : returns m P → ∃ a, m = Ret a ∧ P a.
  Proof. destruct m; naive_solver. Qed.

Lemma bind_Ret_inv m (k : A → exec B) b :
    m ≫= k = Ret b → ∃ a, m = Ret a ∧ k a = Ret b.
  Proof. destruct m; naive_solver. Qed.
End exec.

Section mfold.
  Context {A S : Type} (f : S → A → exec S).

  (** A loop whose body never panics from a state satisfying the invariant
      returns a state satisfying it. *)
Lemma mfold_returns (I : list A → S → Prop) l :
    (∀ s a k, I (a :: k) s → returns (f s a) (I k)) →
    ∀ s, I l s → returns (mfold f s l) (I []).
  Proof.
    intros Hf. induction l as [|a l IH]; intros s Hs; simpl; [done|].
    eapply returns_bind; [by apply Hf|]. intros s' Hs'. by apply IH.
  Qed.

Lemma mfold_app l k s :
    mfold f s (l ++ k) = mfold f s l ≫= λ s', mfold f s' k.
  Proof.
    revert s. induction l as [|a l IH]; intros s; simpl; [done|].
    destruct (f s a); simpl; [apply IH|done].
  Qed.
End mfold.

(** [&l[i..]] and [&l[..i]]: a bound past the end panics. *)
Definition slice_from {A} (l : list A) (i : nat) : exec (list A) :=
  if decide (i ≤ length l) then Ret (drop i l) else Panic.
Definition slice_to {A} (l : list A) (i : nat) : exec (list A) :=
  if decide (i ≤ length l) then Ret (take i l) else Panic.

Lemma slice_from_ok {A} (l : list A) i : i ≤ length l → slice_from l i = Ret (drop i l).
Proof. intros. unfold slice_from. by rewrite decide_True. Qed.

Lemma slice_to_ok {A} (l : list A) i : i ≤ length l → slice_to l i = Ret (take i l).
Proof. intros. unfold slice_to. by rewrite decide_True. Qed.

(** ** Hash maps with an observable iteration order

    Where the code iterates over a [HashMap], the map is an association list:
    its order is the iteration order the standard library leaves unspecified,
    and a theorem about it holds for every order. *)

Section assoc.
Context {K V : Type} `{EqDecision K}.
Implicit Types (m : list (K * V)) (k : K) (v : V).

Fixpoint assoc_get k m : option V :=
  match m with
  | [] => None
  | (k', v) :: m' => if decide (k' = k) then Some v else assoc_get k m'
  end.

(** [insert]: an existing entry keeps its place. *)
Fixpoint assoc_set k v m : list (K * V) :=
  match m with
  | [] => [(k, v)]
  | (k', v') :: m' => if decide (k' = k) then (k, v) :: m' else (k', v') :: assoc_set k v m'
  end.

Fixpoint assoc_remove k m : list (K * V) :=
  match m with
  | [] => []
  | (k', v') :: m' => if decide (k' = k) then m' else (k', v') :: assoc_remove k m'
  end.

Lemma assoc_get_elem k v m : assoc_get k m = Some v → (k, v) ∈ m.
Proof.
  induction m as [|[k' v'] m IH]; csimpl; [done|]. case_decide; simplify_eq.
  - intros [= ->]. left.
  - intros. right. auto.
Qed.

Lemma elem_assoc_get k v m : NoDup m.*1 → (k, v) ∈ m → assoc_get k m = Some v.
Proof.
  induction m as [|[k' v'] m IH]; csimpl; [by intros _ ?%elem_of_nil|].
  intros [Hk Hnd]%NoDup_cons [[= -> ->]|Hin]%elem_of_cons.
  - by rewrite decide_True.
  - rewrite decide_False; [auto|]. intros ->. apply Hk, list_elem_of_fmap.
    by exists (k, v).
Qed.

Lemma assoc_get_None k m : assoc_get k m = None ↔ k ∉ m.*1.
Proof.
  induction m as [|[k' v'] m IH]; csimpl; [split; [intros _; apply not_elem_of_nil|done]|].
  rewrite not_elem_of_cons. case_decide; naive_solver.
Qed.

Lemma assoc_get_set k k' v m :
  assoc_get k (assoc_set k' v m) = if decide (k' = k) then Some v else assoc_get k m.
Proof.
  induction m as [|[k2 v2] m IH]; csimpl; [done|].
  repeat (case_decide; csimpl; simplify_eq); done.
Qed.

Lemma assoc_get_app k m1 m2 :
  assoc_get k (m1 ++ m2)
  = match assoc_get k m1 with Some v => Some v | None => assoc_get k m2 end.
Proof. induction m1 as [|[k2 v2] m1 IH]; simpl; [done|]. by case_decide. Qed.

Lemma assoc_set_new k v m : assoc_get k m = None → assoc_set k v m = m ++ [(k, v)].
Proof.
  induction m as [|[k2 v2] m IH]; simpl; [done|]. case_decide; [done|].
  intros Hk. by rewrite IH.
Qed.

Lemma assoc_set_keys k v m :
  (assoc_set k v m).*1 = if decide (k ∈ m.*1) then m.*1 else m.*1 ++ [k].
Proof.
  induction m as [|[k2 v2] m IH]; csimpl; [done|].
  destruct (decide (k2 = k)) as [->|Hne]; csimpl.
  - rewrite decide_True; [done|left].
  - rewrite IH. destruct (decide (k ∈ m.*1)) as [Hin|Hni].
    + rewrite decide_True; [done|by right].
    + rewrite decide_False; [done|]. rewrite elem_of_cons. naive_solver.
Qed.

Lemma assoc_set_nodup k v m : NoDup m.*1 → NoDup (assoc_set k v m).*1.
Proof.
  intros Hnd. rewrite assoc_set_keys. case_decide as Hk; [done|].
  apply NoDup_app. split; [done|]. split; [|apply NoDup_singleton].
  intros x Hx Hx'%list_elem_of_singleton. by subst.
Qed.

Lemma assoc_set_elem k v m k' v' :
  (k', v') ∈ assoc_set k v m → (k', v') = (k, v) ∨ (k', v') ∈ m.
Proof.
  induction m as [|[k2 v2] m IH]; csimpl; [by intros ->%list_elem_of_singleton; left|].
  case_decide; rewrite !elem_of_cons; naive_solver.
Qed.

Lemma assoc_set_split k v v' m :
  assoc_get k m = Some v →
  ∃ m1 m2, m = m1 ++ (k, v) :: m2 ∧ assoc_set k v' m = m1 ++ (k, v') :: m2 ∧
           assoc_remove k m = m1 ++ m2.
Proof.
  induction m as [|[k2 v2] m IH]; csimpl; [done|]. case_decide as Hk; simplify_eq.
  - intros [= ->]. by exists [], m.
  - intros (m1 & m2 & -> & -> & ->)%IH. by exists ((k2, v2) :: m1), m2.
Qed.

Lemma assoc_remove_keys_sub k m : (assoc_remove k m).*1 `sublist_of` m.*1.
Proof.
  induction m as [|[k2 v2] m IH]; csimpl; [constructor|].
  case_decide; csimpl; by constructor.
Qed.

Lemma assoc_remove_nodup k m : NoDup m.*1 → NoDup (assoc_remove k m).*1.
Proof. intros Hnd. eapply sublist_NoDup; [done|apply assoc_remove_keys_sub]. Qed.

Lemma assoc_remove_elem k m kv : kv ∈ assoc_remove k m → kv ∈ m.
Proof.
  induction m as [|[k2 v2] m IH]; csimpl; [done|].
  case_decide; [by right|]. rewrite !elem_of_cons. naive_solver.
Qed.

Lemma assoc_get_remove_ne k k' m : k ≠ k' → assoc_get k (assoc_remove k' m) = assoc_get k m.
Proof.
  intros Hne. induction m as [|[k2 v2] m IH]; csimpl; [done|].
  repeat (case_decide; csimpl; simplify_eq); done.
Qed.
End assoc.

(** ** A stable sort by an integer key ([slice::sort_by_key]) *)

Section sort_by_key.
Context {A : Type} (key : A → Z).

Fixpoint sort_insert (x : A) (l : list A) : list A :=
  match l with
  | [] => [x]
  | y :: l' => if (key x <=? key y)%Z then x :: l else y :: sort_insert x l'
  end.

Definition sort_by_key (l : list A) : list A := foldr sort_insert [] l.

Lemma sort_insert_perm x l : sort_insert x l ≡ₚ x :: l.
Proof.
  induction l as [|y l IH]; simpl; [done|]. destruct (key x <=? key y)%Z; [done|].
  rewrite IH. constructor.
Qed.

Lemma sort_by_key_perm l : sort_by_key l ≡ₚ l.
Proof. induction l as [|x l IH]; simpl; [done|]. by rewrite sort_insert_perm, IH. Qed.

Lemma sort_insert_sorted x l :
  StronglySorted (λ a b, (key a ≤ key b)%Z) l →
  StronglySorted (λ a b, (key a ≤ key b)%Z) (sort_insert x l).
Proof.
  induction 1 as [|y l Hs IH Hall]; simpl; [repeat constructor|].
  destruct (Z.leb_spec (key x) (key y)).
  - constructor; [by constructor|]. constructor; [done|].
    eapply Forall_impl; [done|]. simpl. lia.
  - constructor; [done|]. rewrite sort_insert_perm. constructor; [lia|done].
Qed.

Lemma sort_by_key_sorted l : StronglySorted (λ a b, (key a ≤ key b)%Z) (sort_by_key l).
Proof. induction l; simpl; [constructor|by apply sort_insert_sorted]. Qed.

(** A sorted list stays as it is. *)
Lemma sort_by_key_id l : StronglySorted (λ a b, (key a ≤ key b)%Z) l → sort_by_key l = l.
Proof.
  induction 1 as [|x l Hs IH Hx]; [done|]. simpl. rewrite IH. destruct Hx as [|y l Hy Hx]; [done|].
  simpl. destruct (Z.leb_spec (key x) (key y)); [done|lia].
Qed.

(** Restricting a sorted list keeps it sorted, and an element of its front
    does not exceed one of its back. *)
Lemma sorted_filter (P : A → Prop) `{!∀ x, Decision (P x)} l :
  StronglySorted (λ a b, (key a ≤ key b)%Z) l →
  StronglySorted (λ a b, (key a ≤ key b)%Z) (filter P l).
Proof.
  induction 1 as [|a l Hs IH Ha]; [constructor|]. rewrite filter_cons. case_decide; [|done].
  constructor; [done|]. rewrite Forall_forall in *.
  by intros x [_ Hx]%list_elem_of_filter; auto.
Qed.

Lemma sorted_app_le l k a b :
  StronglySorted (λ a b, (key a ≤ key b)%Z) (l ++ k) → a ∈ l → b ∈ k → (key a ≤ key b)%Z.
Proof.
  induction l as [|x l IH]; simpl; [by intros _ ?%elem_of_nil|].
  intros Hs [->|Ha]%elem_of_cons Hb; inversion Hs as [|?? Hs' Hx]; subst; [|by apply IH].
  rewrite Forall_forall in Hx. apply Hx, elem_of_app. by right.
Qed.
End sort_by_key.

(** ** Sorting and selecting with a comparator

    [slice::sort_by] is stable; for a comparator that is not a total preorder
    the standard library leaves the order unspecified, and this is one of
    the permitted results.  [Iterator::max_by] keeps the last of the maxima,
    [min_by] the first of the minima. *)

Section sort_by.
Context {A : Type} (cmp : A → A → comparison).

Fixpoint insert_by (x : A) (l : list A) : list A :=
  match l with
  | [] => [x]
  | y :: l' => match cmp x y with Gt => y :: insert_by x l' | _ => x :: l end
  end.

Definition sort_by (l : list A) : list A := foldr insert_by [] l.

Lemma insert_by_perm x l : insert_by x l ≡ₚ x :: l.
Proof.
  induction l as [|y l IH]; simpl; [done|]. destruct (cmp x y); try done.
  rewrite IH. constructor.
Qed.

Lemma sort_by_perm l : sort_by l ≡ₚ l.
Proof. induction l as [|x l IH]; simpl; [done|]. by rewrite insert_by_perm, IH. Qed.

Definition max_by (l : list A) : option A :=
  match l with
  | [] => None
  | x :: l' => Some (foldl (λ a b, match cmp a b with Gt => a | _ => b end) x l')
  end.

Definition min_by (l : list A) : option A :=
  match l with
  | [] => None
  | x :: l' => Some (foldl (λ a b, match cmp a b with Gt => b | _ => a end) x l')
  end.

Lemma min_by_elem l a : min_by l = Some a → a ∈ l.
Proof.
  destruct l as [|x l]; [done|]. intros [= <-]. revert x.
  induction l as [|y l IH]; intros x; simpl; [left|].
  pose proof (IH x) as IHx. pose proof (IH y) as IHy. destruct (cmp x y); set_solver.
Qed.

(** A strict maximum is found wherever it stands. *)
Lemma max_by_unique l m :
  m ∈ l → (∀ x, x ∈ l → x = m ∨ (cmp x m = Lt ∧ cmp m x = Gt)) → max_by l = Some m.
Proof.
  destruct l as [|x l]; [by intros ?%elem_of_nil|]. intros Hm Hcmp. unfold max_by. f_equal.
  revert x Hm Hcmp.
  induction l as [|y l IH]; intros x Hm Hcmp; simpl; [by apply list_elem_of_singleton in Hm|].
  destruct (Hcmp x) as [->|[Hx1 Hx2]]; [set_solver|..];
    (destruct (Hcmp y) as [->|[Hy1 Hy2]]; [set_solver|..]).
  - apply IH; [by destruct (cmp m m); left|]. destruct (cmp m m); set_solver.
  - rewrite Hy2. apply IH; [left|set_solver].
  - rewrite Hx1. apply IH; [left|set_solver].
  - assert (x ≠ m ∧ y ≠ m) as [Hxm Hym] by (split; intros ->; congruence).
    assert (m ∈ l) by set_solver. destruct (cmp x y); apply IH; set_solver.
Qed.

Lemma max_by_elem l a : max_by l = Some a → a ∈ l.
Proof.
  destruct l as [|x l]; [done|]. intros [= <-]. revert x.
  induction l as [|y l IH]; intros x; simpl; [left|].
  pose proof (IH x) as IHx. pose proof (IH y) as IHy. destruct (cmp x y); set_solver.
Qed.
Lemma min_by_snoc l y :
  min_by (l ++ [y])
  = Some (match min_by l with
          | Some a => match cmp a y with Gt => y | _ => a end
          | None => y
          end).
Proof. destruct l as [|x l]; simpl; [done|]. by rewrite foldl_app. Qed.

Lemma max_by_snoc l y :
  max_by (l ++ [y])
  = Some (match max_by l with
          | Some a => match cmp a y with Gt => a | _ => y end
          | None => y
          end).
Proof. destruct l as [|x l]; simpl; [done|]. by rewrite foldl_app. Qed.

Lemma min_by_None l : min_by l = None → l = [].
Proof. by destruct l. Qed.

Lemma max_by_None l : max_by l = None → l = [].
Proof. by destruct l. Qed.

(** On the elements satisfying [P], [cmp] is a total preorder. *)
Section preorder.
Context (P : A → Prop).
Hypothesis cmp_trans : ∀ a b c,
  P a → P b → P c → cmp a b ≠ Gt → cmp b c ≠ Gt → cmp a c ≠ Gt.
Hypothesis cmp_total : ∀ a b, P a → P b → cmp a b = Gt → cmp b a ≠ Gt.

(** The first of the minima. *)
Lemma min_by_first l m :
  Forall P l → min_by l = Some m →
  ∃ pre post, l = pre ++ m :: post ∧
    Forall (λ x, cmp x m = Gt) pre ∧ Forall (λ x, cmp m x ≠ Gt) post.
Proof.
  intros HP. revert m. induction l as [|y l IH] using rev_ind; intros m; [done|].
  apply Forall_app in HP as [HP [Hy _]%Forall_cons]. rewrite min_by_snoc. intros [= <-].
  destruct (min_by l) as [a|] eqn:Hl;
    [|apply min_by_None in Hl as ->; exists [], []; by repeat constructor].
  destruct (IH HP a eq_refl) as (pre & post & -> & Hpre & Hpost).
  apply Forall_app in HP as [HPpre [Ha HPpost]%Forall_cons].
  destruct (cmp a y) eqn:Hay;
    [exists pre, (post ++ [y]); rewrite <- app_assoc; split; [done|]; split; [done|];
       apply Forall_app; split; [done|by repeat constructor; rewrite Hay]..|].
  exists (pre ++ a :: post), []. split; [done|]. split; [|constructor].
  assert (∀ x, P x → cmp a x ≠ Gt → cmp x y = Gt) as Hlt.
  { intros x Hx Hax. destruct (cmp x y) eqn:Hxy; [..|done];
      (exfalso; eapply (cmp_trans a x y); [done..| |done]; by rewrite Hxy). }
  assert (∀ x, P x → cmp x a = Gt → cmp x y = Gt) as Hlt'.
  { intros x Hx Hxa. apply Hlt; [done|]. by apply cmp_total. }
  rewrite Forall_app, Forall_cons, !Forall_forall in *. naive_solver.
Qed.

(** The last of the maxima. *)
Lemma max_by_last l m :
  Forall P l → max_by l = Some m →
  ∃ pre post, l = pre ++ m :: post ∧
    Forall (λ x, cmp x m ≠ Gt) pre ∧ Forall (λ x, cmp m x = Gt) post.
Proof.
  intros HP. revert m. induction l as [|y l IH] using rev_ind; intros m; [done|].
  apply Forall_app in HP as [HP [Hy _]%Forall_cons]. rewrite max_by_snoc. intros [= <-].
  destruct (max_by l) as [a|] eqn:Hl;
    [|apply max_by_None in Hl as ->; exists [], []; by repeat constructor].
  destruct (IH HP a eq_refl) as (pre & post & -> & Hpre & Hpost).
  apply Forall_app in HP as [HPpre [Ha HPpost]%Forall_cons].
  destruct (decide (cmp a y = Gt)) as [Hay|Hay].
  - rewrite Hay. exists pre, (post ++ [y]). rewrite <- app_assoc. split; [done|].
    split; [done|]. apply Forall_app. split; [done|by repeat constructor].
  - assert (match cmp a y with Gt => a | _ => y end = y) as -> by (by destruct (cmp a y)).
    exists (pre ++ a :: post), []. split; [done|]. split; [|constructor].
    assert (∀ x, P x → cmp x a ≠ Gt → cmp x y ≠ Gt) as Hle by eauto using cmp_trans.
    rewrite Forall_app, Forall_cons, !Forall_forall in *. naive_solver.
Qed.

Lemma insert_by_sorted x l :
  P x → Forall P l → StronglySorted (λ a b, cmp a b ≠ Gt) l →
  StronglySorted (λ a b, cmp a b ≠ Gt) (insert_by x l).
Proof.
  intros Hx. induction l as [|y l IH]; intros HP Hs; simpl; [by repeat constructor|].
  apply Forall_cons in HP as [Hy HP]. apply StronglySorted_inv in Hs as [Hs Hle].
  assert (cmp x y ≠ Gt → StronglySorted (λ a b, cmp a b ≠ Gt) (x :: y :: l)) as Hfront.
  { intros Hxy. constructor; [by constructor|]. constructor; [done|].
    rewrite Forall_forall in *. eauto. }
  destruct (cmp x y) eqn:Hxy; [by apply Hfront|by apply Hfront|].
  constructor; [by apply IH|]. rewrite insert_by_perm. constructor; [by apply cmp_total|done].
Qed.

Lemma sort_by_sorted l : Forall P l → StronglySorted (λ a b, cmp a b ≠ Gt) (sort_by l).
Proof.
  induction 1 as [|x l Hx HP IH]; simpl; [constructor|].
  apply insert_by_sorted; [done| |done]. by rewrite sort_by_perm.
Qed.

(** The head of the sorted list is a minimum of the list. *)
Lemma sort_by_head l x rest :
  Forall P l → sort_by l = x :: rest → x ∈ l ∧ ∀ y, y ∈ l → y = x ∨ cmp x y ≠ Gt.
Proof.
  intros HP Hl. pose proof (sort_by_perm l) as Hp. pose proof (sort_by_sorted l HP) as Hs.
  rewrite Hl in *. split; [rewrite <- Hp; left|].
  apply StronglySorted_inv in Hs as [_ Hle]. rewrite Forall_forall in Hle.
  intros y. rewrite <- Hp, elem_of_cons. intros [->|Hy]; [by left|right; by apply Hle].
Qed.
End preorder.
End sort_by.

(** ** Prefixes of lists *)

Lemma prefix_app_cases {A} (l a b : list A) :
  l `prefix_of` a ++ b ↔ l `prefix_of` a ∨ ∃ l', l = a ++ l' ∧ l' `prefix_of` b.
Proof.
  split.
  - revert l. induction a as [|x a IH]; intros l Hl; simpl in *; [right; by exists l|].
    destruct l as [|y l]; [left; apply prefix_nil|].
    assert (y = x) as -> by (by eapply prefix_cons_inv_1).
    apply prefix_cons_inv_2 in Hl. destruct (IH l Hl) as [?|(l' & -> & ?)].
    + left. by apply prefix_cons.
    + right. by exists l'.
  - intros [?|(l' & -> & ?)]; [by apply prefix_app_r|by apply prefix_app].
Qed.

Lemma sum_list_app (l k : list nat) : sum_list (l ++ k) = sum_list l + sum_list k.
Proof. induction l; simpl; lia. Qed.

Lemma filter_ext_in {A} (P Q : A → Prop) `{!∀ x, Decision (P x), !∀ x, Decision (Q x)} (l : list A) :
  (∀ x, x ∈ l → P x ↔ Q x) → filter P l = filter Q l.
Proof.
  induction l as [|x l IH]; intros HPQ; [done|]. rewrite !filter_cons, IH by set_solver.
  pose proof (HPQ x). repeat case_decide; set_solver.
Qed.

Lemma filter_fmap {A B} (f : A → B) (P : B → Prop) `{!∀ x, Decision (P x)} (l : list A) :
  filter P (f <$> l) = f <$> filter (λ a, P (f a)) l.
Proof.
  induction l as [|x l IH]; [done|]. csimpl. rewrite !filter_cons.
  case_decide; csimpl; by rewrite IH.
Qed.

Lemma filter_all {A} (P : A → Prop) `{!∀ x, Decision (P x)} (l : list A) :
  (∀ x, x ∈ l → P x) → filter P l = l.
Proof.
  induction l as [|x l IH]; intros HP; [done|]. rewrite filter_cons, IH by set_solver.
  rewrite decide_True; set_solver.
Qed.

Lemma filter_none {A} (P : A → Prop) `{!∀ x, Decision (P x)} (l : list A) :
  (∀ x, x ∈ l → ¬ P x) → filter P l = [].
Proof.
  induction l as [|x l IH]; intros HP; [done|]. rewrite filter_cons, decide_False by (apply HP; left).
  apply IH. intros y Hy. apply HP. by right.
Qed.

Lemma Forall_filter {A} (P Q : A → Prop) `{!∀ x, Decision (P x)} l :
  Forall Q l → Forall Q (filter P l).
Proof. rewrite !Forall_forall. intros HQ x [_ Hx]%list_elem_of_filter. auto. Qed.

Lemma sublist_length_eq {A} (k l : list A) :
  k `sublist_of` l → length l ≤ length k → k = l.
Proof.
  induction 1 as [|x k l Hsub IH|x k l Hsub IH]; simpl; intros Hl; [done|..].
  - f_equal. apply IH. lia.
  - apply sublist_length in Hsub. lia.
Qed.

Lemma filter_sublist {A} `{!EqDecision A} (l k : list A) :
  NoDup l → k `sublist_of` l → filter (.∈ k) l = k.
Proof.
  intros Hnd Hsub. induction Hsub as [|x k l Hsub IH|x k l Hsub IH]; [done|..];
    apply NoDup_cons in Hnd as [Hx Hnd]; rewrite filter_cons.
  - rewrite decide_True by left. f_equal. etrans; [|by apply IH]. apply filter_ext_in.
    intros y Hy. rewrite elem_of_cons. split; [intros [->|]; done|by right].
  - rewrite decide_False; [by apply IH|].
    intros Hk. apply Hx. by eapply elem_of_submseteq, sublist_submseteq.
Qed.

(** ** Counting the elements of a list that satisfy a test *)

Definition bnat (b : bool) : nat := if b then 1 else 0.

Fixpoint count {A} (f : A → bool) (l : list A) : nat :=
  match l with
  | [] => 0
  | a :: l' => bnat (f a) + count f l'
  end.

Section count.
  Context {A : Type} (f : A → bool).
  Implicit Types l : list A.

Lemma count_app l k : count f (l ++ k) = count f l + count f k.
  Proof. induction l; simpl; lia. Qed.

Lemma count_insert l i x y :
    l !! i = Some x → count f (<[i:=y]> l) + bnat (f x) = count f l + bnat (f y).
  Proof.
    revert i. induction l as [|a l IH]; intros [|i]; simpl; try done.
    - intros [= ->]. lia.
    - intros H. specialize (IH i H). lia.
  Qed.

Lemma count_0 l : (∀ a, a ∈ l → f a = false) → count f l = 0.
  Proof.
    induction l as [|a l IH]; intros H; simpl; [done|].
    rewrite (H a) by apply list_elem_of_here. simpl. apply IH.
    intros b Hb. by apply H, list_elem_of_further.
  Qed.

Lemma count_le_length l : count f l ≤ length l.
  Proof. induction l as [|a l IH]; simpl; [lia|]. destruct (f a); simpl; lia. Qed.
End count.

(** ** Numbers in decimal *)

#[local] Open Scope Z_scope.

(** The decimal digits of a length or a duration, by the fuel [n]. *)
Fixpoint decimal_digits (n : nat) (z : Z) : string :=
  match n with
  | O => EmptyString
  | S n' =>
      let d := String (Ascii.ascii_of_nat (48 + Z.to_nat (z mod 10))) EmptyString in
      if z <? 10 then d else String.append (decimal_digits n' (z / 10)) d
  end.

(** [u64] and [u128] values have at most 39 digits. *)
Definition decimal (z : Z) : string := decimal_digits 40 z.

Lemma string_snoc_inj s1 c1 s2 c2 :
  String.append s1 (String c1 EmptyString) = String.append s2 (String c2 EmptyString) →
  s1 = s2 ∧ c1 = c2.
Proof.
  revert s2. induction s1 as [|a s1 IH]; intros [|b s2]; simpl.
  - by intros [= ->].
  - intros [= _ Hs]. by destruct s2.
  - intros [= _ Hs]. by destruct s1.
  - intros [= -> Hs]. by destruct (IH _ Hs) as [-> ->].
Qed.

Lemma digit_inj x y :
  Ascii.ascii_of_nat (48 + Z.to_nat (x mod 10)) = Ascii.ascii_of_nat (48 + Z.to_nat (y mod 10)) →
  x mod 10 = y mod 10.
Proof.
  pose proof (Z.mod_pos_bound x 10). pose proof (Z.mod_pos_bound y 10).
  intros Heq%(f_equal Ascii.nat_of_ascii).
  rewrite !Ascii.nat_ascii_embedding in Heq by lia. lia.
Qed.

Lemma decimal_digits_inj n x y :
  0 ≤ x < 10 ^ Z.of_nat n → 0 ≤ y < 10 ^ Z.of_nat n →
  decimal_digits n x = decimal_digits n y → x = y.
Proof.
  assert (∀ n x, 10 ≤ x < 10 ^ Z.of_nat (S n) → 0 ≤ x / 10 < 10 ^ Z.of_nat n) as Hdiv.
  { intros k z Hz. rewrite Nat2Z.inj_succ, Z.pow_succ_r in Hz by lia.
    split; [apply Z.div_pos; lia|]. apply Z.div_lt_upper_bound; lia. }
  assert (∀ n x, 10 ≤ x < 10 ^ Z.of_nat (S n) → decimal_digits n (x / 10) ≠ EmptyString) as Hne.
  { intros [|k] z Hz; [change (10 ^ Z.of_nat 1) with 10 in Hz; lia|]. simpl.
    destruct (z / 10 <? 10); [done|]. by destruct (decimal_digits k _). }
  revert x y. induction n as [|n IH]; intros x y Hx Hy; [change (10 ^ Z.of_nat 0) with 1 in *; lia|].
  cbn [decimal_digits]. destruct (Z.ltb_spec x 10), (Z.ltb_spec y 10).
  - intros [= Heq%digit_inj]. by rewrite !Z.mod_small in Heq by lia.
  - intros Heq. destruct (string_snoc_inj EmptyString _ _ _ Heq) as [H' _].
    by edestruct (Hne n y); [lia|].
  - intros Heq. destruct (string_snoc_inj _ _ EmptyString _ Heq) as [H' _].
    by edestruct (Hne n x); [lia|].
  - intros [Hq%IH Hr%digit_inj]%string_snoc_inj; [|apply Hdiv; lia..].
    rewrite (Z.div_mod x 10), (Z.div_mod y 10) by lia. lia.
Qed.

Lemma decimal_inj x y : is_u64 x → is_u64 y → decimal x = decimal y → x = y.
Proof.
  unfold is_u64, u64_max. intros Hx Hy. apply decimal_digits_inj.
  - change (10 ^ Z.of_nat 40) with 10000000000000000000000000000000000000000. lia.
  - change (10 ^ Z.of_nat 40) with 10000000000000000000000000000000000000000. lia.
Qed.

#[local] Close Scope Z_scope.

(** ** Automation *)

(** Case analysis on the first test of the goal, closing what follows by
    computation or arithmetic. *)
Ltac case_tests :=
  repeat (case_decide || case_match); simplify_eq/=; try done; try lia.

(** Arithmetic with division and modulo by constants. *)
Ltac abstract_div a b :=
  let q := fresh "q" in let r := fresh "r" in
  pose proof (Nat.div_mod_eq a b); pose proof (Nat.mod_upper_bound a b);
  set (q := a / b) in *; set (r := a mod b) in *; clearbody q r.
Ltac div_lia :=
  repeat match goal with
         | |- context [?a / ?b] => abstract_div a b
         | H : context [?a / ?b] |- _ => abstract_div a b
         | |- context [?a mod ?b] => abstract_div a b
         | H : context [?a mod ?b] |- _ => abstract_div a b
         end; lia.

(** Keys and identifiers stay distinct: the lemmas [eauto with justapi] closes
    such goals with. *)
Create HintDb justapi.
#[export] Hint Resolve returns_ret assoc_set_nodup assoc_remove_nodup : justapi.
#[export] Hint Resolve sublist_NoDup fmap_sublist sublist_filter sublist_delete : justapi.
#[export] Hint Resolve NoDup_singleton NoDup_nil_2 : justapi.
