(* ===== verification/F32.v ===== *)
(** * F32: the IEEE-754 binary32 numbers of the code

    [f32] is the specification float of the Standard Library with the
    precision (24) and the exponent bound (128) of Rust's [f32].  The
    comparison operators of Rust are the IEEE ones: every comparison with a
    NaN is false, and [partial_cmp] is [None] there. *)

From Stdlib Require Import SpecFloat.
From S2P Require Import Prelude.

#[local] Open Scope Z_scope.

Abbreviation f32 := spec_float.

Definition f32_prec : Z := 24.
Definition f32_emax : Z := 128.

(** [x as f32] for an integer [x], rounded to nearest even. *)
Definition f32_of_Z (x : Z) : f32 := binary_normalize f32_prec f32_emax x 0 false.

(** The number nearest to [m * 2 ^ e]. *)
Definition f32_scaled (m e : Z) : f32 := binary_normalize f32_prec f32_emax m e false.

Definition f32_zero : f32 := S754_zero false.
Definition f32_one : f32 := f32_of_Z 1.
Definition f32_half : f32 := binary_normalize f32_prec f32_emax 1 (-1) false.
Definition f32_neg_infinity : f32 := S754_infinity true.
Definition f32_nan : f32 := S754_nan.

Definition f32_add : f32 → f32 → f32 := SFadd f32_prec f32_emax.
Definition f32_sub : f32 → f32 → f32 := SFsub f32_prec f32_emax.
Definition f32_mul : f32 → f32 → f32 := SFmul f32_prec f32_emax.
Definition f32_div : f32 → f32 → f32 := SFdiv f32_prec f32_emax.

(** [a < b], [a <= b], [a > b], [a >= b]. *)
Definition f32_lt (a b : f32) : bool := SFltb a b.
Definition f32_le (a b : f32) : bool := SFleb a b.
Definition f32_gt (a b : f32) : bool := SFltb b a.
Definition f32_ge (a b : f32) : bool := SFleb b a.

(** [a.partial_cmp(&b)]. *)
Definition f32_partial_cmp (a b : f32) : option comparison := SFcompare a b.

(** [a.partial_cmp(&b).unwrap_or(Ordering::Equal)]. *)
Definition f32_cmp_or_eq (a b : f32) : comparison := default Eq (f32_partial_cmp a b).

(** [f32::max]: a NaN operand is ignored. *)
Definition f32_max (a b : f32) : f32 :=
  match f32_partial_cmp a b with
  | Some Lt => b
  | Some _ => a
  | None => match a with S754_nan => b | _ => a end
  end.

Definition is_nan (a : f32) : bool :=
  match a with S754_nan => true | _ => false end.

#[export] Instance f32_eq_dec : EqDecision f32.
Proof. solve_decision. Defined.

(** ** The numbers that are not NaN are totally preordered *)

(** The rank of a finite mantissa and exponent: [SFcompare] orders two
    finite numbers of the same sign by exponent, then by mantissa. *)
Definition mag_compare (m1 : positive) (e1 : Z) (m2 : positive) (e2 : Z) : comparison :=
  match (e1 ?= e2) with
  | Eq => Pos.compare_cont Eq m1 m2
  | c => c
  end.

Lemma SFcompare_fin s1 m1 e1 s2 m2 e2 :
  SFcompare (S754_finite s1 m1 e1) (S754_finite s2 m2 e2) =
  Some (match s1, s2 with
        | true, false => Lt
        | false, true => Gt
        | false, false => mag_compare m1 e1 m2 e2
        | true, true => CompOpp (mag_compare m1 e1 m2 e2)
        end).
Proof. destruct s1, s2; simpl; unfold mag_compare; try done; by destruct (e1 ?= e2). Qed.

Lemma mag_compare_spec m1 e1 m2 e2 :
  match mag_compare m1 e1 m2 e2 with
  | Lt => e1 < e2 ∨ (e1 = e2 ∧ (m1 < m2)%positive)
  | Eq => e1 = e2 ∧ m1 = m2
  | Gt => e2 < e1 ∨ (e1 = e2 ∧ (m2 < m1)%positive)
  end.
Proof.
  unfold mag_compare. destruct (Z.compare_spec e1 e2); [|by left|by left].
  change (Pos.compare_cont Eq m1 m2) with (m1 ?= m2)%positive.
  destruct (Pos.compare_spec m1 m2); naive_solver.
Qed.

Lemma f32_le_trans a b c :
  is_nan b = false → f32_le a b = true → f32_le b c = true → f32_le a c = true.
Proof.
  unfold f32_le, SFleb. intros _.
  destruct a as [sa|sa| |sa ma ea], b as [sb|sb| |sb mb eb], c as [sc|sc| |sc mc ec];
    rewrite ?SFcompare_fin; try (by destruct sa); try (by destruct sb);
    try (by destruct sc); try (by destruct sa, sb); try (by destruct sb, sc);
    try (by destruct sa, sc); try (by destruct sa, sb, sc); try done.
  pose proof (mag_compare_spec ma ea mb eb) as H1.
  pose proof (mag_compare_spec mb eb mc ec) as H2.
  pose proof (mag_compare_spec ma ea mc ec) as H3.
  destruct sa, sb, sc; try done;
    destruct (mag_compare ma ea mb eb), (mag_compare mb eb mc ec),
      (mag_compare ma ea mc ec); try done; lia.
Qed.

Lemma f32_le_total a b :
  is_nan a = false → is_nan b = false → f32_le a b = false → f32_le b a = true.
Proof.
  unfold f32_le, SFleb.
  destruct a as [sa|sa| |sa ma ea], b as [sb|sb| |sb mb eb];
    rewrite ?SFcompare_fin; try (by destruct sa); try (by destruct sb);
    try (by destruct sa, sb); try done.
  pose proof (mag_compare_spec ma ea mb eb) as H1.
  pose proof (mag_compare_spec mb eb ma ea) as H2.
  destruct sa, sb; try done;
    destruct (mag_compare ma ea mb eb), (mag_compare mb eb ma ea); try done; lia.
Qed.

Lemma f32_le_refl a : is_nan a = false → f32_le a a = true.
Proof.
  unfold f32_le, SFleb. destruct a as [[]|[]| |s m e]; try done.
  intros _. rewrite SFcompare_fin.
  pose proof (mag_compare_spec m e m e) as H.
  destruct s, (mag_compare m e m e); try done; lia.
Qed.

(** [cmp_or_eq] is not [Gt] exactly when [<=] holds, on numbers. *)
Lemma f32_cmp_or_eq_le a b :
  is_nan a = false → is_nan b = false →
  f32_cmp_or_eq a b ≠ Gt ↔ f32_le a b = true.
Proof.
  unfold f32_cmp_or_eq, f32_partial_cmp, f32_le, SFleb. intros Ha Hb.
  destruct (SFcompare a b) as [[]|] eqn:Hab; simpl; try done.
  exfalso. destruct a as [sa|sa| |sa ma ea], b as [sb|sb| |sb mb eb];
    rewrite ?SFcompare_fin in Hab; try done; by destruct sa, sb.
Qed.

Lemma f32_cmp_or_eq_antisym a b : f32_cmp_or_eq b a = CompOpp (f32_cmp_or_eq a b).
Proof.
  unfold f32_cmp_or_eq, f32_partial_cmp.
  destruct a as [sa|sa| |sa ma ea], b as [sb|sb| |sb mb eb]; rewrite ?SFcompare_fin;
    try (by destruct sa); try (by destruct sb); try (by destruct sa, sb); try done.
  pose proof (mag_compare_spec ma ea mb eb) as H1.
  pose proof (mag_compare_spec mb eb ma ea) as H2.
  destruct sa, sb; simpl; try done;
    destruct (mag_compare ma ea mb eb), (mag_compare mb eb ma ea); try done; lia.
Qed.

Example f32_ge_95 : f32_ge (f32_of_Z 95) (f32_of_Z 95) = true.
Proof. reflexivity. Qed.
