(* ===== verification/Text.v ===== *)
(** * Text: the string operations of the Rust standard library

    The methods of [str] and [char] the code uses, on strings of bytes.  A
    [char] is a byte here and white space is the ASCII white space, so the
    operations agree with Rust's on ASCII text. *)

From Stdlib Require Import Ascii.
From S2P Require Import Prelude.

#[local] Open Scope Z_scope.

(** ** Characters *)

Definition code (c : ascii) : Z := Z.of_nat (nat_of_ascii c).

(** [char::is_whitespace]: tab, newline, vertical tab, form feed, carriage
    return and space. *)
Definition is_space (c : ascii) : bool := (code c =? 32) || ((9 <=? code c) && (code c <=? 13)).
Definition is_digit (c : ascii) : bool := (48 <=? code c) && (code c <=? 57).
Definition is_upper (c : ascii) : bool := (65 <=? code c) && (code c <=? 90).
Definition is_lower (c : ascii) : bool := (97 <=? code c) && (code c <=? 122).
Definition is_alphanumeric (c : ascii) : bool := is_digit c || is_upper c || is_lower c.
Definition is_hexdigit (c : ascii) : bool :=
  is_digit c || ((65 <=? code c) && (code c <=? 70)) || ((97 <=? code c) && (code c <=? 102)).

Definition lower_char (c : ascii) : ascii :=
  if is_upper c then ascii_of_nat (nat_of_ascii c + 32) else c.

(** ** Strings as lists of characters *)

Fixpoint str_all (f : ascii → bool) (s : string) : bool :=
  match s with EmptyString => true | String c s' => f c && str_all f s' end.

Fixpoint str_any (f : ascii → bool) (s : string) : bool :=
  match s with EmptyString => false | String c s' => f c || str_any f s' end.

Fixpoint str_map (f : ascii → ascii) (s : string) : string :=
  match s with EmptyString => EmptyString | String c s' => String (f c) (str_map f s') end.

Definition lowercase : string → string := str_map lower_char.

(** [to_uppercase], on ASCII text. *)
Definition upper_char (c : ascii) : ascii :=
  if is_lower c then ascii_of_nat (nat_of_ascii c - 32) else c.
Definition uppercase : string → string := str_map upper_char.

Definition starts_with (p s : string) : bool := String.prefix p s.

Fixpoint str_rev_onto (s acc : string) : string :=
  match s with EmptyString => acc | String c s' => str_rev_onto s' (String c acc) end.
Definition str_rev (s : string) : string := str_rev_onto s EmptyString.

Definition ends_with (p s : string) : bool := String.prefix (str_rev p) (str_rev s).

(** [contains] for a string pattern. *)
Fixpoint contains (p s : string) : bool :=
  String.prefix p s || match s with EmptyString => false | String _ s' => contains p s' end.

Fixpoint str_drop (n : nat) (s : string) : string :=
  match n, s with
  | O, _ => s
  | S n', String _ s' => str_drop n' s'
  | S _, EmptyString => EmptyString
  end.

(** [strip_prefix]. *)
Definition strip_prefix (p s : string) : option string :=
  if String.prefix p s then Some (str_drop (String.length p) s) else None.

(** [trim_start_matches] for a predicate on characters, and its mirror. *)
Fixpoint trim_start_with (f : ascii → bool) (s : string) : string :=
  match s with
  | String c s' => if f c then trim_start_with f s' else s
  | EmptyString => EmptyString
  end.
Definition trim_end_with (f : ascii → bool) (s : string) : string :=
  str_rev (trim_start_with f (str_rev s)).
Definition trim (s : string) : string := trim_end_with is_space (trim_start_with is_space s).

(** [trim_end_matches] for a string that is not empty: every trailing
    occurrence goes; the fuel is the length of the string. *)
Fixpoint trim_end_str_fuel (fuel : nat) (p s : string) : string :=
  match fuel with
  | O => s
  | S fuel' =>
      if ends_with p s
      then trim_end_str_fuel fuel' p (str_rev (str_drop (String.length p) (str_rev s)))
      else s
  end.
Definition trim_end_str (p s : string) : string := trim_end_str_fuel (String.length s) p s.

(** [strip_suffix]. *)
Definition strip_suffix (p s : string) : option string :=
  str_rev <$> strip_prefix (str_rev p) (str_rev s).

(** [trim_start_matches] for a string that is not empty. *)
Fixpoint trim_start_str_fuel (fuel : nat) (p s : string) : string :=
  match fuel, strip_prefix p s with
  | S fuel', Some s' => trim_start_str_fuel fuel' p s'
  | _, _ => s
  end.
Definition trim_start_str (p s : string) : string := trim_start_str_fuel (String.length s) p s.

(** [split] at every character satisfying a predicate: one piece more than
    there are separators. *)
Fixpoint split_with (f : ascii → bool) (s : string) : list string :=
  match s with
  | EmptyString => [EmptyString]
  | String c s' =>
      if f c then EmptyString :: split_with f s'
      else match split_with f s' with
           | [] => [String c EmptyString]
           | x :: xs => String c x :: xs
           end
  end.
Definition split (c : ascii) : string → list string := split_with (Ascii.eqb c).

(** [split_whitespace]: the pieces that are not empty. *)
Definition split_whitespace (s : string) : list string :=
  List.filter (λ p, negb (String.eqb p EmptyString)) (split_with is_space s).

(** [split_once] at the first occurrence of a string pattern. *)
Fixpoint split_once (p s : string) : option (string * string) :=
  if String.prefix p s then Some (EmptyString, str_drop (String.length p) s)
  else match s with
       | EmptyString => None
       | String c s' => match split_once p s' with
                        | Some (a, b) => Some (String c a, b)
                        | None => None
                        end
       end.

(** [rfind] of a character and [split_at]: what is before it, and after. *)
Fixpoint rsplit_at (ch : ascii) (s : string) : option (string * string) :=
  match s with
  | EmptyString => None
  | String a s' =>
      match rsplit_at ch s' with
      | Some (h, t) => Some (String a h, t)
      | None => if Ascii.eqb a ch then Some (EmptyString, s') else None
      end
  end.

Definition newline : string := String (ascii_of_nat 10) EmptyString.
Definition quote : string := String (ascii_of_nat 34) EmptyString.

(** [join]. *)
Definition join (sep : string) (l : list string) : string := String.concat sep l.

(** [str::replace] for a pattern that is not empty; [skip] counts the
    characters of a match still to be passed over. *)
Fixpoint str_replace (pat rep : string) (skip : nat) (s : string) : string :=
  match s with
  | EmptyString => EmptyString
  | String ch s' =>
      match skip with
      | S k => str_replace pat rep k s'
      | O =>
          if String.prefix pat s
          then String.append rep (str_replace pat rep (String.length pat - 1) s')
          else String ch (str_replace pat rep 0 s')
      end
  end.

(** [replace(' ', "-")] for two characters. *)
Definition replace_char (a b : ascii) : string → string :=
  str_map (λ c, if Ascii.eqb c a then b else c).

(** ** Numbers *)

Fixpoint digits_value (acc : Z) (s : string) : option Z :=
  match s with
  | EmptyString => Some acc
  | String c s' => if is_digit c then digits_value (10 * acc + (code c - 48)) s' else None
  end.

(** Digits after an optional sign [+]; [FromStr] refuses an empty number. *)
Definition parse_digits (s : string) : option Z :=
  match s with EmptyString => None | _ => digits_value 0 s end.

Definition parse_unsigned (max : Z) (s : string) : option Z :=
  let body := match s with String "+" s' => s' | _ => s end in
  match parse_digits body with
  | Some n => if n <=? max then Some n else None
  | None => None
  end.

Definition parse_u64 : string → option Z := parse_unsigned u64_max.
Definition parse_u8 : string → option Z := parse_unsigned 255.

Definition parse_i64 (s : string) : option Z :=
  match s with
  | String "-" s' =>
      match parse_digits s' with
      | Some n => if n <=? 2 ^ 63 then Some (- n) else None
      | None => None
      end
  | _ => parse_unsigned (2 ^ 63 - 1) s
  end.

(** [{:x}]. *)
Definition hex_digit (d : Z) : ascii :=
  ascii_of_nat (Z.to_nat (if d <? 10 then 48 + d else 87 + d)).
Fixpoint hex_digits (n : nat) (z : Z) : string :=
  match n with
  | O => EmptyString
  | S n' =>
      let d := String (hex_digit (z mod 16)) EmptyString in
      if z <? 16 then d else String.append (hex_digits n' (z / 16)) d
  end.
Definition hex (z : Z) : string := hex_digits 16 z.

(** [String::from_utf8_lossy]: an ill-formed sequence, up to the byte that
    makes it so, becomes the replacement character. *)
Definition in_range (lo hi : Z) (c : ascii) : bool := (lo <=? code c) && (code c <=? hi).
Definition cont_byte : ascii → bool := in_range 128 191.
Definition replacement : string :=
  String (ascii_of_nat 239) (String (ascii_of_nat 191) (String (ascii_of_nat 189) EmptyString)).

(** The second bytes of a sequence of three or four that begins with [a]. *)
Definition second_byte (a : ascii) : ascii → bool :=
  if code a =? 224 then in_range 160 191
  else if code a =? 237 then in_range 128 159
  else if code a =? 240 then in_range 144 191
  else if code a =? 244 then in_range 128 143
  else cont_byte.

Fixpoint from_utf8_lossy (s : string) : string :=
  match s with
  | EmptyString => EmptyString
  | String a s1 =>
      if code a <? 128 then String a (from_utf8_lossy s1)
      else if in_range 194 223 a then
        match s1 with
        | String b s2 => if cont_byte b then String a (String b (from_utf8_lossy s2))
                         else String.append replacement (from_utf8_lossy s1)
        | EmptyString => replacement
        end
      else if in_range 224 244 a then
        match s1 with
        | String b s2 =>
            if second_byte a b then
              match s2 with
              | String c s3 =>
                  if cont_byte c then
                    if code a <? 240 then String a (String b (String c (from_utf8_lossy s3)))
                    else
                      match s3 with
                      | String d s4 =>
                          if cont_byte d
                          then String a (String b (String c (String d (from_utf8_lossy s4))))
                          else String.append replacement (from_utf8_lossy s3)
                      | EmptyString => replacement
                      end
                  else String.append replacement (from_utf8_lossy s2)
              | EmptyString => replacement
              end
            else String.append replacement (from_utf8_lossy s1)
        | EmptyString => replacement
        end
      else String.append replacement (from_utf8_lossy s1)
  end.

(** [eq_ignore_ascii_case] *)
Definition eq_ignore_case (a b : string) : bool := String.eqb (lowercase a) (lowercase b).

(** ** Lemmas *)

#[local] Arguments String.append : simpl nomatch.

Lemma str_append_nil_r s : String.append s EmptyString = s.
Proof. induction s as [|c s IH]; simpl; [done|]. by rewrite IH. Qed.

Lemma str_append_assoc a b c :
  String.append a (String.append b c) = String.append (String.append a b) c.
Proof. induction a as [|x a IH]; simpl; [done|]. by rewrite IH. Qed.

Lemma str_append_inv s a b : String.append s a = String.append s b → a = b.
Proof. induction s; simpl; [done|]. intros [= ?]. auto. Qed.

Lemma str_length_append a b :
  String.length (String.append a b) = (String.length a + String.length b)%nat.
Proof. induction a as [|x a IH]; simpl; [done|]. by rewrite IH. Qed.

Lemma str_drop_append a b : str_drop (String.length a) (String.append a b) = b.
Proof. by induction a. Qed.

Lemma prefix_spec p s : String.prefix p s = true ↔ ∃ t, s = String.append p t.
Proof.
  revert s. induction p as [|c p IH]; intros s; simpl; [split; [by exists s|by destruct s]|].
  destruct s as [|d s]; [split; [done|by intros [t ?]]|].
  cbn [String.prefix]. destruct (ascii_dec c d) as [->|Hne].
  - rewrite IH. split; intros [t Ht]; exists t; [by rewrite Ht|by injection Ht].
  - split; [done|]. intros [t [= -> _]]. done.
Qed.

Lemma contains_spec p s :
  contains p s = true ↔ ∃ a b, s = String.append a (String.append p b).
Proof.
  induction s as [|c s IH]; cbn [contains]; rewrite orb_true_iff, prefix_spec.
  - split; [intros [[t Ht]|]; [by exists EmptyString, t|done]|].
    intros ([|x a] & b & Hs); [left; by exists b|done].
  - rewrite IH. split.
    + intros [[t Ht]|(a & b & ->)]; [by exists EmptyString, t|by exists (String c a), b].
    + intros ([|x a] & b & Hs); simpl in Hs; [left; by exists b|].
      injection Hs as -> ->. right. by exists a, b.
Qed.

Lemma strip_prefix_spec p s t : strip_prefix p s = Some t ↔ s = String.append p t.
Proof.
  unfold strip_prefix. destruct (String.prefix p s) eqn:Hp.
  - apply prefix_spec in Hp as [u ->]. rewrite str_drop_append.
    split; [by intros [= ->]|]. by intros ->%str_append_inv.
  - split; [done|]. intros ->. assert (String.prefix p (String.append p t) = true) by
      (apply prefix_spec; by exists t). congruence.
Qed.

Lemma str_all_append f a b : str_all f (String.append a b) = str_all f a && str_all f b.
Proof. induction a as [|c a IH]; simpl; [done|]. by rewrite IH, andb_assoc. Qed.

Lemma str_all_impl (f g : ascii → bool) s :
  (∀ c, f c = true → g c = true) → str_all f s = true → str_all g s = true.
Proof.
  intros Hfg. induction s as [|c s IH]; simpl; [done|]. rewrite !andb_true_iff. naive_solver.
Qed.

(** A split gives back its pieces, none of which has a separator. *)
Lemma split_with_pieces f s x : x ∈ split_with f s → str_all (λ c, negb (f c)) x = true.
Proof.
  revert x. induction s as [|c s IH]; intros x; simpl.
  - by intros ->%list_elem_of_singleton.
  - destruct (f c) eqn:Hc.
    + intros [->|Hx]%elem_of_cons; [done|auto].
    + destruct (split_with f s) as [|y ys].
      * intros ->%list_elem_of_singleton. simpl. by rewrite Hc.
      * intros [->|Hx]%elem_of_cons; [|apply IH; by right].
        simpl. rewrite Hc. simpl. apply IH. left.
Qed.

Lemma split_with_cons f s : ∃ x xs, split_with f s = x :: xs.
Proof.
  destruct s as [|c s]; simpl; [by eexists _, _|]. destruct (f c); [by eexists _, _|].
  destruct (split_with f s); by eexists _, _.
Qed.

Lemma split_join c s : join (String c EmptyString) (split c s) = s.
Proof.
  unfold split, join. induction s as [|d s IH]; [done|]. cbn [split_with].
  destruct (split_with_cons (Ascii.eqb c) s) as (x & xs & Hx). rewrite Hx in IH |- *.
  destruct (Ascii.eqb_spec c d) as [->|Hne].
  - simpl in *. by rewrite IH.
  - destruct xs; simpl in *; by rewrite <- IH.
Qed.

Lemma digits_value_bound acc s n : 0 ≤ acc → digits_value acc s = Some n → acc ≤ n.
Proof.
  revert acc. induction s as [|c s IH]; intros acc Hacc; simpl; [intros [= ->]; lia|].
  destruct (is_digit c) eqn:Hc; [|done]. unfold is_digit in Hc.
  apply andb_true_iff in Hc as [H1%Z.leb_le H2%Z.leb_le]. intros Hn.
  apply IH in Hn; [|lia]. lia.
Qed.

Lemma parse_unsigned_bound max s n : parse_unsigned max s = Some n → 0 ≤ n ≤ max.
Proof.
  unfold parse_unsigned. destruct (parse_digits _) as [m|] eqn:Hm; [|done].
  destruct (Z.leb_spec m max); [|done]. intros [= <-]. split; [|done].
  unfold parse_digits in Hm. destruct (match s with String _ _ => _ | _ => _ end); [done|].
  eapply digits_value_bound; [|exact Hm]. lia.
Qed.

(** A number reads back as it was written. *)
Lemma digits_value_snoc acc s c :
  digits_value acc (String.append s (String c EmptyString))
  = v ← digits_value acc s; if is_digit c then Some (10 * v + (code c - 48)) else None.
Proof.
  revert acc. induction s as [|d s IH]; intros acc; simpl; [by destruct (is_digit c)|].
  destruct (is_digit d); [apply IH|done].
Qed.

Lemma code_digit d : 0 ≤ d < 10 → code (ascii_of_nat (48 + Z.to_nat d)) = 48 + d.
Proof. intros Hd. unfold code. rewrite nat_ascii_embedding by lia. lia. Qed.

Lemma is_digit_digit d : 0 ≤ d < 10 → is_digit (ascii_of_nat (48 + Z.to_nat d)) = true.
Proof. intros Hd. unfold is_digit. rewrite code_digit by done. lia. Qed.

Lemma digits_value_decimal n z :
  0 ≤ z < 10 ^ Z.of_nat n → digits_value 0 (decimal_digits n z) = Some z.
Proof.
  revert z. induction n as [|n IH]; intros z Hz.
  { change (10 ^ Z.of_nat 0) with 1 in Hz. simpl. f_equal. lia. }
  rewrite Nat2Z.inj_succ, Z.pow_succ_r in Hz by lia.
  pose proof (Z.mod_pos_bound z 10 ltac:(lia)). cbn [decimal_digits].
  destruct (Z.ltb_spec z 10).
  - cbn [digits_value]. rewrite is_digit_digit, code_digit by done.
    f_equal. rewrite Z.mod_small by lia. lia.
  - rewrite digits_value_snoc, IH.
    + cbn [mbind option_bind]. rewrite is_digit_digit, code_digit by done. f_equal.
      pose proof (Z.div_mod z 10). lia.
    + split; [apply Z.div_pos; lia|]. apply Z.div_lt_upper_bound; lia.
Qed.

Lemma decimal_all_digits n z : str_all is_digit (decimal_digits n z) = true.
Proof.
  revert z. induction n as [|n IH]; intros z; [done|]. cbn [decimal_digits].
  pose proof (Z.mod_pos_bound z 10 ltac:(lia)).
  destruct (z <? 10); rewrite ?str_all_append, ?IH; cbn [str_all]; by rewrite is_digit_digit.
Qed.

Lemma decimal_digits_nonempty n z : decimal_digits (S n) z ≠ EmptyString.
Proof. simpl. destruct (z <? 10); [done|]. by destruct (decimal_digits n (z / 10)). Qed.

Lemma decimal_cons z : ∃ c s, decimal z = String c s ∧ is_digit c = true.
Proof.
  pose proof (decimal_all_digits 40 z) as Hall. pose proof (decimal_digits_nonempty 39 z) as Hne.
  unfold decimal. destruct (decimal_digits 40 z) as [|c s]; [done|].
  exists c, s. split; [done|]. by apply andb_true_iff in Hall as [? _].
Qed.

Lemma parse_digits_decimal z : 0 ≤ z < 10 ^ 40 → parse_digits (decimal z) = Some z.
Proof.
  intros Hz. destruct (decimal_cons z) as (c & s & Hc & _). unfold parse_digits. rewrite Hc at 1.
  by apply digits_value_decimal.
Qed.

Lemma parse_unsigned_decimal max z :
  0 ≤ z ≤ max → z < 10 ^ 40 → parse_unsigned max (decimal z) = Some z.
Proof.
  intros Hz Hlt. destruct (decimal_cons z) as (c & s & Hc & Hd). unfold parse_unsigned.
  assert ((match decimal z with String "+" s' => s' | _ => decimal z end) = decimal z) as ->.
  { rewrite Hc. destruct c as [[] [] [] [] [] [] [] []]; try done. }
  rewrite parse_digits_decimal by lia. destruct (Z.leb_spec z max); [done|lia].
Qed.

Lemma parse_u64_decimal z : is_u64 z → parse_u64 (decimal z) = Some z.
Proof.
  unfold is_u64, u64_max. intros Hz. apply parse_unsigned_decimal; [unfold u64_max; lia|].
  change (10 ^ 40) with 10000000000000000000000000000000000000000. lia.
Qed.

(** Splitting at a separator, and strings without one. *)
Lemma split_with_append f a c b :
  f c = true → split_with f (String.append a (String c b)) = split_with f a ++ split_with f b.
Proof.
  intros Hc. induction a as [|d a IH]; simpl; [by rewrite Hc|].
  destruct (f d); [by rewrite IH|]. rewrite IH.
  destruct (split_with_cons f a) as (x & xs & ->). done.
Qed.

Lemma split_append c a b : split c (String.append a (String c b)) = split c a ++ split c b.
Proof. apply split_with_append, Ascii.eqb_refl. Qed.

Lemma split_with_none f s : str_all (λ c, negb (f c)) s = true → split_with f s = [s].
Proof.
  induction s as [|c s IH]; simpl; [done|]. rewrite andb_true_iff, negb_true_iff.
  intros [-> Hs]. by rewrite IH.
Qed.

(** [str_rev] and trimming. *)
Lemma str_rev_onto_append s acc : str_rev_onto s acc = String.append (str_rev s) acc.
Proof.
  unfold str_rev. revert acc. induction s as [|c s IH]; intros acc; [done|]. cbn [str_rev_onto].
  rewrite IH, (IH (String c EmptyString)), <- str_append_assoc. done.
Qed.

Lemma str_rev_cons c s : str_rev (String c s) = String.append (str_rev s) (String c EmptyString).
Proof. unfold str_rev. cbn [str_rev_onto]. apply str_rev_onto_append. Qed.

Lemma str_rev_append a b : str_rev (String.append a b) = String.append (str_rev b) (str_rev a).
Proof.
  induction a as [|c a IH]; cbn [String.append].
  - by rewrite str_append_nil_r.
  - by rewrite !str_rev_cons, IH, str_append_assoc.
Qed.

Lemma str_rev_rev s : str_rev (str_rev s) = s.
Proof. induction s as [|c s IH]; [done|]. by rewrite str_rev_cons, str_rev_append, IH. Qed.

Lemma str_all_rev f s : str_all f (str_rev s) = str_all f s.
Proof.
  induction s as [|c s IH]; [done|]. rewrite str_rev_cons, str_all_append, IH. simpl.
  by rewrite andb_true_r, andb_comm.
Qed.

Lemma trim_start_none f s : str_all (λ c, negb (f c)) s = true → trim_start_with f s = s.
Proof. destruct s as [|c s]; simpl; [done|]. by destruct (f c). Qed.

Lemma trim_none s : str_all (λ c, negb (is_space c)) s = true → trim s = s.
Proof.
  intros Hs. unfold trim, trim_end_with. rewrite (trim_start_none is_space s) by done.
  rewrite trim_start_none by by rewrite str_all_rev. apply str_rev_rev.
Qed.

Lemma ends_with_spec p s : ends_with p s = true ↔ ∃ t, s = String.append t p.
Proof.
  unfold ends_with. rewrite prefix_spec. split.
  - intros [t Ht]. exists (str_rev t). by rewrite <- (str_rev_rev s), Ht, str_rev_append, str_rev_rev.
  - intros [t ->]. exists (str_rev t). by rewrite str_rev_append.
Qed.

Lemma contains_append_l p a b : contains p a = true → contains p (String.append a b) = true.
Proof.
  rewrite !contains_spec. intros (x & y & ->). exists x, (String.append y b).
  by rewrite !str_append_assoc.
Qed.

Lemma split_with_head f s y ys : split_with f s = y :: ys → ∃ b, s = String.append y b.
Proof.
  revert y ys. induction s as [|c s IH]; intros y ys; simpl; [intros [= <- _]; by exists EmptyString|].
  destruct (f c); [intros [= <- _]; by exists (String c s)|].
  destruct (split_with_cons f s) as (z & zs & Hz). rewrite Hz. intros [= <- _].
  destruct (IH _ _ Hz) as [b ->]. by exists b.
Qed.

Lemma split_with_piece f s x : x ∈ split_with f s → ∃ a b, s = String.append a (String.append x b).
Proof.
  induction s as [|c s IH]; intros Hx; simpl in Hx.
  - apply list_elem_of_singleton in Hx as ->. by exists EmptyString, EmptyString.
  - destruct (f c) eqn:Hc.
    + apply elem_of_cons in Hx as [->|Hx]; [by exists EmptyString, (String c s)|].
      destruct (IH Hx) as (a & b & ->). by exists (String c a), b.
    + destruct (split_with_cons f s) as (y & ys & Hys). rewrite Hys in Hx, IH.
      apply elem_of_cons in Hx as [->|Hx].
      * destruct (split_with_head _ _ _ _ Hys) as [b ->]. by exists EmptyString, b.
      * destruct IH as (a & b & ->); [by right|]. by exists (String c a), b.
Qed.

(** A string a piece of which contains [p] contains it. *)
Lemma split_with_contains f s x p :
  x ∈ split_with f s → contains p x = true → contains p s = true.
Proof.
  intros (a & b & ->)%split_with_piece (u & v & ->)%contains_spec. apply contains_spec.
  exists (String.append a u), (String.append v b). by rewrite !str_append_assoc.
Qed.

Lemma strip_suffix_append p a : strip_suffix p (String.append a p) = Some a.
Proof.
  unfold strip_suffix. rewrite str_rev_append, (proj2 (strip_prefix_spec _ _ _) eq_refl).
  simpl. by rewrite str_rev_rev.
Qed.

Lemma split_once_char c a b :
  str_all (λ x, negb (Ascii.eqb c x)) a = true →
  split_once (String c EmptyString) (String.append a (String c b)) = Some (a, b).
Proof.
  assert (∀ x s, String.prefix (String c EmptyString) (String x s) = Ascii.eqb c x) as Hp.
  { intros x s. cbn [String.prefix]. destruct (ascii_dec c x) as [->|Hne].
    - rewrite Ascii.eqb_refl. by destruct s.
    - symmetry. by apply Ascii.eqb_neq. }
  induction a as [|x a IH]; intros Ha.
  - cbn [String.append split_once]. rewrite Hp, Ascii.eqb_refl. by destruct b.
  - cbn [str_all] in Ha. apply andb_true_iff in Ha as [Hx Ha]. apply negb_true_iff in Hx.
    cbn [String.append split_once]. by rewrite Hp, Hx, IH.
Qed.

(** A closed statement of one character, by its bits. *)
Ltac each_char := let c := fresh in intros c; destruct c as [[] [] [] [] [] [] [] []]; vm_compute; intros; congruence.

Lemma concat_cons (x : string) l : String.concat EmptyString (x :: l) = String.append x (String.concat EmptyString l).
Proof. destruct l; simpl; [by rewrite str_append_nil_r|done]. Qed.

(** ** The last occurrence *)

Lemma rsplit_at_none c s : str_all (λ x, negb (Ascii.eqb x c)) s = true → rsplit_at c s = None.
Proof.
  induction s as [|a s IH]; [done|]. cbn [str_all rsplit_at]. intros [Ha%negb_true_iff Hs]%andb_prop. by rewrite IH, Ha.
Qed.

Lemma rsplit_at_last c h t : str_all (λ x, negb (Ascii.eqb x c)) t = true → rsplit_at c (h +:+ String c t) = Some (h, t).
Proof.
  intros Ht. induction h as [|a h IH].
  - change ("" +:+ String c t) with (String c t). cbn [rsplit_at]. by rewrite rsplit_at_none, Ascii.eqb_refl.
  - change (String a h +:+ String c t) with (String a (h +:+ String c t)). cbn [rsplit_at]. by rewrite IH.
Qed.

Lemma rsplit_at_snoc c s e h t :
  rsplit_at c (s +:+ String e EmptyString) = Some (h, t) → Ascii.eqb e c = false →
  ∃ t', t = t' +:+ String e EmptyString.
Proof.
  intros Hs He. revert h t Hs. induction s as [|a s IH]; intros h t.
  - change ("" +:+ String e EmptyString) with (String e EmptyString). cbn [rsplit_at]. by rewrite He.
  - change (String a s +:+ String e EmptyString) with (String a (s +:+ String e EmptyString)). cbn [rsplit_at].
    destruct (rsplit_at c (s +:+ _)) as [[h' t']|]; intros Heq; [simplify_eq; by eapply IH|].
    destruct (Ascii.eqb a c); simplify_eq. by exists s.
Qed.
