(* ===== verification/F64.v ===== *)
(** * F64: the IEEE-754 binary64 numbers of the code

    [f64] is the specification float of the Standard Library with the
    precision (53) and the exponent bound (1024) of Rust's [f64], and the
    decimal literals [f64::from_str] reads.  The comparisons are those of
    [F32]: they do not depend on the precision. *)

From Stdlib Require Import Ascii SpecFloat.
From S2P Require Import Prelude F32 Text.

#[local] Open Scope Z_scope.

Abbreviation f64 := spec_float.

Definition f64_prec : Z := 53.
Definition f64_emax : Z := 1024.

Definition f64_of_Z (x : Z) : f64 := binary_normalize f64_prec f64_emax x 0 false.
Definition f64_zero : f64 := S754_zero false.
Definition f64_one : f64 := f64_of_Z 1.

Definition f64_add : f64 → f64 → f64 := SFadd f64_prec f64_emax.
Definition f64_mul : f64 → f64 → f64 := SFmul f64_prec f64_emax.
Definition f64_div : f64 → f64 → f64 := SFdiv f64_prec f64_emax.

(** [x as u64]: towards zero, clamped, and 0 for a NaN. *)
Definition f64_to_u64 (x : f64) : Z :=
  match x with
  | S754_finite false m e => Z.min (Z.shiftl (Zpos m) e) u64_max
  | S754_infinity false => u64_max
  | _ => 0
  end.

(** [{:.3}] of a number that is not negative. *)
Definition f64_fixed3 (x : f64) : string :=
  let thousandths := match x with S754_finite _ m e => round_half_even (Zpos m * 1000 * 2 ^ Z.max 0 e) (2 ^ Z.max 0 (- e)) | _ => 0 end in
  let frac := decimal (thousandths mod 1000) in
  String.concat EmptyString
    [decimal (thousandths / 1000); "."; String.substring 0 (3 - String.length frac) "000"; frac]%string.

(** ** Decimal literals, for any precision *)

Definition sign_of (s : string) : bool * string :=
  match s with
  | String "-" s' => (true, s')
  | String "+" s' => (false, s')
  | _ => (false, s)
  end.

(** The exponent after an [e]. *)
Definition parse_exponent (s : string) : option Z :=
  let '(negative, digits) := sign_of s in
  n ← parse_digits digits;
  Some (if negative then - n else n).

(** [digits], [digits.], [.digits] or [digits.digits]: the digits as one number
    and how many of them stand behind the point. *)
Definition parse_mantissa (s : string) : option (Z * Z) :=
  match split_once "." s with
  | None => n ← parse_digits s; Some (n, 0)
  | Some (whole, frac) =>
      let digits := String.append whole frac in
      n ← parse_digits digits; Some (n, Z.of_nat (String.length frac))
  end.

Section decimal.
Context (prec emax : Z).

(** The number nearest to [m * 10 ^ e] with its sign, for [m >= 0]. *)
Definition float_decimal (negative : bool) (m e : Z) : spec_float :=
  match m with
  | Zpos p =>
      if 0 <=? e then
        binary_normalize prec emax ((if negative then -1 else 1) * m * 10 ^ e) 0 negative
      else
        SFdiv prec emax (S754_finite negative p 0) (S754_finite false (Z.to_pos (10 ^ - e)) 0)
  | _ => S754_zero negative
  end.

Definition parse_number (negative : bool) (s : string) : option spec_float :=
  let '(mantissa, exponent) :=
    match split_once "e" s with Some (m, e) => (m, Some e) | None => (s, None) end in
  '(m, k) ← parse_mantissa mantissa;
  e ← match exponent with None => Some 0 | Some e => parse_exponent e end;
  Some (float_decimal negative m (e - k)).

(** [from_str] *)
Definition parse_float (s : string) : option spec_float :=
  let '(negative, body) := sign_of (lowercase s) in
  if (String.eqb body "inf" || String.eqb body "infinity")%bool then Some (S754_infinity negative)
  else if String.eqb body "nan" then Some S754_nan
  else parse_number negative body.
End decimal.

Definition parse_f64 : string → option f64 := parse_float f64_prec f64_emax.
Definition parse_f32 : string → option f32 := parse_float f32_prec f32_emax.

Example parse_half : parse_f64 "0.5" = Some (S754_finite false 4503599627370496 (-53)).
Proof. vm_compute. reflexivity. Qed.
Example parse_tenth : parse_f64 ".1" = Some (S754_finite false 7205759403792794 (-56)).
Proof. vm_compute. reflexivity. Qed.
Example parse_large : parse_f64 "1e3" = Some (f64_of_Z 1000).
Proof. vm_compute. reflexivity. Qed.
Example parse_huge : parse_f64 "1E400" = Some (S754_infinity false).
Proof. vm_compute. reflexivity. Qed.
Example parse_bad : parse_f64 "." = None ∧ parse_f64 "1.2.3" = None ∧ parse_f64 "" = None.
Proof. vm_compute. auto. Qed.
Example to_u64 : f64_to_u64 (f64_of_Z 1500) = 1500 ∧ f64_to_u64 (S754_finite false 3 (-1)) = 1.
Proof. vm_compute. auto. Qed.
Example fixed3 : f64_fixed3 (f64_div (f64_of_Z 2005) (f64_of_Z 1000)) = "2.005"%string.
Proof. vm_compute. reflexivity. Qed.
