(* ===== verification/Paths.v ===== *)
(** * Paths: file paths as [std::path] reads them

    The methods of [Path] on Unix: components, joins, prefixes of whole
    components, file names and extensions. *)

From Stdlib Require Import Ascii.
From S2P Require Import Prelude Text.

Definition is_absolute (p : string) : bool := starts_with "/" p.

Definition normal_part (c : string) : bool := negb (String.eqb c "") && negb (String.eqb c ".").

(** [Path::components]: empty parts and dots are skipped, but for a leading
    dot. *)
Definition components (p : string) : list string :=
  match split "/" p with
  | c :: cs => if String.eqb c "." then c :: List.filter normal_part cs
               else List.filter normal_part (c :: cs)
  | [] => []
  end.

Fixpoint is_prefix (a b : list string) : bool :=
  match a, b with
  | [], _ => true
  | x :: a', y :: b' => String.eqb x y && is_prefix a' b'
  | _, _ => false
  end.

(** [Path::starts_with] compares whole components. *)
Definition path_starts_with (p base : string) : bool :=
  Bool.eqb (is_absolute p) (is_absolute base) && is_prefix (components base) (components p).

(** [Path::join] with a relative path. *)
Definition path_join (root rel : string) : string :=
  if String.eqb root "" then rel
  else if ends_with "/" root then String.append root rel
  else String.append root (String "/" rel).

Definition file_name (p : string) : option string :=
  match last (components p) with Some ".." | None => None | Some c => Some c end%string.

(** What follows the last dot of the file name, unless it is its first
    character. *)
Fixpoint after_last_dot (s : string) : option string :=
  match s with
  | EmptyString => None
  | String c s' =>
      match after_last_dot s' with
      | Some e => Some e
      | None => if Ascii.eqb c "." then Some s' else None
      end
  end.
Definition extension (p : string) : option string :=
  match file_name p with
  | Some (String _ name) => after_last_dot name
  | _ => None
  end.

(** ** Lemmas *)

Lemma is_prefix_app a b : is_prefix a (a ++ b) = true.
Proof. induction a as [|x a IH]; simpl; [done|]. by rewrite String.eqb_refl. Qed.

Lemma is_prefix_spec a b : is_prefix a b = true ↔ ∃ c, b = a ++ c.
Proof.
  split; [|intros [c ->]; apply is_prefix_app].
  revert b. induction a as [|x a IH]; intros b; simpl; [by exists b|]. destruct b as [|y b]; [done|].
  rewrite andb_true_iff, String.eqb_eq. intros [-> [c ->]%IH]. by exists c.
Qed.

(** The parts of a path a component comes from. *)
Lemma components_part p c : c ∈ components p → c ∈ split "/" p.
Proof.
  unfold components. destruct (split "/" p) as [|x xs]; [done|].
  rewrite list_elem_of_In. destruct (String.eqb x "."); simpl.
  - intros [->|[H _]%filter_In]; [left|right; by apply list_elem_of_In].
  - destruct (normal_part x); simpl.
    + intros [->|[H _]%filter_In]; [left|right; by apply list_elem_of_In].
    + intros [H _]%filter_In. right. by apply list_elem_of_In.
Qed.

(** The components of a joined path are the root's and some of the relative
    path's. *)
Lemma components_join root rel :
  ∃ cs, components (path_join root rel) = components root ++ cs ∧ ∀ c, c ∈ cs → c ∈ split "/" rel.
Proof.
  unfold path_join. destruct (String.eqb_spec root "") as [->|Hne].
  { exists (components rel). split; [done|]. intros c. apply components_part. }
  assert (∀ r, components (String.append r (String "/" rel))
               = components r ++ List.filter normal_part (split "/" rel)) as Hc.
  { intros r. unfold components. rewrite split_append. unfold split.
    destruct (split_with_cons (Ascii.eqb "/") r) as (x & xs & ->). simpl.
    destruct (String.eqb x "."); [by rewrite List.filter_app|].
    rewrite List.filter_app. destruct (normal_part x); done. }
  assert (∀ c, c ∈ List.filter normal_part (split "/" rel) → c ∈ split "/" rel) as Hf.
  { intros c. rewrite !list_elem_of_In, filter_In. tauto. }
  exists (List.filter normal_part (split "/" rel)). split; [|done].
  destruct (ends_with "/" root) eqn:He; [|apply Hc].
  apply ends_with_spec in He as [r ->]. rewrite <- str_append_assoc. cbn [String.append].
  rewrite Hc. f_equal. unfold components. rewrite split_append. unfold split.
  destruct (split_with_cons (Ascii.eqb "/") r) as (x & xs & ->). simpl.
  destruct (String.eqb x "."); rewrite List.filter_app; simpl; rewrite app_nil_r; [done|].
  by destruct (normal_part x); rewrite ?List.filter_app; simpl; rewrite ?app_nil_r.
Qed.

