(* ===== verification/Http.v ===== *)
(** * Http: requests, responses and JSON values

    The data the web side of the program works on: the types of the [http] and
    [serde_json] crates as records and an inductive, and the error responses of
    [crates/justapi-core/src/lib.rs] and [middleware.rs].  Header names are
    lower case, as the crate keeps them; a body is its bytes.  How a JSON value
    is written as text is [serde_json]'s business, a parameter. *)

From Stdlib Require Import Ascii.
From S2P Require Import Prelude Text.

#[local] Open Scope Z_scope.

(** ** JSON *)

Inductive number := IntNumber (n : Z) | FloatNumber (text : string).

(** [serde_json::Value]; an object is an association list, in an order no
    theorem relies on. *)
#[local] Unset Elimination Schemes.
Inductive json :=
| JNull
| JBool (b : bool)
| JNumber (n : number)
| JString (s : string)
| JArray (l : list json)
| JObject (o : list (string * json)).
#[local] Set Elimination Schemes.

Section json_ind.
Context (P : json → Prop).
Hypothesis Pnull : P JNull.
Hypothesis Pbool : ∀ b, P (JBool b).
Hypothesis Pnumber : ∀ n, P (JNumber n).
Hypothesis Pstring : ∀ s, P (JString s).
Hypothesis Parray : ∀ l, Forall P l → P (JArray l).
Hypothesis Pobject : ∀ o, Forall (λ kv : string * json, P kv.2) o → P (JObject o).

Fixpoint json_ind (j : json) : P j :=
  match j with
  | JNull => Pnull
  | JBool b => Pbool b
  | JNumber n => Pnumber n
  | JString s => Pstring s
  | JArray l =>
      Parray l ((fix go (l : list json) : Forall P l :=
                   match l with
                   | [] => List.Forall_nil _
                   | x :: l' => List.Forall_cons _ x l' (json_ind x) (go l')
                   end) l)
  | JObject o =>
      Pobject o ((fix go (o : list (string * json)) : Forall (λ kv, P kv.2) o :=
                    match o with
                    | [] => List.Forall_nil _
                    | x :: o' => List.Forall_cons _ x o' (json_ind x.2) (go o')
                    end) o)
  end.
End json_ind.

#[export] Instance number_eq_dec : EqDecision number.
Proof. solve_decision. Defined.

(** Values are compared with [==]; the order of an object's entries counts
    here. *)
Fixpoint json_eqb (a b : json) : bool :=
  match a, b with
  | JNull, JNull => true
  | JBool x, JBool y => Bool.eqb x y
  | JNumber x, JNumber y => bool_decide (x = y)
  | JString x, JString y => String.eqb x y
  | JArray l, JArray k =>
      (fix go (l k : list json) : bool :=
         match l, k with
         | [], [] => true
         | x :: l', y :: k' => json_eqb x y && go l' k'
         | _, _ => false
         end) l k
  | JObject l, JObject k =>
      (fix go (l k : list (string * json)) : bool :=
         match l, k with
         | [], [] => true
         | x :: l', y :: k' => String.eqb x.1 y.1 && json_eqb x.2 y.2 && go l' k'
         | _, _ => false
         end) l k
  | _, _ => false
  end.

Lemma json_eqb_eq a b : json_eqb a b = true ↔ a = b.
Proof.
  revert b. induction a as [|x|x|x|l IH|l IH] using json_ind; intros [];
    simpl; try (split; [done|congruence]).
  - rewrite Bool.eqb_true_iff. naive_solver.
  - rewrite bool_decide_eq_true. naive_solver.
  - rewrite String.eqb_eq. naive_solver.
  - rename l0 into k. assert (∀ P Q R : Prop, (P ↔ Q) → (Q ↔ R) → (P ↔ R)) as Htr by tauto.
    apply (Htr _ (l = k)); [|split; congruence]. revert k.
    induction IH as [|x l Hx _ IHl]; intros [|y k]; try (split; [done|congruence]).
    rewrite andb_true_iff, Hx, IHl. naive_solver.
  - rename o into k. assert (∀ P Q R : Prop, (P ↔ Q) → (Q ↔ R) → (P ↔ R)) as Htr by tauto.
    apply (Htr _ (l = k)); [|split; congruence]. revert k.
    induction IH as [|[n x] l Hx _ IHl]; intros [|[n2 y] k]; try (split; [done|congruence]).
    simpl in *. rewrite !andb_true_iff, String.eqb_eq, Hx, IHl. naive_solver.
Qed.

#[export] Instance json_eq_dec : EqDecision json.
Proof.
  intros a b. destruct (json_eqb a b) eqn:H; [left; by apply json_eqb_eq|right].
  intros H'%json_eqb_eq. congruence.
Defined.

(** [Value::get], [as_str], [as_array], [as_object]. *)
Definition json_get (k : string) (j : json) : option json :=
  match j with JObject o => assoc_get k o | _ => None end.
Definition as_str (j : json) : option string := match j with JString s => Some s | _ => None end.
Definition as_array (j : json) : option (list json) :=
  match j with JArray l => Some l | _ => None end.
Definition as_object (j : json) : option (list (string * json)) :=
  match j with JObject o => Some o | _ => None end.
Definition is_object (j : json) : bool := match j with JObject _ => true | _ => false end.

Definition json_int (n : Z) : json := JNumber (IntNumber n).

(** [Value::to_string]. *)
Class SerdeJson := { json_to_string : json → string }.

(** ** Headers *)

Abbreviation HeaderMap := (list (string * string)).

(** [HeaderValue::to_str]: visible ASCII, spaces and tabs. *)
Definition visible (s : string) : bool :=
  str_all (λ c, ((32 <=? code c) && (code c <=? 126)) || (code c =? 9)) s.

(** [headers.get(name).and_then(|v| v.to_str().ok())]: the first value. *)
Definition header_str (name : string) (hs : HeaderMap) : option string :=
  match assoc_get name hs with
  | Some v => if visible v then Some v else None
  | None => None
  end.

(** [HeaderMap::insert]: the new value takes the place of all the old ones. *)
Definition header_insert (name value : string) (hs : HeaderMap) : HeaderMap :=
  filter (λ h : string * string, h.1 ≠ name) hs ++ [(name, value)].

(** [HeaderMap::append]: the old values stay. *)
Definition header_append (name value : string) (hs : HeaderMap) : HeaderMap :=
  hs ++ [(name, value)].

Definition header_remove (name : string) (hs : HeaderMap) : HeaderMap :=
  filter (λ h : string * string, h.1 ≠ name) hs.

(** [HeaderValue::from_str]: bytes 32 to 255 but 127, and tabs. *)
Definition header_value (s : string) : option string :=
  if str_all (λ c, ((32 <=? code c) && negb (code c =? 127)) || (code c =? 9)) s
  then Some s else None.

(** ** Requests and responses *)

Record Response := mk_response {
  status : Z; headers : HeaderMap; body : string }.

(** What a handler answers: a response, or an error of [anyhow]. *)
Definition outcome : Type := Response + string.

(** The typed extensions of a request the code sets or reads, one field for
    each type: [Value] (the claims of a token), [SocketAddr], [Option<SocketAddr>]
    and [Vec<(String, String)>] (the parameters of the path). *)
Record Extensions := mk_extensions {
  ext_claims : option json;
  ext_addr : option string;
  ext_peer : option (option string);
  ext_params : option (list (string * string)) }.

Definition no_extensions : Extensions := mk_extensions None None None None.

(** A body whose stream breaks before its end is [None]. *)
Record Request := mk_http_request {
  req_method : string;
  req_path : string;
  req_query : option string;
  req_headers : HeaderMap;
  req_body : option string;
  req_ext : Extensions }.

(** A request as it arrives. *)
Definition new_request (method path : string) (query : option string) (hs : HeaderMap) (b : option string)
    : Request := mk_http_request method path query hs b no_extensions.

Definition req_claims (r : Request) : option json := ext_claims (req_ext r).
Definition req_ip (r : Request) : option string := ext_addr (req_ext r).

Definition with_ext (f : Extensions → Extensions) (r : Request) : Request :=
  mk_http_request (req_method r) (req_path r) (req_query r) (req_headers r) (req_body r) (f (req_ext r)).

(** [HeaderName::from_bytes]: the characters of a token, in lower case. *)
Definition token_char (c : ascii) : bool :=
  is_alphanumeric c || existsb (Ascii.eqb c) (String.list_ascii_of_string "!#$%&'*+-.^_`|~").
Definition header_name_from (s : string) : option string :=
  if str_all token_char s && negb (String.eqb s EmptyString) then Some (lowercase s) else None.

(** [builder.body(..).unwrap()]: a value that is no header value panics. *)
Definition build_response (st : Z) (hs : HeaderMap) (b : string) : exec Response :=
  if forallb (λ h : string * string, bool_decide (is_Some (header_value h.2))) hs
  then Ret (mk_response st hs b) else Panic.

(** [extensions_mut().insert(..)] of claims, of a peer and of path parameters. *)
Definition with_claims (claims : json) : Request → Request :=
  with_ext (λ e, mk_extensions (Some claims) (ext_addr e) (ext_peer e) (ext_params e)).
Definition with_peer (peer : option string) : Request → Request :=
  with_ext (λ e, mk_extensions (ext_claims e) (ext_addr e) (Some peer) (ext_params e)).
Definition with_params (params : list (string * string)) : Request → Request :=
  with_ext (λ e, mk_extensions (ext_claims e) (ext_addr e) (ext_peer e) (Some params)).

Definition with_headers (f : HeaderMap → HeaderMap) (r : Response) : Response :=
  mk_response (status r) (f (headers r)) (body r).

Definition content_length (b : string) : string * string :=
  ("content-length"%string, decimal (Z.of_nat (String.length b))).

(** [lib.rs], [json_response]. *)
Definition json_response (st : Z) (b : string) : Response :=
  mk_response st [("content-type"%string, "application/json"%string); content_length b] b.

Definition status_title (st : Z) : string :=
  match st with
  | 400 => "Bad Request"
  | 401 => "Unauthorized"
  | 403 => "Forbidden"
  | 404 => "Not Found"
  | 405 => "Method Not Allowed"
  | 413 => "Payload Too Large"
  | 422 => "Unprocessable Entity"
  | 429 => "Too Many Requests"
  | 500 => "Internal Server Error"
  | 502 => "Bad Gateway"
  | 503 => "Service Unavailable"
  | 504 => "Gateway Timeout"
  | _ => "Error"
  end%string.

(** [title.to_lowercase().replace(' ', "-")] *)
Definition slug (title : string) : string := replace_char " "%char "-"%char (lowercase title).

Definition problem_type (title : string) : string :=
  String.append "https://justapi.dev/errors/" (slug title).

(** The object of the [json!] call in [error_response] and [json_error]. *)
Definition problem (st : Z) (detail : string) : json :=
  JObject [("type"%string, JString (problem_type (status_title st)));
           ("title"%string, JString (status_title st));
           ("status"%string, json_int st);
           ("detail"%string, JString detail)].

Section errors.
Context `{!SerdeJson}.

Definition problem_response (st : Z) (hs : HeaderMap) (j : json) : Response :=
  let b := json_to_string j in
  mk_response st (("content-type"%string, "application/problem+json"%string) :: hs ++ [content_length b]) b.

(** [lib.rs], [error_response] and its two instances. *)
Definition error_response (st : Z) (detail : string) : Response :=
  json_response st (json_to_string (problem st detail)).

Definition validation_response (detail : string) : Response := error_response 422 detail.

Definition service_unavailable_response (detail : string) : Response :=
  problem_response 503 [("retry-after"%string, "1"%string)] (problem 503 detail).

(** [middleware.rs], [json_error]. *)
Definition json_error (st : Z) (msg : string) : Response := problem_response st [] (problem st msg).
End errors.

(** ** Lemmas *)

Lemma assoc_get_filter_ne name k (hs : HeaderMap) :
  assoc_get k (filter (λ h : string * string, h.1 ≠ name) hs)
  = if decide (name = k) then None else assoc_get k hs.
Proof.
  induction hs as [|[k2 v2] hs IH]; csimpl; [by case_decide|]. rewrite filter_cons. csimpl.
  destruct (decide (k2 ≠ name)) as [Hne|Heq]; csimpl.
  - rewrite IH. repeat case_decide; congruence.
  - apply dec_stable in Heq as ->. rewrite IH. by repeat case_decide.
Qed.

Lemma header_insert_get name value k hs :
  assoc_get k (header_insert name value hs) = if decide (name = k) then Some value else assoc_get k hs.
Proof.
  unfold header_insert. rewrite assoc_get_app, assoc_get_filter_ne. csimpl.
  case_decide; [done|]. by destruct (assoc_get k hs).
Qed.

Lemma header_append_get name value k hs :
  assoc_get k (header_append name value hs)
  = match assoc_get k hs with
    | Some v => Some v
    | None => if decide (name = k) then Some value else None
    end.
Proof. unfold header_append. rewrite assoc_get_app. csimpl. by destruct (assoc_get k hs). Qed.

Lemma header_remove_get name k hs :
  assoc_get k (header_remove name hs) = if decide (name = k) then None else assoc_get k hs.
Proof. apply assoc_get_filter_ne. Qed.

Lemma content_type_problem `{!SerdeJson} st hs j :
  assoc_get "content-type"%string (headers (problem_response st hs j))
  = Some "application/problem+json"%string.
Proof. done. Qed.
