(* ===== verification/Middleware.v ===== *)
(** * Middleware: the chain and the middleware of the server

    [crates/justapi-core/src/middleware.rs].  A handler reads and changes a
    world [W]: the state of the limiters, the clock and whatever the handlers
    of the application touch.  A middleware is the function of its [Next]: the
    call of [handle] with the request.  [governor], [jsonwebtoken] and
    [serde_urlencoded] are parameters; log lines are not modelled, but for the
    access log. *)

From Stdlib Require Import Ascii FunctionalExtensionality.
From S2P Require Import Prelude Text Http.

#[local] Open Scope Z_scope.

(** ** The chain *)

Definition HandlerFn (W : Type) : Type := Request → W → exec (outcome * W).
Abbreviation Middleware W := (HandlerFn W → HandlerFn W).

Section chain.
Context {W : Type}.

(** [Next::run]: the middleware at [index] gets the [Next] of [index + 1]; the
    fuel bounds the number of middleware left. *)
Fixpoint next_run (fuel : nat) (middlewares : list (Middleware W)) (index : nat) (handler : HandlerFn W)
    : HandlerFn W :=
  match middlewares !! index with
  | Some mw =>
      match fuel with
      | S fuel' => mw (next_run fuel' middlewares (S index) handler)
      | O => λ _ _, Panic
      end
  | None => handler
  end.

Record MiddlewareChain := mk_chain { middlewares : list (Middleware W); handler : HandlerFn W }.

Definition chain_new (h : HandlerFn W) : MiddlewareChain := mk_chain [] h.
Definition chain_add (mw : Middleware W) (c : MiddlewareChain) : MiddlewareChain :=
  mk_chain (middlewares c ++ [mw]) (handler c).
Definition set_handler (h : HandlerFn W) (c : MiddlewareChain) : MiddlewareChain :=
  mk_chain (middlewares c) h.

Definition chain_run (c : MiddlewareChain) : HandlerFn W :=
  match middlewares c with
  | [] => handler c
  | _ => next_run (length (middlewares c)) (middlewares c) 0 (handler c)
  end.

(** [next.run(req).await?]: an error is passed on. *)
Definition after_ok (m : exec (outcome * W)) (f : Response → outcome) : exec (outcome * W) :=
  match m with
  | Ret (inl r, w) => Ret (f r, w)
  | Ret (inr e, w) => Ret (inr e, w)
  | Panic => Panic
  end.

(** [AccessLogger]: [send] hands a line to the logging thread and
    [duration w w'] is the time passed between two worlds, as [Debug] writes
    it. *)
Section access_log.
Context (send : string → W → W) (duration : W → W → string).

Definition access_log_line (req : Request) (st : Z) (d : string) : string :=
  String.concat EmptyString
    ["["%string; req_method req; "] "%string; req_path req;
     match req_query req with Some q => String "?" q | None => EmptyString end;
     " - "%string; decimal st; " - "%string; d].

Definition access_log_handle : Middleware W := λ next req w,
  '(res, w') ← next req w;
  let st := match res with inl r => status r | inr _ => 500 end in
  Ret (res, send (access_log_line req st (duration w w')) w').
End access_log.
End chain.
Arguments MiddlewareChain : clear implicits.

(** ** Cross-origin requests *)

Record Cors := mk_cors {
  allow_origins : list string;
  allow_methods : string;
  allow_headers : string;
  expose_headers : list string;
  max_age : string;
  allow_credentials : bool }.

Definition cors_new : Cors :=
  mk_cors [] "GET, POST, PUT, DELETE, PATCH, OPTIONS" "Content-Type, Authorization" [] "86400" false.
Definition cors_permissive : Cors :=
  mk_cors ["*"%string] "GET, POST, PUT, DELETE, PATCH, OPTIONS" "Content-Type, Authorization" []
    "86400" false.

Definition allow_origin (origin : string) (c : Cors) : Cors :=
  mk_cors
    (if String.eqb origin "*" then ["*"%string]
     else if decide (allow_origins c = ["*"%string]) then [origin]
     else allow_origins c ++ [origin])
    (allow_methods c) (allow_headers c) (expose_headers c) (max_age c) (allow_credentials c).

Definition with_allow_credentials (c : Cors) : Cors :=
  mk_cors (allow_origins c) (allow_methods c) (allow_headers c) (expose_headers c) (max_age c) true.

Definition with_allow_methods (methods : string) (c : Cors) : Cors :=
  mk_cors (allow_origins c) methods (allow_headers c) (expose_headers c) (max_age c)
    (allow_credentials c).
Definition with_allow_headers (hs : string) (c : Cors) : Cors :=
  mk_cors (allow_origins c) (allow_methods c) hs (expose_headers c) (max_age c) (allow_credentials c).
Definition with_expose_headers (hs : list string) (c : Cors) : Cors :=
  mk_cors (allow_origins c) (allow_methods c) (allow_headers c) hs (max_age c) (allow_credentials c).
Definition with_max_age (seconds : string) (c : Cors) : Cors :=
  mk_cors (allow_origins c) (allow_methods c) (allow_headers c) (expose_headers c) seconds
    (allow_credentials c).

Definition origin_matches (origin : string) (allowed : list string) : bool :=
  existsb (λ a, String.eqb a "*" || String.eqb a origin) allowed.

Definition allow_all (c : Cors) : bool := existsb (λ a, String.eqb a "*") (allow_origins c).

(** The origin the answer grants; [None] is a call of [next.run] alone. *)
Definition matched_origin (c : Cors) (req : Request) : option string :=
  let req_origin := header_str "origin" (req_headers req) in
  if allow_all c then
    if allow_credentials c then req_origin else Some "*"%string
  else match req_origin with
       | Some origin => if origin_matches origin (allow_origins c) then Some origin else None
       | None => None
       end.

Definition opt_header (b : bool) (name value : string) : HeaderMap :=
  if b then [(name, value)] else [].

Definition cors_preflight_headers (c : Cors) (origin : string) : HeaderMap :=
  [("access-control-allow-origin"%string, origin);
   ("access-control-allow-methods"%string, allow_methods c);
   ("access-control-allow-headers"%string, allow_headers c);
   ("access-control-max-age"%string, max_age c)]
  ++ opt_header (allow_credentials c) "access-control-allow-credentials" "true"
  ++ opt_header (negb (Nat.eqb (length (expose_headers c)) 0)) "access-control-expose-headers"
       (join ", " (expose_headers c))
  ++ opt_header (negb (allow_all c)) "vary" "Origin".

(** The text of [http]'s error. *)
Definition invalid_header (what : string) : string :=
  String.append what ": failed to parse header value".

Definition cors_decorate (c : Cors) (origin : string) (r : Response) : outcome :=
  match header_value origin with
  | None => inr (invalid_header "invalid CORS origin header value")
  | Some v =>
      let hs := header_insert "access-control-allow-origin" v (headers r) in
      let hs := if allow_credentials c
                then header_insert "access-control-allow-credentials" "true" hs else hs in
      match (match expose_headers c with
             | [] => Some hs
             | _ => (λ v, header_insert "access-control-expose-headers" v hs)
                      <$> header_value (join ", " (expose_headers c))
             end) with
      | None => inr (invalid_header "invalid CORS expose-headers value")
      | Some hs =>
          let hs := if negb (allow_all c) then header_insert "vary" "Origin" hs else hs in
          inl (mk_response (status r) hs (body r))
      end
  end.

Definition cors_handle {W} (c : Cors) : Middleware W := λ next req w,
  match matched_origin c req with
  | None => next req w
  | Some origin =>
      if String.eqb (req_method req) "OPTIONS" then
        match header_value origin with
        | None => Ret (inr (invalid_header "invalid CORS origin header value"), w)
        | Some v => r ← build_response 204 (cors_preflight_headers c v) EmptyString; Ret (inl r, w)
        end
      else after_ok (next req w) (cors_decorate c origin)
  end.

(** ** Security headers *)

Record SecurityHeaders := mk_security_headers {
  hsts : string;
  csp_directives : list string;
  include_xfo : bool;
  include_csp : bool;
  include_hsts : bool;
  include_hsts_preload : bool }.

Definition security_headers_default : SecurityHeaders :=
  mk_security_headers "max-age=31536000; includeSubDomains" ["default-src 'self'"%string]
    true true true false.

Definition preloaded (hsts : string) : string :=
  String.append (trim_end_str "; preload" hsts) "; preload".

Definition with_hsts_preload (s : SecurityHeaders) : SecurityHeaders :=
  mk_security_headers (preloaded (hsts s)) (csp_directives s) (include_xfo s) (include_csp s)
    (include_hsts s) true.
Definition with_csp_directive (d : string) (s : SecurityHeaders) : SecurityHeaders :=
  mk_security_headers (hsts s) (csp_directives s ++ [d]) (include_xfo s) (include_csp s)
    (include_hsts s) (include_hsts_preload s).
Definition without_xfo (s : SecurityHeaders) : SecurityHeaders :=
  mk_security_headers (hsts s) (csp_directives s) false (include_csp s)
    (include_hsts s) (include_hsts_preload s).
Definition without_csp (s : SecurityHeaders) : SecurityHeaders :=
  mk_security_headers (hsts s) (csp_directives s) (include_xfo s) false
    (include_hsts s) (include_hsts_preload s).
Definition without_hsts (s : SecurityHeaders) : SecurityHeaders :=
  mk_security_headers (hsts s) (csp_directives s) (include_xfo s) (include_csp s)
    false (include_hsts_preload s).

(** A header that may be left out and may fail to parse. *)
Definition set_checked (b : bool) (name value what : string) (hs : HeaderMap) : HeaderMap + string :=
  if b then match header_value value with
            | Some v => inl (header_insert name v hs)
            | None => inr (invalid_header what)
            end
  else inl hs.

Definition hsts_value (s : SecurityHeaders) : string :=
  if include_hsts_preload s then preloaded (hsts s) else hsts s.

Definition security_decorate (s : SecurityHeaders) (r : Response) : outcome :=
  let hs := header_insert "x-content-type-options" "nosniff" (headers r) in
  let hs := if include_xfo s then header_insert "x-frame-options" "DENY" hs else hs in
  match set_checked (include_hsts s) "strict-transport-security" (hsts_value s)
          "invalid HSTS value" hs with
  | inr e => inr e
  | inl hs =>
      match set_checked (include_csp s) "content-security-policy" (join "; " (csp_directives s))
              "invalid CSP value" hs with
      | inr e => inr e
      | inl hs => inl (mk_response (status r) (header_insert "x-xss-protection" "0" hs) (body r))
      end
  end.

Definition security_handle {W} (s : SecurityHeaders) : Middleware W := λ next req w,
  after_ok (next req w) (security_decorate s).

(** ** JSON web tokens *)

Inductive JwtRequirement :=
| ReqNone
| ReqRequired
| ReqRoles (roles : list string)
| ReqScopes (scopes : list string).

#[export] Instance JwtRequirement_eq_dec : EqDecision JwtRequirement.
Proof. solve_decision. Defined.

(** What the code uses of [jsonwebtoken]; [decode] reads the clock in the
    world. *)
Class JsonWebToken (W : Type) := {
  algorithm : Type;
  HS256 : algorithm;
  RS256 : algorithm;
  RS384 : algorithm;
  RS512 : algorithm;
  ES256 : algorithm;
  ES384 : algorithm;
  decoding_key : Type;
  encoding_key : Type;
  decoding_key_from_secret : string → decoding_key;
  decoding_key_from_rsa_pem : string → option decoding_key;
  decoding_key_from_ec_pem : string → option decoding_key;
  decoding_key_from_rsa_der : string → decoding_key;
  decoding_key_from_ec_der : string → decoding_key;
  (** [decode token key algorithms iss aud]; the other fields of a
      [Validation] keep the defaults of the crate. *)
  decode : string → decoding_key → list algorithm → option (list string) →
           option (list string) → W → option json;
  encode : algorithm → json → encoding_key → option string }.

Record Validation `{JsonWebToken W} := mk_validation {
  algorithms : list algorithm;
  iss : option (list string);
  aud : option (list string) }.

Definition validation_new `{JsonWebToken W} (a : algorithm) : Validation := mk_validation _ _ [a] None None.

Section jwt.
Context {W : Type} {JW : JsonWebToken W} {SJ : SerdeJson}.

Record JwtAuth := mk_jwt_auth {
  validation : Validation;
  key : decoding_key;
  route_rules : list (string * JwtRequirement);
  default_requirement : JwtRequirement }.

Definition jwt_with (v : Validation) (k : decoding_key) : JwtAuth :=
  mk_jwt_auth v k [] ReqRequired.

Definition from_secret (secret : string) : JwtAuth :=
  jwt_with (validation_new HS256) (decoding_key_from_secret secret).
Definition from_rsa_pem (pem : string) : option JwtAuth :=
  jwt_with (mk_validation _ _ [RS256; RS384; RS512] None None) <$> decoding_key_from_rsa_pem pem.
Definition from_ec_pem (pem : string) : option JwtAuth :=
  jwt_with (mk_validation _ _ [ES256; ES384] None None) <$> decoding_key_from_ec_pem pem.
Definition from_rsa_der (der : string) : JwtAuth :=
  jwt_with (mk_validation _ _ [RS256; RS384; RS512] None None) (decoding_key_from_rsa_der der).
Definition from_ec_der (der : string) : JwtAuth :=
  jwt_with (mk_validation _ _ [ES256; ES384] None None) (decoding_key_from_ec_der der).

Definition map_validation (f : Validation → Validation) (a : JwtAuth) : JwtAuth :=
  mk_jwt_auth (f (validation a)) (key a) (route_rules a) (default_requirement a).
Definition with_algorithms (algs : list algorithm) : JwtAuth → JwtAuth :=
  map_validation (λ v, mk_validation _ _ algs (iss v) (aud v)).
Definition with_algorithm (alg : algorithm) : JwtAuth → JwtAuth := with_algorithms [alg].
Definition with_issuer (issuer : string) : JwtAuth → JwtAuth :=
  map_validation (λ v, mk_validation _ _ (algorithms v) (Some [issuer]) (aud v)).
Definition with_audience (audience : list string) : JwtAuth → JwtAuth :=
  map_validation (λ v, mk_validation _ _ (algorithms v) (iss v) (Some audience)).
Definition require_for (prefix : string) (r : JwtRequirement) (a : JwtAuth) : JwtAuth :=
  mk_jwt_auth (validation a) (key a) (route_rules a ++ [(prefix, r)]) (default_requirement a).
Definition with_default_requirement (r : JwtRequirement) (a : JwtAuth) : JwtAuth :=
  mk_jwt_auth (validation a) (key a) (route_rules a) r.
End jwt.
#[global] Arguments JwtAuth W {_}.

(** The first rule whose prefix starts the path, as text. *)
Definition rule_for_path {A} (rules : list (string * A)) (default : A) (path : string) : A :=
  match List.find (λ r : string * A, starts_with r.1 path) rules with
  | Some r => r.2
  | None => default
  end.

Definition strings_of (l : list json) : list string := omap as_str l.

Definition any_of (wanted have : list string) : bool :=
  existsb (λ r, existsb (String.eqb r) have) wanted.

(** [a.or_else(b)]. *)
Definition or_else {A} (a b : option A) : option A := match a with Some _ => a | None => b end.

Definition claimed_scopes (claims : json) : option (list string) :=
  let scope := or_else (json_get "scope" claims) (json_get "scopes" claims) in
  or_else (s ← scope; text ← as_str s; Some (split_whitespace text))
          (s ← scope; arr ← as_array s; Some (strings_of arr)).

(** [None] is [Ok(())]. *)
Definition check_claims (claims : json) (requirement : JwtRequirement) : option string :=
  match requirement with
  | ReqNone | ReqRequired => None
  | ReqRoles required =>
      match json_get "roles" claims ≫= as_array with
      | Some role_list =>
          if any_of required (strings_of role_list) then None else Some "missing required role"%string
      | None => Some "missing roles claim"%string
      end
  | ReqScopes required =>
      match claimed_scopes claims with
      | Some user_scopes =>
          if any_of required user_scopes then None else Some "missing required scope"%string
      | None => Some "missing scope/scopes claim"%string
      end
  end.

Section jwt_handle.
Context {W : Type} {JW : JsonWebToken W} {SJ : SerdeJson}.

Definition requirement_for_path (a : JwtAuth W) (path : string) : JwtRequirement :=
  rule_for_path (route_rules a) (default_requirement a) path.

Definition bearer_token (req : Request) : option string :=
  header_str "authorization" (req_headers req) ≫= strip_prefix "Bearer ".

Definition jwt_decode (a : JwtAuth W) (token : string) (w : W) : option json :=
  decode token (key a) (algorithms (validation a)) (iss (validation a)) (aud (validation a)) w.

Definition jwt_handle (a : JwtAuth W) : Middleware W := λ next req w,
  let requirement := requirement_for_path a (req_path req) in
  if decide (requirement = ReqNone) then next req w
  else match bearer_token req with
       | None => Ret (inl (json_error 401 "missing or invalid authorization header"), w)
       | Some token =>
           match jwt_decode a token w with
           | Some claims =>
               match check_claims claims requirement with
               | Some msg => Ret (inl (json_error 403 msg), w)
               | None => next (with_claims claims req) w
               end
           | None => Ret (inl (json_error 401 "invalid token"), w)
           end
       end.
End jwt_handle.

(** ** Rate limiters *)

(** What the code uses of [governor]: [check] admits with [None] or refuses
    with the time to wait, in nanoseconds. *)
Class Governor (W : Type) := {
  quota : Type;
  with_period : Z → option quota;
  allow_burst : Z → quota → quota;
  direct_limiter : Type;
  keyed_limiter : Type;
  direct : quota → direct_limiter;
  keyed : quota → keyed_limiter;
  check : direct_limiter → W → option Z * W;
  check_key : keyed_limiter → string → W → option Z * W }.

Section rate_limit.
Context {W : Type} {GV : Governor W} {SJ : SerdeJson}.

(** [with_period(duration).expect(..).allow_burst(burst)]. *)
Definition new_quota (duration burst : Z) : exec quota :=
  match with_period duration with Some q => Ret (allow_burst burst q) | None => Panic end.

(** [NonZeroU32::new(n).unwrap_or(MIN)]. *)
Definition at_least_one (n : Z) : Z := Z.max n 1.

Definition rate_limiter_new (duration max_burst : Z) : exec direct_limiter :=
  q ← new_quota duration (at_least_one max_burst); Ret (direct q).
Definition rate_limiter_per_second : Z → exec direct_limiter := rate_limiter_new 1000000000.

Definition ip_rate_limiter_new (duration max_burst : Z) : exec keyed_limiter :=
  match with_period duration with
  | None => Panic
  | Some q => if max_burst =? 0 then Panic else Ret (keyed (allow_burst max_burst q))
  end.

Definition ip_rate_limiter_per_second : Z → exec keyed_limiter := ip_rate_limiter_new 1000000000.

Definition retry_after_secs (wait : Z) : Z := Z.max (wait / 1000000000) 1.

(** The answer to a request that is over the limit. *)
Definition rate_limited (wait : Z) : Response :=
  let v := decimal (retry_after_secs wait) in
  with_headers (λ hs, header_insert "x-ratelimit-reset" v (header_insert "retry-after" v hs))
    (json_error 429 "rate limit exceeded").

Definition limited (checked : option Z * W) (k : W → exec (outcome * W)) : exec (outcome * W) :=
  match checked.1 with
  | None => k checked.2
  | Some wait => Ret (inl (rate_limited wait), checked.2)
  end.

Definition rate_limiter_handle (l : direct_limiter) : Middleware W := λ next req w,
  limited (check l w) (next req).

Definition client_ip (req : Request) : string :=
  match req_ip req with Some ip => ip | None => "unknown"%string end.

Definition ip_rate_limiter_handle (l : keyed_limiter) : Middleware W := λ next req w,
  limited (check_key l (client_ip req) w) (next req).

Record RateLimitRule := mk_rule {
  rule_prefix : string;
  rule_method : option string;
  rule_limiter : direct_limiter }.

Record PerRouteRateLimiter := mk_per_route_limiter {
  rules : list RateLimitRule;
  fallback : option direct_limiter }.

Definition per_route_limiter_new : PerRouteRateLimiter := mk_per_route_limiter [] None.

Definition add_rule (prefix : string) (method : option string) (duration max_burst : Z)
    (l : PerRouteRateLimiter) : exec PerRouteRateLimiter :=
  q ← new_quota duration (at_least_one max_burst);
  Ret (mk_per_route_limiter (rules l ++ [mk_rule prefix method (direct q)]) (fallback l)).

Definition with_fallback (d : direct_limiter) (l : PerRouteRateLimiter) : PerRouteRateLimiter :=
  mk_per_route_limiter (rules l) (Some d).

Definition rule_matches (path method : string) (r : RateLimitRule) : bool :=
  starts_with (rule_prefix r) path
  && match rule_method r with None => true | Some m => String.eqb m method end.

Definition find_rule (l : PerRouteRateLimiter) (path method : string) : option RateLimitRule :=
  List.find (rule_matches path method) (rules l).

Definition per_route_limiter_handle (l : PerRouteRateLimiter) : Middleware W := λ next req w,
  match find_rule l (req_path req) (req_method req) with
  | Some rule => limited (check (rule_limiter rule) w) (next req)
  | None =>
      match fallback l with
      | Some f => rate_limiter_handle f next req w
      | None => next req w
      end
  end.
End rate_limit.

(** ** API keys *)

Record ApiKeyAuth := mk_api_key_auth {
  header_name : string;
  query_param : option string;
  keys : gmap string json;
  key_rules : list (string * bool);
  default_required : bool }.

Definition api_key_new (name : string) : exec ApiKeyAuth :=
  match header_name_from name with
  | Some n => Ret (mk_api_key_auth n None ∅ [] true)
  | None => Panic
  end.

Definition with_key (k : string) (claims : json) (a : ApiKeyAuth) : ApiKeyAuth :=
  mk_api_key_auth (header_name a) (query_param a) (<[k:=claims]> (keys a)) (key_rules a)
    (default_required a).
Definition with_query_param (name : string) (a : ApiKeyAuth) : ApiKeyAuth :=
  mk_api_key_auth (header_name a) (Some name) (keys a) (key_rules a) (default_required a).
Definition key_require_for (prefix : string) (required : bool) (a : ApiKeyAuth) : ApiKeyAuth :=
  mk_api_key_auth (header_name a) (query_param a) (keys a) (key_rules a ++ [(prefix, required)])
    (default_required a).
Definition with_default_required (required : bool) (a : ApiKeyAuth) : ApiKeyAuth :=
  mk_api_key_auth (header_name a) (query_param a) (keys a) (key_rules a) required.

Definition required_for_path (a : ApiKeyAuth) (path : string) : bool :=
  rule_for_path (key_rules a) (default_required a) path.

(** The value of the first [name=value] pair of the query with this name. *)
Fixpoint query_value (name : string) (pairs : list string) : option string :=
  match pairs with
  | [] => None
  | p :: pairs' =>
      match split_once "=" p with
      | Some (k, v) => if String.eqb k name then Some v else query_value name pairs'
      | None => query_value name pairs'
      end
  end.

Definition extract_key (a : ApiKeyAuth) (req : Request) : option string :=
  match header_str (header_name a) (req_headers req) with
  | Some v => Some v
  | None =>
      qp ← query_param a; query ← req_query req;
      query_value qp (split "&"%char query)
  end.

Definition api_key_handle {W} `{!SerdeJson} (a : ApiKeyAuth) : Middleware W := λ next req w,
  if negb (required_for_path a (req_path req)) then next req w
  else match extract_key a req with
       | Some k =>
           match keys a !! k with
           | Some claims => next (with_claims claims req) w
           | None => Ret (inl (json_error 401 "invalid api key"), w)
           end
       | None => Ret (inl (json_error 401 "missing api key"), w)
       end.

(** ** The OAuth2 password flow *)

Section oauth2.
Context {W : Type} {JW : JsonWebToken W} {SJ : SerdeJson}.

(** [parse_form] is [serde_urlencoded::from_str] on the text of the body,
    [now] the system clock in seconds. *)
Context (parse_form : string → option (list (string * string))) (now : W → Z).

Record OAuth2Password := mk_oauth2 {
  validate_user : string → string → option json;
  oauth_encoding_key : encoding_key;
  oauth_decoding_key : decoding_key;
  oauth_algorithm : algorithm;
  token_path : string;
  token_expiry : Z;  (* whole seconds *)
  issuer : option string }.

Definition oauth2_new (validate : string → string → option json) (ek : encoding_key)
    (dk : decoding_key) : OAuth2Password :=
  mk_oauth2 validate ek dk HS256 "/token" 3600 None.

Definition oauth2_with_issuer (i : string) (o : OAuth2Password) : OAuth2Password :=
  mk_oauth2 (validate_user o) (oauth_encoding_key o) (oauth_decoding_key o) (oauth_algorithm o)
    (token_path o) (token_expiry o) (Some i).

Definition oauth2_with_algorithm (a : algorithm) (o : OAuth2Password) : OAuth2Password :=
  mk_oauth2 (validate_user o) (oauth_encoding_key o) (oauth_decoding_key o) a
    (token_path o) (token_expiry o) (issuer o).
Definition oauth2_with_token_path (p : string) (o : OAuth2Password) : OAuth2Password :=
  mk_oauth2 (validate_user o) (oauth_encoding_key o) (oauth_decoding_key o) (oauth_algorithm o)
    p (token_expiry o) (issuer o).
Definition oauth2_with_token_expiry (secs : Z) (o : OAuth2Password) : OAuth2Password :=
  mk_oauth2 (validate_user o) (oauth_encoding_key o) (oauth_decoding_key o) (oauth_algorithm o)
    (token_path o) secs (issuer o).

Definition or_empty (s : option string) : string :=
  match s with Some s => s | None => EmptyString end.

Definition reserved_claim (k : string) : bool :=
  existsb (String.eqb k) ["sub"; "iat"; "exp"; "iss"]%string.

Definition merge_claims (obj base : list (string * json)) : list (string * json) :=
  foldl (λ m kv, if reserved_claim kv.1 then m else assoc_set kv.1 kv.2 m) base obj.

Definition subject (claims : json) (username : string) : string :=
  match json_get "sub" claims ≫= as_str with Some s => s | None => username end.

Definition base_claims (o : OAuth2Password) (sub : string) (t : Z) : list (string * json) :=
  [("sub"%string, JString sub); ("iat"%string, json_int t);
   ("exp"%string, json_int (wadd64 t (token_expiry o)))]
  ++ match issuer o with Some i => [("iss"%string, JString i)] | None => [] end.

Definition issued_claims (o : OAuth2Password) (username : string) (claims : json) (t : Z) : json :=
  let base := base_claims o (subject claims username) t in
  JObject (match as_object claims with Some obj => merge_claims obj base | None => base end).

Definition token_response (o : OAuth2Password) (token : string) : Response :=
  let b := json_to_string (JObject [("access_token"%string, JString token);
                                    ("token_type"%string, JString "bearer");
                                    ("expires_in"%string, json_int (token_expiry o))]) in
  mk_response 200 [("content-type"%string, "application/json"%string); content_length b;
                   ("cache-control"%string, "no-store"%string)] b.

(** The credentials of a form, or the error that refuses it. *)
Definition form_credentials (params : list (string * string)) : (string * string) + string :=
  if negb (String.eqb (or_empty (assoc_get "grant_type"%string params)) "password")
  then inr "unsupported grant_type, expected 'password'"%string
  else
    let username := or_empty (assoc_get "username"%string params) in
    let password := or_empty (assoc_get "password"%string params) in
    if String.eqb username EmptyString || String.eqb password EmptyString
    then inr "username and password are required"%string
    else inl (username, password).

Definition token_handler (o : OAuth2Password) : HandlerFn W := λ req w,
  if negb (String.eqb (req_method req) "POST")
  then Ret (inl (json_error 405 "only POST is allowed"), w)
  else if negb (String.eqb (req_path req) (token_path o))
  then Ret (inl (json_error 404 "not found"), w)
  else if negb (starts_with "application/x-www-form-urlencoded"
                  (or_empty (header_str "content-type" (req_headers req))))
  then Ret (inl (json_error 415 "expected application/x-www-form-urlencoded"), w)
  else match req_body req with
       | None => Ret (inr "the body could not be read"%string, w)
       | Some text =>
           match parse_form text with
           | None => Ret (inr "bad form"%string, w)
           | Some params =>
               match form_credentials params with
               | inr e => Ret (inl (json_error 400 e), w)
               | inl (username, password) =>
                   match validate_user o username password with
                   | None => Ret (inl (json_error 401 "invalid username or password"), w)
                   | Some claims =>
                       match encode (oauth_algorithm o) (issued_claims o username claims (now w))
                               (oauth_encoding_key o) with
                       | None => Ret (inr "token encoding failed"%string, w)
                       | Some token => Ret (inl (token_response o token), w)
                       end
                   end
               end
           end
       end.

Definition jwt_auth (o : OAuth2Password) : JwtAuth W :=
  jwt_with (mk_validation _ _ [oauth_algorithm o] ((λ i, [i]) <$> issuer o) None)
    (oauth_decoding_key o).
End oauth2.
#[global] Arguments OAuth2Password W {_}.

(** ** The chain is the composition of its middleware *)

Section chain_lemmas.
Context {W : Type}.
Implicit Types (ms : list (Middleware W)) (h : HandlerFn W).

Definition compose_all ms h : HandlerFn W := foldr (λ mw k, mw k) h ms.

Lemma next_run_compose ms h n i :
  (length ms ≤ n + i)%nat → next_run n ms i h = compose_all (drop i ms) h.
Proof.
  revert i. induction n as [|n IH]; intros i Hn; simpl.
  - destruct (ms !! i) eqn:Hi; [apply lookup_lt_Some in Hi; lia|].
    apply lookup_ge_None in Hi. by rewrite drop_ge by lia.
  - destruct (ms !! i) as [mw|] eqn:Hi.
    + rewrite (drop_S _ _ _ Hi). simpl. rewrite IH by lia. done.
    + apply lookup_ge_None in Hi. by rewrite drop_ge by lia.
Qed.

Lemma chain_run_eq c : chain_run c = compose_all (middlewares c) (handler c).
Proof.
  destruct c as [[|mw ms] h]; [done|]. unfold chain_run. cbn [middlewares handler].
  rewrite next_run_compose by lia. by rewrite drop_0.
Qed.

Lemma compose_all_app ms1 ms2 h : compose_all (ms1 ++ ms2) h = compose_all ms1 (compose_all ms2 h).
Proof. apply foldr_app. Qed.
End chain_lemmas.

(** A chain built by adding middleware in order runs them outermost first:
    it never runs past its list, it is the composition of the middleware in
    the order of registration, and adding [mw] puts it next to the handler. *)
Theorem chain_runs_in_order {W} (ms : list (Middleware W)) (h : HandlerFn W) mw :
  let c := foldl (λ c m, chain_add m c) (chain_new h) ms in
  chain_run c = foldr (λ m k, m k) h ms ∧
  chain_run (chain_add mw c) = foldr (λ m k, m k) (mw h) ms ∧
  chain_run (set_handler (chain_run c) c) = foldr (λ m k, m k) h (ms ++ ms).
Proof.
  intros c.
  assert (c = mk_chain ms h) as ->.
  { subst c. rewrite <- (app_nil_l ms) at 2. unfold chain_new. generalize (@nil (Middleware W)).
    induction ms as [|m ms IH]; intros l; simpl; [by rewrite app_nil_r|].
    unfold chain_add at 2. simpl. rewrite IH. by rewrite <- app_assoc. }
  rewrite !chain_run_eq. simpl. unfold compose_all. rewrite !foldr_app. simpl. done.
Qed.

(** ** What a token must claim *)

Definition has_string (l : list json) (s : string) : Prop := JString s ∈ l.

Definition satisfies (claims : json) (r : JwtRequirement) : Prop :=
  match r with
  | ReqNone | ReqRequired => True
  | ReqRoles rs => ∃ l role, json_get "roles" claims = Some (JArray l) ∧ role ∈ rs ∧ has_string l role
  | ReqScopes ss =>
      ∃ j scope, or_else (json_get "scope" claims) (json_get "scopes" claims) = Some j ∧ scope ∈ ss ∧
        match j with
        | JString text => scope ∈ split_whitespace text
        | JArray l => has_string l scope
        | _ => False
        end
  end.

Lemma strings_of_spec l s : s ∈ strings_of l ↔ has_string l s.
Proof.
  unfold strings_of, has_string. rewrite list_elem_of_omap. split.
  - intros (j & Hj & Hs). destruct j; simplify_eq/=. done.
  - intros H. by exists (JString s).
Qed.

Lemma any_of_spec wanted have : any_of wanted have = true ↔ ∃ r, r ∈ wanted ∧ r ∈ have.
Proof.
  unfold any_of. rewrite existsb_exists. setoid_rewrite existsb_exists.
  setoid_rewrite String.eqb_eq. setoid_rewrite <- list_elem_of_In. naive_solver.
Qed.

Lemma check_claims_spec claims r : check_claims claims r = None ↔ satisfies claims r.
Proof.
  destruct r as [| |rs|ss]; simpl; [done|done|..].
  - destruct (json_get "roles" claims) as [[]|]; simpl; try naive_solver.
    destruct (any_of rs (strings_of l)) eqn:Ha.
    + apply any_of_spec in Ha as (r & Hr & Hl). apply strings_of_spec in Hl. naive_solver.
    + split; [done|]. intros (l' & r & [= <-] & Hr & Hl). rewrite <- strings_of_spec in Hl.
      assert (any_of rs (strings_of l) = true) by (apply any_of_spec; eauto). congruence.
  - unfold claimed_scopes. set (sc := or_else (json_get _ _) _).
    destruct sc as [[| | |s|l|]|]; simpl; try (split; [done|]; naive_solver).
    + destruct (any_of ss (split_whitespace s)) eqn:Ha.
      * apply any_of_spec in Ha as (r & Hr & Hl). naive_solver.
      * split; [done|]. intros (j & r & [= <-] & Hr & Hl).
        assert (any_of ss (split_whitespace s) = true) by (apply any_of_spec; eauto). congruence.
    + destruct (any_of ss (strings_of l)) eqn:Ha.
      * apply any_of_spec in Ha as (r & Hr & Hl). apply strings_of_spec in Hl. naive_solver.
      * split; [done|]. intros (j & r & [= <-] & Hr & Hl). rewrite <- strings_of_spec in Hl.
        assert (any_of ss (strings_of l) = true) by (apply any_of_spec; eauto). congruence.
Qed.

Section gate.
Context {W : Type} {JW : JsonWebToken W} {SJ : SerdeJson}.

(** [req] may pass the gate in the world [w], and reaches the rest of the
    chain as [req']. *)
Inductive authorised (a : JwtAuth W) (req : Request) (w : W) : Request → Prop :=
| authorised_public :
    requirement_for_path a (req_path req) = ReqNone → authorised a req w req
| authorised_token token claims :
    header_str "authorization" (req_headers req) = Some (String.append "Bearer " token) →
    jwt_decode a token w = Some claims →
    satisfies claims (requirement_for_path a (req_path req)) →
    authorised a req w (with_claims claims req).

(** The gate hands on an authorised request; else it answers by itself with
    401 or 403 and the world is untouched. *)
Lemma jwt_handle_cases a req w :
  (∃ req', authorised a req w req' ∧ ∀ next, jwt_handle a next req w = next req' w) ∨
  (∃ st msg, st ∈ [401; 403] ∧ ∀ next, jwt_handle a next req w = Ret (inl (json_error st msg), w)).
Proof.
  unfold jwt_handle. case_decide as Hr; [left; exists req; by split; [constructor|]|].
  destruct (bearer_token req) as [token|] eqn:Ht.
  2: { right. eexists _, _. split; [|done]. set_solver. }
  unfold bearer_token in Ht. apply bind_Some in Ht as (h & Hh & Hp).
  apply strip_prefix_spec in Hp as ->.
  destruct (jwt_decode a token w) as [claims|] eqn:Hd.
  2: { right. eexists _, _. split; [|done]. set_solver. }
  destruct (check_claims claims _) eqn:Hc.
  - right. eexists _, _. split; [|done]. set_solver.
  - left. exists (with_claims claims req). split; [|done].
    apply check_claims_spec in Hc. by econstructor.
Qed.

Lemma jwt_handle_ext a next next' :
  (∀ req w req', authorised a req w req' → next req' w = next' req' w) →
  jwt_handle a next = jwt_handle a next'.
Proof.
  intros H. extensionality req. extensionality w.
  destruct (jwt_handle_cases a req w) as [(req' & Ha & Hn)|(st & msg & _ & Hn)].
  - rewrite !Hn. by eapply H.
  - by rewrite !Hn.
Qed.

(** C4: Nothing behind a JWT gate is reached without a token: if two chains
    behind the gate agree on the requests the gate authorises (a public path,
    or a decoded token whose claims satisfy the rule of the path), then the
    whole chains answer and act alike on every request, wherever the gate
    stands; a request that is not authorised is answered 401 or 403. *)
Theorem jwt_gate_noninterference pre post post' h h' a :
  (∀ req w req', authorised a req w req' →
     chain_run (mk_chain post h) req' w = chain_run (mk_chain post' h') req' w) →
  chain_run (mk_chain (pre ++ jwt_handle a :: post) h)
  = chain_run (mk_chain (pre ++ jwt_handle a :: post') h') ∧
  ∀ req w, (¬ ∃ req', authorised a req w req') →
    ∃ r, chain_run (mk_chain (jwt_handle a :: post) h) req w = Ret (inl r, w) ∧
         status r ∈ [401; 403].
Proof.
  intros Hagree. split.
  - rewrite !chain_run_eq. simpl. rewrite !compose_all_app. f_equal. simpl.
    apply jwt_handle_ext. intros req w req' Ha. specialize (Hagree req w req' Ha).
    by rewrite !chain_run_eq in Hagree.
  - intros req w Hn. rewrite chain_run_eq. simpl.
    destruct (jwt_handle_cases a req w) as [(req' & Ha & _)|(st & msg & Hst & Hr)]; [by destruct Hn; exists req'|].
    rewrite Hr. by eexists.
Qed.
End gate.

(** ** Cross-origin answers *)

Lemma visible_header_value s : visible s = true → header_value s = Some s.
Proof.
  unfold visible, header_value. intros Hv.
  assert (str_all (λ c, ((32 <=? code c) && negb (code c =? 127)) || (code c =? 9)) s = true) as ->; [|done].
  induction s as [|c s IH]; simpl in *; [done|]. apply andb_true_iff in Hv as [Hc Hs].
  rewrite IH by done. lia.
Qed.

Lemma header_str_value name hs v : header_str name hs = Some v → header_value v = Some v.
Proof.
  unfold header_str. destruct (assoc_get name hs) as [u|]; [|done].
  destruct (visible u) eqn:Hu; [|done]. intros [= ->]. by apply visible_header_value.
Qed.

Lemma origin_matches_elem o l : origin_matches o l = true → "*"%string ∈ l ∨ o ∈ l.
Proof.
  unfold origin_matches. rewrite existsb_exists. setoid_rewrite orb_true_iff.
  intros (x & Hx%list_elem_of_In & [->%String.eqb_eq| ->%String.eqb_eq]); auto.
Qed.

Lemma matched_origin_spec c req o :
  matched_origin c req = Some o →
  header_value o = Some o ∧
  ((o = "*"%string ∧ allow_all c = true ∧ allow_credentials c = false) ∨
   (header_str "origin" (req_headers req) = Some o ∧
    (o ∈ allow_origins c ∨ "*"%string ∈ allow_origins c))).
Proof.
  unfold matched_origin.
  assert (allow_all c = true → "*"%string ∈ allow_origins c) as Hall.
  { unfold allow_all. rewrite existsb_exists. intros (x & Hx & ->%String.eqb_eq).
    by apply list_elem_of_In. }
  destruct (allow_all c) eqn:Ha, (allow_credentials c) eqn:Hc.
  - intros Ho. split; [by eapply header_str_value|]. right. auto.
  - intros [= <-]. split; [done|]. by left.
  - destruct (header_str "origin" (req_headers req)) as [u|] eqn:Hu; [|done].
    destruct (origin_matches u _) eqn:Hm; [|done]. intros [= ->].
    split; [by eapply header_str_value|]. right. split; [done|].
    apply origin_matches_elem in Hm as [?|?]; auto.
  - destruct (header_str "origin" (req_headers req)) as [u|] eqn:Hu; [|done].
    destruct (origin_matches u _) eqn:Hm; [|done]. intros [= ->].
    split; [by eapply header_str_value|]. right. split; [done|].
    apply origin_matches_elem in Hm as [?|?]; auto.
Qed.

(** The texts of a configuration are header values. *)
Definition cors_ok (c : Cors) : Prop :=
  header_value (allow_methods c) = Some (allow_methods c) ∧
  header_value (allow_headers c) = Some (allow_headers c) ∧
  header_value (max_age c) = Some (max_age c) ∧
  header_value (join ", " (expose_headers c)) = Some (join ", " (expose_headers c)).

(** The headers that grant [origin]. *)
Definition grants (c : Cors) (origin : string) (hs : HeaderMap) : Prop :=
  assoc_get "access-control-allow-origin"%string hs = Some origin ∧
  (allow_credentials c = true →
   assoc_get "access-control-allow-credentials"%string hs = Some "true"%string) ∧
  (allow_all c = false → assoc_get "vary"%string hs = Some "Origin"%string).

Lemma preflight_ok c o :
  cors_ok c → header_value o = Some o →
  ∃ r, build_response 204 (cors_preflight_headers c o) EmptyString = Ret r ∧ status r = 204 ∧
       body r = EmptyString ∧ grants c o (headers r).
Proof.
  intros (Hm & Hh & Ha & He) Ho. unfold build_response.
  assert (forallb (λ h : string * string, bool_decide (is_Some (header_value h.2)))
            (cors_preflight_headers c o) = true) as ->.
  { apply forallb_forall. intros [n v] Hin%list_elem_of_In. apply bool_decide_eq_true. simpl.
    unfold cors_preflight_headers, opt_header in Hin. rewrite !elem_of_app in Hin.
    repeat match type of Hin with context [if ?b then _ else _] => destruct b end;
      rewrite ?elem_of_cons, ?elem_of_nil in Hin;
      naive_solver eauto using mk_is_Some. }
  eexists. split_and!; [done|done|done|]. unfold grants, cors_preflight_headers, opt_header. simpl.
  split_and!; [done|..].
  - destruct (allow_credentials c); done.
  - destruct (allow_all c), (allow_credentials c), (expose_headers c); done.
Qed.

Lemma decorate_ok c o r :
  cors_ok c → header_value o = Some o →
  ∃ r', cors_decorate c o r = inl r' ∧ status r' = status r ∧ body r' = body r ∧
        grants c o (headers r') ∧
        ∀ k, k ∉ ["access-control-allow-origin"; "access-control-allow-credentials";
                  "access-control-expose-headers"; "vary"]%string →
             assoc_get k (headers r') = assoc_get k (headers r).
Proof.
  intros (_ & _ & _ & He) Ho. unfold cors_decorate, grants. rewrite Ho, He.
  destruct (expose_headers c); destruct (allow_all c), (allow_credentials c); simpl;
    (eexists; split_and!; [reflexivity|done|done|..]); simpl; try done;
    try (intros _); rewrite ?header_insert_get; try done;
    intros k Hk; rewrite !not_elem_of_cons in Hk; destruct Hk as (? & ? & ? & ? & _);
    rewrite !header_insert_get; by repeat rewrite decide_False by done.
Qed.

(** What the CORS middleware answers.  It grants the wildcard only without
    credentials, and else only the origin of the request itself, one of the
    configured ones; a request it does not grant goes to the rest of the chain
    as if the middleware were not there; a granted preflight is answered 204
    and reaches nothing; a granted answer keeps its status, its body and its
    other headers. *)
Theorem cors_contract {W} c (next : HandlerFn W) req w :
  cors_ok c →
  match matched_origin c req with
  | None => cors_handle c next req w = next req w
  | Some o =>
      ((o = "*"%string ∧ allow_all c = true ∧ allow_credentials c = false) ∨
       (header_str "origin" (req_headers req) = Some o ∧
        (o ∈ allow_origins c ∨ "*"%string ∈ allow_origins c))) ∧
      (req_method req = "OPTIONS"%string →
       ∃ r, cors_handle c next req w = Ret (inl r, w) ∧ status r = 204 ∧ grants c o (headers r)) ∧
      (req_method req ≠ "OPTIONS"%string →
       ∀ r w', next req w = Ret (inl r, w') →
       ∃ r', cors_handle c next req w = Ret (inl r', w') ∧ status r' = status r ∧ body r' = body r ∧
             grants c o (headers r') ∧
             ∀ k, k ∉ ["access-control-allow-origin"; "access-control-allow-credentials";
                       "access-control-expose-headers"; "vary"]%string →
                  assoc_get k (headers r') = assoc_get k (headers r))
  end.
Proof.
  intros Hok. destruct (matched_origin c req) as [o|] eqn:Ho; unfold cors_handle; rewrite Ho; [|done].
  pose proof (matched_origin_spec _ _ _ Ho) as [Hv Hg]. split; [done|]. split.
  - intros ->. rewrite String.eqb_refl, Hv. destruct (preflight_ok c o Hok Hv) as (r & -> & Hs & _ & Hr).
    by exists r.
  - intros Hne%String.eqb_neq r w' Hr. rewrite Hne, Hr. simpl.
    destruct (decorate_ok c o r Hok Hv) as (r' & -> & Hd). by exists r'.
Qed.

(** ** Issued tokens *)

Section oauth2_lemmas.
Context {W : Type} {JW : JsonWebToken W} {SJ : SerdeJson}.
Context (parse_form : string → option (list (string * string))) (now : W → Z).
Implicit Types (o : OAuth2Password W).

Lemma merge_claims_get k obj base :
  assoc_get k (merge_claims obj base)
  = if reserved_claim k then assoc_get k base
    else match assoc_get k (rev obj) with Some v => Some v | None => assoc_get k base end.
Proof.
  unfold merge_claims. revert base. induction obj as [|[k' v'] obj IH]; intros base; simpl.
  - by destruct (reserved_claim k).
  - rewrite IH. rewrite assoc_get_app. simpl.
    destruct (reserved_claim k') eqn:Hr', (reserved_claim k) eqn:Hr; simpl; try done.
    + case_decide; [congruence|]. by destruct (assoc_get k (rev obj)).
    + rewrite assoc_get_set. case_decide; [congruence|done].
    + rewrite assoc_get_set. by destruct (assoc_get k (rev obj)); repeat case_decide.
Qed.

Lemma assoc_get_rev {V} k (m : list (string * V)) :
  NoDup m.*1 → assoc_get k (rev m) = assoc_get k m.
Proof.
  induction m as [|[k' v'] m IH]; [done|]. csimpl. intros [Hk Hnd]%NoDup_cons.
  rewrite assoc_get_app, IH by done. simpl. destruct (decide (k' = k)) as [->|]; [|by destruct (assoc_get k m)].
  by apply assoc_get_None in Hk as ->.
Qed.

(** The registered claims of a token are the provider's, and every other claim
    the user's. *)
Lemma issued_claims_get o username obj t k :
  NoDup obj.*1 →
  json_get k (issued_claims o username (JObject obj) t)
  = if reserved_claim k then assoc_get k (base_claims o (subject (JObject obj) username) t)
    else assoc_get k obj.
Proof.
  intros Hnd. unfold issued_claims. simpl. rewrite merge_claims_get.
  destruct (reserved_claim k) eqn:Hr; [done|]. rewrite assoc_get_rev by done.
  destruct (assoc_get k obj); [done|].
  unfold base_claims. rewrite assoc_get_app. unfold reserved_claim in Hr. cbn [existsb] in Hr.
  rewrite !orb_false_iff, !String.eqb_neq in Hr. destruct Hr as (? & ? & ? & ? & _).
  simpl. repeat rewrite decide_False by done. destruct (issuer o); simpl; [|done].
  by rewrite decide_False by done.
Qed.

(** The rule of [jsonwebtoken] the provider relies on: what the key [ek] of
    the algorithm signs, [dk] verifies, while the token has not expired, names
    one of the issuers asked for and no audience. *)
Definition verifies (alg : algorithm) (ek : encoding_key) (dk : decoding_key) : Prop :=
  ∀ claims token algs issuers w exp,
    encode alg claims ek = Some token → alg ∈ algs →
    json_get "exp" claims = Some (json_int exp) → now w ≤ exp →
    json_get "aud" claims = None →
    match issuers with
    | None => True
    | Some l => ∃ i, i ∈ l ∧ json_get "iss" claims = Some (JString i)
    end →
    visible token = true ∧ decode token dk algs issuers None w = Some claims.

(** The answers of the token endpoint. *)
Lemma token_handler_ok o req w r w' :
  token_handler parse_form now o req w = Ret (inl r, w') → status r = 200 →
  w' = w ∧ req_method req = "POST"%string ∧ req_path req = token_path o ∧
  ∃ text params username password claims token,
    req_body req = Some text ∧ parse_form text = Some params ∧
    assoc_get "username"%string params = Some username ∧
    assoc_get "password"%string params = Some password ∧
    validate_user o username password = Some claims ∧
    encode (oauth_algorithm o) (issued_claims o username claims (now w)) (oauth_encoding_key o) = Some token ∧
    r = token_response o token.
Proof.
  unfold token_handler. intros H Hst.
  destruct (String.eqb_spec (req_method req) "POST"); cbn [negb] in H; [|by simplify_eq].
  destruct (String.eqb_spec (req_path req) (token_path o)); cbn [negb] in H; [|by simplify_eq].
  case_match; [by simplify_eq|]. destruct (req_body req) as [text|]; [|by simplify_eq].
  destruct (parse_form text) as [params|] eqn:Hp; [|by simplify_eq].
  destruct (form_credentials params) as [[username password]|err] eqn:Hf; [|by simplify_eq].
  destruct (validate_user o username password) as [claims|] eqn:Hu; [|by simplify_eq].
  destruct (encode _ _ _) as [token|] eqn:He; [|by simplify_eq]. simplify_eq.
  unfold form_credentials in Hf. case_match; [done|].
  destruct (assoc_get "username"%string params) as [u|] eqn:Hun; [|done].
  destruct (assoc_get "password"%string params) as [p|] eqn:Hpw; cbn [or_empty] in Hf;
    [|by rewrite orb_true_r in Hf]. case_match; [done|]. simplify_eq.
  split_and!; [done..|]. exists text, params, username, password, claims, token.
  by split_and!.
Qed.

(** An issued token is one the gate decodes, to the issued claims. *)
Lemma issued_token_decodes o username obj token w w2 :
  verifies (oauth_algorithm o) (oauth_encoding_key o) (oauth_decoding_key o) →
  NoDup obj.*1 → assoc_get "aud"%string obj = None →
  encode (oauth_algorithm o) (issued_claims o username (JObject obj) (now w)) (oauth_encoding_key o) = Some token →
  now w2 ≤ wadd64 (now w) (token_expiry o) →
  visible token = true ∧
  jwt_decode (jwt_auth o) token w2 = Some (issued_claims o username (JObject obj) (now w)).
Proof.
  intros Hver Hnd Haud He Hexp. pose proof (issued_claims_get o username obj (now w)) as Hget.
  apply (Hver _ token [oauth_algorithm o] ((λ i, [i]) <$> issuer o) w2 (wadd64 (now w) (token_expiry o)));
    [done|by left|by rewrite Hget|done|by rewrite Hget|].
  destruct (issuer o) as [i|] eqn:Hi; cbn [fmap option_fmap option_map]; [|done]. exists i. split; [by left|].
  rewrite Hget by done. simpl. unfold base_claims. by rewrite Hi.
Qed.

Lemma bearer_token_of token req :
  visible token = true → assoc_get "authorization"%string (req_headers req) = Some (String.append "Bearer " token) →
  bearer_token req = Some token.
Proof.
  intros Hvis Hauth. unfold bearer_token, header_str. rewrite Hauth. cbn -[String.append].
  assert (visible (String.append "Bearer " token) = true) as -> by done.
  cbn [mbind option_bind]. by apply strip_prefix_spec.
Qed.

(** A token the endpoint issues opens the gate of the same provider.  Every
    200 answer of the endpoint carries a token for credentials its validator
    accepted; a request that presents the token before it expires passes the
    gate [jwt_auth] and reaches the handler with the issued claims: subject,
    issue and expiry times and issuer as the provider set them, never as the
    user's claims say, and the user's other claims as they are. *)
Theorem issued_token_opens_gate o req w r w' :
  verifies (oauth_algorithm o) (oauth_encoding_key o) (oauth_decoding_key o) →
  token_handler parse_form now o req w = Ret (inl r, w') → status r = 200 →
  ∃ username password claims token,
    validate_user o username password = Some claims ∧
    r = token_response o token ∧
    ∀ obj, claims = JObject obj → NoDup obj.*1 → assoc_get "aud"%string obj = None →
    let issued := issued_claims o username claims (now w) in
    json_get "sub" issued = Some (JString (subject claims username)) ∧
    json_get "exp" issued = Some (json_int (wadd64 (now w) (token_expiry o))) ∧
    (∀ i, issuer o = Some i → json_get "iss" issued = Some (JString i)) ∧
    (∀ k, reserved_claim k = false → json_get k issued = assoc_get k obj) ∧
    ∀ req2 w2 next,
      assoc_get "authorization"%string (req_headers req2) = Some (String.append "Bearer " token) →
      now w2 ≤ wadd64 (now w) (token_expiry o) →
      jwt_handle (jwt_auth o) next req2 w2 = next (with_claims issued req2) w2.
Proof.
  intros Hver H Hst. destruct (token_handler_ok _ _ _ _ _ H Hst)
    as (_ & _ & _ & text & params & username & password & claims & token & _ & _ & _ & _ & Hu & He & Hr).
  exists username, password, claims, token. split; [done|]. split; [done|].
  intros obj -> Hnd Haud issued.
  assert (∀ k, json_get k issued = if reserved_claim k
            then assoc_get k (base_claims o (subject (JObject obj) username) (now w))
            else assoc_get k obj) as Hget by (intros k; by apply issued_claims_get).
  assert (∀ i, issuer o = Some i → json_get "iss" issued = Some (JString i)) as Hiss.
  { intros i Hi. rewrite Hget. simpl. unfold base_claims. by rewrite Hi. }
  split_and!; [by rewrite Hget|by rewrite Hget|done|by intros k Hk; rewrite Hget, Hk|].
  intros req2 w2 next Hauth Hexp.
  destruct (issued_token_decodes o username obj token w w2 Hver Hnd Haud He Hexp) as [Hvis Hdec].
  unfold jwt_handle. rewrite (bearer_token_of token) by done. by rewrite Hdec.
Qed.
End oauth2_lemmas.

(** ** Limits, keys and security headers *)

Section limit_lemmas.
Context {W : Type} {GV : Governor W} {SJ : SerdeJson}.
Implicit Types (l : PerRouteRateLimiter) (next : HandlerFn W).

Lemma rate_limited_headers wait :
  status (rate_limited wait) = 429 ∧
  assoc_get "retry-after"%string (headers (rate_limited wait)) = Some (decimal (retry_after_secs wait)) ∧
  assoc_get "x-ratelimit-reset"%string (headers (rate_limited wait)) = Some (decimal (retry_after_secs wait)) ∧
  1 ≤ retry_after_secs wait.
Proof.
  unfold rate_limited, with_headers. cbn [headers]. rewrite !header_insert_get.
  split_and!; [done|done|done|]. unfold retry_after_secs. lia.
Qed.

(** The first rule that matches path and method decides alone; without one
    the fallback does, and without a fallback the request passes. *)
Lemma per_route_limiter_spec l next req w :
  per_route_limiter_handle l next req w
  = match option_map rule_limiter (find_rule l (req_path req) (req_method req)) with
    | Some d => limited (check d w) (next req)
    | None => match fallback l with
              | Some d => limited (check d w) (next req)
              | None => next req w
              end
    end.
Proof. unfold per_route_limiter_handle. by destruct (find_rule _ _ _). Qed.

Lemma find_rule_first l path method r :
  find_rule l path method = Some r →
  ∃ rs1 rs2, rules l = rs1 ++ r :: rs2 ∧ rule_matches path method r = true ∧
             Forall (λ r', rule_matches path method r' = false) rs1.
Proof.
  unfold find_rule. induction (rules l) as [|r' rs IH]; [done|]. simpl.
  destruct (rule_matches path method r') eqn:Hm.
  - intros [= ->]. exists [], rs. by repeat constructor.
  - intros (rs1 & rs2 & -> & Hr & Hall)%IH. exists (r' :: rs1), rs2. repeat constructor; auto.
Qed.

(** A request over its limit is answered 429 with the seconds to wait, at
    least one, and nothing behind the limiter runs. *)
Lemma per_route_refusal l next req w wait w' r :
  find_rule l (req_path req) (req_method req) = Some r →
  check (rule_limiter r) w = (Some wait, w') →
  per_route_limiter_handle l next req w = Ret (inl (rate_limited wait), w').
Proof. intros Hr Hc. rewrite per_route_limiter_spec, Hr. simpl. unfold limited. by rewrite Hc. Qed.
End limit_lemmas.

(** The key of a registered caller, presented in the header or, when the
    header has none, in the query. *)
Lemma api_key_handle_spec {W} {SJ : SerdeJson} a (next : HandlerFn W) req w :
  api_key_handle a next req w
  = if negb (required_for_path a (req_path req)) then next req w
    else match extract_key a req ≫= λ k, keys a !! k with
         | Some claims => next (with_claims claims req) w
         | None => Ret (inl (json_error 401 (if extract_key a req
                                             then "invalid api key" else "missing api key")), w)
         end.
Proof.
  unfold api_key_handle. destruct (negb _); [done|].
  destruct (extract_key a req); [|done]. cbn [mbind option_bind]. by destruct (keys a !! _).
Qed.

(** The security headers are those of the configuration whatever the handler
    set; a configuration whose texts are header values never fails. *)
Lemma security_headers_set s r :
  (include_hsts s = true → header_value (hsts_value s) = Some (hsts_value s)) →
  (include_csp s = true →
   header_value (join "; " (csp_directives s)) = Some (join "; " (csp_directives s))) →
  ∃ r', security_decorate s r = inl r' ∧ status r' = status r ∧ body r' = body r ∧
    assoc_get "x-content-type-options"%string (headers r') = Some "nosniff"%string ∧
    (include_xfo s = true → assoc_get "x-frame-options"%string (headers r') = Some "DENY"%string) ∧
    (include_hsts s = true →
     assoc_get "strict-transport-security"%string (headers r') = Some (hsts_value s)) ∧
    (include_csp s = true →
     assoc_get "content-security-policy"%string (headers r') = Some (join "; " (csp_directives s))).
Proof.
  intros Hh Hc. unfold security_decorate, set_checked.
  destruct (include_hsts s); [rewrite (Hh eq_refl)|];
    (destruct (include_csp s); [rewrite (Hc eq_refl)|]); destruct (include_xfo s);
    (eexists; split; [reflexivity|]); cbn [status body headers]; rewrite !header_insert_get;
    by split_and!.
Qed.

(** ** Witnesses *)

Module Examples.

#[local] Instance serde : SerdeJson := {| json_to_string _ := "{}"%string |}.

(** One token, "good", verified by the key 1. *)
Definition good_claims : json :=
  JObject [("sub"%string, JString "ann"); ("iat"%string, json_int 100);
           ("exp"%string, json_int 3700); ("roles"%string, JArray [JString "admin"])].

#[local] Instance jwt : JsonWebToken Z := {|
  algorithm := unit; HS256 := tt; RS256 := tt; RS384 := tt; RS512 := tt; ES256 := tt; ES384 := tt;
  decoding_key := nat; encoding_key := nat;
  decoding_key_from_secret _ := 1%nat; decoding_key_from_rsa_pem _ := None;
  decoding_key_from_ec_pem _ := None; decoding_key_from_rsa_der _ := 0%nat;
  decoding_key_from_ec_der _ := 0%nat;
  decode token k _ _ _ now :=
    if String.eqb token "good" && Nat.eqb k 1 && (now <=? 3700) then Some good_claims else None;
  encode _ claims k :=
    if json_eqb claims good_claims && Nat.eqb k 1 then Some "good"%string else None |}.

Definition ann (_ password : string) : option json :=
  if String.eqb password "pw"
  then Some (JObject [("roles"%string, JArray [JString "admin"])]) else None.

Definition provider : OAuth2Password Z := oauth2_new ann 1%nat 1%nat.

Definition form (text : string) : option (list (string * string)) :=
  Some [("grant_type", "password"); ("username", "ann"); ("password", "pw")]%string.

Definition token_request : Request :=
  new_request "POST" "/token" None
    [("content-type"%string, "application/x-www-form-urlencoded"%string)] (Some "form"%string).

Definition app_request (hs : HeaderMap) : Request :=
  new_request "GET" "/admin" None hs None.

Lemma provider_verifies :
  verifies id (oauth_algorithm provider) (oauth_encoding_key provider) (oauth_decoding_key provider).
Proof.
  intros claims token algs issuers w exp He _ Hexp Hw _ _.
  simpl in He. destruct (json_eqb claims good_claims) eqn:Hj; simplify_eq/=.
  apply json_eqb_eq in Hj as ->. simplify_eq/=.
  split; [done|]. by rewrite (proj2 (Z.leb_le w 3700)) by done.
Qed.

Lemma issued_token_opens_gate_witness :
  token_handler form id provider token_request 100
  = Ret (inl (token_response provider "good"), 100) ∧
  jwt_handle (jwt_auth provider) (λ req w, Ret (inl (mk_response 200 [] EmptyString), w))
    (app_request [("authorization"%string, "Bearer good"%string)]) 200
  = Ret (inl (mk_response 200 [] EmptyString), 200) ∧
  ∃ username password claims token,
    validate_user provider username password = Some claims ∧
    token_response provider "good" = token_response provider token.
Proof.
  split; [by vm_compute|]. split; [by vm_compute|].
  destruct (issued_token_opens_gate form id provider token_request 100 (token_response provider "good") 100)
    as (u & p & c & t & Hu & Hr & _); [exact provider_verifies|by vm_compute|done|].
  by exists u, p, c, t.
Defined.

Definition gate : JwtAuth Z := require_for "/admin" (ReqRoles ["admin"%string]) (from_secret "secret").
Definition answer (b : string) : HandlerFn Z := λ req w,
  Ret (inl (mk_response 200 [] (if req_claims req then "for ann" else b)), w).

(** The handlers differ, but only on requests without claims. *)
Lemma jwt_gate_witness :
  chain_run (mk_chain [cors_handle cors_permissive; jwt_handle gate] (answer "secret"))
  = chain_run (mk_chain [cors_handle cors_permissive; jwt_handle gate] (answer "other")) ∧
  (∃ r, chain_run (mk_chain [jwt_handle gate] (answer "secret")) (app_request []) 0 = Ret (inl r, 0) ∧
        status r ∈ [401; 403]).
Proof.
  assert (∀ req w req', authorised gate req w req' →
     chain_run (mk_chain [] (answer "secret")) req' w = chain_run (mk_chain [] (answer "other")) req' w) as H.
  { intros req w req' Ha. destruct Ha as [Hr|token claims]; [|done].
    unfold requirement_for_path, rule_for_path in Hr. simpl in Hr. by destruct (starts_with _ _). }
  split.
  - exact (proj1 (jwt_gate_noninterference [cors_handle cors_permissive] [] [] _ _ gate H)).
  - apply (proj2 (jwt_gate_noninterference [cors_handle cors_permissive] [] [] _ _ gate H)).
    intros (req' & Ha). destruct Ha as [Hr|token claims Hh]; [done|]. done.
Defined.

Definition cors_example : Cors :=
  with_allow_credentials (allow_origin "https://b.test" (allow_origin "https://a.test" cors_new)).

Lemma cors_contract_witness :
  cors_ok cors_example ∧
  matched_origin cors_example (app_request [("origin"%string, "https://b.test"%string)])
  = Some "https://b.test"%string ∧
  cors_handle cors_example (answer "x") (app_request [("origin"%string, "https://c.test"%string)]) 0
  = answer "x" (app_request [("origin"%string, "https://c.test"%string)]) 0.
Proof.
  assert (cors_ok cors_example) as Hok by (by vm_compute).
  split; [done|]. split; [done|].
  exact (cors_contract cors_example (answer "x")
           (app_request [("origin"%string, "https://c.test"%string)]) 0 Hok).
Defined.
End Examples.
