(* ===== verification/KvCache.v ===== *)
(** * KvCache: the paged KV-cache manager

    [crates/justapi-inference/src/kv_cache.rs]: the block pool with its
    clock-sweep eviction, the sequences that hold runs of blocks, and the
    hash-based prefix cache.  A [BlockId] is the [nat] index of the block. *)

From S2P Require Import Prelude F32.

Definition BLOCK_SIZE : nat := 16.
Definition MAX_BLOCKS : Z := Z.shiftl 1 24.

(** ** Data *)

Record PoolStats := {
  ps_total : nat; ps_allocated : nat; ps_cached : nat; ps_free : nat;
  ps_pressure_pct : f32; ps_evictions : Z }.

Record PrefixCacheStats := { pcs_entries : nat; pcs_hits : Z; pcs_misses : Z }.

Record BlockMeta := mk_meta { ref_count : Z; pinned : bool; hash : Z }.

Definition BlockMeta_new : BlockMeta := {| ref_count := 0; pinned := false; hash := 0 |}.

(** [free] lists the [Vec] from its end, the side [push] and [pop] work on. *)
Record KvBlockPool := mk_pool {
  metas : list BlockMeta;
  free : list nat;
  clock_hand : nat;
  eviction_count : Z;
  allocated_count : nat;
  cached_count : nat }.

Definition set_meta (b : nat) (m : BlockMeta) (p : KvBlockPool) : KvBlockPool :=
  mk_pool (<[b := m]> (metas p)) (free p) (clock_hand p) (eviction_count p)
    (allocated_count p) (cached_count p).

(** [self.metas[block as usize]]: an index out of range panics. *)
Definition meta_at (p : KvBlockPool) (b : nat) : exec BlockMeta :=
  match metas p !! b with Some m => Ret m | None => Panic end.

Module KvBlockPool.

(** ** The pool's operations *)

Definition new (capacity : Z) : KvBlockPool :=
  let capacity := Z.to_nat (Z.max 1 (Z.min capacity MAX_BLOCKS)) in
  mk_pool (replicate capacity BlockMeta_new) (seq 0 capacity) 0 0%Z 0 0.

Definition capacity (p : KvBlockPool) : nat := length (metas p).
Definition allocated (p : KvBlockPool) : nat := allocated_count p.
Definition in_use (p : KvBlockPool) : nat := allocated_count p - cached_count p.
Definition cached (p : KvBlockPool) : nat := cached_count p.
Definition available (p : KvBlockPool) : nat := length (free p).

Definition pressure_pct (p : KvBlockPool) : f32 :=
  f32_sub (f32_of_Z 100)
    (f32_mul (f32_div (f32_of_Z (Z.of_nat (length (free p))))
                      (f32_of_Z (Z.of_nat (length (metas p)))))
             (f32_of_Z 100)).

Definition stats (p : KvBlockPool) : PoolStats := {|
  ps_total := length (metas p);
  ps_allocated := allocated_count p;
  ps_cached := cached_count p;
  ps_free := length (free p);
  ps_pressure_pct := pressure_pct p;
  ps_evictions := eviction_count p |}.

(** The body of the clock-sweep loop, over the offsets still to be scanned. *)
Fixpoint evict_scan (offsets : list nat) (start n : nat) (p : KvBlockPool)
    : exec (option nat * KvBlockPool) :=
  match offsets with
  | [] => Ret (None, p)
  | offset :: offsets' =>
      let idx := (start + offset) mod n in
      let p := mk_pool (metas p) (free p) ((idx + 1) mod n) (eviction_count p)
                 (allocated_count p) (cached_count p) in
      meta ← meta_at p idx;
      if (0 <? ref_count meta)%Z || pinned meta then evict_scan offsets' start n p
      else Ret (Some idx,
                mk_pool (<[idx := BlockMeta_new]> (metas p)) (idx :: free p)
                  (clock_hand p) (wadd64 (eviction_count p) 1)
                  (allocated_count p - 1) (cached_count p - 1))
  end.

Definition evict_one (p : KvBlockPool) : exec (option nat * KvBlockPool) :=
  let n := length (metas p) in
  evict_scan (seq 0 n) (clock_hand p) n p.

(** What both paths of [alloc] do to the block they hand out. *)
Definition claim (b : nat) (p : KvBlockPool) : exec (option nat * KvBlockPool) :=
  meta ← meta_at p b;
  Ret (Some b,
       mk_pool (<[b := mk_meta 1 (pinned meta) 0]> (metas p)) (free p) (clock_hand p)
         (eviction_count p) (allocated_count p + 1) (cached_count p)).

Definition alloc (p : KvBlockPool) : exec (option nat * KvBlockPool) :=
  match free p with
  | block :: rest =>
      claim block (mk_pool (metas p) rest (clock_hand p) (eviction_count p)
                     (allocated_count p) (cached_count p))
  | [] =>
      '(evicted, p) ← evict_one p;
      match evicted with
      | None => Ret (None, p)
      | Some b => claim b p
      end
  end.

Definition retain (b : nat) (p : KvBlockPool) : exec KvBlockPool :=
  meta ← meta_at p b;
  if (0 <? ref_count meta)%Z
  then Ret (set_meta b (mk_meta (sadd32 (ref_count meta) 1) (pinned meta) (hash meta)) p)
  else Panic.

Definition reclaim (b : nat) (p : KvBlockPool) : exec KvBlockPool :=
  meta ← meta_at p b;
  if (ref_count meta =? 0)%Z
  then Ret (mk_pool (<[b := mk_meta 1 (pinned meta) (hash meta)]> (metas p)) (free p)
              (clock_hand p) (eviction_count p) (allocated_count p) (cached_count p - 1))
  else Panic.

Definition release (b : nat) (h : Z) (p : KvBlockPool) : exec KvBlockPool :=
  meta ← meta_at p b;
  if (0 <? ref_count meta)%Z then
    let rc := ssub (ref_count meta) 1 in
    Ret (if (rc =? 0)%Z
         then mk_pool (<[b := mk_meta rc (pinned meta) h]> (metas p)) (free p)
                (clock_hand p) (eviction_count p) (allocated_count p) (cached_count p + 1)
         else set_meta b (mk_meta rc (pinned meta) (hash meta)) p)
  else Panic.

Definition free_cached (b : nat) (p : KvBlockPool) : exec KvBlockPool :=
  meta ← meta_at p b;
  if (ref_count meta =? 0)%Z
  then Ret (mk_pool (<[b := mk_meta (ref_count meta) false 0]> (metas p)) (b :: free p)
              (clock_hand p) (eviction_count p) (allocated_count p) (cached_count p - 1))
  else Panic.

Definition pin (b : nat) (p : KvBlockPool) : exec KvBlockPool :=
  meta ← meta_at p b;
  Ret (set_meta b (mk_meta (ref_count meta) true (hash meta)) p).

Definition unpin (b : nat) (p : KvBlockPool) : exec KvBlockPool :=
  meta ← meta_at p b;
  Ret (set_meta b (mk_meta (ref_count meta) false (hash meta)) p).

Definition is_in_use (b : nat) (p : KvBlockPool) : exec bool :=
  meta ← meta_at p b; Ret (0 <? ref_count meta)%Z.

Definition block_hash (b : nat) (p : KvBlockPool) : exec Z :=
  meta ← meta_at p b; Ret (hash meta).

Fixpoint evict (target : nat) (p : KvBlockPool) : exec (nat * KvBlockPool) :=
  match target with
  | 0 => Ret (0, p)
  | S target' =>
      '(r, p) ← evict_one p;
      match r with
      | Some _ => '(evicted, p) ← evict target' p; Ret (S evicted, p)
      | None => Ret (0, p)
      end
  end.

End KvBlockPool.

(** ** Sequences *)

Record Sequence := mk_seq { seq_id : Z; seq_blocks : list nat; seq_num_tokens : Z }.

Module Sequence.

Definition new (id : Z) : Sequence := mk_seq id [] 0.

Definition num_blocks (s : Sequence) : nat := length (seq_blocks s).

Definition grow (s : Sequence) (p : KvBlockPool)
    : exec (option nat * Sequence * KvBlockPool) :=
  '(r, p) ← KvBlockPool.alloc p;
  match r with
  | Some b => Ret (Some b, mk_seq (seq_id s) (seq_blocks s ++ [b]) (seq_num_tokens s), p)
  | None => Ret (None, s, p)
  end.

Definition advance (n : Z) (s : Sequence) : Sequence :=
  mk_seq (seq_id s) (seq_blocks s) (wadd64 (seq_num_tokens s) n).

Definition set_num_tokens (n : Z) (s : Sequence) : Sequence :=
  mk_seq (seq_id s) (seq_blocks s) n.

Definition restore_from_cache (blocks : list nat) (num_tokens : Z) (s : Sequence)
    (p : KvBlockPool) : exec (Sequence * KvBlockPool) :=
  p ← mfold (λ p b, KvBlockPool.reclaim b p) p blocks;
  Ret (mk_seq (seq_id s) blocks num_tokens, p).

End Sequence.

(** ** The hash-based prefix cache *)

(** FNV-1a over the token ids. *)
Definition fnv_offset : Z := 14695981039346656037.
Definition fnv_prime : Z := 1099511628211.
Definition hash_tokens (tokens : list Z) : Z :=
  foldl (λ h t, wmul64 (Z.lxor h t) fnv_prime) fnv_offset tokens.

Record PrefixCache := mk_prefix_cache {
  entries : gmap Z (list nat);
  prefix_lengths : gmap Z nat;
  pc_hits : Z;
  pc_misses : Z }.

Module PrefixCache.

Definition new : PrefixCache := mk_prefix_cache ∅ ∅ 0 0.

Definition prefix_hash (tokens : list Z) (num_tokens : nat) : Z :=
  hash_tokens (take (length tokens `min` num_tokens) tokens).

Definition len (c : PrefixCache) : nat := size (entries c).

Definition total_stored_blocks (c : PrefixCache) : nat :=
  map_fold (λ _ blocks acc, length blocks + acc) 0 (entries c).

Definition stats (c : PrefixCache) : PrefixCacheStats :=
  {| pcs_entries := size (entries c); pcs_hits := pc_hits c; pcs_misses := pc_misses c |}.

(** One turn of the loop of [insert]: the prefix of [n] blocks. *)
Definition insert_prefix (tokens : list Z) (blocks : list nat) (c : PrefixCache) (n : nat)
    : PrefixCache :=
  let num_tokens := n * BLOCK_SIZE in
  let h := prefix_hash tokens num_tokens in
  match entries c !! h with
  | Some _ => c
  | None => mk_prefix_cache (<[h := take n blocks]> (entries c))
              (<[h := num_tokens]> (prefix_lengths c)) (pc_hits c) (pc_misses c)
  end.

Definition insert (tokens : list Z) (blocks : list nat) (c : PrefixCache) : PrefixCache :=
  foldl (insert_prefix tokens blocks) c (seq 1 (length blocks)).

(** The loop of [lookup], from [n] blocks down to one. *)
Fixpoint lookup_from (c : PrefixCache) (tokens : list Z) (n : nat)
    : option (nat * list nat) :=
  match n with
  | 0 => None
  | S n' =>
      let num_tokens := n * BLOCK_SIZE in
      match entries c !! prefix_hash tokens num_tokens with
      | Some blocks => Some (num_tokens, blocks)
      | None => lookup_from c tokens n'
      end
  end.

Definition lookup (tokens : list Z) (c : PrefixCache)
    : option (nat * list nat) * PrefixCache :=
  match lookup_from c tokens (div_ceil (length tokens) BLOCK_SIZE) with
  | Some r => (Some r, mk_prefix_cache (entries c) (prefix_lengths c)
                         (wadd64 (pc_hits c) 1) (pc_misses c))
  | None => (None, mk_prefix_cache (entries c) (prefix_lengths c)
                     (pc_hits c) (wadd64 (pc_misses c) 1))
  end.

Definition remove (h : Z) (c : PrefixCache) : option (list nat) * PrefixCache :=
  (entries c !! h,
   mk_prefix_cache (delete h (entries c)) (delete h (prefix_lengths c))
     (pc_hits c) (pc_misses c)).

End PrefixCache.

(** ** Abstract specification of the pool

    The three states of a block that the header comment of the code lists and
    its pin, and what each call does to them.  [spec_of] reads them off a
    concrete pool. *)

Inductive block_state := Free | InUse (refs : Z) | Cached.

#[export] Instance block_state_eq_dec : EqDecision block_state.
Proof. solve_decision. Defined.

Definition is_cached (s : block_state) : bool := match s with Cached => true | _ => false end.
Definition is_taken (s : block_state) : bool := match s with Free => false | _ => true end.

Inductive pool_op :=
| OpAlloc
| OpRetain (b : nat)
| OpReclaim (b : nat)
| OpRelease (b : nat) (h : Z)
| OpFreeCached (b : nat)
| OpPin (b : nat)
| OpUnpin (b : nat)
| OpEvict (target : nat).

Record spec_pool := mk_spec { sp_state : list block_state; sp_pins : list bool }.

Definition free_all (bs : list nat) (s : list block_state) : list block_state :=
  foldl (λ s b, <[b := Free]> s) s bs.

(** A call on the abstract pool and its answer: the block of [alloc], the
    number of blocks of [evict], nothing for the others. *)
Inductive spec_step : spec_pool → pool_op → option nat → spec_pool → Prop :=
| spec_alloc s u b : s !! b = Some Free →
    spec_step (mk_spec s u) OpAlloc (Some b) (mk_spec (<[b := InUse 1]> s) u)
| spec_alloc_fail s u : Free ∉ s →
    (∀ b, s !! b = Some Cached → u !! b = Some true) →
    spec_step (mk_spec s u) OpAlloc None (mk_spec s u)
| spec_retain s u b n : s !! b = Some (InUse n) →
    spec_step (mk_spec s u) (OpRetain b) None
      (mk_spec (<[b := InUse (Z.min (n + 1) u32_max)]> s) u)
| spec_reclaim s u b : s !! b = Some Cached →
    spec_step (mk_spec s u) (OpReclaim b) None (mk_spec (<[b := InUse 1]> s) u)
| spec_release_last s u b h : s !! b = Some (InUse 1) →
    spec_step (mk_spec s u) (OpRelease b h) None (mk_spec (<[b := Cached]> s) u)
| spec_release s u b h n : s !! b = Some (InUse n) → (1 < n)%Z →
    spec_step (mk_spec s u) (OpRelease b h) None (mk_spec (<[b := InUse (n - 1)]> s) u)
| spec_free s u b : s !! b = Some Cached →
    spec_step (mk_spec s u) (OpFreeCached b) None (mk_spec (<[b := Free]> s) (<[b := false]> u))
| spec_pin s u b : is_Some (s !! b) →
    spec_step (mk_spec s u) (OpPin b) None (mk_spec s (<[b := true]> u))
| spec_unpin s u b : is_Some (s !! b) →
    spec_step (mk_spec s u) (OpUnpin b) None (mk_spec s (<[b := false]> u))
| spec_evict s u target bs : NoDup bs → length bs ≤ target →
    (∀ b, b ∈ bs → s !! b = Some Cached ∧ u !! b = Some false) →
    (length bs < target → ∀ b, s !! b = Some Cached → u !! b = Some true) →
    spec_step (mk_spec s u) (OpEvict target) (Some (length bs)) (mk_spec (free_all bs s) u).

Definition classify (fr : list nat) (b : nat) (m : BlockMeta) : block_state :=
  if decide (b ∈ fr) then Free
  else if (ref_count m =? 0)%Z then Cached else InUse (ref_count m).

Definition abs (p : KvBlockPool) : list block_state := imap (classify (free p)) (metas p).
Definition pins (p : KvBlockPool) : list bool := pinned <$> metas p.
Definition spec_of (p : KvBlockPool) : spec_pool := mk_spec (abs p) (pins p).

Definition exec_op (o : pool_op) (p : KvBlockPool) : exec (option nat * KvBlockPool) :=
  match o with
  | OpAlloc => KvBlockPool.alloc p
  | OpRetain b => p ← KvBlockPool.retain b p; Ret (None, p)
  | OpReclaim b => p ← KvBlockPool.reclaim b p; Ret (None, p)
  | OpRelease b h => p ← KvBlockPool.release b h p; Ret (None, p)
  | OpFreeCached b => p ← KvBlockPool.free_cached b p; Ret (None, p)
  | OpPin b => p ← KvBlockPool.pin b p; Ret (None, p)
  | OpUnpin b => p ← KvBlockPool.unpin b p; Ret (None, p)
  | OpEvict target => '(n, p) ← KvBlockPool.evict target p; Ret (Some n, p)
  end.

(** A block the clock sweep may take. *)
Definition evictable (m : BlockMeta) : bool := negb ((0 <? ref_count m)%Z || pinned m).

(** The blocks of the pool in the order of the sweep. *)
Definition sweep_order (p : KvBlockPool) : list nat :=
  (λ o, (clock_hand p + o) mod length (metas p)) <$> seq 0 (length (metas p)).

Definition evictable_at (p : KvBlockPool) (b : nat) : bool :=
  match metas p !! b with Some m => evictable m | None => false end.

(** The blocks the sweep takes, in its order. *)
Definition victims (p : KvBlockPool) : list nat :=
  filter (λ b, evictable_at p b = true) (sweep_order p).

(** The contract of each call, from its doc comment.  Two calls keep theirs
    only in part: [alloc] is asked for while a block is free, or while no
    cached block is left unpinned (its remaining path is the subject of
    [alloc_after_eviction_aliases]); and the sweep does not tell a free block
    from a cached one, so [evict] is asked for no more than it can take before
    it comes to a free block ([evict_frees_twice]). *)
Definition op_pre (o : pool_op) (p : KvBlockPool) : Prop :=
  match o with
  | OpAlloc => free p ≠ [] ∨ Forall (λ m, evictable m = false) (metas p)
  | OpRetain b | OpRelease b _ => ∃ n, abs p !! b = Some (InUse n)
  | OpReclaim b | OpFreeCached b => abs p !! b = Some Cached
  | OpPin b | OpUnpin b => b < length (metas p)
  | OpEvict target =>
      victims p = [] ∨
      (target ≤ length (victims p) ∧
       ∀ b, b ∈ take target (victims p) → abs p !! b = Some Cached)
  end.

Record pool_wf (p : KvBlockPool) : Prop := {
  wf_free_nodup : NoDup (free p);
  wf_free_ref : ∀ b, b ∈ free p → ∃ m, metas p !! b = Some m ∧ ref_count m = 0%Z;
  wf_ref : ∀ b m, metas p !! b = Some m → is_u32 (ref_count m);
  wf_hand : clock_hand p < length (metas p);
  wf_cached : cached_count p = count is_cached (abs p);
  wf_allocated : count is_taken (abs p) ≤ allocated_count p }.

(** *** The abstraction under an update of one block *)

Lemma abs_lookup p b : abs p !! b = classify (free p) b <$> metas p !! b.
Proof. apply list_lookup_imap. Qed.

Lemma length_abs p : length (abs p) = length (metas p).
Proof. apply length_imap. Qed.

Lemma abs_set p p' b m :
  metas p' = <[b := m]> (metas p) →
  b < length (metas p) →
  (∀ b', b' ≠ b → b' ∈ free p' ↔ b' ∈ free p) →
  abs p' = <[b := classify (free p') b m]> (abs p).
Proof.
  intros Hm Hb Hf. apply list_eq. intros i. rewrite abs_lookup, Hm.
  destruct (decide (i = b)) as [->|Hne].
  - rewrite !list_lookup_insert_eq by (by rewrite ?length_abs). done.
  - rewrite !list_lookup_insert_ne, abs_lookup by done.
    destruct (metas p !! i) as [mi|]; simpl; [|done].
    unfold classify. f_equal. specialize (Hf i Hne).
    by rewrite (decide_ext _ _ _ _ Hf).
Qed.

Lemma wf_set p p' b m old :
  pool_wf p →
  metas p' = <[b := m]> (metas p) →
  abs p !! b = Some old →
  is_u32 (ref_count m) →
  NoDup (free p') →
  (∀ b', b' ≠ b → b' ∈ free p' ↔ b' ∈ free p) →
  (b ∈ free p' → ref_count m = 0%Z) →
  clock_hand p' < length (metas p) →
  cached_count p' + bnat (is_cached old)
    = cached_count p + bnat (is_cached (classify (free p') b m)) →
  allocated_count p + bnat (is_taken (classify (free p') b m))
    ≤ allocated_count p' + bnat (is_taken old) →
  pool_wf p'.
Proof.
  intros Hwf Hm Hold Hu Hnd Hf Hfr Hh Hc Ha.
  pose proof (lookup_lt_Some _ _ _ Hold) as Hb. rewrite length_abs in Hb.
  pose proof (abs_set p p' b m Hm Hb Hf) as Habs.
  split.
  - done.
  - intros b' Hb'. rewrite Hm. destruct (decide (b' = b)) as [->|Hne].
    + exists m. rewrite list_lookup_insert_eq by done. auto.
    + rewrite list_lookup_insert_ne by done. apply (wf_free_ref _ Hwf), Hf; done.
  - intros b' m'. rewrite Hm. destruct (decide (b' = b)) as [->|Hne].
    + rewrite list_lookup_insert_eq by done. by intros [= <-].
    + rewrite list_lookup_insert_ne by done. apply (wf_ref _ Hwf).
  - by rewrite Hm, length_insert.
  - rewrite Habs. pose proof (wf_cached _ Hwf).
    pose proof (count_insert is_cached _ _ _ (classify (free p') b m) Hold). lia.
  - rewrite Habs. pose proof (wf_allocated _ Hwf).
    pose proof (count_insert is_taken _ _ _ (classify (free p') b m) Hold). lia.
Qed.

Lemma abs_in_use p b n :
  pool_wf p → abs p !! b = Some (InUse n) →
  ∃ m, metas p !! b = Some m ∧ (b ∉ free p) ∧ ref_count m = n ∧ (0 < n ≤ u32_max)%Z.
Proof.
  intros Hwf. rewrite abs_lookup. destruct (metas p !! b) as [m|] eqn:Hm; simpl; [|done].
  pose proof (wf_ref _ Hwf _ _ Hm) as [? ?]. unfold classify.
  case_decide; [done|]. destruct (Z.eqb_spec (ref_count m) 0); [done|].
  intros [= <-]. exists m. repeat split; auto; lia.
Qed.

Lemma abs_cached p b :
  abs p !! b = Some Cached →
  ∃ m, metas p !! b = Some m ∧ (b ∉ free p) ∧ ref_count m = 0%Z.
Proof.
  rewrite abs_lookup. destruct (metas p !! b) as [m|] eqn:Hm; simpl; [|done].
  unfold classify. case_decide; [done|]. destruct (Z.eqb_spec (ref_count m) 0); [|done].
  eauto.
Qed.

Lemma classify_off fr b m :
  b ∉ fr → classify fr b m = if (ref_count m =? 0)%Z then Cached else InUse (ref_count m).
Proof. intros. unfold classify. by rewrite decide_False. Qed.

Lemma classify_on fr b m : b ∈ fr → classify fr b m = Free.
Proof. intros. unfold classify. by rewrite decide_True. Qed.

(** [claim] on a block that has just left the free list. *)
Lemma claim_fresh p b rest :
  pool_wf p → free p = b :: rest →
  let q := mk_pool (metas p) rest (clock_hand p) (eviction_count p)
             (allocated_count p) (cached_count p) in
  ∃ p', KvBlockPool.claim b q = Ret (Some b, p') ∧ pool_wf p' ∧
        abs p !! b = Some Free ∧ abs p' = <[b := InUse 1]> (abs p).
Proof.
  intros Hwf Hf q. pose proof (wf_free_nodup _ Hwf) as Hnd. rewrite Hf in Hnd.
  apply NoDup_cons in Hnd as [Hnb Hnd].
  destruct (wf_free_ref _ Hwf b) as (m & Hm & Hr); [rewrite Hf; left|].
  assert (abs p !! b = Some Free) as Hst.
  { rewrite abs_lookup, Hm. simpl. rewrite classify_on; [done|rewrite Hf; left]. }
  pose proof (lookup_lt_Some _ _ _ Hm) as Hlt.
  unfold KvBlockPool.claim, meta_at. simpl. rewrite Hm. simpl. eexists. split; [done|].
  set (m' := mk_meta 1 (pinned m) 0).
  assert (classify rest b m' = InUse 1) as Hcl by (by rewrite classify_off).
  assert (∀ b', b' ≠ b → b' ∈ rest ↔ b' ∈ free p) as Hiff.
  { intros b' ?. rewrite Hf, elem_of_cons. naive_solver. }
  split; [|split; [done|]].
  - apply (wf_set p _ b m' Free); simpl; rewrite ?Hcl; simpl; auto; try done; try lia.
    apply (wf_hand _ Hwf).
  - rewrite (abs_set p _ b m'); simpl; rewrite ?Hcl; auto.
Qed.

(** An update of the metadata of one block that stays off the free list. *)
Lemma step_off_free p b m m' old st dc :
  pool_wf p → metas p !! b = Some m → b ∉ free p → abs p !! b = Some old →
  is_u32 (ref_count m') →
  st = (if (ref_count m' =? 0)%Z then Cached else InUse (ref_count m')) →
  is_taken old = true →
  dc + bnat (is_cached old) = cached_count p + bnat (is_cached st) →
  let p' := mk_pool (<[b := m']> (metas p)) (free p) (clock_hand p) (eviction_count p)
              (allocated_count p) dc in
  pool_wf p' ∧ abs p' = <[b := st]> (abs p).
Proof.
  intros Hwf Hm Hb Hold Hu -> Ht Hdc p'.
  pose proof (lookup_lt_Some _ _ _ Hm) as Hlt.
  pose proof (classify_off (free p) b m' Hb) as Hcl. split.
  - apply (wf_set p p' b m' old); simpl; rewrite ?Hcl, ?Ht; auto; try done.
    + apply (wf_free_nodup _ Hwf).
    + apply (wf_hand _ Hwf).
    + destruct (ref_count m' =? 0)%Z; simpl; lia.
  - rewrite (abs_set p p' b m'); simpl; rewrite ?Hcl; auto.
Qed.

Lemma retain_refines p b n :
  pool_wf p → abs p !! b = Some (InUse n) →
  ∃ p', KvBlockPool.retain b p = Ret p' ∧ pool_wf p' ∧
        abs p' = <[b := InUse (Z.min (n + 1) u32_max)]> (abs p).
Proof.
  intros Hwf Hst. destruct (abs_in_use p b n Hwf Hst) as (m & Hm & Hb & Hr & Hn).
  unfold KvBlockPool.retain, meta_at. rewrite Hm. simpl.
  destruct (Z.ltb_spec 0 (ref_count m)); [|lia]. eexists. split; [done|].
  unfold set_meta, sadd32 in *.
  eapply step_off_free; eauto; simpl.
  - unfold is_u32, u32_max in *. lia.
  - rewrite Hr. destruct (Z.eqb_spec (Z.min (n + 1) u32_max) 0); [|done].
    unfold u32_max in *. lia.
Qed.

Lemma reclaim_refines p b :
  pool_wf p → abs p !! b = Some Cached →
  ∃ p', KvBlockPool.reclaim b p = Ret p' ∧ free p' = free p ∧ pool_wf p' ∧
        abs p' = <[b := InUse 1]> (abs p).
Proof.
  intros Hwf Hst. destruct (abs_cached p b Hst) as (m & Hm & Hb & Hr).
  unfold KvBlockPool.reclaim, meta_at. rewrite Hm. simpl. rewrite Hr. simpl.
  eexists. split; [done|]. split; [done|]. eapply step_off_free; eauto; simpl; try done.
  assert (0 < cached_count p); [|lia]. rewrite (wf_cached _ Hwf).
  pose proof (count_insert is_cached _ _ _ Free Hst). simpl in *. lia.
Qed.

Lemma release_refines p b h n :
  pool_wf p → abs p !! b = Some (InUse n) →
  ∃ p', KvBlockPool.release b h p = Ret p' ∧ free p' = free p ∧ pool_wf p' ∧
        abs p' = <[b := if (n =? 1)%Z then Cached else InUse (n - 1)]> (abs p).
Proof.
  intros Hwf Hst. destruct (abs_in_use p b n Hwf Hst) as (m & Hm & Hb & Hr & Hn).
  unfold KvBlockPool.release, meta_at. rewrite Hm. simpl. rewrite Hr.
  destruct (Z.ltb_spec 0 n); [|lia]. eexists. split; [done|].
  replace (ssub n 1) with (n - 1)%Z by (unfold ssub; lia).
  destruct (Z.eqb_spec n 1) as [->|Hn1]; simpl.
  - split; [done|]. eapply step_off_free; eauto; simpl; try done; lia.
  - destruct (Z.eqb_spec (n - 1) 0); [lia|]. unfold set_meta.
    split; [done|]. eapply step_off_free; eauto; simpl.
    + unfold is_u32, u32_max in *. lia.
    + by destruct (Z.eqb_spec (n - 1) 0); [lia|].
Qed.

Lemma free_cached_refines p b :
  pool_wf p → abs p !! b = Some Cached →
  ∃ p', KvBlockPool.free_cached b p = Ret p' ∧ pool_wf p' ∧ free p' = b :: free p ∧
        abs p' = <[b := Free]> (abs p).
Proof.
  intros Hwf Hst. destruct (abs_cached p b Hst) as (m & Hm & Hb & Hr).
  pose proof (lookup_lt_Some _ _ _ Hm) as Hlt.
  unfold KvBlockPool.free_cached, meta_at. rewrite Hm. simpl. rewrite Hr. simpl.
  eexists. split; [done|]. set (m' := mk_meta 0 false 0).
  assert (classify (b :: free p) b m' = Free) as Hcl by (apply classify_on; left).
  assert (∀ b', b' ≠ b → b' ∈ b :: free p ↔ b' ∈ free p) as Hiff.
  { intros. rewrite elem_of_cons. naive_solver. }
  split; [|split; [done|]].
  - apply (wf_set p _ b m' Cached); simpl; rewrite ?Hcl; simpl; auto; try done; try lia.
    + apply NoDup_cons. split; [done|apply (wf_free_nodup _ Hwf)].
    + apply (wf_hand _ Hwf).
    + assert (0 < cached_count p); [|lia]. rewrite (wf_cached _ Hwf).
      pose proof (count_insert is_cached _ _ _ Free Hst). simpl in *. lia.
  - rewrite (abs_set p _ b m'); simpl; rewrite ?Hcl; auto.
Qed.

(** Setting the pinned flag changes no block's state. *)
Lemma set_pinned_refines p b v m :
  pool_wf p → metas p !! b = Some m →
  let p' := set_meta b (mk_meta (ref_count m) v (hash m)) p in
  pool_wf p' ∧ abs p' = abs p.
Proof.
  intros Hwf Hm p'. pose proof (lookup_lt_Some _ _ _ Hm) as Hlt.
  assert (abs p !! b = Some (classify (free p) b m)) as Hst by (by rewrite abs_lookup, Hm).
  set (m' := mk_meta (ref_count m) v (hash m)).
  assert (classify (free p) b m' = classify (free p) b m) as Hcl by done.
  split.
  - apply (wf_set p p' b m' (classify (free p) b m)); simpl; rewrite ?Hcl; eauto; try done.
    + apply (wf_ref _ Hwf _ _ Hm).
    + apply (wf_free_nodup _ Hwf).
    + intros Hin. destruct (wf_free_ref _ Hwf _ Hin) as (m2 & ? & ?). naive_solver.
    + apply (wf_hand _ Hwf).
  - rewrite (abs_set p p' b m'); simpl; rewrite ?Hcl; auto.
    by apply list_insert_id.
Qed.

(** *** The clock sweep *)

(** What the sweep leaves behind when it takes block [b]. *)
Definition evicted_pool (p : KvBlockPool) (b : nat) : KvBlockPool :=
  mk_pool (<[b := BlockMeta_new]> (metas p)) (b :: free p) ((b + 1) mod length (metas p))
    (wadd64 (eviction_count p) 1) (allocated_count p - 1) (cached_count p - 1).

Definition set_hand (h : nat) (p : KvBlockPool) : KvBlockPool :=
  mk_pool (metas p) (free p) h (eviction_count p) (allocated_count p) (cached_count p).

Lemma evict_scan_spec offs start p hand :
  metas p ≠ [] →
  KvBlockPool.evict_scan offs start (length (metas p)) (set_hand hand p) =
  match list_find (λ b, evictable_at p b = true)
          ((λ o, (start + o) mod length (metas p)) <$> offs) with
  | Some (_, b) => Ret (Some b, evicted_pool p b)
  | None => Ret (None, set_hand (default hand (last
              ((λ o, ((start + o) mod length (metas p) + 1) mod length (metas p)) <$> offs))) p)
  end.
Proof.
  intros Hne. set (n := length (metas p)).
  assert (n ≠ 0) as Hn by (unfold n; destruct (metas p); simpl; congruence).
  revert hand. induction offs as [|o offs IH]; intros hand; [done|].
  cbn [KvBlockPool.evict_scan]. set (idx := (start + o) mod n).
  assert (idx < n) as Hidx by (apply Nat.mod_upper_bound; done).
  destruct (lookup_lt_is_Some_2 (metas p) idx Hidx) as [m Hm].
  change (mk_pool (metas (set_hand hand p)) (free (set_hand hand p)) ((idx + 1) mod n)
            (eviction_count (set_hand hand p)) (allocated_count (set_hand hand p))
            (cached_count (set_hand hand p))) with (set_hand ((idx + 1) mod n) p).
  unfold meta_at. change (metas (set_hand ((idx + 1) mod n) p)) with (metas p).
  rewrite Hm. cbn [mbind exec_bind]. rewrite !fmap_cons. cbn [list_find].
  fold idx. assert (evictable_at p idx = evictable m) as Hev.
  { unfold evictable_at. by rewrite Hm. }
  rewrite Hev. unfold evictable. fold n.
  destruct ((0 <? ref_count m)%Z || pinned m); simpl.
  - rewrite IH. destruct (list_find _ _) as [[? ?]|]; simpl; [done|].
    do 3 f_equal. destruct offs as [|o' offs']; [done|].
    rewrite fmap_cons. simpl. destruct (last _) eqn:E; [done|].
    exfalso. apply last_None in E. done.
  - done.
Qed.

Lemma set_hand_id p : set_hand (clock_hand p) p = p.
Proof. by destruct p. Qed.

Lemma evict_one_find p :
  clock_hand p < length (metas p) →
  KvBlockPool.evict_one p =
  match list_find (λ b, evictable_at p b = true) (sweep_order p) with
  | Some (_, b) => Ret (Some b, evicted_pool p b)
  | None => Ret (None, p)
  end.
Proof.
  intros Hh. unfold KvBlockPool.evict_one, sweep_order.
  assert (metas p ≠ []) as Hne by (destruct (metas p); simpl in *; [lia|done]).
  pose proof (evict_scan_spec (seq 0 (length (metas p))) (clock_hand p) p (clock_hand p) Hne)
    as Hs.
  rewrite set_hand_id in Hs. rewrite Hs. clear Hs.
  destruct (list_find _ _) as [[? ?]|]; [done|]. do 2 f_equal.
  destruct (length (metas p)) as [|n] eqn:Hn; [lia|].
  rewrite seq_S, fmap_app, list_fmap_singleton, last_snoc.
  cbn [from_option]. unfold id. rewrite Nat.add_0_l.
  rewrite Nat.Div0.add_mod_idemp_l.
  replace (clock_hand p + n + 1) with (clock_hand p + 1 * S n) by lia.
  rewrite Nat.Div0.mod_add, Nat.mod_small by lia. apply set_hand_id.
Qed.

Lemma sweep_order_all p b : b < length (metas p) → clock_hand p < length (metas p) →
  b ∈ sweep_order p.
Proof.
  intros Hb Hh. unfold sweep_order. apply list_elem_of_fmap. set (n := length (metas p)) in *.
  exists ((b + n - clock_hand p) mod n). split.
  - rewrite Nat.Div0.add_mod_idemp_r.
    replace (clock_hand p + (b + n - clock_hand p)) with (b + 1 * n) by lia.
    by rewrite Nat.Div0.mod_add, Nat.mod_small.
  - apply elem_of_seq. pose proof (Nat.mod_upper_bound (b + n - clock_hand p) n). lia.
Qed.

Lemma evict_one_none p :
  clock_hand p < length (metas p) →
  Forall (λ m, evictable m = false) (metas p) →
  KvBlockPool.evict_one p = Ret (None, p).
Proof.
  intros Hh Hall. rewrite evict_one_find by done.
  destruct (list_find _ _) as [[i b]|] eqn:Hf; [|done].
  apply list_find_Some in Hf as (_ & Hev & _). unfold evictable_at in Hev.
  destruct (metas p !! b) as [m|] eqn:Hm; [|done].
  rewrite Forall_lookup in Hall. specialize (Hall _ _ Hm). congruence.
Qed.

(** *** Several sweeps in a row *)

Lemma sweep_order_NoDup p : clock_hand p < length (metas p) → NoDup (sweep_order p).
Proof.
  intros Hh. unfold sweep_order. set (n := length (metas p)) in *.
  apply NoDup_fmap_2_strong; [|apply NoDup_seq].
  intros x y Hx%elem_of_seq Hy%elem_of_seq Hxy.
  assert (∀ o, o < n → (clock_hand p + o) mod n
            = if decide (clock_hand p + o < n) then clock_hand p + o
              else clock_hand p + o - n) as Hm.
  { intros o Ho. case_decide; [by apply Nat.mod_small|].
    replace (clock_hand p + o) with (clock_hand p + o - n + 1 * n) at 1 by lia.
    rewrite Nat.Div0.mod_add. apply Nat.mod_small. lia. }
  rewrite !Hm in Hxy by lia. repeat case_decide; lia.
Qed.

Lemma evictable_evicted p b b' :
  evictable_at p b = true → evictable_at (evicted_pool p b) b' = evictable_at p b'.
Proof.
  intros Hb. unfold evictable_at in *. simpl.
  destruct (metas p !! b) as [m|] eqn:Hm; [|done].
  destruct (decide (b' = b)) as [->|Hne].
  - rewrite list_lookup_insert_eq by by eapply lookup_lt_Some. by rewrite Hm, Hb.
  - by rewrite list_lookup_insert_ne.
Qed.

(** The next sweep starts where the last one stopped. *)
Lemma sweep_order_evicted p b i :
  sweep_order p !! i = Some b →
  sweep_order (evicted_pool p b)
    = drop (S i) (sweep_order p) ++ take (S i) (sweep_order p).
Proof.
  intros Hi. unfold sweep_order in *. simpl. rewrite length_insert.
  set (n := length (metas p)) in *.
  rewrite list_lookup_fmap, fmap_Some in Hi. destruct Hi as (o & Ho & ->).
  apply lookup_seq in Ho as [-> Hlt]. simpl.
  rewrite <- fmap_drop, <- fmap_take, drop_seq, take_seq, <- fmap_app.
  replace (S i `min` n) with (S i) by lia.
  apply list_eq. intros k. rewrite !list_lookup_fmap.
  destruct (decide (k < n)) as [Hk|Hk].
  - rewrite lookup_seq_lt by done.
    destruct (decide (k < n - S i)) as [Hk'|Hk'].
    + rewrite lookup_app_l, lookup_seq_lt by (rewrite ?length_seq; lia). cbn. f_equal.
      rewrite Nat.Div0.add_mod_idemp_l.
      rewrite <- Nat.add_assoc, Nat.Div0.add_mod_idemp_l. f_equal. lia.
    + rewrite lookup_app_r, length_seq by (rewrite ?length_seq; lia).
      rewrite lookup_seq_lt by lia. cbn. f_equal.
      rewrite !Nat.Div0.add_mod_idemp_l. rewrite <- Nat.add_assoc, Nat.Div0.add_mod_idemp_l.
      replace (clock_hand p + i + (1 + k)) with (clock_hand p + (k - (n - S i)) + 1 * n) by lia.
      apply Nat.Div0.mod_add.
  - rewrite !lookup_ge_None_2; [done| |]; rewrite ?length_app, ?length_seq; lia.
Qed.

Lemma victims_head p :
  clock_hand p < length (metas p) →
  match victims p with
  | [] => KvBlockPool.evict_one p = Ret (None, p)
  | b :: vs => KvBlockPool.evict_one p = Ret (Some b, evicted_pool p b) ∧
               victims (evicted_pool p b) = vs ++ [b] ∧ evictable_at p b = true
  end.
Proof.
  intros Hh. rewrite evict_one_find by done.
  destruct (list_find _ _) as [[i b]|] eqn:Hf.
  - apply list_find_Some in Hf as (Hi & Hev & Hlt).
    assert (sweep_order p = take i (sweep_order p) ++ b :: drop (S i) (sweep_order p)) as Hsp
      by (by rewrite (take_drop_middle _ _ _ Hi)).
    assert (filter (λ b, evictable_at p b = true) (take i (sweep_order p)) = []) as Hnil.
    { apply filter_none. intros x (j & Hj)%list_elem_of_lookup Hx.
      apply lookup_take_Some in Hj as [Hj Hji]. by apply (Hlt j x). }
    assert (victims p
            = b :: filter (λ b, evictable_at p b = true) (drop (S i) (sweep_order p))) as ->.
    { unfold victims. rewrite Hsp at 1. rewrite filter_app, Hnil, filter_cons_True by done.
      done. }
    split; [done|]. split; [|done]. unfold victims. rewrite (sweep_order_evicted p b i Hi).
    rewrite (list_filter_iff _ (λ b, evictable_at p b = true))
      by (intros x; by rewrite evictable_evicted).
    rewrite filter_app. f_equal.
    rewrite (take_S_r _ _ _ Hi), filter_app, Hnil, filter_cons_True by done. done.
  - assert (victims p = []) as ->; [|done]. apply filter_none.
    apply list_find_None in Hf. intros x Hx Hev. rewrite Forall_forall in Hf. by apply (Hf x).
Qed.

Lemma evicted_refines p b :
  pool_wf p → abs p !! b = Some Cached →
  evictable_at p b = true →
  pool_wf (evicted_pool p b) ∧ abs (evicted_pool p b) = <[b := Free]> (abs p) ∧
  pins (evicted_pool p b) = pins p.
Proof.
  intros Hwf Hst Hev. destruct (abs_cached p b Hst) as (m & Hm & Hb & Hr).
  pose proof (lookup_lt_Some _ _ _ Hm) as Hlt.
  assert (classify (b :: free p) b BlockMeta_new = Free) as Hcl by (apply classify_on; left).
  assert (∀ b', b' ≠ b → b' ∈ b :: free p ↔ b' ∈ free p) as Hiff.
  { intros. rewrite elem_of_cons. naive_solver. }
  assert (0 < cached_count p ∧ 0 < allocated_count p) as [Hc0 Ha0].
  { pose proof (wf_cached _ Hwf). pose proof (wf_allocated _ Hwf).
    pose proof (count_insert is_cached _ _ _ Free Hst).
    pose proof (count_insert is_taken _ _ _ Free Hst). simpl in *. lia. }
  split_and!.
  - apply (wf_set p _ b BlockMeta_new Cached); simpl; rewrite ?Hcl; simpl; auto; try done; try lia.
    + apply NoDup_cons. split; [done|apply (wf_free_nodup _ Hwf)].
    + apply Nat.mod_upper_bound. lia.
  - rewrite (abs_set p _ b BlockMeta_new); simpl; rewrite ?Hcl; auto.
  - unfold pins. simpl. rewrite list_fmap_insert. apply list_insert_id.
    rewrite list_lookup_fmap, Hm. unfold evictable_at in Hev. rewrite Hm in Hev.
    unfold evictable in Hev. simpl. by destruct (pinned m), (0 <? ref_count m)%Z.
Qed.

Lemma victims_elem p b :
  clock_hand p < length (metas p) →
  b ∈ victims p ↔ evictable_at p b = true.
Proof.
  intros Hh. unfold victims. rewrite list_elem_of_filter. split; [by intros [? _]|].
  intros Hev. split; [done|]. apply sweep_order_all; [|done]. unfold evictable_at in Hev.
  destruct (metas p !! b) eqn:Hm; [by eapply lookup_lt_Some|done].
Qed.

Lemma evict_refines target p :
  pool_wf p → target ≤ length (victims p) →
  (∀ b, b ∈ take target (victims p) → abs p !! b = Some Cached) →
  ∃ p', KvBlockPool.evict target p = Ret (target, p') ∧ pool_wf p' ∧ pins p' = pins p ∧
        abs p' = free_all (take target (victims p)) (abs p).
Proof.
  revert p. induction target as [|k IH]; intros p Hwf Hle Hc; [by exists p|].
  pose proof (victims_head p (wf_hand _ Hwf)) as Hv.
  assert (NoDup (victims p)) as Hnd
    by (apply NoDup_filter, sweep_order_NoDup, (wf_hand _ Hwf)).
  destruct (victims p) as [|b vs] eqn:Hvs; [simpl in Hle; lia|]. simpl in Hle.
  destruct Hv as (Hone & Hvs' & Hev). apply NoDup_cons in Hnd as [Hnb Hnd].
  assert (abs p !! b = Some Cached) as Hb by (apply Hc; left).
  destruct (evicted_refines p b Hwf Hb Hev) as (Hwf' & Habs & Hp).
  assert (take k (vs ++ [b]) = take k vs) as Htk by (rewrite take_app_le by lia; done).
  destruct (IH (evicted_pool p b) Hwf') as (p' & Hex & Hw & Hp' & Ha).
  - rewrite Hvs', length_app. simpl. lia.
  - rewrite Hvs', Htk. intros b' Hb'. rewrite Habs, list_lookup_insert_ne.
    + apply Hc. simpl. by right.
    + intros <-. apply Hnb. by apply subseteq_take in Hb'.
  - exists p'. cbn [KvBlockPool.evict]. rewrite Hone. simpl. rewrite Hex. simpl.
    split_and!; [done|done|by rewrite Hp', Hp|]. by rewrite Ha, Hvs', Htk, Habs.
Qed.

(** *** The refinement *)

Lemma pins_set_meta p b m : pins (set_meta b m p) = <[b := pinned m]> (pins p).
Proof. unfold pins, set_meta. simpl. apply list_fmap_insert. Qed.

Lemma pins_same p p' b m m' :
  metas p !! b = Some m → metas p' = <[b := m']> (metas p) → pinned m' = pinned m →
  pins p' = pins p.
Proof.
  intros Hm Hms Hp. unfold pins. rewrite Hms, list_fmap_insert, Hp. apply list_insert_id.
  by rewrite list_lookup_fmap, Hm.
Qed.

(** Where the sweep finds nothing, what is cached is pinned. *)
Lemma nothing_evictable p b :
  Forall (λ m, evictable m = false) (metas p) → abs p !! b = Some Cached →
  pins p !! b = Some true.
Proof.
  intros Hall (m & Hm & _ & Hr)%abs_cached. unfold pins. rewrite list_lookup_fmap, Hm.
  rewrite Forall_lookup in Hall. specialize (Hall _ _ Hm). unfold evictable in Hall.
  rewrite Hr in Hall. simpl in *. by destruct (pinned m).
Qed.

(** The calls that change the metadata of one block keep its pin. *)
Lemma one_block_pins p o b r p' :
  match o with
  | OpRetain b' | OpReclaim b' | OpRelease b' _ => b' = b
  | _ => False
  end →
  exec_op o p = Ret (r, p') → pins p' = pins p.
Proof.
  intros Ho Hex. destruct o as [|b'|b'|b' h|b'|b'|b'|k]; try done; subst b'; simpl in Hex;
    unfold KvBlockPool.retain, KvBlockPool.reclaim, KvBlockPool.release, meta_at in Hex;
    destruct (metas p !! b) as [m|] eqn:Hm; try done; simpl in Hex;
    repeat (match type of Hex with context [if ?c then _ else _] => destruct c end;
            simpl in Hex; try done); injection Hex as <- <-; by eapply pins_same.
Qed.

Lemma alloc_refines p :
  pool_wf p → op_pre OpAlloc p →
  ∃ r p', KvBlockPool.alloc p = Ret (r, p') ∧ pool_wf p' ∧
          spec_step (spec_of p) OpAlloc r (spec_of p').
Proof.
  intros Hwf Hpre. unfold KvBlockPool.alloc. destruct (free p) as [|b rest] eqn:Hf.
  - destruct Hpre as [?|Hall]; [done|].
    rewrite (evict_one_none _ (wf_hand _ Hwf) Hall). simpl.
    exists None, p. split; [done|]. split; [done|]. constructor.
    + intros (x & Hb)%list_elem_of_lookup. rewrite abs_lookup in Hb.
      destruct (metas p !! x); [|done]. simpl in Hb.
      rewrite classify_off in Hb by (rewrite Hf; apply not_elem_of_nil).
      by destruct (ref_count b =? 0)%Z.
    + intros x. by apply nothing_evictable.
  - destruct (claim_fresh p b rest Hwf Hf) as (p' & Hcl & Hwf' & Hst & Habs).
    exists (Some b), p'. split; [done|]. split; [done|]. unfold spec_of.
    assert (pins p' = pins p) as ->; [|rewrite Habs; by constructor].
    unfold KvBlockPool.claim, meta_at in Hcl. simpl in Hcl.
    destruct (metas p !! b) as [m|] eqn:Hm; [|done]. injection Hcl as <-. by eapply pins_same.
Qed.

Lemma evict_op_refines target p :
  pool_wf p → op_pre (OpEvict target) p →
  ∃ r p', exec_op (OpEvict target) p = Ret (r, p') ∧ pool_wf p' ∧
          spec_step (spec_of p) (OpEvict target) r (spec_of p').
Proof.
  intros Hwf Hpre. pose proof (victims_elem p) as Hel. specialize (λ b, Hel b (wf_hand _ Hwf)).
  assert (∀ b, evictable_at p b = false → abs p !! b = Some Cached → pins p !! b = Some true)
    as Hpin.
  { intros b Hev (m & Hm & _ & Hr)%abs_cached. unfold pins. rewrite list_lookup_fmap, Hm.
    unfold evictable_at, evictable in Hev. rewrite Hm, Hr in Hev. simpl in *.
    by destruct (pinned m). }
  destruct (decide (victims p = [])) as [Hnil|Hne].
  - exists (Some 0), p. simpl. assert (KvBlockPool.evict target p = Ret (0, p)) as ->.
    { destruct target as [|k]; [done|]. simpl. pose proof (victims_head p (wf_hand _ Hwf)) as Hv.
      rewrite Hnil in Hv. by rewrite Hv. }
    split; [done|]. split; [done|]. apply (spec_evict _ _ _ []); [constructor|simpl; lia|..].
    + by intros x ?%elem_of_nil.
    + intros _ x. apply Hpin. destruct (evictable_at p x) eqn:Hev; [|done].
      apply Hel in Hev. rewrite Hnil in Hev. by apply elem_of_nil in Hev.
  - destruct Hpre as [?|[Hle Hc]]; [done|].
    destruct (evict_refines target p Hwf Hle Hc) as (p' & Hex & Hw & Hp & Ha).
    exists (Some target), p'. simpl. rewrite Hex. split; [done|]. split; [done|].
    unfold spec_of. rewrite Hp, Ha.
    assert (length (take target (victims p)) = target) as Hlen by (rewrite length_take; lia).
    rewrite <- Hlen at 2. apply spec_evict; rewrite ?Hlen; try lia.
    + eapply sublist_NoDup; [|apply sublist_take]. apply NoDup_filter, sweep_order_NoDup, (wf_hand _ Hwf).
    + intros b Hb. split; [by apply Hc|]. apply subseteq_take, Hel in Hb.
      unfold evictable_at in Hb. unfold pins. rewrite list_lookup_fmap.
      destruct (metas p !! b) as [m|]; [|done]. unfold evictable in Hb. simpl.
      by destruct (pinned m), (0 <? ref_count m)%Z.
Qed.

Lemma exec_op_total p o :
  pool_wf p → op_pre o p →
  ∃ r p', exec_op o p = Ret (r, p') ∧ pool_wf p' ∧ spec_step (spec_of p) o r (spec_of p').
Proof.
  intros Hwf Hpre. destruct o as [|b|b|b h|b|b|b|k]; [by apply alloc_refines|..];
    unfold spec_of; simpl in Hpre.
  - destruct Hpre as [n Hst]. destruct (retain_refines p b n Hwf Hst) as (p' & Hx & ? & Habs).
    assert (exec_op (OpRetain b) p = Ret (None, p')) as Hex by (simpl; by rewrite Hx).
    exists None, p'. rewrite (one_block_pins p (OpRetain b) b _ _ eq_refl Hex), Habs. eauto using spec_step.
  - destruct (reclaim_refines p b Hwf Hpre) as (p' & Hx & _ & ? & Habs).
    assert (exec_op (OpReclaim b) p = Ret (None, p')) as Hex by (simpl; by rewrite Hx).
    exists None, p'. rewrite (one_block_pins p (OpReclaim b) b _ _ eq_refl Hex), Habs. eauto using spec_step.
  - destruct Hpre as [n Hst].
    destruct (release_refines p b h n Hwf Hst) as (p' & Hx & _ & ? & Habs).
    assert (exec_op (OpRelease b h) p = Ret (None, p')) as Hex by (simpl; by rewrite Hx).
    exists None, p'. rewrite (one_block_pins p (OpRelease b h) b _ _ eq_refl Hex), Habs.
    split; [done|]. split; [done|].
    destruct (abs_in_use p b n Hwf Hst) as (_ & _ & _ & _ & ?).
    destruct (Z.eqb_spec n 1) as [->|]; constructor; auto; lia.
  - destruct (free_cached_refines p b Hwf Hpre) as (p' & Hx & ? & _ & Habs).
    assert (pins p' = <[b := false]> (pins p)) as Hp.
    { unfold KvBlockPool.free_cached, meta_at in Hx.
      destruct (metas p !! b) as [m|]; [|done]. simpl in Hx.
      destruct (ref_count m =? 0)%Z; [|done]. injection Hx as <-.
      unfold pins. simpl. apply list_fmap_insert. }
    exists None, p'. simpl. rewrite Hx, Habs, Hp. eauto using spec_step.
  - destruct (lookup_lt_is_Some_2 _ _ Hpre) as [m Hm]. simpl.
    unfold KvBlockPool.pin, meta_at. rewrite Hm. simpl. eexists None, _. split; [done|].
    destruct (set_pinned_refines p b true m Hwf Hm) as [? Habs].
    simpl in Habs. rewrite Habs, pins_set_meta.
    split; [done|]. constructor. by rewrite abs_lookup, Hm.
  - destruct (lookup_lt_is_Some_2 _ _ Hpre) as [m Hm]. simpl.
    unfold KvBlockPool.unpin, meta_at. rewrite Hm. simpl. eexists None, _. split; [done|].
    destruct (set_pinned_refines p b false m Hwf Hm) as [? Habs].
    simpl in Habs. rewrite Habs, pins_set_meta.
    split; [done|]. constructor. by rewrite abs_lookup, Hm.
  - apply evict_op_refines; done.
Qed.

(** States reached from a new pool by calls that respect the contract. *)
Inductive pool_reach : KvBlockPool → Prop :=
| reach_new capacity : pool_reach (KvBlockPool.new capacity)
| reach_step p o r p' :
    pool_reach p → op_pre o p → exec_op o p = Ret (r, p') → pool_reach p'.

Lemma new_wf capacity :
  pool_wf (KvBlockPool.new capacity) ∧
  abs (KvBlockPool.new capacity)
    = replicate (KvBlockPool.capacity (KvBlockPool.new capacity)) Free.
Proof.
  unfold KvBlockPool.new, KvBlockPool.capacity.
  set (c := Z.to_nat (Z.max 1 (Z.min capacity MAX_BLOCKS))).
  assert (0 < c) as Hc by (unfold c, MAX_BLOCKS; simpl Z.shiftl; lia).
  simpl metas. rewrite length_replicate.
  set (p := mk_pool _ _ _ _ _ _).
  assert (abs p = replicate c Free) as Habs.
  { apply list_eq. intros i. rewrite abs_lookup. simpl.
    destruct (decide (i < c)) as [Hi|Hi].
    - rewrite !lookup_replicate_2 by done. simpl. f_equal.
      apply classify_on, elem_of_seq. lia.
    - by rewrite !lookup_ge_None_2 by (rewrite length_replicate; lia). }
  split; [split; simpl|done].
  - apply NoDup_seq.
  - intros b Hb%elem_of_seq. exists BlockMeta_new.
    rewrite lookup_replicate_2 by lia. done.
  - intros b m [-> _]%lookup_replicate_1. by compute.
  - by rewrite length_replicate.
  - rewrite Habs. symmetry. apply count_0. by intros a [-> _]%elem_of_replicate.
  - rewrite Habs, count_0; [lia|]. by intros a [-> _]%elem_of_replicate.
Qed.

Lemma pool_reach_wf p : pool_reach p → pool_wf p.
Proof.
  induction 1 as [c|p o r p' _ Hwf Hpre Hex]; [apply new_wf|].
  destruct (exec_op_total p o Hwf Hpre) as (r2 & p2 & Hex2 & Hwf2 & _). congruence.
Qed.

(** C2: from a pool reached by calls within their contract, every call within
    its contract returns (no index panic, no failed [assert!]), leaves the pool
    well formed, and answers and changes the Free / InUse / Cached state and
    the pins of the blocks exactly as the three-state specification says.  The
    calls are alloc, retain, reclaim, release, free_cached, pin, unpin and
    evict.  The contract is that of the doc comments, except for two paths that
    do not keep it and are left out (both are findings): alloc when the free
    list is empty and a cached block is unpinned -- its slow path, which hands
    out a block and leaves it on the free list -- and evict of more blocks than
    the sweep can take before it comes to a block that is free already. *)
Theorem pool_refines_spec p o :
  pool_reach p → op_pre o p →
  ∃ r p', exec_op o p = Ret (r, p') ∧ pool_wf p' ∧ spec_step (spec_of p) o r (spec_of p').
Proof. intros Hr. apply exec_op_total, pool_reach_wf, Hr. Qed.

Definition small_pool : KvBlockPool := KvBlockPool.new 2.

(** Both blocks of a pool of two handed out and given back, the second one
    pinned; then an eviction is asked for. *)
Definition run_ops (os : list pool_op) (p : KvBlockPool) : exec KvBlockPool :=
  mfold (λ p o, '(_, p) ← exec_op o p; Ret p) p os.

Definition cached_pool : KvBlockPool :=
  mk_pool [mk_meta 0 false 7; mk_meta 0 true 8] [] 0 0 2 2.

Example cached_pool_reached :
  run_ops [OpAlloc; OpAlloc; OpRelease 0 7; OpRelease 1 8; OpPin 1] small_pool
    = Ret cached_pool.
Proof. reflexivity. Qed.

Lemma pool_reach_cached : pool_reach cached_pool.
Proof.
  apply (reach_step (mk_pool [mk_meta 0 false 7; mk_meta 0 false 8] [] 0 0 2 2) (OpPin 1) None);
    [|simpl; lia|reflexivity].
  apply (reach_step (mk_pool [mk_meta 0 false 7; mk_meta 1 false 0] [] 0 0 2 1)
           (OpRelease 1 8) None); [|by exists 1%Z|reflexivity].
  apply (reach_step (mk_pool [mk_meta 1 false 0; mk_meta 1 false 0] [] 0 0 2 0)
           (OpRelease 0 7) None); [|by exists 1%Z|reflexivity].
  apply (reach_step (mk_pool [mk_meta 1 false 0; mk_meta 0 false 0] [1] 0 0 1 0)
           OpAlloc (Some 1)); [|by left|reflexivity].
  apply (reach_step small_pool OpAlloc (Some 0)); [constructor|by left|reflexivity].
Qed.

Lemma pool_refines_spec_witness :
  (∃ r p', exec_op OpAlloc small_pool = Ret (r, p') ∧ pool_wf p' ∧
           spec_step (spec_of small_pool) OpAlloc r (spec_of p')) ∧
  (∃ r p', exec_op (OpEvict 1) cached_pool = Ret (r, p') ∧ pool_wf p' ∧
           spec_step (spec_of cached_pool) (OpEvict 1) r (spec_of p')).
Proof.
  split.
  - apply (pool_refines_spec small_pool OpAlloc); [constructor|by left].
  - apply (pool_refines_spec cached_pool (OpEvict 1)); [apply pool_reach_cached|].
    right. split; [vm_compute; lia|]. intros b Hb. vm_compute in Hb.
    apply list_elem_of_singleton in Hb as ->. reflexivity.
Defined.

(** Asked for two blocks of a pool with one cached and one free block, the
    sweep takes the free one too and puts it on the free list a second time. *)
Example evict_frees_twice :
  (p ← run_ops [OpAlloc; OpRelease 0 7; OpEvict 2] small_pool; Ret (free p))
    = Ret [1; 0; 1].
Proof. reflexivity. Qed.

(** In a reachable pool no live block is handed out again: the block an
    allocation returns within the contract was free (so referenced by nobody),
    is in use with one reference afterwards, and every other block keeps its
    state. *)
Theorem alloc_exclusive p b p' :
  pool_reach p → op_pre OpAlloc p → KvBlockPool.alloc p = Ret (Some b, p') →
  abs p !! b = Some Free ∧ abs p' !! b = Some (InUse 1) ∧
  ∀ b', b' ≠ b → abs p' !! b' = abs p !! b'.
Proof.
  intros Hr Hpre Ha.
  destruct (exec_op_total p OpAlloc (pool_reach_wf p Hr) Hpre) as (r & p2 & Hex & _ & Hs).
  simpl in Hex. rewrite Ha in Hex. injection Hex as <- <-. inversion Hs; subst.
  split; [done|]. split.
  - apply list_lookup_insert_eq. by eapply lookup_lt_Some.
  - intros b' ?. by rewrite list_lookup_insert_ne.
Qed.

Lemma alloc_exclusive_witness :
  ∃ p', abs small_pool !! 0 = Some Free ∧ abs p' !! 0 = Some (InUse 1) ∧
        ∀ b', b' ≠ 0 → abs p' !! b' = abs small_pool !! b'.
Proof.
  eexists. apply (alloc_exclusive small_pool 0); [constructor|by left|reflexivity].
Defined.

Lemma evict_one_sweep p :
  clock_hand p < length (metas p) →
  (∃ i b, sweep_order p !! i = Some b ∧ evictable_at p b = true ∧
          (∀ j b', sweep_order p !! j = Some b' → j < i → evictable_at p b' = false) ∧
          KvBlockPool.evict_one p = Ret (Some b, evicted_pool p b)) ∨
  ((∀ b, b < length (metas p) → evictable_at p b = false) ∧
   KvBlockPool.evict_one p = Ret (None, p)).
Proof.
  intros Hh. rewrite (evict_one_find p Hh).
  destruct (list_find _ _) as [[i b]|] eqn:Hf.
  - apply list_find_Some in Hf as (Hi & Hev & Hlt). left. exists i, b.
    split_and!; try done. intros j b' Hj Hji.
    specialize (Hlt j b' Hj Hji). by destruct (evictable_at p b').
  - right. split; [|done]. intros b Hb. apply list_find_None in Hf.
    rewrite Forall_forall in Hf. specialize (Hf b (sweep_order_all p b Hb Hh)).
    by destruct (evictable_at p b).
Qed.

(** The clock sweep takes the first block in clock order that is neither
    referenced nor pinned, moves the hand just past it and puts the block on
    the free list; when there is no such block it gives up after one full
    turn, with the pool (hand included) as it was. *)
Theorem evict_one_clock_sweep p :
  clock_hand p < length (metas p) →
  (∃ i b, sweep_order p !! i = Some b ∧ evictable_at p b = true ∧
          (∀ j b', sweep_order p !! j = Some b' → j < i → evictable_at p b' = false) ∧
          KvBlockPool.evict_one p = Ret (Some b, evicted_pool p b)) ∨
  ((∀ b, b < length (metas p) → evictable_at p b = false) ∧
   KvBlockPool.evict_one p = Ret (None, p)).
Proof. apply evict_one_sweep. Qed.

(** Two blocks: the first in use, the second cached and unpinned. *)
Definition swept_pool : KvBlockPool :=
  mk_pool [mk_meta 1 false 0; mk_meta 0 false 7] [] 0 0 2 1.

Lemma evict_one_clock_sweep_witness :
  (∃ i b, sweep_order swept_pool !! i = Some b ∧ evictable_at swept_pool b = true ∧
          (∀ j b', sweep_order swept_pool !! j = Some b' → j < i →
                   evictable_at swept_pool b' = false) ∧
          KvBlockPool.evict_one swept_pool = Ret (Some b, evicted_pool swept_pool b)) ∨
  ((∀ b, b < length (metas swept_pool) → evictable_at swept_pool b = false) ∧
   KvBlockPool.evict_one swept_pool = Ret (None, swept_pool)).
Proof. apply (evict_one_clock_sweep swept_pool). simpl. lia. Defined.

(** The slow path of [alloc] leaves the block it hands out on the free
    list (the sweep pushes it there and nothing takes it off again), so the
    next allocation returns the same block to a second owner. *)
Theorem alloc_after_eviction_aliases p :
  clock_hand p < length (metas p) → free p = [] →
  Exists (λ m, evictable m = true) (metas p) →
  ∃ b p1 p2, KvBlockPool.alloc p = Ret (Some b, p1) ∧ b ∈ free p1 ∧
             KvBlockPool.alloc p1 = Ret (Some b, p2).
Proof.
  intros Hh Hf Hex. unfold KvBlockPool.alloc at 1. rewrite Hf.
  destruct (evict_one_sweep p Hh) as [(i & b & _ & Hev & _ & ->)|[Hno _]].
  - unfold evictable_at in Hev. destruct (metas p !! b) as [m|] eqn:Hm; [|done].
    pose proof (lookup_lt_Some _ _ _ Hm) as Hlt.
    simpl. unfold KvBlockPool.claim at 1, meta_at at 1. simpl.
    rewrite list_lookup_insert_eq by done. simpl. rewrite Hf.
    eexists b, _, _. split; [done|]. simpl. split; [left|].
    unfold KvBlockPool.alloc. simpl. unfold KvBlockPool.claim, meta_at. simpl.
    by rewrite list_lookup_insert_eq by by rewrite length_insert.
  - exfalso. apply Exists_exists in Hex as (m & (b & Hb)%list_elem_of_lookup & Hm).
    specialize (Hno b (lookup_lt_Some _ _ _ Hb)). unfold evictable_at in Hno.
    rewrite Hb in Hno. congruence.
Qed.

Lemma alloc_after_eviction_aliases_witness :
  ∃ b p1 p2, KvBlockPool.alloc swept_pool = Ret (Some b, p1) ∧ b ∈ free p1 ∧
             KvBlockPool.alloc p1 = Ret (Some b, p2).
Proof.
  apply (alloc_after_eviction_aliases swept_pool).
  - simpl. lia.
  - reflexivity.
  - apply Exists_cons_tl, Exists_cons_hd. reflexivity.
Defined.

(** ** The prefix cache *)

Lemma lookup_from_spec c tokens n :
  match PrefixCache.lookup_from c tokens n with
  | Some (k, bs) => ∃ m, 1 ≤ m ≤ n ∧ k = m * BLOCK_SIZE ∧
      entries c !! PrefixCache.prefix_hash tokens k = Some bs ∧
      ∀ m', m < m' ≤ n → entries c !! PrefixCache.prefix_hash tokens (m' * BLOCK_SIZE) = None
  | None => ∀ m', 1 ≤ m' ≤ n →
      entries c !! PrefixCache.prefix_hash tokens (m' * BLOCK_SIZE) = None
  end.
Proof.
  induction n as [|n IH]; [simpl; intros; lia|]. cbn [PrefixCache.lookup_from].
  destruct (entries c !! _) as [bs|] eqn:He.
  - exists (S n). split; [lia|]. split; [done|]. split; [done|]. intros; lia.
  - destruct (PrefixCache.lookup_from c tokens n) as [[k bs]|].
    + destruct IH as (m & ? & ? & ? & Hmax). exists m. split; [lia|].
      split; [done|]. split; [done|]. intros m' Hm'.
      destruct (decide (m' = S n)) as [->|]; [done|]. apply Hmax. lia.
    + intros m' Hm'. destruct (decide (m' = S n)) as [->|]; [done|]. apply IH. lia.
Qed.

(** The prefixes of [blocks] are stored under their hashes, first come first
    served. *)
Lemma insert_prefix_entries tokens blocks n c h :
  entries (PrefixCache.insert_prefix tokens blocks c n) !! h =
  match entries c !! h with
  | Some bs => Some bs
  | None => if decide (PrefixCache.prefix_hash tokens (n * BLOCK_SIZE) = h)
            then Some (take n blocks) else None
  end.
Proof.
  unfold PrefixCache.insert_prefix.
  destruct (entries c !! PrefixCache.prefix_hash _ _) eqn:He; simpl.
  - case_decide as Hd; [subst; by rewrite He|]. by destruct (entries c !! h).
  - rewrite lookup_insert. case_decide as Hd; [subst; by rewrite He|].
    by destruct (entries c !! h).
Qed.

Lemma insert_entries_stable tokens blocks ns c h bs :
  entries c !! h = Some bs →
  entries (foldl (PrefixCache.insert_prefix tokens blocks) c ns) !! h = Some bs.
Proof.
  revert c. induction ns as [|n ns IH]; intros c Hc; simpl; [done|].
  apply IH. rewrite insert_prefix_entries. by rewrite Hc.
Qed.

(** Two block counts of [tokens] that the hash tells apart. *)
Definition hash_separates (tokens : list Z) (n : nat) : Prop :=
  ∀ i j, 1 ≤ i → i < j → j ≤ n →
    PrefixCache.prefix_hash tokens (i * BLOCK_SIZE)
      ≠ PrefixCache.prefix_hash tokens (j * BLOCK_SIZE).

Lemma insert_entries_new tokens blocks s n c k :
  (∀ i, s ≤ i < s + n → i ≠ k →
     PrefixCache.prefix_hash tokens (i * BLOCK_SIZE)
       ≠ PrefixCache.prefix_hash tokens (k * BLOCK_SIZE)) →
  s ≤ k < s + n →
  entries c !! PrefixCache.prefix_hash tokens (k * BLOCK_SIZE) = None →
  entries (foldl (PrefixCache.insert_prefix tokens blocks) c (seq s n))
    !! PrefixCache.prefix_hash tokens (k * BLOCK_SIZE) = Some (take k blocks).
Proof.
  revert s c. induction n as [|n IH]; intros s c Hsep Hk Hc; simpl; [lia|].
  destruct (decide (s = k)) as [->|Hne].
  - apply insert_entries_stable. rewrite insert_prefix_entries, Hc.
    by rewrite decide_True.
  - apply IH; [|lia|].
    + intros i Hi. apply Hsep. lia.
    + rewrite insert_prefix_entries, Hc, decide_False; [done|]. apply Hsep; [lia|done].
Qed.

(** A lookup in the prefix cache answers with the longest block-aligned
    prefix whose hash is stored, bumps exactly one of the two counters, and
    leaves the entries alone. *)
Theorem prefix_lookup_longest tokens c :
  let c' := snd (PrefixCache.lookup tokens c) in
  entries c' = entries c ∧
  match fst (PrefixCache.lookup tokens c) with
  | Some (k, bs) =>
      (∃ m, 1 ≤ m ≤ div_ceil (length tokens) BLOCK_SIZE ∧ k = m * BLOCK_SIZE ∧
        entries c !! PrefixCache.prefix_hash tokens k = Some bs ∧
        ∀ m', m < m' ≤ div_ceil (length tokens) BLOCK_SIZE →
          entries c !! PrefixCache.prefix_hash tokens (m' * BLOCK_SIZE) = None) ∧
      pc_hits c' = wadd64 (pc_hits c) 1 ∧ pc_misses c' = pc_misses c
  | None =>
      (∀ m, 1 ≤ m ≤ div_ceil (length tokens) BLOCK_SIZE →
        entries c !! PrefixCache.prefix_hash tokens (m * BLOCK_SIZE) = None) ∧
      pc_hits c' = pc_hits c ∧ pc_misses c' = wadd64 (pc_misses c) 1
  end.
Proof.
  unfold PrefixCache.lookup.
  pose proof (lookup_from_spec c tokens (div_ceil (length tokens) BLOCK_SIZE)) as Hs.
  destruct (PrefixCache.lookup_from c tokens _) as [[k bs]|]; simpl; auto.
Qed.

(** What is inserted is found again: after the blocks of a fully
    block-aligned prompt go into a cache that does not hold that prompt, a
    lookup of the prompt returns all of its tokens and exactly those blocks,
    as long as FNV-1a separates the prompt's own prefixes. *)
Theorem prefix_insert_lookup tokens blocks c :
  blocks ≠ [] →
  length tokens = length blocks * BLOCK_SIZE →
  hash_separates tokens (length blocks) →
  entries c !! PrefixCache.prefix_hash tokens (length tokens) = None →
  fst (PrefixCache.lookup tokens (PrefixCache.insert tokens blocks c))
    = Some (length tokens, blocks).
Proof.
  intros Hne Hlen Hsep Hc.
  assert (1 ≤ length blocks) as Hb by (destruct blocks; simpl; [done|lia]).
  unfold PrefixCache.lookup.
  replace (div_ceil (length tokens) BLOCK_SIZE) with (length blocks).
  2: { unfold div_ceil. rewrite Hlen, Nat.Div0.mod_mul, Nat.div_mul by done.
       rewrite decide_True by done. lia. }
  destruct (length blocks) as [|n] eqn:Hn; [lia|].
  cbn [PrefixCache.lookup_from].
  rewrite Hlen in Hc |- *. unfold PrefixCache.insert. rewrite Hn.
  rewrite insert_entries_new; [|intros i Hi Hne'; apply Hsep; lia|lia|done].
  simpl. by rewrite <- Hn, firstn_all.
Qed.

Definition prompt32 : list Z := Z.of_nat <$> seq 0 32.

Lemma prefix_insert_lookup_witness :
  fst (PrefixCache.lookup prompt32 (PrefixCache.insert prompt32 [4; 9] PrefixCache.new))
    = Some (length prompt32, [4; 9]).
Proof.
  apply (prefix_insert_lookup prompt32 [4; 9] PrefixCache.new).
  - done.
  - reflexivity.
  - intros i j Hi Hij Hj. assert (i = 1 ∧ j = 2) as [-> ->] by (simpl in Hj; lia).
    by vm_compute.
  - reflexivity.
Defined.
