(* ===== verification/RadixCache.v ===== *)
(** * RadixCache: the radix-tree prefix cache

    [crates/justapi-inference/src/radix_cache.rs]: a radix tree of token
    sequences whose edges carry runs of KV blocks, with LRU eviction of its
    leaves.  The children of a node are an association list whose order is the
    iteration order of the code's [HashMap]; a recursion is given the fuel
    [S (length tokens)] and running out of it is a panic. *)

From S2P Require Import Prelude KvCache.

(** ** Data *)

Inductive RadixNode := mk_node {
  tokens : list Z;
  blocks : list nat;
  children : list (Z * RadixNode);
  last_access : Z;
  token_hash : Z }.

Record RadixPrefixCacheStats := {
  rs_nodes : nat; rs_hits : Z; rs_misses : Z; rs_hash_collisions : Z; rs_tokens_saved : Z }.

Record RadixPrefixCache := mk_radix {
  root : RadixNode;
  hits : Z;
  misses : Z;
  hash_collisions : Z;
  tokens_saved : Z;
  clock : Z }.

Definition set_root (r : RadixNode) (c : RadixPrefixCache) : RadixPrefixCache :=
  mk_radix r (hits c) (misses c) (hash_collisions c) (tokens_saved c) (clock c).

Definition set_children (cs : list (Z * RadixNode)) (n : RadixNode) : RadixNode :=
  mk_node (tokens n) (blocks n) cs (last_access n) (token_hash n).

Definition set_last_access (now : Z) (n : RadixNode) : RadixNode :=
  mk_node (tokens n) (blocks n) (children n) now (token_hash n).

(** ** Helpers *)

Definition RadixNode_new (toks : list Z) (blks : list nat) (now : Z) : RadixNode :=
  mk_node toks blks [] now (hash_tokens toks).

Definition is_leaf (n : RadixNode) : bool :=
  match children n with [] => true | _ => false end.

Fixpoint common_prefix_len (a b : list Z) : nat :=
  match a, b with
  | x :: a', y :: b' => if decide (x = y) then S (common_prefix_len a' b') else 0
  | _, _ => 0
  end.

Fixpoint count_nodes (n : RadixNode) : nat :=
  length (children n)
  + (fix go (cs : list (Z * RadixNode)) : nat :=
       match cs with [] => 0 | (_, c) :: cs' => count_nodes c + go cs' end) (children n).

Fixpoint cached_tokens (n : RadixNode) : nat :=
  length (tokens n)
  + (fix go (cs : list (Z * RadixNode)) : nat :=
       match cs with [] => 0 | (_, c) :: cs' => cached_tokens c + go cs' end) (children n).

(** [check] of [verify_hashes]. *)
Fixpoint check_hashes (n : RadixNode) : bool :=
  if decide (token_hash n = hash_tokens (tokens n)) then
    (fix go (cs : list (Z * RadixNode)) : bool :=
       match cs with [] => true | (_, c) :: cs' => check_hashes c && go cs' end) (children n)
  else false.

(** The split of an edge at token [cp]: the child keeps the first part, with
    the second part as its only child. *)
Definition split_child (child : RadixNode) (cp : nat) : exec RadixNode :=
  split_blocks ← slice_from (blocks child) (cp / BLOCK_SIZE);
  match drop cp (tokens child) with
  | [] => Panic
  | key :: _ =>
      let split := mk_node (drop cp (tokens child)) split_blocks (children child)
                     (last_access child) (hash_tokens (drop cp (tokens child))) in
      Ret (mk_node (take cp (tokens child)) (take (cp / BLOCK_SIZE) (blocks child))
             [(key, split)] (last_access child) (hash_tokens (take cp (tokens child))))
  end.

Fixpoint insert_node (fuel : nat) (node : RadixNode) (toks : list Z) (blks : list nat)
    (now : Z) : exec RadixNode :=
  match fuel with
  | 0 => Panic
  | S fuel' =>
      match toks with
      | [] => Ret (set_last_access now node)
      | first :: _ =>
          match assoc_get first (children node) with
          | Some child =>
              let cp := common_prefix_len toks (tokens child) in
              child ← (if decide (cp = length (tokens child)) then Ret child
                       else split_child child cp);
              rest ← slice_from blks (cp / BLOCK_SIZE);
              child ← insert_node fuel' child (drop cp toks) rest now;
              Ret (set_children (assoc_set first child (children node)) node)
          | None =>
              Ret (set_children
                     (assoc_set first (RadixNode_new toks blks now) (children node)) node)
          end
      end
  end.

(** [out]: the matched token count, the blocks, and the collision flag. *)
Abbreviation lookup_out := (nat * list nat * bool)%type.

Fixpoint lookup_node (fuel : nat) (node : RadixNode) (toks : list Z) (out : lookup_out)
    (now : Z) : exec (RadixNode * lookup_out) :=
  match fuel with
  | 0 => Panic
  | S fuel' =>
      match toks with
      | [] => Ret (node, out)
      | first :: _ =>
          match assoc_get first (children node) with
          | None => Ret (node, out)
          | Some child =>
              let cp := common_prefix_len toks (tokens child) in
              let '(n, bs, collision) := out in
              if decide (cp = length (tokens child)) then
                if decide (token_hash child = hash_tokens (take cp toks)) then
                  '(child, out) ← lookup_node fuel' (set_last_access now child) (drop cp toks)
                                    (n + cp, bs ++ blocks child, collision) now;
                  Ret (set_children (assoc_set first child (children node)) node, out)
                else Ret (node, (n, bs, true))
              else if decide (0 < cp) then
                part ← slice_to (blocks child) (cp / BLOCK_SIZE);
                Ret (set_children (assoc_set first (set_last_access now child) (children node))
                       node, (n + cp, bs ++ part, collision))
              else Ret (node, out)
          end
      end
  end.

(** The pairs [(key, last_access)] of the leaf children of a node. *)
Definition direct_leaves (n : RadixNode) : list (Z * Z) :=
  (λ kc, (kc.1, last_access kc.2)) <$> filter (λ kc, is_leaf kc.2 = true) (children n).

(** The loop of [find_lru_leaf] over the subtrees that hold a leaf keeps the
    first one whose root was accessed strictly earlier than the best so far. *)
Definition best_step (best : Z * option (list Z * list nat)) (k access : Z)
    (found : option (list Z * list nat)) : Z * option (list Z * list nat) :=
  match found with
  | Some (path, bs) =>
      if (access <? best.1)%Z then (access, Some (k :: path, bs)) else best
  | None => best
  end.

Fixpoint find_lru_leaf (n : RadixNode) : option (list Z * list nat) :=
  match sort_by_key snd (direct_leaves n) with
  | (key, _) :: _ =>
      match assoc_get key (children n) with
      | Some child => Some ([key], blocks child)
      | None => None
      end
  | [] =>
      ((fix go (best : Z * option (list Z * list nat)) (cs : list (Z * RadixNode)) :=
          match cs with
          | [] => best
          | (k, c) :: cs' => go (best_step best k (last_access c) (find_lru_leaf c)) cs'
          end) (u64_max, None) (children n)).2
  end.

(** Every leaf as [(last_access, path, blocks)]. *)
Fixpoint collect_leaves (n : RadixNode) (path : list Z) : list (Z * list Z * list nat) :=
  (fix go (cs : list (Z * RadixNode)) : list (Z * list Z * list nat) :=
     match cs with
     | [] => []
     | (k, c) :: cs' =>
         (if is_leaf c then [(last_access c, path ++ [k], blocks c)]
          else collect_leaves c (path ++ [k])) ++ go cs'
     end) (children n).

Fixpoint remove_path (node : RadixNode) (path : list Z) : bool * RadixNode :=
  match path with
  | [] => (false, node)
  | key :: path' =>
      match assoc_get key (children node) with
      | Some child =>
          match path' with
          | [] => (true, set_children (assoc_remove key (children node)) node)
          | _ :: _ =>
              let '(r, child) := remove_path child path' in
              (r, set_children (assoc_set key child (children node)) node)
          end
      | None => (false, node)
      end
  end.

Module RadixPrefixCache.

Definition new : RadixPrefixCache := mk_radix (RadixNode_new [] [] 0) 0 0 0 0 0.

Definition tick (c : RadixPrefixCache) : Z * RadixPrefixCache :=
  let t := wadd64 (clock c) 1 in
  (t, mk_radix (root c) (hits c) (misses c) (hash_collisions c) (tokens_saved c) t).

Definition nodes (c : RadixPrefixCache) : nat := count_nodes (root c).

Definition cached_tokens (c : RadixPrefixCache) : nat := RadixCache.cached_tokens (root c).

Definition insert (toks : list Z) (blks : list nat) (c : RadixPrefixCache)
    : exec RadixPrefixCache :=
  if decide (length toks = length blks * BLOCK_SIZE) then
    let '(now, c) := tick c in
    r ← insert_node (S (length toks)) (root c) toks blks now;
    Ret (set_root r c)
  else Panic.

Definition lookup (toks : list Z) (c : RadixPrefixCache)
    : exec (option (nat * list nat) * RadixPrefixCache) :=
  let '(now, c) := tick c in
  '(r, out) ← lookup_node (S (length toks)) (root c) toks (0, [], false) now;
  let '(n, bs, collision) := out in
  Ret (if collision : bool then
         (None, mk_radix r (hits c) (wadd64 (misses c) 1) (wadd64 (hash_collisions c) 1)
                  (tokens_saved c) (clock c))
       else if decide (0 < n) then
         (Some (n, bs), mk_radix r (wadd64 (hits c) 1) (misses c) (hash_collisions c)
                          (wadd64 (tokens_saved c) (Z.of_nat n)) (clock c))
       else
         (None, mk_radix r (hits c) (wadd64 (misses c) 1) (hash_collisions c)
                  (tokens_saved c) (clock c))).

Definition verify_hashes (c : RadixPrefixCache) : bool := check_hashes (root c).

(** The [while freed.len() < k] loop of [evict]. *)
Fixpoint evict_loop (fuel k : nat) (freed : list nat) (r : RadixNode)
    : exec (list nat * RadixNode) :=
  if decide (length freed < k) then
    match fuel with
    | 0 => Panic
    | S fuel' =>
        match find_lru_leaf r with
        | Some (path, bs) => evict_loop fuel' k (freed ++ bs) (remove_path r path).2
        | None => Ret (freed, r)
        end
    end
  else Ret (freed, r).

Definition evict (k : nat) (c : RadixPrefixCache) : exec (list nat * RadixPrefixCache) :=
  '(freed, r) ← evict_loop (S (count_nodes (root c))) k [] (root c);
  Ret (freed, set_root r c).

(** The loop of [evict_filter] over the sorted leaves. *)
Fixpoint evict_filter_loop (k : nat) (keep : list nat → bool)
    (leaves : list (Z * list Z * list nat)) (freed : list nat) (r : RadixNode)
    : list nat * RadixNode :=
  match leaves with
  | [] => (freed, r)
  | (_, path, bs) :: leaves' =>
      if decide (k ≤ length freed) then (freed, r)
      else if keep bs
           then evict_filter_loop k keep leaves' (freed ++ bs) (remove_path r path).2
           else evict_filter_loop k keep leaves' freed r
  end.

Definition evict_filter (k : nat) (keep : list nat → bool) (c : RadixPrefixCache)
    : list nat * RadixPrefixCache :=
  let leaves := sort_by_key (λ l, l.1.1) (collect_leaves (root c) []) in
  let '(freed, r) := evict_filter_loop k keep leaves [] (root c) in
  (freed, set_root r c).

Definition stats (c : RadixPrefixCache) : RadixPrefixCacheStats := {|
  rs_nodes := nodes c; rs_hits := hits c; rs_misses := misses c;
  rs_hash_collisions := hash_collisions c; rs_tokens_saved := tokens_saved c |}.

End RadixPrefixCache.

(** ** Well-formed trees and the set of prefixes they hold *)

(** What an edge must satisfy in itself: it is labelled by the key it is
    stored under, has a block for every whole run of [BLOCK_SIZE] tokens, and
    carries the hash of its tokens. *)
Record edge_ok (k : Z) (c : RadixNode) : Prop := {
  edge_key : head (tokens c) = Some k;
  edge_blocks : length (tokens c) / BLOCK_SIZE ≤ length (blocks c);
  edge_hash : token_hash c = hash_tokens (tokens c) }.

Inductive wf_node : RadixNode → Prop :=
| wf_node_intro n :
    NoDup (children n).*1 →
    (∀ k c, (k, c) ∈ children n → edge_ok k c) →
    (∀ k c, (k, c) ∈ children n → wf_node c) →
    wf_node n.

(** [in_tree n l]: the tokens [l] are a prefix of some path below [n].  This
    prefix-closed set of sequences is the abstract value of the tree. *)
Inductive in_tree : RadixNode → list Z → Prop :=
| in_nil n : in_tree n []
| in_edge n k c l :
    assoc_get k (children n) = Some c → l `prefix_of` tokens c → in_tree n l
| in_below n k c l :
    assoc_get k (children n) = Some c → in_tree c l → in_tree n (tokens c ++ l).

(** The sequences that start on the edge of [c]. *)
Definition edge_lang (c : RadixNode) (l : list Z) : Prop :=
  l `prefix_of` tokens c ∨ ∃ l', l = tokens c ++ l' ∧ in_tree c l'.

Lemma in_tree_edges n l :
  in_tree n l ↔ l = [] ∨ ∃ k c, assoc_get k (children n) = Some c ∧ edge_lang c l.
Proof.
  split.
  - inversion 1; subst; [by left|right..]; unfold edge_lang; naive_solver.
  - intros [->|(k & c & Hk & [Hp|(l' & -> & Hl)])].
    + constructor.
    + by eapply in_edge.
    + by eapply in_below.
Qed.

Lemma wf_child n k c :
  wf_node n → assoc_get k (children n) = Some c → edge_ok k c ∧ wf_node c.
Proof. intros Hwf Hk%assoc_get_elem. destruct Hwf. eauto. Qed.

Lemma wf_set_children n k c :
  wf_node n → edge_ok k c → wf_node c →
  wf_node (set_children (assoc_set k c (children n)) n).
Proof.
  intros Hwf He Hc. inversion Hwf as [n' Hnd Hed Hch]; subst. constructor; simpl.
  - by auto with justapi.
  - intros k' c' [[= -> ->]|Hin]%assoc_set_elem; eauto.
  - intros k' c' [[= -> ->]|Hin]%assoc_set_elem; eauto.
Qed.

Lemma wf_last_access n now : wf_node n → wf_node (set_last_access now n).
Proof. inversion 1; subst. by constructor. Qed.

Lemma in_tree_children n n' l : children n = children n' → in_tree n l → in_tree n' l.
Proof. intros Heq. rewrite !in_tree_edges, Heq. done. Qed.

Lemma edge_key_in c k l x :
  edge_ok k c → edge_lang c (x :: l) → x = k.
Proof.
  intros [Hk _ _]. destruct (tokens c) as [|t ts] eqn:Ht; [done|]. simpl in Hk.
  injection Hk as ->. intros [[r Hr]|(l' & Hl & _)]; rewrite Ht in *; simplify_eq/=; done.
Qed.

(** ** Common prefixes *)

Lemma common_prefix_len_le a b :
  common_prefix_len a b ≤ length a ∧ common_prefix_len a b ≤ length b.
Proof.
  revert b. induction a as [|x a IH]; intros [|y b]; simpl; try lia.
  case_decide; [|lia]. specialize (IH b). lia.
Qed.

Lemma common_prefix_len_take a b :
  take (common_prefix_len a b) a = take (common_prefix_len a b) b.
Proof.
  revert b. induction a as [|x a IH]; intros [|y b]; simpl; try done.
  case_decide; [|done]. subst. simpl. by f_equal.
Qed.

(** The sequences differ right after their common prefix. *)
Lemma common_prefix_len_next a b x y :
  head (drop (common_prefix_len a b) a) = Some x →
  head (drop (common_prefix_len a b) b) = Some y → x ≠ y.
Proof.
  revert b. induction a as [|x' a IH]; intros [|y' b]; simpl; try done.
  case_decide as Hd; simpl; [apply IH|]. naive_solver.
Qed.

Lemma common_prefix_len_max a b l :
  l `prefix_of` a → l `prefix_of` b → length l ≤ common_prefix_len a b.
Proof.
  revert a b. induction l as [|x l IH]; intros a b [ra ->] [rb ->]; simpl; [lia|].
  rewrite decide_True by done.
  enough (length l ≤ common_prefix_len (l ++ ra) (l ++ rb)) by lia.
  apply IH; by eexists.
Qed.

Lemma common_prefix_len_pos a b k :
  head a = Some k → head b = Some k → 0 < common_prefix_len a b.
Proof. destruct a, b; simpl; try done. intros [= ->] [= ->]. rewrite decide_True; [lia|done]. Qed.

Lemma div_drop_le (n cp : nat) (b : nat) :
  n / BLOCK_SIZE ≤ b → cp ≤ n → (n - cp) / BLOCK_SIZE ≤ b - cp / BLOCK_SIZE ∧
  cp / BLOCK_SIZE ≤ b.
Proof. unfold BLOCK_SIZE. intros. div_lia. Qed.

(** ** Splitting an edge keeps the set of sequences *)

Lemma split_child_ok k c cp :
  edge_ok k c → wf_node c → 0 < cp < length (tokens c) →
  ∃ c', split_child c cp = Ret c' ∧ edge_ok k c' ∧ wf_node c' ∧
        tokens c' = take cp (tokens c) ∧ (∀ l, edge_lang c' l ↔ edge_lang c l) ∧
        (∀ x, head (drop cp (tokens c)) ≠ Some x → assoc_get x (children c') = None).
Proof.
  intros [Hk Hb Hh] Hwf Hcp.
  destruct (div_drop_le (length (tokens c)) cp (length (blocks c))) as [Hd1 Hd2]; [done|lia|].
  unfold split_child. rewrite slice_from_ok by done. simpl.
  destruct (drop cp (tokens c)) as [|key rest] eqn:Hdrop.
  { apply (f_equal length) in Hdrop. rewrite length_drop in Hdrop. simpl in *. lia. }
  eexists. split; [done|]. set (split := mk_node _ _ (children c) _ _).
  assert (edge_ok key split ∧ wf_node split) as [Hes Hws].
  { split; [split; [done| |done]|by inversion Hwf; constructor].
    unfold split. cbn [tokens blocks]. rewrite <- Hdrop, !length_drop. done. }
  assert (∀ x, x ≠ key → assoc_get x [(key, split)] = None) as Hget.
  { intros x Hx. simpl. by rewrite decide_False. }
  split; [|split; [|split; [done|split]]].
  - split; simpl; [|rewrite !length_take, Nat.min_l by lia; lia|done].
    destruct (tokens c) as [|t ts]; [done|]. by destruct cp; [lia|].
  - constructor; simpl; [apply NoDup_singleton|..];
      by intros k' c' [= -> ->]%list_elem_of_singleton.
  - intros l. unfold edge_lang at 1. simpl tokens.
    assert (∀ l', in_tree (mk_node (take cp (tokens c)) (take (cp / BLOCK_SIZE) (blocks c))
                     [(key, split)] (last_access c) (hash_tokens (take cp (tokens c)))) l'
                  ↔ l' = [] ∨ edge_lang split l') as Hin.
    { intros l'. rewrite in_tree_edges. simpl. split.
      2: { intros [->|Hl]; [by left|right]. exists key, split. by rewrite decide_True. }
      intros [->|(k' & c' & Hc & Hl)]; [by left|right].
      case_decide; by simplify_eq. }
    setoid_rewrite Hin. unfold edge_lang. simpl tokens. rewrite <- Hdrop.
    pose proof (take_drop cp (tokens c)) as Htd.
    set (t1 := take cp (tokens c)) in *. set (t2 := drop cp (tokens c)) in *.
    rewrite <- Htd. split.
    + intros [[r Hr]|(l' & -> & [->|[[r Hr]|(l2 & -> & Hl2)]])].
      * left. rewrite Hr, <- app_assoc. by eexists.
      * left. rewrite app_nil_r. by eexists.
      * left. rewrite Hr. apply prefix_app. by eexists.
      * right. exists l2. rewrite app_assoc. split; [done|].
        by eapply in_tree_children; [|exact Hl2].
    + intros [Hp|(l2 & -> & Hl2)].
      * apply prefix_app_cases in Hp as [?|(l' & -> & ?)]; [by left|right]. eauto.
      * right. rewrite <- app_assoc. eexists. split; [done|]. right. right.
        exists l2. split; [done|]. by eapply in_tree_children; [|exact Hl2].
  - intros x Hx. apply Hget. simpl in Hx. congruence.
Qed.

(** ** Insertion *)

Lemma in_tree_set n k c l :
  in_tree (set_children (assoc_set k c (children n)) n) l ↔
  l = [] ∨ edge_lang c l ∨
  ∃ k' c', k' ≠ k ∧ assoc_get k' (children n) = Some c' ∧ edge_lang c' l.
Proof.
  rewrite in_tree_edges. cbn [set_children children]. setoid_rewrite assoc_get_set. split.
  - intros [?|(k' & c' & Hc & Hl)]; [by left|right]. case_decide; simplify_eq; [by left|].
    right. by exists k', c'.
  - intros [?|[Hl|(k' & c' & Hne & Hc & Hl)]]; [by left|right..].
    + exists k, c. by rewrite decide_True.
    + exists k', c'. by rewrite decide_False.
Qed.

Lemma edge_lang_insert c c' r :
  tokens c' = tokens c →
  (∀ l, in_tree c' l ↔ in_tree c l ∨ l `prefix_of` r) →
  ∀ l, edge_lang c' l ↔ edge_lang c l ∨ l `prefix_of` tokens c ++ r.
Proof.
  intros Ht Hin l. unfold edge_lang. rewrite Ht, prefix_app_cases. setoid_rewrite Hin.
  naive_solver.
Qed.

Lemma in_tree_leaf toks blks now l : in_tree (RadixNode_new toks blks now) l ↔ l = [].
Proof. rewrite in_tree_edges. simpl. naive_solver. Qed.

Lemma insert_node_spec fuel n toks blks now :
  wf_node n → length toks < fuel → length toks / BLOCK_SIZE ≤ length blks →
  ∃ n', insert_node fuel n toks blks now = Ret n' ∧ wf_node n' ∧
        tokens n' = tokens n ∧ blocks n' = blocks n ∧ token_hash n' = token_hash n ∧
        (∀ l, in_tree n' l ↔ in_tree n l ∨ l `prefix_of` toks).
Proof.
  revert n toks blks. induction fuel as [|fuel IH]; intros n toks blks Hwf Hf Hb; [lia|].
  destruct toks as [|first ts]; cbn [insert_node].
  { eexists. split_and!; [done|by apply wf_last_access|done..|]. intros l. split.
    - intros Hl. left. by eapply in_tree_children; [|exact Hl].
    - intros [Hl|Hl%prefix_nil_inv]; [by eapply in_tree_children; [|exact Hl]|].
      subst. constructor. }
  assert (head (first :: ts) = Some first) as Hhd by done.
  set (toks := first :: ts) in *. clearbody toks.
  destruct (assoc_get first (children n)) as [child|] eqn:Hget.
  - destruct (wf_child _ _ _ Hwf Hget) as [Hed Hwc].
    set (cp := common_prefix_len toks (tokens child)).
    pose proof (common_prefix_len_le toks (tokens child)) as [Hc1 Hc2]. fold cp in Hc1, Hc2.
    pose proof (common_prefix_len_pos _ _ _ Hhd (edge_key _ _ Hed)) as Hpos. fold cp in Hpos.
    assert (∃ child', (if decide (cp = length (tokens child)) then Ret child
                       else split_child child cp) = Ret child' ∧
              edge_ok first child' ∧ wf_node child' ∧ tokens child' = take cp (tokens child) ∧
              ∀ l, edge_lang child' l ↔ edge_lang child l) as (child' & -> & He' & Hw' & Ht' & Hl').
    { case_decide as Hcp.
      - exists child. split_and!; try done. by rewrite Hcp, firstn_all.
      - destruct (split_child_ok first child cp) as (c' & ? & ? & ? & ? & ? & _);
          [done..|lia|]. eauto 10. }
    destruct (div_drop_le (length toks) cp (length blks)) as [Hd1 Hd2]; [done..|].
    cbn [mbind exec_bind]. rewrite slice_from_ok by done. cbn [mbind exec_bind].
    destruct (IH child' (drop cp toks) (drop (cp / BLOCK_SIZE) blks))
      as (c2 & -> & Hw2 & Ht2 & Hb2 & Hh2 & Hin2); [done|rewrite length_drop; lia|..].
    { by rewrite !length_drop. }
    cbn [mbind exec_bind]. eexists. split; [done|].
    assert (edge_ok first c2) as He2 by (destruct He'; split; congruence).
    split; [by apply wf_set_children|]. split_and!; [done..|].
    intros l. rewrite in_tree_set, in_tree_edges.
    rewrite (edge_lang_insert child' c2 (drop cp toks)) by done.
    pose proof (common_prefix_len_take toks (tokens child)) as Hct. fold cp in Hct.
    rewrite Hl', Ht', <- Hct, take_drop. split.
    + intros [?|[[Hl|?]|(k & c & _ & ? & ?)]]; eauto 10.
    + intros [[?|(k & c & Hk & Hl)]|?]; [eauto 10| |eauto 10].
      destruct (decide (k = first)) as [->|]; [|eauto 10].
      rewrite Hget in Hk. simplify_eq. eauto 10.
  - eexists. split; [done|].
    set (leaf := RadixNode_new toks blks now).
    assert (edge_ok first leaf) as He by (split; done).
    assert (wf_node leaf) as Hwl by (constructor; simpl; [constructor|..]; by intros ?? ?%elem_of_nil).
    split; [by apply wf_set_children|]. split_and!; [done..|].
    intros l. rewrite in_tree_set, in_tree_edges. unfold edge_lang at 1. simpl tokens. split.
    + intros [?|[[?|(l' & -> & ->%in_tree_leaf)]|(k & c & _ & ? & ?)]]; eauto 10.
      right. by rewrite app_nil_r.
    + intros [[?|(k & c & Hk & Hl)]|?]; eauto 10.
      do 2 right. exists k, c. split; [congruence|done].
Qed.

(** ** Lookup *)

Lemma edge_lang_touch c now l : edge_lang (set_last_access now c) l ↔ edge_lang c l.
Proof.
  unfold edge_lang. simpl. split; intros [?|(l' & -> & Hl)]; eauto; right;
    exists l'; (split; [done|]); by eapply in_tree_children; [|exact Hl].
Qed.

Lemma edge_ok_touch k c now : edge_ok k c → edge_ok k (set_last_access now c).
Proof. by intros []. Qed.

(** Replacing a child by one with the same sequences changes nothing. *)
Lemma in_tree_replace n k c c' l :
  assoc_get k (children n) = Some c → (∀ l, edge_lang c' l ↔ edge_lang c l) →
  in_tree (set_children (assoc_set k c' (children n)) n) l ↔ in_tree n l.
Proof.
  intros Hk Heq. rewrite in_tree_set, in_tree_edges, Heq. split.
  - intros [?|[?|(k2 & c2 & _ & ? & ?)]]; eauto 10.
  - intros [?|(k2 & c2 & Hk2 & ?)]; [eauto|].
    destruct (decide (k2 = k)) as [->|]; [simplify_eq; eauto|eauto 10].
Qed.

(** The match [m] is the longest prefix of [toks] the tree holds. *)
Definition longest_match (n : RadixNode) (toks : list Z) (m : nat) : Prop :=
  m ≤ length toks ∧ in_tree n (take m toks) ∧
  ∀ l, in_tree n l → l `prefix_of` toks → length l ≤ m.

(** A sequence of the tree that agrees with [toks] starts on the edge stored
    under the first token of [toks]. *)
Lemma in_tree_first n toks first l :
  wf_node n → head toks = Some first → in_tree n l → l `prefix_of` toks →
  l = [] ∨ ∃ c, assoc_get first (children n) = Some c ∧ edge_lang c l.
Proof.
  intros Hwf Hhd [->|(k & c & Hk & Hl)]%in_tree_edges Hp; [by left|].
  destruct l as [|x l]; [by left|right]. destruct (wf_child _ _ _ Hwf Hk) as [Hed _].
  destruct Hp as [r ->]. simpl in Hhd. injection Hhd as ->.
  pose proof (edge_key_in _ _ _ _ Hed Hl) as ->. by exists c.
Qed.

Lemma lookup_node_spec fuel n toks k b0 now :
  wf_node n → length toks < fuel →
  ∃ n' m bs, lookup_node fuel n toks (k, b0, false) now
               = Ret (n', (k + m, b0 ++ bs, false)) ∧
    wf_node n' ∧ tokens n' = tokens n ∧ blocks n' = blocks n ∧ token_hash n' = token_hash n ∧
    (∀ l, in_tree n' l ↔ in_tree n l) ∧ longest_match n toks m.
Proof.
  revert n toks k b0. induction fuel as [|fuel IH]; intros n toks k b0 Hwf Hf; [lia|].
  assert (∀ m bs, m = 0 → bs = [] → (k, b0, false) = (k + m, b0 ++ bs, false)) as Hstop.
  { intros ?? -> ->. by rewrite Nat.add_0_r, app_nil_r. }
  destruct toks as [|first ts]; cbn [lookup_node].
  { exists n, 0, []. rewrite <- Hstop by done. split_and!; try done.
    unfold longest_match. split_and!; [done|constructor|]. by intros l _ ->%prefix_nil_inv. }
  assert (head (first :: ts) = Some first) as Hhd by done.
  set (toks := first :: ts) in *. clearbody toks.
  destruct (assoc_get first (children n)) as [child|] eqn:Hget.
  2: { exists n, 0, []. rewrite <- Hstop by done. split_and!; try done.
       unfold longest_match. split_and!; [lia|constructor|]. intros l Hl Hp.
       destruct (in_tree_first _ _ _ _ Hwf Hhd Hl Hp) as [->|(c & ? & _)]; [done|congruence]. }
  destruct (wf_child _ _ _ Hwf Hget) as [Hed Hwc].
  pose proof (common_prefix_len_le toks (tokens child)) as [Hc1 Hc2].
  pose proof (common_prefix_len_pos _ _ _ Hhd (edge_key _ _ Hed)) as Hpos.
  pose proof (common_prefix_len_take toks (tokens child)) as Hct.
  pose proof (common_prefix_len_max toks (tokens child)) as Hmax.
  set (cp := common_prefix_len toks (tokens child)) in *. clearbody cp.
  assert (∀ l, in_tree n l → l `prefix_of` toks → l = [] ∨ edge_lang child l) as Hon.
  { intros l Hl Hp. destruct (in_tree_first _ _ _ _ Hwf Hhd Hl Hp) as [?|(c & ? & ?)];
      [by left|right; congruence]. }
  case_decide as Hcp.
  - rewrite Hcp, firstn_all in Hct. rewrite decide_True.
    2: { by rewrite (edge_hash _ _ Hed), Hcp, Hct. }
    destruct (IH (set_last_access now child) (drop cp toks) (k + cp) (b0 ++ blocks child))
      as (c2 & m & bs & -> & Hw2 & Ht2 & Hb2 & Hh2 & Hin2 & Hm1 & Hm2 & Hm3);
      [by apply wf_last_access|rewrite length_drop; lia|].
    cbn [mbind exec_bind]. eexists _, (cp + m), (blocks child ++ bs).
    rewrite Nat.add_assoc, app_assoc. split; [done|].
    assert (edge_ok first c2) as He2.
    { destruct Hed; split; rewrite ?Ht2, ?Hb2, ?Hh2; done. }
    assert (∀ l, edge_lang c2 l ↔ edge_lang child l) as Hl2.
    { intros l. rewrite <- (edge_lang_touch child now). unfold edge_lang.
      rewrite Ht2. by setoid_rewrite Hin2. }
    rewrite length_drop in Hm1.
    split; [by apply wf_set_children|].
    split_and!; try done; [intros l; by apply in_tree_replace with child|].
    unfold longest_match. split_and!.
    + lia.
    + rewrite <- take_take_drop, Hcp, Hct, <- Hcp. eapply in_below; [done|].
      by eapply in_tree_children; [|exact Hm2].
    + intros l Hl Hp. destruct (Hon l Hl Hp) as [->|[Hpre|(l' & -> & Hl')]]; simpl; [lia|..].
      * apply prefix_length in Hpre. lia.
      * rewrite length_app, <- Hcp. enough (length l' ≤ m) by lia. apply Hm3.
        { by eapply in_tree_children; [|exact Hl']. }
        destruct Hp as [r ->]. rewrite <- app_assoc, Hcp, drop_app_length. by eexists.
  - rewrite decide_True by done. assert (cp < length (tokens child)) as Hlt by lia.
    rewrite slice_to_ok.
    2: { destruct (div_drop_le (length (tokens child)) cp (length (blocks child)));
           [apply Hed|lia|done]. }
    cbn [mbind exec_bind]. eexists _, cp, _. split; [done|].
    split; [apply wf_set_children; [done|by apply edge_ok_touch|by apply wf_last_access]|].
    split_and!; try done.
    { intros l. apply in_tree_replace with child; [done|]. apply edge_lang_touch. }
    unfold longest_match. split_and!; [done|..].
    + rewrite Hct. eapply in_edge; [done|]. apply prefix_take.
    + intros l Hl Hp. destruct (Hon l Hl Hp) as [->|[Hpre|(l' & -> & Hl')]]; simpl; [lia|..].
      * by apply Hmax.
      * exfalso. enough (length (tokens child) ≤ cp) by lia. apply Hmax; [|done].
        destruct Hp as [r ->]. rewrite <- app_assoc. by eexists.
Qed.

(** ** The blocks and the leaves of a tree *)

Fixpoint all_blocks (n : RadixNode) : list nat :=
  blocks n ++
  (fix go (cs : list (Z * RadixNode)) : list nat :=
     match cs with [] => [] | (_, c) :: cs' => all_blocks c ++ go cs' end) (children n).

Definition forest_blocks (cs : list (Z * RadixNode)) : list nat :=
  concat ((λ kc, all_blocks kc.2) <$> cs).

Lemma all_blocks_eq n : all_blocks n = blocks n ++ forest_blocks (children n).
Proof.
  destruct n as [t b cs a h]. simpl. f_equal.
  induction cs as [|[k c] cs IH]; [done|]. unfold forest_blocks in *. csimpl. by rewrite IH.
Qed.

Definition forest_nodes (cs : list (Z * RadixNode)) : nat :=
  sum_list ((λ kc, S (count_nodes kc.2)) <$> cs).

Lemma count_nodes_eq n : count_nodes n = forest_nodes (children n).
Proof.
  destruct n as [t b cs a h]. simpl.
  induction cs as [|[k c] cs IH]; [done|]. unfold forest_nodes in *. csimpl. lia.
Qed.

Section RadixNode_nested_ind.
Variable P : RadixNode → Prop.
Hypothesis Hnode : ∀ n, Forall (λ kc, P kc.2) (children n) → P n.

Fixpoint RadixNode_nested_ind (n : RadixNode) : P n :=
  Hnode n
    ((fix go (cs : list (Z * RadixNode)) : Forall (λ kc, P kc.2) cs :=
        match cs with
        | [] => Forall_nil_2 _
        | kc :: cs' => Forall_cons_2 _ kc cs' (RadixNode_nested_ind kc.2) (go cs')
        end) (children n)).
End RadixNode_nested_ind.

(** [leaf_at n p a bs]: the path [p] of keys leads from [n] to a leaf last
    accessed at [a] that holds the blocks [bs]. *)
Inductive leaf_at : RadixNode → list Z → Z → list nat → Prop :=
| leaf_here n k c :
    assoc_get k (children n) = Some c → is_leaf c = true →
    leaf_at n [k] (last_access c) (blocks c)
| leaf_below n k c p a bs :
    assoc_get k (children n) = Some c → leaf_at c p a bs → leaf_at n (k :: p) a bs.

(** The proper descendants of a node. *)
Inductive below : RadixNode → RadixNode → Prop :=
| below_child n k c : (k, c) ∈ children n → below n c
| below_trans n k c d : (k, c) ∈ children n → below c d → below n d.

Lemma leaf_no_leaf_at n p a bs : is_leaf n = true → leaf_at n p a bs → False.
Proof. unfold is_leaf. intros Hl Hp. inversion Hp; subst; by destruct (children n). Qed.

Lemma leaf_at_cons n p a bs :
  leaf_at n p a bs →
  ∃ k c p', p = k :: p' ∧ assoc_get k (children n) = Some c ∧
    ((p' = [] ∧ is_leaf c = true ∧ a = last_access c ∧ bs = blocks c) ∨ leaf_at c p' a bs).
Proof. inversion 1; subst; eauto 10. Qed.

Lemma is_leaf_nil c : is_leaf c = true ↔ children c = [].
Proof. unfold is_leaf. by destruct (children c). Qed.

Lemma forest_remove k c cs :
  assoc_get k cs = Some c →
  forest_blocks cs ≡ₚ all_blocks c ++ forest_blocks (assoc_remove k cs) ∧
  forest_nodes cs = S (count_nodes c) + forest_nodes (assoc_remove k cs).
Proof.
  intros (cs1 & cs2 & -> & _ & ->)%(assoc_set_split k c c cs).
  unfold forest_blocks, forest_nodes. rewrite !fmap_app, !fmap_cons, !concat_app. simpl.
  rewrite !sum_list_app. simpl. split; [apply Permutation_app_swap_app|lia].
Qed.

Lemma forest_set k c c' cs :
  assoc_get k cs = Some c →
  forest_blocks (assoc_set k c' cs) ≡ₚ all_blocks c' ++ forest_blocks (assoc_remove k cs) ∧
  forest_nodes (assoc_set k c' cs) = S (count_nodes c') + forest_nodes (assoc_remove k cs).
Proof.
  intros (cs1 & cs2 & -> & -> & ->)%(assoc_set_split k c c' cs).
  unfold forest_blocks, forest_nodes. rewrite !fmap_app, !fmap_cons, !concat_app. simpl.
  rewrite !sum_list_app. simpl. split; [apply Permutation_app_swap_app|lia].
Qed.

Lemma in_tree_removed n k l :
  NoDup (children n).*1 →
  in_tree (set_children (assoc_remove k (children n)) n) l → in_tree n l.
Proof.
  intros Hnd. rewrite !in_tree_edges. simpl. intros [?|(k' & c & Hc & Hl)]; [by left|right].
  exists k', c. split; [|done].
  by apply assoc_get_elem, assoc_remove_elem, elem_assoc_get in Hc.
Qed.

Lemma wf_removed n k :
  wf_node n → wf_node (set_children (assoc_remove k (children n)) n).
Proof.
  inversion 1; subst. constructor; simpl; [by auto with justapi|..];
    intros ?? ?%assoc_remove_elem; eauto.
Qed.

(** [removed n p bs n']: [n'] is [n] without the leaf at [p], whose blocks are
    [bs].  The other leaves stay where they are and no sequence is added. *)
Record removed (n : RadixNode) (p : list Z) (bs : list nat) (n' : RadixNode) : Prop := {
  rm_wf : wf_node n';
  rm_same : tokens n' = tokens n ∧ blocks n' = blocks n ∧ token_hash n' = token_hash n ∧
            last_access n' = last_access n;
  rm_blocks : all_blocks n ≡ₚ bs ++ all_blocks n';
  rm_nodes : count_nodes n = S (count_nodes n');
  rm_leaves : ∀ p2 a2 bs2, p2 ≠ p → leaf_at n p2 a2 bs2 → leaf_at n' p2 a2 bs2;
  rm_lang : ∀ l, in_tree n' l → in_tree n l;
  rm_below : ∀ d, below n' d → ∃ d0, below n d0 ∧ last_access d = last_access d0 }.

Lemma removed_here n k c :
  wf_node n → assoc_get k (children n) = Some c → is_leaf c = true →
  removed n [k] (blocks c) (set_children (assoc_remove k (children n)) n).
Proof.
  intros Hwf Hk Hl.
  destruct (forest_remove k c (children n) Hk) as [Hb Hn].
  pose proof (proj1 (is_leaf_nil c) Hl) as Hnil.
  assert (all_blocks c = blocks c) as Hcb.
  { rewrite all_blocks_eq, Hnil. apply app_nil_r. }
  assert (count_nodes c = 0) as Hcn by by rewrite count_nodes_eq, Hnil.
  split; [by apply wf_removed|done|..].
  - rewrite !all_blocks_eq, Hb, Hcb. simpl. apply Permutation_app_swap_app.
  - rewrite !count_nodes_eq, Hn, Hcn. done.
  - intros p2 a2 bs2 Hne Hp2.
    destruct (leaf_at_cons _ _ _ _ Hp2) as (k2 & c2 & p' & -> & Hk2 & Hcase).
    destruct (decide (k2 = k)) as [->|Hkk].
    * simplify_eq. destruct Hcase as [(-> & _)|Hb2]; [done|].
      by destruct (leaf_no_leaf_at _ _ _ _ Hl Hb2).
    * assert (assoc_get k2 (children (set_children (assoc_remove k (children n)) n)) = Some c2)
        as Hk2' by (simpl; by rewrite assoc_get_remove_ne).
      destruct Hcase as [(-> & ? & -> & ->)|?]; [by apply (leaf_here _ k2)|].
      by eapply leaf_below.
  - intros l. apply in_tree_removed. by inversion Hwf.
  - intros d Hd. exists d. split; [|done]. inversion Hd; subst; simpl in *.
    * eapply below_child. by eapply assoc_remove_elem.
    * eapply below_trans; [by eapply assoc_remove_elem|done].
Qed.

Lemma removed_below n k c p bs c' :
  wf_node n → assoc_get k (children n) = Some c → is_leaf c = false → p ≠ [] →
  removed c p bs c' →
  removed n (k :: p) bs (set_children (assoc_set k c' (children n)) n).
Proof.
  intros Hwf Hk Hnl Hp [Hw' (Ht & Hbl & Hh & Ha) Hb' Hn' Hpres Hin Hbelow].
  destruct (wf_child _ _ _ Hwf Hk) as [Hed Hwc].
  assert (edge_ok k c') as He' by (destruct Hed; split; congruence).
  destruct (forest_remove k c (children n) Hk) as [Hb1 Hn1].
  destruct (forest_set k c c' (children n) Hk) as [Hb2 Hn2].
  split; [by apply wf_set_children|done|..].
  - rewrite !all_blocks_eq, Hb1, Hb'. simpl. rewrite Hb2, <- !app_assoc.
    apply Permutation_app_swap_app.
  - rewrite !count_nodes_eq, Hn1, Hn'. simpl. rewrite Hn2. lia.
  - intros p2 a2 bs2 Hne Hp2.
    destruct (leaf_at_cons _ _ _ _ Hp2) as (k2 & c2 & p' & -> & Hk2 & Hcase).
    assert (assoc_get k2 (children (set_children (assoc_set k c' (children n)) n))
            = if decide (k = k2) then Some c' else Some c2) as Hk2'.
    { simpl. rewrite assoc_get_set. by rewrite Hk2. }
    case_decide as Hkk.
    * subst. simplify_eq. destruct Hcase as [(-> & Hl & _)|Hb3]; [congruence|].
      eapply leaf_below; [done|]. apply Hpres; [congruence|done].
    * destruct Hcase as [(-> & ? & -> & ->)|?]; [by apply (leaf_here _ k2)|].
      by eapply leaf_below.
  - intros l. rewrite in_tree_set, in_tree_edges. unfold edge_lang at 1. rewrite Ht.
    intros [?|[[?|(l' & -> & Hl')]|(k2 & c2 & _ & ? & ?)]]; [by left|right..]; [..|eauto].
    * exists k, c. split; [done|]. by left.
    * exists k, c. split; [done|]. right. eauto.
  - intros d Hd. assert (∀ c0, below c' c0 → ∃ d0, below n d0 ∧ last_access c0 = last_access d0)
      as Hc'.
    { intros c0 (d0 & ? & ?)%Hbelow. exists d0. split; [|done].
      eapply below_trans; [by apply assoc_get_elem|done]. }
    inversion Hd as [? k2 c2 Hc2|? k2 c2 ? Hc2]; subst; simpl in Hc2;
      apply assoc_set_elem in Hc2 as [Hc2|Hc2]; simplify_eq.
    * exists c. split; [|done]. by eapply below_child, assoc_get_elem.
    * exists d. split; [|done]. by eapply below_child.
    * by apply Hc'.
    * exists d. split; [|done]. by eapply below_trans.
Qed.

Lemma remove_path_spec n p a bs :
  wf_node n → leaf_at n p a bs →
  ∃ n', remove_path n p = (true, n') ∧ removed n p bs n'.
Proof.
  intros Hwf Hp. induction Hp as [n k c Hk Hl|n k c p a bs Hk Hp IH]; cbn [remove_path]; rewrite Hk.
  - eexists. split; [done|]. by apply removed_here.
  - destruct (wf_child _ _ _ Hwf Hk) as [_ Hwc]. destruct (IH Hwc) as (c' & -> & Hrm).
    assert (p ≠ []) by (by intros ->; inversion Hp).
    assert (is_leaf c = false).
    { destruct (is_leaf c) eqn:Hl; [|done]. by destruct (leaf_no_leaf_at _ _ _ _ Hl Hp). }
    destruct p; [done|]. eexists. split; [done|]. by eapply removed_below.
Qed.

(** ** Collecting the leaves *)

Definition leaves_of (path : list Z) (kc : Z * RadixNode) : list (Z * list Z * list nat) :=
  if is_leaf kc.2 then [(last_access kc.2, path ++ [kc.1], blocks kc.2)]
  else collect_leaves kc.2 (path ++ [kc.1]).

Lemma collect_leaves_eq n path :
  collect_leaves n path = children n ≫= leaves_of path.
Proof.
  destruct n as [t b cs a h]. simpl.
  induction cs as [|[k c] cs IH]; [done|]. simpl. by rewrite IH.
Qed.

Lemma collect_leaves_sound n :
  ∀ path a p bs, wf_node n → (a, p, bs) ∈ collect_leaves n path →
    ∃ p', p = path ++ p' ∧ leaf_at n p' a bs.
Proof.
  induction n as [n IH] using RadixNode_nested_ind. intros path a p bs Hwf.
  rewrite collect_leaves_eq, list_elem_of_bind. intros ([k c] & Hin & Hkc).
  inversion Hwf as [n' Hnd Hed Hch]; subst.
  pose proof (elem_assoc_get _ _ _ Hnd Hkc) as Hk. unfold leaves_of in Hin. simpl in Hin.
  destruct (is_leaf c) eqn:Hl.
  - apply list_elem_of_singleton in Hin. simplify_eq. exists [k]. split; [done|].
    by apply leaf_here.
  - rewrite Forall_forall in IH. specialize (IH _ Hkc). simpl in IH.
    apply IH in Hin as (p' & -> & Hp'); [|eauto].
    exists (k :: p'). rewrite <- app_assoc. split; [done|]. by eapply leaf_below.
Qed.

Lemma collect_leaves_complete n p a bs :
  leaf_at n p a bs → ∀ path, (a, path ++ p, bs) ∈ collect_leaves n path.
Proof.
  induction 1 as [n k c Hk Hl|n k c p a bs Hk Hp IH]; intros path;
    rewrite collect_leaves_eq, list_elem_of_bind; exists (k, c);
    (split; [|by apply assoc_get_elem]); unfold leaves_of; simpl.
  - rewrite Hl. by apply list_elem_of_singleton.
  - destruct (is_leaf c) eqn:Hl; [by destruct (leaf_no_leaf_at _ _ _ _ Hl Hp)|].
    specialize (IH (path ++ [k])). by rewrite <- app_assoc in IH.
Qed.

(** Leaves have distinct paths. *)
Lemma collect_leaves_nodup n :
  ∀ path, wf_node n → NoDup ((λ l, l.1.2) <$> collect_leaves n path).
Proof.
  induction n as [n IH] using RadixNode_nested_ind. intros path Hwf.
  rewrite collect_leaves_eq. inversion Hwf as [n' Hnd Hed Hch]; subst.
  assert (∀ k c p, (k, c) ∈ children n → p ∈ ((λ l, l.1.2) <$> leaves_of path (k, c)) →
                   ∃ p', p = path ++ k :: p') as Hhd.
  { intros k c p Hkc ([[a q] bs] & -> & Hq)%list_elem_of_fmap. unfold leaves_of in Hq.
    simpl in *. destruct (is_leaf c).
    - apply list_elem_of_singleton in Hq. simplify_eq. eauto.
    - apply collect_leaves_sound in Hq as (p' & -> & _); [|eauto]. rewrite <- app_assoc. eauto. }
  assert (∀ kc, kc ∈ children n → NoDup ((λ l, l.1.2) <$> leaves_of path kc)) as Hone.
  { intros [k c] Hkc. rewrite Forall_forall in IH. unfold leaves_of. simpl.
    destruct (is_leaf c); [apply NoDup_singleton|]. apply (IH _ Hkc). eauto. }
  clear IH Hed Hch Hwf. induction (children n) as [|[k c] cs IHc]; [constructor|].
  csimpl in *. rewrite fmap_app. apply NoDup_cons in Hnd as [Hk Hnd].
  apply NoDup_app. split; [apply Hone; left|]. split.
  - intros p Hp1 Hp2. destruct (Hhd k c p) as [p' ->]; [left|done|].
    apply list_elem_of_fmap in Hp2 as (l & Heq & Hl).
    apply list_elem_of_bind in Hl as ([k2 c2] & Hl & Hc2).
    destruct (Hhd k2 c2 (l.1.2)) as [p2 Hp2]; [by right|apply list_elem_of_fmap; eauto|].
    rewrite <- Heq in Hp2. apply app_inv_head in Hp2. simplify_eq.
    apply Hk, list_elem_of_fmap. by exists (k2, c2).
  - apply IHc; [done|..]; intros; eauto using list_elem_of_further.
Qed.

(** ** The least recently used leaf *)

Lemma find_lru_leaf_eq n :
  find_lru_leaf n =
  match sort_by_key snd (direct_leaves n) with
  | (key, _) :: _ =>
      match assoc_get key (children n) with
      | Some child => Some ([key], blocks child)
      | None => None
      end
  | [] => (foldl (λ best kc, best_step best kc.1 (last_access kc.2) (find_lru_leaf kc.2))
             (u64_max, None) (children n)).2
  end.
Proof.
  destruct n as [t b cs a h]. simpl. destruct (sort_by_key _ _) as [|[k ?] ?]; [|done].
  generalize (u64_max, @None (list Z * list nat)).
  induction cs as [|[k c] cs IH]; intros best; simpl; [done|]. by rewrite IH.
Qed.

Lemma direct_leaves_elem n k a :
  (k, a) ∈ direct_leaves n ↔
  ∃ c, (k, c) ∈ children n ∧ is_leaf c = true ∧ a = last_access c.
Proof.
  unfold direct_leaves. rewrite list_elem_of_fmap. setoid_rewrite list_elem_of_filter.
  split; [intros ([k' c] & [= -> ->] & ? & ?); eauto|intros (c & ? & ? & ->)].
  by exists (k, c).
Qed.

Lemma best_fold_some (f : RadixNode → option (list Z * list nat)) cs best p bs :
  (foldl (λ best kc, best_step best kc.1 (last_access kc.2) (f kc.2)) best cs).2 = Some (p, bs) →
  best.2 = Some (p, bs) ∨ ∃ k c p', (k, c) ∈ cs ∧ p = k :: p' ∧ f c = Some (p', bs).
Proof.
  revert best. induction cs as [|[k c] cs IH]; intros best; simpl; [by left|].
  intros [Hb|(k2 & c2 & p' & ? & ? & ?)]%IH; [|right; exists k2, c2, p'; by rewrite elem_of_cons; eauto].
  unfold best_step in Hb. destruct (f c) as [[p' bs']|] eqn:Hf; [|by left].
  destruct (_ <? _)%Z; [|by left]. simpl in Hb. simplify_eq.
  right. exists k, c, p'. split; [left|done].
Qed.

Lemma best_fold_keeps (f : RadixNode → option (list Z * list nat)) cs best :
  is_Some best.2 →
  is_Some (foldl (λ best kc, best_step best kc.1 (last_access kc.2) (f kc.2)) best cs).2.
Proof.
  revert best. induction cs as [|[k c] cs IH]; intros best Hb; simpl; [done|].
  apply IH. unfold best_step. destruct (f c) as [[? ?]|]; [|done]. by destruct (_ <? _)%Z.
Qed.

(** What [find_lru_leaf] names is a leaf. *)
Lemma find_lru_leaf_sound n :
  ∀ p bs, wf_node n → find_lru_leaf n = Some (p, bs) → ∃ a, leaf_at n p a bs.
Proof.
  induction n as [n IH] using RadixNode_nested_ind. intros p bs Hwf.
  inversion Hwf as [n' Hnd Hed Hch]; subst. rewrite find_lru_leaf_eq.
  destruct (sort_by_key snd (direct_leaves n)) as [|[key a] l] eqn:Hs.
  - intros [?|(k & c & p' & Hc & -> & Hf)]%best_fold_some; [done|].
    rewrite Forall_forall in IH. destruct (IH _ Hc _ _ (Hch _ _ Hc) Hf) as [a Ha].
    exists a. eapply leaf_below; [by apply elem_assoc_get|done].
  - assert ((key, a) ∈ direct_leaves n) as (c & Hc & Hl & ->)%direct_leaves_elem.
    { rewrite <- (sort_by_key_perm snd), Hs. left. }
    rewrite (elem_assoc_get _ _ _ Hnd Hc). intros [= <- <-]. exists (last_access c).
    constructor; [by apply elem_assoc_get|done].
Qed.

(** Every node at or below [n] was last accessed by [now]. *)
Definition accessed_by (now : Z) (n : RadixNode) : Prop :=
  (last_access n ≤ now)%Z ∧ ∀ d, below n d → (last_access d ≤ now)%Z.

Lemma accessed_child now n k c :
  accessed_by now n → (k, c) ∈ children n → accessed_by now c.
Proof. intros [_ Hb] Hc. split; [|intros d Hd]; apply Hb; eauto using below. Qed.

(** As long as no access carries the largest timestamp, a tree with a child
    has a leaf to evict. *)
Lemma find_lru_leaf_complete n :
  ∀ now, accessed_by now n → (now < u64_max)%Z → children n ≠ [] → wf_node n →
  is_Some (find_lru_leaf n).
Proof.
  induction n as [n IH] using RadixNode_nested_ind. intros now Hacc Hnow Hne Hwf.
  inversion Hwf as [n' Hnd Hed Hch]; subst. rewrite find_lru_leaf_eq.
  destruct (sort_by_key snd (direct_leaves n)) as [|[key a] l] eqn:Hs.
  - assert (∀ k c, (k, c) ∈ children n → children c ≠ []) as Hnl.
    { intros k c Hc Hl%is_leaf_nil. assert ((k, last_access c) ∈ direct_leaves n) as Hd.
      { apply direct_leaves_elem. eauto. }
      rewrite <- (sort_by_key_perm snd), Hs in Hd. by apply elem_of_nil in Hd. }
    destruct (children n) as [|[k c] cs] eqn:Hcs; [done|]. simpl. apply best_fold_keeps.
    assert ((k, c) ∈ children n) as Hc by (rewrite Hcs; left).
    apply Forall_cons in IH as [IH _].
    assert (accessed_by now c) as Hac by by eapply accessed_child.
    destruct (IH now) as [[p bs] Hp]; [done|done|eapply Hnl; left|eapply Hch; left|].
    simpl in Hp. rewrite Hp. unfold best_step. destruct Hac as [Hle _].
    cbn [fst]. destruct (Z.ltb_spec (last_access c) u64_max); [done|lia].
  - assert ((key, a) ∈ direct_leaves n) as (c & Hc & Hl & ->)%direct_leaves_elem.
    { rewrite <- (sort_by_key_perm snd), Hs. left. }
    rewrite (elem_assoc_get _ _ _ Hnd Hc). done.
Qed.

(** ** Access times *)

Lemma accessed_mono now now' n : accessed_by now n → (now ≤ now')%Z → accessed_by now' n.
Proof. intros [Ha Hb] Hle. split; [lia|]. intros d Hd. specialize (Hb d Hd). lia. Qed.

Lemma accessed_set now k c n :
  accessed_by now n → accessed_by now c →
  accessed_by now (set_children (assoc_set k c (children n)) n).
Proof.
  intros [Ha Hb] [Hca Hcb]. split; [done|]. intros d Hd.
  inversion Hd as [? k' d' Hin|? k' d' ? Hin Hbel]; subst; simpl in Hin;
    apply assoc_set_elem in Hin as [Hin|Hin]; simplify_eq; eauto using below.
Qed.

Lemma accessed_touch now n : accessed_by now n → accessed_by now (set_last_access now n).
Proof.
  intros [_ Hb]. split; [done|]. intros d Hd. apply Hb.
  inversion Hd; subst; eauto using below.
Qed.

Lemma accessed_leaf toks blks now : accessed_by now (RadixNode_new toks blks now).
Proof.
  split; [done|]. intros d Hd. by inversion Hd as [??? Hin|???? Hin]; apply elem_of_nil in Hin.
Qed.

Lemma accessed_get now n k c :
  accessed_by now n → assoc_get k (children n) = Some c → accessed_by now c.
Proof. intros Hn Hk%assoc_get_elem. by eapply accessed_child. Qed.

Lemma split_child_accessed now c cp c' :
  split_child c cp = Ret c' → accessed_by now c → accessed_by now c'.
Proof.
  unfold split_child, slice_from. case_decide; simpl; [|done].
  destruct (drop cp (tokens c)) as [|key ts]; [done|]. intros [= <-] [Ha Hb].
  split; [done|]. intros d Hd.
  inversion Hd as [? k' d' Hin|? k' d' ? Hin Hbel]; subst; simpl in Hin;
    apply list_elem_of_singleton in Hin; simplify_eq; [done|].
  apply Hb. inversion Hbel; subst; eauto using below.
Qed.

Lemma insert_node_accessed fuel n toks blks now n' :
  insert_node fuel n toks blks now = Ret n' → accessed_by now n → accessed_by now n'.
Proof.
  revert n toks blks n'. induction fuel as [|fuel IH]; intros n toks blks n'; simpl; [done|].
  destruct toks as [|first ts]; [intros [= <-]; apply accessed_touch|].
  destruct (assoc_get first (children n)) as [child|] eqn:Hget.
  - intros (child' & Hsp & (rest & _ & (c2 & Hc2 & [= <-])%bind_Ret_inv)%bind_Ret_inv)%bind_Ret_inv.
    intros Hn. apply accessed_set; [done|]. eapply IH; [done|].
    pose proof (accessed_get _ _ _ _ Hn Hget). case_decide; simplify_eq; [done|].
    by eapply split_child_accessed.
  - intros [= <-] Hn. by apply accessed_set, accessed_leaf.
Qed.

Lemma lookup_node_accessed fuel n toks out now n' out' :
  lookup_node fuel n toks out now = Ret (n', out') → accessed_by now n → accessed_by now n'.
Proof.
  revert n toks out n' out'.
  induction fuel as [|fuel IH]; intros n toks [[m bs] col] n' out'; simpl; [done|].
  destruct toks as [|first ts]; [by intros [= <- <-]|].
  destruct (assoc_get first (children n)) as [child|] eqn:Hget; [|by intros [= <- <-]].
  intros Hr Hn. pose proof (accessed_get _ _ _ _ Hn Hget) as Hc.
  case_decide; [case_decide|case_decide]; simplify_eq; [..|done].
  - apply bind_Ret_inv in Hr as ([c2 out2] & Hc2 & [= <- <-]). apply accessed_set; [done|].
    by eapply IH, accessed_touch.
  - done.
  - apply bind_Ret_inv in Hr as (part & _ & [= <- <-]). by apply accessed_set, accessed_touch.
Qed.

(** ** Reachable caches *)

(** [radix_reach n c]: some sequence of the operations, [n] of them insertions
    or lookups, leads from the empty cache to [c]. *)
Inductive radix_reach : nat → RadixPrefixCache → Prop :=
| reach_new : radix_reach 0 RadixPrefixCache.new
| reach_insert n c toks blks c' :
    radix_reach n c → RadixPrefixCache.insert toks blks c = Ret c' → radix_reach (S n) c'
| reach_lookup n c toks res c' :
    radix_reach n c → RadixPrefixCache.lookup toks c = Ret (res, c') → radix_reach (S n) c'
| reach_evict n c k freed c' :
    radix_reach n c → RadixPrefixCache.evict k c = Ret (freed, c') → radix_reach n c'
| reach_evict_filter n c k keep freed c' :
    radix_reach n c → RadixPrefixCache.evict_filter k keep c = (freed, c') → radix_reach n c'.

(** The invariant of the cache; the clock counts the operations until it
    wraps. *)
Record radix_ok (n : nat) (c : RadixPrefixCache) : Prop := {
  ok_wf : wf_node (root c);
  ok_root : tokens (root c) = [] ∧ blocks (root c) = [] ∧ token_hash (root c) = hash_tokens [];
  ok_collisions : hash_collisions c = 0%Z;
  ok_clock : (Z.of_nat n ≤ u64_max)%Z →
             clock c = Z.of_nat n ∧ accessed_by (Z.of_nat n) (root c) }.

Lemma clock_tick n c :
  radix_ok n c → (Z.of_nat (S n) ≤ u64_max)%Z →
  wadd64 (clock c) 1 = Z.of_nat (S n) ∧ accessed_by (Z.of_nat (S n)) (root c).
Proof.
  intros Hok Hn. destruct (ok_clock _ _ Hok) as [-> Hacc]; [lia|]. split.
  - unfold wadd64, u64_modulus. unfold u64_max in Hn. rewrite Z.mod_small; lia.
  - eapply accessed_mono; [done|lia].
Qed.

Lemma wf_new : wf_node (RadixNode_new [] [] 0).
Proof. constructor; simpl; [constructor|..]; by intros ?? ?%elem_of_nil. Qed.

Lemma insert_ok n c toks blks :
  radix_ok n c → length toks = length blks * BLOCK_SIZE →
  ∃ c', RadixPrefixCache.insert toks blks c = Ret c' ∧ radix_ok (S n) c' ∧
    ∀ l, in_tree (root c') l ↔ in_tree (root c) l ∨ l `prefix_of` toks.
Proof.
  intros Hok Hlen. unfold RadixPrefixCache.insert. rewrite decide_True by done.
  remember (S (length toks)) as fuel eqn:Hfuel. simpl.
  set (now := wadd64 (clock c) 1).
  destruct (insert_node_spec fuel (root c) toks blks now)
    as (r & Hr & Hw & Ht & Hb & Hh & Hin); [apply Hok|lia|by rewrite Hlen; unfold BLOCK_SIZE; div_lia|].
  rewrite Hr. simpl. eexists. split; [done|]. split; [|done].
  destruct (ok_root _ _ Hok) as (? & ? & ?).
  split; simpl; [done|split_and!; congruence|by apply Hok|].
  intros Hn. destruct (clock_tick n c) as [Hnow Hacc]; [done|done|]. fold now in Hnow.
  split; [done|]. rewrite <- Hnow in Hacc |- *.
  eapply (insert_node_accessed fuel); [exact Hr|done].
Qed.

Lemma lookup_ok n c toks :
  radix_ok n c →
  ∃ res c' m, RadixPrefixCache.lookup toks c = Ret (res, c') ∧ radix_ok (S n) c' ∧
    (∀ l, in_tree (root c') l ↔ in_tree (root c) l) ∧ longest_match (root c) toks m ∧
    fst <$> res = if decide (0 < m) then Some m else None.
Proof.
  intros Hok. unfold RadixPrefixCache.lookup.
  remember (S (length toks)) as fuel eqn:Hfuel. simpl.
  set (now := wadd64 (clock c) 1).
  destruct (lookup_node_spec fuel (root c) toks 0 [] now)
    as (r & m & bs & Hr & Hw & Ht & Hb & Hh & Hin & Hm); [apply Hok|lia|].
  rewrite Hr. simpl.
  eexists _, _, m. split; [by rewrite (surjective_pairing (if decide _ then _ else _))|].
  split; [|split; [|split; [done|by case_decide]]]; [|by case_decide].
  destruct (ok_root _ _ Hok) as (? & ? & ?).
  assert ((Z.of_nat (S n) ≤ u64_max)%Z → now = Z.of_nat (S n) ∧ accessed_by (Z.of_nat (S n)) r) as Hck.
  { intros Hn. destruct (clock_tick n c) as [Hnow Hacc]; [done|done|]. fold now in Hnow.
    split; [done|]. rewrite <- Hnow in Hacc |- *.
    eapply (lookup_node_accessed fuel); [exact Hr|done]. }
  case_decide; (split; simpl; [done|split_and!; congruence|by apply Hok|done]).
Qed.

(** ** Eviction *)

(** What every eviction step keeps: [r'] is [r] with leaves removed whose
    blocks are [freed]. *)
Record shrinks (r : RadixNode) (freed : list nat) (r' : RadixNode) : Prop := {
  sh_wf : wf_node r';
  sh_root : tokens r' = tokens r ∧ blocks r' = blocks r ∧ token_hash r' = token_hash r;
  sh_blocks : all_blocks r ≡ₚ freed ++ all_blocks r';
  sh_lang : ∀ l, in_tree r' l → in_tree r l;
  sh_access : ∀ now, accessed_by now r → accessed_by now r' }.

Lemma shrinks_refl r : wf_node r → shrinks r [] r.
Proof. intros. by split. Qed.

Lemma shrinks_trans r1 f1 r2 f2 r3 :
  shrinks r1 f1 r2 → shrinks r2 f2 r3 → shrinks r1 (f1 ++ f2) r3.
Proof.
  intros [Hw1 (?&?&?) Hb1 Hl1 Ha1] [Hw2 (?&?&?) Hb2 Hl2 Ha2]. split; [done| | |by auto|by auto].
  - split_and!; congruence.
  - by rewrite Hb1, Hb2, app_assoc.
Qed.

Lemma remove_path_shrinks r p a bs :
  wf_node r → leaf_at r p a bs →
  shrinks r bs (remove_path r p).2 ∧ count_nodes r = S (count_nodes (remove_path r p).2) ∧
  ∀ p2 a2 bs2, p2 ≠ p → leaf_at r p2 a2 bs2 → leaf_at (remove_path r p).2 p2 a2 bs2.
Proof.
  intros Hwf Hp. destruct (remove_path_spec r p a bs Hwf Hp)
    as (r' & -> & [Hw (? & ? & ? & Hla) Hb Hn Hpres Hin Hbel]). simpl.
  split; [|done]. split; try done. intros now [Ha Hbnow]. split; [congruence|].
  intros d (d0 & Hd0 & ->)%Hbel. by apply Hbnow.
Qed.

Lemma evict_loop_spec fuel k now freed r :
  wf_node r → accessed_by now r → (now < u64_max)%Z → count_nodes r < fuel →
  ∃ more r', RadixPrefixCache.evict_loop fuel k freed r = Ret (freed ++ more, r') ∧
    shrinks r more r' ∧ (k ≤ length (freed ++ more) ∨ children r' = []).
Proof.
  revert freed r. induction fuel as [|fuel IH]; intros freed r Hwf Hacc Hnow Hf; [lia|].
  cbn [RadixPrefixCache.evict_loop]. case_decide as Hk.
  2: { exists [], r. rewrite app_nil_r. split; [done|]. split; [by apply shrinks_refl|lia]. }
  destruct (find_lru_leaf r) as [[p bs]|] eqn:Hlru.
  2: { exists [], r. rewrite app_nil_r. split; [done|]. split; [by apply shrinks_refl|right].
       destruct (children r) eqn:Hch; [done|].
       destruct (find_lru_leaf_complete r now) as [? ?]; [done|done|by rewrite Hch|done|congruence]. }
  destruct (find_lru_leaf_sound r p bs Hwf Hlru) as [a Ha].
  destruct (remove_path_shrinks r p a bs Hwf Ha) as (Hsh & Hn & _).
  destruct (IH (freed ++ bs) (remove_path r p).2) as (more & r' & -> & Hsh' & Hend);
    [apply Hsh|by apply Hsh|done|lia|].
  exists (bs ++ more), r'. rewrite app_assoc. split; [done|].
  split; [by eapply shrinks_trans|done].
Qed.

Definition leaf_blocks (l : Z * list Z * list nat) : list nat := l.2.
Definition leaf_access (l : Z * list Z * list nat) : Z := l.1.1.

(** The leaves [evict_filter] considers, in its order. *)
Definition candidates (keep : list nat → bool) (r : RadixNode) : list (Z * list Z * list nat) :=
  filter (λ l, keep (leaf_blocks l) = true) (sort_by_key leaf_access (collect_leaves r [])).

Lemma evict_filter_loop_spec k keep leaves freed r :
  wf_node r → NoDup ((λ l, l.1.2) <$> leaves) →
  (∀ a p bs, (a, p, bs) ∈ leaves → leaf_at r p a bs) →
  ∃ v r', RadixPrefixCache.evict_filter_loop k keep leaves freed r
            = (freed ++ (v ≫= leaf_blocks), r') ∧
    shrinks r (v ≫= leaf_blocks) r' ∧
    (∃ rest, filter (λ l, keep (leaf_blocks l) = true) leaves = v ++ rest ∧
       (rest = [] ∨ k ≤ length (freed ++ (v ≫= leaf_blocks))) ∧
       ∀ a p bs, (a, p, bs) ∈ rest → leaf_at r' p a bs) ∧
    (∀ v' x, (v' ++ [x]) `prefix_of` v → length (freed ++ (v' ≫= leaf_blocks)) < k).
Proof.
  assert (∀ v' (x : Z * list Z * list nat), (v' ++ [x]) `prefix_of` [] → False) as Hnil.
  { intros v' x Hp%prefix_nil_inv. by destruct v'. }
  revert freed r. induction leaves as [|[[a p] bs] leaves IH]; intros freed r Hwf Hnd Hin;
    cbn [RadixPrefixCache.evict_filter_loop].
  { exists [], r. rewrite app_nil_r. split_and!; [done|by apply shrinks_refl|..].
    - exists []. split_and!; [done|by left|]. by intros ??? ?%elem_of_nil.
    - by intros v' x ?%Hnil. }
  csimpl in Hnd. apply NoDup_cons in Hnd as [Hp Hnd]. case_decide as Hk.
  { exists [], r. rewrite app_nil_r. split_and!; [done|by apply shrinks_refl|..].
    - exists (filter (λ l, keep (leaf_blocks l) = true) ((a, p, bs) :: leaves)).
      split_and!; [done|by right|]. intros a2 p2 bs2 [_ ?]%list_elem_of_filter. auto.
    - by intros v' x ?%Hnil. }
  rewrite filter_cons. change (leaf_blocks (a, p, bs)) with bs.
  destruct (keep bs) eqn:Hkeep.
  - rewrite decide_True by done.
    destruct (remove_path_shrinks r p a bs) as (Hsh & _ & Hpres); [done|apply Hin; left|].
    destruct (IH (freed ++ bs) (remove_path r p).2)
      as (v & r' & -> & Hsh' & (rest & -> & Hrest & Hrl) & Hshort); [apply Hsh|done|..].
    { intros a2 p2 bs2 Hl2. apply Hpres; [|apply Hin; by right]. intros ->.
      apply Hp, list_elem_of_fmap. by exists (a2, p, bs2). }
    exists ((a, p, bs) :: v), r'. simpl. unfold leaf_blocks at 1. simpl.
    rewrite app_assoc. split_and!; [done|by eapply shrinks_trans|..].
    + exists rest. done.
    + intros v' x Hpre. destruct v' as [|y v']; [simpl; rewrite app_nil_r; lia|].
      simpl in Hpre. pose proof (prefix_cons_inv_1 _ _ _ _ Hpre) as ->.
      apply prefix_cons_inv_2 in Hpre. specialize (Hshort _ _ Hpre). simpl.
      unfold leaf_blocks at 1. simpl. by rewrite app_assoc.
  - rewrite decide_False by done.
    apply IH; [done|done|]. intros. apply Hin. by right.
Qed.

Lemma evict_filter_ok c k keep freed c' :
  wf_node (root c) → RadixPrefixCache.evict_filter k keep c = (freed, c') →
  ∃ v rest, candidates keep (root c) = v ++ rest ∧ freed = v ≫= leaf_blocks ∧
    shrinks (root c) freed (root c') ∧ c' = set_root (root c') c ∧
    (rest = [] ∨ k ≤ length freed) ∧
    (∀ a p bs, (a, p, bs) ∈ rest → leaf_at (root c') p a bs) ∧
    ∀ v' x, (v' ++ [x]) `prefix_of` v → length (v' ≫= leaf_blocks) < k.
Proof.
  intros Hwf. unfold RadixPrefixCache.evict_filter.
  set (leaves := sort_by_key _ _).
  assert (leaves ≡ₚ collect_leaves (root c) []) as Hperm by apply sort_by_key_perm.
  destruct (evict_filter_loop_spec k keep leaves [] (root c))
    as (v & r' & -> & Hsh & (rest & Hc & Hrest & Hin) & Hshort); [done|..].
  - rewrite Hperm. by apply collect_leaves_nodup.
  - intros a p bs. rewrite Hperm. intros (p' & -> & ?)%collect_leaves_sound; done.
  - intros [= <- <-]. exists v, rest. split_and!; done.
Qed.

Lemma evict_ok n c k :
  radix_ok n c → (Z.of_nat n < u64_max)%Z →
  ∃ freed c', RadixPrefixCache.evict k c = Ret (freed, c') ∧
    shrinks (root c) freed (root c') ∧ c' = set_root (root c') c ∧
    (k ≤ length freed ∨ children (root c') = []).
Proof.
  intros Hok Hn. destruct (ok_clock _ _ Hok) as [_ Hacc]; [lia|].
  unfold RadixPrefixCache.evict.
  destruct (evict_loop_spec (S (count_nodes (root c))) k (Z.of_nat n) [] (root c))
    as (freed & r' & -> & Hsh & Hend); [apply Hok|done|done|lia|].
  eexists _, _. split; [done|]. done.
Qed.

Lemma radix_ok_shrinks n c freed r' :
  radix_ok n c → shrinks (root c) freed r' → radix_ok n (set_root r' c).
Proof.
  intros [Hw (?&?&?) Hcol Hck] [Hw' (?&?&?) _ _ Ha]. split; simpl; [done|split_and!; congruence|done|].
  intros Hn. destruct (Hck Hn). auto.
Qed.

Lemma evict_loop_shrinks fuel k freed r out r' :
  wf_node r → RadixPrefixCache.evict_loop fuel k freed r = Ret (out, r') →
  ∃ more, shrinks r more r'.
Proof.
  revert freed r. induction fuel as [|fuel IH]; intros freed r Hwf; simpl;
    (case_decide; [|intros [= <- <-]; exists []; by apply shrinks_refl]); [done|].
  destruct (find_lru_leaf r) as [[p bs]|] eqn:Hlru;
    [|intros [= <- <-]; exists []; by apply shrinks_refl].
  destruct (find_lru_leaf_sound r p bs Hwf Hlru) as [a Ha].
  destruct (remove_path_shrinks r p a bs Hwf Ha) as (Hsh & _ & _).
  intros [more ?]%IH; [|apply Hsh]. exists (bs ++ more). by eapply shrinks_trans.
Qed.

Lemma radix_reach_ok n c : radix_reach n c → radix_ok n c.
Proof.
  induction 1 as [|n c toks blks c' _ IH Hop|n c toks res c' _ IH Hop
                 |n c k freed c' _ IH Hop|n c k keep freed c' _ IH Hop].
  - split; [apply wf_new|done|done|]. intros _. split; [done|]. apply accessed_leaf.
  - destruct (decide (length toks = length blks * BLOCK_SIZE)) as [Hlen|Hlen].
    + destruct (insert_ok n c toks blks IH Hlen) as (c2 & Hc2 & ? & _). congruence.
    + unfold RadixPrefixCache.insert in Hop. by rewrite decide_False in Hop.
  - destruct (lookup_ok n c toks IH) as (r2 & c2 & m & Hc2 & ? & _). congruence.
  - unfold RadixPrefixCache.evict in Hop.
    apply bind_Ret_inv in Hop as ([out r'] & Hl & [= <- <-]).
    apply evict_loop_shrinks in Hl as [more Hsh]; [|apply IH]. by eapply radix_ok_shrinks.
  - destruct (evict_filter_ok c k keep freed c') as (v & rest & _ & _ & Hsh & -> & _);
      [apply IH|done|]. by eapply radix_ok_shrinks.
Qed.

Lemma check_hashes_wf n :
  wf_node n → token_hash n = hash_tokens (tokens n) → check_hashes n = true.
Proof.
  induction n as [n IH] using RadixNode_nested_ind. intros Hwf Hh.
  inversion Hwf as [n' Hnd Hed Hch]; subst. destruct n as [t b cs a h]. simpl in *.
  rewrite decide_True by done. clear Hnd Hwf Hh. induction cs as [|[k c] cs IHc]; [done|].
  apply Forall_cons in IH as [IHk IH]. simpl in IHk. rewrite IHk; simpl.
  - apply IHc; [done|..]; intros; eauto using list_elem_of_further.
  - eapply Hch. left.
  - eapply edge_hash, Hed. left.
Qed.

(** ** The theorems *)

(** C3: on every reachable cache, an insertion of whole blocks returns, and the
    set of token sequences the tree holds becomes exactly the old one together
    with the prefixes of the inserted sequence; an insertion whose token count
    is not the block count times [BLOCK_SIZE] panics. *)
Theorem radix_insert n c toks blks :
  radix_reach n c →
  if decide (length toks = length blks * BLOCK_SIZE) then
    ∃ c', RadixPrefixCache.insert toks blks c = Ret c' ∧
      ∀ l, in_tree (root c') l ↔ in_tree (root c) l ∨ l `prefix_of` toks
  else RadixPrefixCache.insert toks blks c = Panic.
Proof.
  intros Hok%radix_reach_ok. case_decide as Hlen.
  - destruct (insert_ok n c toks blks Hok Hlen) as (c' & ? & _ & ?). eauto.
  - unfold RadixPrefixCache.insert. by rewrite decide_False.
Qed.

(** On every reachable cache a lookup returns: it reports the length of the
    longest prefix of the query the tree holds (a miss when that is empty),
    never takes a node for a hash collision, leaves the set of sequences alone,
    and [verify_hashes] holds. *)
Theorem radix_lookup n c toks :
  radix_reach n c →
  RadixPrefixCache.verify_hashes c = true ∧
  ∃ res c' m, RadixPrefixCache.lookup toks c = Ret (res, c') ∧
    longest_match (root c) toks m ∧ fst <$> res = (if decide (0 < m) then Some m else None) ∧
    hash_collisions c' = 0%Z ∧ ∀ l, in_tree (root c') l ↔ in_tree (root c) l.
Proof.
  intros Hok%radix_reach_ok. split.
  - destruct (ok_root _ _ Hok) as (Ht & _ & ?). apply check_hashes_wf; [apply Hok|congruence].
  - destruct (lookup_ok n c toks Hok) as (res & c' & m & ? & Hok' & ? & ? & ?).
    exists res, c', m. split_and!; try done. apply Hok'.
Qed.

(** [evict_filter k keep] frees the blocks of the leaves that satisfy
    [keep], oldest access first, and stops as soon as at least [k] blocks are
    free; the leaves it passes over stay.  The freed blocks and those left in
    the tree are together those of the tree before, and no sequence appears. *)
Theorem radix_evict_filter n c k keep freed c' :
  radix_reach n c → RadixPrefixCache.evict_filter k keep c = (freed, c') →
  ∃ victims rest,
    (∀ a p bs, (a, p, bs) ∈ victims ++ rest ↔ leaf_at (root c) p a bs ∧ keep bs = true) ∧
    (∀ x y, x ∈ victims → y ∈ rest → (leaf_access x ≤ leaf_access y)%Z) ∧
    freed = victims ≫= leaf_blocks ∧
    (rest = [] ∨ k ≤ length freed) ∧
    (∀ v x, (v ++ [x]) `prefix_of` victims → length (v ≫= leaf_blocks) < k) ∧
    (∀ a p bs, (a, p, bs) ∈ rest → leaf_at (root c') p a bs) ∧
    all_blocks (root c) ≡ₚ freed ++ all_blocks (root c') ∧
    (∀ l, in_tree (root c') l → in_tree (root c) l).
Proof.
  intros Hok%radix_reach_ok Hev.
  destruct (evict_filter_ok c k keep freed c') as (v & rest & Hcand & -> & Hsh & _ & ? & ? & ?);
    [apply Hok|done|].
  exists v, rest. split_and!; try done; [..|apply Hsh|apply Hsh].
  - intros a p bs. rewrite <- Hcand. unfold candidates.
    rewrite list_elem_of_filter, (sort_by_key_perm leaf_access). unfold leaf_blocks. simpl. split.
    + intros [? (p' & -> & ?)%collect_leaves_sound]; [done|apply Hok].
    + intros [Hl ?]. split; [done|]. by apply (collect_leaves_complete _ _ _ _ Hl []).
  - intros x y. apply sorted_app_le. rewrite <- Hcand.
    apply sorted_filter, sort_by_key_sorted.
Qed.

(** Fewer than [u64::MAX] insertions and lookups after the start, [evict k]
    terminates, and either frees [k] blocks or empties the tree; the freed
    blocks and those left are together those of the tree before, and no
    sequence appears. *)
Theorem radix_evict n c k :
  radix_reach n c → (Z.of_nat n < u64_max)%Z →
  ∃ freed c', RadixPrefixCache.evict k c = Ret (freed, c') ∧
    (k ≤ length freed ∨ children (root c') = []) ∧
    all_blocks (root c) ≡ₚ freed ++ all_blocks (root c') ∧
    (∀ l, in_tree (root c') l → in_tree (root c) l).
Proof.
  intros Hok%radix_reach_ok Hn.
  destruct (evict_ok n c k Hok Hn) as (freed & c' & ? & Hsh & _ & ?).
  exists freed, c'. split_and!; try done; apply Hsh.
Qed.

(** ** Concrete runs *)

(** The tokens [a, a+1, ..., a+n-1]. *)
Definition toks_from (a : Z) (n : nat) : list Z := seqZ a (Z.of_nat n).

Definition after_insert (toks : list Z) (blks : list nat) (c : RadixPrefixCache)
    : RadixPrefixCache :=
  match RadixPrefixCache.insert toks blks c with Ret c' => c' | Panic => c end.

Lemma reach_after_insert n c toks blks :
  radix_reach n c → length toks = length blks * BLOCK_SIZE →
  radix_reach (S n) (after_insert toks blks c).
Proof.
  intros Hr Hlen. destruct (insert_ok n c toks blks) as (c' & Heq & _);
    [by apply radix_reach_ok|done|].
  eapply reach_insert; [done|]. unfold after_insert. by rewrite Heq.
Qed.

(** Two sequences that share their first block. *)
Definition ex_cache : RadixPrefixCache :=
  after_insert (toks_from 0 16 ++ toks_from 100 16) [1; 3]
    (after_insert (toks_from 0 32) [1; 2] RadixPrefixCache.new).

Lemma ex_cache_reach : radix_reach 2 ex_cache.
Proof. apply reach_after_insert; [apply reach_after_insert; [apply reach_new|]|]; done. Qed.

(** Two cached sequences that diverge inside a block corrupt the tree: the
    split leaves the block on neither half, an insertion through the split
    node keeps the blocks it should have dropped, and a lookup of the 32 tokens
    that were inserted with the blocks 7 and 8 is served the three blocks 1, 7
    and 8, of which 1 belongs to another sequence. *)
Theorem radix_misaligned_split :
  let A := toks_from 0 16 in
  let B := toks_from 0 5 ++ toks_from 100 11 in
  let C := A ++ toks_from 200 16 in
  (c ← RadixPrefixCache.insert A [1] RadixPrefixCache.new;
   c ← RadixPrefixCache.insert B [2] c;
   c ← RadixPrefixCache.insert C [7; 8] c;
   '(res, _) ← RadixPrefixCache.lookup C c; Ret res) = Ret (Some (32, [1; 7; 8])).
Proof. vm_compute. reflexivity. Qed.

(** [evict] is not least recently used across the tree.  A leaf that hangs
    directly under the root goes first although a leaf under an inner node was
    accessed before it. *)
Theorem radix_evict_not_global_lru :
  ∃ c, radix_reach 3 c ∧
    leaf_at (root c) [0; 100]%Z 2 [3] ∧ leaf_at (root c) [50]%Z 3 [9] ∧
    ∃ c', RadixPrefixCache.evict 1 c = Ret ([9], c').
Proof.
  exists (after_insert (toks_from 50 16) [9] ex_cache).
  assert (radix_reach 3 (after_insert (toks_from 50 16) [9] ex_cache)) as Hr
    by by apply reach_after_insert; [apply ex_cache_reach|].
  assert (collect_leaves (root (after_insert (toks_from 50 16) [9] ex_cache)) []
          = [(1%Z, [0; 16]%Z, [2]); (2%Z, [0; 100]%Z, [3]); (3%Z, [50]%Z, [9])]) as Hl
    by (vm_compute; reflexivity).
  assert (∀ a p bs, (a, p, bs) ∈ collect_leaves (root (after_insert (toks_from 50 16) [9] ex_cache)) [] →
            leaf_at (root (after_insert (toks_from 50 16) [9] ex_cache)) p a bs) as Hleaf.
  { intros a p bs (p' & -> & ?)%collect_leaves_sound; [done|apply (radix_reach_ok _ _ Hr)]. }
  rewrite Hl in Hleaf. split_and!; [done|apply Hleaf; set_solver..|].
  eexists. vm_compute. reflexivity.
Qed.

Lemma radix_insert_witness :
  ∃ c', RadixPrefixCache.insert (toks_from 0 48) [1; 2; 5] ex_cache = Ret c' ∧
    ∀ l, in_tree (root c') l ↔ in_tree (root ex_cache) l ∨ l `prefix_of` toks_from 0 48.
Proof. exact (radix_insert 2 ex_cache (toks_from 0 48) [1; 2; 5] ex_cache_reach). Defined.

Lemma radix_lookup_witness :
  ∃ c' m, RadixPrefixCache.lookup (toks_from 0 40) ex_cache = Ret (Some (32, [1; 2]), c') ∧
    longest_match (root ex_cache) (toks_from 0 40) m.
Proof.
  destruct (proj2 (radix_lookup 2 ex_cache (toks_from 0 40) ex_cache_reach))
    as (res & c' & m & Heq & Hm & _).
  exists c', m. split; [|exact Hm]. rewrite Heq.
  assert (('(res, _) ← RadixPrefixCache.lookup (toks_from 0 40) ex_cache; Ret res)
          = Ret (Some (32, [1; 2])))
    as Hres by (vm_compute; reflexivity).
  rewrite Heq in Hres. simpl in Hres. injection Hres as ->. reflexivity.
Defined.

Lemma radix_evict_filter_witness :
  let freed := (RadixPrefixCache.evict_filter 1 (λ bs, bool_decide (2 ∉ bs)) ex_cache).1 in
  freed = [3] ∧
  ∃ c', all_blocks (root ex_cache) ≡ₚ freed ++ all_blocks (root c').
Proof.
  split; [vm_compute; reflexivity|].
  destruct (radix_evict_filter 2 ex_cache 1 (λ bs, bool_decide (2 ∉ bs)) _ _ ex_cache_reach
              (surjective_pairing _)) as (v & rest & _ & _ & _ & _ & _ & _ & Hb & _).
  eexists. exact Hb.
Defined.

Lemma radix_evict_witness :
  ∃ freed c', RadixPrefixCache.evict 2 ex_cache = Ret (freed, c') ∧
    (2 ≤ length freed ∨ children (root c') = []) ∧
    all_blocks (root ex_cache) ≡ₚ freed ++ all_blocks (root c').
Proof.
  destruct (radix_evict 2 ex_cache 2 ex_cache_reach) as (freed & c' & H1 & H2 & H3 & _); [done|].
  exists freed, c'. split; [exact H1|]. split; [exact H2|exact H3].
Defined.
