(* ===== verification/Model.v ===== *)
(** * Model: sampling parameters, the model interface and the mock model

    [crates/justapi-inference/src/model.rs].  The [Model] trait is a type
    class; generation runs in a small monad [gen] that keeps the tokens already
    handed to the sink when a model fails or panics. *)

From S2P Require Import Prelude F32.

(** ** Data *)

Record SamplingParams := mk_params {
  max_tokens : Z;
  temperature : f32;
  top_p : f32;
  top_k : Z;
  stop_tokens : list Z;
  stop_sequences : list string }.

Definition SamplingParams_default : SamplingParams :=
  mk_params 256 f32_one f32_one 0 [] [].

Inductive FinishReason := Length | Stop | Cancelled.

Record GeneratedToken := mk_token {
  tok_id : Z;
  tok_text : list Z;
  tok_logprob : f32;
  tok_finish : option FinishReason }.

Inductive ModelError :=
| NotFound (name : string)
| FeatureRequired (feature : string)
| NotImplemented
| Generation (msg : string)
| Io (msg : string).

#[export] Instance FinishReason_eq_dec : EqDecision FinishReason.
Proof. solve_decision. Defined.

(** ** The effects of a generation

    [Fail] is an [Err] passed on by [?]; [Crash] is a panic. *)

Inductive outcome (A : Type) := Done (a : A) | Fail (e : ModelError) | Crash.
Arguments Done {A} a.
Arguments Fail {A} e.
Arguments Crash {A}.

(** The state is the list of tokens delivered to the sink, oldest first. *)
Definition gen (A : Type) : Type :=
  list GeneratedToken → list GeneratedToken * outcome A.

#[export] Instance gen_ret : MRet gen := λ A a out, (out, Done a).
#[export] Instance gen_bind : MBind gen := λ A B k m out,
  match m out with
  | (out', Done a) => k a out'
  | (out', Fail e) => (out', Fail e)
  | (out', Crash) => (out', Crash)
  end.

(** A model call streams nothing by itself. *)
Definition lift {A} (o : outcome A) : gen A := λ out, (out, o).

(** [sink(token)]: the closure may remember what it was given before, so its
    answer depends on the tokens delivered so far. *)
Definition Sink : Type := list GeneratedToken → GeneratedToken → bool.

Definition emit (sink : Sink) (t : GeneratedToken) : gen bool :=
  λ out, (out ++ [t], Done (sink out t)).

(** Two generations are equivalent when they deliver the same tokens and end the
    same way from every stream. *)
#[export] Instance gen_equiv A : Equiv (gen A) := λ m1 m2, ∀ out, m1 out = m2 out.

#[export] Instance gen_equivalence A : Equivalence (≡@{gen A}).
Proof.
  split; [done|by intros m1 m2 Hm out|].
  intros m1 m2 m3 H1 H2 out. by rewrite (H1 out).
Qed.

#[export] Instance gen_bind_proper A B :
  Proper (pointwise_relation A (≡) ==> (≡) ==> (≡)) (gen_bind A B).
Proof.
  intros k1 k2 Hk m1 m2 Hm out. unfold gen_bind. rewrite (Hm out).
  destruct (m2 out) as [out' [a| |]]; [apply Hk|done|done].
Qed.

Lemma gen_bind_assoc {A B C} (m : gen A) (k : A → gen B) (k' : B → gen C) :
  (m ≫= k) ≫= k' ≡ m ≫= λ a, k a ≫= k'.
Proof.
  intros out. unfold mbind, gen_bind. by destruct (m out) as [out' [a| |]].
Qed.

Lemma gen_bind_ret {A B} (a : A) (k : A → gen B) : mret a ≫= k ≡ k a.
Proof. done. Qed.

Lemma gen_bind_done {A B} (a : A) (k : A → gen B) : lift (Done a) ≫= k ≡ k a.
Proof. done. Qed.

Lemma gen_bind_ext {A B} (m : gen A) (k1 k2 : A → gen B) :
  (∀ a, k1 a ≡ k2 a) → m ≫= k1 ≡ m ≫= k2.
Proof. intros Hk. by apply gen_bind_proper. Qed.

(** [ends m out Q]: from the stream [out], [m] neither fails nor panics, and [Q]
    holds of its value and of the stream it leaves. *)
Definition ends {A} (m : gen A) (out : list GeneratedToken)
    (Q : A → list GeneratedToken → Prop) : Prop :=
  match m out with (out', Done a) => Q a out' | _ => False end.

Lemma ends_ret {A} (a : A) out (Q : A → _ → Prop) : Q a out → ends (mret a) out Q.
Proof. done. Qed.

Lemma ends_bind {A B} (m : gen A) (k : A → gen B) out (P : A → _ → Prop) Q :
  ends m out P → (∀ a out', P a out' → ends (k a) out' Q) → ends (m ≫= k) out Q.
Proof.
  unfold ends, mbind, gen_bind. destruct (m out) as [out' [a| |]]; naive_solver.
Qed.

Lemma ends_emit {B} sink t (k : bool → gen B) out Q :
  ends (k (sink out t)) (out ++ [t]) Q → ends (emit sink t ≫= k) out Q.
Proof. done. Qed.

Lemma ends_equiv {A} (m m' : gen A) out Q : m ≡ m' → ends m' out Q → ends m out Q.
Proof. intros Hm. unfold ends. by rewrite (Hm out). Qed.

Lemma ends_mono {A} (m : gen A) out (Q Q' : A → _ → Prop) :
  ends m out Q → (∀ a out', Q a out' → Q' a out') → ends m out Q'.
Proof. unfold ends. destruct (m out) as [out' [a| |]]; naive_solver. Qed.

Class Model (M : Type) := {
  vocab_size : M → Z;
  generate : M → list Z → SamplingParams → Sink → gen FinishReason;
  forward_logits : M → list Z → outcome (list f32) }.

(** ** The mock model *)

Record MockModel := mk_mock { mock_vocab_size : Z }.

Module MockModel.

Definition new (vocab : Z) : MockModel := mk_mock (Z.max vocab 1).

Definition tokenize (text : list Z) : list Z := text.

(** The low byte of each id, as a character code. *)
Definition detokenize (ids : list Z) : list Z := (λ id, id mod u8_modulus)%Z <$> ids.

Definition last_or_zero (context : list Z) : Z := default 0%Z (last context).

(** [% vocab as u32]: a vocabulary size that is zero on 32 bits panics. *)
Definition vocab32 (m : MockModel) : Z := (mock_vocab_size m mod u32_modulus)%Z.

Definition forward_logits (m : MockModel) (context : list Z) : outcome (list f32) :=
  let vocab := Z.to_nat (mock_vocab_size m) in
  if decide (vocab32 m = 0%Z) then Crash
  else
    let prev := (last_or_zero context mod vocab32 m)%Z in
    let next := (wadd32 prev 1 mod vocab32 m)%Z in
    let logits := replicate vocab (f32_of_Z (-5)) in
    let logits := <[Z.to_nat next := f32_of_Z 5]> logits in
    let r := (wadd32 prev 3 mod vocab32 m)%Z in
    (* [logits[r] = 0.0] comes last: with two tokens it overwrites the peak *)
    Done (<[Z.to_nat r := f32_zero]> logits).

Definition decode_mock (id : Z) : list Z := [(97 + id mod 26)%Z].

(** The loop of [generate]: [n] tokens may still come. *)
Fixpoint generate_loop (m : MockModel) (params : SamplingParams) (sink : Sink)
    (n : nat) (prev : Z) : gen FinishReason :=
  match n with
  | 0 => mret Length
  | S n' =>
      if decide (vocab32 m = 0%Z) then lift Crash
      else
        let next := (wadd32 prev 1 mod vocab32 m)%Z in
        let stop := bool_decide (next ∈ stop_tokens params) in
        go ← emit sink (mk_token next (decode_mock next) f32_zero
                          (if stop then Some Stop else None));
        if negb go then mret Cancelled
        else if stop then mret Stop
        else generate_loop m params sink n' next
  end.

Definition generate (m : MockModel) (prompt : list Z) (params : SamplingParams) (sink : Sink)
    : gen FinishReason :=
  generate_loop m params sink (Z.to_nat (max_tokens params)) (last_or_zero prompt).

End MockModel.

#[export] Instance MockModel_Model : Model MockModel := {|
  Model.vocab_size := mock_vocab_size;
  Model.generate := MockModel.generate;
  Model.forward_logits := MockModel.forward_logits |}.
