(* ===== verification/SpecDecode.v ===== *)
(** * SpecDecode: sampling and draft-target speculative decoding

    [crates/justapi-inference/src/spec_decode.rs].  The random generator of
    the [rand] crate and the exponential, whose precision Rust leaves open, are
    the operations of a class. *)

From S2P Require Import Prelude F32 F64 Model.

#[local] Open Scope Z_scope.

(** ** What comes from outside *)

Class Entropy := {
  StdRng : Type;
  seed_from_u64 : Z → StdRng;
  gen_f32 : StdRng → f32 * StdRng;
  f32_exp : f32 → f32 }.

(** ** Data *)

Record AcceptanceStats := mk_acceptance {
  steps : Z; total_draft : Z; total_accepted : Z; extra_emitted : Z;
  tree_branch : Z; tree_nodes_verified : Z }.

Module AcceptanceStats.

Definition default : AcceptanceStats := mk_acceptance 0 0 0 0 0 0.
Definition with_tree_branch (branch : Z) : AcceptanceStats := mk_acceptance 0 0 0 0 branch 0.
Definition tokens_emitted (s : AcceptanceStats) : Z :=
  wadd64 (total_accepted s) (extra_emitted s).
Definition acceptance_rate (s : AcceptanceStats) : f64 :=
  if total_draft s =? 0 then f64_zero else f64_div (f64_of_Z (total_accepted s)) (f64_of_Z (total_draft s)).
Example rate_three_quarters : acceptance_rate (mk_acceptance 1 4 3 0 0 0) = f64_div (f64_of_Z 3) (f64_of_Z 4).
Proof. reflexivity. Qed.

Definition add_step (s : AcceptanceStats) : AcceptanceStats :=
  mk_acceptance (wadd64 (steps s) 1) (total_draft s) (total_accepted s) (extra_emitted s)
    (tree_branch s) (tree_nodes_verified s).
Definition add_draft (n : Z) (s : AcceptanceStats) : AcceptanceStats :=
  mk_acceptance (steps s) (wadd64 (total_draft s) n) (total_accepted s) (extra_emitted s)
    (tree_branch s) (tree_nodes_verified s).
Definition add_accepted (n : Z) (s : AcceptanceStats) : AcceptanceStats :=
  mk_acceptance (steps s) (total_draft s) (wadd64 (total_accepted s) n) (extra_emitted s)
    (tree_branch s) (tree_nodes_verified s).
Definition add_extra (s : AcceptanceStats) : AcceptanceStats :=
  mk_acceptance (steps s) (total_draft s) (total_accepted s) (wadd64 (extra_emitted s) 1)
    (tree_branch s) (tree_nodes_verified s).
Definition add_tree_nodes (n : Z) (s : AcceptanceStats) : AcceptanceStats :=
  mk_acceptance (steps s) (total_draft s) (total_accepted s) (extra_emitted s)
    (tree_branch s) (wadd64 (tree_nodes_verified s) n).

End AcceptanceStats.

(** ** Sampling *)

(** The constants [1e-7], [1e-6] and [1e-9] rounded to binary32. *)
Definition f32_1e_7 : f32 := f32_scaled 14073749 (-47).
Definition f32_1e_6 : f32 := f32_scaled 8796093 (-43).
Definition f32_1e_9 : f32 := f32_scaled 9007199 (-53).

(** [v[i]] at an index the code has bounded by the length. *)
Definition f32_at (l : list f32) (i : nat) : f32 := default f32_zero (l !! i).

Definition f32_sum (l : list f32) : f32 := foldl f32_add f32_zero l.

(** [x as u32] *)
Definition as_u32 (i : nat) : Z := Z.of_nat i mod u32_modulus.

(** The greedy branch: the last position of the largest logit. *)
Definition argmax (logits : list f32) : Z :=
  match max_by (λ a b, f32_cmp_or_eq a.2 b.2) (imap pair logits) with
  | Some (i, _) => as_u32 i
  | None => 0
  end.

Definition top_k_truncate (k : Z) (scaled : list f32) : list f32 :=
  let vocab := length scaled in
  if (0 <? k) && (k <? Z.of_nat vocab) then
    let idx := sort_by (λ a b, f32_cmp_or_eq (f32_at scaled b) (f32_at scaled a)) (seq 0 vocab) in
    let kth := f32_at scaled (default 0%nat (idx !! (Z.to_nat k `min` (vocab - 1))%nat)) in
    (λ s, if f32_lt s (f32_sub kth f32_1e_6) then f32_neg_infinity else s) <$> scaled
  else scaled.

(** The loop that accumulates probability mass until [top_p] is reached. *)
Fixpoint top_p_cutoff (probs : list f32) (sum p cum : f32) (order : list nat) : f32 :=
  match order with
  | [] => f32_one
  | i :: order' =>
      let cum := f32_add cum (f32_div (f32_at probs i) sum) in
      if f32_ge cum p then f32_div (f32_at probs i) sum
      else top_p_cutoff probs sum p cum order'
  end.

Definition top_p_truncate (p : f32) (probs : list f32) : list f32 :=
  let sum := f32_sum probs in
  if f32_lt p f32_one && f32_gt sum f32_zero then
    let order := sort_by (λ a b, f32_cmp_or_eq (f32_at probs b) (f32_at probs a))
                   (seq 0 (length probs)) in
    let cutoff := top_p_cutoff probs sum p f32_zero order in
    (λ q, if f32_lt (f32_div q sum) (f32_sub cutoff f32_1e_9) then f32_zero else q) <$> probs
  else probs.

(** The loop over the cumulative distribution. *)
Fixpoint pick (r sum2 cdf : f32) (i : nat) (probs : list f32) : option nat :=
  match probs with
  | [] => None
  | p :: probs' =>
      let cdf := f32_add cdf (f32_div p sum2) in
      if f32_lt r cdf then Some i else pick r sum2 cdf (S i) probs'
  end.

Section sampling.
Context `{Entropy}.

(** The probabilities after temperature, top-k, softmax and top-p. *)
Definition distribution (logits : list f32) (params : SamplingParams) : list f32 :=
  let inv := f32_div f32_one (f32_max (temperature params) f32_1e_7) in
  let scaled := (λ l, f32_mul l inv) <$> logits in
  let scaled := top_k_truncate (top_k params) scaled in
  let max := foldl f32_max f32_neg_infinity scaled in
  let probs := (λ s, f32_exp (f32_sub s max)) <$> scaled in
  top_p_truncate (top_p params) probs.

Definition sample_token (logits : list f32) (params : SamplingParams) (rng : StdRng)
    : Z * StdRng :=
  let vocab := length logits in
  match logits with
  | [] => (0, rng)
  | _ :: _ =>
      if f32_lt (temperature params) f32_1e_7 then (argmax logits, rng)
      else
        let probs := distribution logits params in
        let sum2 := f32_sum probs in
        if f32_le sum2 f32_zero then (as_u32 (vocab - 1), rng)
        else
          let '(r, rng) := gen_f32 rng in
          (as_u32 (default (vocab - 1)%nat (pick r sum2 f32_zero 0 probs)), rng)
  end.

(** ** Draft-target speculation *)

(** A token as every speculative generator streams it. *)
Definition spec_token (tok : Z) (finish : option FinishReason) : GeneratedToken :=
  mk_token tok (MockModel.detokenize [tok]) f32_zero finish.

(** How the verify phase of a step ends. *)
Inductive verify_end := Accepted | Rejected | SinkClosed.

#[export] Instance verify_end_eq_dec : EqDecision verify_end.
Proof. solve_decision. Defined.

Record spec_state := mk_spec {
  context : list Z; emitted : Z; stats : AcceptanceStats; rng : StdRng }.

Section generate.
Context {T D : Type} `{!Model T, !Model D} (target : T) (draft : D).
Context (params : SamplingParams) (sink : Sink).

(** The draft phase: at most [n] further tokens. *)
Fixpoint draft_loop (n : nat) (emitted : Z) (draft_tokens dctx : list Z) (rng : StdRng)
    : gen (list Z * StdRng) :=
  match n with
  | O => mret (draft_tokens, rng)
  | S n' =>
      if max_tokens params <=? emitted + Z.of_nat (length draft_tokens)
      then mret (draft_tokens, rng)
      else
        logits ← lift (forward_logits draft dctx);
        let '(tok, rng) := sample_token logits params rng in
        if bool_decide (tok ∈ stop_tokens params) then mret (draft_tokens, rng)
        else draft_loop n' emitted (draft_tokens ++ [tok]) (dctx ++ [tok]) rng
  end.

(** The verify phase: [context] is the [tctx] of the code. *)
Fixpoint verify_loop (draft_tokens : list Z) (st : spec_state)
    : gen (verify_end * spec_state) :=
  match draft_tokens with
  | [] => mret (Accepted, st)
  | dtok :: draft_tokens' =>
      tlogits ← lift (forward_logits target (context st));
      let '(ttok, rng) := sample_token tlogits params (rng st) in
      let stats := if decide (ttok = dtok) then AcceptanceStats.add_accepted 1 (stats st)
                   else stats st in
      go ← emit sink (spec_token ttok None);
      let st := mk_spec (context st) (emitted st) stats rng in
      if negb go then mret (SinkClosed, st)
      else
        let st := mk_spec (context st ++ [ttok]) (emitted st + 1) stats rng in
        if decide (ttok = dtok) then verify_loop draft_tokens' st
        else mret (Rejected, st)
  end.

(** The token the target adds after a fully accepted block; [None] when the
    outer loop goes on. *)
Definition bonus_step (st : spec_state) : gen (option FinishReason * spec_state) :=
  if emitted st <? max_tokens params then
    tlogits ← lift (forward_logits target (context st));
    let '(ttok, rng) := sample_token tlogits params (rng st) in
    let stop := bool_decide (ttok ∈ stop_tokens params) in
    go ← emit sink (spec_token ttok (if stop then Some Stop else None));
    if negb go then mret (Some Cancelled, mk_spec (context st) (emitted st) (stats st) rng)
    else
      mret (if stop then Some Stop else None,
            mk_spec (context st ++ [ttok]) (emitted st + 1)
              (AcceptanceStats.add_extra (stats st)) rng)
  else mret (None, st).

(** One turn of the outer loop with [gamma] proposals. *)
Definition spec_step (gamma : nat) (st : spec_state) : gen (option FinishReason * spec_state) :=
  '(draft_tokens, rng) ← draft_loop gamma (emitted st) [] (context st) (rng st);
  let stats := AcceptanceStats.add_draft (Z.of_nat (length draft_tokens))
                 (AcceptanceStats.add_step (stats st)) in
  '(e, st) ← verify_loop draft_tokens (mk_spec (context st) (emitted st) stats rng);
  match e with
  | SinkClosed => mret (Some Cancelled, st)
  | Rejected => mret (None, st)
  | Accepted => bonus_step st
  end.

Fixpoint spec_loop (fuel gamma : nat) (st : spec_state)
    : gen (FinishReason * AcceptanceStats) :=
  if emitted st <? max_tokens params then
    match fuel with
    | O => lift Crash
    | S fuel' =>
        '(finish, st) ← spec_step gamma st;
        match finish with
        | Some f => mret (f, stats st)
        | None => spec_loop fuel' gamma st
        end
    end
  else mret (Length, stats st).

Definition speculative_generate (prompt : list Z) (gamma : nat) (seed : Z)
    : gen (FinishReason * AcceptanceStats) :=
  spec_loop (Z.to_nat (max_tokens params)) gamma
    (mk_spec prompt 0 AcceptanceStats.default (seed_from_u64 seed)).

End generate.
End sampling.

(** ** The model that speculates *)

Record SpeculativeConfig (D : Type) := mk_spec_config {
  cfg_gamma : nat; cfg_draft : D; cfg_seed : Z }.
Arguments mk_spec_config {D}.
Arguments cfg_gamma {D}.
Arguments cfg_draft {D}.
Arguments cfg_seed {D}.

Record SpeculativeModel (T D : Type) := mk_speculative {
  spec_target : T; spec_config : SpeculativeConfig D }.
Arguments mk_speculative {T D}.
Arguments spec_target {T D}.
Arguments spec_config {T D}.

#[export] Instance SpeculativeModel_Model `{Entropy} {T D} `{!Model T, !Model D}
    : Model (SpeculativeModel T D) := {|
  Model.vocab_size m := Model.vocab_size (spec_target m);
  Model.generate m prompt params sink :=
    '(finish, _) ← speculative_generate (spec_target m) (cfg_draft (spec_config m)) params sink
                     prompt (cfg_gamma (spec_config m)) (cfg_seed (spec_config m));
    mret finish;
  Model.forward_logits m := Model.forward_logits (spec_target m) |}.

(** ** Plain decoding

    What the speculative schemes promise to reproduce: one token of the target
    at a time. *)

Section plain.
Context `{Entropy} {T : Type} `{!Model T} (target : T).
Context (params : SamplingParams) (sink : Sink).

Fixpoint plain_loop (n : nat) (ctx : list Z) (rng : StdRng) : gen FinishReason :=
  match n with
  | O => mret Length
  | S n' =>
      logits ← lift (forward_logits target ctx);
      let '(tok, rng) := sample_token logits params rng in
      let stop := bool_decide (tok ∈ stop_tokens params) in
      go ← emit sink (spec_token tok (if stop then Some Stop else None));
      if negb go then mret Cancelled
      else if stop then mret Stop
      else plain_loop n' (ctx ++ [tok]) rng
  end.

Definition plain_generate (prompt : list Z) (seed : Z) : gen FinishReason :=
  plain_loop (Z.to_nat (max_tokens params)) prompt (seed_from_u64 seed).

(** Sampling is greedy below the temperature [1e-7]. *)
Definition greedy : Prop := f32_lt (temperature params) f32_1e_7 = true.

Lemma sample_greedy logits rng :
  greedy → sample_token logits params rng = (argmax logits, rng).
Proof. intros Hg. unfold sample_token. destruct logits; [done|]. by rewrite Hg. Qed.

Lemma plain_loop_greedy n ctx rng rng' :
  greedy → plain_loop n ctx rng ≡ plain_loop n ctx rng'.
Proof.
  intros Hg. revert ctx. induction n as [|n IH]; intros ctx; simpl; [done|].
  apply gen_bind_ext. intros logits. rewrite !sample_greedy by done.
  apply gen_bind_ext. intros []; simpl; [|done]. by case_match.
Qed.
End plain.

(** The result of a run without its statistics. *)
Definition finish_of {A B} (m : gen (A * B)) : gen A := '(a, _) ← m; mret a.

Lemma finish_of_bind {A B C} (m : gen C) (k : C → gen (A * B)) :
  finish_of (m ≫= k) ≡ m ≫= λ c, finish_of (k c).
Proof. apply gen_bind_assoc. Qed.

Section lossless.
Context `{Entropy} {T D : Type} `{!Model T, !Model D} (target : T) (draft : D).
Context (params : SamplingParams) (sink : Sink).

(** The tokens still to be generated. *)
Definition left_over (st : spec_state) : nat := Z.to_nat (max_tokens params - emitted st).

(** A model that answers for every context. *)
Definition total_model {M} `{!Model M} (m : M) : Prop :=
  ∀ ctx, ∃ logits, forward_logits m ctx = Done logits.

(** The draft phase proposes at most what is left to generate. *)
Lemma draft_loop_total n em toks dctx rng :
  total_model draft → Z.of_nat (length toks) + em ≤ max_tokens params →
  ∃ toks' rng', draft_loop draft params n em toks dctx rng ≡ mret (toks', rng') ∧
    Z.of_nat (length toks') + em ≤ max_tokens params.
Proof.
  intros Ht. revert toks dctx rng. induction n as [|n IH]; intros toks dctx rng Hle;
    [by exists toks, rng|].
  cbn [draft_loop]. destruct (Z.leb_spec (max_tokens params) (em + Z.of_nat (length toks)));
    [by exists toks, rng|].
  destruct (Ht dctx) as [logits ->].
  destruct (sample_token logits params rng) as [tok rng'] eqn:Hs.
  destruct (bool_decide (tok ∈ stop_tokens params)) eqn:Hb.
  - exists toks, rng'. split; [|done]. intros out. unfold lift, mbind, gen_bind. by rewrite Hs, Hb.
  - destruct (IH (toks ++ [tok]) (dctx ++ [tok]) rng') as (toks' & rng2 & Heq & Hle');
      [rewrite length_app; simpl; lia|].
    exists toks', rng2. split; [|done]. intros out. rewrite <- (Heq out).
    unfold lift, mbind, gen_bind. by rewrite Hs, Hb.
Qed.

Hypothesis Hgreedy : greedy params.
Hypothesis Hstop : stop_tokens params = [].

Lemma no_stop tok : bool_decide (tok ∈ stop_tokens params) = false.
Proof. rewrite Hstop. apply bool_decide_eq_false, not_elem_of_nil. Qed.

(** Verifying a block and going on as [k] is plain decoding, if [k] is plain
    decoding from every state the block may end in. *)
Lemma verify_plain draft_tokens st r (k : verify_end * spec_state → gen FinishReason) :
  (length draft_tokens ≤ left_over st)%nat →
  (∀ v st', v ≠ SinkClosed → (left_over st' ≤ left_over st)%nat →
     (v = Rejected → (left_over st' < left_over st)%nat) →
     k (v, st') ≡ plain_loop target params sink (left_over st') (context st') r) →
  (∀ st', k (SinkClosed, st') ≡ mret Cancelled) →
  verify_loop target params sink draft_tokens st ≫= k
    ≡ plain_loop target params sink (left_over st) (context st) r.
Proof.
  revert st. induction draft_tokens as [|dtok toks IH]; intros st Hlen Hk Hc; simpl.
  - rewrite gen_bind_ret. by apply Hk.
  - assert (∃ n, left_over st = S n) as [n Hn] by (exists (pred (left_over st)); simpl in *; lia).
    rewrite Hn. simpl. rewrite gen_bind_assoc. apply gen_bind_ext. intros logits.
    rewrite !sample_greedy by done. rewrite no_stop, gen_bind_assoc.
    apply gen_bind_ext. intros [|]; simpl; [|by rewrite gen_bind_ret].
    set (st' := mk_spec (context st ++ [argmax logits]) (emitted st + 1) _ (rng st)).
    assert (left_over st' = n) as Hn' by (unfold left_over in *; simpl; lia).
    destruct (decide (argmax logits = dtok)).
    + rewrite <- Hn'. apply IH; [simpl in Hlen; lia|..|done].
      intros v st2 He Hle Hrej. apply Hk; [done|lia|]. intros Hr. specialize (Hrej Hr). lia.
    + rewrite gen_bind_ret, <- Hn'. apply Hk; [done|lia|lia].
Qed.

(** The step after an accepted block goes on plainly. *)
Lemma bonus_plain st r (k : option FinishReason * spec_state → gen FinishReason) :
  (∀ st', left_over st' = 0%nat ∨ (left_over st' < left_over st)%nat →
     k (None, st') ≡ plain_loop target params sink (left_over st') (context st') r) →
  (∀ f st', k (Some f, st') ≡ mret f) →
  bonus_step target params sink st ≫= k
    ≡ plain_loop target params sink (left_over st) (context st) r.
Proof.
  intros Hk Hf. unfold bonus_step. destruct (Z.ltb_spec (emitted st) (max_tokens params)).
  - assert (∃ n, left_over st = S n) as [n Hn]
      by (exists (pred (left_over st)); unfold left_over in *; lia).
    rewrite Hn. simpl. rewrite gen_bind_assoc. apply gen_bind_ext. intros logits.
    rewrite !sample_greedy by done. rewrite no_stop, gen_bind_assoc.
    apply gen_bind_ext. intros [|]; simpl; rewrite gen_bind_ret; [|apply Hf].
    set (st' := mk_spec _ _ _ _).
    assert (left_over st' = n) as Hn' by (unfold left_over in *; simpl; lia).
    rewrite <- Hn'. apply Hk. right. lia.
  - rewrite gen_bind_ret. apply Hk. left. unfold left_over. lia.
Qed.

Lemma spec_loop_plain fuel gamma st r :
  total_model draft → (left_over st ≤ fuel)%nat →
  finish_of (spec_loop target draft params sink fuel gamma st)
    ≡ plain_loop target params sink (left_over st) (context st) r.
Proof.
  intros Ht. revert st. induction fuel as [|fuel IH]; intros st Hf; simpl;
    destruct (Z.ltb_spec (emitted st) (max_tokens params)) as [Hlt|Hge].
  1: { unfold left_over in Hf. lia. }
  2: { unfold spec_step. rewrite finish_of_bind, gen_bind_assoc.
    destruct (draft_loop_total gamma (emitted st) [] (context st) (rng st) Ht)
      as (toks & rng' & -> & Hlen); [simpl; lia|].
    rewrite gen_bind_ret, gen_bind_assoc.
    set (st1 := mk_spec (context st) (emitted st) _ rng').
    change (context st) with (context st1). change (left_over st) with (left_over st1).
    assert (left_over st1 ≤ S fuel)%nat as Hf1 by done.
    apply verify_plain.
    - unfold left_over. simpl in *. lia.
    - intros v st2 He Hle Hrej. destruct v; [|specialize (Hrej eq_refl)|done].
      + apply bonus_plain; [|done]. intros st3 Hst3. apply IH. lia.
      + rewrite gen_bind_ret. apply IH. lia.
    - done. }
  all: assert (left_over st = 0%nat) as -> by (unfold left_over; lia); done.
Qed.
End lossless.

(** ** Termination and bounds *)

Section bounded.
Context `{Entropy} {T D : Type} `{!Model T, !Model D} (target : T) (draft : D).
Context (params : SamplingParams) (sink : Sink).
Hypothesis Htarget : total_model target.
Hypothesis Hdraft : total_model draft.

(** The stream holds the tokens counted by [emitted]. *)
Definition counted (st : spec_state) (out : list GeneratedToken) : Prop :=
  emitted st = Z.of_nat (length out) ∧ emitted st ≤ max_tokens params.

(** At most [max_tokens] tokens, and exactly that many after [Length]. *)
Definition within_limit (f : FinishReason) (out : list GeneratedToken) : Prop :=
  Z.of_nat (length out) ≤ max_tokens params ∧
  (f = Length → Z.of_nat (length out) = max_tokens params).

Lemma counted_emit st st' out t :
  counted st out → emitted st < max_tokens params → emitted st' = emitted st + 1 →
  counted st' (out ++ [t]).
Proof. unfold counted. rewrite length_app. simpl. lia. Qed.

Lemma closed_emit st out t :
  counted st out → emitted st < max_tokens params → within_limit Cancelled (out ++ [t]).
Proof. unfold counted, within_limit. rewrite length_app. simpl. split; [lia|done]. Qed.

Lemma verify_ends draft_tokens st out :
  (length draft_tokens ≤ left_over params st)%nat → counted st out →
  ends (verify_loop target params sink draft_tokens st) out (λ '(v, st') out',
    if decide (v = SinkClosed) then within_limit Cancelled out'
    else counted st' out' ∧ emitted st ≤ emitted st' ∧
         (v = Rejected → emitted st < emitted st')).
Proof.
  revert st out. induction draft_tokens as [|dtok toks IH]; intros st out Hlen Hc; simpl.
  { apply ends_ret. rewrite decide_False by done. done. }
  assert (emitted st < max_tokens params) as Hlt by (unfold left_over in Hlen; simpl in Hlen; lia).
  destruct (Htarget (context st)) as [logits ->].
  eapply ends_equiv; [apply gen_bind_ret|].
  destruct (sample_token logits params (rng st)) as [ttok rng'].
  apply ends_emit. destruct (sink out _); simpl.
  2: { apply ends_ret. by eapply closed_emit. }
  set (st' := mk_spec (context st ++ [ttok]) (emitted st + 1) _ rng').
  assert (counted st' (out ++ [spec_token ttok None])) as Hc' by by eapply counted_emit.
  destruct (decide (ttok = dtok)).
  - eapply ends_mono; [apply IH; [unfold left_over in *; simpl in *; lia|exact Hc']|].
    intros [v st2] out2. simpl. case_decide; [done|]. intros (? & ? & ?). split; [done|]. lia.
  - apply ends_ret. rewrite decide_False by done. split; [done|]. simpl. lia.
Qed.

Lemma bonus_ends st out :
  counted st out →
  ends (bonus_step target params sink st) out (λ '(f, st') out',
    match f with
    | Some f => f ≠ Length ∧ within_limit f out'
    | None => counted st' out' ∧
              (emitted st < emitted st' ∨ emitted st' = max_tokens params)
    end).
Proof.
  intros Hc. unfold bonus_step.
  destruct (Z.ltb_spec (emitted st) (max_tokens params)) as [Hlt|Hge].
  2: { apply ends_ret. unfold counted in *. split; [done|lia]. }
  destruct (Htarget (context st)) as [logits ->].
  eapply ends_equiv; [apply gen_bind_ret|].
  destruct (sample_token logits params (rng st)) as [ttok rng'].
  apply ends_emit. destruct (sink out _); simpl; apply ends_ret.
  2: { split; [done|]. by eapply closed_emit. }
  destruct (bool_decide (ttok ∈ stop_tokens params)).
  - split; [done|]. unfold counted, within_limit in *. rewrite length_app. simpl. split; [lia|done].
  - split; [by eapply counted_emit|]. simpl. lia.
Qed.

Lemma spec_loop_ends fuel gamma st out :
  (left_over params st ≤ fuel)%nat → counted st out →
  ends (spec_loop target draft params sink fuel gamma st) out (λ '(f, _) out', within_limit f out').
Proof.
  revert st out. induction fuel as [|fuel IH]; intros st out Hf Hc; simpl;
    destruct (Z.ltb_spec (emitted st) (max_tokens params)) as [Hlt|Hge].
  1: unfold left_over in Hf; lia.
  2: { unfold spec_step. eapply ends_equiv; [apply gen_bind_assoc|].
    destruct (draft_loop_total draft params gamma (emitted st) [] (context st) (rng st) Hdraft)
      as (toks & rng' & Hd & Hlen); [simpl; lia|].
    eapply ends_equiv; [apply gen_bind_proper; [done|exact Hd]|].
    eapply ends_equiv; [apply gen_bind_ret|].
    cbv beta iota zeta. set (st1 := mk_spec (context st) (emitted st) _ rng').
    assert (∀ st2 out2, counted st2 out2 →
              emitted st < emitted st2 ∨ emitted st2 = max_tokens params →
              ends (spec_loop target draft params sink fuel gamma st2) out2
                (λ '(f, _) out', within_limit f out')) as Hgo.
    { intros st2 out2 Hc2 Hlt2. apply IH; [unfold left_over in *; lia|done]. }
    eapply ends_equiv; [apply gen_bind_assoc|].
    eapply ends_bind; [apply (verify_ends toks st1); [unfold left_over; simpl in *; lia|done]|].
    intros [[] st2] out2; simpl.
    - intros (Hc2 & Hle & _). eapply ends_bind; [by apply bonus_ends|].
      intros [[f|] st3] out3; [by intros [_ ?]; apply ends_ret|].
      intros [Hc3 Hlt3]. apply Hgo; [done|lia].
    - intros (Hc2 & _ & Hlt2). specialize (Hlt2 eq_refl).
      eapply ends_equiv; [apply gen_bind_ret|]. apply Hgo; [done|lia].
    - intros Hw. eapply ends_equiv; [apply gen_bind_ret|]. by apply ends_ret. }
  all: apply ends_ret; unfold counted, within_limit in *; lia.
Qed.
End bounded.

(** ** The mock model decodes greedily *)

Section mock.
Variable v : Z.
Hypothesis Hv : 0 < v < u32_modulus.

Lemma vocab32_mock : MockModel.vocab32 (mk_mock v) = v.
Proof. unfold MockModel.vocab32. simpl. apply Z.mod_small. lia. Qed.

(** The token after [prev] in the walk over the vocabulary. *)
Definition walk (prev : Z) : Z := wadd32 (prev mod v) 1 mod v.

Lemma walk_range prev : 0 ≤ walk prev < v.
Proof. apply Z.mod_pos_bound. lia. Qed.

Lemma walk_raw prev : 0 ≤ prev < u32_max → wadd32 prev 1 mod v = walk prev.
Proof.
  intros Hp. unfold walk, wadd32. unfold u32_max, u32_modulus in *.
  pose proof (Z.mod_pos_bound prev v ltac:(lia)).
  rewrite (Z.mod_small (prev + 1)) by lia. rewrite (Z.mod_small (prev mod v + 1)) by lia.
  by rewrite Zplus_mod_idemp_l.
Qed.

(** The score a mock model gives to a token. *)
Lemma mock_logits ctx :
  ∃ logits, MockModel.forward_logits (mk_mock v) ctx = Done logits ∧
    argmax logits = walk (MockModel.last_or_zero ctx).
Proof.
  unfold MockModel.forward_logits. rewrite vocab32_mock, decide_False by lia. cbn [mock_vocab_size].
  set (prev := MockModel.last_or_zero ctx). fold (walk prev).
  pose proof (walk_range prev) as Hw. set (next := Z.to_nat (walk prev)).
  set (r := Z.to_nat (wadd32 (prev mod v) 3 mod v)).
  assert (next < Z.to_nat v)%nat as Hn by lia.
  eexists. split; [done|].
  set (l1 := <[next := f32_of_Z 5]> (replicate (Z.to_nat v) (f32_of_Z (-5)))).
  assert (length l1 = Z.to_nat v) as Hl1 by (unfold l1; by rewrite length_insert, length_replicate).
  assert (∃ peak, <[r := f32_zero]> l1 !! next = Some peak ∧
            f32_cmp_or_eq peak (f32_of_Z (-5)) = Gt ∧ f32_cmp_or_eq (f32_of_Z (-5)) peak = Lt ∧
            (r ≠ next → f32_cmp_or_eq peak f32_zero = Gt ∧ f32_cmp_or_eq f32_zero peak = Lt))
    as (peak & Hpeak & Hc1 & Hc2 & Hc3).
  { destruct (decide (r = next)) as [->|Hr].
    - exists f32_zero. rewrite list_lookup_insert_eq by lia. done.
    - exists (f32_of_Z 5). rewrite list_lookup_insert_ne by done. unfold l1.
      rewrite list_lookup_insert_eq by (by rewrite length_replicate). done. }
  unfold argmax. rewrite (max_by_unique _ _ (next, peak)).
  - unfold as_u32. rewrite Z.mod_small; lia.
  - apply list_elem_of_lookup. exists next. by rewrite list_lookup_imap, Hpeak.
  - intros [j x] (j' & Hj)%list_elem_of_lookup. rewrite list_lookup_imap in Hj.
    destruct (<[r := f32_zero]> l1 !! j') as [x'|] eqn:Hx; simplify_eq/=.
    destruct (decide (j = next)) as [->|Hne]; [left; congruence|right].
    destruct (decide (r = j)) as [->|Hr].
    + rewrite list_lookup_insert_eq in Hx by (apply lookup_lt_Some in Hx; rewrite length_insert in Hx; lia).
      simplify_eq. split; apply Hc3; done.
    + rewrite list_lookup_insert_ne in Hx by done. unfold l1 in Hx.
      rewrite list_lookup_insert_ne in Hx by done.
      apply lookup_replicate in Hx as [-> _]. done.
Qed.

Definition ids (out : list GeneratedToken) : list Z := tok_id <$> out.

(** A sink that looks at token ids only. *)
Definition ids_sink (sink : Sink) : Prop := ∀ out out' t t',
  ids out = ids out' → tok_id t = tok_id t' → sink out t = sink out' t'.

Lemma mock_loop_plain `{Entropy} params sink n ctx rng out out' :
  greedy params → ids_sink sink → 0 ≤ MockModel.last_or_zero ctx < u32_max → ids out = ids out' →
  let m := MockModel.generate_loop (mk_mock v) params sink n (MockModel.last_or_zero ctx) out in
  let p := plain_loop (mk_mock v) params sink n ctx rng out' in
  ids m.1 = ids p.1 ∧ m.2 = p.2 ∧ ∃ f, m.2 = Done f.
Proof.
  intros Hg Hs. revert ctx rng out out'. induction n as [|n IH]; intros ctx rng out out' Hlast Hout;
    cbn [MockModel.generate_loop plain_loop]; [split; [done|]; by eauto|].
  destruct (mock_logits ctx) as (logits & Hlog & Harg).
  change (forward_logits (mk_mock v) ctx) with (MockModel.forward_logits (mk_mock v) ctx).
  rewrite Hlog.
  rewrite vocab32_mock, decide_False by lia. rewrite walk_raw by done.
  unfold mbind, gen_bind, lift, emit. cbn beta iota.
  rewrite !sample_greedy, !Harg by done. set (next := walk _).
  rewrite (Hs out out' _ (spec_token next (if bool_decide (next ∈ stop_tokens params)
                                           then Some Stop else None))) by done.
  assert (∀ t t', tok_id t = tok_id t' → ids (out ++ [t]) = ids (out' ++ [t'])) as Hids.
  { intros t t' Ht. unfold ids in *. rewrite !fmap_app, Hout. csimpl. by rewrite Ht. }
  destruct (sink out' _); simpl; [|split; [by apply Hids|split; [reflexivity|by eexists]]].
  destruct (bool_decide _); simpl; [split; [by apply Hids|split; [reflexivity|by eexists]]|].
  assert (next = MockModel.last_or_zero (ctx ++ [next])) as Hnl
    by (unfold MockModel.last_or_zero; by rewrite last_snoc).
  pose proof (IH (ctx ++ [next])) as IHn. rewrite <- Hnl in IHn. apply IHn; [|by apply Hids].
  pose proof (walk_range (MockModel.last_or_zero ctx)).
  unfold next, u32_max, u32_modulus in *. lia.
Qed.
End mock.

(** ** The theorems *)

(** C1: greedy speculation without stop tokens is lossless.  Whatever the draft
    model proposes, the tokens streamed, the way the run ends and any failure
    of the target are those of plain decoding with the target alone. *)
Theorem speculative_lossless `{Entropy} {T D} `{!Model T, !Model D} (target : T) (draft : D)
    params sink prompt gamma seed :
  greedy params → stop_tokens params = [] → total_model draft →
  finish_of (speculative_generate target draft params sink prompt gamma seed)
    ≡ plain_generate target params sink prompt seed.
Proof.
  intros Hg Hs Ht. unfold speculative_generate, plain_generate.
  assert (left_over params (mk_spec prompt 0 AcceptanceStats.default (seed_from_u64 seed))
          = Z.to_nat (max_tokens params)) as Hl by (unfold left_over; simpl; f_equal; lia).
  rewrite (spec_loop_plain _ _ _ _ Hg Hs _ _ _ (seed_from_u64 seed)) by (done || lia).
  by rewrite Hl.
Qed.

(** At any temperature and with any stop tokens, a run over models that
    answer terminates without a panic within [max_tokens] verify steps, streams
    at most [max_tokens] tokens, and streams exactly that many when it reports
    [Length]. *)
Theorem speculative_terminates `{Entropy} {T D} `{!Model T, !Model D} (target : T) (draft : D)
    params sink prompt gamma seed :
  total_model target → total_model draft → 0 ≤ max_tokens params →
  ∃ out f st,
    speculative_generate target draft params sink prompt gamma seed [] = (out, Done (f, st)) ∧
    Z.of_nat (length out) ≤ max_tokens params ∧
    (f = Length → Z.of_nat (length out) = max_tokens params).
Proof.
  intros Ht Hd Hm. unfold speculative_generate.
  pose proof (spec_loop_ends target draft params sink Ht Hd (Z.to_nat (max_tokens params)) gamma
    (mk_spec prompt 0 AcceptanceStats.default (seed_from_u64 seed)) []) as Hends.
  unfold ends in Hends. destruct (spec_loop _ _ _ _ _ _ _ _) as [out [[f st]| |]].
  - exists out, f, st. split; [done|]. apply Hends; [unfold left_over; simpl; lia|done].
  - exfalso. apply Hends; [unfold left_over; simpl; lia|done].
  - exfalso. apply Hends; [unfold left_over; simpl; lia|done].
Qed.

(** The generator of the mock model is greedy plain decoding of its logits:
    for a vocabulary of at most [u32::MAX] tokens, a last prompt token below
    [u32::MAX] and any sink that looks at token ids, both stream the same ids
    and end the same way, without a panic. *)
Theorem mock_generate_is_greedy `{Entropy} v params sink prompt seed :
  0 < v < u32_modulus → 0 ≤ MockModel.last_or_zero prompt < u32_max →
  greedy params → ids_sink sink →
  let m := MockModel.generate (mk_mock v) prompt params sink [] in
  let p := plain_generate (mk_mock v) params sink prompt seed [] in
  ids m.1 = ids p.1 ∧ m.2 = p.2 ∧ ∃ f, m.2 = Done f.
Proof. intros Hv Hp Hg Hs. by apply mock_loop_plain. Qed.

(** ** Concrete runs *)

Definition zero_params (n : Z) (stops : list Z) : SamplingParams :=
  mk_params n f32_zero f32_one 0 stops [].

Definition open_sink : Sink := λ _ _, true.

(** The correction token of a rejected draft is not checked against the
    stop tokens.  With a draft that disagrees with the target, speculation
    streams past the stop token 3 up to [max_tokens], where plain decoding of
    the same target stops at once; and the statistics count none of the three
    tokens streamed. *)
Theorem speculative_misses_stop `{Entropy} seed :
  (let '(out, r) := speculative_generate (mk_mock 8) (mk_mock 3) (zero_params 3 [3])
                      open_sink [2] 1 seed [] in
   ids out = [3; 4; 5] ∧
   match r with
   | Done (f, st) => f = Length ∧ AcceptanceStats.tokens_emitted st = 0
   | _ => False
   end) ∧
  plain_generate (mk_mock 8) (zero_params 3 [3]) open_sink [2] seed []
    = ([spec_token 3 (Some Stop)], Done Stop).
Proof. vm_compute. auto. Qed.

(** Top-k truncation cuts below the logit at position [k] of the descending
    order, so [k + 1] tokens survive. *)
Example top_k_keeps_one_more :
  top_k_truncate 1 [f32_of_Z 3; f32_of_Z 2; f32_of_Z 1]
  = [f32_of_Z 3; f32_of_Z 2; f32_neg_infinity].
Proof. vm_compute. reflexivity. Qed.

(** A random source for the concrete runs. *)
Definition ex_entropy : Entropy := {|
  StdRng := Z; seed_from_u64 := λ s, s; gen_f32 := λ s, (f32_half, s); f32_exp := λ x, x |}.

Lemma mock_total v : 0 < v < u32_modulus → total_model (mk_mock v).
Proof.
  intros Hv ctx. destruct (mock_logits v Hv ctx) as (logits & Hl & _). by exists logits.
Qed.

Lemma speculative_lossless_witness :
  let H := ex_entropy in
  finish_of (speculative_generate (mk_mock 8) (mk_mock 3) (zero_params 3 []) open_sink [2] 2 0)
    ≡ plain_generate (mk_mock 8) (zero_params 3 []) open_sink [2] 0.
Proof.
  exact (@speculative_lossless ex_entropy _ _ _ _ (mk_mock 8) (mk_mock 3) (zero_params 3 [])
           open_sink [2] 2%nat 0 eq_refl eq_refl (mock_total 3 (conj eq_refl eq_refl))).
Defined.

Lemma speculative_terminates_witness :
  let H := ex_entropy in
  ∃ out f st,
    speculative_generate (mk_mock 8) (mk_mock 3) (zero_params 3 [3]) open_sink [2] 2 0 []
      = (out, Done (f, st)) ∧
    Z.of_nat (length out) ≤ 3 ∧ (f = Length → Z.of_nat (length out) = 3).
Proof.
  exact (@speculative_terminates ex_entropy _ _ _ _ (mk_mock 8) (mk_mock 3) (zero_params 3 [3])
           open_sink [2] 2%nat 0 (mock_total 8 (conj eq_refl eq_refl))
           (mock_total 3 (conj eq_refl eq_refl)) ltac:(simpl; lia)).
Defined.

Lemma mock_generate_is_greedy_witness :
  let H := ex_entropy in
  ids (MockModel.generate (mk_mock 8) [6] (zero_params 4 [2]) open_sink []).1 = [7; 0; 1; 2] ∧
  ids (MockModel.generate (mk_mock 8) [6] (zero_params 4 [2]) open_sink []).1
    = ids (plain_generate (mk_mock 8) (zero_params 4 [2]) open_sink [6] 0 []).1.
Proof.
  split; [vm_compute; reflexivity|].
  refine (proj1 (@mock_generate_is_greedy ex_entropy 8 (zero_params 4 [2]) open_sink [6] 0
                   _ _ _ _)); try done; vm_compute; split; congruence.
Defined.
