(* ===== verification/SpecDecodeTree.v ===== *)
(** * SpecDecodeTree: speculative decoding over a tree of drafts

    [crates/justapi-inference/src/spec_decode_tree.rs]: the draft model
    expands a tree of candidates, the target walks the longest path it agrees
    with and adds one token of its own. *)

From S2P Require Import Prelude F32 Model SpecDecode.

#[local] Open Scope Z_scope.

(** ** Data *)

Inductive TreeNode := mk_tree_node {
  node_token : Z; node_score : f32; node_children : list TreeNode }.

Record DraftTree := mk_draft_tree {
  roots : list TreeNode; tree_gamma : nat; tree_branching : nat }.

Module DraftTree.

(** [Σ b^i] in wrapping [u64] arithmetic. *)
Definition total_nodes (t : DraftTree) : Z :=
  let b := Z.of_nat (tree_branching t) in
  let g := Z.of_nat (tree_gamma t) in
  if (b =? 0) || (g =? 0) then 0
  else if b =? 1 then g
  else wmul64 b ((b ^ (g mod u32_modulus) - 1) mod u64_modulus) / (b - 1).

End DraftTree.

Definition top_k_tokens (logits : list f32) (k : nat) : list (Z * f32) :=
  take k (sort_by (λ a b, f32_cmp_or_eq b.2 a.2) (imap (λ i s, (as_u32 i, s)) logits)).

Section tree.
Context `{Entropy} {T D : Type} `{!Model T, !Model D} (target : T) (draft : D).
Context (params : SamplingParams) (sink : Sink).

(** ** The draft tree *)

Fixpoint expand (ctx : list Z) (depth_remaining branch : nat) : gen (list TreeNode) :=
  match depth_remaining with
  | O => mret []
  | S depth =>
      logits ← lift (forward_logits draft ctx);
      (fix go (candidates : list (Z * f32)) : gen (list TreeNode) :=
         match candidates with
         | [] => mret []
         | (token, score) :: candidates' =>
             children ← expand (ctx ++ [token]) depth branch;
             nodes ← go candidates';
             mret (mk_tree_node token score children :: nodes)
         end) (top_k_tokens logits branch)
  end.

Definition build_draft_tree (context : list Z) (gamma branch : nat) : gen DraftTree :=
  if (Nat.eqb gamma 0 || Nat.eqb branch 0)%bool then mret (mk_draft_tree [] 0 0)
  else roots ← expand context gamma branch; mret (mk_draft_tree roots gamma branch).

(** ** Verification *)

Definition frontier_of (nodes : list TreeNode) : list (Z * list TreeNode) :=
  (λ n, (node_token n, node_children n)) <$> nodes.

(** The token after [ctx] in the target's own decoding. *)
Definition target_next (ctx : list Z) (rng : StdRng) : gen (Z * StdRng) :=
  logits ← lift (forward_logits target ctx);
  mret (sample_token logits params rng).

(** The loop over the depths; [n_accepted] is the length of [accepted]. *)
Fixpoint verify_depths (depths : nat) (frontier : list (Z * list TreeNode))
    (accepted ctx : list Z) (n_accepted : nat) (rng : StdRng)
    : gen (list Z * option Z * nat * StdRng) :=
  match depths with
  | O =>
      '(bonus, rng) ← target_next ctx rng;
      mret (accepted, Some bonus, n_accepted, rng)
  | S depths' =>
      '(target_tok, rng) ← target_next ctx rng;
      match find (λ f, bool_decide (f.1 = target_tok)) frontier with
      | Some (_, children) =>
          let accepted := accepted ++ [target_tok] in
          let ctx := ctx ++ [target_tok] in
          match frontier_of children with
          | [] =>
              '(bonus, rng) ← target_next ctx rng;
              mret (accepted, Some bonus, S n_accepted, rng)
          | frontier => verify_depths depths' frontier accepted ctx (S n_accepted) rng
          end
      | None => mret (accepted, Some target_tok, n_accepted, rng)
      end
  end.

Definition verify_tree (tree : DraftTree) (context : list Z) (rng : StdRng)
    : gen (list Z * option Z * nat * StdRng) :=
  verify_depths (tree_gamma tree) (frontier_of (roots tree)) [] context 0 rng.

(** ** Generation *)

(** One token to the sink: [Some] ends the run. *)
Definition emit_token (tok : Z) (st : spec_state) : gen (option FinishReason * spec_state) :=
  let stop := bool_decide (tok ∈ stop_tokens params) in
  go ← emit sink (spec_token tok (if stop then Some Stop else None));
  if negb go then mret (Some Cancelled, st)
  else mret (if stop then Some Stop else None,
             mk_spec (context st ++ [tok]) (emitted st + 1) (stats st) (rng st)).

Fixpoint emit_accepted (accepted : list Z) (st : spec_state)
    : gen (option FinishReason * spec_state) :=
  match accepted with
  | [] => mret (None, st)
  | tok :: accepted' =>
      if max_tokens params <=? emitted st then mret (None, st)
      else
        '(f, st) ← emit_token tok st;
        match f with
        | Some f => mret (Some f, st)
        | None => emit_accepted accepted' st
        end
  end.

Definition tree_step (gamma branch : nat) (st : spec_state)
    : gen (option FinishReason * spec_state) :=
  tree ← build_draft_tree (context st) gamma branch;
  let eff_gamma := Z.min (Z.of_nat gamma) (ssub (max_tokens params) (emitted st)) in
  let stats1 := AcceptanceStats.add_tree_nodes (DraftTree.total_nodes tree)
                  (AcceptanceStats.add_draft eff_gamma (AcceptanceStats.add_step (stats st))) in
  '(accepted, bonus_or_correction, n_accepted, rng1) ← verify_tree tree (context st) (rng st);
  let stats1 := AcceptanceStats.add_accepted (Z.of_nat n_accepted) stats1 in
  '(f, st) ← emit_accepted accepted (mk_spec (context st) (emitted st) stats1 rng1);
  match f with
  | Some f => mret (Some f, st)
  | None =>
      if max_tokens params <=? emitted st then mret (Some Length, st)
      else
        match bonus_or_correction with
        | None => mret (None, st)
        | Some bonus =>
            '(f, st') ← emit_token bonus st;
            match f with
            | Some Cancelled => mret (Some Cancelled, st')
            | f =>
                mret (f, mk_spec (context st') (emitted st')
                           (AcceptanceStats.add_extra (stats st')) (rng st'))
            end
        end
  end.

Fixpoint tree_loop (fuel gamma branch : nat) (st : spec_state)
    : gen (FinishReason * AcceptanceStats) :=
  if emitted st <? max_tokens params then
    match fuel with
    | O => lift Crash
    | S fuel' =>
        '(finish, st) ← tree_step gamma branch st;
        match finish with
        | Some f => mret (f, stats st)
        | None => tree_loop fuel' gamma branch st
        end
    end
  else mret (Length, stats st).

Definition speculative_generate_tree (prompt : list Z) (gamma branch : nat) (seed : Z)
    : gen (FinishReason * AcceptanceStats) :=
  tree_loop (Z.to_nat (max_tokens params)) gamma branch
    (mk_spec prompt 0 (AcceptanceStats.with_tree_branch (Z.of_nat branch))
       (seed_from_u64 seed)).

End tree.

(** ** The model that speculates over trees *)

Record TreeSpeculativeModel (T D : Type) := mk_tree_speculative {
  tsm_target : T; tsm_draft : D; tsm_gamma : nat; tsm_branch : nat; tsm_seed : Z }.
Arguments mk_tree_speculative {T D}.
Arguments tsm_target {T D}.
Arguments tsm_draft {T D}.
Arguments tsm_gamma {T D}.
Arguments tsm_branch {T D}.
Arguments tsm_seed {T D}.

#[export] Instance TreeSpeculativeModel_Model `{Entropy} {T D} `{!Model T, !Model D}
    : Model (TreeSpeculativeModel T D) := {|
  Model.vocab_size m := Model.vocab_size (tsm_target m);
  Model.generate m prompt params sink :=
    '(finish, _) ← speculative_generate_tree (tsm_target m) (tsm_draft m) params sink
                     prompt (tsm_gamma m) (tsm_branch m) (tsm_seed m);
    mret finish;
  Model.forward_logits m := Model.forward_logits (tsm_target m) |}.

(** ** The tokens of the target *)

Section lossless.
Context `{Entropy} {T D : Type} `{!Model T, !Model D} (target : T) (draft : D).
Context (params : SamplingParams) (sink : Sink).
Hypothesis Hgreedy : greedy params.
Hypothesis Htarget : total_model target.
Hypothesis Hdraft : total_model draft.

(** [toks] is how greedy decoding of the target continues [ctx]. *)
Fixpoint target_chain (ctx toks : list Z) : Prop :=
  match toks with
  | [] => True
  | t :: toks' =>
      (∃ logits, forward_logits target ctx = Done logits ∧ argmax logits = t) ∧
      target_chain (ctx ++ [t]) toks'
  end.

Lemma target_chain_snoc ctx toks t :
  target_chain ctx toks →
  (∃ logits, forward_logits target (ctx ++ toks) = Done logits ∧ argmax logits = t) →
  target_chain ctx (toks ++ [t]).
Proof.
  revert ctx. induction toks as [|x toks IH]; intros ctx; simpl.
  - by rewrite app_nil_r.
  - intros [Hx Hc] Ht. split; [done|]. apply IH; [done|]. by rewrite <- app_assoc.
Qed.

Lemma target_next_greedy ctx rng :
  ∃ t logits, forward_logits target ctx = Done logits ∧ argmax logits = t ∧
    target_next target params ctx rng ≡ mret (t, rng).
Proof.
  destruct (Htarget ctx) as [logits Hl]. exists (argmax logits), logits. split_and!; [done..|].
  unfold target_next. rewrite Hl. intros out. unfold mbind, gen_bind, lift.
  by rewrite sample_greedy.
Qed.

(** What the walk accepts, with the token it adds, is the target's decoding. *)
Lemma verify_depths_chain depths frontier accepted ctx0 n rng :
  target_chain ctx0 accepted →
  ∃ accepted' bonus n',
    verify_depths target params depths frontier accepted (ctx0 ++ accepted) n rng
      ≡ mret (accepted', Some bonus, n', rng) ∧
    target_chain ctx0 (accepted' ++ [bonus]).
Proof.
  revert frontier accepted n. induction depths as [|depths IH]; intros frontier accepted n Hc;
    cbn [verify_depths]; destruct (target_next_greedy (ctx0 ++ accepted) rng)
      as (t & logits & Hl & Ht & Heq); setoid_rewrite Heq; setoid_rewrite gen_bind_ret;
    assert (target_chain ctx0 (accepted ++ [t])) as Hc'
      by (apply target_chain_snoc; [done|by exists logits]).
  - by exists accepted, t, n.
  - destruct (find _ frontier) as [[x children]|]; [|by exists accepted, t, n].
    rewrite <- app_assoc. destruct (frontier_of children) as [|f fs]; [|by apply IH].
    destruct (target_next_greedy (ctx0 ++ accepted ++ [t]) rng) as (t2 & l2 & Hl2 & Ht2 & Heq2).
    setoid_rewrite Heq2. setoid_rewrite gen_bind_ret.
    exists (accepted ++ [t]), t2, (S n). split; [done|].
    apply target_chain_snoc; [done|by exists l2].
Qed.

Lemma expand_total ctx depth branch : ∃ nodes, expand draft ctx depth branch ≡ mret nodes.
Proof.
  revert ctx. induction depth as [|depth IH]; intros ctx; simpl; [by exists []|].
  destruct (Hdraft ctx) as [logits ->]. setoid_rewrite gen_bind_ret.
  induction (top_k_tokens logits branch) as [|[tok score] cs [nodes IHc]]; [by exists []|].
  destruct (IH (ctx ++ [tok])) as [children Hch].
  exists (mk_tree_node tok score children :: nodes).
  setoid_rewrite Hch. setoid_rewrite gen_bind_ret. by setoid_rewrite IHc.
Qed.

Lemma build_total ctx gamma branch : ∃ tree, build_draft_tree draft ctx gamma branch ≡ mret tree.
Proof.
  unfold build_draft_tree. case_match; [by eexists|].
  destruct (expand_total ctx gamma branch) as [nodes Hn]. setoid_rewrite Hn. by eexists.
Qed.

(** Plain decoding in the shape of [emit_token]. *)
Lemma plain_unfold st t r :
  emitted st < max_tokens params →
  (∃ logits, forward_logits target (context st) = Done logits ∧ argmax logits = t) →
  plain_loop target params sink (left_over params st) (context st) r
    ≡ '(f, st') ← emit_token params sink t st;
      match f with
      | Some f => mret f
      | None => plain_loop target params sink (left_over params st') (context st') r
      end.
Proof.
  intros Hlt (logits & Hl & Ht).
  assert (∃ n, left_over params st = S n) as [n Hn]
    by (exists (pred (left_over params st)); unfold left_over; lia).
  rewrite Hn. cbn [plain_loop]. rewrite Hl, gen_bind_done. rewrite sample_greedy, Ht by done.
  unfold emit_token. setoid_rewrite gen_bind_assoc. apply gen_bind_ext. intros [|]; simpl; [|done].
  destruct (bool_decide _); [done|]. setoid_rewrite gen_bind_ret.
  replace (left_over params _) with n; [done|]. unfold left_over in *. simpl. lia.
Qed.

Lemma emit_token_none t st out out' st' :
  emit_token params sink t st out = (out', Done (None, st')) →
  context st' = context st ++ [t] ∧ emitted st' = emitted st + 1.
Proof.
  unfold emit_token, mbind, gen_bind, emit. simpl.
  destruct (sink _ _); simpl; [|by intros [= <-]].
  destruct (bool_decide _); by intros [= <- <-].
Qed.

(** Two continuations that agree on what a run may return. *)
Lemma gen_bind_agree {A B} (m : gen A) (k1 k2 : A → gen B) :
  (∀ a out out', m out = (out', Done a) → k1 a out' = k2 a out') → m ≫= k1 ≡ m ≫= k2.
Proof.
  intros Hk out. unfold mbind, gen_bind. destruct (m out) as [out' [a| |]] eqn:Hm; [|done..].
  by eapply Hk.
Qed.

Lemma emit_accepted_plain toks st r (k : option FinishReason * spec_state → gen FinishReason) :
  target_chain (context st) toks →
  (∀ f st', k (Some f, st') ≡ mret f) →
  (∀ st', (left_over params st' ≤ left_over params st)%nat →
     context st' = context st ++ toks ∨ max_tokens params ≤ emitted st' →
     k (None, st') ≡ plain_loop target params sink (left_over params st') (context st') r) →
  emit_accepted params sink toks st ≫= k
    ≡ plain_loop target params sink (left_over params st) (context st) r.
Proof.
  revert st. induction toks as [|t toks IH]; intros st Hc Hf Hk; cbn [emit_accepted].
  { setoid_rewrite gen_bind_ret. apply Hk; [done|]. left. by rewrite app_nil_r. }
  destruct Hc as [Ht Hc].
  destruct (Z.leb_spec (max_tokens params) (emitted st)) as [Hge|Hlt].
  { setoid_rewrite gen_bind_ret. apply Hk; [done|by right]. }
  rewrite (plain_unfold st t r) by done. rewrite gen_bind_assoc.
  apply gen_bind_agree. intros [[f|] st'] out out' He; [by apply Hf|].
  apply emit_token_none in He as [Hctx Hem].
  apply IH; [by rewrite Hctx|done|]. intros st2 Hle Hor.
  apply Hk; [unfold left_over in *; lia|]. rewrite Hctx, <- app_assoc in Hor. done.
Qed.

Lemma tree_step_plain gamma branch st r (k : option FinishReason * spec_state → gen FinishReason) :
  emitted st < max_tokens params →
  (∀ f st', k (Some f, st') ≡ mret f) →
  (∀ st', (left_over params st' < left_over params st)%nat →
     k (None, st') ≡ plain_loop target params sink (left_over params st') (context st') r) →
  tree_step target draft params sink gamma branch st ≫= k
    ≡ plain_loop target params sink (left_over params st) (context st) r.
Proof.
  intros Hlt Hf Hk. unfold tree_step.
  destruct (build_total (context st) gamma branch) as [tree Htree].
  setoid_rewrite Htree. setoid_rewrite gen_bind_ret. cbv zeta.
  destruct (verify_depths_chain (tree_gamma tree) (frontier_of (roots tree)) [] (context st) 0
              (rng st) I) as (acc & bonus & n & Hv & Hchain).
  rewrite app_nil_r in Hv. unfold verify_tree. setoid_rewrite Hv. setoid_rewrite gen_bind_ret.
  set (st1 := mk_spec (context st) (emitted st) _ (rng st)).
  setoid_rewrite gen_bind_assoc.
  change (context st) with (context st1). change (left_over params st) with (left_over params st1).
  assert (target_chain (context st1) acc ∧ ∃ logits, forward_logits target (context st1 ++ acc)
            = Done logits ∧ argmax logits = bonus) as [Hacc Hbonus].
  { revert Hchain. change (context st1) with (context st). generalize (context st).
    clear. induction acc as [|a acc IH]; intros ctx; simpl.
    - rewrite app_nil_r. tauto.
    - intros [Ha Hc]. destruct (IH _ Hc) as [? Hb]. rewrite <- app_assoc in Hb. done. }
  apply emit_accepted_plain; [done| |].
  - intros f st2. setoid_rewrite gen_bind_ret. apply Hf.
  - intros st2 Hle Hor. destruct (Z.leb_spec (max_tokens params) (emitted st2)) as [Hge|Hlt2].
    + setoid_rewrite gen_bind_ret. rewrite Hf.
      assert (left_over params st2 = 0%nat) as -> by (unfold left_over; lia). done.
    + destruct Hor as [Hctx|]; [|lia].
      rewrite (plain_unfold st2 bonus r) by (done || by rewrite Hctx).
      rewrite gen_bind_assoc. apply gen_bind_agree.
      intros [[[]|] st3] out out' He; [exact (Hf _ _ out')..|].
      apply emit_token_none in He as [_ Hem]. refine (Hk _ _ out').
      unfold left_over, st1 in *. simpl in *. lia.
Qed.

Lemma tree_loop_plain fuel gamma branch st r :
  (left_over params st ≤ fuel)%nat →
  finish_of (tree_loop target draft params sink fuel gamma branch st)
    ≡ plain_loop target params sink (left_over params st) (context st) r.
Proof.
  revert st. induction fuel as [|fuel IH]; intros st Hle; simpl;
    destruct (Z.ltb_spec (emitted st) (max_tokens params)) as [Hlt|Hge].
  1: unfold left_over in Hle; lia.
  2: { rewrite finish_of_bind. apply tree_step_plain; [done|done|].
       intros st' Hlt'. apply IH. lia. }
  all: assert (left_over params st = 0%nat) as -> by (unfold left_over; lia); done.
Qed.
End lossless.

(** ** The theorems *)

(** C40: greedy tree speculation is lossless, stop tokens and a sink that hangs up
    included: over models that answer, for every [gamma] and [branch], the
    tokens streamed and the way the run ends are those of plain decoding with
    the target alone; in particular the run terminates. *)
Theorem tree_lossless `{Entropy} {T D} `{!Model T, !Model D} (target : T) (draft : D)
    params sink prompt gamma branch seed :
  greedy params → total_model target → total_model draft →
  finish_of (speculative_generate_tree target draft params sink prompt gamma branch seed)
    ≡ plain_generate target params sink prompt seed.
Proof.
  intros Hg Ht Hd. unfold speculative_generate_tree, plain_generate.
  set (st := mk_spec prompt 0 _ _).
  assert (left_over params st = Z.to_nat (max_tokens params)) as Hl
    by (unfold left_over; simpl; f_equal; lia).
  rewrite (tree_loop_plain _ _ _ _ Hg Ht Hd _ _ _ st (seed_from_u64 seed)) by lia.
  by rewrite Hl.
Qed.

Lemma tree_lossless_witness :
  let H := ex_entropy in
  ids (plain_generate (mk_mock 8) (zero_params 4 [5]) open_sink [2] 0 []).1 = [3; 4; 5] ∧
  finish_of (speculative_generate_tree (mk_mock 8) (mk_mock 3) (zero_params 4 [5]) open_sink
               [2] 2 2 0)
    ≡ plain_generate (mk_mock 8) (zero_params 4 [5]) open_sink [2] 0.
Proof.
  split; [vm_compute; reflexivity|].
  exact (@tree_lossless ex_entropy _ _ _ _ (mk_mock 8) (mk_mock 3) (zero_params 4 [5])
           open_sink [2] 2%nat 2%nat 0 eq_refl (mock_total 8 (conj eq_refl eq_refl))
           (mock_total 3 (conj eq_refl eq_refl))).
Defined.
