(* ===== verification/Scheduler.v ===== *)
(** * Scheduler: continuous batching

    [crates/justapi-inference/src/scheduler.rs]: the scheduler that owns the
    block pool, the radix prefix cache and the running sequences, and hands out
    the prefill chunks and decode steps of every forward pass. *)

From S2P Require Import Prelude F32 KvCache RadixCache Model.

(** ** Data *)

Record SchedulerConfig := mk_sched_config {
  max_num_seqs : Z;
  max_num_batched_tokens : Z;
  max_seq_len : Z;
  chunked_prefill_size : option Z }.

Definition SchedulerConfig_default : SchedulerConfig :=
  mk_sched_config 256 4096 4096 (Some 512%Z).

Record NewRequest := mk_request {
  req_id : Z;
  req_prompt : list Z;
  req_params : SamplingParams;
  prefix_cached_tokens : Z;
  cached_blocks : list nat }.

Record PrefillStep := mk_prefill {
  ps_seq_id : Z; ps_tokens : list Z; ps_computed_tokens : nat }.

Record Schedule := mk_schedule {
  prefill : list PrefillStep; decode : list Z; back_pressure : bool }.

Record SchedulerStats := mk_sched_stats {
  num_waiting : nat; num_running : nat; num_prefilling : nat; budget_used_pct : f32;
  ss_back_pressure : bool; ss_prefix : RadixPrefixCacheStats; cached_kv_blocks : nat }.

Inductive SeqState := Prefilling | Decoding.

#[export] Instance SeqState_eq_dec : EqDecision SeqState.
Proof. solve_decision. Defined.

Record RunningSeq := mk_running {
  rs_seq : Sequence;
  rs_prompt : list Z;
  rs_params : SamplingParams;
  num_prefilled : nat;
  num_generated : Z;
  rs_state : SeqState }.

Record TransferableSequence := mk_transferable {
  src_seq_id : Z; ts_req_id : Z; ts_prompt : list Z; ts_params : SamplingParams;
  ts_num_prefilled : nat; ts_num_generated : Z }.

Record Scheduler := mk_scheduler {
  config : SchedulerConfig;
  pool : KvBlockPool;
  prefix : RadixPrefixCache;
  prefix_refs : gmap nat nat;
  running : list RunningSeq;
  wait_queue : list NewRequest;
  next_seq_id : Z;
  last_back_pressure : bool }.

Definition rs_id (r : RunningSeq) : Z := seq_id (rs_seq r).

Definition set_pool (p : KvBlockPool) (s : Scheduler) : Scheduler :=
  mk_scheduler (config s) p (prefix s) (prefix_refs s) (running s) (wait_queue s)
    (next_seq_id s) (last_back_pressure s).
Definition set_prefix (c : RadixPrefixCache) (s : Scheduler) : Scheduler :=
  mk_scheduler (config s) (pool s) c (prefix_refs s) (running s) (wait_queue s)
    (next_seq_id s) (last_back_pressure s).
Definition set_refs (m : gmap nat nat) (s : Scheduler) : Scheduler :=
  mk_scheduler (config s) (pool s) (prefix s) m (running s) (wait_queue s)
    (next_seq_id s) (last_back_pressure s).
Definition set_running (rs : list RunningSeq) (s : Scheduler) : Scheduler :=
  mk_scheduler (config s) (pool s) (prefix s) (prefix_refs s) rs (wait_queue s)
    (next_seq_id s) (last_back_pressure s).
Definition set_queue (q : list NewRequest) (s : Scheduler) : Scheduler :=
  mk_scheduler (config s) (pool s) (prefix s) (prefix_refs s) (running s) q
    (next_seq_id s) (last_back_pressure s).
Definition set_next_id (n : Z) (s : Scheduler) : Scheduler :=
  mk_scheduler (config s) (pool s) (prefix s) (prefix_refs s) (running s) (wait_queue s)
    n (last_back_pressure s).
Definition set_back_pressure (b : bool) (s : Scheduler) : Scheduler :=
  mk_scheduler (config s) (pool s) (prefix s) (prefix_refs s) (running s) (wait_queue s)
    (next_seq_id s) b.

Module Scheduler.

Definition new (cfg : SchedulerConfig) (p : KvBlockPool) : Scheduler :=
  mk_scheduler cfg p RadixPrefixCache.new ∅ [] [] 1 false.

Definition prefix_cache_stats (s : Scheduler) : RadixPrefixCacheStats :=
  RadixPrefixCache.stats (prefix s).

Definition stats (s : Scheduler) : SchedulerStats :=
  mk_sched_stats (length (wait_queue s)) (length (running s))
    (length (filter (λ r, rs_state r = Prefilling) (running s))) f32_zero
    (last_back_pressure s) (RadixPrefixCache.stats (prefix s)) (KvBlockPool.cached (pool s)).

Definition add_request (req : NewRequest) (s : Scheduler) : Z * Scheduler :=
  let id := next_seq_id s in
  let req := mk_request id (req_prompt req) (req_params req) (prefix_cached_tokens req)
               (cached_blocks req) in
  (id, set_queue (wait_queue s ++ [req]) (set_next_id (wadd64 id 1) s)).

Definition running_ids (s : Scheduler) : list Z := rs_id <$> running s.

Definition running_seq_generated (id : Z) (s : Scheduler) : option Z :=
  num_generated <$> find (λ r, bool_decide (rs_id r = id)) (running s).

Definition is_idle (s : Scheduler) : bool :=
  match running s, wait_queue s with [], [] => true | _, _ => false end.

(** *** Promoting the blocks of a finished sequence into the prefix cache *)

(** [pool.release(b, 0); pool.pin(b)] *)
Definition release_pin (b : nat) (s : Scheduler) : exec Scheduler :=
  p ← KvBlockPool.release b 0 (pool s);
  p ← KvBlockPool.pin b p;
  Ret (set_pool p s).

Definition refs_of (b : nat) (s : Scheduler) : nat := default 0 (prefix_refs s !! b).

Definition cache_block (s : Scheduler) (b : nat) : exec Scheduler :=
  let entry := refs_of b s in
  if decide (entry = 0) then release_pin b (set_refs (<[b := 0]> (prefix_refs s)) s)
  else
    let s := set_refs (<[b := entry - 1]> (prefix_refs s)) s in
    if decide (entry - 1 = 0) then release_pin b s else Ret s.

Definition cache_completed (prompt : list Z) (blocks : list nat) (s : Scheduler)
    : exec Scheduler :=
  let cache_blocks := (length prompt / BLOCK_SIZE) `min` length blocks in
  if decide (cache_blocks = 0) then Ret s
  else
    let cache_tokens := cache_blocks * BLOCK_SIZE in
    c ← RadixPrefixCache.insert (take cache_tokens prompt) (take cache_blocks blocks) (prefix s);
    mfold cache_block (set_prefix c s) (take cache_blocks blocks).

(** *** [schedule], phase 1: the finished sequences *)

Definition is_done (s : Scheduler) (r : RunningSeq) : bool :=
  (max_tokens (rs_params r) <=? num_generated r)%Z
  || (max_seq_len (config s) <=? seq_num_tokens (rs_seq r))%Z.

Definition retire_finished (s : Scheduler) : exec Scheduler :=
  let finished := filter (λ r, is_done s r = true) (running s) in
  let kept := filter (λ r, is_done s r = false) (running s) in
  mfold (λ s r, cache_completed (rs_prompt r) (seq_blocks (rs_seq r)) s)
    (set_running kept s) finished.

(** *** [schedule], phase 2: admission *)

(** A cached block taken over by a live sequence. *)
Definition take_cached (s : Scheduler) (b : nat) : exec Scheduler :=
  p ← KvBlockPool.unpin b (pool s);
  Ret (set_refs (<[b := refs_of b s + 1]> (prefix_refs s)) (set_pool p s)).

(** A block evicted from the radix tree goes back to the pool. *)
Definition free_evicted (s : Scheduler) (b : nat) : exec Scheduler :=
  p ← KvBlockPool.unpin b (pool s);
  p ← KvBlockPool.free_cached b p;
  Ret (set_refs (delete b (prefix_refs s)) (set_pool p s)).

Definition evict_prefix (k : nat) (s : Scheduler) : exec Scheduler :=
  let '(freed, c) := RadixPrefixCache.evict_filter k
                       (λ bs, forallb (λ b, bool_decide (refs_of b s = 0)) bs) (prefix s) in
  mfold free_evicted (set_prefix c s) freed.

(** [for _ in 0..uncached_blocks]: [n] turns are left, [total] is
    [uncached_blocks].  The flag is [alloc_failed]. *)
Fixpoint alloc_tail (n total : nat) (sq : Sequence) (s : Scheduler)
    : exec (bool * Sequence * Scheduler) :=
  match n with
  | 0 => Ret (false, sq, s)
  | S n' =>
      '(b, sq, p) ← Sequence.grow sq (pool s);
      let s := set_pool p s in
      match b with
      | Some _ => alloc_tail n' total sq s
      | None =>
          s ← evict_prefix total s;
          '(b, sq, p) ← Sequence.grow sq (pool s);
          let s := set_pool p s in
          match b with
          | Some _ => alloc_tail n' total sq s
          | None => Ret (true, sq, s)
          end
      end
  end.

(** The prefix-cache hit of a request: an explicit hint or the radix tree. *)
Definition resolve_prefix (req : NewRequest) (s : Scheduler)
    : exec (list nat * Z * Scheduler) :=
  match cached_blocks req with
  | _ :: _ => Ret (cached_blocks req, prefix_cached_tokens req, s)
  | [] =>
      '(hit, c) ← RadixPrefixCache.lookup (req_prompt req) (prefix s);
      let s := set_prefix c s in
      match hit with
      | Some (matched, blocks) => Ret (blocks, Z.of_nat matched, s)
      | None => Ret ([], 0%Z, s)
      end
  end.

(** One turn of the admission loop on the request at the front of the queue:
    [false] when it stays there and admission is blocked. *)
Definition admit_one (req : NewRequest) (s : Scheduler) : exec (bool * Scheduler) :=
  '(blocks, cached_tokens, s) ← resolve_prefix req s;
  let total_blocks := div_ceil (length (req_prompt req)) BLOCK_SIZE in
  let cached_n := length blocks in
  let uncached_blocks := total_blocks - cached_n in
  let uncached_tokens := ssub (Z.of_nat (length (req_prompt req))) cached_tokens in
  let est_total := wadd64 uncached_tokens (max_tokens (req_params req)) in
  if (wmul64 (max_num_batched_tokens (config s)) 2 <? est_total)%Z then Ret (false, s)
  else
    let sq := Sequence.new (req_id req) in
    '(sq, s) ← (if decide (blocks = []) then Ret (sq, s)
                else
                  '(sq, p) ← Sequence.restore_from_cache blocks cached_tokens sq (pool s);
                  s ← mfold take_cached (set_pool p s) blocks;
                  Ret (sq, s));
    '(alloc_failed, sq, s) ← alloc_tail uncached_blocks uncached_blocks sq s;
    if alloc_failed : bool then Ret (false, s)
    else
      let prefilled := cached_n * BLOCK_SIZE in
      let state := if decide (length (req_prompt req) ≤ prefilled) then Decoding else Prefilling in
      Ret (true, set_running (running s ++ [mk_running sq (req_prompt req) (req_params req)
                                              prefilled 0 state]) s).

(** The [while] loop; the queue of the scheduler is [queue] throughout. *)
Fixpoint admit_loop (queue : list NewRequest) (s : Scheduler) : exec (bool * Scheduler) :=
  if (Z.of_nat (length (running s)) <? max_num_seqs (config s))%Z then
    match queue with
    | [] => Ret (false, set_queue [] s)
    | req :: queue' =>
        '(admitted, s) ← admit_one req s;
        if admitted : bool then admit_loop queue' s
        else Ret (true, set_queue queue s)
    end
  else Ret (false, set_queue queue s).

(** *** [schedule], phase 3: the work of the step *)

Definition is_decoding (r : RunningSeq) : bool := bool_decide (rs_state r = Decoding).

Definition set_prefilled (n : nat) (st : SeqState) (r : RunningSeq) : RunningSeq :=
  mk_running (rs_seq r) (rs_prompt r) (rs_params r) n (num_generated r) st.

(** The size of the next chunk of a prompt with [remaining] tokens to go. *)
Definition chunk_size (chunked : option Z) (remaining : nat) (token_budget : Z) : Z :=
  match chunked with
  | Some size => Z.min (Z.min (Z.of_nat remaining) size) token_budget
  | None => Z.min (Z.of_nat remaining) token_budget
  end.

Fixpoint prefill_loop (chunked : option Z) (token_budget : Z) (rs : list RunningSeq)
    : list PrefillStep * list RunningSeq :=
  match rs with
  | [] => ([], [])
  | r :: rs' =>
      if is_decoding r then
        let '(steps, rs') := prefill_loop chunked token_budget rs' in (steps, r :: rs')
      else
        let remaining := length (rs_prompt r) - num_prefilled r in
        if decide (remaining = 0) then
          let '(steps, rs') := prefill_loop chunked token_budget rs' in
          (steps, set_prefilled (num_prefilled r) Decoding r :: rs')
        else
          let chunk := chunk_size chunked remaining token_budget in
          if (chunk =? 0)%Z then ([], r :: rs')
          else
            let last := num_prefilled r + Z.to_nat chunk in
            let toks := take (last - num_prefilled r) (drop (num_prefilled r) (rs_prompt r)) in
            let st := if decide (length (rs_prompt r) ≤ last) then Decoding else rs_state r in
            let '(steps, rs') := prefill_loop chunked (ssub token_budget chunk) rs' in
            (mk_prefill (rs_id r) toks (num_prefilled r) :: steps,
             set_prefilled last st r :: rs')
  end.

Definition build (s : Scheduler) (blocked : bool) : Schedule * Scheduler :=
  let back_pressure := blocked || negb (bool_decide (wait_queue s = [])) in
  let token_budget := max_num_batched_tokens (config s) in
  let decode_count := Z.of_nat (length (filter (λ r, is_decoding r = true) (running s))) in
  let decode_tokens := Z.min decode_count token_budget in
  let token_budget := ssub token_budget decode_tokens in
  let '(prefill, rs) := prefill_loop (chunked_prefill_size (config s)) token_budget (running s) in
  let decode := take (Z.to_nat decode_tokens) (rs_id <$> filter (λ r, is_decoding r = true) rs) in
  (mk_schedule prefill decode back_pressure, set_back_pressure back_pressure (set_running rs s)).

Definition schedule (s : Scheduler) : exec (Schedule * Scheduler) :=
  s ← retire_finished s;
  '(blocked, s) ← admit_loop (wait_queue s) s;
  Ret (build s blocked).

(** *** Step completion and cancellation *)

(** Updating the first running sequence with the given id. *)
Fixpoint update_first (id : Z) (f : RunningSeq → RunningSeq) (rs : list RunningSeq)
    : list RunningSeq :=
  match rs with
  | [] => []
  | r :: rs' => if decide (rs_id r = id) then f r :: rs' else r :: update_first id f rs'
  end.

Definition advance_seq (n : Z) (r : RunningSeq) : RunningSeq :=
  mk_running (Sequence.advance n (rs_seq r)) (rs_prompt r) (rs_params r) (num_prefilled r)
    (wadd64 (num_generated r) n) (rs_state r).

Definition on_step_complete (id : Z) (num_new_tokens : Z) (s : Scheduler) : Scheduler :=
  set_running (update_first id (advance_seq num_new_tokens) (running s)) s.

(** [position] and [remove]. *)
Fixpoint remove_first (id : Z) (rs : list RunningSeq) : option (RunningSeq * list RunningSeq) :=
  match rs with
  | [] => None
  | r :: rs' =>
      if decide (rs_id r = id) then Some (r, rs')
      else match remove_first id rs' with
           | Some (x, rs') => Some (x, r :: rs')
           | None => None
           end
  end.

Definition cancel (id : Z) (s : Scheduler) : exec Scheduler :=
  match remove_first id (running s) with
  | Some (r, rs) => cache_completed (rs_prompt r) (seq_blocks (rs_seq r)) (set_running rs s)
  | None => Ret s
  end.

(** *** Disaggregated prefill and decode *)

Definition prefill_done (r : RunningSeq) : bool :=
  is_decoding r && bool_decide (length (rs_prompt r) ≤ num_prefilled r).

Definition hand_over (r : RunningSeq) : TransferableSequence :=
  mk_transferable (rs_id r) (rs_id r) (rs_prompt r) (rs_params r) (num_prefilled r)
    (num_generated r).

Definition release_block (s : Scheduler) (b : nat) : exec Scheduler :=
  p ← KvBlockPool.release b 0 (pool s);
  Ret (set_pool p (set_refs (delete b (prefix_refs s)) s)).

Fixpoint take_loop (rs : list RunningSeq) (s : Scheduler)
    : exec (list TransferableSequence * list RunningSeq * Scheduler) :=
  match rs with
  | [] => Ret ([], [], s)
  | r :: rs' =>
      if prefill_done r then
        s ← mfold release_block s (seq_blocks (rs_seq r));
        '(out, keep, s) ← take_loop rs' s;
        Ret (hand_over r :: out, keep, s)
      else
        '(out, keep, s) ← take_loop rs' s;
        Ret (out, r :: keep, s)
  end.

Definition take_completed_prefill (s : Scheduler)
    : exec (list TransferableSequence * Scheduler) :=
  '(out, keep, s) ← take_loop (running s) s;
  Ret (out, set_running keep s).

(** [n] calls of [grow]; [None] as soon as one fails. *)
Fixpoint grow_all (n : nat) (sq : Sequence) (p : KvBlockPool)
    : exec (option Sequence * KvBlockPool) :=
  match n with
  | 0 => Ret (Some sq, p)
  | S n' =>
      '(b, sq, p) ← Sequence.grow sq p;
      match b with
      | Some _ => grow_all n' sq p
      | None => Ret (None, p)
      end
  end.

Definition admit_transferred (t : TransferableSequence) (s : Scheduler) : exec Scheduler :=
  let sq := Sequence.new (next_seq_id s) in
  let s := set_next_id (wadd64 (next_seq_id s) 1) s in
  let total_tokens := wadd64 (Z.of_nat (ts_num_prefilled t)) (ts_num_generated t) in
  let needed_blocks := div_ceil (Z.to_nat total_tokens) BLOCK_SIZE in
  '(sq, p) ← grow_all needed_blocks sq (pool s);
  let s := set_pool p s in
  match sq with
  | None => Ret s
  | Some sq =>
      Ret (set_running
             (running s ++ [mk_running (Sequence.advance total_tokens sq) (ts_prompt t)
                              (ts_params t) (ts_num_prefilled t) (ts_num_generated t) Decoding]) s)
  end.

End Scheduler.

Import Scheduler.

(** ** The work of one step *)

(** A configuration read from unsigned integers. *)
Record config_ok (c : SchedulerConfig) : Prop := {
  cfg_seqs : (0 ≤ max_num_seqs c)%Z;
  cfg_batched : (0 ≤ max_num_batched_tokens c)%Z;
  cfg_chunk : ∀ n, chunked_prefill_size c = Some n → (0 ≤ n)%Z }.

(** [r'] is [r] after a step that prefilled some of its prompt. *)
Record advanced (r r' : RunningSeq) : Prop := {
  adv_seq : rs_seq r' = rs_seq r;
  adv_prompt : rs_prompt r' = rs_prompt r;
  adv_params : rs_params r' = rs_params r;
  adv_generated : num_generated r' = num_generated r;
  adv_prefilled : num_prefilled r ≤ num_prefilled r';
  adv_bound : num_prefilled r < num_prefilled r' → num_prefilled r' ≤ length (rs_prompt r);
  adv_decoding : rs_state r = Decoding → r' = r;
  adv_prefilling : rs_state r' = Prefilling → num_prefilled r' < length (rs_prompt r') }.

(** The chunk that takes [r] to [r']. *)
Definition chunk_between (rr : RunningSeq * RunningSeq) : option PrefillStep :=
  let '(r, r') := rr in
  if decide (num_prefilled r < num_prefilled r') then
    Some (mk_prefill (rs_id r)
            (take (num_prefilled r' - num_prefilled r) (drop (num_prefilled r) (rs_prompt r)))
            (num_prefilled r))
  else None.

Definition total_tokens (steps : list PrefillStep) : Z :=
  Z.of_nat (sum_list ((λ p, length (ps_tokens p)) <$> steps)).

(** A running sequence that still has prompt to process says so. *)
Definition state_ok (r : RunningSeq) : Prop :=
  rs_state r = Prefilling → num_prefilled r < length (rs_prompt r).

Lemma advanced_refl r : state_ok r → advanced r r.
Proof. intros Hok. split; try done. lia. Qed.

Lemma is_decoding_true r : is_decoding r = true ↔ rs_state r = Decoding.
Proof. unfold is_decoding. by rewrite bool_decide_eq_true. Qed.

Lemma not_decoding r : is_decoding r = false → rs_state r = Prefilling.
Proof. unfold is_decoding. rewrite bool_decide_eq_false. by destruct (rs_state r). Qed.

Lemma chunk_none r r' : num_prefilled r = num_prefilled r' → chunk_between (r, r') = None.
Proof. intros Heq. simpl. rewrite decide_False; [done|lia]. Qed.

Lemma omap_none rs : omap chunk_between (zip rs rs) = [].
Proof.
  induction rs as [|r rs IH]; [done|]. cbn [zip_with omap list_omap].
  rewrite chunk_none by done. exact IH.
Qed.

Definition chunk_nonneg (chunked : option Z) : Prop := ∀ n, chunked = Some n → (0 ≤ n)%Z.

Lemma chunk_size_bound chunked remaining budget :
  chunk_nonneg chunked → (0 ≤ budget)%Z →
  (0 ≤ chunk_size chunked remaining budget ≤ budget)%Z ∧
  (chunk_size chunked remaining budget ≤ Z.of_nat remaining)%Z ∧
  (∀ n, chunked = Some n → (chunk_size chunked remaining budget ≤ n)%Z).
Proof.
  intros Hc Hb. destruct chunked as [n|]; simpl.
  - specialize (Hc n eq_refl). split_and!; try lia. intros ? [= <-]. lia.
  - split_and!; try lia. done.
Qed.

Lemma prefill_loop_spec chunked budget rs :
  chunk_nonneg chunked → (0 ≤ budget)%Z → Forall state_ok rs →
  let '(steps, rs') := prefill_loop chunked budget rs in
  Forall2 advanced rs rs' ∧ steps = omap chunk_between (zip rs rs') ∧
  (total_tokens steps ≤ budget)%Z ∧
  ∀ p n, p ∈ steps → chunked = Some n → (Z.of_nat (length (ps_tokens p)) ≤ n)%Z.
Proof.
  intros Hc. revert budget. induction rs as [|r rs IH]; intros budget Hb Hok;
    cbn [prefill_loop]; [by split_and!; [constructor|done..|intros ?? ?%elem_of_nil]|].
  inversion Hok as [|? ? Hr Hrs]; subst.
  destruct (is_decoding r) eqn:Hdec.
  { specialize (IH budget Hb Hrs). destruct (prefill_loop chunked budget rs) as [steps rs'].
    destruct IH as (H1 & -> & H3 & H4). cbn [zip_with omap list_omap].
    rewrite chunk_none by done. split_and!; try done. by constructor; [apply advanced_refl|]. }
  pose proof (Hr (not_decoding _ Hdec)) as Hlt.
  rewrite decide_False by lia.
  set (remaining := length (rs_prompt r) - num_prefilled r).
  destruct (chunk_size_bound chunked remaining budget Hc Hb) as (Hchunk & Hrem & Hsize).
  set (chunk := chunk_size chunked remaining budget) in *.
  destruct (Z.eqb_spec chunk 0) as [H0|H0].
  { change (r :: rs) with ([r] ++ rs). rewrite omap_none. split_and!; [|done|done|].
    - apply Forall2_same_length_lookup. split; [done|]. intros i x y Hx Hy. simplify_eq.
      apply advanced_refl. rewrite Forall_lookup in Hok. by eapply Hok.
    - by intros ?? ?%elem_of_nil. }
  assert (0 ≤ ssub budget chunk)%Z as Hb' by (unfold ssub; lia).
  specialize (IH _ Hb' Hrs). destruct (prefill_loop chunked (ssub budget chunk) rs) as [steps rs'].
  destruct IH as (H1 & -> & H3 & H4).
  set (last := num_prefilled r + Z.to_nat chunk).
  set (st := if decide _ then _ else _).
  assert (length (take (last - num_prefilled r) (drop (num_prefilled r) (rs_prompt r)))
          = Z.to_nat chunk) as Hlen.
  { rewrite length_take, length_drop. lia. }
  split_and!.
  - constructor; [|done]. split; simpl; try done; try lia.
    + intros Hd. rewrite (proj2 (is_decoding_true r) Hd) in Hdec. done.
    + unfold st. case_decide; [done|]. lia.
  - cbn [zip_with omap list_omap chunk_between set_prefilled num_prefilled].
    rewrite decide_True by lia. done.
  - unfold total_tokens in *. csimpl. rewrite Hlen. unfold ssub in H3. lia.
  - intros p n [->|Hp]%elem_of_cons Hn; [|by eapply H4]. simpl. rewrite Hlen.
    specialize (Hsize n Hn). lia.
Qed.

(** With budget to spend, a batch of prefilling sequences gets a chunk. *)
Lemma prefill_loop_work chunked budget rs :
  chunk_nonneg chunked → chunked ≠ Some 0%Z → (0 < budget)%Z → Forall state_ok rs →
  filter (λ r, is_decoding r = true) rs = [] → rs ≠ [] → (prefill_loop chunked budget rs).1 ≠ [].
Proof.
  intros Hc H0 Hb Hok Hdec Hne. destruct rs as [|r rs]; [done|]. cbn [prefill_loop].
  rewrite filter_cons in Hdec. destruct (is_decoding r) eqn:Hd; [done|].
  inversion Hok as [|? ? Hr _]; subst. pose proof (Hr (not_decoding _ Hd)).
  rewrite decide_False by lia. destruct (Z.eqb_spec
    (chunk_size chunked (length (rs_prompt r) - num_prefilled r) budget) 0) as [Hz|_].
  - exfalso. destruct chunked as [k|]; simpl in Hz; [|lia].
    specialize (Hc k eq_refl). assert (k ≠ 0%Z) by congruence. lia.
  - by destruct (prefill_loop _ _ rs).
Qed.

(** ** What the block bookkeeping leaves alone *)

(** An operation on the prefix cache. *)
Inductive cache_step : RadixPrefixCache → RadixPrefixCache → Prop :=
| cache_inserts toks blks c c' : RadixPrefixCache.insert toks blks c = Ret c' → cache_step c c'
| cache_looks_up toks hit c c' : RadixPrefixCache.lookup toks c = Ret (hit, c') → cache_step c c'
| cache_evicts k keep freed c c' : RadixPrefixCache.evict_filter k keep c = (freed, c') → cache_step c c'.

Record same_frame (s s' : Scheduler) : Prop := {
  fr_config : config s' = config s;
  fr_running : running s' = running s;
  fr_queue : wait_queue s' = wait_queue s;
  fr_next : next_seq_id s' = next_seq_id s;
  fr_cache : rtc cache_step (prefix s) (prefix s') }.

#[export] Instance same_frame_preorder : PreOrder same_frame.
Proof.
  split; [by intros s; split|].
  intros s1 s2 s3 [? ? ? ? ?] [? ? ? ? ?]. split; [congruence..|by etrans].
Qed.

(** Unfolding the binds of a call that returned. *)
Ltac exec_inv H :=
  repeat match type of H with
         | _ ≫= _ = Ret _ => let a := fresh "a" in let Ha := fresh "Ha" in
                             apply bind_Ret_inv in H as (a & Ha & H)
         end.

Lemma mfold_frame {A} (f : Scheduler → A → exec Scheduler) l s s' :
  (∀ s a s', f s a = Ret s' → same_frame s s') → mfold f s l = Ret s' → same_frame s s'.
Proof.
  intros Hf. revert s. induction l as [|a l IH]; intros s; simpl; [by intros [= ->]|].
  intros Hm. exec_inv Hm. etrans; [by eapply Hf|by apply IH].
Qed.

Lemma release_pin_frame b s s' : release_pin b s = Ret s' → same_frame s s'.
Proof. unfold release_pin. intros Hx. exec_inv Hx. by injection Hx as <-. Qed.

Lemma cache_block_frame s b s' : cache_block s b = Ret s' → same_frame s s'.
Proof.
  unfold cache_block. repeat case_decide.
  - intros Hr%release_pin_frame. by etrans; [|exact Hr].
  - intros Hr%release_pin_frame. by etrans; [|exact Hr].
  - by intros [= <-].
Qed.

Lemma cache_completed_frame prompt blocks s s' :
  cache_completed prompt blocks s = Ret s' → same_frame s s'.
Proof.
  unfold cache_completed. case_decide; [by intros [= ->]|]. intros Hx. exec_inv Hx.
  apply mfold_frame in Hx; [|apply cache_block_frame]. etrans; [|exact Hx].
  split; try done. eapply rtc_once, cache_inserts, Ha.
Qed.

Lemma take_cached_frame s b s' : take_cached s b = Ret s' → same_frame s s'.
Proof. unfold take_cached. intros Hx. exec_inv Hx. by injection Hx as <-. Qed.

Lemma free_evicted_frame s b s' : free_evicted s b = Ret s' → same_frame s s'.
Proof. unfold free_evicted. intros Hx. exec_inv Hx. by injection Hx as <-. Qed.

Lemma evict_prefix_frame k s s' : evict_prefix k s = Ret s' → same_frame s s'.
Proof.
  unfold evict_prefix. destruct (RadixPrefixCache.evict_filter _ _ _) as [freed c] eqn:He.
  intros Hm. apply mfold_frame in Hm; [|apply free_evicted_frame]. etrans; [|exact Hm].
  split; try done. eapply rtc_once, cache_evicts, He.
Qed.

(** A sequence that has been given more blocks. *)
Record grown (sq sq' : Sequence) : Prop := {
  gr_id : seq_id sq' = seq_id sq;
  gr_tokens : seq_num_tokens sq' = seq_num_tokens sq;
  gr_blocks : seq_blocks sq `prefix_of` seq_blocks sq' }.

#[export] Instance grown_preorder : PreOrder grown.
Proof.
  split; [by intros s; split|]. intros s1 s2 s3 [? ? ?] [? ? ?]. split; [congruence..|by etrans].
Qed.

Lemma grow_id sq p b sq' p' : Sequence.grow sq p = Ret (b, sq', p') → grown sq sq'.
Proof.
  unfold Sequence.grow. intros Hx. exec_inv Hx. destruct a as [[?|] ?]; simplify_eq; [|done].
  split; [done..|]. simpl. by apply prefix_app_r.
Qed.

Lemma alloc_tail_frame n total sq s failed sq' s' :
  alloc_tail n total sq s = Ret (failed, sq', s') → same_frame s s' ∧ grown sq sq'.
Proof.
  revert sq s. induction n as [|n IH]; intros sq s; simpl; [by intros [= <- <- <-]|].
  intros Hx. exec_inv Hx. destruct a as [[[b|] sq1] p1]; apply grow_id in Ha.
  - apply IH in Hx as [Hf Hid]. split; [|by etrans]. by etrans; [|exact Hf].
  - exec_inv Hx. apply evict_prefix_frame in Ha0.
    destruct a0 as [[[b|] sq2] p2]; apply grow_id in Ha1; simplify_eq/=.
    + apply IH in Hx as [Hf Hid]. split; [|by do 2 (etrans; [eassumption|])].
      etrans; [|exact Hf]. trans (set_pool p1 s); [done|]. by trans a.
    + split; [|by etrans]. trans (set_pool p1 s); [done|]. by trans a.
Qed.

(** The blocks of a request found in the prefix cache and the tokens they stand
    for: those the request brings, or what a lookup of its prompt finds, in the
    cache as it has become since it was [c0]. *)
Definition prefix_hit (c0 : RadixPrefixCache) (req : NewRequest) (bs : list nat) (tokens : Z) : Prop :=
  match cached_blocks req with
  | [] => ∃ c hit c', rtc cache_step c0 c ∧
      RadixPrefixCache.lookup (req_prompt req) c = Ret (hit, c') ∧
      (bs, tokens) = match hit with Some (n, bs) => (bs, Z.of_nat n) | None => ([], 0%Z) end
  | _ => bs = cached_blocks req ∧ tokens = prefix_cached_tokens req
  end.

Lemma resolve_prefix_frame req s bs n s' :
  resolve_prefix req s = Ret (bs, n, s') → same_frame s s' ∧ prefix_hit (prefix s) req bs n.
Proof.
  unfold resolve_prefix, prefix_hit. destruct (cached_blocks req); [|by intros [= <- <- <-]].
  intros Hx. exec_inv Hx. destruct a as [hit c].
  assert (same_frame s (set_prefix c s)) as Hf
    by (split; try done; eapply rtc_once, cache_looks_up, Ha).
  destruct hit as [[? ?]|]; injection Hx as <- <- <-; (split; [done|]); by eexists _, _, _.
Qed.

(** ** Admission *)

(** The sequence started for a request: its prompt counts as prefilled as far as
    the blocks reach that it takes over from the prefix cache. *)
Record started (c0 : RadixPrefixCache) (req : NewRequest) (r : RunningSeq) : Prop := {
  st_id : rs_id r = req_id req;
  st_prompt : rs_prompt r = req_prompt req;
  st_params : rs_params r = req_params req;
  st_generated : num_generated r = 0%Z;
  st_state : state_ok r;
  st_from : ∃ bs tokens, prefix_hit c0 req bs tokens ∧ bs `prefix_of` seq_blocks (rs_seq r) ∧
    seq_num_tokens (rs_seq r) = (if decide (bs = []) then 0%Z else tokens) ∧
    num_prefilled r = length bs * BLOCK_SIZE }.

Lemma started_mono c0 c1 req r : rtc cache_step c0 c1 → started c1 req r → started c0 req r.
Proof.
  intros Hc [? ? ? ? ? (bs & n & Hh & ?)]. split; try done. exists bs, n. split; [|done].
  unfold prefix_hit in *. destruct (cached_blocks req); [|done].
  destruct Hh as (c & hit & c' & Hr & ?). exists c, hit, c'. split; [by etrans|done].
Qed.

Lemma restore_taken req bs tokens s sq s' :
  (if decide (bs = []) then Ret (Sequence.new (req_id req), s)
   else
     '(sq, p) ← Sequence.restore_from_cache bs tokens (Sequence.new (req_id req)) (pool s);
     s ← mfold take_cached (set_pool p s) bs;
     Ret (sq, s)) = Ret (sq, s') →
  same_frame s s' ∧ seq_id sq = req_id req ∧ seq_blocks sq = bs ∧
  seq_num_tokens sq = (if decide (bs = []) then 0%Z else tokens).
Proof.
  case_decide as Hbs; [by intros [= <- <-]; subst|]. intros Hx. exec_inv Hx. destruct a as [sq1 p1].
  unfold Sequence.restore_from_cache in Ha. exec_inv Ha. injection Ha as <- <-.
  exec_inv Hx. injection Hx as <- <-. split; [|done].
  apply mfold_frame in Ha; [|apply take_cached_frame]. by etrans; [|exact Ha].
Qed.

Lemma admit_one_spec req s ok s' :
  admit_one req s = Ret (ok, s') →
  config s' = config s ∧ wait_queue s' = wait_queue s ∧ next_seq_id s' = next_seq_id s ∧
  rtc cache_step (prefix s) (prefix s') ∧
  if ok : bool then ∃ r, running s' = running s ++ [r] ∧ started (prefix s) req r
  else running s' = running s.
Proof.
  unfold admit_one. intros Hx. exec_inv Hx. destruct a as [[bs cached] s1].
  apply resolve_prefix_frame in Ha as [Hf1 Hhit].
  destruct (_ <? _)%Z; [by injection Hx as <- <-; destruct Hf1; split_and!|].
  exec_inv Hx. destruct a as [sq s2].
  apply restore_taken in Ha as (Hf2 & Hid & Hbs & Htok).
  exec_inv Hx. destruct a as [[failed sq2] s3]. apply alloc_tail_frame in Ha as [Hf3 Hg].
  assert (same_frame s s3) as [Hc Hr Hq Hn Hp] by (etrans; [exact Hf1|]; by etrans; [exact Hf2|]).
  destruct failed; injection Hx as <- <-; [by split_and!|]. simpl. split_and!; try done.
  eexists. rewrite Hr. split; [done|]. split; try done; simpl.
  - unfold rs_id. simpl. rewrite (gr_id _ _ Hg). congruence.
  - unfold state_ok. simpl. destruct (decide (length (req_prompt req) ≤ _)); [done|]. lia.
  - exists bs, cached. rewrite (gr_tokens _ _ Hg), <- Htok. split_and!; try done.
    rewrite <- Hbs. apply Hg.
Qed.

Lemma admit_loop_spec queue s blocked s' :
  admit_loop queue s = Ret (blocked, s') →
  config s' = config s ∧ next_seq_id s' = next_seq_id s ∧
  ∃ admitted new, queue = admitted ++ wait_queue s' ∧ running s' = running s ++ new ∧
    Forall2 (started (prefix s)) admitted new ∧ (blocked = true → wait_queue s' ≠ []) ∧
    (Z.of_nat (length (running s')) ≤ Z.max (max_num_seqs (config s))
                                        (Z.of_nat (length (running s))))%Z.
Proof.
  revert s. induction queue as [|req queue IH]; intros s; cbn [admit_loop];
    destruct (Z.ltb_spec (Z.of_nat (length (running s))) (max_num_seqs (config s))) as [Hlt|Hge].
  - intros [= <- <-]. split_and!; [done..|]. exists [], []. simpl.
    rewrite !app_nil_r. split_and!; try done. lia.
  - intros [= <- <-]. split_and!; [done..|]. exists [], []. simpl.
    rewrite !app_nil_r. split_and!; try done. lia.
  - intros Hx. exec_inv Hx. destruct a as [[] s1]; apply admit_one_spec in Ha as (Hc & Hq & Hn & Hp & Hr).
    + destruct Hr as (r & Hr & Hst). apply IH in Hx as (Hc' & Hn' & adm & new & -> & Hr' & Hf & Hb & Hl).
      split_and!; [congruence..|]. exists (req :: adm), (r :: new).
      rewrite Hr', Hr, <- app_assoc. split_and!; try done.
      { constructor; [done|]. eapply Forall2_impl; [exact Hf|]. intros ??. by apply started_mono. }
      revert Hl. rewrite Hr', Hr, !length_app. simpl. rewrite Hc. lia.
    + injection Hx as <- <-. split_and!; [done..|]. exists [], []. simpl.
      rewrite Hr, !app_nil_r. split_and!; try done. lia.
  - intros [= <- <-]. split_and!; [done..|]. exists [], []. simpl.
    rewrite !app_nil_r. split_and!; try done. lia.
Qed.

Lemma retire_spec s s' :
  retire_finished s = Ret s' →
  config s' = config s ∧ next_seq_id s' = next_seq_id s ∧ wait_queue s' = wait_queue s ∧
  running s' = filter (λ r, is_done s r = false) (running s) ∧ rtc cache_step (prefix s) (prefix s').
Proof.
  unfold retire_finished. intros Hm. apply mfold_frame in Hm; [by destruct Hm|intros ???; apply cache_completed_frame].
Qed.

(** ** Reachable schedulers *)

(** [sched_reach n s]: the operations, [n] of which issued a sequence id, lead
    from a new scheduler to [s]. *)
Inductive sched_reach : nat → Scheduler → Prop :=
| sr_new cfg p : config_ok cfg → sched_reach 0 (new cfg p)
| sr_add n s req id s' :
    sched_reach n s → add_request req s = (id, s') → sched_reach (S n) s'
| sr_schedule n s sch s' :
    sched_reach n s → schedule s = Ret (sch, s') → sched_reach n s'
| sr_step n s id k : sched_reach n s → sched_reach n (on_step_complete id k s)
| sr_cancel n s id s' : sched_reach n s → cancel id s = Ret s' → sched_reach n s'
| sr_take n s out s' :
    sched_reach n s → take_completed_prefill s = Ret (out, s') → sched_reach n s'
| sr_admit n s t s' :
    sched_reach n s → admit_transferred t s = Ret s' → sched_reach (S n) s'.

(** The ids of the live requests, running and waiting. *)
Definition live_ids (s : Scheduler) : list Z := running_ids s ++ (req_id <$> wait_queue s).

Record sched_ok (n : nat) (s : Scheduler) : Prop := {
  so_config : config_ok (config s);
  so_state : Forall state_ok (running s);
  so_next : (Z.of_nat n < u64_max)%Z → next_seq_id s = (1 + Z.of_nat n)%Z;
  so_range : (Z.of_nat n < u64_max)%Z →
             Forall (λ id, (1 ≤ id ≤ Z.of_nat n)%Z) (live_ids s);
  so_nodup : (Z.of_nat n < u64_max)%Z → NoDup (live_ids s) }.

(** Dropping live requests, or moving them from the queue to the batch, keeps
    the invariant. *)
Lemma sched_ok_sub n s s' :
  sched_ok n s → config s' = config s → next_seq_id s' = next_seq_id s →
  Forall state_ok (running s') → (live_ids s') `sublist_of` (live_ids s) → sched_ok n s'.
Proof.
  intros [Hc _ Hn Hr Hd] Hc' Hn' Hst Hsub. split; [by rewrite Hc'|done|by rewrite Hn'|..].
  - intros Hlt. eapply Forall_forall. intros id Hid.
    pose proof (Hr Hlt) as Hall. rewrite Forall_forall in Hall. apply Hall.
    by eapply elem_of_sublist.
  - intros Hlt. by eapply sublist_NoDup; [apply Hd|].
Qed.

(** One more live request, under the next id. *)
Lemma sched_ok_new n s s' :
  sched_ok n s → config s' = config s → next_seq_id s' = wadd64 (next_seq_id s) 1 →
  Forall state_ok (running s') →
  (live_ids s' ≡ₚ next_seq_id s :: live_ids s ∨ live_ids s' = live_ids s) → sched_ok (S n) s'.
Proof.
  intros [Hc _ Hn Hr Hd] Hc' Hn' Hst Hids. split; [by rewrite Hc'|done|..];
    intros Hlt; assert (Z.of_nat n < u64_max)%Z as Hlt' by lia;
    specialize (Hn Hlt'); specialize (Hr Hlt'); specialize (Hd Hlt').
  - rewrite Hn', Hn. unfold wadd64, u64_modulus. unfold u64_max in *. rewrite Z.mod_small; lia.
  - assert (Forall (λ id, (1 ≤ id ≤ Z.of_nat (S n))%Z) (live_ids s)) as Hr'.
    { eapply Forall_impl; [exact Hr|]. simpl. lia. }
    destruct Hids as [-> | ->]; [|done]. constructor; [lia|done].
  - destruct Hids as [-> | ->]; [|done]. constructor; [|done]. intros Hin.
    rewrite Forall_forall in Hr. apply Hr in Hin. lia.
Qed.

(** [schedule] in terms of its phases. *)
Lemma schedule_spec s sch s' :
  config_ok (config s) → Forall state_ok (running s) → schedule s = Ret (sch, s') →
  ∃ admitted new,
    let rs := filter (λ r, is_done s r = false) (running s) ++ new in
    wait_queue s = admitted ++ wait_queue s' ∧ Forall2 (started (prefix s)) admitted new ∧
    config s' = config s ∧ next_seq_id s' = next_seq_id s ∧
    Forall state_ok rs ∧ Forall2 advanced rs (running s') ∧
    prefill sch = omap chunk_between (zip rs (running s')) ∧
    (∃ k, decode sch = take k (rs_id <$> filter (λ r, is_decoding r = true) (running s')) ∧
          Z.of_nat k = Z.min (Z.of_nat (length (filter (λ r, is_decoding r = true) rs)))
                        (max_num_batched_tokens (config s)) ∧
          (total_tokens (prefill sch) ≤ max_num_batched_tokens (config s) - Z.of_nat k)%Z) ∧
    (∀ p n, p ∈ prefill sch → chunked_prefill_size (config s) = Some n →
            (Z.of_nat (length (ps_tokens p)) ≤ n)%Z) ∧
    back_pressure sch = negb (bool_decide (wait_queue s' = [])) ∧
    (Z.of_nat (length rs) ≤ Z.max (max_num_seqs (config s)) (Z.of_nat (length (running s))))%Z ∧
    ((0 < max_num_batched_tokens (config s))%Z → chunked_prefill_size (config s) ≠ Some 0%Z →
     filter (λ r, is_decoding r = true) rs = [] → rs ≠ [] → prefill sch ≠ []).
Proof.
  intros Hcfg Hst Hs. unfold schedule in Hs. exec_inv Hs. destruct a0 as [blocked s2].
  apply retire_spec in Ha as (Hc1 & Hn1 & Hq1 & Hr1 & Hp1).
  rewrite Hq1 in Ha0.
  apply admit_loop_spec in Ha0 as (Hc2 & Hn2 & adm & new & Hq2 & Hr2 & Hf2 & Hb2 & Hl2).
  rewrite Hr1 in Hr2, Hl2. rewrite Hc1 in Hc2, Hl2.
  assert (Forall state_ok (running s2)) as Hok.
  { rewrite Hr2. apply Forall_app. split.
    - by apply Forall_filter.
    - clear -Hf2. induction Hf2 as [|???? [] ?]; constructor; done. }
  injection Hs as Hs. unfold build in Hs.
  rewrite Hc2 in Hs. set (k := Z.min _ _) in Hs. set (budget := ssub _ k) in Hs.
  pose proof (prefill_loop_spec (chunked_prefill_size (config s)) budget (running s2)
                (cfg_chunk _ Hcfg) ltac:(unfold budget, ssub; lia) Hok) as Hpl.
  pose proof (prefill_loop_work (chunked_prefill_size (config s)) budget (running s2)
                (cfg_chunk _ Hcfg)) as Hwork.
  destruct (prefill_loop _ budget (running s2)) as [steps rs'].
  destruct Hpl as (Hadv & Hsteps & Htot & Hcap). simplify_eq. simpl.
  pose proof (cfg_batched _ Hcfg) as Hbatch. assert (0 ≤ k)%Z as Hk by (unfold k; lia).
  exists adm, new. rewrite <- Hr2. split_and!; try done; try congruence.
  - eapply Forall2_impl; [exact Hf2|]. intros ??. by apply started_mono.
  - exists (Z.to_nat k). rewrite Z2Nat.id by done. split_and!; [done|done|].
    etrans; [exact Htot|]. unfold budget, ssub, k. lia.
  - destruct blocked; [|done]. by rewrite bool_decide_eq_false_2 by auto.
  - pose proof (length_filter (λ r, is_done s r = false) (running s)). lia.
  - intros Hpos Hnz Hdec Hne. apply Hwork; try done.
    unfold budget, k. rewrite Hdec. unfold ssub. simpl. lia.
Qed.

(** ** The invariant is kept *)

Lemma advanced_ids rs rs' : Forall2 advanced rs rs' → rs_id <$> rs' = rs_id <$> rs.
Proof.
  induction 1 as [|r r' rs rs' Ha _ IH]; csimpl; [done|].
  unfold rs_id at 1. by rewrite (adv_seq _ _ Ha), IH.
Qed.

Lemma advanced_state rs rs' : Forall2 advanced rs rs' → Forall state_ok rs'.
Proof. induction 1 as [|r r' rs rs' Ha _ IH]; [done|constructor; [exact (adv_prefilling _ _ Ha)|done]]. Qed.

Lemma started_ids c0 reqs rs : Forall2 (started c0) reqs rs → rs_id <$> rs = req_id <$> reqs.
Proof. induction 1 as [|q r qs rs Hs _ IH]; csimpl; [done|]. by rewrite (st_id _ _ _ Hs), IH. Qed.

Lemma fmap_filter_sublist {A B} (f : A → B) (P : A → Prop) `{!∀ x, Decision (P x)} l :
  f <$> filter P l `sublist_of` f <$> l.
Proof. apply fmap_sublist, sublist_filter. Qed.

Lemma update_first_spec id f rs :
  (∀ r, rs_id (f r) = rs_id r) → (∀ r, state_ok r → state_ok (f r)) → Forall state_ok rs →
  Forall state_ok (update_first id f rs) ∧ rs_id <$> update_first id f rs = rs_id <$> rs.
Proof.
  intros Hid Hst. induction 1 as [|r rs Hr Hrs [IH1 IH2]]; simpl; [done|].
  case_decide; csimpl; rewrite ?Hid, ?IH2; split; try done; constructor; auto.
Qed.

Lemma remove_first_spec id rs r rs' :
  remove_first id rs = Some (r, rs') → ∃ l1 l2, rs = l1 ++ r :: l2 ∧ rs' = l1 ++ l2.
Proof.
  revert rs'. induction rs as [|x rs IH]; intros rs'; simpl; [done|]. case_decide.
  - intros [= -> ->]. by exists [], rs'.
  - destruct (remove_first id rs) as [[y rs2]|]; [|done]. intros [= -> <-].
    destruct (IH rs2) as (l1 & l2 & -> & ->); [done|]. by exists (x :: l1), l2.
Qed.

Lemma take_loop_spec rs s out keep s' :
  take_loop rs s = Ret (out, keep, s') →
  same_frame s s' ∧ out = hand_over <$> filter (λ r, prefill_done r = true) rs ∧
  keep = filter (λ r, prefill_done r = false) rs.
Proof.
  revert s out keep. induction rs as [|r rs IH]; intros s out keep; cbn [take_loop].
  { by intros [= <- <- <-]. }
  rewrite !filter_cons. intros Hx. destruct (prefill_done r) eqn:Hd; exec_inv Hx.
  - destruct a0 as [[out1 keep1] s1]. injection Hx as <- <- <-.
    apply IH in Ha0 as (Hf & -> & ->). split_and!; [|by case_decide|by case_decide].
    etrans; [|exact Hf]. eapply mfold_frame; [|exact Ha]. clear. intros s b s' Hx.
    unfold release_block in Hx. exec_inv Hx. by injection Hx as <-.
  - destruct a as [[out1 keep1] s1]. injection Hx as <- <- <-.
    apply IH in Ha as (Hf & -> & ->). split_and!; [done|by case_decide|by case_decide].
Qed.

Lemma grow_all_id n sq p sq' p' :
  grow_all n sq p = Ret (Some sq', p') → seq_id sq' = seq_id sq.
Proof.
  revert sq p. induction n as [|n IH]; intros sq p; simpl; [by intros [= <- <-]|].
  intros Hx. exec_inv Hx. destruct a as [[[b|] sq1] p1]; [|done].
  apply grow_id, gr_id in Ha. apply IH in Hx. congruence.
Qed.

Lemma admit_transferred_spec t s s' :
  admit_transferred t s = Ret s' →
  config s' = config s ∧ next_seq_id s' = wadd64 (next_seq_id s) 1 ∧
  wait_queue s' = wait_queue s ∧
  (running s' = running s ∨ ∃ r, running s' = running s ++ [r] ∧
     rs_id r = next_seq_id s ∧ rs_state r = Decoding ∧ rs_prompt r = ts_prompt t ∧
     rs_params r = ts_params t ∧ num_prefilled r = ts_num_prefilled t ∧
     num_generated r = ts_num_generated t).
Proof.
  unfold admit_transferred. intros Hx. exec_inv Hx. destruct a as [[sq|] p]; simplify_eq/=.
  - split_and!; [done..|]. right. eexists. split; [done|]. split_and!; try done.
    apply grow_all_id in Ha. done.
  - split_and!; [done..|]. by left.
Qed.

Lemma sched_reach_ok n s : sched_reach n s → sched_ok n s.
Proof.
  induction 1 as [cfg p Hc|n s req id s' _ IH Hx|n s sch s' _ IH Hx|n s id k _ IH
                 |n s id s' _ IH Hx|n s out s' _ IH Hx|n s t s' _ IH Hx].
  - split; simpl; try done; intros; constructor.
  - unfold add_request in Hx. injection Hx as <- <-.
    apply (sched_ok_new _ _ _ IH); simpl; [done..|apply IH|left].
    unfold live_ids. simpl. unfold running_ids. simpl. rewrite fmap_app. csimpl.
    by rewrite app_assoc, <- Permutation_cons_append.
  - destruct (schedule_spec _ _ _ (so_config _ _ IH) (so_state _ _ IH) Hx)
      as (adm & new & Hq & Hst & Hc & Hn & Hok & Hadv & _).
    apply (sched_ok_sub _ _ _ IH); [done..|by eapply advanced_state|].
    unfold live_ids, running_ids. rewrite Hq, (advanced_ids _ _ Hadv), !fmap_app.
    rewrite (started_ids _ _ _ Hst), <- app_assoc. apply sublist_app; [|done].
    apply fmap_filter_sublist.
  - destruct (update_first_spec id (advance_seq k) (running s)) as [Hst Hid]; [done..|apply IH|].
    apply (sched_ok_sub _ _ _ IH); [done..|].
    unfold live_ids, running_ids. simpl. by rewrite Hid.
  - unfold cancel in Hx. destruct (remove_first id (running s)) as [[r rs]|] eqn:Hr;
      [|by injection Hx as <-].
    apply cache_completed_frame in Hx as [Hc Hrun Hq Hn _]. simpl in *.
    apply remove_first_spec in Hr as (l1 & l2 & Hl & ->).
    pose proof (so_state _ _ IH) as Hst. rewrite Hl in Hst.
    apply (sched_ok_sub _ _ _ IH); [done..| |]; rewrite ?Hrun.
    + apply Forall_app in Hst as [? Hst]. apply Forall_cons in Hst as [_ ?].
      by apply Forall_app.
    + unfold live_ids, running_ids. rewrite Hrun, Hq, Hl, !fmap_app. csimpl.
      apply sublist_app; [|done]. apply sublist_app; [done|]. by constructor.
  - unfold take_completed_prefill in Hx. exec_inv Hx. destruct a as [[o keep] s1].
    injection Hx as <- <-. apply take_loop_spec in Ha as ([Hc Hr Hq Hn _] & _ & ->).
    apply (sched_ok_sub _ _ _ IH); [done..| |]; simpl.
    + apply Forall_filter, IH.
    + unfold live_ids, running_ids. simpl. rewrite Hq. apply sublist_app; [|done].
      apply fmap_filter_sublist.
  - apply admit_transferred_spec in Hx as (Hc & Hn & Hq & Hr).
    apply (sched_ok_new _ _ _ IH); [done..| |]; unfold live_ids, running_ids; rewrite ?Hq.
    + destruct Hr as [-> |(r & -> & _ & Hd & _)]; [apply IH|]. apply Forall_app.
      split; [apply IH|]. constructor; [|done]. unfold state_ok. by rewrite Hd.
    + destruct Hr as [-> |(r & -> & <- & _)]; [by right|left]. rewrite fmap_app, <- app_assoc. csimpl.
      by rewrite <- Permutation_middle.
Qed.

(** ** The theorems *)


(** Requests are neither lost, duplicated nor reordered.  The queue before a
    step is the requests the step admits, in order, followed by the queue
    after it; the batch after it is the unfinished sequences in their order
    followed by the admitted ones.  The batch does not grow past
    [max_num_seqs], and back-pressure is reported exactly when requests wait. *)
Theorem schedule_fifo n s sch s' :
  sched_reach n s → schedule s = Ret (sch, s') →
  ∃ admitted,
    wait_queue s = admitted ++ wait_queue s' ∧
    running_ids s'
      = (rs_id <$> filter (λ r, is_done s r = false) (running s)) ++ (req_id <$> admitted) ∧
    (Z.of_nat (length (running s'))
       ≤ Z.max (max_num_seqs (config s)) (Z.of_nat (length (running s))))%Z ∧
    back_pressure sch = negb (bool_decide (wait_queue s' = [])).
Proof.
  intros Hok%sched_reach_ok Hs.
  destruct (schedule_spec _ _ _ (so_config _ _ Hok) (so_state _ _ Hok) Hs)
    as (adm & new & Hq & Hst & _ & _ & _ & Hadv & _ & _ & _ & Hbp & Hlen & _).
  exists adm. split_and!; try done.
  - unfold running_ids. by rewrite (advanced_ids _ _ Hadv), fmap_app, (started_ids _ _ _ Hst).
  - by rewrite <- (Forall2_length _ _ _ Hadv).
Qed.

(** The ids of the live requests, running and waiting, are distinct and
    below the next id, as long as fewer than [u64::MAX] ids were issued. *)
Theorem live_ids_distinct n s :
  sched_reach n s → (Z.of_nat n < u64_max)%Z →
  NoDup (live_ids s) ∧ Forall (λ id, (1 ≤ id < next_seq_id s)%Z) (live_ids s).
Proof.
  intros Hok%sched_reach_ok Hn. split; [by apply Hok|].
  rewrite (so_next _ _ Hok Hn). eapply Forall_impl; [by apply Hok|]. simpl. lia.
Qed.

(** The scheduler is work-conserving: with a positive token budget and no
    chunk size of zero, a step that leaves sequences running has work in it. *)
Theorem schedule_has_work n s sch s' :
  sched_reach n s → schedule s = Ret (sch, s') →
  (0 < max_num_batched_tokens (config s))%Z → chunked_prefill_size (config s) ≠ Some 0%Z →
  running s' ≠ [] → prefill sch ≠ [] ∨ decode sch ≠ [].
Proof.
  intros Hok%sched_reach_ok Hs Hpos Hnz Hne.
  destruct (schedule_spec _ _ _ (so_config _ _ Hok) (so_state _ _ Hok) Hs)
    as (adm & new & _ & _ & _ & _ & _ & Hadv & _ & (k & Hd & Hk & _) & _ & _ & _ & Hwork).
  set (rs := filter _ (running s) ++ new) in *.
  destruct (filter (λ r, is_decoding r = true) rs) as [|r l] eqn:Hdec.
  - left. apply Hwork; [done..|]. intros Hnil. rewrite Hnil in Hadv. by inversion Hadv.
  - right. assert (r ∈ rs ∧ is_decoding r = true) as [Hr Hrd].
    { assert (r ∈ filter (λ r, is_decoding r = true) rs) as Hin by (rewrite Hdec; left).
      by apply list_elem_of_filter in Hin as [? ?]. }
    apply list_elem_of_lookup in Hr as [i Hi].
    destruct (Forall2_lookup_l _ _ _ _ _ Hadv Hi) as (r' & Hi' & Ha).
    rewrite (adv_decoding _ _ Ha (proj1 (is_decoding_true r) Hrd)) in Hi'.
    assert (r ∈ filter (λ r, is_decoding r = true) (running s')) as Hin'.
    { apply list_elem_of_filter. split; [done|]. by apply list_elem_of_lookup_2 in Hi'. }
    rewrite Hd. destruct (filter _ (running s')) as [|x xs]; [by apply elem_of_nil in Hin'|].
    destruct k as [|k]; [|done]. simpl in Hk. lia.
Qed.

(** A request no cached prefix can bring within the admission estimate. *)
Definition oversized (cfg : SchedulerConfig) (req : NewRequest) : Prop :=
  (2 * max_num_batched_tokens cfg < max_tokens (req_params req))%Z ∧
  (Z.of_nat (length (req_prompt req)) + max_tokens (req_params req) ≤ u64_max)%Z ∧
  (0 ≤ prefix_cached_tokens req)%Z.

Lemma admit_oversized req s ok s' :
  oversized (config s) req → (0 ≤ max_num_batched_tokens (config s))%Z →
  admit_one req s = Ret (ok, s') → ok = false.
Proof.
  intros (Hbig & Hmax & Hcached) Hpos. unfold admit_one. intros Hx. exec_inv Hx.
  destruct a as [[bs cached] s1]. pose proof (proj1 (resolve_prefix_frame _ _ _ _ _ Ha)) as Hf1.
  assert (0 ≤ cached)%Z.
  { unfold resolve_prefix in Ha. destruct (cached_blocks req); [|by simplify_eq].
    exec_inv Ha. destruct a as [[[? ?]|] c]; simplify_eq; lia. }
  rewrite (fr_config _ _ Hf1) in Hx.
  set (est := wadd64 _ _) in Hx.
  assert (wmul64 (max_num_batched_tokens (config s)) 2 < est)%Z as Hlt.
  { unfold est, wmul64, wadd64, ssub, u64_modulus. unfold u64_max in *.
    rewrite !Z.mod_small by lia. lia. }
  rewrite (proj2 (Z.ltb_lt _ _) Hlt) in Hx. by injection Hx as <- _.
Qed.

(** A request whose [max_tokens] alone exceed twice the token budget blocks
    the queue for good: no step admits it, nor anything behind it, and every
    step reports back-pressure. *)
Theorem oversized_request_blocks n s sch s' req queue :
  sched_reach n s → schedule s = Ret (sch, s') → wait_queue s = req :: queue →
  oversized (config s) req → wait_queue s' = req :: queue ∧ back_pressure sch = true.
Proof.
  intros Hok%sched_reach_ok Hs Hq Hover.
  assert (wait_queue s' = req :: queue) as Hq'.
  { pose proof Hs as Hs2. unfold schedule in Hs2. exec_inv Hs2. destruct a0 as [blocked s2].
    apply retire_spec in Ha as (Hc1 & _ & Hq1 & _ & _). rewrite Hq1, Hq in Ha0.
    assert (wait_queue s' = wait_queue s2) as ->.
    { injection Hs2 as Hs2. unfold build in Hs2. destruct (prefill_loop _ _ _). by simplify_eq. }
    cbn [admit_loop] in Ha0. destruct (_ <? _)%Z; [|by injection Ha0 as _ <-].
    exec_inv Ha0. destruct a0 as [ok s3].
    assert (ok = false) as ->.
    { eapply admit_oversized; [| |exact Ha]; rewrite Hc1; [done|]. apply Hok. }
    by injection Ha0 as _ <-. }
  split; [done|].
  destruct (schedule_spec _ _ _ (so_config _ _ Hok) (so_state _ _ Hok) Hs)
    as (adm & new & _ & _ & _ & _ & _ & _ & _ & _ & _ & Hbp & _).
  rewrite Hbp, Hq'. done.
Qed.

(** ** Concrete runs *)

Definition after_add (prompt : list Z) (n : Z) (s : Scheduler) : Scheduler :=
  (add_request (mk_request 0 prompt (mk_params n f32_zero f32_one 0 [] []) 0 []) s).2.

Definition after_schedule (s : Scheduler) : Scheduler :=
  match schedule s with Ret (_, s') => s' | Panic => s end.

Lemma reach_after_add prompt k n s : sched_reach n s → sched_reach (S n) (after_add prompt k s).
Proof. intros Hr. by eapply sr_add. Qed.

Lemma reach_after_schedule n s : sched_reach n s → sched_reach n (after_schedule s).
Proof.
  intros Hr. unfold after_schedule. destruct (schedule s) as [[sch s']|] eqn:Hs; [|done].
  by eapply sr_schedule.
Qed.

Definition ex_config : SchedulerConfig := mk_sched_config 4 64 1000 (Some 32%Z).

(** One request for a single token, run to its end. *)
Definition run_one (prompt : list Z) : Scheduler :=
  after_schedule (on_step_complete 1 1 (after_schedule
    (after_add prompt 1 (new ex_config (KvBlockPool.new 8))))).

Lemma run_one_reach prompt : sched_reach 1 (run_one prompt).
Proof.
  apply reach_after_schedule, sr_step, reach_after_schedule, reach_after_add, sr_new.
  split; simpl; [lia|lia|]. intros ? [= <-]. lia.
Qed.

(** Two requests that share a cached prefix crash the scheduler.  Once a
    block of prefix is cached, a step that admits two requests starting with it
    takes the block over for the first and fails the assertion of [reclaim] for
    the second; no check keeps a block with a live reference from being
    reused. *)
Theorem shared_prefix_panics :
  ∃ s, sched_reach 3 s ∧ Forall (λ q, cached_blocks q = []) (wait_queue s) ∧
    running s = [] ∧ length (wait_queue s) = 2 ∧ schedule s = Panic.
Proof.
  exists (after_add (toks_from 0 32) 4 (after_add (toks_from 0 32) 4 (run_one (toks_from 0 16)))).
  split; [apply reach_after_add, reach_after_add, run_one_reach|].
  split; [vm_compute; repeat constructor|]. split_and!; vm_compute; reflexivity.
Qed.

(** Finishing leaks blocks.  After a single request with a prompt of 17
    tokens is done, the scheduler is idle, yet one of the two blocks of the
    sequence stays in use, owned by no sequence and not in the prefix cache. *)
Theorem tail_block_leaks :
  ∃ s, sched_reach 1 s ∧ is_idle s = true ∧ KvBlockPool.in_use (pool s) = 1 ∧
    abs (pool s) !! 1 = Some (InUse 1) ∧ all_blocks (root (prefix s)) = [0].
Proof.
  exists (run_one (toks_from 0 17)). split; [apply run_one_reach|].
  split_and!; vm_compute; reflexivity.
Qed.

(** A batch of two: one prompt of 40 tokens, one of 20. *)
Definition ex_batch : Scheduler :=
  after_add (toks_from 100 20) 4 (after_add (toks_from 0 40) 4
    (new ex_config (KvBlockPool.new 8))).

Lemma ex_batch_reach : sched_reach 2 ex_batch.
Proof.
  apply reach_after_add, reach_after_add, sr_new.
  split; simpl; [lia|lia|]. intros ? [= <-]. lia.
Qed.

Definition schedule_ret (s : Scheduler) : Schedule * Scheduler :=
  match schedule s with Ret r => r | Panic => (mk_schedule [] [] false, s) end.

Lemma ex_batch_schedule : schedule ex_batch = Ret (schedule_ret ex_batch).
Proof. vm_compute. reflexivity. Qed.


Lemma schedule_fifo_witness :
  ∃ admitted, wait_queue ex_batch = admitted ++ wait_queue (schedule_ret ex_batch).2 ∧
    running_ids (schedule_ret ex_batch).2 = [1; 2]%Z.
Proof.
  destruct (schedule_fifo 2 ex_batch (schedule_ret ex_batch).1 (schedule_ret ex_batch).2
              ex_batch_reach) as (adm & Hq & _).
  - rewrite <- surjective_pairing. exact ex_batch_schedule.
  - exists adm. split; [exact Hq|]. vm_compute. reflexivity.
Defined.

Lemma live_ids_distinct_witness :
  live_ids ex_batch = [1; 2]%Z ∧ NoDup (live_ids ex_batch).
Proof.
  split; [vm_compute; reflexivity|].
  exact (proj1 (live_ids_distinct 2 ex_batch ex_batch_reach eq_refl)).
Defined.

Lemma schedule_has_work_witness :
  prefill (schedule_ret ex_batch).1 ≠ [] ∨ decode (schedule_ret ex_batch).1 ≠ [].
Proof.
  apply (schedule_has_work 2 ex_batch _ (schedule_ret ex_batch).2 ex_batch_reach).
  - rewrite <- surjective_pairing. exact ex_batch_schedule.
  - reflexivity.
  - discriminate.
  - vm_compute. discriminate.
Defined.

Definition ex_oversized : Scheduler :=
  after_add (toks_from 100 20) 4 (after_add (toks_from 0 40) 200
    (new ex_config (KvBlockPool.new 8))).

Lemma oversized_request_blocks_witness :
  ∃ sch s', schedule ex_oversized = Ret (sch, s') ∧ length (wait_queue s') = 2 ∧
    back_pressure sch = true.
Proof.
  assert (schedule ex_oversized = Ret (schedule_ret ex_oversized)) as Hs
    by (vm_compute; reflexivity).
  exists (schedule_ret ex_oversized).1, (schedule_ret ex_oversized).2.
  rewrite <- surjective_pairing. split; [exact Hs|].
  destruct (oversized_request_blocks 2 ex_oversized (schedule_ret ex_oversized).1
    (schedule_ret ex_oversized).2
    (mk_request 1 (toks_from 0 40) (mk_params 200 f32_zero f32_one 0 [] []) 0 [])
    [mk_request 2 (toks_from 100 20) (mk_params 4 f32_zero f32_one 0 [] []) 0 []]) as [Hq Hb].
  - apply reach_after_add, reach_after_add, sr_new.
    split; simpl; [lia|lia|]. intros ? [= <-]. lia.
  - rewrite <- surjective_pairing. exact Hs.
  - reflexivity.
  - split; [reflexivity|]. split; [vm_compute; discriminate|simpl; lia].
  - split; [rewrite Hq; reflexivity|exact Hb].
Defined.
