(* ===== verification/PdScheduler.v ===== *)
(** * PdScheduler: disaggregated prefill and decode

    [crates/justapi-inference/src/pd.rs]: two schedulers with pools of their
    own; a sequence that finished its prefill is handed from the first to the
    second. *)

From S2P Require Import Prelude F32 KvCache RadixCache Model Scheduler.

(** ** Data *)

Record PdStats := mk_pd_stats {
  pds_prefill : SchedulerStats; pds_decode : SchedulerStats; pds_total_transferred : Z }.

Record PdScheduler := mk_pd {
  pd_prefill : Scheduler;
  pd_decode : Scheduler;
  total_transferred_tokens : Z }.

Module PdScheduler.

Definition new (prefill_config : SchedulerConfig) (prefill_pool : KvBlockPool)
    (decode_config : SchedulerConfig) (decode_pool : KvBlockPool) : PdScheduler :=
  mk_pd (Scheduler.new prefill_config prefill_pool) (Scheduler.new decode_config decode_pool) 0.

Definition stats (pd : PdScheduler) : PdStats :=
  mk_pd_stats (Scheduler.stats (pd_prefill pd)) (Scheduler.stats (pd_decode pd))
    (total_transferred_tokens pd).

Definition is_idle (pd : PdScheduler) : bool :=
  Scheduler.is_idle (pd_prefill pd) && Scheduler.is_idle (pd_decode pd).

Definition set_prefill (s : Scheduler) (pd : PdScheduler) : PdScheduler :=
  mk_pd s (pd_decode pd) (total_transferred_tokens pd).
Definition set_decode (s : Scheduler) (pd : PdScheduler) : PdScheduler :=
  mk_pd (pd_prefill pd) s (total_transferred_tokens pd).

(** The id the prefill scheduler assigns is dropped. *)
Definition add_request (req : NewRequest) (pd : PdScheduler) : PdScheduler :=
  set_prefill (Scheduler.add_request req (pd_prefill pd)).2 pd.

Definition schedule_prefill (pd : PdScheduler) : exec (Schedule * PdScheduler) :=
  '(sch, s) ← Scheduler.schedule (pd_prefill pd); Ret (sch, set_prefill s pd).

Definition on_prefill_complete (id n : Z) (pd : PdScheduler) : PdScheduler :=
  set_prefill (Scheduler.on_step_complete id n (pd_prefill pd)) pd.

Definition count_transferred (transferred : list TransferableSequence) (total : Z) : Z :=
  foldl (λ total t, sadd64 total (Z.of_nat (ts_num_prefilled t))) total transferred.

Definition transfer_completed (pd : PdScheduler) : exec (nat * PdScheduler) :=
  '(transferred, p) ← Scheduler.take_completed_prefill (pd_prefill pd);
  d ← mfold (λ d t, Scheduler.admit_transferred t d) (pd_decode pd) transferred;
  Ret (length transferred,
       mk_pd p d (count_transferred transferred (total_transferred_tokens pd))).

Definition schedule_decode (pd : PdScheduler) : exec (Schedule * PdScheduler) :=
  '(sch, s) ← Scheduler.schedule (pd_decode pd); Ret (sch, set_decode s pd).

Definition on_decode_complete (id n : Z) (pd : PdScheduler) : PdScheduler :=
  set_decode (Scheduler.on_step_complete id n (pd_decode pd)) pd.

Definition cancel (id : Z) (pd : PdScheduler) : exec PdScheduler :=
  p ← Scheduler.cancel id (pd_prefill pd);
  d ← Scheduler.cancel id (pd_decode pd);
  Ret (set_decode d (set_prefill p pd)).

End PdScheduler.

Import PdScheduler.

(** ** Allocation from a pool with free blocks *)

Lemma alloc_free p :
  pool_wf p → free p ≠ [] →
  ∃ b p', KvBlockPool.alloc p = Ret (Some b, p') ∧ pool_wf p' ∧
          length (free p) = S (length (free p')).
Proof.
  intros Hwf Hne. destruct (free p) as [|b rest] eqn:Hf; [done|].
  destruct (claim_fresh p b rest Hwf Hf) as (p' & Hc & Hwf' & _).
  exists b, p'. unfold KvBlockPool.alloc. rewrite Hf. split_and!; [done..|].
  unfold KvBlockPool.claim in Hc. apply bind_Ret_inv in Hc as (m & _ & [= <-]). done.
Qed.

Lemma grow_all_free n sq p :
  pool_wf p → n ≤ length (free p) →
  ∃ sq' p', Scheduler.grow_all n sq p = Ret (Some sq', p') ∧ pool_wf p' ∧
            length (free p) = n + length (free p').
Proof.
  revert sq p. induction n as [|n IH]; intros sq p Hwf Hn; simpl; [by exists sq, p|].
  destruct (alloc_free p Hwf) as (b & p1 & Ha & Hwf1 & Hlen);
    [by intros Hf; rewrite Hf in Hn; simpl in Hn; lia|].
  unfold Sequence.grow. rewrite Ha. simpl.
  destruct (IH (mk_seq (seq_id sq) (seq_blocks sq ++ [b]) (seq_num_tokens sq)) p1)
    as (sq' & p' & -> & Hwf' & Hlen'); [done|lia|].
  exists sq', p'. split_and!; [done|done|lia].
Qed.

(** ** Transfers *)

(** The blocks [admit_transferred] asks for. *)
Definition blocks_needed (t : TransferableSequence) : nat :=
  div_ceil (Z.to_nat (wadd64 (Z.of_nat (ts_num_prefilled t)) (ts_num_generated t))) BLOCK_SIZE.

(** The decoding sequence that goes on from a transfer. *)
Record resumed (t : TransferableSequence) (r : RunningSeq) : Prop := {
  re_prompt : rs_prompt r = ts_prompt t;
  re_params : rs_params r = ts_params t;
  re_prefilled : num_prefilled r = ts_num_prefilled t;
  re_generated : num_generated r = ts_num_generated t;
  re_state : rs_state r = Decoding }.

Lemma admit_all_spec ts d d' :
  mfold (λ d t, Scheduler.admit_transferred t d) d ts = Ret d' →
  wait_queue d' = wait_queue d ∧
  ∃ taken new, taken `sublist_of` ts ∧ running d' = running d ++ new ∧ Forall2 resumed taken new.
Proof.
  revert d. induction ts as [|t ts IH]; intros d; simpl.
  { intros [= <-]. split; [done|]. exists [], []. by rewrite app_nil_r. }
  intros Hx. apply bind_Ret_inv in Hx as (d1 & Hd1 & Hx).
  apply Scheduler.admit_transferred_spec in Hd1 as (_ & _ & Hq & Hr).
  apply IH in Hx as (Hq' & taken & new & Hsub & Hr' & Hf). split; [congruence|].
  destruct Hr as [Hr|(r & Hr & _ & Hst & Hp & Hpar & Hpre & Hg)].
  - exists taken, new. split_and!; [by constructor|congruence|done].
  - exists (t :: taken), (r :: new). split_and!; [by constructor| |by constructor].
    by rewrite Hr', Hr, <- app_assoc.
Qed.

Lemma admit_free t d :
  pool_wf (pool d) → blocks_needed t ≤ length (free (pool d)) →
  ∃ d' r, Scheduler.admit_transferred t d = Ret d' ∧ running d' = running d ++ [r] ∧
    resumed t r ∧ pool_wf (pool d') ∧
    length (free (pool d)) = blocks_needed t + length (free (pool d')).
Proof.
  intros Hwf Hn.
  destruct (grow_all_free (blocks_needed t) (Sequence.new (next_seq_id d)) (pool d) Hwf Hn)
    as (sq & p & Hg & Hwf' & Hlen).
  unfold Scheduler.admit_transferred. cbv zeta. fold (blocks_needed t).
  cbn [set_next_id pool]. rewrite Hg. cbn [mbind exec_bind].
  eexists _, _. split; [done|]. split; [done|]. done.
Qed.

Lemma admit_all_free ts d :
  pool_wf (pool d) → sum_list (blocks_needed <$> ts) ≤ length (free (pool d)) →
  ∃ d' new, mfold (λ d t, Scheduler.admit_transferred t d) d ts = Ret d' ∧
    running d' = running d ++ new ∧ Forall2 resumed ts new.
Proof.
  revert d. induction ts as [|t ts IH]; intros d Hwf Hn; csimpl in *.
  { exists d, []. by rewrite app_nil_r. }
  destruct (admit_free t d Hwf) as (d1 & r & -> & Hr1 & Hre & Hwf1 & Hlen); [lia|].
  cbn [mbind exec_bind]. destruct (IH d1) as (d' & new & -> & Hr & Hf); [done|lia|].
  exists d', (r :: new). split_and!; [done| |by constructor]. by rewrite Hr, Hr1, <- app_assoc.
Qed.

Lemma transfer_inv pd count pd' :
  transfer_completed pd = Ret (count, pd') →
  let ready := filter (λ r, Scheduler.prefill_done r = true) (running (pd_prefill pd)) in
  running (pd_prefill pd')
    = filter (λ r, Scheduler.prefill_done r = false) (running (pd_prefill pd)) ∧
  wait_queue (pd_prefill pd') = wait_queue (pd_prefill pd) ∧
  count = length ready ∧
  mfold (λ d t, Scheduler.admit_transferred t d) (pd_decode pd) (Scheduler.hand_over <$> ready)
    = Ret (pd_decode pd').
Proof.
  unfold transfer_completed. intros Hx. apply bind_Ret_inv in Hx as ([ts p] & Hp & Hx).
  apply bind_Ret_inv in Hx as (d & Hd & Hx). injection Hx as <- <-. simpl.
  unfold Scheduler.take_completed_prefill in Hp.
  apply bind_Ret_inv in Hp as ([[out keep] s] & Ht & Hp). injection Hp as <- <-. simpl.
  apply Scheduler.take_loop_spec in Ht as ([Hc Hr Hq Hn] & -> & ->).
  split_and!; [done|done|by rewrite length_fmap|done].
Qed.

(** ** The theorems *)

(** A transfer takes exactly the sequences that finished their prefill out of
    the prefill scheduler and counts them; the decode scheduler goes on with
    some of them, in order, each with its prompt, parameters, prefilled and
    generated counts, and no other sequence changes. *)
Theorem transfer_moves_sequences pd count pd' :
  transfer_completed pd = Ret (count, pd') →
  let ready := filter (λ r, Scheduler.prefill_done r = true) (running (pd_prefill pd)) in
  running (pd_prefill pd')
    = filter (λ r, Scheduler.prefill_done r = false) (running (pd_prefill pd)) ∧
  count = length ready ∧
  ∃ taken new, taken `sublist_of` (Scheduler.hand_over <$> ready) ∧
    running (pd_decode pd') = running (pd_decode pd) ++ new ∧ Forall2 resumed taken new.
Proof.
  intros (Hr & _ & Hn & Hd)%transfer_inv. split_and!; [done..|].
  apply admit_all_spec in Hd as (_ & taken & new & ? & ? & ?). by exists taken, new.
Qed.

(** When the decode pool has free blocks for all of them, no finished
    sequence is lost: the decode scheduler goes on with every sequence the
    transfer counts. *)
Theorem transfer_keeps_all pd count pd' :
  let ready := filter (λ r, Scheduler.prefill_done r = true) (running (pd_prefill pd)) in
  transfer_completed pd = Ret (count, pd') →
  pool_wf (pool (pd_decode pd)) →
  sum_list (blocks_needed <$> (Scheduler.hand_over <$> ready))
    ≤ KvBlockPool.available (pool (pd_decode pd)) →
  ∃ new, running (pd_decode pd') = running (pd_decode pd) ++ new ∧
    Forall2 resumed (Scheduler.hand_over <$> ready) new ∧ length new = count.
Proof.
  intros ready (_ & _ & -> & Hd)%transfer_inv Hwf Hn. subst ready.
  destruct (admit_all_free _ _ Hwf Hn) as (d' & new & Hd' & Hr & Hf).
  rewrite Hd' in Hd. injection Hd as <-. exists new. split_and!; [done|done|].
  by rewrite <- (Forall2_length _ _ _ Hf), length_fmap.
Qed.

(** ** Concrete runs *)

(** Two requests of 20 tokens, prefilled and not yet handed over; the decode
    pool has [blocks] blocks. *)
Definition ex_pd (blocks : Z) : PdScheduler :=
  mk_pd (Scheduler.after_schedule
           (Scheduler.after_add (toks_from 100 20) 4 (Scheduler.after_add (toks_from 0 20) 4
              (Scheduler.new Scheduler.ex_config (KvBlockPool.new 8)))))
    (Scheduler.new Scheduler.ex_config (KvBlockPool.new blocks)) 0.

Definition transfer_ret (pd : PdScheduler) : nat * PdScheduler :=
  match transfer_completed pd with Ret r => r | Panic => (0, pd) end.

Lemma ex_pd_transfer : transfer_completed (ex_pd 8) = Ret (transfer_ret (ex_pd 8)).
Proof. vm_compute. reflexivity. Qed.

(** A full decode pool loses sequences silently: with room for one of two
    finished sequences the transfer reports two, and afterwards one request is
    in neither scheduler. *)
Theorem transfer_drops_silently :
  (transfer_ret (ex_pd 2)).1 = 2 ∧
  live_ids (pd_prefill (transfer_ret (ex_pd 2)).2) = [] ∧
  live_ids (pd_decode (transfer_ret (ex_pd 2)).2) = [1%Z].
Proof. vm_compute. auto. Qed.

(** The two schedulers number sequences independently, so a request cannot be
    cancelled by its id once it was handed over.  Of two prefilled requests the
    first is cancelled, the second handed over; it decodes under the id 1.
    Cancelling it by its own id 2 has no effect, and cancelling the first
    request once more kills it. *)
Theorem cancel_after_transfer :
  (pd ← PdScheduler.cancel 1 (ex_pd 8);
   '(_, pd) ← transfer_completed pd;
   pd2 ← PdScheduler.cancel 2 pd;
   pd1 ← PdScheduler.cancel 1 pd;
   Ret (rs_prompt <$> running (pd_decode pd2), rs_prompt <$> running (pd_decode pd1)))
  = Ret ([toks_from 100 20], []).
Proof. vm_compute. reflexivity. Qed.

Lemma transfer_moves_sequences_witness :
  let '(count, pd') := transfer_ret (ex_pd 8) in
  count = 2 ∧ running (pd_prefill pd') = [] ∧
  count = length (filter (λ r, Scheduler.prefill_done r = true) (running (pd_prefill (ex_pd 8)))).
Proof.
  rewrite (surjective_pairing (transfer_ret (ex_pd 8))).
  split; [vm_compute; reflexivity|]. split; [vm_compute; reflexivity|].
  apply (transfer_moves_sequences (ex_pd 8) _ (transfer_ret (ex_pd 8)).2).
  rewrite <- surjective_pairing. exact ex_pd_transfer.
Defined.

Lemma transfer_keeps_all_witness :
  length (running (pd_decode (transfer_ret (ex_pd 8)).2)) = 2 ∧
  ∃ new, running (pd_decode (transfer_ret (ex_pd 8)).2) = [] ++ new ∧
         length new = (transfer_ret (ex_pd 8)).1.
Proof.
  split; [vm_compute; reflexivity|].
  destruct (transfer_keeps_all (ex_pd 8) (transfer_ret (ex_pd 8)).1 (transfer_ret (ex_pd 8)).2)
    as (new & Hr & _ & Hn).
  - rewrite <- surjective_pairing. exact ex_pd_transfer.
  - apply new_wf.
  - vm_compute. lia.
  - exists new. split; [exact Hr|exact Hn].
Defined.
