(* ===== verification/Engine.v ===== *)
(** * Engine: the model registry and the generation engine

    [crates/justapi-inference/src/engine.rs]: models registered by name and
    direct generation.  The compute device and the thread a generation runs on
    are left out: [generate] gives the tokens its channel receives. *)

From S2P Require Import Prelude F32 Model SpecDecode SpecDecodeTree.

(** [Arc<dyn Model>]: the methods of a model. *)
Record DynModel := mk_dyn {
  dyn_vocab_size : Z;
  dyn_generate : list Z → SamplingParams → Sink → gen FinishReason;
  dyn_forward_logits : list Z → outcome (list f32) }.

#[export] Instance DynModel_Model : Model DynModel := {|
  Model.vocab_size := dyn_vocab_size;
  Model.generate := dyn_generate;
  Model.forward_logits := dyn_forward_logits |}.

Definition dyn {M} `{!Model M} (m : M) : DynModel :=
  mk_dyn (vocab_size m) (generate m) (forward_logits m).

Inductive ModelSource := MockSource | RealSource (path : string).

Record RegistryEntry := mk_entry { re_model : DynModel; re_source : ModelSource }.

Abbreviation ModelRegistry := (gmap string RegistryEntry).

Module ModelRegistry.

Definition register (name : string) (m : DynModel) (src : ModelSource) (r : ModelRegistry)
    : ModelRegistry := <[name := mk_entry m src]> r.
Definition get (name : string) (r : ModelRegistry) : option DynModel := re_model <$> r !! name.
Definition list (r : ModelRegistry) : list string := (map_to_list r).*1.
Definition len (r : ModelRegistry) : nat := size r.
Definition is_empty (r : ModelRegistry) : bool := Nat.eqb (size r) 0.

End ModelRegistry.

Record Engine := mk_engine { registry : ModelRegistry }.

(** [crate::DEFAULT_MOCK_VOCAB] *)
Definition DEFAULT_MOCK_VOCAB : Z := 32000.

Module Engine.

Definition new : Engine := mk_engine ∅.

Definition register (name : string) (m : DynModel) (e : Engine) : Engine :=
  mk_engine (ModelRegistry.register name m MockSource (registry e)).

Definition get (name : string) (e : Engine) : option DynModel :=
  ModelRegistry.get name (registry e).

Definition register_mock (name : string) (e : Engine) : MockModel * Engine :=
  let m := MockModel.new DEFAULT_MOCK_VOCAB in (m, register name (dyn m) e).

Definition register_speculative `{Entropy} (name : string) (target draft : DynModel)
    (gamma : nat) (seed : Z) (e : Engine) : Engine :=
  register name (dyn (mk_speculative target (mk_spec_config gamma draft seed))) e.

Definition register_tree_speculative `{Entropy} (name : string) (target draft : DynModel)
    (gamma branch : nat) (seed : Z) (e : Engine) : Engine :=
  register name (dyn (mk_tree_speculative target draft gamma branch seed)) e.

(** The build without the feature [real]. *)
Definition load (name path : string) (e : Engine) : option ModelError * Engine :=
  (Some (FeatureRequired "real"), e).

(** The tokens sent on the channel; the receiver is kept open. *)
Definition generate (name : string) (prompt : list Z) (params : SamplingParams) (e : Engine)
    : ModelError + (list GeneratedToken * outcome FinishReason) :=
  match ModelRegistry.get name (registry e) with
  | None => inl (NotFound name)
  | Some m => inr (Model.generate m prompt params (λ _ _, true) [])
  end.

Definition list_models (e : Engine) : list string := ModelRegistry.list (registry e).

Definition model_source (name : string) (e : Engine) : option ModelSource :=
  re_source <$> registry e !! name.

End Engine.

(** ** The theorems *)

Lemma get_registered name m e :
  Engine.get name (Engine.register name m e) = Some m.
Proof.
  unfold Engine.get, ModelRegistry.get. simpl. unfold ModelRegistry.register.
  by rewrite lookup_insert_eq.
Qed.

(** Serving a model through tree speculation is transparent.  An engine where
    the target is registered with a draft model streams, for every greedy
    request, exactly the tokens of plain decoding with the target; other models
    of the engine answer as before. *)
Theorem tree_speculative_transparent `{Entropy} name target draft gamma branch seed e prompt params :
  greedy params → total_model target → total_model draft →
  let e' := Engine.register_tree_speculative name target draft gamma branch seed e in
  Engine.generate name prompt params e'
    = inr (plain_generate target params (λ _ _, true) prompt seed []) ∧
  ∀ name', name' ≠ name → Engine.generate name' prompt params e' = Engine.generate name' prompt params e.
Proof.
  intros Hg Ht Hd e'. split.
  - unfold Engine.generate. change (ModelRegistry.get name (registry e')) with (Engine.get name e').
    unfold e', Engine.register_tree_speculative. rewrite get_registered. f_equal.
    set (st := mk_spec prompt 0 (AcceptanceStats.with_tree_branch (Z.of_nat branch))
                 (seed_from_u64 seed)).
    assert (left_over params st = Z.to_nat (max_tokens params)) as Hl
      by (unfold left_over; simpl; f_equal; lia).
    unfold plain_generate. rewrite <- Hl.
    change prompt with (context st) at 2.
    rewrite <- (tree_loop_plain target draft params (λ _ _, true) Hg Ht Hd
                  (Z.to_nat (max_tokens params)) gamma branch st (seed_from_u64 seed))
      by (rewrite Hl; lia).
    done.
  - intros name' Hne. unfold Engine.generate, ModelRegistry.get. simpl.
    unfold ModelRegistry.register. by rewrite lookup_insert_ne.
Qed.

Lemma tree_speculative_transparent_witness :
  let H := ex_entropy in
  let e := (Engine.register_mock "base" Engine.new).2 in
  let e' := Engine.register_tree_speculative "fast" (dyn (mk_mock 8)) (dyn (mk_mock 3)) 2 2 0 e in
  Engine.generate "fast" [2]%Z (zero_params 4 [5]%Z) e'
    = inr (plain_generate (dyn (mk_mock 8)) (zero_params 4 [5]%Z) (λ _ _, true) [2]%Z 0 []).
Proof.
  refine (proj1 (@tree_speculative_transparent ex_entropy "fast" (dyn (mk_mock 8))
    (dyn (mk_mock 3)) 2 2 0%Z _ [2]%Z (zero_params 4 [5]%Z) eq_refl _ _)).
  - exact (mock_total 8 (conj eq_refl eq_refl)).
  - exact (mock_total 3 (conj eq_refl eq_refl)).
Defined.
