(* ===== verification/SchedulerEngine.v ===== *)
(** * SchedulerEngine: the scheduler loop that serves requests

    [crates/justapi-inference/src/scheduler_engine.rs]: one loop thread runs
    [schedule], the forward passes and [on_step_complete], and routes every
    sampled token to the channel of its request.  A channel is the list of the
    tokens sent on it; [senders] holds the ids whose channel is still open.
    [iteration] is one turn of the loop with no request arriving inside it;
    [generate] is the caller's side. *)

From S2P Require Import Prelude F32 KvCache RadixCache Model SpecDecode Scheduler SpecDecodeTree Engine.

(** ** Sampling *)

(** [f32::EPSILON] *)
Definition f32_epsilon : f32 := f32_scaled 1 (-23).

(** The first position of the largest logit above negative infinity. *)
Fixpoint argmax_from (i : nat) (best : Z) (best_val : f32) (logits : list f32) : Z :=
  match logits with
  | [] => best
  | v :: logits' =>
      if f32_gt v best_val then argmax_from (S i) (as_u32 i) v logits'
      else argmax_from (S i) best best_val logits'
  end.

Definition argmax (logits : list f32) : Z := argmax_from 0 0 f32_neg_infinity logits.

Definition desc_order (l : list f32) : list nat :=
  sort_by (λ a b, f32_cmp_or_eq (f32_at l b) (f32_at l a)) (seq 0 (length l)).

(** [select_nth_unstable_by] leaves the order of ties open; this is one of the
    outcomes it permits. *)
Definition keep_top_k (k : Z) (scaled : list f32) : list f32 :=
  if ((0 <? k) && (k <? Z.of_nat (length scaled)))%Z then
    foldl (λ s i, <[i := f32_neg_infinity]> s) scaled (drop (Z.to_nat k) (desc_order scaled))
  else scaled.

(** The ranks beyond the nucleus of mass [p]. *)
Fixpoint beyond_nucleus (probs : list f32) (p cum : f32) (order : list nat) : list nat :=
  match order with
  | [] => []
  | i :: order' =>
      let cum := f32_add cum (f32_at probs i) in
      if f32_ge cum p then order' else beyond_nucleus probs p cum order'
  end.

Definition keep_nucleus (p : f32) (probs : list f32) : list f32 :=
  if f32_lt p f32_one then
    let probs := foldl (λ q j, <[j := f32_zero]> q) probs
                   (beyond_nucleus probs p f32_zero (desc_order probs)) in
    let sum := f32_sum probs in
    if f32_gt sum f32_zero then (λ q, f32_div q sum) <$> probs else probs
  else probs.

Fixpoint draw (r cum : f32) (i : nat) (probs : list f32) : option nat :=
  match probs with
  | [] => None
  | p :: probs' =>
      let cum := f32_add cum p in
      if f32_lt r cum then Some i else draw r cum (S i) probs'
  end.

Section engine.
Context `{Entropy}.

Definition sample_token_with_params (logits : list f32) (params : SamplingParams) (rng : StdRng)
    : Z * StdRng :=
  if f32_le (temperature params) f32_epsilon then (argmax logits, rng)
  else
    let inv_temp := f32_div f32_one (temperature params) in
    let scaled := keep_top_k (top_k params) ((λ l, f32_mul l inv_temp) <$> logits) in
    let max := foldl f32_max f32_neg_infinity scaled in
    let probs := (λ s, f32_exp (f32_sub s max)) <$> scaled in
    let sum := f32_sum probs in
    if f32_le sum f32_zero then (argmax logits, rng)
    else
      let probs := keep_nucleus (top_p params) ((λ p, f32_div p sum) <$> probs) in
      let '(r, rng) := gen_f32 rng in
      match draw r f32_zero 0 probs with
      | Some i => (as_u32 i, rng)
      | None => (argmax logits, rng)
      end.

(** ** Data *)

Record SchedulerEngine := mk_sched_engine {
  engine : Engine;
  scheduler : Scheduler;
  senders : gset Z;
  streams : gmap Z (list GeneratedToken);
  seq_model : gmap Z DynModel;
  seq_context : gmap Z (list Z);
  seq_max_tokens : gmap Z Z;
  seq_params : gmap Z SamplingParams;
  thread_rng : StdRng }.

Definition set_scheduler (s : Scheduler) (e : SchedulerEngine) : SchedulerEngine :=
  mk_sched_engine (engine e) s (senders e) (streams e) (seq_model e) (seq_context e)
    (seq_max_tokens e) (seq_params e) (thread_rng e).
Definition set_streams (st : gmap Z (list GeneratedToken)) (e : SchedulerEngine)
    : SchedulerEngine :=
  mk_sched_engine (engine e) (scheduler e) (senders e) st (seq_model e) (seq_context e)
    (seq_max_tokens e) (seq_params e) (thread_rng e).
Definition set_context (c : gmap Z (list Z)) (e : SchedulerEngine) : SchedulerEngine :=
  mk_sched_engine (engine e) (scheduler e) (senders e) (streams e) (seq_model e) c
    (seq_max_tokens e) (seq_params e) (thread_rng e).
Definition set_rng (r : StdRng) (e : SchedulerEngine) : SchedulerEngine :=
  mk_sched_engine (engine e) (scheduler e) (senders e) (streams e) (seq_model e)
    (seq_context e) (seq_max_tokens e) (seq_params e) r.

Definition new (eng : Engine) (s : Scheduler) (r : StdRng) : SchedulerEngine :=
  mk_sched_engine eng s ∅ ∅ ∅ ∅ ∅ ∅ r.

(** ** Requests *)

(** The id the receiver is registered under. *)
Definition generate (model_name : string) (prompt : list Z) (params : SamplingParams)
    (e : SchedulerEngine) : (ModelError + Z) * SchedulerEngine :=
  match Engine.get model_name (engine e) with
  | None => (inl (NotFound model_name), e)
  | Some model =>
      let '(id, s) := Scheduler.add_request (mk_request 0 prompt params 0 []) (scheduler e) in
      (inr id,
       mk_sched_engine (engine e) s ({[id]} ∪ senders e) (<[id := []]> (streams e))
         (<[id := model]> (seq_model e)) (seq_context e)
         (<[id := max_tokens params]> (seq_max_tokens e))
         (<[id := params]> (seq_params e)) (thread_rng e))
  end.

(** ** The helpers of the loop *)

Definition deliver (id : Z) (t : GeneratedToken) (e : SchedulerEngine) : SchedulerEngine :=
  if decide (id ∈ senders e) then
    set_streams (<[id := default [] (streams e !! id) ++ [t]]> (streams e)) e
  else e.

Definition get_seq_params (id : Z) (e : SchedulerEngine) : SamplingParams :=
  default SamplingParams_default (seq_params e !! id).

Definition is_seq_done (id : Z) (e : SchedulerEngine) : bool :=
  let max := default u64_max (seq_max_tokens e !! id) in
  match Scheduler.running_seq_generated id (scheduler e) with
  | Some n => (max <=? n)%Z
  | None => false
  end.

(** The forward pass shared by prefill and decode: a model error gives no
    token, a panic of the model ends the loop thread. *)
Definition sample_next (m : DynModel) (ctx : list Z) (params : SamplingParams)
    (e : SchedulerEngine) : exec (option Z * SchedulerEngine) :=
  match forward_logits m ctx with
  | Done logits =>
      let '(t, r) := sample_token_with_params logits params (thread_rng e) in
      Ret (Some t, set_rng r e)
  | Fail _ => Ret (None, e)
  | Crash => Panic
  end.

Definition forward_for_seq (id : Z) (new_tokens : list Z) (params : SamplingParams)
    (e : SchedulerEngine) : exec (option Z * SchedulerEngine) :=
  match seq_model e !! id with
  | None => Ret (None, e)
  | Some m =>
      let full := default [] (seq_context e !! id) ++ new_tokens in
      sample_next m full params (set_context (<[id := full]> (seq_context e)) e)
  end.

Definition forward_decode (id : Z) (params : SamplingParams) (e : SchedulerEngine)
    : exec (option Z * SchedulerEngine) :=
  match seq_model e !! id, seq_context e !! id with
  | Some m, Some ctx =>
      '(t, e) ← sample_next m ctx params e;
      match t with
      | Some t => Ret (Some t, set_context (<[id := ctx ++ [t]]> (seq_context e)) e)
      | None => Ret (None, e)
      end
  | _, _ => Ret (None, e)
  end.

(** The token of a step goes to the channel of its sequence. *)
Definition deliver_sampled (id : Z) (t : option Z) (e : SchedulerEngine) : SchedulerEngine :=
  match t with
  | None => e
  | Some t =>
      deliver id (mk_token t (MockModel.detokenize [t]) f32_zero
                    (if is_seq_done id e then Some Length else None)) e
  end.

Definition prefill_one (e : SchedulerEngine) (step : PrefillStep) : exec SchedulerEngine :=
  let id := ps_seq_id step in
  '(t, e) ← forward_for_seq id (ps_tokens step) (get_seq_params id e) e;
  Ret (deliver_sampled id t e).

Definition decode_one (e : SchedulerEngine) (id : Z) : exec SchedulerEngine :=
  '(t, e) ← forward_decode id (get_seq_params id e) e;
  Ret (deliver_sampled id t e).

(** ** The loop *)

Definition final_token : GeneratedToken := mk_token 0 [] f32_zero (Some Length).

(** The last token of a sequence that left the running set, and its removal. *)
Definition complete_one (e : SchedulerEngine) (id : Z) : SchedulerEngine :=
  let e := deliver id final_token e in
  mk_sched_engine (engine e) (scheduler e) (senders e ∖ {[id]}) (streams e)
    (delete id (seq_model e)) (delete id (seq_context e)) (delete id (seq_max_tokens e))
    (delete id (seq_params e)) (thread_rng e).

Definition is_empty (sch : Schedule) : bool :=
  match prefill sch, decode sch with [], [] => true | _, _ => false end.

Definition notify (sch : Schedule) (e : SchedulerEngine) : SchedulerEngine :=
  let s := foldl (λ s step, Scheduler.on_step_complete (ps_seq_id step) 1 s)
             (scheduler e) (prefill sch) in
  let s := foldl (λ s id, Scheduler.on_step_complete id 1 s) s (decode sch) in
  set_scheduler s e.

Definition run_steps (sch : Schedule) (e : SchedulerEngine) : exec SchedulerEngine :=
  e ← mfold prefill_one e (prefill sch);
  e ← mfold decode_one e (decode sch);
  Ret (notify sch e).

Definition iteration (e : SchedulerEngine) : exec SchedulerEngine :=
  let before := Scheduler.running_ids (scheduler e) in
  '(sch, s) ← Scheduler.schedule (scheduler e);
  let e := set_scheduler s e in
  e ← (if is_empty sch then Ret e else run_steps sch e);
  let after := Scheduler.running_ids (scheduler e) in
  Ret (foldl complete_one e (filter (λ id, id ∉ after) before)).

Fixpoint iterations (n : nat) (e : SchedulerEngine) : exec SchedulerEngine :=
  match n with
  | 0 => Ret e
  | S n' => e ← iteration e; iterations n' e
  end.

End engine.

(** ** Channels *)

Section channels.
Context `{Entropy}.
Implicit Types e : SchedulerEngine.

Definition stream (e : SchedulerEngine) (id : Z) : list GeneratedToken :=
  default [] (streams e !! id).

(** [e'] is [e] with tokens appended to open channels. *)
Record appends (e e' : SchedulerEngine) : Prop := {
  ap_senders : senders e' = senders e;
  ap_models : seq_model e' = seq_model e;
  ap_grow : ∀ id, stream e id `prefix_of` stream e' id;
  ap_closed : ∀ id, id ∉ senders e → streams e' !! id = streams e !! id }.

#[export] Instance appends_preorder : PreOrder appends.
Proof.
  split; [by intros e; split|]. intros e1 e2 e3 [H1 H2 H3 H4] [H5 H6 H7 H8]. split.
  - congruence.
  - congruence.
  - intros id. etrans; [apply H3|apply H7].
  - intros id Hid. rewrite H8 by (by rewrite H1). by apply H4.
Qed.

Lemma appends_same e e' :
  senders e' = senders e → seq_model e' = seq_model e → streams e' = streams e → appends e e'.
Proof. intros H1 H2 H3. split; try done; intros id; unfold stream; by rewrite H3. Qed.

Lemma stream_deliver id t e id' :
  stream (deliver id t e) id'
  = stream e id' ++ (if decide (id' = id ∧ id ∈ senders e) then [t] else []).
Proof.
  unfold deliver, stream. destruct (decide (id ∈ senders e)) as [Hs|Hs]; simpl.
  - destruct (decide (id' = id)) as [->|Hne].
    + by rewrite lookup_insert_eq, decide_True.
    + rewrite lookup_insert_ne, decide_False by naive_solver. by rewrite app_nil_r.
  - rewrite decide_False by naive_solver. by rewrite app_nil_r.
Qed.

Lemma deliver_appends id t e : appends e (deliver id t e).
Proof.
  split.
  - unfold deliver. by case_decide.
  - unfold deliver. by case_decide.
  - intros id'. rewrite stream_deliver. by eexists.
  - intros id' Hid'. unfold deliver. case_decide; [|done]. simpl.
    rewrite lookup_insert_ne; [done|]. by intros ->.
Qed.

(** The models of the running sequences do not panic. *)
Definition models_ok (ms : gmap Z DynModel) : Prop :=
  ∀ id m ctx, ms !! id = Some m → forward_logits m ctx ≠ Crash.

Lemma sample_next_ok m ctx params e :
  forward_logits m ctx ≠ Crash →
  returns (sample_next m ctx params e) (λ '(_, e'), appends e e' ∧ scheduler e' = scheduler e).
Proof.
  unfold sample_next. destruct (forward_logits m ctx); [|split; [done|done]|done].
  intros _. destruct (sample_token_with_params _ _ _). simpl. split; [by apply appends_same|done].
Qed.

Lemma forward_for_seq_ok id toks params e :
  models_ok (seq_model e) →
  returns (forward_for_seq id toks params e)
    (λ '(_, e'), appends e e' ∧ scheduler e' = scheduler e).
Proof.
  intros Hm. unfold forward_for_seq. destruct (seq_model e !! id) as [m|] eqn:Hid; [|done].
  eapply returns_mono; [apply sample_next_ok; by eapply Hm|].
  intros [t e'] [Ha Hs]. split; [|done]. etrans; [|exact Ha]. by apply appends_same.
Qed.

Lemma forward_decode_ok id params e :
  models_ok (seq_model e) →
  returns (forward_decode id params e) (λ '(_, e'), appends e e' ∧ scheduler e' = scheduler e).
Proof.
  intros Hm. unfold forward_decode. destruct (seq_model e !! id) as [m|] eqn:Hid; [|done].
  destruct (seq_context e !! id) as [ctx|]; [|done].
  eapply returns_bind; [apply sample_next_ok; by eapply Hm|].
  intros [[t|] e'] [Ha Hs]; simpl; [|done]. split; [|done]. etrans; [exact Ha|].
  by apply appends_same.
Qed.

Lemma deliver_sampled_ok id t e :
  appends e (deliver_sampled id t e) ∧ scheduler (deliver_sampled id t e) = scheduler e.
Proof.
  destruct t as [t|]; [|done]. split; [apply deliver_appends|].
  unfold deliver_sampled, deliver. by case_decide.
Qed.

(** A loop of steps that append appends. *)
Lemma steps_append {A} (f : SchedulerEngine → A → exec SchedulerEngine) l e :
  (∀ e a, models_ok (seq_model e) →
     returns (f e a) (λ e', appends e e' ∧ scheduler e' = scheduler e)) →
  models_ok (seq_model e) →
  returns (mfold f e l) (λ e', appends e e' ∧ scheduler e' = scheduler e).
Proof.
  intros Hf Hm. apply (mfold_returns f (λ _ e', appends e e' ∧ scheduler e' = scheduler e)); [|done].
  intros e1 a k [Ha Hs]. eapply returns_mono.
  - apply Hf. by rewrite (ap_models _ _ Ha).
  - intros e2 [Ha2 Hs2]. split; [by etrans|congruence].
Qed.

Lemma prefill_one_ok e step :
  models_ok (seq_model e) →
  returns (prefill_one e step) (λ e', appends e e' ∧ scheduler e' = scheduler e).
Proof.
  intros Hm. eapply returns_bind; [by apply forward_for_seq_ok|].
  intros [t e'] [Ha Hs]. destruct (deliver_sampled_ok (ps_seq_id step) t e').
  simpl. split; [by etrans|congruence].
Qed.

Lemma decode_one_ok e id :
  models_ok (seq_model e) →
  returns (decode_one e id) (λ e', appends e e' ∧ scheduler e' = scheduler e).
Proof.
  intros Hm. eapply returns_bind; [by apply forward_decode_ok|].
  intros [t e'] [Ha Hs]. destruct (deliver_sampled_ok id t e').
  simpl. split; [by etrans|congruence].
Qed.

Lemma on_step_ids id k s :
  Scheduler.running_ids (Scheduler.on_step_complete id k s) = Scheduler.running_ids s.
Proof.
  unfold Scheduler.running_ids. simpl. induction (running s) as [|r rs IH]; simpl; [done|].
  case_decide; csimpl; [done|by rewrite IH].
Qed.

Lemma notify_ids sch e :
  Scheduler.running_ids (scheduler (notify sch e)) = Scheduler.running_ids (scheduler e).
Proof.
  unfold notify. simpl. generalize (scheduler e). intros s.
  transitivity (Scheduler.running_ids (foldl (λ s step,
    Scheduler.on_step_complete (ps_seq_id step) 1 s) s (prefill sch))).
  - generalize (foldl (λ s step, Scheduler.on_step_complete (ps_seq_id step) 1 s) s (prefill sch)).
    induction (decode sch) as [|id ids IH]; intros s'; simpl; [done|]. by rewrite IH, on_step_ids.
  - revert s. induction (prefill sch) as [|p ps IH]; intros s; simpl; [done|].
    by rewrite IH, on_step_ids.
Qed.

Lemma run_steps_ok sch e :
  models_ok (seq_model e) →
  returns (run_steps sch e) (λ e', appends e e' ∧
    Scheduler.running_ids (scheduler e') = Scheduler.running_ids (scheduler e)).
Proof.
  intros Hm. eapply returns_bind; [apply steps_append; [apply prefill_one_ok|done]|].
  intros e1 [Ha1 Hs1]. eapply returns_bind.
  - apply steps_append; [apply decode_one_ok|]. by rewrite (ap_models _ _ Ha1).
  - intros e2 [Ha2 Hs2]. apply returns_ret. split.
    + etrans; [exact Ha1|]. etrans; [exact Ha2|]. by apply appends_same.
    + rewrite notify_ids. congruence.
Qed.

(** Completing the sequences of [ids]. *)
Lemma complete_all ids e :
  let e' := foldl complete_one e ids in
  scheduler e' = scheduler e ∧
  (∀ id, id ∈ senders e' ↔ id ∈ senders e ∧ id ∉ ids) ∧
  (∀ id, stream e' id = stream e id ++
     (if decide (id ∈ ids ∧ id ∈ senders e) then [final_token] else [])) ∧
  (∀ id, id ∉ senders e → streams e' !! id = streams e !! id).
Proof.
  revert e. induction ids as [|x ids IH]; intros e; cbn [foldl].
  { split_and!; [done|set_solver| |done]. intros id.
    rewrite decide_False by set_solver. by rewrite app_nil_r. }
  destruct (IH (complete_one e x)) as (Hs & Hsend & Hst & Hcl).
  assert (senders (complete_one e x) = senders e ∖ {[x]}) as Hx.
  { unfold complete_one. simpl. unfold deliver. by case_decide. }
  assert (∀ id, stream (complete_one e x) id = stream (deliver x final_token e) id) as Hd by done.
  split_and!.
  - rewrite Hs. unfold complete_one. simpl. unfold deliver. by case_decide.
  - intros id. rewrite Hsend, Hx. set_solver.
  - intros id. rewrite Hst, Hd, stream_deliver, Hx, <- app_assoc. f_equal.
    repeat case_decide; simpl; set_solver.
  - intros id Hid. rewrite Hcl by (rewrite Hx; set_solver).
    pose proof (ap_closed _ _ (deliver_appends x final_token e) id Hid) as Hc. exact Hc.
Qed.
End channels.

(** ** The theorems *)

(** A turn of the loop returns whenever its [schedule] call does and no model
    panics.  It only appends to channels, and to none that is closed; it closes
    exactly the open channels of the sequences that left the running set in
    this turn, each after one more, final, token that reports [Length]. *)
Theorem iteration_routes_tokens `{Entropy} (e : SchedulerEngine) sch s :
  Scheduler.schedule (scheduler e) = Ret (sch, s) → models_ok (seq_model e) →
  ∃ e', iteration e = Ret e' ∧
    let left id := id ∈ Scheduler.running_ids (scheduler e) ∧
                   id ∉ Scheduler.running_ids (scheduler e') in
    (∀ id, stream e id `prefix_of` stream e' id) ∧
    (∀ id, id ∉ senders e → streams e' !! id = streams e !! id) ∧
    (∀ id, id ∈ senders e' ↔ id ∈ senders e ∧ ¬ left id) ∧
    (∀ id, id ∈ senders e → left id → last (stream e' id) = Some final_token).
Proof.
  intros Hs Hm. unfold iteration. rewrite Hs. cbn [mbind exec_bind].
  set (e1 := set_scheduler s e).
  assert (returns (if is_empty sch then Ret e1 else run_steps sch e1) (λ e2, appends e1 e2 ∧
            Scheduler.running_ids (scheduler e2) = Scheduler.running_ids (scheduler e1))) as Hrun.
  { destruct (is_empty sch); [done|]. by apply run_steps_ok. }
  apply returns_inv in Hrun as (e2 & -> & Ha & Hids). cbn [mbind exec_bind].
  eexists. split; [done|].
  set (ids := filter _ (Scheduler.running_ids (scheduler e))).
  destruct (complete_all ids e2) as (Hs2 & Hsend & Hst & Hcl). cbv zeta.
  set (e' := foldl complete_one e2 ids) in *. rewrite Hs2.
  assert (∀ id, id ∈ ids ↔ id ∈ Scheduler.running_ids (scheduler e) ∧
                           id ∉ Scheduler.running_ids (scheduler e2)) as Hin.
  { intros id. unfold ids. rewrite list_elem_of_filter. tauto. }
  assert (senders e2 = senders e) as Hse by apply Ha.
  split_and!.
  - intros id. rewrite Hst. apply prefix_app_r. apply (ap_grow _ _ Ha).
  - intros id Hid. rewrite Hcl by (by rewrite Hse). apply (ap_closed _ _ Ha id Hid).
  - intros id. rewrite Hsend, Hse, Hin. tauto.
  - intros id Hid Hleft. rewrite Hst, decide_True by (rewrite Hin, Hse; done).
    by rewrite last_snoc.
Qed.

(** ** Concrete runs *)

Definition demo_engine `{Entropy} (rng : StdRng) : SchedulerEngine :=
  new (Engine.register "m" (dyn (mk_mock 8)) Engine.new)
    (Scheduler.new Scheduler.ex_config (KvBlockPool.new 8)) rng.

Definition demo_request `{Entropy} (prompt : list Z) (n : Z) (e : SchedulerEngine)
    : SchedulerEngine :=
  (generate "m" prompt (zero_params n []) e).2.

(** The loop streams the first token twice.  The token sampled by the prefill
    step is delivered but not appended to the context of the sequence, so the
    first decode step samples it again: for the prompt [2] and three tokens the
    channel receives 3, 3, 4 where the model itself generates 3, 4, 5. *)
Theorem loop_repeats_first_token `{Entropy} rng :
  (e ← iterations 4 (demo_request [2%Z] 3 (demo_engine rng)); Ret (ids (stream e 1)))
    = Ret [3; 3; 4; 0]%Z ∧
  ids (MockModel.generate (mk_mock 8) [2%Z] (zero_params 3 []) open_sink []).1 = [3; 4; 5]%Z.
Proof. vm_compute. auto. Qed.

(** A request whose whole prompt is cached streams nothing but the final
    token.  A second request with the 16-token prompt of a finished one starts
    in the decode state without a context, and no decode step produces a
    token. *)
Theorem cached_prompt_streams_nothing `{Entropy} rng :
  (e ← iterations 3 (demo_request (toks_from 0 16) 2 (demo_engine rng));
   e ← iterations 4 (demo_request (toks_from 0 16) 2 e);
   Ret (ids (stream e 1), ids (stream e 2), elements (senders e)))
    = Ret ([0; 0; 0]%Z, [0]%Z, []).
Proof. vm_compute. auto. Qed.

Lemma iteration_routes_tokens_witness :
  let H := ex_entropy in
  let e := demo_request [2%Z] 3 (demo_engine 0%Z) in
  ∃ e', iteration e = Ret e' ∧ ∀ id, stream e id `prefix_of` stream e' id.
Proof.
  intros H e.
  assert (Scheduler.schedule (scheduler e) = Ret (Scheduler.schedule_ret (scheduler e))) as Hs
    by (vm_compute; reflexivity).
  destruct (@iteration_routes_tokens ex_entropy e (Scheduler.schedule_ret (scheduler e)).1
              (Scheduler.schedule_ret (scheduler e)).2) as (e' & He & Hp & _).
  - rewrite <- surjective_pairing. exact Hs.
  - intros id m ctx Hid.
    change (seq_model e) with (<[1%Z := dyn (mk_mock 8)]> (∅ : gmap Z DynModel)) in Hid.
    apply lookup_insert_Some in Hid as [[_ <-]|[_ Hid]]; [|by rewrite lookup_empty in Hid].
    destruct (mock_total 8 (conj eq_refl eq_refl) ctx) as [logits Hl].
    change (forward_logits (dyn (mk_mock 8)) ctx) with (forward_logits (mk_mock 8) ctx).
    rewrite Hl. discriminate.
  - exists e'. split; [exact He|exact Hp].
Defined.
