(* ===== verification/Resilience.v ===== *)
(** * Resilience: circuit breakers, retries and fallbacks

    [crates/justapi-core/src/resilience.rs].  Times are nanoseconds of the
    monotonic clock.  The mutex of a breaker makes each of its three operations
    atomic, so the requests of a server interleave as sequences of these
    operations.  A random draw, a timer and a semaphore are arguments: their
    outcome is what the code sees of them. *)

From S2P Require Import Prelude F32 Http.

#[local] Open Scope Z_scope.

(** ** Responses *)

Definition is_server_error (status : Z) : bool := (500 <=? status) && (status <=? 599).

Definition json_text_response (st : Z) (b : string) : Response :=
  mk_response st [("content-type"%string, "application/json"%string); content_length b] b.

(** The quotation mark. *)
Definition quote : string := String (Ascii.ascii_of_nat 34) EmptyString.

Definition detail (msg : string) : string :=
  String.concat EmptyString ["{"%string; quote; "detail"%string; quote; ":"%string; quote; msg;
                             quote; "}"%string].

(** ** The circuit breaker *)

Inductive BreakerState := Closed | Open (since : Z) | HalfOpen.

#[export] Instance BreakerState_eq_dec : EqDecision BreakerState.
Proof. solve_decision. Defined.

Record BreakerInner := mk_breaker {
  state : BreakerState;
  failure_count : Z;
  success_count : Z;
  half_open_allowed : Z;
  half_open_used : Z }.

Record CircuitBreakerConfig := mk_breaker_config {
  failure_threshold : Z; success_threshold : Z; open_timeout : Z; half_open_max_requests : Z }.

Definition CircuitBreakerConfig_default : CircuitBreakerConfig :=
  mk_breaker_config 5 3 30000000000 3.

Module CircuitBreaker.

Definition new (c : CircuitBreakerConfig) : BreakerInner :=
  mk_breaker Closed 0 0 (half_open_max_requests c) 0.

(** [Instant::elapsed] saturates at zero. *)
Definition elapsed (since now : Z) : Z := ssub now since.

Definition try_acquire (c : CircuitBreakerConfig) (now : Z) (b : BreakerInner)
    : bool * BreakerInner :=
  match state b with
  | Closed => (true, b)
  | Open opened_at =>
      if open_timeout c <=? elapsed opened_at now then
        (true, mk_breaker HalfOpen (failure_count b) 0 (half_open_allowed b) 0)
      else (false, b)
  | HalfOpen =>
      if half_open_used b <? half_open_allowed b then
        (true, mk_breaker HalfOpen (failure_count b) (success_count b) (half_open_allowed b)
                 (wadd32 (half_open_used b) 1))
      else (false, b)
  end.

Definition record_success (c : CircuitBreakerConfig) (b : BreakerInner) : BreakerInner :=
  match state b with
  | HalfOpen =>
      let n := wadd32 (success_count b) 1 in
      if success_threshold c <=? n
      then mk_breaker Closed 0 0 (half_open_allowed b) (half_open_used b)
      else mk_breaker HalfOpen (failure_count b) n (half_open_allowed b) (half_open_used b)
  | Closed => mk_breaker Closed 0 (success_count b) (half_open_allowed b) (half_open_used b)
  | Open _ => b
  end.

Definition record_failure (c : CircuitBreakerConfig) (now : Z) (b : BreakerInner)
    : BreakerInner :=
  match state b with
  | Closed =>
      let n := wadd32 (failure_count b) 1 in
      if failure_threshold c <=? n
      then mk_breaker (Open now) 0 (success_count b) (half_open_allowed b) (half_open_used b)
      else mk_breaker Closed n (success_count b) (half_open_allowed b) (half_open_used b)
  | HalfOpen =>
      mk_breaker (Open now) 0 (success_count b) (half_open_allowed b) (half_open_used b)
  | Open _ => b
  end.

End CircuitBreaker.

Definition circuit_open_response : Response :=
  let r := json_text_response 503
             (detail (String.concat EmptyString
                ["service unavailable "%string;
                 (* the em dash, U+2014, in UTF-8 *)
                 String (Ascii.ascii_of_nat 226) (String (Ascii.ascii_of_nat 128)
                   (String (Ascii.ascii_of_nat 148) EmptyString));
                 " circuit breaker open"%string])) in
  mk_response (status r) (headers r ++ [("retry-after"%string, "30"%string)]) (body r).

(** What a middleware does with the breaker once the chain has answered. *)
Definition record_outcome (c : CircuitBreakerConfig) (now : Z) (r : outcome) (b : BreakerInner)
    : BreakerInner :=
  match r with
  | inl resp =>
      if is_server_error (status resp) then CircuitBreaker.record_failure c now b
      else CircuitBreaker.record_success c b
  | inr _ => CircuitBreaker.record_failure c now b
  end.

(** [handle] when no other request touches the breaker: it starts at [t0] and
    the chain answers [next] at [t1]. *)
Definition circuit_breaker_handle (c : CircuitBreakerConfig) (t0 t1 : Z) (next : outcome)
    (b : BreakerInner) : outcome * BreakerInner :=
  let '(ok, b) := CircuitBreaker.try_acquire c t0 b in
  if negb ok then (inl circuit_open_response, b)
  else (next, record_outcome c t1 next b).

(** ** Breakers per route *)

Definition MAX_PER_ROUTE_BREAKERS : nat := 1024.

(** A [CircuitBreaker] is a handle on shared state: [breakers] maps a path to
    the place of its state in [cells], and a request keeps its handle when the
    entry is evicted. *)
Record PerRoute := mk_per_route {
  breakers : list (string * nat); cells : list BreakerInner }.

Module PerRoute.

Definition new : PerRoute := mk_per_route [] [].

Definition get_breaker (c : CircuitBreakerConfig) (path : string) (m : PerRoute)
    : nat * PerRoute :=
  match assoc_get path (breakers m) with
  | Some i => (i, m)
  | None =>
      let entries :=
        if Nat.leb MAX_PER_ROUTE_BREAKERS (length (breakers m)) then
          match breakers m with
          | (oldest, _) :: _ => assoc_remove oldest (breakers m)
          | [] => breakers m
          end
        else breakers m in
      (length (cells m),
       mk_per_route (assoc_set path (length (cells m)) entries)
         (cells m ++ [CircuitBreaker.new c]))
  end.

(** The two ends of a request on the route: its admission, and the record of
    its outcome on the handle it got. *)
Definition begin (c : CircuitBreakerConfig) (now : Z) (path : string) (m : PerRoute)
    : option (nat * bool) * PerRoute :=
  let '(i, m) := get_breaker c path m in
  match cells m !! i with
  | Some b =>
      let '(ok, b) := CircuitBreaker.try_acquire c now b in
      (Some (i, ok), mk_per_route (breakers m) (<[i := b]> (cells m)))
  | None => (None, m)
  end.

Definition finish (c : CircuitBreakerConfig) (now : Z) (i : nat) (r : outcome) (m : PerRoute)
    : PerRoute :=
  mk_per_route (breakers m) (alter (record_outcome c now r) i (cells m)).

End PerRoute.

(** ** Timeouts *)

Definition millis (duration : Z) : Z := duration / 1000000.

Definition timeout_response (duration : Z) : Response :=
  json_text_response 504
    (detail (String.concat EmptyString
       ["request timed out after "%string; decimal (millis duration); "ms"%string])).

(** [None]: the timer fired first. *)
Definition timeout_handle (duration : Z) (next : option outcome) : outcome :=
  match next with Some r => r | None => inl (timeout_response duration) end.

(** ** Retries *)

Record RetryPolicy := mk_retry {
  max_retries : Z; base_delay : Z; max_delay : Z; jitter : bool }.

Definition RetryPolicy_default : RetryPolicy := mk_retry 3 100000000 10000000000 true.

Module RetryPolicy.

(** [as_millis() as u64] *)
Definition millis64 (duration : Z) : Z := millis duration mod u64_modulus.

(** The delay in milliseconds; [random] is the draw of [rand::random::<u64>]. *)
Definition delay (p : RetryPolicy) (attempt random : Z) : Z :=
  let exp := Z.min (2 ^ attempt) u32_max in
  let delay_ms := smul64 (millis64 (base_delay p)) exp in
  let capped := Z.min delay_ms (millis64 (max_delay p)) in
  if jitter p then
    let jitter_range := capped / 5 in
    let j := if 0 <? jitter_range then random mod jitter_range else 0 in
    wadd64 capped j
  else capped.

Definition retryable (st : Z) : bool := is_server_error st.

End RetryPolicy.

(** ** Bulkheads *)

Record BulkheadConfig := mk_bulkhead_config { max_concurrent : Z; max_wait : Z }.

Definition BulkheadConfig_default : BulkheadConfig := mk_bulkhead_config 10 1000000000.

Definition bulkhead_full_response : Response :=
  json_text_response 503
    (detail (String.concat EmptyString
       ["too many concurrent requests "%string;
        String (Ascii.ascii_of_nat 226) (String (Ascii.ascii_of_nat 128)
          (String (Ascii.ascii_of_nat 148) EmptyString));
        " bulkhead limit reached"%string])).

(** [permit]: the semaphore granted a permit before [max_wait]. *)
Definition bulkhead_handle (permit : bool) (next : outcome) : outcome :=
  if permit then next else inl bulkhead_full_response.

(** ** Fallbacks *)

Record FallbackEntry := mk_fallback {
  fb_status : Z; fb_body : string; fb_content_type : string }.

Record FallbackPolicy := mk_fallback_policy {
  fallbacks : list (string * FallbackEntry); default_fallback : option FallbackEntry }.

Module FallbackPolicy.

Definition new : FallbackPolicy := mk_fallback_policy [] None.
Definition add (path_prefix : string) (e : FallbackEntry) (p : FallbackPolicy) : FallbackPolicy :=
  mk_fallback_policy (assoc_set path_prefix e (fallbacks p)) (default_fallback p).
Definition with_default (e : FallbackEntry) (p : FallbackPolicy) : FallbackPolicy :=
  mk_fallback_policy (fallbacks p) (Some e).

(** The loop goes over the map in its iteration order. *)
Fixpoint find_prefix (path : string) (entries : list (string * FallbackEntry))
    : option FallbackEntry :=
  match entries with
  | [] => None
  | (p, e) :: entries' => if String.prefix p path then Some e else find_prefix path entries'
  end.

Definition get (path : string) (p : FallbackPolicy) : option FallbackEntry :=
  match find_prefix path (fallbacks p) with
  | Some e => Some e
  | None => default_fallback p
  end.

End FallbackPolicy.

Definition fallback_response (fb : FallbackEntry) : Response :=
  mk_response (fb_status fb)
    [("content-type"%string, fb_content_type fb);
     ("content-length"%string, decimal (Z.of_nat (String.length (fb_body fb))))] (fb_body fb).

Definition fallback_handle (p : FallbackPolicy) (path : string) (next : outcome) : outcome :=
  match next with
  | inl resp =>
      if is_server_error (status resp) then
        match FallbackPolicy.get path p with
        | Some fb => inl (fallback_response fb)
        | None => inl resp
        end
      else inl resp
  | inr _ =>
      match FallbackPolicy.get path p with
      | Some fb => inl (fallback_response fb)
      | None => inl (json_text_response 500 (detail "internal server error"))
      end
  end.

(** ** Chaos *)

(** [f64] values are compared only; [SFltb] orders them like [f32] ones. *)
Record ChaosConfig := mk_chaos {
  enabled : bool; latency_p : f32; latency_min_ms : Z; latency_max_ms : Z;
  error_p : f32; error_status : Z }.

Definition ChaosConfig_default : ChaosConfig := mk_chaos false f32_zero 100 500 f32_zero 500.

(** The milliseconds slept and the response, from the draws [roll1], [roll2]
    and [random] of the generator; a modulo by zero panics. *)
Definition chaos_handle (c : ChaosConfig) (roll1 roll2 : f32) (random : Z) (next : outcome)
    : exec (Z * outcome) :=
  if negb (enabled c) then Ret (0, next)
  else if f32_gt (error_p c) f32_zero && f32_lt roll1 (error_p c) then
    Ret (0, inl (json_text_response (error_status c)
               (String.concat EmptyString
                  ["{"%string; quote; "detail"%string; quote; ":"%string; quote;
                   "chaos injected failure"%string; quote; ","%string; quote; "status"%string;
                   quote; ":"%string; decimal (error_status c); "}"%string])))
  else if f32_gt (latency_p c) f32_zero && (latency_min_ms c <=? latency_max_ms c)
          && f32_lt roll2 (latency_p c) then
    let range := latency_max_ms c - latency_min_ms c in
    if 0 <? range then
      if wadd64 range 1 =? 0 then Panic
      else Ret (latency_min_ms c + (random mod wadd64 range 1), next)
    else Ret (latency_min_ms c, next)
  else Ret (0, next).

(** ** Runs of a breaker *)

(** The operations the requests in flight perform, in the order of the lock. *)
Inductive breaker_op := Acquire (now : Z) | Success | Failure (now : Z).

Definition is_acquire (o : breaker_op) : bool := match o with Acquire _ => true | _ => false end.
Definition is_failure (o : breaker_op) : bool := match o with Failure _ => true | _ => false end.
Definition is_success (o : breaker_op) : bool := match o with Success => true | _ => false end.

(** The flag is the admission of an [Acquire]. *)
Definition step (c : CircuitBreakerConfig) (o : breaker_op) (b : BreakerInner)
    : bool * BreakerInner :=
  match o with
  | Acquire now => CircuitBreaker.try_acquire c now b
  | Success => (false, CircuitBreaker.record_success c b)
  | Failure now => (false, CircuitBreaker.record_failure c now b)
  end.

(** The number of requests admitted, and the state at the end. *)
Fixpoint run (c : CircuitBreakerConfig) (ops : list breaker_op) (b : BreakerInner)
    : nat * BreakerInner :=
  match ops with
  | [] => (O, b)
  | o :: ops' =>
      let '(ok, b1) := step c o b in
      let '(n, b2) := run c ops' b1 in
      ((bnat ok + n)%nat, b2)
  end.

(** Every state along the run satisfies [P]. *)
Fixpoint throughout (P : BreakerState → Prop) (c : CircuitBreakerConfig)
    (ops : list breaker_op) (b : BreakerInner) : Prop :=
  P (state b) ∧
  match ops with
  | [] => True
  | o :: ops' => throughout P c ops' (step c o b).2
  end.

Lemma run_app c ops1 ops2 b :
  run c (ops1 ++ ops2) b
  = let '(n1, b1) := run c ops1 b in let '(n2, b2) := run c ops2 b1 in ((n1 + n2)%nat, b2).
Proof.
  revert b. induction ops1 as [|o ops1 IH]; intros b; simpl; [by destruct (run c ops2 b)|].
  destruct (step c o b) as [ok b1]. rewrite IH. destruct (run c ops1 b1) as [n1 b2].
  destruct (run c ops2 b2) as [n2 b3]. f_equal. lia.
Qed.

(** *** Closed *)

(** The failures in a row at the end of a run, from a breaker that had [k]: a
    success ends the row, an arrival does not. *)
Definition in_a_row (k : Z) (ops : list breaker_op) : Z :=
  foldl (λ k o, match o with Acquire _ => k | Success => 0 | Failure _ => k + 1 end) k ops.

(** No part of the run up to some point ends with [n] failures in a row. *)
Definition never_reaches (n k : Z) (ops : list breaker_op) : Prop :=
  ∀ pre, pre `prefix_of` ops → in_a_row k pre < n.

Lemma never_reaches_cons n k o ops :
  never_reaches n k (o :: ops) → in_a_row k [o] < n ∧ never_reaches n (in_a_row k [o]) ops.
Proof.
  intros Hn. split; [apply Hn, prefix_cons, prefix_nil|]. intros pre Hpre. apply (Hn (o :: pre)).
  by apply prefix_cons.
Qed.

Lemma closed_run c ops b :
  state b = Closed → 0 ≤ failure_count b → failure_threshold c ≤ u32_max →
  never_reaches (failure_threshold c) (failure_count b) ops →
  let '(n, b') := run c ops b in
  n = count is_acquire ops ∧ state b' = Closed ∧
  failure_count b' = in_a_row (failure_count b) ops ∧ 0 ≤ failure_count b'.
Proof.
  intros Hs H0 Hmax. revert b Hs H0. induction ops as [|o ops IH]; intros b Hs H0 Hn;
    cbn [run]; [by split_and!|].
  apply never_reaches_cons in Hn as [Ho Hn].
  assert (∃ b1, step c o b = (is_acquire o, b1) ∧ state b1 = Closed ∧
            failure_count b1 = in_a_row (failure_count b) [o] ∧ 0 ≤ failure_count b1) as (b1 & -> & H1 & Hf & Hp).
  { destruct o as [now| |now]; unfold step; simpl in *.
    - exists b. unfold CircuitBreaker.try_acquire. by rewrite Hs.
    - eexists. split; [reflexivity|]. unfold CircuitBreaker.record_success. by rewrite Hs.
    - eexists. split; [reflexivity|]. unfold CircuitBreaker.record_failure. rewrite Hs.
      rewrite wadd32_small by lia. destruct (Z.leb_spec (failure_threshold c) (failure_count b + 1)); [lia|].
      simpl. split_and!; [done|done|lia]. }
  rewrite <- Hf in Hn. specialize (IH b1 H1 Hp Hn). destruct (run c ops b1) as [n b'].
  destruct IH as (-> & Hc & Hrow & Hnn). split_and!; [by destruct o|done| |done]. by rewrite Hrow, Hf.
Qed.

(** *** Open *)

(** No request of [ops] arrives after the timeout of a breaker open since [t]. *)
Definition before_timeout (c : CircuitBreakerConfig) (t : Z) (ops : list breaker_op) : Prop :=
  Forall (λ o, match o with
               | Acquire now => CircuitBreaker.elapsed t now < open_timeout c
               | _ => True
               end) ops.

Lemma open_run c ops b t :
  state b = Open t → before_timeout c t ops → run c ops b = (O, b).
Proof.
  intros Hs. induction 1 as [|o ops Ho _ IH]; cbn [run]; [done|].
  assert (step c o b = (false, b)) as ->; [|by rewrite IH].
  destruct o as [now| |now]; unfold step, CircuitBreaker.try_acquire,
    CircuitBreaker.record_success, CircuitBreaker.record_failure; rewrite Hs; try done.
  destruct (Z.leb_spec (open_timeout c) (CircuitBreaker.elapsed t now)); [lia|done].
Qed.

(** *** Half-open *)

(** The probes a half-open breaker still has. *)
Definition probes_left (b : BreakerInner) : nat :=
  Z.to_nat (half_open_allowed b - half_open_used b).

Lemma half_open_run c ops b :
  throughout (λ s, s = HalfOpen) c ops b →
  0 ≤ half_open_used b → half_open_allowed b ≤ u32_max →
  (run c ops b).1 = (count is_acquire ops `min` probes_left b)%nat.
Proof.
  revert b. induction ops as [|o ops IH]; intros b; cbn [throughout run]; [done|].
  intros [Hs Hops] H0 Hmax. destruct (step c o b) as [ok b1] eqn:Hst.
  assert ((bnat ok + (count is_acquire ops `min` probes_left b1)
          = count is_acquire (o :: ops) `min` probes_left b)%nat ∧
          0 ≤ half_open_used b1 ∧ half_open_allowed b1 ≤ u32_max) as (Hn & H1 & H2).
  { unfold probes_left. destruct o as [now| |now]; unfold step in Hst;
      cbn [count is_acquire bnat].
    - unfold CircuitBreaker.try_acquire in Hst. rewrite Hs in Hst.
      destruct (Z.ltb_spec (half_open_used b) (half_open_allowed b)); simplify_eq;
        cbn [bnat half_open_used half_open_allowed]; [|lia].
      rewrite wadd32_small by lia. lia.
    - unfold CircuitBreaker.record_success in Hst. rewrite Hs in Hst.
      destruct (_ <=? _); simplify_eq;
        cbn [bnat half_open_used half_open_allowed]; lia.
    - unfold CircuitBreaker.record_failure in Hst. rewrite Hs in Hst. simplify_eq.
      cbn [bnat half_open_used half_open_allowed]. lia. }
  rewrite <- Hn. specialize (IH b1). destruct (run c ops b1) as [n b2]. simpl in *.
  rewrite IH; done.
Qed.

Lemma acquires_half_open c times b :
  state b = HalfOpen → throughout (λ s, s = HalfOpen) c (Acquire <$> times) b.
Proof.
  revert b. induction times as [|t times IH]; intros b Hs; csimpl; [done|]. split; [done|].
  apply IH. unfold step, CircuitBreaker.try_acquire. rewrite Hs. by case_match.
Qed.

Lemma count_acquires times : count is_acquire (Acquire <$> times) = length times.
Proof. induction times; csimpl; [done|]. by f_equal. Qed.

(** ** The theorems *)

(** C36: A closed breaker admits everything and opens with the failure that
    makes [failure_threshold] failures in a row, not before.  Along any
    interleaving of arrivals, successes and failures, from any count, in which
    no point has that many failures since the last success, every arrival is
    admitted, the breaker stays closed and its count is the failures since the
    last success; the next failure, at time [now], opens it exactly when it
    makes the row full.  The breaker that has opened admits nothing and changes
    nothing until [open_timeout] has passed, whatever the requests still in
    flight record. *)
Theorem breaker_trips c ops b :
  state b = Closed → 0 ≤ failure_count b → failure_threshold c ≤ u32_max →
  never_reaches (failure_threshold c) (failure_count b) ops →
  let '(n, b') := run c ops b in
  n = count is_acquire ops ∧ state b' = Closed ∧ failure_count b' = in_a_row (failure_count b) ops ∧
  ∀ now, let b'' := CircuitBreaker.record_failure c now b' in
    (state b'' = Open now ↔ in_a_row (failure_count b) ops + 1 = failure_threshold c) ∧
    (state b'' ≠ Open now → state b'' = Closed) ∧
    ∀ later, state b'' = Open now → before_timeout c now later → run c later b'' = (O, b'').
Proof.
  intros Hs H0 Hmax Hn. pose proof (closed_run c ops b Hs H0 Hmax Hn) as Hrun.
  pose proof (Hn ops ltac:(done)) as Hlt.
  destruct (run c ops b) as [n b']. destruct Hrun as (-> & Hs' & Hf & Hp). split_and!; [done..|].
  intros now b''. split; [|split; [|intros later Ho; by apply open_run]];
    unfold b'', CircuitBreaker.record_failure; rewrite Hs', Hf, wadd32_small by lia;
    destruct (Z.leb_spec (failure_threshold c) (in_a_row (failure_count b) ops + 1)); simpl; try done.
  - split; [lia|done].
  - split; [done|lia].
Qed.

(** Once [open_timeout] has passed, an open breaker admits the next arrival as
    a probe; while it is half-open it then admits exactly the next
    [half_open_max_requests] arrivals and rejects the rest, so one probe more
    than the configuration names is in flight. *)
Theorem half_open_probes c b t now ops :
  state b = Open t → open_timeout c ≤ CircuitBreaker.elapsed t now →
  0 ≤ half_open_allowed b ≤ u32_max →
  let '(ok, b1) := CircuitBreaker.try_acquire c now b in
  ok = true ∧ state b1 = HalfOpen ∧
  (throughout (λ s, s = HalfOpen) c ops b1 →
   Z.of_nat (bnat ok + (run c ops b1).1)
   = 1 + Z.min (Z.of_nat (count is_acquire ops)) (half_open_allowed b)).
Proof.
  intros Hs Ht Hmax. unfold CircuitBreaker.try_acquire. rewrite Hs.
  rewrite (proj2 (Z.leb_le _ _) Ht). split_and!; [done..|]. intros Hops.
  rewrite half_open_run by (done || simpl; lia). unfold probes_left. simpl. lia.
Qed.

(** A half-open breaker whose probes are used up and whose requests have all
    gone without a verdict is stuck: with no request in flight there is nobody
    left to record an outcome, and every arrival at any time from then on is
    rejected. *)
Theorem half_open_stuck c b times :
  state b = HalfOpen → half_open_used b = half_open_allowed b →
  0 ≤ half_open_allowed b ≤ u32_max →
  (run c (Acquire <$> times) b).1 = O ∧ state (run c (Acquire <$> times) b).2 = HalfOpen.
Proof.
  intros Hs Hu Hmax. split.
  - rewrite half_open_run; [unfold probes_left; lia|by apply acquires_half_open|lia|lia].
  - revert b Hs Hu Hmax. induction times as [|t times IH]; intros b Hs Hu Hmax; csimpl; [done|].
    unfold CircuitBreaker.try_acquire. rewrite Hs.
    rewrite (proj2 (Z.ltb_ge _ _)) by lia. specialize (IH b Hs Hu Hmax).
    by destruct (run c (Acquire <$> times) b).
Qed.

(** ** Retry delays *)

(** The exponential delay before the jitter, in milliseconds. *)
Definition nominal_delay (p : RetryPolicy) (attempt : Z) : Z :=
  Z.min (smul64 (RetryPolicy.millis64 (base_delay p)) (Z.min (2 ^ attempt) u32_max))
        (RetryPolicy.millis64 (max_delay p)).

Lemma millis64_range d : is_u64 (RetryPolicy.millis64 d).
Proof.
  unfold is_u64, RetryPolicy.millis64, u64_modulus, u64_max.
  pose proof (Z.mod_pos_bound (millis d) (2 ^ 64) ltac:(lia)). lia.
Qed.

Lemma nominal_range p attempt :
  0 ≤ attempt → 0 ≤ nominal_delay p attempt ≤ RetryPolicy.millis64 (max_delay p).
Proof.
  intros Ha. unfold nominal_delay, smul64. pose proof (millis64_range (base_delay p)) as [? ?].
  pose proof (millis64_range (max_delay p)) as [? ?].
  assert (0 ≤ Z.min (2 ^ attempt) u32_max) by (unfold u32_max; pose proof (Z.pow_nonneg 2 attempt); lia).
  assert (0 ≤ RetryPolicy.millis64 (base_delay p) * Z.min (2 ^ attempt) u32_max) by nia.
  unfold u64_max in *. lia.
Qed.

(** The delay before a retry is the exponential one, capped by [max_delay],
    plus a jitter below a fifth of it: no shorter than the nominal delay, at
    most 20% over it, without overflow as long as 1.2 times the cap fits 64
    bits; and the nominal delay does not decrease with the attempt. *)
Theorem retry_delay_bounds p attempt attempt' random :
  0 ≤ attempt ≤ attempt' → 0 ≤ random →
  RetryPolicy.millis64 (max_delay p) + RetryPolicy.millis64 (max_delay p) / 5 ≤ u64_max →
  let d := RetryPolicy.delay p attempt random in
  nominal_delay p attempt ≤ d ≤ nominal_delay p attempt + nominal_delay p attempt / 5 ∧
  nominal_delay p attempt ≤ RetryPolicy.millis64 (max_delay p) ∧
  (jitter p = false → d = nominal_delay p attempt) ∧
  nominal_delay p attempt ≤ nominal_delay p attempt'.
Proof.
  intros Ha Hr Hmax. pose proof (nominal_range p attempt ltac:(lia)) as Hn.
  assert (0 ≤ nominal_delay p attempt / 5
          ≤ RetryPolicy.millis64 (max_delay p) / 5) as Hdiv.
  { split; [apply Z.div_pos; lia|apply Z.div_le_mono; lia]. }
  assert (nominal_delay p attempt ≤ nominal_delay p attempt') as Hmono.
  { unfold nominal_delay, smul64. pose proof (millis64_range (base_delay p)) as [? ?].
    assert (2 ^ attempt ≤ 2 ^ attempt') by (apply Z.pow_le_mono_r; lia).
    assert (RetryPolicy.millis64 (base_delay p) * Z.min (2 ^ attempt) u32_max
            ≤ RetryPolicy.millis64 (base_delay p) * Z.min (2 ^ attempt') u32_max)
      by (apply Z.mul_le_mono_nonneg_l; lia). lia. }
  unfold RetryPolicy.delay. fold (nominal_delay p attempt). cbv zeta.
  destruct (jitter p); [|split_and!; (done || lia)].
  destruct (Z.ltb_spec 0 (nominal_delay p attempt / 5)).
  - pose proof (Z.mod_pos_bound random (nominal_delay p attempt / 5) ltac:(lia)).
    rewrite wadd64_small by lia. split_and!; (done || lia).
  - rewrite wadd64_small by lia. split_and!; (done || lia).
Qed.

(** ** Breakers per route *)

(** The state of the breaker a path resolves to. *)
Definition breaker_of (path : string) (m : PerRoute) : option BreakerInner :=
  assoc_get path (breakers m) ≫= λ i, cells m !! i.

Record per_route_ok (m : PerRoute) : Prop := {
  pr_capacity : (length (breakers m) ≤ MAX_PER_ROUTE_BREAKERS)%nat;
  pr_paths : NoDup (breakers m).*1;
  pr_handles : NoDup (breakers m).*2;
  pr_cells : ∀ path i, (path, i) ∈ breakers m → (i < length (cells m))%nat }.

Lemma assoc_remove_values_sub {V} (k : string) (m : list (string * V)) :
  (assoc_remove k m).*2 `sublist_of` m.*2.
Proof.
  induction m as [|[k2 v2] m IH]; csimpl; [constructor|].
  case_decide; csimpl; by constructor.
Qed.

Lemma handles_inj (m : list (string * nat)) p p' i :
  NoDup m.*2 → (p, i) ∈ m → (p', i) ∈ m → p = p'.
Proof.
  intros Hnd [k Hk]%list_elem_of_lookup [k' Hk']%list_elem_of_lookup.
  assert (k = k') as ->; [|congruence].
  apply (NoDup_lookup m.*2 k k' i Hnd); rewrite list_lookup_fmap; [by rewrite Hk|by rewrite Hk'].
Qed.

(** The entries [get_breaker] keeps when it makes room. *)
Lemma make_room_sub (m : list (string * nat)) :
  NoDup m.*1 →
  let entries := if Nat.leb MAX_PER_ROUTE_BREAKERS (length m) then
                   match m with (k, _) :: _ => assoc_remove k m | [] => m end
                 else m in
  (length m ≤ MAX_PER_ROUTE_BREAKERS → length entries < MAX_PER_ROUTE_BREAKERS)%nat ∧
  entries `sublist_of` m ∧ ((length m < MAX_PER_ROUTE_BREAKERS)%nat → entries = m).
Proof.
  intros Hnd entries. unfold entries.
  destruct (Nat.leb_spec MAX_PER_ROUTE_BREAKERS (length m)) as [Hle|Hlt];
    [|by split_and!].
  destruct m as [|[k v] m]; [simpl in Hle; unfold MAX_PER_ROUTE_BREAKERS in Hle; lia|].
  simpl. rewrite decide_True by done. split_and!; [simpl; lia|by constructor|simpl in *; lia].
Qed.

Lemma get_breaker_ok c path m :
  per_route_ok m →
  let '(i, m') := PerRoute.get_breaker c path m in
  per_route_ok m' ∧ assoc_get path (breakers m') = Some i ∧
  breaker_of path m' = Some (default (CircuitBreaker.new c) (breaker_of path m)) ∧
  ∀ p, p ≠ path → breaker_of p m' = breaker_of p m ∨
                  (breaker_of p m' = None ∧ (length (breakers m) = MAX_PER_ROUTE_BREAKERS)%nat).
Proof.
  intros [Hcap Hp Hh Hc]. unfold PerRoute.get_breaker.
  destruct (assoc_get path (breakers m)) as [i|] eqn:Hget.
  { split_and!; [done|done| |by left]. unfold breaker_of. rewrite Hget. simpl.
    apply assoc_get_elem, Hc in Hget. by destruct (lookup_lt_is_Some_2 _ _ Hget) as [b ->]. }
  destruct (make_room_sub (breakers m) Hp) as (Hlen & Hsub & Hsame).
  set (entries := if Nat.leb _ _ then _ else _) in *.
  assert (path ∉ entries.*1) as Hni.
  { intros Hin. apply assoc_get_None in Hget. apply Hget.
    eapply elem_of_sublist; [exact Hin|by apply fmap_sublist]. }
  rewrite assoc_set_new by by apply assoc_get_None.
  assert (∀ p i, (p, i) ∈ entries → (p, i) ∈ breakers m) as Hin
    by (intros p i ?; by eapply elem_of_sublist).
  assert (NoDup entries.*1 ∧ NoDup entries.*2) as [Hp' Hh'].
  { split; (eapply sublist_NoDup; [|by apply fmap_sublist]); done. }
  assert (∀ p, assoc_get p (entries ++ [(path, length (cells m))])
               = if decide (p = path) then Some (length (cells m)) else assoc_get p entries) as Hgetp.
  { intros p. rewrite assoc_get_app. apply assoc_get_None in Hni. simpl.
    destruct (decide (p = path)) as [->|Hne]; [by rewrite Hni, decide_True|].
    rewrite decide_False by done. by destruct (assoc_get p entries). }
  split_and!.
  - split; cbn [breakers cells].
    + rewrite length_app. simpl. specialize (Hlen Hcap). lia.
    + rewrite fmap_app. apply NoDup_app. split_and!; [done| |apply NoDup_singleton].
      by intros x Hx ->%list_elem_of_singleton.
    + rewrite fmap_app. apply NoDup_app. split_and!; [done| |apply NoDup_singleton].
      intros x ([p x'] & -> & Hx)%list_elem_of_fmap Hx2%list_elem_of_singleton.
      apply Hin, Hc in Hx. simpl in Hx2. lia.
    + intros p i [Hi|Hi%list_elem_of_singleton]%elem_of_app; rewrite length_app; simpl.
      * apply Hin, Hc in Hi. lia.
      * simplify_eq. lia.
  - simpl. by rewrite Hgetp, decide_True.
  - unfold breaker_of. simpl. rewrite Hgetp, decide_True, Hget by done. simpl.
    by rewrite lookup_app_r, Nat.sub_diag by done.
  - intros p Hne. unfold breaker_of. simpl. rewrite Hgetp, decide_False by done.
    destruct (assoc_get p entries) as [i|] eqn:He.
    + left. apply assoc_get_elem, Hin in He as Hi. rewrite (elem_assoc_get _ _ _ Hp Hi). simpl.
      rewrite lookup_app_l; [done|]. by eapply Hc.
    + destruct (decide (length (breakers m) < MAX_PER_ROUTE_BREAKERS)%nat) as [Hlt|Hge].
      * left. rewrite Hsame in He by done. by rewrite He.
      * right. split; [done|lia].
Qed.

(** Storing a new state in the cell of one path. *)
Lemma store_breaker path i f m :
  per_route_ok m → assoc_get path (breakers m) = Some i →
  let m' := mk_per_route (breakers m) (alter f i (cells m)) in
  per_route_ok m' ∧ breaker_of path m' = f <$> breaker_of path m ∧
  ∀ p, p ≠ path → breaker_of p m' = breaker_of p m.
Proof.
  intros [Hcap Hp Hh Hc] Hget m'. apply assoc_get_elem in Hget as Hin. split_and!.
  - split; try done. intros p j Hj. simpl. rewrite length_alter. by eapply Hc.
  - unfold breaker_of. simpl. rewrite Hget. simpl. by rewrite list_lookup_alter_eq.
  - intros p Hne. unfold breaker_of. simpl.
    destruct (assoc_get p (breakers m)) as [j|] eqn:Hj; [|done]. simpl.
    apply assoc_get_elem in Hj. rewrite list_lookup_alter_ne; [done|].
    intros ->. apply Hne. by eapply handles_inj.
Qed.

(** The breakers of different routes are independent and their number is
    bounded: a request on [path], from its admission to the record of its
    outcome, uses the breaker of [path] (a fresh one on first use), keeps at
    most [MAX_PER_ROUTE_BREAKERS] entries, and leaves the breaker of every
    other path as it was, except that a full table may forget one. *)
Theorem per_route_isolated c t0 t1 path next m :
  per_route_ok m →
  ∃ i ok m1, PerRoute.begin c t0 path m = (Some (i, ok), m1) ∧
    let m2 := PerRoute.finish c t1 i next m1 in
    let b0 := default (CircuitBreaker.new c) (breaker_of path m) in
    ok = (CircuitBreaker.try_acquire c t0 b0).1 ∧
    per_route_ok m1 ∧ per_route_ok m2 ∧
    breaker_of path m2
      = Some (record_outcome c t1 next (CircuitBreaker.try_acquire c t0 b0).2) ∧
    ∀ p, p ≠ path → breaker_of p m2 = breaker_of p m ∨
      (breaker_of p m2 = None ∧ (length (breakers m) = MAX_PER_ROUTE_BREAKERS)%nat).
Proof.
  intros Hok. unfold PerRoute.begin. pose proof (get_breaker_ok c path m Hok) as Hget.
  destruct (PerRoute.get_breaker c path m) as [i m0].
  destruct Hget as (Hok0 & Hi & Hb & Hother).
  set (b0 := default (CircuitBreaker.new c) (breaker_of path m)) in *.
  assert (cells m0 !! i = Some b0) as Hcell by (unfold breaker_of in Hb; by rewrite Hi in Hb).
  rewrite Hcell. destruct (CircuitBreaker.try_acquire c t0 b0) as [ok b1] eqn:Hacq.
  set (m1 := mk_per_route (breakers m0) (<[i:=b1]> (cells m0))).
  assert (m1 = mk_per_route (breakers m0) (alter (λ _, b1) i (cells m0))) as Hm1.
  { unfold m1. f_equal. apply list_eq. intros j. destruct (decide (j = i)) as [->|Hne].
    - by rewrite list_lookup_alter_eq, list_lookup_insert_eq, Hcell by by eapply lookup_lt_Some.
    - by rewrite list_lookup_alter_ne, list_lookup_insert_ne by done. }
  destruct (store_breaker path i (λ _, b1) m0 Hok0 Hi) as (Hok1 & Hb1 & Ho1).
  rewrite <- Hm1 in Hok1, Hb1, Ho1. rewrite Hb in Hb1. simpl in Hb1.
  destruct (store_breaker path i (record_outcome c t1 next) m1 Hok1 Hi) as (Hok2 & Hb2 & Ho2).
  exists i, ok, m1. split; [done|]. cbv zeta. unfold PerRoute.finish. split_and!; [done..| |].
  - rewrite Hb2, Hb1. done.
  - intros p Hne. rewrite Ho2, Ho1 by done. by apply Hother.
Qed.

(** ** Concrete runs *)

Definition quick : CircuitBreakerConfig := mk_breaker_config 2 3 100 1.

(** A failure, a success that ends the row, and a failure again. *)
Definition interrupted : list breaker_op := [Acquire 0; Failure 5; Success; Acquire 6; Failure 6].

Lemma breaker_trips_witness :
  let '(n, b') := run quick interrupted (CircuitBreaker.new quick) in
  n = 2%nat ∧ state b' = Closed ∧
  (run quick [Acquire 8; Success; Acquire 106]
     (CircuitBreaker.record_failure quick 7 b')).1 = O.
Proof.
  destruct (run quick interrupted (CircuitBreaker.new quick)) as [n b'] eqn:Hrun.
  assert (never_reaches 2 0 interrupted) as Hn.
  { intros pre [suf Hpre]. assert (∃ k, pre = take k interrupted) as [k ->].
    { exists (length pre). by rewrite Hpre, take_app_length. }
    destruct k as [|[|[|[|[|k]]]]]; cbn [take interrupted]; rewrite ?take_nil; vm_compute; done. }
  pose proof (breaker_trips quick interrupted (CircuitBreaker.new quick)
    eq_refl ltac:(simpl; lia) ltac:(simpl; unfold u32_max; lia) Hn) as Ht.
  rewrite Hrun in Ht. destruct Ht as (-> & Hs & _ & Hopen).
  split; [reflexivity|]. split; [exact Hs|].
  destruct (Hopen 7) as ([_ Hiff] & _ & Hhold).
  rewrite (Hhold [Acquire 8; Success; Acquire 106]); [reflexivity| |].
  - apply Hiff. reflexivity.
  - repeat constructor; vm_compute; reflexivity.
Defined.

Definition opened : BreakerInner := mk_breaker (Open 0) 0 0 1 0.

Lemma half_open_probes_witness :
  let '(ok, b1) := CircuitBreaker.try_acquire quick 100 opened in
  ok = true ∧
  Z.of_nat (bnat ok + (run quick [Acquire 101; Acquire 102; Acquire 103] b1).1) = 2.
Proof.
  pose proof (half_open_probes quick opened 0 100 [Acquire 101; Acquire 102; Acquire 103]
    eq_refl ltac:(vm_compute; discriminate) ltac:(simpl; unfold u32_max; lia)) as Hp.
  destruct (CircuitBreaker.try_acquire quick 100 opened) as [ok b1] eqn:Hacq.
  destruct Hp as (Hok & Hs & Hrun). split; [exact Hok|]. rewrite Hrun; [reflexivity|].
  apply (acquires_half_open quick [101; 102; 103]). exact Hs.
Defined.

(** With three successes required and one probe beyond the first, two
    successful probes leave the breaker half-open for ever. *)
Definition wedged : BreakerInner :=
  (run quick [Acquire 100; Acquire 101; Success; Success] opened).2.

Lemma half_open_stuck_witness :
  (run quick (Acquire <$> [200; 100000; 10000000000]) wedged).1 = O.
Proof.
  refine (proj1 (half_open_stuck quick wedged [200; 100000; 10000000000] _ _ _)).
  - reflexivity.
  - reflexivity.
  - split; vm_compute; discriminate.
Defined.

Lemma retry_delay_bounds_witness :
  let d := RetryPolicy.delay RetryPolicy_default 4 17 in
  nominal_delay RetryPolicy_default 4 = 1600 ∧
  1600 ≤ d ≤ 1920.
Proof.
  split; [reflexivity|].
  refine (proj1 (retry_delay_bounds RetryPolicy_default 4 5 17 _ _ _)).
  - lia.
  - lia.
  - vm_compute. discriminate.
Defined.

Lemma per_route_isolated_witness :
  let '(r, m1) := PerRoute.begin quick 0 "/a" PerRoute.new in
  let m2 := PerRoute.finish quick 5 0 (inr "boom"%string) m1 in
  breaker_of "/a" m2 = Some (mk_breaker Closed 1 0 1 0) ∧ breaker_of "/b" m2 = None.
Proof.
  destruct (per_route_isolated quick 0 5 "/a" (inr "boom"%string) PerRoute.new)
    as (i & ok & m1 & Hb & _ & _ & Hok2 & Hbr & Hother).
  - split; simpl; [unfold MAX_PER_ROUTE_BREAKERS; lia|constructor|constructor|].
    intros ? ? Hin. apply elem_of_nil in Hin. destruct Hin.
  - rewrite Hb. assert (i = O) as -> by (vm_compute in Hb; congruence).
    split; [exact Hbr|].
    destruct (Hother "/b"%string) as [Hsame|[Hnone _]]; [discriminate|exact Hsame|exact Hnone].
Defined.
