(* ===== verification/ControlPlane.v ===== *)
(** * ControlPlane: the model registry that resolves requests

    [crates/justapi-inference/src/control_plane.rs], with the device of
    [engine.rs] and the quantisation method of [real/quant.rs] a version is
    described by.  The [RwLock] serialises the operations, so a registry is a
    value and every operation a function on it. *)

From S2P Require Import Prelude F32.

#[local] Open Scope Z_scope.

Inductive EngineDevice := Cpu | Cuda (ordinal : Z) | Metal (ordinal : Z).

Inductive QuantMethod := QuantNone | Gptq | Awq | Gguf | Exl2 | BitsAndBytes.

Inductive WeightLocation :=
| Local (path : string)
| S3 (bucket key : string)
| HuggingFace (repo : string) (revision : option string)
| RemoteRegistry (url : string).

Record RuntimeProfile := mk_profile {
  rp_device : EngineDevice;
  rp_max_concurrency : Z;
  rp_max_batch_tokens : Z;
  rp_gpu_memory_mib : Z;
  rp_quant_method : QuantMethod;
  rp_expected_adapters : list string }.

Definition RuntimeProfile_default : RuntimeProfile := mk_profile Cpu 1 2048 0 QuantNone [].

(** ** Versions *)

Record ModelVersion := mk_version {
  mv_version : string;
  mv_weight_location : WeightLocation;
  mv_runtime_profile : RuntimeProfile;
  mv_created_at_unix : Z;
  mv_aliases : list string }.

Module ModelVersion.

Definition new (version : string) (w : WeightLocation) : ModelVersion :=
  mk_version version w RuntimeProfile_default 0 [].
Definition with_profile (p : RuntimeProfile) (v : ModelVersion) : ModelVersion :=
  mk_version (mv_version v) (mv_weight_location v) p (mv_created_at_unix v) (mv_aliases v).
Definition with_created_at (unix : Z) (v : ModelVersion) : ModelVersion :=
  mk_version (mv_version v) (mv_weight_location v) (mv_runtime_profile v) unix (mv_aliases v).
Definition with_aliases (aliases : list string) (v : ModelVersion) : ModelVersion :=
  mk_version (mv_version v) (mv_weight_location v) (mv_runtime_profile v) (mv_created_at_unix v)
    aliases.

(** [matches]: a version answers to its name and to its aliases. *)
Definition matches (name : string) (v : ModelVersion) : bool :=
  String.eqb (mv_version v) name || existsb (λ a, String.eqb a name) (mv_aliases v).

Lemma matches_spec name v :
  matches name v = true ↔ mv_version v = name ∨ name ∈ mv_aliases v.
Proof.
  unfold matches. rewrite orb_true_iff, String.eqb_eq, existsb_exists.
  setoid_rewrite String.eqb_eq. setoid_rewrite <- list_elem_of_In. naive_solver.
Qed.

End ModelVersion.

(** ** Records *)

Record ModelRecord := mk_record {
  mr_name : string;
  mr_versions : list ModelVersion;
  mr_default_version : string;
  mr_adapter_routing : gmap string string }.

Module ModelRecord.

Definition new (name : string) : ModelRecord := mk_record name [] EmptyString ∅.

(** The loop of [add_version]: overwrite the first version of that name. *)
Fixpoint replace_version (v : ModelVersion) (vs : list ModelVersion) : option (list ModelVersion) :=
  match vs with
  | [] => None
  | w :: vs' =>
      if String.eqb (mv_version w) (mv_version v) then Some (v :: vs')
      else cons w <$> replace_version v vs'
  end.

Definition put_version (v : ModelVersion) (vs : list ModelVersion) : list ModelVersion :=
  default (vs ++ [v]) (replace_version v vs).

(** [versions.last().unwrap()] panics on an empty vector. *)
Definition add_version (v : ModelVersion) (r : ModelRecord) : exec ModelRecord :=
  let vs := put_version v (mr_versions r) in
  d ← (if String.eqb (mr_default_version r) EmptyString
       then match last vs with Some w => Ret (mv_version w) | None => Panic end
       else Ret (mr_default_version r));
  Ret (mk_record (mr_name r) vs d (mr_adapter_routing r)).

Definition set_default (version : string) (r : ModelRecord) : bool * ModelRecord :=
  if existsb (ModelVersion.matches version) (mr_versions r)
  then (true, mk_record (mr_name r) (mr_versions r) version (mr_adapter_routing r))
  else (false, r).

Definition route_adapter (routing_key adapter : string) (r : ModelRecord) : ModelRecord :=
  mk_record (mr_name r) (mr_versions r) (mr_default_version r)
    (<[routing_key := adapter]> (mr_adapter_routing r)).

Definition resolve_version (version_or_alias : string) (r : ModelRecord) : option ModelVersion :=
  List.find (ModelVersion.matches version_or_alias) (mr_versions r).

Definition latest_version (r : ModelRecord) : option ModelVersion :=
  max_by (λ a b, mv_created_at_unix a ?= mv_created_at_unix b) (mr_versions r).

Definition resolve_adapter (routing_key : string) (r : ModelRecord) : option string :=
  mr_adapter_routing r !! routing_key.

End ModelRecord.

Record ResolvedModel := mk_resolved {
  rm_model_name : string;
  rm_version : string;
  rm_weight_location : WeightLocation;
  rm_runtime_profile : RuntimeProfile;
  rm_adapter : option string }.

(** ** The registry *)

Abbreviation ControlPlane := (gmap string ModelRecord).

Module ControlPlane.

Definition new : ControlPlane := ∅.

Definition register (r : ModelRecord) (cp : ControlPlane) : ControlPlane :=
  <[mr_name r := r]> cp.

Definition register_version (model : string) (v : ModelVersion) (cp : ControlPlane)
    : exec ControlPlane :=
  r ← ModelRecord.add_version v (default (ModelRecord.new model) (cp !! model));
  Ret (<[model := r]> cp).

Definition get (name : string) (cp : ControlPlane) : option ModelRecord := cp !! name.
Definition list (cp : ControlPlane) : list string := (map_to_list cp).*1.
Definition len (cp : ControlPlane) : nat := size cp.
Definition is_empty (cp : ControlPlane) : bool := Nat.eqb (size cp) 0.
Definition unregister (name : string) (cp : ControlPlane) : option ModelRecord * ControlPlane :=
  (cp !! name, delete name cp).

Definition resolve (model : string) (version_or_alias routing_key : option string)
    (cp : ControlPlane) : option ResolvedModel :=
  r ← cp !! model;
  v ← match version_or_alias with
      | Some w => ModelRecord.resolve_version w r
      | None =>
          match ModelRecord.resolve_version (mr_default_version r) r with
          | Some v => Some v
          | None => ModelRecord.latest_version r
          end
      end;
  Some (mk_resolved (mr_name r) (mv_version v) (mv_weight_location v) (mv_runtime_profile v)
          (routing_key ≫= λ k, ModelRecord.resolve_adapter k r)).

End ControlPlane.

(** ** Versions of a record *)

Lemma find_first {A} (f : A → bool) l a :
  List.find f l = Some a ↔
  ∃ pre post, l = pre ++ a :: post ∧ f a = true ∧ Forall (λ x, f x = false) pre.
Proof.
  induction l as [|x l IH]; simpl.
  - split; [done|]. by intros ([] & ? & ? & _).
  - destruct (f x) eqn:Hx.
    + split; [intros [= ->]; by exists [], l|].
      intros ([|y pre] & post & Heq & Ha & Hpre); simplify_eq/=; [done|].
      apply Forall_cons in Hpre as [? _]. congruence.
    + rewrite IH. split.
      * intros (pre & post & -> & ? & ?). exists (x :: pre), post. by repeat constructor.
      * intros ([|y pre] & post & Heq & Ha & Hpre); simplify_eq/=; [congruence|].
        apply Forall_cons in Hpre as [_ ?]. by exists pre, post.
Qed.

Lemma find_absent {A} (f : A → bool) l :
  List.find f l = None ↔ Forall (λ x, f x = false) l.
Proof.
  induction l as [|x l IH]; simpl; [split; [constructor|done]|].
  rewrite Forall_cons, <- IH. destruct (f x); naive_solver.
Qed.

Lemma replace_version_spec v vs :
  match ModelRecord.replace_version v vs with
  | Some ws => ∃ pre w post, vs = pre ++ w :: post ∧ ws = pre ++ v :: post ∧
                 mv_version w = mv_version v ∧
                 Forall (λ x, mv_version x ≠ mv_version v) pre
  | None => Forall (λ x, mv_version x ≠ mv_version v) vs
  end.
Proof.
  induction vs as [|w vs IH]; simpl; [constructor|].
  destruct (String.eqb_spec (mv_version w) (mv_version v)) as [Heq|Hne].
  - exists [], w, vs. by repeat constructor.
  - destruct (ModelRecord.replace_version v vs) as [ws|]; simpl; [|by constructor].
    destruct IH as (pre & u & post & -> & -> & ? & ?).
    exists (w :: pre), u, post. by repeat constructor.
Qed.

(** Adding a version never panics: it leaves at least that version. *)
Lemma put_version_elem v vs : v ∈ ModelRecord.put_version v vs.
Proof.
  unfold ModelRecord.put_version. pose proof (replace_version_spec v vs) as H.
  destruct (ModelRecord.replace_version v vs); simpl; [|set_solver].
  destruct H as (pre & w & post & _ & -> & _). set_solver.
Qed.

Lemma put_version_names v vs x :
  x ∈ ModelRecord.put_version v vs → x = v ∨ x ∈ vs.
Proof.
  unfold ModelRecord.put_version. pose proof (replace_version_spec v vs) as H.
  destruct (ModelRecord.replace_version v vs); simpl; [|set_solver].
  destruct H as (pre & w & post & -> & -> & _). set_solver.
Qed.

Lemma add_version_ret v r :
  ∃ d, ModelRecord.add_version v r
       = Ret (mk_record (mr_name r) (ModelRecord.put_version v (mr_versions r)) d
                (mr_adapter_routing r)) ∧
       (mr_default_version r ≠ EmptyString → d = mr_default_version r).
Proof.
  unfold ModelRecord.add_version.
  destruct (String.eqb_spec (mr_default_version r) EmptyString) as [Heq|Hne]; simpl;
    [|by eexists].
  pose proof (put_version_elem v (mr_versions r)) as Hin.
  destruct (last _) eqn:Hl; simpl; [by eexists|].
  apply last_None in Hl. rewrite Hl in Hin. by apply elem_of_nil in Hin.
Qed.

(** The added version answers to its name unless another version has it as an
    alias. *)
Lemma put_version_found v vs :
  Forall (λ w, mv_version w = mv_version v ∨ mv_version v ∉ mv_aliases w) vs →
  List.find (ModelVersion.matches (mv_version v)) (ModelRecord.put_version v vs) = Some v.
Proof.
  intros Hal. apply find_first. unfold ModelRecord.put_version.
  assert (ModelVersion.matches (mv_version v) v = true) as Hv
    by (by apply ModelVersion.matches_spec; left).
  assert (∀ pre, Forall (λ w, mv_version w = mv_version v ∨ mv_version v ∉ mv_aliases w) pre →
    Forall (λ x, mv_version x ≠ mv_version v) pre →
    Forall (λ x, ModelVersion.matches (mv_version v) x = false) pre) as Hpre.
  { intros pre. rewrite !Forall_forall. intros H1 H2 x Hx. apply not_true_is_false.
    rewrite ModelVersion.matches_spec. naive_solver. }
  pose proof (replace_version_spec v vs) as H.
  destruct (ModelRecord.replace_version v vs); simpl.
  - destruct H as (pre & w & post & -> & -> & _ & Hne). exists pre, post.
    apply Forall_app in Hal as [Hal _]. eauto.
  - exists vs, []. eauto.
Qed.

(** ** Resolution *)

(** What a version request selects among the versions of a record: the first
    version answering to the requested name; without a name, the first that
    answers to the default, and when none does the last of the newest. *)
Definition first_answering (name : string) (vs : list ModelVersion) (v : ModelVersion) : Prop :=
  ∃ pre post, vs = pre ++ v :: post ∧
    (mv_version v = name ∨ name ∈ mv_aliases v) ∧
    Forall (λ w, mv_version w ≠ name ∧ name ∉ mv_aliases w) pre.

Definition selects (request : option string) (r : ModelRecord) (v : ModelVersion) : Prop :=
  match request with
  | Some name => first_answering name (mr_versions r) v
  | None =>
      first_answering (mr_default_version r) (mr_versions r) v ∨
      (Forall (λ w, mv_version w ≠ mr_default_version r ∧
                    mr_default_version r ∉ mv_aliases w) (mr_versions r) ∧
       ∃ pre post, mr_versions r = pre ++ v :: post ∧
         Forall (λ w, mv_created_at_unix w ≤ mv_created_at_unix v) pre ∧
         Forall (λ w, mv_created_at_unix w < mv_created_at_unix v) post)
  end.

Lemma not_matches name v :
  ModelVersion.matches name v = false ↔ mv_version v ≠ name ∧ name ∉ mv_aliases v.
Proof. rewrite <- not_true_iff_false, ModelVersion.matches_spec. naive_solver. Qed.

Lemma Forall_not_matches name vs :
  Forall (λ v, ModelVersion.matches name v = false) vs ↔
  Forall (λ w, mv_version w ≠ name ∧ name ∉ mv_aliases w) vs.
Proof. apply Forall_iff. intros v. apply not_matches. Qed.

Lemma resolve_version_spec name r v :
  ModelRecord.resolve_version name r = Some v ↔ first_answering name (mr_versions r) v.
Proof.
  unfold ModelRecord.resolve_version. rewrite find_first. unfold first_answering.
  split; intros (pre & post & Heq & Hv%ModelVersion.matches_spec & Hpre%Forall_not_matches);
    by exists pre, post.
Qed.

Lemma latest_version_spec r :
  match ModelRecord.latest_version r with
  | Some v => ∃ pre post, mr_versions r = pre ++ v :: post ∧
      Forall (λ w, mv_created_at_unix w ≤ mv_created_at_unix v) pre ∧
      Forall (λ w, mv_created_at_unix w < mv_created_at_unix v) post
  | None => mr_versions r = []
  end.
Proof.
  unfold ModelRecord.latest_version. destruct (max_by _ _) as [v|] eqn:Hv.
  - apply (max_by_last _ (λ _, True)) in Hv as (pre & post & -> & Hpre & Hpost).
    + exists pre, post. split; [done|].
      split; (eapply Forall_impl; [done|]); intros w; simpl.
      * rewrite Z.compare_gt_iff. lia.
      * rewrite Z.compare_gt_iff. lia.
    + intros a b c _ _ _. rewrite !Z.compare_gt_iff. lia.
    + intros a b _ _. rewrite !Z.compare_gt_iff. lia.
    + by apply Forall_true.
  - by apply max_by_None in Hv.
Qed.

(** The newest version is unique once its position is given. *)
Lemma newest_unique (vs pre post pre' post' : list ModelVersion) v v' :
  vs = pre ++ v :: post → vs = pre' ++ v' :: post' →
  Forall (λ w, mv_created_at_unix w ≤ mv_created_at_unix v) pre →
  Forall (λ w, mv_created_at_unix w < mv_created_at_unix v) post →
  Forall (λ w, mv_created_at_unix w ≤ mv_created_at_unix v') pre' →
  Forall (λ w, mv_created_at_unix w < mv_created_at_unix v') post' → v = v'.
Proof.
  intros -> Heq. revert pre' Heq. induction pre as [|x pre IH]; intros [|y pre'] Heq;
    simplify_eq/=; rewrite ?Forall_cons; try done.
  - intros _ Hpost [Hv _] _. rewrite Forall_forall in Hpost.
    specialize (Hpost v' ltac:(set_solver)). simpl in *. lia.
  - intros [Hv _] _ _ Hpost. rewrite Forall_forall in Hpost.
    specialize (Hpost v ltac:(set_solver)). simpl in *. lia.
  - intros [_ ?] ? [_ ?] ?. by eapply IH.
Qed.

(** A request resolves exactly when its model is registered and has a
    version the request selects, an explicit name being strict and a missing
    one falling back to the default and then to the newest version; the
    target carries that version's weights and profile and the adapter the
    routing key is mapped to, if any. *)
Theorem resolve_selects model request key (cp : ControlPlane) m :
  ControlPlane.resolve model request key cp = Some m ↔
  ∃ r v, cp !! model = Some r ∧ selects request r v ∧
    m = mk_resolved (mr_name r) (mv_version v) (mv_weight_location v) (mv_runtime_profile v)
          (key ≫= λ k, mr_adapter_routing r !! k).
Proof.
  unfold ControlPlane.resolve. destruct (cp !! model) as [r|]; simpl; [|naive_solver].
  assert (∀ v, match request with
    | Some w => ModelRecord.resolve_version w r
    | None => match ModelRecord.resolve_version (mr_default_version r) r with
              | Some v => Some v
              | None => ModelRecord.latest_version r
              end
    end = Some v ↔ selects request r v) as Hsel.
  { intros v. destruct request as [w|]; simpl; [apply resolve_version_spec|].
    rewrite <- resolve_version_spec.
    destruct (ModelRecord.resolve_version _ r) as [u|] eqn:Hu.
    - split; [by left|]. intros [?|[Hnone _]]; [done|].
      apply Forall_not_matches, find_absent in Hnone.
      unfold ModelRecord.resolve_version in Hu. congruence.
    - apply find_absent, Forall_not_matches in Hu. pose proof (latest_version_spec r) as Hl.
      destruct (ModelRecord.latest_version r) as [u|].
      + split; [intros [= ->]; by right|]. intros [?|(_ & pre' & post' & ? & ? & ?)]; [done|].
        destruct Hl as (pre & post & ? & ? & ?). f_equal. by eapply newest_unique.
      + split; [done|]. intros [?|(_ & pre' & post' & Heq & _)]; [done|].
        rewrite Hl in Heq. by destruct pre'. }
  destruct (match request with Some _ => _ | None => _ end) as [v|]; simpl.
  - split; [intros [= <-]; exists r, v; split; [done|]; split; [by apply Hsel|done]|].
    intros (r' & v' & [= <-] & Hv'%Hsel & ->). by simplify_eq.
  - split; [done|]. by intros (r' & v' & [= <-] & Hv'%Hsel & _).
Qed.

(** Registering a version never panics, and the version is then what its
    name resolves to, with its own weights, provided no other version of the
    model carries that name as an alias; it is also the default of a model
    that was unknown, and other models resolve as before. *)
Theorem register_then_resolve model v (cp : ControlPlane) :
  Forall (λ w, mv_version w = mv_version v ∨ mv_version v ∉ mv_aliases w)
    (mr_versions (default (ModelRecord.new model) (cp !! model))) →
  ∃ cp', ControlPlane.register_version model v cp = Ret cp' ∧
    (∀ request key, request = Some (mv_version v) ∨ (request = None ∧ cp !! model = None) →
       ∃ m, ControlPlane.resolve model request key cp' = Some m ∧
         rm_version m = mv_version v ∧ rm_weight_location m = mv_weight_location v ∧
         rm_runtime_profile m = mv_runtime_profile v) ∧
    (∀ other request key, other ≠ model →
       ControlPlane.resolve other request key cp' = ControlPlane.resolve other request key cp).
Proof.
  intros Hal. set (r := default (ModelRecord.new model) (cp !! model)) in *.
  destruct (add_version_ret v r) as (d & Hadd & _).
  exists (<[model := mk_record (mr_name r) (ModelRecord.put_version v (mr_versions r)) d
                       (mr_adapter_routing r)]> cp).
  unfold ControlPlane.register_version. fold r. rewrite Hadd. split; [done|]. split.
  - pose proof (put_version_found v _ Hal) as Hfound.
    intros request key Hreq. unfold ControlPlane.resolve. rewrite lookup_insert_eq. simpl.
    unfold ModelRecord.resolve_version. simpl.
    destruct Hreq as [->|[-> Hnone]]; [rewrite Hfound; simpl; by eauto|].
    assert (d = mv_version v) as ->.
    { unfold r in Hadd. rewrite Hnone in Hadd. by injection Hadd. }
    rewrite Hfound. simpl. by eauto.
  - intros other request key Hne. unfold ControlPlane.resolve. by rewrite lookup_insert_ne.
Qed.

(** The proviso is needed: an alias of an earlier version hides the name of a
    later one, so the weights served for "v2" here are those of "v1". *)
Lemma alias_hides_version :
  let v1 := ModelVersion.with_aliases ["v2"%string] (ModelVersion.new "v1" (Local "/models/v1")) in
  let v2 := ModelVersion.new "v2" (Local "/models/v2") in
  match ControlPlane.register_version "m" v1 ControlPlane.new with
  | Ret cp1 =>
      match ControlPlane.register_version "m" v2 cp1 with
      | Ret cp2 =>
          rm_weight_location <$> ControlPlane.resolve "m" (Some "v2"%string) None cp2
          = Some (Local "/models/v1")
      | Panic => False
      end
  | Panic => False
  end.
Proof. vm_compute. reflexivity. Qed.

Lemma register_then_resolve_witness :
  ∃ cp', ControlPlane.register_version "m" (ModelVersion.new "v1" (Local "/models/v1"))
           ControlPlane.new = Ret cp' ∧
    ∃ m, ControlPlane.resolve "m" None None cp' = Some m ∧ rm_version m = "v1"%string.
Proof.
  destruct (register_then_resolve "m" (ModelVersion.new "v1" (Local "/models/v1"))
    ControlPlane.new) as (cp' & Hcp & Hres & _); [constructor|].
  exists cp'. split; [done|]. destruct (Hres None None) as (m & Hm & Hv & _); [by right|].
  exists m. split; [done|exact Hv].
Defined.
