(* ===== verification/LlmRouter.v ===== *)
(** * LlmRouter: selecting the replica that serves a request

    [crates/justapi-inference/src/router.rs]: a request is resolved by the
    control plane, and the router picks one of the replicas able to serve the
    target.  The [Mutex] around the replicas serialises the operations; the
    round-robin counter is an atomic that only [route] advances. *)

From S2P Require Import Prelude F32 ControlPlane.

#[local] Open Scope Z_scope.

Record Replica := mk_replica {
  rep_id : string;
  rep_model : string;
  rep_version : string;
  rep_device : EngineDevice;
  rep_max_concurrency : Z;
  rep_active_sequences : Z;
  rep_kv_pressure_pct : f32;
  rep_healthy : bool;
  rep_loaded_adapters : list string }.

Module Replica.

Definition available_capacity (r : Replica) : Z :=
  ssub (rep_max_concurrency r) (rep_active_sequences r).

Definition is_overloaded (r : Replica) : bool :=
  (rep_max_concurrency r <=? rep_active_sequences r)
  || f32_ge (rep_kv_pressure_pct r) (f32_of_Z 95).

Definition set_load (active : Z) (kv : f32) (healthy : bool) (r : Replica) : Replica :=
  mk_replica (rep_id r) (rep_model r) (rep_version r) (rep_device r) (rep_max_concurrency r)
    active kv healthy (rep_loaded_adapters r).

Definition set_adapters (adapters : list string) (r : Replica) : Replica :=
  mk_replica (rep_id r) (rep_model r) (rep_version r) (rep_device r) (rep_max_concurrency r)
    (rep_active_sequences r) (rep_kv_pressure_pct r) (rep_healthy r) adapters.

End Replica.

Record RouteRequest := mk_request {
  rq_model : string; rq_version : option string; rq_routing_key : option string }.

Record RouteDecision := mk_decision { rd_replica : string; rd_resolved : ResolvedModel }.

Inductive RoutingStrategy := LeastLoaded | LowestKvPressure | RoundRobin.

Record Router := mk_router {
  strategy : RoutingStrategy; replicas : list Replica; rr : Z }.

(** [guard.iter_mut().find(|r| r.id == id)] and an update of what it finds. *)
Fixpoint update_replica (id : string) (f : Replica → Replica) (rs : list Replica)
    : list Replica :=
  match rs with
  | [] => []
  | r :: rs' => if String.eqb (rep_id r) id then f r :: rs' else r :: update_replica id f rs'
  end.

Definition has_replica (id : string) (rs : list Replica) : bool :=
  existsb (λ r, String.eqb (rep_id r) id) rs.

(** [position] and [Vec::remove]. *)
Fixpoint take_replica (id : string) (rs : list Replica) : option Replica * list Replica :=
  match rs with
  | [] => (None, [])
  | r :: rs' =>
      if String.eqb (rep_id r) id then (Some r, rs')
      else let '(o, rs2) := take_replica id rs' in (o, r :: rs2)
  end.

Module Router.

Definition new (s : RoutingStrategy) : Router := mk_router s [] 0.

Definition with_replicas (f : list Replica → list Replica) (rt : Router) : Router :=
  mk_router (strategy rt) (f (replicas rt)) (rr rt).

Definition register_replica (r : Replica) : Router → Router :=
  with_replicas (λ rs, if has_replica (rep_id r) rs
                       then update_replica (rep_id r) (λ _, r) rs else rs ++ [r]).

Definition update_load (id : string) (active : Z) (kv : f32) (healthy : bool)
    : Router → Router :=
  with_replicas (update_replica id (Replica.set_load active kv healthy)).

Definition set_loaded_adapters (id : string) (adapters : list string) : Router → Router :=
  with_replicas (update_replica id (Replica.set_adapters adapters)).

Definition remove_replica (id : string) (rt : Router) : option Replica * Router :=
  let '(o, rs) := take_replica id (replicas rt) in (o, mk_router (strategy rt) rs (rr rt)).

(** The filter of [candidates]. *)
Definition can_serve (m : ResolvedModel) (r : Replica) : bool :=
  String.eqb (rep_model r) (rm_model_name m) && String.eqb (rep_version r) (rm_version m)
  && rep_healthy r && negb (Replica.is_overloaded r)
  && match rm_adapter m with
     | Some a => existsb (λ la, String.eqb la a) (rep_loaded_adapters r)
     | None => true
     end.

Definition candidates (m : ResolvedModel) (rt : Router) : list Replica :=
  List.filter (can_serve m) (replicas rt).

(** [route]; the [unwrap]s and [swap_remove] of the code, on candidates that
    are not empty, are the lookups in [option] here. *)
Definition route (cp : ControlPlane) (q : RouteRequest) (rt : Router)
    : exec (option RouteDecision * Router) :=
  match ControlPlane.resolve (rq_model q) (rq_version q) (rq_routing_key q) cp with
  | None => Ret (None, rt)
  | Some m =>
      let cs := candidates m rt in
      if Nat.eqb (length cs) 0 then Ret (None, rt) else
      let '(chosen, rt') :=
        match strategy rt with
        | LeastLoaded =>
            (min_by (λ a b, rep_active_sequences a ?= rep_active_sequences b) cs, rt)
        | LowestKvPressure =>
            (min_by (λ a b, f32_cmp_or_eq (rep_kv_pressure_pct a) (rep_kv_pressure_pct b)) cs, rt)
        | RoundRobin =>
            (cs !! Z.to_nat (rr rt mod Z.of_nat (length cs)),
             mk_router (strategy rt) (replicas rt) (wadd64 (rr rt) 1))
        end in
      match chosen with
      | Some r => Ret (Some (mk_decision (rep_id r) m), rt')
      | None => Panic
      end
  end.

End Router.

(** ** The replicas by id *)

Abbreviation ids rs := (rep_id <$> rs).

Lemma has_replica_spec id rs : has_replica id rs = true ↔ id ∈ ids rs.
Proof.
  unfold has_replica. rewrite existsb_exists, list_elem_of_fmap.
  setoid_rewrite String.eqb_eq. setoid_rewrite <- list_elem_of_In. naive_solver.
Qed.

Lemma update_replica_ids id f rs :
  (∀ r, rep_id (f r) = id ∨ rep_id (f r) = rep_id r) → ids (update_replica id f rs) = ids rs.
Proof.
  intros Hf. induction rs as [|r rs IH]; csimpl; [done|].
  destruct (String.eqb_spec (rep_id r) id) as [<-|Hne]; csimpl; f_equal; [|done].
  by destruct (Hf r).
Qed.

Lemma update_replica_elem id f rs r :
  r ∈ update_replica id f rs → r ∈ rs ∨ ∃ r0, r0 ∈ rs ∧ rep_id r0 = id ∧ r = f r0.
Proof.
  induction rs as [|x rs IH]; csimpl; [by intros ?%elem_of_nil|].
  destruct (String.eqb_spec (rep_id x) id) as [<-|Hne]; rewrite !elem_of_cons.
  - intros [->|?]; [|by left; right]. right. exists x. by split; [left|].
  - intros [->|[?|(r0 & ? & ? & ->)]%IH]; [by left; left|by left; right|].
    right. exists r0. by split; [right|].
Qed.

(** With distinct ids, the replica of that id is the one that changes. *)
Lemma update_replica_NoDup id f rs :
  NoDup (ids rs) →
  update_replica id f rs = (λ r, if String.eqb (rep_id r) id then f r else r) <$> rs.
Proof.
  induction rs as [|r rs IH]; csimpl; [done|]. intros [Hr Hnd]%NoDup_cons.
  destruct (String.eqb_spec (rep_id r) id) as [<-|Hne]; [|by rewrite IH].
  f_equal. rewrite <- (list_fmap_id rs) at 1. apply list_fmap_ext.
  intros i x Hx. destruct (String.eqb_spec (rep_id x) (rep_id r)) as [Heq|]; [|done].
  exfalso. apply Hr. rewrite <- Heq. by eapply list_elem_of_fmap_2, list_elem_of_lookup_2.
Qed.

Lemma take_replica_absent id rs : id ∉ ids rs → take_replica id rs = (None, rs).
Proof.
  induction rs as [|r rs IH]; csimpl; [done|]. rewrite not_elem_of_cons. intros [Hne Hid].
  destruct (String.eqb_spec (rep_id r) id); [congruence|]. by rewrite IH.
Qed.

Lemma take_replica_filter id rs :
  NoDup (ids rs) → (take_replica id rs).2 = filter (λ r, rep_id r ≠ id) rs.
Proof.
  induction rs as [|r rs IH]; csimpl; [done|]. intros [Hr Hnd]%NoDup_cons.
  rewrite filter_cons. destruct (String.eqb_spec (rep_id r) id) as [<-|Hne]; csimpl.
  - rewrite decide_False by (intros []; done). rewrite <- IH by done.
    by rewrite take_replica_absent.
  - rewrite decide_True by done. rewrite <- IH by done. by destruct (take_replica id rs).
Qed.

Lemma update_replica_at id f pre r post :
  id ∉ ids pre → rep_id r = id →
  update_replica id f (pre ++ r :: post) = pre ++ f r :: post.
Proof.
  intros Hpre Hr. induction pre as [|x pre IH]; csimpl in *.
  - by rewrite Hr, String.eqb_refl.
  - apply not_elem_of_cons in Hpre as [Hx Hpre].
    destruct (String.eqb_spec (rep_id x) id); [congruence|]. by rewrite IH.
Qed.

Lemma take_replica_elem id rs r : r ∈ (take_replica id rs).2 → r ∈ rs.
Proof.
  induction rs as [|x rs IH]; csimpl; [done|].
  destruct (String.eqb (rep_id x) id); csimpl; [by right|].
  destruct (take_replica id rs) as [o rs2]. csimpl in *. rewrite !elem_of_cons. naive_solver.
Qed.

Lemma take_replica_ids_sub id rs : ids (take_replica id rs).2 `sublist_of` ids rs.
Proof.
  induction rs as [|x rs IH]; csimpl; [done|].
  destruct (String.eqb (rep_id x) id); csimpl; [by constructor|].
  destruct (take_replica id rs) as [o rs2]. csimpl in *. by constructor.
Qed.

Lemma register_replica_NoDup r rt :
  NoDup (ids (replicas rt)) → NoDup (ids (replicas (Router.register_replica r rt))).
Proof.
  intros Hnd. simpl. destruct (has_replica (rep_id r) (replicas rt)) eqn:Hr.
  - rewrite update_replica_ids; [done|by left].
  - rewrite fmap_app. apply NoDup_app. split; [done|]. split; [|apply NoDup_singleton].
    intros id Hid ->%list_elem_of_singleton. apply has_replica_spec in Hid. congruence.
Qed.

Lemma register_replica_elem r rt r' :
  r' ∈ replicas (Router.register_replica r rt) → r' = r ∨ r' ∈ replicas rt.
Proof.
  simpl. destruct (has_replica _ _).
  - intros [?|(? & ? & ? & ->)]%update_replica_elem; auto.
  - rewrite elem_of_app, list_elem_of_singleton. naive_solver.
Qed.

(** ** What a router promises *)

Definition eligible (m : ResolvedModel) (r : Replica) : Prop :=
  rep_model r = rm_model_name m ∧ rep_version r = rm_version m ∧ rep_healthy r = true ∧
  rep_active_sequences r < rep_max_concurrency r ∧
  f32_ge (rep_kv_pressure_pct r) (f32_of_Z 95) = false ∧
  (∀ a, rm_adapter m = Some a → a ∈ rep_loaded_adapters r).

Lemma can_serve_spec m r : Router.can_serve m r = true ↔ eligible m r.
Proof.
  unfold Router.can_serve, eligible, Replica.is_overloaded.
  rewrite !andb_true_iff, !String.eqb_eq, negb_true_iff, orb_false_iff, Z.leb_gt.
  assert (match rm_adapter m with
          | Some a => existsb (λ la, String.eqb la a) (rep_loaded_adapters r)
          | None => true
          end = true ↔ ∀ a, rm_adapter m = Some a → a ∈ rep_loaded_adapters r) as ->.
  { destruct (rm_adapter m) as [a|]; [|naive_solver].
    rewrite existsb_exists. setoid_rewrite String.eqb_eq. setoid_rewrite <- list_elem_of_In.
    naive_solver. }
  naive_solver.
Qed.

Lemma candidates_spec m rt r :
  r ∈ Router.candidates m rt ↔ r ∈ replicas rt ∧ eligible m r.
Proof.
  unfold Router.candidates.
  by rewrite list_elem_of_In, filter_In, <- list_elem_of_In, can_serve_spec.
Qed.

(** The choice among the candidates, by the strategy. *)
Definition best (rt : Router) (m : ResolvedModel) (r : Replica) : Prop :=
  match strategy rt with
  | LeastLoaded =>
      ∀ r', r' ∈ replicas rt → eligible m r' →
        rep_active_sequences r ≤ rep_active_sequences r'
  | LowestKvPressure =>
      (∀ r', r' ∈ replicas rt → is_nan (rep_kv_pressure_pct r') = false) →
      ∀ r', r' ∈ replicas rt → eligible m r' →
        f32_le (rep_kv_pressure_pct r) (rep_kv_pressure_pct r') = true
  | RoundRobin =>
      let cs := Router.candidates m rt in
      cs !! Z.to_nat (rr rt mod Z.of_nat (length cs)) = Some r
  end.

Lemma min_active_spec (cs : list Replica) r :
  min_by (λ a b, rep_active_sequences a ?= rep_active_sequences b) cs = Some r →
  ∀ r', r' ∈ cs → rep_active_sequences r ≤ rep_active_sequences r'.
Proof.
  intros (pre & post & -> & Hpre & Hpost)%(min_by_first _ (λ _, True)).
  - rewrite Forall_forall in Hpre, Hpost. setoid_rewrite Z.compare_gt_iff in Hpre.
    setoid_rewrite Z.compare_gt_iff in Hpost. intros r' [Hr|[->|Hr]%elem_of_cons]%elem_of_app.
    + apply Z.lt_le_incl, Hpre, Hr.
    + lia.
    + specialize (Hpost _ Hr). simpl in *. lia.
  - intros a b c _ _ _. rewrite !Z.compare_gt_iff. lia.
  - intros a b _ _. rewrite !Z.compare_gt_iff. lia.
  - by apply Forall_true.
Qed.

Lemma min_pressure_spec (cs : list Replica) r :
  (∀ r', r' ∈ cs → is_nan (rep_kv_pressure_pct r') = false) →
  min_by (λ a b, f32_cmp_or_eq (rep_kv_pressure_pct a) (rep_kv_pressure_pct b)) cs = Some r →
  ∀ r', r' ∈ cs → f32_le (rep_kv_pressure_pct r) (rep_kv_pressure_pct r') = true.
Proof.
  intros Hnan Hmin. pose proof (min_by_elem _ _ _ Hmin) as Hr.
  apply (min_by_first _ (λ r, is_nan (rep_kv_pressure_pct r) = false)) in Hmin
    as (pre & post & Heq & Hpre & Hpost).
  - rewrite Forall_forall in Hpre, Hpost. intros r' Hr'.
    rewrite Heq in Hr'. apply elem_of_app in Hr' as [Hin|[->|Hin]%elem_of_cons].
    + apply f32_le_total; [apply Hnan; set_solver|by apply Hnan|].
      apply not_true_is_false. rewrite <- f32_cmp_or_eq_le; [|apply Hnan; set_solver..].
      intros []. apply Hpre, Hin.
    + apply f32_le_refl. by apply Hnan.
    + apply f32_cmp_or_eq_le; [apply Hnan; set_solver..|]. apply Hpost, Hin.
  - intros a b c Ha Hb Hc. rewrite !f32_cmp_or_eq_le by done. by apply f32_le_trans.
  - intros a b Ha Hb Hab. apply f32_cmp_or_eq_le; [done..|]. apply f32_le_total; [done..|].
    apply not_true_is_false. rewrite <- f32_cmp_or_eq_le by done.
    by intros [].
  - by apply Forall_forall.
Qed.

(** The outcome of [route], by resolution and by the candidates. *)
Lemma route_spec cp q (rt : Router) :
  match ControlPlane.resolve (rq_model q) (rq_version q) (rq_routing_key q) cp with
  | None => Router.route cp q rt = Ret (None, rt)
  | Some m =>
      (Router.route cp q rt = Ret (None, rt) ∧ (∀ r, r ∈ replicas rt → ¬ eligible m r)) ∨
      (∃ r rt', Router.route cp q rt = Ret (Some (mk_decision (rep_id r) m), rt') ∧
         r ∈ replicas rt ∧ eligible m r ∧ best rt m r ∧
         replicas rt' = replicas rt ∧ strategy rt' = strategy rt)
  end.
Proof.
  unfold Router.route. destruct (ControlPlane.resolve _ _ _ cp) as [m|]; [|done].
  pose proof (candidates_spec m rt) as Hcs.
  unfold best. set (cs := Router.candidates m rt) in *.
  destruct (Nat.eqb_spec (length cs) 0) as [H0|Hn].
  { left. split; [done|]. intros r Hr He. apply nil_length_inv in H0.
    eapply (not_elem_of_nil r). rewrite <- H0. by apply Hcs. }
  right. destruct (strategy rt) eqn:Hst.
  - destruct (min_by _ cs) as [r|] eqn:Hmin; [|by apply min_by_None in Hmin; rewrite Hmin in Hn].
    exists r, rt. split; [done|]. pose proof (min_by_elem _ _ _ Hmin) as Hr.
    apply Hcs in Hr as [Hr He]. repeat split; try done; [apply He..|].
    intros r' Hr' He'. eapply min_active_spec; [done|]. by apply Hcs.
  - destruct (min_by _ cs) as [r|] eqn:Hmin; [|by apply min_by_None in Hmin; rewrite Hmin in Hn].
    exists r, rt. split; [done|]. pose proof (min_by_elem _ _ _ Hmin) as Hr.
    apply Hcs in Hr as [Hr He]. repeat split; try done; [apply He..|].
    intros Hnan r' Hr' He'. eapply min_pressure_spec; [|done|by apply Hcs].
    intros x [Hx _]%Hcs. by apply Hnan.
  - destruct (lookup_lt_is_Some_2 cs (Z.to_nat (rr rt mod Z.of_nat (length cs)))) as [r Hr].
    { pose proof (Z.mod_pos_bound (rr rt) (Z.of_nat (length cs))). lia. }
    rewrite Hr. eexists r, _. split; [done|]. apply list_elem_of_lookup_2 in Hr as Hin.
    apply Hcs in Hin as [Hin He]. repeat split; try done; apply He.
Qed.

(** Routing never panics; it answers nothing, and leaves the router as it
    was, when the request does not resolve or no replica is eligible for the
    target; otherwise it answers with the id of a registered, eligible replica
    that is the best one under the strategy (the fewest active sequences, the
    lowest KV pressure when no pressure is a NaN, or the one at the turn of
    the counter), and changes no replica. *)
Theorem route_optimal cp q (rt : Router) :
  match ControlPlane.resolve (rq_model q) (rq_version q) (rq_routing_key q) cp with
  | None => Router.route cp q rt = Ret (None, rt)
  | Some m =>
      (Router.route cp q rt = Ret (None, rt) ∧ (∀ r, r ∈ replicas rt → ¬ eligible m r)) ∨
      (∃ r rt', Router.route cp q rt = Ret (Some (mk_decision (rep_id r) m), rt') ∧
         r ∈ replicas rt ∧ eligible m r ∧ best rt m r ∧
         replicas rt' = replicas rt ∧ strategy rt' = strategy rt)
  end.
Proof. apply route_spec. Qed.

(** [n] requests in a row, with no change to the replicas between them. *)
Fixpoint route_many (n : nat) (cp : ControlPlane) (q : RouteRequest) (rt : Router)
    : exec (list (option string) * Router) :=
  match n with
  | O => Ret ([], rt)
  | S n' =>
      '(d, rt1) ← Router.route cp q rt;
      '(ds, rt2) ← route_many n' cp q rt1;
      Ret (fmap (M:=option) rd_replica d :: ds, rt2)
  end.

(** The turns of the counter from [c]. *)
Lemma route_many_round_robin n cp q rt m :
  ControlPlane.resolve (rq_model q) (rq_version q) (rq_routing_key q) cp = Some m →
  strategy rt = RoundRobin → 0 < Z.of_nat (length (Router.candidates m rt)) →
  0 ≤ rr rt → rr rt + Z.of_nat n ≤ u64_max →
  route_many n cp q rt
  = Ret ((λ i : nat, rep_id <$>
            Router.candidates m rt
              !! Z.to_nat ((rr rt + Z.of_nat i) mod Z.of_nat (length (Router.candidates m rt))))
           <$> seq 0 n,
         mk_router RoundRobin (replicas rt) (rr rt + Z.of_nat n)).
Proof.
  intros Hm. revert rt. induction n as [|n IH]; intros rt Hst Hlen H0 Hmax.
  { simpl. rewrite Z.add_0_r, <- Hst. by destruct rt. }
  cbn [route_many]. unfold Router.route at 1. rewrite Hm, Hst.
  destruct (Nat.eqb_spec (length (Router.candidates m rt)) 0) as [He|_]; [lia|].
  destruct (lookup_lt_is_Some_2 (Router.candidates m rt)
    (Z.to_nat (rr rt mod Z.of_nat (length (Router.candidates m rt))))) as [r Hr].
  { pose proof (Z.mod_pos_bound (rr rt) (Z.of_nat (length (Router.candidates m rt)))). lia. }
  rewrite Hr. simpl. rewrite wadd64_small by lia.
  rewrite IH; simpl; [|done|done|lia|lia].
  unfold Router.candidates; simpl. fold (Router.candidates m rt).
  rewrite Z.add_0_r, Hr. simpl. f_equal. f_equal.
  - f_equal. rewrite <- fmap_S_seq. rewrite <- list_fmap_compose. apply list_fmap_ext.
    intros i ? _. simpl. f_equal. f_equal. f_equal. f_equal. lia.
  - f_equal. lia.
Qed.

(** Under round robin, as many requests in a row as there are eligible
    replicas are spread over all of them, each taking exactly one: the picks
    are the candidates rotated to the turn of the counter, as long as the
    counter does not wrap. *)
Theorem round_robin_fair cp q m (rt : Router) :
  let cs := Router.candidates m rt in
  ControlPlane.resolve (rq_model q) (rq_version q) (rq_routing_key q) cp = Some m →
  strategy rt = RoundRobin → cs ≠ [] → 0 ≤ rr rt → rr rt + Z.of_nat (length cs) ≤ u64_max →
  ∃ picks rt', route_many (length cs) cp q rt = Ret (picks, rt') ∧
    picks = Some ∘ rep_id <$> rotate (Z.to_nat (rr rt mod Z.of_nat (length cs))) cs ∧
    picks ≡ₚ Some ∘ rep_id <$> cs ∧ rr rt' = rr rt + Z.of_nat (length cs).
Proof.
  intros cs Hm Hst Hne H0 Hmax.
  assert (0 < Z.of_nat (length cs)) as Hlen by (destruct cs; [done|simpl; lia]).
  eexists _, _. split; [by apply route_many_round_robin|]. fold cs. simpl.
  pose proof (Z.mod_pos_bound (rr rt) (Z.of_nat (length cs)) Hlen) as Hb.
  set (k := Z.to_nat (rr rt mod Z.of_nat (length cs))) in *.
  assert ((λ i : nat, rep_id <$> cs !! Z.to_nat ((rr rt + Z.of_nat i) mod Z.of_nat (length cs)))
            <$> seq 0 (length cs) = Some ∘ rep_id <$> rotate k cs) as Hrot.
  { apply list_eq. intros i. rewrite !list_lookup_fmap.
    destruct (decide (i < length cs)%nat) as [Hi|Hi].
    - rewrite lookup_seq_lt by done. rewrite lookup_rotate_r by done. simpl.
      unfold rotate_nat_add.
      replace (Z.to_nat ((rr rt + Z.of_nat i) mod Z.of_nat (length cs)))
        with (Z.to_nat ((Z.of_nat k + Z.of_nat i) mod Z.of_nat (length cs))).
      + destruct (lookup_lt_is_Some_2 cs
          (Z.to_nat ((Z.of_nat k + Z.of_nat i) mod Z.of_nat (length cs)))) as [r Hr].
        { pose proof (Z.mod_pos_bound (Z.of_nat k + Z.of_nat i) _ Hlen). lia. }
        by rewrite Hr.
      + unfold k. rewrite Z2Nat.id by lia. by rewrite Zplus_mod_idemp_l.
    - rewrite lookup_ge_None_2 by (rewrite length_seq; lia).
      by rewrite lookup_ge_None_2 by (rewrite length_rotate; lia). }
  split; [done|]. split; [|done]. rewrite Hrot. by rewrite rotate_Permutation || (
    apply fmap_Permutation; unfold rotate; rewrite (Permutation_app_comm (drop _ _));
    by rewrite take_drop).
Qed.

(** Two replicas able to serve a model, a third without the adapter asked for,
    and one whose cache is full. *)
Definition ex_replica (id : string) (active kv : Z) (adapters : list string) : Replica :=
  mk_replica id "llama-7b" "v1" (Cuda 0) 4 active (f32_of_Z kv) true adapters.

Definition ex_cp : ControlPlane :=
  ControlPlane.register
    (ModelRecord.route_adapter "domain:math" "math"
       (mk_record "llama-7b" [ModelVersion.new "v1" (Local "/models/v1")] "v1" ∅))
    ControlPlane.new.

Definition ex_router (s : RoutingStrategy) : Router :=
  foldl (λ rt r, Router.register_replica r rt) (Router.new s)
    [ex_replica "a" 2 20 ["math"%string]; ex_replica "b" 1 80 ["math"%string];
     ex_replica "c" 0 10 []; ex_replica "d" 0 99 ["math"%string]].

Definition ex_request : RouteRequest := mk_request "llama-7b" None (Some "domain:math"%string).

Example ex_route_strategies :
  (λ s, match Router.route ex_cp ex_request (ex_router s) with
        | Ret (d, _) => fmap (M:=option) rd_replica d
        | Panic => None
        end) <$> [LeastLoaded; LowestKvPressure; RoundRobin]
  = [Some "b"%string; Some "a"%string; Some "a"%string].
Proof. vm_compute. reflexivity. Qed.

Lemma round_robin_fair_witness :
  ∃ m picks rt', route_many 2 ex_cp ex_request (ex_router RoundRobin) = Ret (picks, rt') ∧
    picks ≡ₚ Some ∘ rep_id <$> Router.candidates m (ex_router RoundRobin) ∧ rr rt' = 2.
Proof.
  destruct (round_robin_fair ex_cp ex_request
    (mk_resolved "llama-7b" "v1" (Local "/models/v1") RuntimeProfile_default (Some "math"%string))
    (ex_router RoundRobin)) as (picks & rt' & Hm & _ & Hp & Hrr);
    [vm_compute; reflexivity|reflexivity|vm_compute; discriminate|vm_compute; discriminate
    |vm_compute; discriminate|].
  exists (mk_resolved "llama-7b" "v1" (Local "/models/v1") RuntimeProfile_default
           (Some "math"%string)), picks, rt'.
  split; [exact Hm|]. split; [exact Hp|]. rewrite Hrr. reflexivity.
Defined.
