(* ===== verification/Autoscaler.v ===== *)
(** * Autoscaler: the number of replicas a fleet should have

    [crates/justapi-inference/src/autoscaler.rs]: one decision per tick from
    the serving metrics, with a cooldown after every change. *)

From S2P Require Import Prelude F32.

#[local] Open Scope Z_scope.

Record LlmMetrics := mk_metrics {
  tokens_per_sec : f32; ttft_ms : f32; queue_depth : Z; kv_pressure_pct : f32 }.

Record AutoscalerConfig := mk_as_config {
  min_replicas : Z;
  max_replicas : Z;
  target_ttft_ms : f32;
  target_kv_pressure_pct : f32;
  queue_depth_scale_up : Z;
  queue_depth_scale_down : Z;
  cooldown_ticks : Z }.

Definition AutoscalerConfig_default : AutoscalerConfig :=
  mk_as_config 1 8 (f32_of_Z 500) (f32_of_Z 80) 16 2 10.

Inductive ScaleDecision := ScaleUp (desired : Z) | ScaleDown (desired : Z) | Hold (desired : Z).

Record Autoscaler := mk_autoscaler {
  as_config : AutoscalerConfig; as_current : Z; as_cooldown : Z }.

Definition saturated (c : AutoscalerConfig) (m : LlmMetrics) : bool :=
  f32_ge (kv_pressure_pct m) (target_kv_pressure_pct c)
  || f32_ge (ttft_ms m) (target_ttft_ms c)
  || (queue_depth_scale_up c <=? queue_depth m).

Definition underused (c : AutoscalerConfig) (m : LlmMetrics) : bool :=
  f32_le (kv_pressure_pct m) (f32_mul (target_kv_pressure_pct c) f32_half)
  && f32_le (ttft_ms m) (f32_mul (target_ttft_ms c) f32_half)
  && (queue_depth m <=? queue_depth_scale_down c).

Module Autoscaler.

Definition new (c : AutoscalerConfig) : Autoscaler :=
  mk_autoscaler c (Z.min (Z.max (min_replicas c) 1) (Z.max (max_replicas c) 1)) 0.

Definition current : Autoscaler → Z := as_current.
Definition in_cooldown (a : Autoscaler) : bool := 0 <? as_cooldown a.

Definition decide (m : LlmMetrics) (a : Autoscaler) : ScaleDecision * Autoscaler :=
  let c := as_config a in
  if 0 <? as_cooldown a
  then (Hold (as_current a), mk_autoscaler c (as_current a) (as_cooldown a - 1)) else
  let desired :=
    if saturated c m then Z.min (wadd64 (as_current a) 1) (max_replicas c)
    else if underused c m then Z.max (ssub (as_current a) 1) (min_replicas c)
    else as_current a in
  if desired =? as_current a then (Hold (as_current a), a)
  else if as_current a <? desired
  then (ScaleUp desired, mk_autoscaler c desired (cooldown_ticks c))
  else (ScaleDown desired, mk_autoscaler c desired (cooldown_ticks c)).

End Autoscaler.

(** The decisions of successive ticks. *)
Fixpoint ticks (ms : list LlmMetrics) (a : Autoscaler) : list ScaleDecision * Autoscaler :=
  match ms with
  | [] => ([], a)
  | m :: ms' =>
      let '(d, a1) := Autoscaler.decide m a in
      let '(ds, a2) := ticks ms' a1 in (d :: ds, a2)
  end.

Definition is_change (d : ScaleDecision) : bool :=
  match d with Hold _ => false | _ => true end.

Definition well_configured (c : AutoscalerConfig) : Prop :=
  1 ≤ min_replicas c ≤ max_replicas c ∧ max_replicas c < u64_max ∧ 0 ≤ cooldown_ticks c.

(** The invariant of the autoscaler. *)
Definition autoscaler_ok (c : AutoscalerConfig) (a : Autoscaler) : Prop :=
  as_config a = c ∧ min_replicas c ≤ as_current a ≤ max_replicas c ∧ 0 ≤ as_cooldown a.

Lemma autoscaler_new_ok c : well_configured c → autoscaler_ok c (Autoscaler.new c).
Proof.
  unfold well_configured, autoscaler_ok, Autoscaler.new. simpl. intros ?.
  split_and!; [done|lia..].
Qed.

(** What one tick does: nothing but count down during a cooldown; otherwise
    one step up when saturated, one step down when underused and not
    saturated, within the limits. *)
Lemma decide_spec c m a :
  well_configured c → autoscaler_ok c a →
  let '(d, a') := Autoscaler.decide m a in
  autoscaler_ok c a' ∧
  match d with
  | ScaleUp n =>
      as_cooldown a = 0 ∧ saturated c m = true ∧ n = as_current a + 1 ∧
      as_current a' = n ∧ as_cooldown a' = cooldown_ticks c
  | ScaleDown n =>
      as_cooldown a = 0 ∧ saturated c m = false ∧ underused c m = true ∧
      n = as_current a - 1 ∧ as_current a' = n ∧ as_cooldown a' = cooldown_ticks c
  | Hold n =>
      n = as_current a ∧ as_current a' = as_current a ∧
      as_cooldown a' = Z.max 0 (as_cooldown a - 1) ∧
      (as_cooldown a = 0 →
         (saturated c m = true → as_current a = max_replicas c) ∧
         (saturated c m = false → underused c m = true → as_current a = min_replicas c))
  end.
Proof.
  intros (Hmin & Hmax & Hct) (<- & Hcur & Hcd). unfold Autoscaler.decide, autoscaler_ok.
  destruct (Z.ltb_spec 0 (as_cooldown a)) as [Hpos|Hzero]; simpl;
    [split_and!; intros; try done; lia|].
  assert (as_cooldown a = 0) as H0 by lia. rewrite wadd64_small by lia. unfold ssub.
  destruct (saturated (as_config a) m) eqn:Hs; [|destruct (underused (as_config a) m) eqn:Hu];
    (match goal with
     | |- context [?d =? as_current a] => destruct (Z.eqb_spec d (as_current a)) as [He|He]
     end; [split_and!; intros; try split; intros; try done; lia|]);
    (match goal with
     | |- context [as_current a <? ?d] => destruct (Z.ltb_spec (as_current a) d)
     end; simpl; split_and!; try done; lia).
Qed.

Lemma ticks_ok c ms a :
  well_configured c → autoscaler_ok c a → autoscaler_ok c (ticks ms a).2.
Proof.
  intros Hc. revert a. induction ms as [|m ms IH]; intros a Ha; simpl; [done|].
  pose proof (decide_spec c m a Hc Ha) as Hd. destruct (Autoscaler.decide m a) as [d a1].
  destruct Hd as [Ha1 _]. specialize (IH a1 Ha1). by destruct (ticks ms a1).
Qed.

(** The first change after a state in cooldown comes after the cooldown. *)
Lemma ticks_cooldown c ms a mid d post :
  well_configured c → autoscaler_ok c a →
  (ticks ms a).1 = mid ++ d :: post → is_change d = true → as_cooldown a ≤ Z.of_nat (length mid).
Proof.
  intros Hc. revert a mid. induction ms as [|m ms IH]; intros a mid Ha; simpl;
    [by destruct mid|].
  pose proof (decide_spec c m a Hc Ha) as Hd. destruct (Autoscaler.decide m a) as [d1 a1].
  destruct Hd as [Ha1 Hd]. specialize (IH a1). destruct (ticks ms a1) as [ds a2]. simpl in *.
  destruct mid as [|d0 mid]; intros [= -> Hds] Hch.
  - destruct d; simpl in *; [lia..|done].
  - specialize (IH mid Ha1 Hds Hch). simpl. destruct d0; lia.
Qed.

(** Two changes are separated by the cooldown. *)
Lemma ticks_separated c ms a pre d mid d' post :
  well_configured c → autoscaler_ok c a →
  (ticks ms a).1 = pre ++ d :: mid ++ d' :: post →
  is_change d = true → is_change d' = true → cooldown_ticks c ≤ Z.of_nat (length mid).
Proof.
  intros Hc. revert a pre. induction ms as [|m ms IH]; intros a pre Ha; simpl;
    [by destruct pre|].
  pose proof (decide_spec c m a Hc Ha) as Hd. pose proof (ticks_cooldown c ms) as Hcd.
  destruct (Autoscaler.decide m a) as [d1 a1]. destruct Hd as [Ha1 Hd].
  specialize (IH a1). specialize (Hcd a1). destruct (ticks ms a1) as [ds a2]. simpl in *.
  destruct pre as [|d0 pre]; intros [= -> Hds] Hch Hch'; [|by eapply IH].
  specialize (Hcd _ _ _ Hc Ha1 Hds Hch'). destruct d; simpl in *; [lia..|done].
Qed.

(** Over any run of ticks the replica count stays within the configured
    limits, two changes are at least the cooldown apart, and what a further
    tick decides is one replica more only when the metrics are saturated, one
    fewer only when they are underused and not saturated, and no change only
    in cooldown, at the limit, or when they are neither. *)
Theorem autoscaler_bounds c ms ds a m :
  well_configured c → ticks ms (Autoscaler.new c) = (ds, a) →
  min_replicas c ≤ Autoscaler.current a ≤ max_replicas c ∧
  (∀ pre d mid d' post, ds = pre ++ d :: mid ++ d' :: post →
     is_change d = true → is_change d' = true → cooldown_ticks c ≤ Z.of_nat (length mid)) ∧
  match (Autoscaler.decide m a).1 with
  | ScaleUp n => saturated c m = true ∧ n = Autoscaler.current a + 1
  | ScaleDown n =>
      saturated c m = false ∧ underused c m = true ∧ n = Autoscaler.current a - 1
  | Hold n =>
      n = Autoscaler.current a ∧
      (Autoscaler.in_cooldown a = true ∨
       (saturated c m = true ∧ n = max_replicas c) ∨
       (saturated c m = false ∧ underused c m = true ∧ n = min_replicas c) ∨
       (saturated c m = false ∧ underused c m = false))
  end.
Proof.
  intros Hc Hrun. pose proof (autoscaler_new_ok c Hc) as Hnew.
  pose proof (ticks_ok c ms _ Hc Hnew) as Ha. rewrite Hrun in Ha. simpl in Ha.
  split; [apply Ha|]. split.
  - intros pre d mid d' post ->. intros Hd Hd'.
    eapply (ticks_separated c ms (Autoscaler.new c) pre d mid d' post); try done. by rewrite Hrun.
  - pose proof (decide_spec c m a Hc Ha) as Hd. destruct (Autoscaler.decide m a) as [d a'].
    simpl. unfold Autoscaler.current, Autoscaler.in_cooldown. destruct Ha as (_ & _ & Hcd).
    destruct Hd as [_ Hd]. destruct d as [n|n|n]; [naive_solver..|].
    destruct Hd as (-> & _ & _ & Hz). split; [done|].
    destruct (Z.ltb_spec 0 (as_cooldown a)); [by left|]. right.
    destruct Hz as [Hs Hu]; [lia|]. destruct (saturated c m), (underused c m); naive_solver.
Qed.

Definition ex_metrics (kv ttft queue : Z) : LlmMetrics :=
  mk_metrics (f32_of_Z 50) (f32_of_Z ttft) queue (f32_of_Z kv).

Definition ex_config (mn mx ct : Z) : AutoscalerConfig :=
  mk_as_config mn mx (f32_of_Z 500) (f32_of_Z 80) 16 2 ct.

Example ex_ticks :
  (ticks [ex_metrics 95 100 0; ex_metrics 5 50 0; ex_metrics 5 50 0; ex_metrics 5 50 0]
     (Autoscaler.new (ex_config 1 4 2))).1 = [ScaleUp 2; Hold 2; Hold 2; ScaleDown 1].
Proof. vm_compute. reflexivity. Qed.

(** Limits the wrong way round invert the decisions: an idle fleet grows and
    a saturated one shrinks. *)
Example ex_inverted_limits :
  (ticks [ex_metrics 5 50 0; ex_metrics 99 2000 100] (Autoscaler.new (ex_config 5 3 0))).1
  = [ScaleUp 5; ScaleDown 3].
Proof. vm_compute. reflexivity. Qed.

Lemma autoscaler_bounds_witness :
  well_configured (ex_config 1 4 2) ∧
  (let a := (ticks (replicate 10 (ex_metrics 99 2000 100)) (Autoscaler.new (ex_config 1 4 2))).2 in
   1 ≤ Autoscaler.current a ≤ 4).
Proof.
  assert (well_configured (ex_config 1 4 2)) as Hc
    by (unfold well_configured, u64_max; simpl; lia).
  split; [exact Hc|]. destruct (ticks (replicate 10 (ex_metrics 99 2000 100))
    (Autoscaler.new (ex_config 1 4 2))) as [ds a] eqn:Hrun.
  exact (proj1 (autoscaler_bounds _ _ ds a (ex_metrics 40 200 1) Hc Hrun)).
Defined.
