(* ===== verification/Supervisor.v ===== *)
(** * Supervisor: driving a set of replicas to the autoscaler's count

    [crates/justapi-inference/src/supervisor.rs].  The supervisor decides; an
    executor outside the program starts and stops the replicas it names and
    reports back.  An event is one of the four calls that change its state. *)

From S2P Require Import Prelude F32 Text ControlPlane LlmRouter Autoscaler.

#[local] Open Scope Z_scope.

Record LiveReplica := mk_live {
  lr_id : string; lr_healthy : bool; lr_active_sequences : Z; lr_kv_pressure_pct : f32 }.

Inductive SupervisorAction :=
| StartReplica (id model version : string)
| StopReplica (id : string).

Record SupervisorConfig := mk_sup_config {
  sc_model : string;
  sc_version : string;
  sc_device : EngineDevice;
  sc_min_replicas : Z;
  sc_max_replicas : Z;
  sc_max_concurrency_per_replica : Z;
  sc_target_ttft_ms : f32;
  sc_target_kv_pressure_pct : f32;
  sc_queue_depth_scale_up : Z;
  sc_queue_depth_scale_down : Z;
  sc_cooldown_ticks : Z }.

Record Supervisor := mk_supervisor {
  sup_config : SupervisorConfig;
  sup_autoscaler : Autoscaler;
  sup_router : Router;
  sup_live : list LiveReplica;
  sup_next_index : Z }.

Definition autoscaler_config (c : SupervisorConfig) : AutoscalerConfig :=
  mk_as_config (sc_min_replicas c) (sc_max_replicas c) (sc_target_ttft_ms c)
    (sc_target_kv_pressure_pct c) (sc_queue_depth_scale_up c) (sc_queue_depth_scale_down c)
    (sc_cooldown_ticks c).

(** [format!("{}-{}-{}", model, version, next_index)] *)
Definition replica_id (c : SupervisorConfig) (index : Z) : string :=
  String.append (sc_model c) (String.append "-" (String.append (sc_version c)
    (String.append "-" (decimal index)))).

(** The replica [sync_router] registers for a live one. *)
Definition advertised (c : SupervisorConfig) (l : LiveReplica) : Replica :=
  mk_replica (lr_id l) (sc_model c) (sc_version c) (sc_device c)
    (sc_max_concurrency_per_replica c) (lr_active_sequences l) (lr_kv_pressure_pct l)
    (lr_healthy l) [].

Abbreviation live_ids ls := (lr_id <$> ls).

(** [self.live.iter_mut().find(|r| r.id == id)] and an update. *)
Fixpoint update_live (id : string) (f : LiveReplica → LiveReplica) (ls : list LiveReplica)
    : list LiveReplica :=
  match ls with
  | [] => []
  | l :: ls' => if String.eqb (lr_id l) id then f l :: ls' else l :: update_live id f ls'
  end.

(** [position(|r| !r.healthy)] *)
Fixpoint first_unhealthy (ls : list LiveReplica) : option nat :=
  match ls with
  | [] => None
  | l :: ls' => if negb (lr_healthy l) then Some 0%nat else S <$> first_unhealthy ls'
  end.

Module Supervisor.

Definition new (c : SupervisorConfig) : Supervisor :=
  mk_supervisor c (Autoscaler.new (autoscaler_config c)) (Router.new LeastLoaded) [] 0.

Definition desired (s : Supervisor) : Z := Autoscaler.current (sup_autoscaler s).
Definition live_count (s : Supervisor) : nat := length (sup_live s).
Definition healthy_count (s : Supervisor) : nat := count lr_healthy (sup_live s).
Definition router : Supervisor → Router := sup_router.

Definition with_live (ls : list LiveReplica) (s : Supervisor) : Supervisor :=
  mk_supervisor (sup_config s) (sup_autoscaler s) (sup_router s) ls (sup_next_index s).
Definition with_router (rt : Router) (s : Supervisor) : Supervisor :=
  mk_supervisor (sup_config s) (sup_autoscaler s) rt (sup_live s) (sup_next_index s).

(** [sync_router]: drop the replicas that are gone, then register the live
    ones. *)
Definition drop_gone (live : list string) (rt : Router) : Router :=
  foldl (λ rt' r, if decide (rep_id r ∈ live) then rt'
                  else (Router.remove_replica (rep_id r) rt').2) rt (replicas rt).

Definition sync_router (s : Supervisor) : Supervisor :=
  with_router
    (foldl (λ rt l, Router.register_replica (advertised (sup_config s) l) rt)
       (drop_gone (live_ids (sup_live s)) (sup_router s)) (sup_live s)) s.

(** The first loop of [reconcile]; [fuel] bounds its iterations. *)
Fixpoint scale_up (fuel : nat) (desired : Z) (s : Supervisor)
    : exec (list SupervisorAction * Supervisor) :=
  let n := Z.of_nat (length (sup_live s)) in
  if (n <? desired) && (n <? sc_max_replicas (sup_config s)) then
    match fuel with
    | O => Panic
    | S fuel' =>
        let c := sup_config s in
        let id := replica_id c (sup_next_index s) in
        '(actions, s') ← scale_up fuel' desired
          (mk_supervisor c (sup_autoscaler s) (sup_router s)
             (sup_live s ++ [mk_live id false 0 f32_zero]) (wadd64 (sup_next_index s) 1));
        Ret (StartReplica id (sc_model c) (sc_version c) :: actions, s')
    end
  else Ret ([], s).

(** The second loop; [live.remove(idx)] panics out of range. *)
Fixpoint scale_down (fuel : nat) (desired : Z) (ls : list LiveReplica)
    : exec (list SupervisorAction * list LiveReplica) :=
  if desired <? Z.of_nat (length ls) then
    match fuel with
    | O => Panic
    | S fuel' =>
        let idx := default (length ls - 1)%nat (first_unhealthy ls) in
        match ls !! idx with
        | None => Panic
        | Some removed =>
            '(actions, ls') ← scale_down fuel' desired (delete idx ls);
            Ret (StopReplica (lr_id removed) :: actions, ls')
        end
    end
  else Ret ([], ls).

Definition reconcile (m : LlmMetrics) (s : Supervisor)
    : exec (list SupervisorAction * Supervisor) :=
  let a := (Autoscaler.decide m (sup_autoscaler s)).2 in
  let desired := Autoscaler.current a in
  let s1 := mk_supervisor (sup_config s) a (sup_router s) (sup_live s) (sup_next_index s) in
  '(up, s2) ← scale_up (Z.to_nat desired) desired s1;
  '(down, ls) ← scale_down (length (sup_live s2)) desired (sup_live s2);
  Ret (up ++ down, sync_router (with_live ls s2)).

Definition on_replica_started (id : string) (s : Supervisor) : Supervisor :=
  sync_router (with_live
    (update_live id (λ l, mk_live (lr_id l) true (lr_active_sequences l) (lr_kv_pressure_pct l))
       (sup_live s)) s).

Definition on_replica_report (id : string) (active : Z) (kv : f32) (s : Supervisor)
    : Supervisor :=
  sync_router (with_live
    (update_live id (λ l, mk_live (lr_id l) (lr_healthy l) active kv) (sup_live s)) s).

Definition on_replica_stopped (id : string) (s : Supervisor) : Supervisor :=
  with_router (Router.remove_replica id (sup_router s)).2
    (with_live (filter (λ l, lr_id l ≠ id) (sup_live s)) s).

End Supervisor.

Inductive SupervisorEvent :=
| Reconcile (m : LlmMetrics)
| Started (id : string)
| Report (id : string) (active : Z) (kv : f32)
| Stopped (id : string).

Definition sup_step (s : Supervisor) (e : SupervisorEvent) : exec Supervisor :=
  match e with
  | Reconcile m => '(_, s') ← Supervisor.reconcile m s; Ret s'
  | Started id => Ret (Supervisor.on_replica_started id s)
  | Report id active kv => Ret (Supervisor.on_replica_report id active kv s)
  | Stopped id => Ret (Supervisor.on_replica_stopped id s)
  end.

(** ** The router mirrors the live replicas *)

Lemma drop_gone_spec live rt :
  NoDup (ids (replicas rt)) →
  Supervisor.drop_gone live rt
  = mk_router (strategy rt) (filter (λ r, rep_id r ∈ live) (replicas rt)) (rr rt).
Proof.
  intros Hnd. unfold Supervisor.drop_gone.
  assert (∀ l rt', NoDup (ids (replicas rt')) →
    foldl (λ rt' r, if decide (rep_id r ∈ live) then rt'
                    else (Router.remove_replica (rep_id r) rt').2) rt' l
    = mk_router (strategy rt')
        (filter (λ r, rep_id r ∈ live ∨ rep_id r ∉ ids l) (replicas rt')) (rr rt')) as Hfold.
  { induction l as [|x l IH]; intros rt' Hnd'; csimpl.
    - rewrite filter_all; [by destruct rt'|]. right. apply not_elem_of_nil.
    - destruct (decide (rep_id x ∈ live)) as [Hx|Hx].
      + rewrite IH by done. f_equal. apply list_filter_iff. intros r.
        rewrite not_elem_of_cons. split; [|naive_solver].
        intros [?|?]; [by left|]. destruct (decide (rep_id r = rep_id x)) as [->|]; naive_solver.
      + unfold Router.remove_replica.
        pose proof (take_replica_filter (rep_id x) _ Hnd') as Htake.
        pose proof (take_replica_ids_sub (rep_id x) (replicas rt')) as Hsub.
        destruct (take_replica (rep_id x) (replicas rt')) as [o rs]. simpl in *. subst rs.
        rewrite IH; simpl; [|by eapply sublist_NoDup]. f_equal.
        rewrite list_filter_filter. apply list_filter_iff. intros r.
        rewrite not_elem_of_cons. split; [naive_solver|].
        intros [?|[??]]; [|by split; [right|]]. split; [by left|]. intros Heq. by rewrite Heq in *. }
  rewrite Hfold by done. f_equal. apply filter_ext_in. intros r Hr.
  split; [|by left]. intros [?|[]]; [done|]. by apply list_elem_of_fmap_2.
Qed.

(** Registering the live replicas over a prefix of them. *)
Lemma register_live c todo pre rest rt :
  replicas rt = (advertised c <$> pre) ++ rest →
  NoDup (live_ids (pre ++ todo)) → ids rest `prefix_of` live_ids todo →
  let rt' := foldl (λ rt l, Router.register_replica (advertised c l) rt) rt todo in
  replicas rt' = advertised c <$> (pre ++ todo) ∧ strategy rt' = strategy rt ∧ rr rt' = rr rt.
Proof.
  revert pre rest rt. induction todo as [|l todo IH]; intros pre rest rt Hrt Hnd Hpre.
  { apply prefix_nil_inv, fmap_nil_inv in Hpre as ->. rewrite app_nil_r in *. done. }
  cbn [foldl].
  assert (lr_id l ∉ ids (advertised c <$> pre)) as Hl.
  { rewrite <- list_fmap_compose. change (rep_id ∘ advertised c) with lr_id.
    rewrite fmap_app, NoDup_app in Hnd. destruct Hnd as (_ & Hnd & _).
    intros Hin. apply (Hnd _ Hin). csimpl. left. }
  assert (∃ rest', replicas (Router.register_replica (advertised c l) rt)
    = (advertised c <$> (pre ++ [l])) ++ rest' ∧ ids rest' `prefix_of` live_ids todo)
    as (rest' & Hrt' & Hpre').
  { simpl. rewrite Hrt, fmap_app, <- app_assoc. destruct rest as [|r rest]; csimpl in *.
    - exists []. split; [|apply prefix_nil]. rewrite !app_nil_r.
      destruct (has_replica _ _) eqn:Hh; [by apply has_replica_spec in Hh|done].
    - exists rest. pose proof (prefix_cons_inv_1 _ _ _ _ Hpre) as Hr.
      split; [|by eapply prefix_cons_inv_2]. destruct (has_replica _ _) eqn:Hh.
      + rewrite <- app_assoc. by apply update_replica_at.
      + exfalso. apply not_true_iff_false in Hh. apply Hh, has_replica_spec.
        rewrite fmap_app, elem_of_app. right. csimpl. rewrite Hr. left. }
  destruct (IH (pre ++ [l]) rest' (Router.register_replica (advertised c l) rt) Hrt')
    as (-> & -> & ->); rewrite <- ?app_assoc; done.
Qed.

Lemma sync_mirror s :
  NoDup (ids (replicas (sup_router s))) → NoDup (live_ids (sup_live s)) →
  filter (.∈ live_ids (sup_live s)) (ids (replicas (sup_router s)))
    `prefix_of` live_ids (sup_live s) →
  ∃ rt, Supervisor.sync_router s = Supervisor.with_router rt s ∧
    replicas rt = advertised (sup_config s) <$> sup_live s ∧
    strategy rt = strategy (sup_router s).
Proof.
  intros Hrs Hls Hpre. eexists. split; [done|]. rewrite drop_gone_spec by done.
  edestruct (register_live (sup_config s) (sup_live s) []) as (Hr & Hs & _);
    [simpl; done|done| |by split].
  by rewrite filter_fmap in Hpre.
Qed.

(** ** The loops of [reconcile] *)

(** [k] new replicas, the first with the given index. *)
Fixpoint fresh (c : SupervisorConfig) (index : Z) (k : nat) : list LiveReplica :=
  match k with
  | O => []
  | S k' => mk_live (replica_id c index) false 0 f32_zero :: fresh c (index + 1) k'
  end.

Definition start_of (c : SupervisorConfig) (l : LiveReplica) : SupervisorAction :=
  StartReplica (lr_id l) (sc_model c) (sc_version c).
Definition stop_of (l : LiveReplica) : SupervisorAction := StopReplica (lr_id l).

Lemma fresh_length c i k : length (fresh c i k) = k.
Proof. revert i. induction k; intros i; simpl; auto. Qed.

Lemma fresh_ids c i k id :
  id ∈ live_ids (fresh c i k) → ∃ j, i ≤ j < i + Z.of_nat k ∧ id = replica_id c j.
Proof.
  revert i. induction k as [|k IH]; intros i; csimpl; [by intros ?%elem_of_nil|].
  intros [->|(j & ? & ->)%IH]%elem_of_cons; [by exists i; split; [lia|]|].
  exists j. split; [lia|done].
Qed.

(** A replica that was asked for and has not been heard of. *)
Definition unheard (l : LiveReplica) : Prop := l = mk_live (lr_id l) false 0 f32_zero.

Lemma fresh_unheard c i k : Forall unheard (fresh c i k).
Proof. revert i. induction k; intros i; simpl; by constructor. Qed.

Lemma unheard_unhealthy ls : Forall unheard ls → Forall (λ l, lr_healthy l = false) ls.
Proof. intros Hl. eapply Forall_impl; [exact Hl|]. by intros l ->. Qed.

Lemma replica_id_inj c i j : is_u64 i → is_u64 j → replica_id c i = replica_id c j → i = j.
Proof.
  intros Hi Hj. unfold replica_id.
  intros H%str_append_inv%str_append_inv%str_append_inv%str_append_inv.
  by apply decimal_inj.
Qed.

Lemma fresh_NoDup c i k :
  0 ≤ i → i + Z.of_nat k ≤ u64_max → NoDup (live_ids (fresh c i k)).
Proof.
  revert i. induction k as [|k IH]; intros i Hi Hk; csimpl; [constructor|].
  constructor; [|apply IH; lia]. intros (j & Hj & Heq)%fresh_ids.
  apply replica_id_inj in Heq; unfold is_u64; lia.
Qed.

Lemma scale_up_spec fuel desired s :
  let c := sup_config s in
  let k := Z.to_nat (Z.min desired (sc_max_replicas c) - Z.of_nat (length (sup_live s))) in
  (k ≤ fuel)%nat → 0 ≤ sup_next_index s → sup_next_index s + Z.of_nat k ≤ u64_max →
  let new := fresh c (sup_next_index s) k in
  Supervisor.scale_up fuel desired s
  = Ret (start_of c <$> new,
         mk_supervisor c (sup_autoscaler s) (sup_router s) (sup_live s ++ new)
           (sup_next_index s + Z.of_nat k)).
Proof.
  revert s. induction fuel as [|fuel IH]; intros s c k Hfuel H0 Hmax new; unfold new; clear new.
  all: cbn [Supervisor.scale_up]; fold c.
  all: destruct (Z.ltb_spec (Z.of_nat (length (sup_live s))) desired);
    destruct (Z.ltb_spec (Z.of_nat (length (sup_live s))) (sc_max_replicas c)); simpl.
  all: try (assert (k = 0%nat) as -> by lia; simpl; rewrite app_nil_r, Z.add_0_r;
            by destruct s).
  { lia. }
  assert (k = S (Nat.pred k)) as Hk by lia. set (k' := Nat.pred k) in *.
  rewrite IH; simpl; fold c; rewrite ?length_app, ?wadd64_small; simpl; try lia.
  replace (Z.to_nat (Z.min desired (sc_max_replicas c) - Z.of_nat (length (sup_live s) + 1)))
    with k' by lia.
  rewrite Hk. cbn [fresh]. rewrite <- app_assoc. csimpl. do 3 f_equal. lia.
Qed.

Lemma first_unhealthy_spec ls :
  match first_unhealthy ls with
  | Some i => ∃ l, ls !! i = Some l ∧ lr_healthy l = false
  | None => Forall (λ l, lr_healthy l = true) ls
  end.
Proof.
  induction ls as [|l ls IH]; simpl; [constructor|].
  destruct (lr_healthy l) eqn:Hl; simpl; [|by exists l].
  destruct (first_unhealthy ls) as [i|]; simpl; [done|by constructor].
Qed.

(** Stopping prefers the replicas that are not healthy. *)
Lemma scale_down_spec fuel desired ls :
  0 ≤ desired → (length ls ≤ fuel)%nat →
  ∃ stopped ls', Supervisor.scale_down fuel desired ls = Ret (stop_of <$> stopped, ls') ∧
    ls ≡ₚ stopped ++ ls' ∧ ls' `sublist_of` ls ∧
    Z.of_nat (length ls') = Z.min desired (Z.of_nat (length ls)) ∧
    (Exists (λ l, lr_healthy l = true) stopped → Forall (λ l, lr_healthy l = true) ls').
Proof.
  intros Hd. revert ls. induction fuel as [|fuel IH]; intros ls Hfuel; cbn [Supervisor.scale_down];
    (destruct (Z.ltb_spec desired (Z.of_nat (length ls)));
      [|exists [], ls; csimpl; split_and!; try done; [lia|by intros ?%Exists_nil]]); [lia|].
  pose proof (first_unhealthy_spec ls) as Hun.
  assert (∃ r, ls !! default (length ls - 1)%nat (first_unhealthy ls) = Some r ∧
    (lr_healthy r = true → Forall (λ l, lr_healthy l = true) ls)) as (r & Hr & Hhealthy).
  { destruct (first_unhealthy ls) as [i|]; simpl.
    - destruct Hun as (l & ? & ?). exists l. split; [done|congruence].
    - destruct (lookup_lt_is_Some_2 ls (length ls - 1)%nat) as [l Hl]; [lia|]. by exists l. }
  set (i := default _ _) in *. rewrite Hr.
  assert (length ls = S (length (delete i ls))) as Hlen.
  { apply lookup_lt_Some in Hr as Hi. rewrite length_delete by by eexists. lia. }
  destruct (IH (delete i ls)) as (stopped & ls' & -> & Hp & Hsub & Hl & Hh); [lia|].
  exists (r :: stopped), ls'. csimpl. split; [done|]. split_and!.
  - rewrite (delete_Permutation ls i r Hr). by rewrite Hp.
  - etrans; [exact Hsub|apply sublist_delete].
  - lia.
  - intros [Hr'|Hs]%Exists_cons; [|auto].
    assert (ls' `sublist_of` ls) as Hsub' by (etrans; [exact Hsub|apply sublist_delete]).
    specialize (Hhealthy Hr'). rewrite Forall_forall in *.
    intros l Hl'. apply Hhealthy. by eapply elem_of_submseteq, sublist_submseteq.
Qed.

(** ** The invariant of the supervisor *)

Record sup_ok (c : SupervisorConfig) (s : Supervisor) : Prop := {
  ok_config : sup_config s = c;
  ok_autoscaler : autoscaler_ok (autoscaler_config c) (sup_autoscaler s);
  ok_distinct : NoDup (live_ids (sup_live s));
  ok_indices : ∀ id, id ∈ live_ids (sup_live s) →
    ∃ i, 0 ≤ i < sup_next_index s ∧ id = replica_id c i;
  ok_max : Z.of_nat (length (sup_live s)) ≤ sc_max_replicas c;
  ok_strategy : strategy (sup_router s) = LeastLoaded;
  ok_mirror : replicas (sup_router s) = advertised c <$> sup_live s;
  ok_index : 0 ≤ sup_next_index s }.

Section supervisor.
Context (c : SupervisorConfig) (Hc : well_configured (autoscaler_config c)).

Lemma advertised_ids (ls : list LiveReplica) : ids (advertised c <$> ls) = live_ids ls.
Proof. by rewrite <- list_fmap_compose. Qed.

Lemma update_live_ids id f (ls : list LiveReplica) :
  (∀ l, lr_id (f l) = lr_id l) → live_ids (update_live id f ls) = live_ids ls.
Proof.
  intros Hf. induction ls as [|l ls IH]; csimpl; [done|].
  destruct (String.eqb (lr_id l) id); csimpl; by rewrite ?Hf, ?IH.
Qed.

Lemma sup_new_ok : sup_ok c (Supervisor.new c).
Proof.
  destruct Hc as (? & ? & ?). constructor; simpl in *; try done; try lia.
  - by apply autoscaler_new_ok.
  - constructor.
  - by intros id ?%elem_of_nil.
Qed.

(** An operation that ends in [sync_router] restores the mirror. *)
Lemma sync_ok s :
  sup_config s = c → autoscaler_ok (autoscaler_config c) (sup_autoscaler s) →
  NoDup (live_ids (sup_live s)) →
  (∀ id, id ∈ live_ids (sup_live s) → ∃ i, 0 ≤ i < sup_next_index s ∧ id = replica_id c i) →
  Z.of_nat (length (sup_live s)) ≤ sc_max_replicas c →
  strategy (sup_router s) = LeastLoaded → NoDup (ids (replicas (sup_router s))) →
  filter (.∈ live_ids (sup_live s)) (ids (replicas (sup_router s)))
    `prefix_of` live_ids (sup_live s) →
  0 ≤ sup_next_index s → sup_ok c (Supervisor.sync_router s).
Proof.
  intros Hs ???????. intros Hi.
  destruct (sync_mirror s) as (rt & -> & Hrt & Hst); [done..|].
  constructor; simpl; try done; congruence.
Qed.

Lemma update_live_ok id f s :
  (∀ l, lr_id (f l) = lr_id l) → sup_ok c s →
  sup_ok c (Supervisor.sync_router (Supervisor.with_live (update_live id f (sup_live s)) s)).
Proof.
  intros Hf [? ? Hnd Hidx Hmax ? Hmir ?].
  pose proof (update_live_ids id f (sup_live s) Hf) as Hids.
  assert (length (update_live id f (sup_live s)) = length (sup_live s)) as Hlen.
  { apply (f_equal length) in Hids. by rewrite !length_fmap in Hids. }
  apply sync_ok; simpl; rewrite ?Hids, ?Hmir, ?advertised_ids, ?Hlen; try done.
  rewrite filter_all; done.
Qed.

Lemma stopped_ok id s : sup_ok c s → sup_ok c (Supervisor.on_replica_stopped id s).
Proof.
  intros [? ? Hnd Hidx Hmax Hst Hmir ?]. unfold Supervisor.on_replica_stopped.
  unfold Router.remove_replica.
  pose proof (take_replica_filter id (replicas (sup_router s))) as Htake.
  rewrite Hmir in *. rewrite advertised_ids in Htake. specialize (Htake Hnd).
  destruct (take_replica id _) as [o rs]. simpl in Htake. subst rs. rewrite filter_fmap.
  assert (filter (λ l, lr_id l ≠ id) (sup_live s) `sublist_of` sup_live s) as Hsub
    by apply sublist_filter.
  constructor; simpl; try done.
  - eapply sublist_NoDup; [exact Hnd|by apply fmap_sublist].
  - intros x (l & -> & [_ Hl]%list_elem_of_filter)%list_elem_of_fmap.
    apply Hidx. by apply list_elem_of_fmap_2.
  - apply sublist_length in Hsub. lia.
Qed.

(** One reconciliation: it returns, restores the invariant and brings the
    number of replicas to the autoscaler's count. *)
Lemma reconcile_spec m s :
  sup_ok c s → sup_next_index s + sc_max_replicas c ≤ u64_max →
  ∃ actions s', Supervisor.reconcile m s = Ret (actions, s') ∧ sup_ok c s' ∧
    sup_next_index s' ≤ sup_next_index s + sc_max_replicas c ∧
    Z.of_nat (length (sup_live s')) = Supervisor.desired s' ∧
    sup_autoscaler s' = (Autoscaler.decide m (sup_autoscaler s)).2 ∧
    ((∃ new, sup_live s' = sup_live s ++ new ∧ actions = start_of c <$> new ∧
        Forall unheard new) ∨
     (∃ stopped, sup_live s ≡ₚ stopped ++ sup_live s' ∧ actions = stop_of <$> stopped ∧
        sup_live s' `sublist_of` sup_live s ∧
        (Exists (λ l, lr_healthy l = true) stopped →
         Forall (λ l, lr_healthy l = true) (sup_live s')))).
Proof.
  intros [Hcfg Has Hnd Hidx Hmax Hst Hmir Hi] Hbound.
  pose proof (decide_spec _ m _ Hc Has) as Hdec. unfold Supervisor.reconcile.
  destruct (Autoscaler.decide m (sup_autoscaler s)) as [d a]. destruct Hdec as [Ha _].
  assert (sc_min_replicas c ≤ as_current a ≤ sc_max_replicas c) as Hcur by apply Ha.
  assert (1 ≤ sc_min_replicas c) as H1 by apply Hc. simpl. unfold Autoscaler.current.
  rewrite scale_up_spec; simpl; [|rewrite ?Hcfg; lia..]. rewrite Hcfg.
  set (k := Z.to_nat _). set (new := fresh c (sup_next_index s) k).
  assert (length new = k) as Hnew by apply fresh_length.
  assert (sup_next_index s + Z.of_nat k ≤ u64_max) as Hk by lia.
  assert (NoDup (live_ids (sup_live s ++ new))) as Hnd'.
  { rewrite fmap_app. apply NoDup_app. split; [done|]. split; [|by apply fresh_NoDup].
    intros id (i & Hi' & ->)%Hidx (j & Hj & Heq)%fresh_ids.
    apply replica_id_inj in Heq; unfold is_u64; lia. }
  assert (∀ id, id ∈ live_ids (sup_live s ++ new) →
    ∃ i, 0 ≤ i < sup_next_index s + Z.of_nat k ∧ id = replica_id c i) as Hidx'.
  { intros id. rewrite fmap_app, elem_of_app.
    intros [(i & ? & ->)%Hidx|(i & ? & ->)%fresh_ids]; exists i; (split; [lia|done]). }
  destruct (scale_down_spec (length (sup_live s ++ new)) (as_current a) (sup_live s ++ new))
    as (stopped & ls' & -> & Hp & Hsub & Hlen & Hh); [lia|done|]. simpl.
  apply sublist_length in Hsub as Hle. rewrite length_app in Hlen, Hle.
  assert ((ls' = sup_live s ++ new ∧ stopped = []) ∨ new = []) as Hcase.
  { destruct (decide (k = 0%nat)) as [Hk0|]; [right; apply nil_length_inv; lia|left].
    apply Permutation_length in Hp. rewrite !length_app in Hp.
    assert (stopped = []) as -> by (apply nil_length_inv; lia).
    split; [|done]. apply sublist_length_eq; [done|rewrite length_app; lia]. }
  eexists _, _. split; [done|]. split; [|split; [|split; [|split]]].
  - apply sync_ok; simpl; try done; try lia.
    + eapply sublist_NoDup; [exact Hnd'|by apply fmap_sublist].
    + intros id (l & -> & Hl)%list_elem_of_fmap. apply Hidx', list_elem_of_fmap_2.
      by eapply elem_of_submseteq, sublist_submseteq.
    + by rewrite Hmir, advertised_ids.
    + rewrite Hmir, advertised_ids. destruct Hcase as [[-> _]| ->].
      * rewrite filter_all; rewrite fmap_app; [by apply prefix_app_r|].
        intros x Hx. apply elem_of_app. by left.
      * rewrite app_nil_r in *. rewrite filter_sublist; [done|done|by apply fmap_sublist].
  - simpl. lia.
  - simpl. unfold Supervisor.desired. simpl. unfold Autoscaler.current. lia.
  - done.
  - simpl. destruct Hcase as [[-> ->]| ->].
    + left. exists new. rewrite app_nil_r. split_and!; [done..|apply fresh_unheard].
    + right. rewrite app_nil_r in *. by exists stopped.
Qed.

Lemma step_returns e (es : list SupervisorEvent) s :
  sup_ok c s → sup_next_index s + Z.of_nat (length (e :: es)) * sc_max_replicas c ≤ u64_max →
  returns (sup_step s e) (λ s', sup_ok c s' ∧
    sup_next_index s' + Z.of_nat (length es) * sc_max_replicas c ≤ u64_max).
Proof.
  intros Hok Hb. cbn [length] in Hb.
  assert (0 ≤ sc_max_replicas c) by (destruct Hok; lia).
  destruct e as [m|id|id active kv|id]; simpl.
  - destruct (reconcile_spec m s Hok) as (acts & s' & -> & Hs' & Hn & _); [nia|]. simpl.
    split; [done|nia].
  - split; [by apply update_live_ok|simpl; nia].
  - split; [by apply update_live_ok|simpl; nia].
  - split; [by apply stopped_ok|]. unfold Supervisor.on_replica_stopped. simpl. nia.
Qed.

Lemma run_ok (es : list SupervisorEvent) k :
  Z.of_nat (length es + k) * sc_max_replicas c ≤ u64_max →
  returns (mfold sup_step (Supervisor.new c) es) (λ s, sup_ok c s ∧
    sup_next_index s + Z.of_nat k * sc_max_replicas c ≤ u64_max).
Proof.
  intros Hb.
  apply (mfold_returns sup_step (λ l s, sup_ok c s ∧
    sup_next_index s + Z.of_nat (length l + k) * sc_max_replicas c ≤ u64_max)).
  - intros s e l [Hok Hs].
    assert (0 ≤ sc_max_replicas c) by (destruct Hok; lia). cbn [length] in Hs.
    pose proof (step_returns e (l ++ replicate k e) s Hok) as Hstep.
    cbn [length] in Hstep. rewrite length_app, length_replicate in Hstep. apply Hstep. lia.
  - split; [apply sup_new_ok|simpl; lia].
Qed.
End supervisor.

(** ** What the executor has told of a replica *)

Definition is_started (id : string) (e : SupervisorEvent) : bool :=
  match e with Started i => String.eqb i id | _ => false end.
Definition report_of (id : string) (e : SupervisorEvent) : option (Z * f32) :=
  match e with Report i active kv => if String.eqb i id then Some (active, kv) else None | _ => None end.

(** Whether it was reported started, and the load last reported of it. *)
Definition told (id : string) (es : list SupervisorEvent) : bool * (Z * f32) :=
  (existsb (is_started id) es, default (0, f32_zero) (last (omap (report_of id) es))).

Lemma told_snoc id es e :
  told id (es ++ [e]) = ((told id es).1 || is_started id e, default (told id es).2 (report_of id e)).
Proof.
  unfold told. rewrite existsb_app, omap_app. cbn [existsb omap list_omap]. rewrite orb_false_r. f_equal.
  destruct (report_of id e); [by rewrite last_snoc|by rewrite app_nil_r].
Qed.

(** The view of a live replica, as [told] gives it. *)
Definition view (l : LiveReplica) : bool * (Z * f32) := (lr_healthy l, (lr_active_sequences l, lr_kv_pressure_pct l)).

(** A replica was asked for in the reconciliation before [after], has not been stopped since, and
    is seen as it was told of since. *)
Definition follows c (es : list SupervisorEvent) (id : string) (v : bool * (Z * f32)) : Prop :=
  ∃ before m after s0, es = before ++ Reconcile m :: after ∧
    mfold sup_step (Supervisor.new c) before = Ret s0 ∧ id ∉ ids (replicas (Supervisor.router s0)) ∧
    Stopped id ∉ after ∧ v = told id after.

Lemma follows_snoc c es id v e :
  follows c es id v → e ≠ Stopped id → follows c (es ++ [e]) id (v.1 || is_started id e, default v.2 (report_of id e)).
Proof.
  intros (before & m & after & s0 & -> & Hb & Hn & Hs & ->) He. exists before, m, (after ++ [e]), s0.
  rewrite <- app_assoc, told_snoc. split_and!; try done. rewrite elem_of_app, list_elem_of_singleton. naive_solver.
Qed.

Lemma update_live_elem id f (ls : list LiveReplica) l' :
  NoDup (live_ids ls) → l' ∈ update_live id f ls →
  ∃ l, l ∈ ls ∧ l' = if String.eqb (lr_id l) id then f l else l.
Proof.
  induction ls as [|l ls IH]; csimpl; [by intros _ ?%elem_of_nil|]. intros [Hl Hnd]%NoDup_cons.
  destruct (String.eqb_spec (lr_id l) id) as [He|Hne]; intros [->|Hin]%elem_of_cons.
  - exists l. split; [left|]. by rewrite He, String.eqb_refl.
  - exists l'. split; [by right|]. destruct (String.eqb_spec (lr_id l') id) as [He'|]; [|done].
    destruct Hl. rewrite He, <- He'. by apply list_elem_of_fmap_2.
  - exists l. split; [left|]. by destruct (String.eqb_spec (lr_id l) id).
  - destruct (IH Hnd Hin) as (x & ? & ?). exists x. split; [by right|done].
Qed.

(** Where a live replica after an event comes from. *)
Lemma step_live c s e s' l' :
  well_configured (autoscaler_config c) → sup_ok c s → sup_next_index s + sc_max_replicas c ≤ u64_max →
  sup_step s e = Ret s' → l' ∈ sup_live s' →
  (∃ m, e = Reconcile m ∧ lr_id l' ∉ live_ids (sup_live s) ∧ unheard l') ∨
  (∃ l, l ∈ sup_live s ∧ lr_id l' = lr_id l ∧ e ≠ Stopped (lr_id l) ∧
     view l' = ((view l).1 || is_started (lr_id l) e, default (view l).2 (report_of (lr_id l) e))).
Proof.
  intros Hc Hok Hb Hs Hl'. destruct e as [m|id|id active kv|id]; simpl in Hs.
  - destruct (reconcile_spec c Hc m s Hok Hb) as (acts & s1 & Hr & Hok' & _ & _ & _ & Hcase).
    rewrite Hr in Hs. injection Hs as <-. destruct Hcase as [(new & Hn & _ & Hun)|(st & _ & _ & Hsub & _)].
    + pose proof (ok_distinct _ _ Hok') as Hnd. rewrite Hn in Hl', Hnd.
      apply elem_of_app in Hl' as [Hl'|Hl'].
      * right. exists l'. split_and!; try done. unfold view. simpl. by rewrite orb_false_r.
      * left. exists m. split; [done|]. split; [|by eapply Forall_forall].
        rewrite fmap_app in Hnd. apply NoDup_app in Hnd as (_ & Hnd & _).
        intros Hin. apply (Hnd _ Hin). by apply list_elem_of_fmap_2.
    + right. exists l'. split_and!; try done; [by eapply elem_of_submseteq, sublist_submseteq|].
      unfold view. simpl. by rewrite orb_false_r.
  - injection Hs as <-. apply (update_live_elem _ _ _ _ (ok_distinct _ _ Hok)) in Hl' as (l & Hl & ->).
    right. exists l. split; [done|]. unfold view. simpl. rewrite (String.eqb_sym id).
    destruct (String.eqb (lr_id l) id); simpl; [by rewrite orb_true_r|by rewrite orb_false_r].
  - injection Hs as <-. apply (update_live_elem _ _ _ _ (ok_distinct _ _ Hok)) in Hl' as (l & Hl & ->).
    right. exists l. split; [done|]. unfold view. simpl. rewrite (String.eqb_sym id).
    destruct (String.eqb (lr_id l) id); simpl; by rewrite orb_false_r.
  - injection Hs as <-. apply list_elem_of_filter in Hl' as [Hne Hl']. right. exists l'.
    split_and!; try done; [by intros [= ->]|]. unfold view. simpl. by rewrite orb_false_r.
Qed.

Lemma run_follows c (es : list SupervisorEvent) s :
  well_configured (autoscaler_config c) → Z.of_nat (length es) * sc_max_replicas c ≤ u64_max →
  mfold sup_step (Supervisor.new c) es = Ret s →
  ∀ l, l ∈ sup_live s → follows c es (lr_id l) (view l).
Proof.
  intros Hc. assert (0 ≤ sc_max_replicas c) as Hpos by (destruct (sup_new_ok c Hc); simpl in *; lia).
  revert s. induction es as [|e es IH] using rev_ind; intros s Hb Hs l Hl.
  { injection Hs as <-. by apply elem_of_nil in Hl. }
  rewrite length_app in Hb. simpl in Hb. rewrite mfold_app in Hs.
  pose proof (run_ok c Hc es 1 ltac:(lia)) as (s0 & Hs0 & Hok & Hi)%returns_inv. rewrite Hs0 in Hs. simpl in Hs.
  apply bind_Ret_inv in Hs as (s1 & Hs & [= <-]).
  destruct (step_live c s0 e s1 l Hc Hok ltac:(lia) Hs Hl)
    as [(m & -> & Hn & Hun)|(l0 & Hl0 & Hid & He & Hv)].
  - exists es, m, [], s0. unfold Supervisor.router. rewrite (ok_mirror _ _ Hok), (advertised_ids c).
    split_and!; try done; [apply not_elem_of_nil|]. by rewrite Hun.
  - rewrite Hid, Hv. apply follows_snoc; [|done]. apply (IH s0); [nia|done|done].
Qed.

(** C22: Whatever the executor reports and the metrics ask for, every event is
    handled without panic, the live replicas keep distinct ids and never exceed
    the maximum, and the router holds exactly them, in the same order.  Each
    replica the router holds was asked for in a reconciliation that found none
    of its id in the router, and has not been reported stopped since; it is
    healthy, so that requests are routed to it, exactly if it has been reported
    started since, and its load is the one last reported since (none at first). *)
Theorem supervisor_invariant c (es : list SupervisorEvent) :
  well_configured (autoscaler_config c) →
  Z.of_nat (length es) * sc_max_replicas c ≤ u64_max →
  ∃ s, mfold sup_step (Supervisor.new c) es = Ret s ∧
    NoDup (live_ids (sup_live s)) ∧
    Z.of_nat (Supervisor.live_count s) ≤ sc_max_replicas c ∧
    replicas (Supervisor.router s) = advertised c <$> sup_live s ∧
    ∀ r, r ∈ replicas (Supervisor.router s) →
      ∃ before m after s0, es = before ++ Reconcile m :: after ∧
        mfold sup_step (Supervisor.new c) before = Ret s0 ∧
        rep_id r ∉ ids (replicas (Supervisor.router s0)) ∧ Stopped (rep_id r) ∉ after ∧
        rep_healthy r = existsb (is_started (rep_id r)) after ∧
        (rep_active_sequences r, rep_kv_pressure_pct r)
          = default (0, f32_zero) (last (omap (report_of (rep_id r)) after)).
Proof.
  intros Hc Hb. pose proof (run_ok c Hc es 0) as Hrun. rewrite Nat.add_0_r in Hrun.
  apply returns_inv in Hrun as (s & Hs & Hok & _); [|done]. pose proof Hok as [? ? ? ? ? ? Hmir ?].
  exists s. split_and!; [done..|]. unfold Supervisor.router at 1. rewrite Hmir.
  intros r (l & -> & Hl)%list_elem_of_fmap.
  destruct (run_follows c es s Hc Hb Hs l Hl) as (before & m & after & s0 & ? & ? & ? & ? & Hv).
  exists before, m, after, s0. unfold view, told in Hv. injection Hv as Hh Hload. by split_and!.
Qed.

(** After any history a reconciliation brings the number of live replicas
    to the autoscaler's count, which lies within the limits; it only starts
    replicas, which are not healthy yet, or only stops some, and it stops a
    healthy one only when every replica left is healthy. *)
Theorem reconcile_converges c (es : list SupervisorEvent) m :
  well_configured (autoscaler_config c) →
  Z.of_nat (length es + 1) * sc_max_replicas c ≤ u64_max →
  ∃ s actions s', mfold sup_step (Supervisor.new c) es = Ret s ∧
    Supervisor.reconcile m s = Ret (actions, s') ∧
    Z.of_nat (Supervisor.live_count s') = Supervisor.desired s' ∧
    sc_min_replicas c ≤ Supervisor.desired s' ≤ sc_max_replicas c ∧
    ((∃ new, sup_live s' = sup_live s ++ new ∧ actions = start_of c <$> new ∧
        Forall (λ l, lr_healthy l = false) new) ∨
     (∃ stopped, sup_live s ≡ₚ stopped ++ sup_live s' ∧ actions = stop_of <$> stopped ∧
        (Exists (λ l, lr_healthy l = true) stopped →
         Forall (λ l, lr_healthy l = true) (sup_live s')))).
Proof.
  intros Hc Hb. pose proof (run_ok c Hc es 1 Hb) as Hrun.
  apply returns_inv in Hrun as (s & Hs & Hok & Hi).
  destruct (reconcile_spec c Hc m s Hok) as (acts & s' & Hrec & Hok' & _ & Hlen & _ & Hacts);
    [lia|].
  exists s, acts, s'. split_and!; try done.
  - apply Hok'.
  - apply Hok'.
  - destruct Hacts as [(new & ? & ? & Hn)|(st & ? & ? & _ & ?)]; [left|right; by exists st].
    exists new. split_and!; [done..|by apply unheard_unhealthy].
Qed.

(** A fleet driven by the events of the supervisor never serves a request
    that needs an adapter: each synchronisation fills the router with replicas
    that hold none, so such a request finds no eligible replica. *)
Theorem supervised_adapter_unroutable c (es : list SupervisorEvent) cp q m a :
  well_configured (autoscaler_config c) →
  Z.of_nat (length es) * sc_max_replicas c ≤ u64_max →
  ControlPlane.resolve (rq_model q) (rq_version q) (rq_routing_key q) cp = Some m →
  rm_adapter m = Some a →
  ∃ s, mfold sup_step (Supervisor.new c) es = Ret s ∧
    Router.route cp q (Supervisor.router s) = Ret (None, Supervisor.router s).
Proof.
  intros Hc Hb Hm Ha. pose proof (run_ok c Hc es 0) as Hrun. rewrite Nat.add_0_r in Hrun.
  apply returns_inv in Hrun as (s & Hs & Hok & _); [|done]. exists s. split; [done|].
  unfold Router.route. rewrite Hm.
  assert (Router.candidates m (Supervisor.router s) = []) as ->; [|done].
  apply elem_of_nil_inv. intros r [Hr (_ & _ & _ & _ & _ & Had)]%candidates_spec.
  unfold Supervisor.router in Hr. rewrite (ok_mirror _ _ Hok) in Hr.
  apply list_elem_of_fmap in Hr as (l & -> & _). specialize (Had a Ha). by apply elem_of_nil in Had.
Qed.

(** ** A fleet of one model *)

Definition ex_sup_config : SupervisorConfig :=
  mk_sup_config "llama-7b" "v1" (Cuda 0) 1 4 4 (f32_of_Z 500) (f32_of_Z 80) 16 2 2.

Definition ex_events : list SupervisorEvent :=
  [Reconcile (ex_metrics 99 2000 100); Started "llama-7b-v1-0";
   Report "llama-7b-v1-0" 3 (f32_of_Z 40)].

Lemma ex_sup_well_configured : well_configured (autoscaler_config ex_sup_config).
Proof. unfold well_configured, u64_max. simpl. lia. Qed.

Lemma supervisor_invariant_witness :
  well_configured (autoscaler_config ex_sup_config) ∧
  ∃ s, mfold sup_step (Supervisor.new ex_sup_config) ex_events = Ret s ∧
    replicas (Supervisor.router s) = advertised ex_sup_config <$> sup_live s ∧
    (rep_id <$> replicas (Supervisor.router s)) = ["llama-7b-v1-0"; "llama-7b-v1-1"]%string ∧
    ∀ r, r ∈ replicas (Supervisor.router s) → ∃ after, rep_healthy r = existsb (is_started (rep_id r)) after.
Proof.
  split; [apply ex_sup_well_configured|].
  destruct (supervisor_invariant ex_sup_config ex_events ex_sup_well_configured)
    as (s & Hs & _ & _ & Hr & Hf); [vm_compute; discriminate|].
  exists s. split; [exact Hs|]. split; [exact Hr|]. split.
  - assert (Ret s = mfold sup_step (Supervisor.new ex_sup_config) ex_events) as He by (symmetry; exact Hs).
    vm_compute in He. injection He as ->. reflexivity.
  - intros r Hin. destruct (Hf r Hin) as (_ & _ & after & _ & _ & _ & _ & _ & Hh & _). by exists after.
Defined.

Lemma reconcile_converges_witness :
  ∃ s actions s', mfold sup_step (Supervisor.new ex_sup_config) ex_events = Ret s ∧
    Supervisor.reconcile (ex_metrics 5 50 0) s = Ret (actions, s') ∧
    Z.of_nat (Supervisor.live_count s') = Supervisor.desired s'.
Proof.
  destruct (reconcile_converges ex_sup_config ex_events (ex_metrics 5 50 0)
    ex_sup_well_configured) as (s & acts & s' & Hs & Hr & Hn & _); [vm_compute; discriminate|].
  exists s, acts, s'. split; [exact Hs|]. split; [exact Hr|exact Hn].
Defined.

(** The first reconciliation starts two replicas; only the one reported
    started is healthy in the router. *)
Example ex_run :
  match mfold sup_step (Supervisor.new ex_sup_config) ex_events with
  | Ret s => (λ r, (rep_id r, rep_healthy r, rep_active_sequences r)) <$> replicas (sup_router s)
  | Panic => []
  end = [("llama-7b-v1-0"%string, true, 3); ("llama-7b-v1-1"%string, false, 0)].
Proof. vm_compute. reflexivity. Qed.

Lemma supervised_adapter_unroutable_witness :
  ∃ s, mfold sup_step (Supervisor.new ex_sup_config) ex_events = Ret s ∧
    Router.route ex_cp ex_request (Supervisor.router s) = Ret (None, Supervisor.router s).
Proof.
  apply (supervised_adapter_unroutable ex_sup_config ex_events ex_cp ex_request
    (mk_resolved "llama-7b" "v1" (Local "/models/v1") RuntimeProfile_default (Some "math"%string))
    "math" ex_sup_well_configured);
    [vm_compute; discriminate|vm_compute; reflexivity|reflexivity].
Defined.
