(* ===== verification/InferenceGateway.v ===== *)
(** * InferenceGateway: routing inside a Kubernetes cluster

    [crates/justapi-inference/src/gateway.rs]: the control plane and the router
    behind one front, with pod readiness folded into a replica's health and the
    chosen replica turned into a service name. *)

From Stdlib Require Import Ascii.
From S2P Require Import Prelude F32 Text ControlPlane LlmRouter.

#[local] Open Scope Z_scope.

Record GatewayConfig := mk_gw_config {
  gw_namespace : string;
  gw_service_template : string;
  gw_strategy : RoutingStrategy;
  gw_require_ready : bool }.

Definition GatewayConfig_default : GatewayConfig :=
  mk_gw_config "justapi" "{replica}.{namespace}.svc.cluster.local" LowestKvPressure true.

Record GatewayDecision := mk_gw_decision {
  gd_replica : string; gd_resolved : ResolvedModel; gd_endpoint : string }.

Record InferenceGateway := mk_gateway {
  gw_cp : ControlPlane; gw_router : Router; gw_config : GatewayConfig }.

Module InferenceGateway.

Definition new (c : GatewayConfig) : InferenceGateway :=
  mk_gateway ControlPlane.new (Router.new (gw_strategy c)) c.

Definition control_plane : InferenceGateway → ControlPlane := gw_cp.
Definition router : InferenceGateway → Router := gw_router.

Definition with_router (f : Router → Router) (g : InferenceGateway) : InferenceGateway :=
  mk_gateway (gw_cp g) (f (gw_router g)) (gw_config g).

Definition register_replica (r : Replica) : InferenceGateway → InferenceGateway :=
  with_router (Router.register_replica r).

Definition update_load (id : string) (active : Z) (kv : f32) (ready : bool)
    (g : InferenceGateway) : InferenceGateway :=
  let healthy := if gw_require_ready (gw_config g) then ready else true in
  with_router (Router.update_load id active kv healthy) g.

Definition set_ready (id : string) (ready : bool) (g : InferenceGateway) : InferenceGateway :=
  match List.find (λ r, String.eqb (rep_id r) id) (replicas (gw_router g)) with
  | Some r => update_load id (rep_active_sequences r) (rep_kv_pressure_pct r) ready g
  | None => g
  end.

Definition remove_replica (id : string) : InferenceGateway → InferenceGateway :=
  with_router (λ rt, (Router.remove_replica id rt).2).

Definition endpoint_for (replica : string) (m : ResolvedModel) (g : InferenceGateway) : string :=
  str_replace "{namespace}" (gw_namespace (gw_config g)) 0
    (str_replace "{version}" (rm_version m) 0
       (str_replace "{model}" (rm_model_name m) 0
          (str_replace "{replica}" replica 0 (gw_service_template (gw_config g))))).

Definition route (q : RouteRequest) (g : InferenceGateway)
    : exec (option GatewayDecision * InferenceGateway) :=
  '(d, rt) ← Router.route (gw_cp g) q (gw_router g);
  Ret (fmap (M:=option)
         (λ d, mk_gw_decision (rd_replica d) (rd_resolved d)
                 (endpoint_for (rd_replica d) (rd_resolved d) g)) d,
       with_router (λ _, rt) g).

End InferenceGateway.

(** The calls that change a gateway: those of the gateway itself, and whatever
    is done to the control plane it lends out. *)
Inductive GatewayEvent :=
| Register (r : Replica)
| UpdateLoad (id : string) (active : Z) (kv : f32) (ready : bool)
| SetReady (id : string) (ready : bool)
| Remove (id : string)
| Routed (q : RouteRequest)
| Control (cp : ControlPlane).

Definition gw_step (g : InferenceGateway) (e : GatewayEvent) : exec InferenceGateway :=
  match e with
  | Register r => Ret (InferenceGateway.register_replica r g)
  | UpdateLoad id active kv ready => Ret (InferenceGateway.update_load id active kv ready g)
  | SetReady id ready => Ret (InferenceGateway.set_ready id ready g)
  | Remove id => Ret (InferenceGateway.remove_replica id g)
  | Routed q => '(_, g') ← InferenceGateway.route q g; Ret g'
  | Control cp => Ret (mk_gateway cp (gw_router g) (gw_config g))
  end.

(** An event that may make a replica ready. *)
Definition readies (id : string) (e : GatewayEvent) : bool :=
  match e with
  | Register r => String.eqb (rep_id r) id
  | UpdateLoad id' _ _ ready | SetReady id' ready => String.eqb id' id && ready
  | _ => false
  end.

(** ** Endpoints *)

(** No placeholder can start inside the string. *)
Fixpoint brace_free (s : string) : bool :=
  match s with
  | EmptyString => true
  | String ch s' => negb (Ascii.eqb ch "{"%char) && brace_free s'
  end.

Lemma str_replace_brace_free pat rep s1 s2 :
  brace_free s1 = true →
  str_replace (String "{" pat) rep 0 (String.append s1 s2)
  = String.append s1 (str_replace (String "{" pat) rep 0 s2).
Proof.
  induction s1 as [|ch s1 IH]; intros Hs; [done|].
  simpl in Hs. apply andb_true_iff in Hs as [Hch Hs].
  change (String.append (String ch s1) s2) with (String ch (String.append s1 s2)).
  cbn [str_replace].
  assert (String.prefix (String "{" pat) (String ch (String.append s1 s2)) = false) as ->.
  { cbn [String.prefix]. destruct (ascii_dec "{" ch) as [<-|]; [discriminate|done]. }
  by rewrite IH.
Qed.

Lemma endpoint_default replica m g :
  gw_service_template (gw_config g) = gw_service_template GatewayConfig_default →
  brace_free replica = true → brace_free (gw_namespace (gw_config g)) = true →
  InferenceGateway.endpoint_for replica m g
  = String.append replica (String.append "."
      (String.append (gw_namespace (gw_config g)) ".svc.cluster.local")).
Proof.
  intros Ht Hr Hn. unfold InferenceGateway.endpoint_for. rewrite Ht.
  change (str_replace "{replica}" replica 0 (gw_service_template GatewayConfig_default))
    with (String.append replica ".{namespace}.svc.cluster.local").
  by rewrite !str_replace_brace_free by done.
Qed.

(** ** Readiness *)

(** No replica of that id is healthy. *)
Definition not_ready (id : string) (g : InferenceGateway) : Prop :=
  ∀ r, r ∈ replicas (gw_router g) → rep_id r = id → rep_healthy r = false.

Definition distinct (g : InferenceGateway) : Prop := NoDup (ids (replicas (gw_router g))).

Lemma route_replicas q g :
  ∃ d g', InferenceGateway.route q g = Ret (d, g') ∧
    replicas (gw_router g') = replicas (gw_router g) ∧ gw_config g' = gw_config g ∧
    match d with
    | None => True
    | Some d =>
        ControlPlane.resolve (rq_model q) (rq_version q) (rq_routing_key q) (gw_cp g)
        = Some (gd_resolved d) ∧
        gd_endpoint d = InferenceGateway.endpoint_for (gd_replica d) (gd_resolved d) g ∧
        ∃ r, r ∈ replicas (gw_router g) ∧ rep_id r = gd_replica d ∧
             eligible (gd_resolved d) r ∧ best (gw_router g) (gd_resolved d) r
    end.
Proof.
  unfold InferenceGateway.route. pose proof (route_optimal (gw_cp g) q (gw_router g)) as Hr.
  destruct (ControlPlane.resolve _ _ _ _) as [m|].
  - destruct Hr as [[-> _]|(r & rt & -> & Hin & Hel & Hb & Hrs & _)]; simpl.
    + by eexists _, _.
    + eexists _, _. split; [done|]. simpl. split_and!; try done. by exists r.
  - rewrite Hr. simpl. by eexists _, _.
Qed.

Lemma gw_step_ok g e :
  distinct g → ∃ g', gw_step g e = Ret g' ∧ distinct g' ∧ gw_config g' = gw_config g ∧
    ∀ id, gw_require_ready (gw_config g) = true → readies id e = false →
      not_ready id g → not_ready id g'.
Proof.
  unfold distinct. intros Hd.
  assert (∀ id' active kv ready,
    let g' := InferenceGateway.update_load id' active kv ready g in
    NoDup (ids (replicas (gw_router g'))) ∧ ∀ id, gw_require_ready (gw_config g) = true →
      String.eqb id' id && ready = false → not_ready id g → not_ready id g') as Hload.
  { intros id' active kv ready. simpl. split; [rewrite update_replica_ids; [done|by right]|].
    intros id Hreq Hne Hg r Hr Hid. unfold InferenceGateway.update_load in Hr. rewrite Hreq in Hr. simpl in Hr.
    apply update_replica_elem in Hr as [?|(r0 & ? & <- & ->)]; [by apply Hg|]. simpl in *.
    rewrite Hid, String.eqb_refl in Hne. done. }
  destruct e as [r|id' active kv ready|id' ready|id'|q|cp]; simpl.
  - eexists. split; [done|]. split; [by apply register_replica_NoDup|]. split; [done|].
    intros id _ Hne Hg r' [->|Hr']%register_replica_elem Hid; [|by apply Hg].
    rewrite Hid, String.eqb_refl in Hne. done.
  - eexists. split; [done|]. by destruct (Hload id' active kv ready).
  - eexists. split; [done|]. unfold InferenceGateway.set_ready.
    destruct (List.find _ _) as [r|]; [|by auto].
    by destruct (Hload id' (rep_active_sequences r) (rep_kv_pressure_pct r) ready).
  - eexists. split; [done|]. unfold InferenceGateway.remove_replica, Router.remove_replica.
    simpl. pose proof (take_replica_ids_sub id' (replicas (gw_router g))) as Hsub.
    pose proof (take_replica_elem id' (replicas (gw_router g))) as Hel.
    destruct (take_replica id' _) as [o rs] eqn:Htk. simpl in *. split; [by eauto with justapi|].
    split; [done|]. intros id _ _ Hg r Hr. simpl in Hr. rewrite Htk in Hr.
    by apply Hg, Hel.
  - destruct (route_replicas q g) as (d & g' & -> & Hrs & Hcfg & _). exists g'. simpl.
    split; [done|]. rewrite Hrs. split_and!; try done.
    intros id _ _ Hg r. rewrite Hrs. apply Hg.
  - by eexists.
Qed.

(** Marking a pod not ready reaches its replica, ids being distinct. *)
Lemma set_ready_false id g :
  distinct g → gw_require_ready (gw_config g) = true →
  not_ready id (InferenceGateway.set_ready id false g).
Proof.
  unfold distinct, InferenceGateway.set_ready. intros Hd Hreq.
  destruct (List.find _ _) as [r|] eqn:Hf.
  - intros r' Hr' Hid. unfold InferenceGateway.update_load in Hr'. rewrite Hreq in Hr'.
    simpl in Hr'. rewrite update_replica_NoDup in Hr' by done.
    apply list_elem_of_fmap in Hr' as (r0 & -> & _).
    destruct (String.eqb_spec (rep_id r0) id); simpl in *; [done|congruence].
  - intros r Hr Hid. apply find_absent in Hf. rewrite Forall_forall in Hf.
    specialize (Hf r Hr). simpl in Hf. by rewrite Hid, String.eqb_refl in Hf.
Qed.

Lemma gw_run_ok es g :
  distinct g → ∃ g', mfold gw_step g es = Ret g' ∧ distinct g' ∧ gw_config g' = gw_config g ∧
    ∀ id, gw_require_ready (gw_config g) = true →
      forallb (λ e, negb (readies id e)) es = true → not_ready id g → not_ready id g'.
Proof.
  revert g. induction es as [|e es IH]; intros g Hd; simpl; [by exists g|].
  destruct (gw_step_ok g e Hd) as (g1 & -> & Hd1 & Hc1 & H1). simpl.
  destruct (IH g1 Hd1) as (g2 & -> & Hd2 & Hc2 & H2). exists g2. rewrite <- Hc1.
  split_and!; try done. intros id Hreq [He%negb_true_iff Hes]%andb_true_iff Hg.
  apply H2; [done..|]. apply H1; [congruence|done|done].
Qed.

(** Once a pod is marked not ready it receives no request, whatever else
    happens, until it is registered again or reported ready; a request that is
    routed goes to a registered replica that is eligible for the target the
    control plane resolves, and the best one under the strategy, and under the
    default template its endpoint is that replica's service name. *)
Theorem gateway_not_ready c es1 id es2 q :
  gw_require_ready c = true →
  gw_service_template c = gw_service_template GatewayConfig_default →
  brace_free (gw_namespace c) = true →
  forallb (λ e, negb (readies id e)) es2 = true →
  ∃ g d g', mfold gw_step (InferenceGateway.new c) (es1 ++ SetReady id false :: es2) = Ret g ∧
    InferenceGateway.route q g = Ret (d, g') ∧
    match d with
    | None => True
    | Some d =>
        gd_replica d ≠ id ∧
        ControlPlane.resolve (rq_model q) (rq_version q) (rq_routing_key q)
          (InferenceGateway.control_plane g) = Some (gd_resolved d) ∧
        (∃ r, r ∈ replicas (InferenceGateway.router g) ∧ rep_id r = gd_replica d ∧
              eligible (gd_resolved d) r ∧ best (InferenceGateway.router g) (gd_resolved d) r) ∧
        (brace_free (gd_replica d) = true →
         gd_endpoint d = String.append (gd_replica d) (String.append "."
           (String.append (gw_namespace c) ".svc.cluster.local")))
    end.
Proof.
  intros Hreq Ht Hn Hes.
  assert (distinct (InferenceGateway.new c)) as Hd0 by constructor.
  destruct (gw_run_ok es1 _ Hd0) as (g1 & Hg1 & Hd1 & Hc1 & _).
  rewrite mfold_app, Hg1. simpl in *.
  destruct (gw_step_ok g1 (SetReady id false) Hd1) as (g2 & Hg2 & Hd2 & Hc2 & _).
  injection Hg2 as <-.
  destruct (gw_run_ok es2 _ Hd2) as (g & -> & _ & Hc & Hnr).
  specialize (Hnr id). rewrite Hc2, Hc1 in Hnr. specialize (Hnr Hreq Hes).
  assert (gw_config g = c) as Hcfg by congruence.
  assert (not_ready id g) as Hg by (apply Hnr, set_ready_false; congruence).
  destruct (route_replicas q g) as (d & g' & Hr & _ & _ & Hdec). exists g, d, g'.
  split; [done|]. split; [done|]. destruct d as [d|]; [|done].
  destruct Hdec as (Hres & Hend & r & Hin & Hid & Hel & Hb). split_and!; [|done|by exists r|].
  - intros <-. specialize (Hg r Hin Hid). destruct Hel as (_ & _ & Hh & _). congruence.
  - intros Hbf. rewrite Hend, endpoint_default; by rewrite ?Hcfg.
Qed.

Definition ex_gateway_events : list GatewayEvent :=
  [Control ex_cp; Register (ex_replica "pod-1" 1 40 ["math"%string]);
   Register (ex_replica "pod-2" 1 20 ["math"%string])].

(** The pod with the emptier cache takes the request, and the other one once
    it is not ready. *)
Example ex_gateway_run :
  (λ es, match mfold gw_step (InferenceGateway.new GatewayConfig_default) es with
         | Ret g => match InferenceGateway.route ex_request g with
                    | Ret (d, _) => fmap (M:=option) gd_endpoint d
                    | Panic => None
                    end
         | Panic => None
         end) <$> [ex_gateway_events; ex_gateway_events ++ [SetReady "pod-2" false]]
  = [Some "pod-2.justapi.svc.cluster.local"%string;
     Some "pod-1.justapi.svc.cluster.local"%string].
Proof. vm_compute. reflexivity. Qed.

Lemma gateway_not_ready_witness :
  ∃ g d g', mfold gw_step (InferenceGateway.new GatewayConfig_default)
              (ex_gateway_events ++ [SetReady "pod-2" false;
                                     UpdateLoad "pod-1" 2 (f32_of_Z 60) true]) = Ret g ∧
    InferenceGateway.route ex_request g = Ret (d, g') ∧
    match d with Some d => gd_replica d ≠ "pod-2"%string | None => True end.
Proof.
  destruct (gateway_not_ready GatewayConfig_default ex_gateway_events "pod-2"
    [UpdateLoad "pod-1" 2 (f32_of_Z 60) true] ex_request) as (g & d & g' & Hg & Hr & Hd);
    [reflexivity..|].
  exists g, d, g'. split; [exact Hg|]. split; [exact Hr|].
  destruct d as [d|]; [exact (proj1 Hd)|exact I].
Defined.
