(* ===== verification/Metrics.v ===== *)
(** * Metrics: the counters of the server, their histogram and their text

    [crates/justapi-core/src/metrics.rs].  A counter is an [AtomicU64]: one
    [fetch_add] or [fetch_sub], which wraps, is one step, and an operation is
    the list of its steps, which those of other threads may interleave.  A
    provider of extra lines reads a state [P] that is not this module's.  A
    poisoned mutex is recovered by the code, so the list of the providers is
    plain state. *)

From Stdlib Require Import Ascii SpecFloat.
From S2P Require Import Prelude F32 Text F64 Http.

#[local] Open Scope string_scope.
#[local] Open Scope Z_scope.

(** ** The latency histogram *)

Definition LATENCY_BUCKETS_MS : list f64 := Eval vm_compute in
  (λ s, default f64_zero (parse_f64 s)) <$>
    ["1.0"; "2.5"; "5.0"; "10.0"; "25.0"; "50.0"; "100.0"; "250.0"; "500.0"; "1000.0"; "2500.0";
     "5000.0"; "10000.0"].

(** The boundaries as [Display] writes them. *)
Definition bucket_labels : list string :=
  ["1"; "2.5"; "5"; "10"; "25"; "50"; "100"; "250"; "500"; "1000"; "2500"; "5000"; "10000"].

Record LatencyHist := mk_hist { buckets : list Z; hist_count : Z; sum_us : Z }.

Definition hist_new : LatencyHist := mk_hist (replicate (length LATENCY_BUCKETS_MS) 0) 0 0.

(** The bucket [record] adds to: the first whose boundary is not below. *)
Fixpoint bucket_of (thresholds : list f64) (latency_ms : f64) : option nat :=
  match thresholds with
  | [] => None
  | t :: ts => if f32_le latency_ms t then Some O else S <$> bucket_of ts latency_ms
  end.

Definition micros (latency_ms : f64) : Z := f64_to_u64 (f64_mul latency_ms (f64_of_Z 1000)).

(** [(count, sum_ms, buckets)] *)
Definition hist_snapshot (h : LatencyHist) : Z * f64 * list Z :=
  (hist_count h, f64_div (f64_of_Z (sum_us h)) (f64_of_Z 1000), buckets h).

(** ** The counters *)

Section metrics.
Context {P : Type}.

Record Metrics := mk_metrics {
  requests_total : Z;
  errors_total : Z;
  bytes_in : Z;
  bytes_out : Z;
  active_connections : Z;
  status_2xx : Z;
  status_3xx : Z;
  status_4xx : Z;
  status_5xx : Z;
  latency : LatencyHist;
  extra_providers : list (P → string) }.

Definition metrics_new : Metrics := mk_metrics 0 0 0 0 0 0 0 0 0 hist_new [].

Inductive counter :=
| Requests | Errors | BytesIn | BytesOut | Connections | Status2 | Status3 | Status4 | Status5
| LatencyCount | LatencySum | LatencyBucket (i : nat).

(** One [fetch_add(n)] of a counter; a [fetch_sub(1)] adds [-1]. *)
Definition fetch_add (c : counter) (n : Z) (m : Metrics) : Metrics :=
  let 'mk_metrics r e bi bo a s2 s3 s4 s5 h ps := m in
  let 'mk_hist b k s := h in
  match c with
  | Requests => mk_metrics (wadd64 r n) e bi bo a s2 s3 s4 s5 h ps
  | Errors => mk_metrics r (wadd64 e n) bi bo a s2 s3 s4 s5 h ps
  | BytesIn => mk_metrics r e (wadd64 bi n) bo a s2 s3 s4 s5 h ps
  | BytesOut => mk_metrics r e bi (wadd64 bo n) a s2 s3 s4 s5 h ps
  | Connections => mk_metrics r e bi bo (wadd64 a n) s2 s3 s4 s5 h ps
  | Status2 => mk_metrics r e bi bo a (wadd64 s2 n) s3 s4 s5 h ps
  | Status3 => mk_metrics r e bi bo a s2 (wadd64 s3 n) s4 s5 h ps
  | Status4 => mk_metrics r e bi bo a s2 s3 (wadd64 s4 n) s5 h ps
  | Status5 => mk_metrics r e bi bo a s2 s3 s4 (wadd64 s5 n) h ps
  | LatencyCount => mk_metrics r e bi bo a s2 s3 s4 s5 (mk_hist b (wadd64 k n) s) ps
  | LatencySum => mk_metrics r e bi bo a s2 s3 s4 s5 (mk_hist b k (wadd64 s n)) ps
  | LatencyBucket i => mk_metrics r e bi bo a s2 s3 s4 s5 (mk_hist (alter (λ x, wadd64 x n) i b) k s) ps
  end.

(** The steps of an operation, in the order of the code. *)
Definition steps : Type := list (counter * Z).

Definition run_steps (l : steps) (m : Metrics) : Metrics :=
  fold_left (λ m s, fetch_add s.1 s.2 m) l m.

Definition record_request : steps := [(Requests, 1)].
Definition record_error : steps := [(Errors, 1)].
Definition add_bytes_in (n : Z) : steps := [(BytesIn, n)].
Definition add_bytes_out (n : Z) : steps := [(BytesOut, n)].
Definition connection_opened : steps := [(Connections, 1)].
Definition connection_closed : steps := [(Connections, -1)].

Definition between (a x b : Z) : bool := (a <=? x) && (x <=? b).

Definition record_status (code : Z) : steps :=
  if between 200 code 299 then [(Status2, 1)]
  else if between 300 code 399 then [(Status3, 1)]
  else if between 400 code 499 then [(Status4, 1)]
  else if between 500 code 599 then [(Status5, 1)]
  else [].

Definition record_latency (latency_ms : f64) : steps :=
  (LatencyCount, 1) :: (LatencySum, micros latency_ms) ::
  match bucket_of LATENCY_BUCKETS_MS latency_ms with Some i => [(LatencyBucket i, 1)] | None => [] end.

Definition register_extra_provider (p : P → string) (m : Metrics) : Metrics :=
  mk_metrics (requests_total m) (errors_total m) (bytes_in m) (bytes_out m) (active_connections m)
    (status_2xx m) (status_3xx m) (status_4xx m) (status_5xx m) (latency m) (extra_providers m ++ [p])%list.

(** ** Percentiles *)

Record Percentiles := mk_percentiles { p50 : f64; p95 : f64; p99 : f64; p999 : f64 }.

Definition last_bucket : f64 := default f64_zero (last LATENCY_BUCKETS_MS).

(** The loop of [compute] from the bucket at [i]. *)
Fixpoint compute_from (target : f64) (i : nat) (cumulative : Z) (bs : list Z) : f64 :=
  match bs with
  | [] => last_bucket
  | b :: bs' =>
      let cumulative := wadd64 cumulative b in
      if f32_ge (f64_of_Z cumulative) target
      then nth (i `min` (length LATENCY_BUCKETS_MS - 1)) LATENCY_BUCKETS_MS f64_zero
      else compute_from target (S i) cumulative bs'
  end.

Definition compute (h : LatencyHist) (pct : f64) : f64 :=
  compute_from (f64_mul (f64_of_Z (hist_count h)) pct) 0 0 (buckets h).

Definition f64_lit (s : string) : f64 := default f64_zero (parse_f64 s).

Definition percentiles (m : Metrics) : option Percentiles :=
  let h := latency m in
  if hist_count h =? 0 then None
  else Some (mk_percentiles (compute h (f64_lit "0.50")) (compute h (f64_lit "0.95"))
               (compute h (f64_lit "0.99")) (compute h (f64_lit "0.999"))).

(** ** The text *)

(** The two comment lines of a metric. *)
Definition preamble (name help kind : string) : string :=
  "# HELP " +:+ name +:+ " " +:+ help +:+ newline +:+ "# TYPE " +:+ name +:+ " " +:+ kind +:+ newline.

Definition sample (name value : string) : string := name +:+ " " +:+ value +:+ newline.

Definition metric (name help kind : string) (value : Z) : string :=
  preamble name help kind +:+ sample name (decimal value).

Definition labelled (name label value : string) : string :=
  name +:+ "{" +:+ label +:+ "=" +:+ quote +:+ value +:+ quote +:+ "}".

Definition status_line (class : string) (n : Z) : string :=
  sample (labelled "justapi_requests_by_status" "code" class) (decimal n).

Definition bucket_line (le : string) (n : Z) : string :=
  sample (labelled "justapi_request_duration_ms_bucket" "le" le) (decimal n).

Definition bucket_lines (bs : list Z) : string :=
  join EmptyString (imap (λ i n, bucket_line (nth (i `min` (length LATENCY_BUCKETS_MS - 1)) bucket_labels "") n) bs).

Definition prometheus (m : Metrics) (p : P) : string :=
  let '(count, sum_ms, bs) := hist_snapshot (latency m) in
  metric "justapi_requests_total" "Total number of requests." "counter" (requests_total m)
  +:+ metric "justapi_errors_total" "Total number of errors." "counter" (errors_total m)
  +:+ metric "justapi_bytes_in_total" "Total bytes received." "counter" (bytes_in m)
  +:+ metric "justapi_bytes_out_total" "Total bytes sent." "counter" (bytes_out m)
  +:+ metric "justapi_active_connections" "Current active connections." "gauge" (active_connections m)
  +:+ preamble "justapi_requests_by_status" "Requests by HTTP status code class." "counter"
  +:+ status_line "2xx" (status_2xx m) +:+ status_line "3xx" (status_3xx m)
  +:+ status_line "4xx" (status_4xx m) +:+ status_line "5xx" (status_5xx m)
  +:+ preamble "justapi_request_duration_ms" "Request latency in milliseconds." "histogram"
  +:+ sample "justapi_request_duration_ms_count" (decimal count)
  +:+ sample "justapi_request_duration_ms_sum" (f64_fixed3 sum_ms)
  +:+ bucket_lines bs
  +:+ bucket_line "+Inf" count
  +:+ join EmptyString ((λ f, f p) <$> extra_providers m).

(** ** The probes *)

Definition health_response : Response :=
  json_response 200 ("{" +:+ quote +:+ "status" +:+ quote +:+ ":" +:+ quote +:+ "ok" +:+ quote +:+ "}").
Definition ready_response : Response := json_response 200 ("{" +:+ quote +:+ "ready" +:+ quote +:+ ":true}").
Definition live_response : Response := json_response 200 ("{" +:+ quote +:+ "alive" +:+ quote +:+ ":true}").

Definition metrics_response (m : Metrics) (p : P) : Response :=
  let b := prometheus m p in
  mk_response 200 [("content-type", "text/plain; version=0.0.4"); content_length b] b.
End metrics.

Arguments Metrics : clear implicits.

(** ** Interleavings *)

Lemma wadd64_swap a x y : wadd64 (wadd64 a x) y = wadd64 (wadd64 a y) x.
Proof. unfold wadd64. rewrite !Zplus_mod_idemp_l. f_equal. lia. Qed.

Section interleaving.
Context {P : Type}.
Implicit Types m : Metrics P.

Lemma fetch_add_comm c n c' n' m :
  fetch_add c n (fetch_add c' n' m) = fetch_add c' n' (fetch_add c n m).
Proof.
  destruct m as [? ? ? ? ? ? ? ? ? [b ? ?] ?], c, c'; simpl; try reflexivity;
    try (by rewrite wadd64_swap).
  do 2 f_equal. apply list_eq. intros j.
  rewrite !list_lookup_alter. repeat case_decide; simplify_eq; try done.
  destruct (b !! _); [|done]. simpl. by rewrite wadd64_swap.
Qed.

Lemma run_steps_app l k m : run_steps (l ++ k)%list m = run_steps k (run_steps l m).
Proof. unfold run_steps. apply fold_left_app. Qed.

Lemma run_steps_perm l k m : l ≡ₚ k → run_steps l m = run_steps k m.
Proof.
  intros Hp. revert m. induction Hp as [|[c n] l k _ IH|[c n] [c' n'] l|l k j _ IH1 _ IH2]; intros m.
  - done.
  - apply IH.
  - unfold run_steps. simpl. by rewrite fetch_add_comm.
  - by rewrite IH1.
Qed.

(** Operations do not disturb each other.  Each operation on the metrics
    is a list of atomic steps; however the steps of any number of operations
    are interleaved, by any number of threads, the metrics end as if the
    operations had run one after the other, in any order. *)
Theorem metrics_interleave (ops ops' : list steps) (trace : steps) m :
  ops ≡ₚ ops' → trace ≡ₚ concat ops →
  run_steps trace m = fold_left (λ m op, run_steps op m) ops' m.
Proof.
  intros Hops Htrace. rewrite Hops in Htrace. rewrite (run_steps_perm _ _ m Htrace).
  clear. revert m. induction ops' as [|op ops IH]; intros m; [done|].
  simpl. by rewrite run_steps_app, IH.
Qed.
End interleaving.

(** ** The histogram holds its samples *)

Lemma boundaries_sorted : StronglySorted (λ a b, f32_le a b = true) LATENCY_BUCKETS_MS.
Proof. repeat constructor. Qed.

Lemma boundaries_numbers : Forall (λ t, is_nan t = false) LATENCY_BUCKETS_MS.
Proof. repeat constructor. Qed.

(** A sample lies in one of the first buckets, up to [k], when it is at most
    the boundary of [k]. *)
Lemma bucket_of_upto ts k t x :
  StronglySorted (λ a b, f32_le a b = true) ts → Forall (λ t, is_nan t = false) ts →
  ts !! k = Some t →
  match bucket_of ts x with Some j => Nat.leb j k | None => false end = f32_le x t.
Proof.
  intros Hs. revert k. induction Hs as [|u ts Hs IH Hu]; intros k Hn Hk; [done|].
  apply Forall_cons in Hn as [Hun Hn]. simpl. destruct (f32_le x u) eqn:Hx.
  - destruct k as [|k]; [by injection Hk as ->|]. symmetry. apply (f32_le_trans x u t); [done..|].
    rewrite Forall_forall in Hu. apply Hu. by eapply list_elem_of_lookup_2.
  - destruct k as [|k]; [injection Hk as ->; rewrite Hx; by destruct (bucket_of ts x)|].
    rewrite <- (IH k Hn Hk). by destruct (bucket_of ts x).
Qed.

(** The number of samples up to a boundary. *)
Definition at_most (ls : list f64) (t : f64) : nat := count (λ x, f32_le x t) ls.

Definition in_bucket (i : nat) (x : f64) : bool := bool_decide (bucket_of LATENCY_BUCKETS_MS x = Some i).

Definition bucket_counts (ls : list f64) (i : nat) : Z := Z.of_nat (count (in_bucket i) ls).

Definition total (bs : list Z) : Z := foldr Z.add 0 bs.

Lemma total_app a b : total (a ++ b)%list = total a + total b.
Proof. unfold total. induction a; simpl; lia. Qed.

Lemma option_sum (o : option nat) k :
  total ((λ i, Z.of_nat (bnat (bool_decide (o = Some i)))) <$> seq 0 (S k)) =
  Z.of_nat (bnat (match o with Some j => Nat.leb j k | None => false end)).
Proof.
  induction k as [|k IH]; [by destruct o as [[|j]|]|].
  rewrite seq_S, fmap_app, total_app, IH. cbn [fmap list_fmap total foldr plus].
  destruct o as [j|]; [|reflexivity]. destruct (decide (j = S k)) as [->|Hj].
  - rewrite bool_decide_true by done. rewrite (proj2 (Nat.leb_gt (S k) k)), Nat.leb_refl by lia.
    reflexivity.
  - rewrite bool_decide_false by congruence.
    destruct (Nat.leb_spec j k), (Nat.leb_spec j (S k)); simpl; lia.
Qed.

Lemma total_at_most ls k t :
  LATENCY_BUCKETS_MS !! k = Some t →
  total (bucket_counts ls <$> seq 0 (S k)) = Z.of_nat (at_most ls t).
Proof.
  intros Hk. induction ls as [|x ls IH].
  - unfold bucket_counts, at_most. simpl count. generalize (seq 0 (S k)). intros l.
    induction l as [|i l IHl]; [done|exact IHl].
  - unfold at_most in *. simpl count.
    rewrite <- (bucket_of_upto LATENCY_BUCKETS_MS k t x boundaries_sorted boundaries_numbers Hk).
    rewrite Nat2Z.inj_add, <- IH, <- option_sum. clear. generalize (seq 0 (S k)). intros l.
    induction l as [|i l IHl]; [done|]. cbn [fmap list_fmap total foldr] in *.
    unfold total in *. rewrite IHl. unfold bucket_counts. simpl count.
    unfold in_bucket at 1. lia.
Qed.

(** ** Percentiles are read off the samples *)

Lemma record_latency_hist {P} x (m : Metrics P) :
  hist_count (latency (run_steps (record_latency x) m)) = wadd64 (hist_count (latency m)) 1 ∧
  buckets (latency (run_steps (record_latency x) m)) =
    match bucket_of LATENCY_BUCKETS_MS x with
    | Some i => alter (λ n, wadd64 n 1) i (buckets (latency m))
    | None => buckets (latency m)
    end.
Proof.
  unfold record_latency. generalize (micros x). intros us.
  destruct m as [? ? ? ? ? ? ? ? ? [b k s] ?], (bucket_of _ x); by split.
Qed.

(** Metrics that recorded these latencies. *)
Definition recorded {P} (ls : list f64) : Metrics P :=
  run_steps (concat (record_latency <$> ls)) metrics_new.

Lemma bucket_of_lt ts x i : bucket_of ts x = Some i → (i < length ts)%nat.
Proof.
  revert i. induction ts as [|t ts IH]; intros i; [done|]. simpl. destruct (f32_le x t).
  - intros [= <-]. lia.
  - destruct (bucket_of ts x) as [j|]; [|done]. intros [= <-]. specialize (IH j eq_refl). lia.
Qed.

Lemma bucket_counts_snoc ls x i :
  bucket_counts (ls ++ [x])%list i = bucket_counts ls i + Z.of_nat (bnat (in_bucket i x)).
Proof. unfold bucket_counts. rewrite count_app. simpl. lia. Qed.

Lemma recorded_hist {P} ls :
  Z.of_nat (length ls) <= u64_max →
  hist_count (latency (recorded (P := P) ls)) = Z.of_nat (length ls) ∧
  buckets (latency (recorded (P := P) ls)) = bucket_counts ls <$> seq 0 (length LATENCY_BUCKETS_MS).
Proof.
  induction ls as [|x ls IH] using rev_ind; intros Hl; [by split|].
  rewrite length_app in *. cbn [length] in Hl. destruct IH as [Hk Hb]; [lia|].
  assert (recorded (P := P) (ls ++ [x])%list = run_steps (record_latency x) (recorded ls)) as ->.
  { unfold recorded. rewrite fmap_app, concat_app, run_steps_app. cbn [fmap list_fmap concat]. by rewrite app_nil_r. }
  destruct (record_latency_hist x (recorded (P := P) ls)) as [-> ->]. rewrite Hk, Hb.
  split; [cbn [length]; rewrite wadd64_small; lia|].
  apply list_eq. intros i. rewrite list_lookup_fmap.
  assert (∀ j, bucket_counts ls j < u64_max) as Hlt.
  { intros j. unfold bucket_counts. pose proof (count_le_length (in_bucket j) ls). lia. }
  destruct (bucket_of LATENCY_BUCKETS_MS x) as [j|] eqn:Hj.
  - rewrite list_lookup_alter, !list_lookup_fmap. case_decide as Hij; [subst j|];
      (destruct (seq _ _ !! i) as [i'|] eqn:Hi; [|done]); simpl;
      apply lookup_seq in Hi as [-> _]; cbn [Nat.add]; rewrite bucket_counts_snoc;
      unfold in_bucket; rewrite Hj.
    + rewrite bool_decide_true by done. simpl. rewrite wadd64_small; [done|].
      specialize (Hlt i). unfold bucket_counts in *. lia.
    + rewrite bool_decide_false by congruence. simpl. f_equal. lia.
  - rewrite list_lookup_fmap. destruct (seq _ _ !! i); [|done]. simpl.
    rewrite bucket_counts_snoc. unfold in_bucket. rewrite Hj. simpl. f_equal. lia.
Qed.

(** The boundary of [i] is reached when the samples up to it are as many as
    [target]. *)
Definition reached (target : f64) (n : Z) : bool := f32_ge (f64_of_Z n) target.

Lemma compute_from_spec target i cum bs :
  (i + length bs = length LATENCY_BUCKETS_MS)%nat → 0 <= cum → Forall (λ b, 0 <= b) bs →
  cum + total bs <= u64_max →
  (∃ k t, LATENCY_BUCKETS_MS !! (i + k)%nat = Some t ∧ compute_from target i cum bs = t ∧
     (k < length bs)%nat ∧ reached target (cum + total (take (S k) bs)) = true ∧
     ∀ j, (j < k)%nat → reached target (cum + total (take (S j) bs)) = false) ∨
  (compute_from target i cum bs = last_bucket ∧
   ∀ j, (j < length bs)%nat → reached target (cum + total (take (S j) bs)) = false).
Proof.
  revert i cum. induction bs as [|b bs IH]; intros i cum Hi Hc Hb Hs; [right; split; [done|simpl; lia]|].
  apply Forall_cons in Hb as [Hb0 Hb]. cbn [compute_from length total foldr] in *. fold (total bs) in *.
  assert (0 <= total bs) by (clear -Hb; induction Hb; simpl; lia).
  rewrite wadd64_small by lia. change (f32_ge (f64_of_Z ?n) target) with (reached target n).
  destruct (reached target (cum + b)) eqn:Hr.
  - left. destruct (lookup_lt_is_Some_2 LATENCY_BUCKETS_MS i) as [t Ht]; [lia|].
    exists 0%nat, t. rewrite Nat.add_0_r. split; [done|].
    replace (i `min` _)%nat with i by lia. split; [by apply nth_lookup_Some|].
    split; [lia|]. split; [|lia]. cbn [take total foldr]. by rewrite take_0, Z.add_0_r.
  - specialize (IH (S i) (cum + b)).
    assert (∀ j, cum + total (take (S (S j)) (b :: bs)) = cum + b + total (take (S j) bs)) as Hshift.
    { intros j. cbn [take total foldr]. fold (total (take (S j) bs)). lia. }
    assert (reached target (cum + total (take 1 (b :: bs))) = false) as H1.
    { cbn [take total foldr]. by rewrite take_0, Z.add_0_r. }
    destruct IH as [(k & t & Ht & Hc' & Hk & Hrt & Hj)|[Hc' Hj]]; [lia|lia|done|lia| |].
    + left. exists (S k), t. replace (i + S k)%nat with (S i + k)%nat by lia.
      repeat split; [done..|lia|by rewrite Hshift|].
      intros [|j] Hlt; [done|]. rewrite Hshift. apply Hj. lia.
    + right. split; [done|]. intros [|j] Hlt; [done|]. rewrite Hshift. apply Hj. lia.
Qed.

(** [p] is the first boundary that has the given share of the samples at or
    below it, and the last boundary when none has. *)
Definition is_percentile (ls : list f64) (pct p : f64) : Prop :=
  let enough t := reached (f64_mul (f64_of_Z (Z.of_nat (length ls))) pct) (Z.of_nat (at_most ls t)) in
  (∃ i, LATENCY_BUCKETS_MS !! i = Some p ∧ enough p = true ∧
     ∀ j t, (j < i)%nat → LATENCY_BUCKETS_MS !! j = Some t → enough t = false) ∨
  (p = last_bucket ∧ ∀ t, t ∈ LATENCY_BUCKETS_MS → enough t = false).

Lemma compute_percentile {P} ls pct :
  Z.of_nat (length ls) <= u64_max → is_percentile ls pct (compute (latency (recorded (P := P) ls)) pct).
Proof.
  intros Hl. destruct (recorded_hist (P := P) ls Hl) as [Hk Hb].
  unfold compute, is_percentile. rewrite Hk, Hb. set (target := f64_mul _ _).
  assert (∀ j t, LATENCY_BUCKETS_MS !! j = Some t →
    total (take (S j) (bucket_counts ls <$> seq 0 (length LATENCY_BUCKETS_MS))) = Z.of_nat (at_most ls t)) as Htake.
  { intros j t Ht. rewrite <- (total_at_most ls j t Ht), <- fmap_take, take_seq.
    apply lookup_lt_Some in Ht. by rewrite Nat.min_l by lia. }
  destruct (compute_from_spec target 0 0 (bucket_counts ls <$> seq 0 (length LATENCY_BUCKETS_MS)))
    as [(k & t & Ht & -> & _ & Hr & Hj)|[-> Hj]].
  - by rewrite length_fmap, length_seq.
  - lia.
  - apply Forall_forall. intros b (i & -> & _)%list_elem_of_fmap. unfold bucket_counts. lia.
  - change (length LATENCY_BUCKETS_MS) with 13%nat. rewrite (total_at_most ls 12 _ eq_refl). unfold at_most.
    pose proof (count_le_length (λ x, f32_le x (last_bucket)) ls). unfold last_bucket in *. simpl in *. lia.
  - left. exists k. rewrite Z.add_0_l, (Htake k t Ht) in Hr. split; [done|]. split; [done|].
    intros j u Hlt Hu. specialize (Hj j Hlt). by rewrite Z.add_0_l, (Htake j u Hu) in Hj.
  - right. split; [done|]. intros t (j & Ht)%list_elem_of_lookup_1.
    rewrite <- (Htake j t Ht), <- (Z.add_0_l (total _)). apply Hj.
    rewrite length_fmap, length_seq. by eapply lookup_lt_Some.
Qed.

(** Percentiles are those of the samples.  After any recorded latencies
    (fewer than 2^64), there are percentiles when there is a sample, and each
    of the four is the first boundary of the histogram that has its share of
    the samples at or below it, or the last boundary when no boundary has. *)
Theorem percentiles_exact {P} (ls : list f64) :
  Z.of_nat (length ls) <= u64_max →
  match percentiles (recorded (P := P) ls) with
  | None => ls = []
  | Some q => ls ≠ [] ∧ is_percentile ls (f64_lit "0.50") (p50 q) ∧ is_percentile ls (f64_lit "0.95") (p95 q) ∧
              is_percentile ls (f64_lit "0.99") (p99 q) ∧ is_percentile ls (f64_lit "0.999") (p999 q)
  end.
Proof.
  intros Hl. destruct (recorded_hist (P := P) ls Hl) as [Hk _]. unfold percentiles. rewrite Hk.
  destruct (Z.eqb_spec (Z.of_nat (length ls)) 0) as [H0|H0]; [by destruct ls|].
  split; [by intros ->|]. cbn [p50 p95 p99 p999]. repeat split; by apply compute_percentile.
Qed.

(** ** Concrete metrics *)

Module Examples.

Definition ex_latencies : list f64 := f64_lit <$> ["0.4"; "7.5"; "7.5"; "20000"].

Definition ex_metrics : Metrics unit := recorded ex_latencies.

Example ex_buckets : buckets (latency ex_metrics) = [1; 0; 0; 2; 0; 0; 0; 0; 0; 0; 0; 0; 0].
Proof. vm_compute. reflexivity. Qed.

(** A text exposition of a histogram counts each bucket with the smaller ones;
    here the bucket up to 25 ms says 0 of the three samples below it. *)
Example buckets_not_cumulative :
  bucket_lines (buckets (latency ex_metrics)) =
  join EmptyString (imap (λ i le, bucket_line le (nth i [1; 0; 0; 2; 0; 0; 0; 0; 0; 0; 0; 0; 0] 0)) bucket_labels).
Proof. vm_compute. reflexivity. Qed.

(** A snapshot between two steps of a recording counts a sample no bucket has. *)
Example snapshot_torn :
  let m : Metrics unit := run_steps (take 1 (record_latency (f64_lit "3"))) metrics_new in
  hist_count (latency m) = 1 ∧ total (buckets (latency m)) = 0 ∧ sum_us (latency m) = 0.
Proof. vm_compute. auto. Qed.

Lemma percentiles_exact_witness :
  is_percentile ex_latencies (f64_lit "0.50") (f64_lit "10") ∧
  is_percentile ex_latencies (f64_lit "0.95") (f64_lit "10000").
Proof.
  pose proof (percentiles_exact (P := unit) ex_latencies ltac:(vm_compute; discriminate)) as H.
  change (percentiles (recorded ex_latencies)) with
    (Some (mk_percentiles (f64_lit "10") (f64_lit "10000") (f64_lit "10000") (f64_lit "10000"))) in H.
  destruct H as (_ & H50 & H95 & _). split; [exact H50|exact H95].
Defined.

Lemma metrics_interleave_witness :
  run_steps [(Requests, 1); (Status4, 1); (Requests, 1); (LatencyCount, 1)] (metrics_new (P := unit)) =
  fold_left (λ m op, run_steps op m) [[(Requests, 1); (LatencyCount, 1)]; [(Requests, 1); (Status4, 1)]] metrics_new.
Proof.
  apply (metrics_interleave [[(Requests, 1); (Status4, 1)]; [(Requests, 1); (LatencyCount, 1)]]).
  - apply perm_swap.
  - simpl. do 2 constructor. reflexivity.
Defined.

End Examples.
