(* ===== verification/Health.v ===== *)
(** * Health: the registry of health checks

    [crates/justapi-core/src/health.rs].  A probe reads a state [P] and takes
    some time; [None] is a probe that never ends.  The checks run at the same
    time, each under a timeout.  Durations are nanoseconds. *)

From S2P Require Import Prelude Text Http.

#[local] Open Scope Z_scope.

Inductive HealthStatus := Healthy | Degraded (msg : string) | Unhealthy (msg : string).
Inductive OverallHealth := OverallHealthy | OverallDegraded | OverallUnhealthy.

#[export] Instance HealthStatus_eq_dec : EqDecision HealthStatus.
Proof. solve_decision. Defined.
#[export] Instance OverallHealth_eq_dec : EqDecision OverallHealth.
Proof. solve_decision. Defined.

Record ComponentStatus := mk_component { comp_name : string; comp_status : HealthStatus }.

Record HealthReport := mk_report { components : list ComponentStatus }.

Section registry.
Context {P : Type}.

(** A check's future: its answer and the time it takes. *)
Abbreviation Probe := (P → HealthStatus * option Z).

Record RegisteredCheck := mk_check { check_name : string; check_func : Probe }.

Record HealthRegistry := mk_registry { checks : list RegisteredCheck }.

Definition registry_new : HealthRegistry := mk_registry [].

(** [register] takes a [HealthCheck], a name and its probe; so does
    [register_fn]. *)
Definition register (name : string) (f : Probe) (r : HealthRegistry) : HealthRegistry :=
  mk_registry (checks r ++ [mk_check name f]).

Definition registry_is_empty (r : HealthRegistry) : bool := match checks r with [] => true | _ => false end.

Definition always_healthy : Probe := λ _, (Healthy, Some 0).

(** [db_check]: [health_check] of the pool is a parameter. *)
Definition db_health_check (health_check : P → (string + unit) * option Z) : Probe := λ p,
  let '(res, d) := health_check p in
  (match res with
   | inr _ => Healthy
   | inl e => Unhealthy ("database check failed: " +:+ e)
   end, d).

Definition in_time (check_timeout : Z) (d : option Z) : bool :=
  match d with Some d => d <=? check_timeout | None => false end.

Definition timed_out (name : string) (check_timeout : Z) : HealthStatus :=
  Unhealthy ("health check '" +:+ name +:+ "' timed out after " +:+ decimal (check_timeout / 1000000000) +:+ "s").

(** The outcome of a check: its status, or the timeout's. *)
Definition check_status (check_timeout : Z) (p : P) (c : RegisteredCheck) : HealthStatus :=
  let '(status, d) := check_func c p in
  if in_time check_timeout d then status else timed_out (check_name c) check_timeout.

Definition check_all_with_timeout (check_timeout : Z) (p : P) (r : HealthRegistry) : HealthReport :=
  let outcomes := imap (λ i c, (i, check_name c, check_status check_timeout p c)) (checks r) in
  let sorted := sort_by_key (λ o : nat * string * HealthStatus, Z.of_nat o.1.1) outcomes in
  mk_report ((λ o : nat * string * HealthStatus, mk_component o.1.2 o.2) <$> sorted).

(** The time [join_all] takes: that of its slowest check. *)
Definition check_time (check_timeout : Z) (p : P) (r : HealthRegistry) : Z :=
  foldr (λ c t, Z.max t (match (check_func c p).2 with Some d => Z.min d check_timeout | None => check_timeout end))
    0 (checks r).

Definition five_secs : Z := 5000000000.

Definition check_all (p : P) (r : HealthRegistry) : HealthReport := check_all_with_timeout five_secs p r.
End registry.

Arguments RegisteredCheck : clear implicits.
Arguments HealthRegistry : clear implicits.

Fixpoint overall_from (has_degraded : bool) (cs : list ComponentStatus) : OverallHealth :=
  match cs with
  | [] => if has_degraded then OverallDegraded else OverallHealthy
  | c :: cs' =>
      match comp_status c with
      | Unhealthy _ => OverallUnhealthy
      | Degraded _ => overall_from true cs'
      | Healthy => overall_from has_degraded cs'
      end
  end.

Definition overall (r : HealthReport) : OverallHealth := overall_from false (components r).

(** The three [Serialize] instances; the status is a sorted map of strings. *)
Definition health_status_json (s : HealthStatus) : json :=
  match s with
  | Healthy => JObject [("status"%string, JString "healthy")]
  | Degraded msg => JObject [("message"%string, JString msg); ("status"%string, JString "degraded")]
  | Unhealthy msg => JObject [("message"%string, JString msg); ("status"%string, JString "unhealthy")]
  end.

Definition component_json (c : ComponentStatus) : json :=
  JObject [("name"%string, JString (comp_name c)); ("status"%string, health_status_json (comp_status c))].

Definition overall_str (o : OverallHealth) : string :=
  match o with
  | OverallHealthy => "healthy" | OverallDegraded => "degraded" | OverallUnhealthy => "unhealthy"
  end.

Definition report_json (r : HealthReport) : json :=
  JObject [("status"%string, JString (overall_str (overall r)));
           ("components"%string, JArray (component_json <$> components r))].

Definition overall_code (o : OverallHealth) : Z :=
  match o with OverallHealthy | OverallDegraded => 200 | OverallUnhealthy => 503 end.

(** Strings and maps of strings always serialise, so the fallback body of the
    code is never sent. *)
Definition registry_response `{!SerdeJson} {P} (p : P) (r : HealthRegistry P) : Response :=
  let report := check_all p r in
  json_response (overall_code (overall report)) (json_to_string (report_json report)).

(** ** The report *)

Section report.
Context {P : Type}.
Implicit Types (p : P) (r : HealthRegistry P).

Lemma check_all_components t p r :
  components (check_all_with_timeout t p r) =
  (λ c, mk_component (check_name c) (check_status t p c)) <$> checks r.
Proof.
  unfold check_all_with_timeout. simpl. generalize (checks r). intros l.
  rewrite sort_by_key_id.
  - apply list_eq. intros i. rewrite !list_lookup_fmap, list_lookup_imap. by destruct (l !! i).
  - change (imap (λ i c, (i, check_name c, check_status t p c)) l)
      with (imap (λ i c, ((0 + i)%nat, check_name c, check_status t p c)) l).
    generalize 0%nat. induction l as [|c l IH]; intros n; [constructor|]. rewrite imap_cons.
    constructor.
    + rewrite (imap_ext _ (λ i c, ((S n + i)%nat, check_name c, check_status t p c)))
        by (intros; simpl; do 3 f_equal; lia). apply IH.
    + apply Forall_forall. intros o (i & x & -> & _)%elem_of_lookup_imap. simpl. lia.
Qed.

Lemma overall_from_spec b cs :
  overall_from b cs =
    if existsb (λ c, match comp_status c with Unhealthy _ => true | _ => false end) cs then OverallUnhealthy
    else if b || existsb (λ c, match comp_status c with Degraded _ => true | _ => false end) cs
    then OverallDegraded else OverallHealthy.
Proof.
  revert b. induction cs as [|c cs IH]; intros b; simpl; [by rewrite orb_false_r|].
  destruct (comp_status c); simpl; rewrite ?IH, ?orb_true_r; done.
Qed.

(** The check is out of order: it says so, or it does not answer in time. *)
Definition failing (t : Z) p (c : RegisteredCheck P) : Prop :=
  in_time t (check_func c p).2 = false ∨ ∃ msg, (check_func c p).1 = Unhealthy msg.

Lemma check_status_unhealthy t p c :
  (∃ msg, check_status t p c = Unhealthy msg) ↔ failing t p c.
Proof.
  unfold check_status, failing, timed_out. destruct (check_func c p) as [s d]. simpl.
  destruct (in_time t d); naive_solver.
Qed.

Lemma check_time_bound t p r : 0 <= t → 0 <= check_time t p r <= t.
Proof.
  intros Ht. unfold check_time. induction (checks r) as [|c l IH]; simpl; [lia|].
  destruct (check_func c p).2; lia.
Qed.
End report.

(** The readiness answer reports every check.  It is 503 exactly when some
    check is out of order or does not answer in five seconds, else 200; its
    body lists the checks in the order they were registered, each with its own
    status or the timeout's; and the answer takes at most five seconds,
    whatever the number of checks. *)
Theorem health_contract `{!SerdeJson} {P} (p : P) (r : HealthRegistry P) :
  let resp := registry_response p r in
  let cs := (λ c, mk_component (check_name c) (check_status five_secs p c)) <$> checks r in
  status resp ∈ [200; 503] ∧
  (status resp = 503 ↔ ∃ c, c ∈ checks r ∧ failing five_secs p c) ∧
  body resp = json_to_string
    (JObject [("status"%string, JString (overall_str (overall (mk_report cs))));
              ("components"%string, JArray (component_json <$> cs))]) ∧
  (overall (mk_report cs) = OverallHealthy ↔ ∀ c, c ∈ cs → comp_status c = Healthy) ∧
  0 <= check_time five_secs p r <= five_secs.
Proof.
  intros resp cs. subst resp. unfold registry_response, check_all, report_json, overall.
  rewrite check_all_components. fold cs. cbn [status body json_response components].
  split_and!.
  - rewrite overall_from_spec. destruct (existsb _ _); simpl; [set_solver|]. destruct (existsb _ _); set_solver.
  - rewrite overall_from_spec. setoid_rewrite <- check_status_unhealthy. split.
    + destruct (existsb _ cs) eqn:He; [|by destruct (false || _)%bool]. intros _.
      apply existsb_exists in He as (x & Hx%list_elem_of_In & Hu).
      apply list_elem_of_fmap in Hx as (c & -> & Hc). exists c. split; [done|].
      simpl in Hu. destruct (check_status five_secs p c); naive_solver.
    + intros (c & Hc & msg & Hm). assert (existsb (λ c, match comp_status c with Unhealthy _ => true | _ => false end) cs = true) as ->.
      { apply existsb_exists. exists (mk_component (check_name c) (check_status five_secs p c)).
        split; [by apply list_elem_of_In, list_elem_of_fmap; eexists|]. simpl. by rewrite Hm. }
      done.
  - done.
  - rewrite overall_from_spec. simpl. clearbody cs. induction cs as [|c cs IH]; [set_solver|]. simpl.
    destruct (comp_status c) eqn:Hc; simpl.
    + rewrite IH. setoid_rewrite elem_of_cons. naive_solver.
    + split; [by destruct (existsb _ _)|]. intros Hall. specialize (Hall c). rewrite Hc in Hall. set_solver.
    + split; [done|]. intros Hall. specialize (Hall c). rewrite Hc in Hall. set_solver.
  - by apply (check_time_bound five_secs p r).
  - by apply (check_time_bound five_secs p r).
Qed.

Module Examples.

#[local] Instance serde : SerdeJson := {| json_to_string _ := "{}"%string |}.

Definition ex_registry : HealthRegistry Z :=
  register "db" (db_health_check (λ w, (if w <? 3 then inr tt else inl "refused"%string, Some 1000000)))
    (register "disk" (λ w, (Degraded "90% full", Some (w * 1000000000))) registry_new).

Example ex_degraded : overall (check_all 2 ex_registry) = OverallDegraded.
Proof. reflexivity. Qed.

Example ex_timeout :
  components (check_all 7 ex_registry) =
    [mk_component "disk" (Unhealthy "health check 'disk' timed out after 5s");
     mk_component "db" (Unhealthy "database check failed: refused")] ∧
  status (registry_response 7 ex_registry) = 503.
Proof. vm_compute. auto. Qed.

End Examples.
