(* ===== verification/Memory.v ===== *)
(** * Memory: the request arena and the pool of buffers

    [crates/justapi-core/src/memory.rs].  The bytes of the arena are a string;
    a slice it hands out is a range of them.  A buffer of the pool is a [Vec]:
    its contents and its capacity.  A poisoned mutex is recovered by the code,
    so a lock is a plain access. *)

From Stdlib Require Import Ascii.
From S2P Require Import Prelude Text.

(** ** The arena *)

Record RequestArena := mk_arena { buffer : list ascii; cursor : nat }.

Definition DEFAULT_ARENA_SIZE : nat := Z.to_nat (16 * 1024).

Definition arena_with_capacity (cap : nat) : RequestArena := mk_arena (replicate cap zero) 0.
Definition arena_new : RequestArena := arena_with_capacity DEFAULT_ARENA_SIZE.

(** A slice borrowed from the arena. *)
Record slice := mk_slice { sl_start : nat; sl_end : nat }.

Definition read_slice (a : RequestArena) (s : slice) : list ascii :=
  take (sl_end s - sl_start s) (drop (sl_start s) (buffer a)).

(** [buffer[start..end].copy_from_slice(bytes)] *)
Definition copy_at (start : nat) (bytes buf : list ascii) : list ascii :=
  take start buf ++ bytes ++ drop (start + length bytes) buf.

Definition alloc (bytes : list ascii) (a : RequestArena) : option slice * RequestArena :=
  let start := cursor a in
  let end_ := start + length bytes in
  if decide (length (buffer a) < end_) then (None, a)
  else (Some (mk_slice start end_), mk_arena (copy_at start bytes (buffer a)) end_).

Definition alloc_str (s : string) (a : RequestArena) : option slice * RequestArena :=
  alloc (String.list_ascii_of_string s) a.

Definition arena_reset (a : RequestArena) : RequestArena := mk_arena (buffer a) 0.
Definition used (a : RequestArena) : nat := cursor a.
Definition capacity (a : RequestArena) : nat := length (buffer a).
Definition available (a : RequestArena) : nat := length (buffer a) - cursor a.

(** [SharedArena::alloc_str] copies the slice out. *)
Definition shared_alloc_str (s : string) (a : RequestArena) : option string * RequestArena :=
  let '(sl, a') := alloc_str s a in
  ((λ sl, String.string_of_list_ascii (read_slice a' sl)) <$> sl, a').

(** ** The pool *)

Record Vec := mk_vec { vec_bytes : string; vec_capacity : Z }.

Definition BUCKET_SIZES : list Z := [1024; 4096; 16384; 65536]%Z.

Record BufferPool := mk_pool { pool_buckets : list (list Vec); max_per_bucket : nat }.

Definition with_max_per_bucket (n : nat) : BufferPool := mk_pool (replicate 4 []) n.
Definition pool_new : BufferPool := with_max_per_bucket 128.

Fixpoint bucket_index_from (i : nat) (sizes : list Z) (min_size : Z) : nat :=
  match sizes with
  | [] => length BUCKET_SIZES - 1
  | size :: sizes' => if (min_size <=? size)%Z then i else bucket_index_from (S i) sizes' min_size
  end.
Definition bucket_index (min_size : Z) : nat := bucket_index_from 0 BUCKET_SIZES min_size.

(** The last buffer of the bucket, or a new one of the bucket's size. *)
Definition acquire (min_size : Z) (p : BufferPool) : Vec * BufferPool :=
  let idx := bucket_index min_size in
  let bucket := default [] (pool_buckets p !! idx) in
  match last bucket with
  | Some v => (v, mk_pool (<[idx := removelast bucket]> (pool_buckets p)) (max_per_bucket p))
  | None => (mk_vec EmptyString (nth idx BUCKET_SIZES 0%Z), p)
  end.

Definition release (buf : Vec) (p : BufferPool) : BufferPool :=
  let buf := mk_vec EmptyString (vec_capacity buf) in
  let idx := bucket_index (vec_capacity buf) in
  let bucket := default [] (pool_buckets p !! idx) in
  if decide (length bucket < max_per_bucket p)
  then mk_pool (<[idx := bucket ++ [buf]]> (pool_buckets p)) (max_per_bucket p)
  else p.

(** [extend_from_slice]: the allocator picks the capacity of a [Vec] that has
    to grow. *)
Definition extend (grow : Z → Z → Z) (bytes : string) (v : Vec) : Vec :=
  let n := (Z.of_nat (String.length (vec_bytes v)) + Z.of_nat (String.length bytes))%Z in
  mk_vec (String.append (vec_bytes v) bytes)
    (if (n <=? vec_capacity v)%Z then vec_capacity v else grow (vec_capacity v) n).

(** ** The arena hands out separate slices that stay as they are *)

Definition arena_ok (a : RequestArena) : Prop := cursor a ≤ length (buffer a).

(** Allocate all of a list: the slices of those that fit. *)
Fixpoint alloc_all (ls : list (list ascii)) (a : RequestArena) : list (slice * list ascii) * RequestArena :=
  match ls with
  | [] => ([], a)
  | bytes :: ls' =>
      let '(s, a1) := alloc bytes a in
      let '(l, a2) := alloc_all ls' a1 in
      (match s with Some s => (s, bytes) :: l | None => l end, a2)
  end.

Lemma length_copy_at start bytes buf :
  start + length bytes ≤ length buf → length (copy_at start bytes buf) = length buf.
Proof. intros. unfold copy_at. rewrite !length_app, length_take, length_drop. lia. Qed.

Lemma alloc_ok bytes a : arena_ok a → arena_ok (alloc bytes a).2 ∧ cursor a ≤ cursor (alloc bytes a).2 ∧
  capacity (alloc bytes a).2 = capacity a.
Proof.
  unfold arena_ok, alloc, capacity. intros Ha. case_decide; simpl; [auto|].
  rewrite length_copy_at by lia. repeat split; lia.
Qed.

(** What lies below the cursor is not touched by an allocation. *)
Lemma alloc_keeps bytes a s :
  sl_end s ≤ cursor a → arena_ok a → read_slice (alloc bytes a).2 s = read_slice a s.
Proof.
  unfold arena_ok, alloc. intros Hs Ha. case_decide; [done|]. unfold read_slice, copy_at. simpl.
  destruct (decide (sl_end s ≤ sl_start s)) as [|Hne].
  { by replace (sl_end s - sl_start s) with 0 by lia. }
  rewrite drop_app_le by (rewrite length_take; lia).
  rewrite take_app_le by (rewrite length_drop, length_take; lia).
  rewrite !take_drop_commute, take_take. do 2 f_equal. lia.
Qed.

Lemma alloc_reads bytes a s a' :
  arena_ok a → alloc bytes a = (Some s, a') →
  read_slice a' s = bytes ∧ sl_start s = cursor a ∧ sl_end s = cursor a + length bytes ∧ cursor a' = sl_end s.
Proof.
  unfold arena_ok, alloc. intros Ha Halloc. case_decide; [done|]. injection Halloc as <- <-.
  simpl. repeat split. unfold read_slice, copy_at. simpl.
  replace (cursor a + length bytes - cursor a) with (length bytes) by lia.
  rewrite drop_app_length' by (rewrite length_take; lia). by rewrite take_app_length.
Qed.

Lemma alloc_all_spec ls a l a' :
  arena_ok a → alloc_all ls a = (l, a') →
  Forall (λ sb : slice * list ascii, read_slice a' sb.1 = sb.2 ∧ cursor a ≤ sl_start sb.1 ∧
    sl_end sb.1 = sl_start sb.1 + length sb.2 ∧ sl_end sb.1 ≤ cursor a') l ∧
  StronglySorted (λ x y : slice * list ascii, sl_end x.1 ≤ sl_start y.1) l ∧
  arena_ok a' ∧ capacity a' = capacity a ∧ cursor a' = cursor a + sum_list (length <$> l.*2) ∧
  ∀ s, sl_end s ≤ cursor a → read_slice a' s = read_slice a s.
Proof.
  revert a l. induction ls as [|bytes ls IH]; intros a l Ha Hall; simpl in Hall.
  { injection Hall as <- <-. split_and!; [constructor|constructor|done|done|simpl; lia|done]. }
  pose proof (alloc_ok bytes a Ha) as (Ha1 & Hle & Hcap).
  pose proof (alloc_keeps bytes a) as Hkeep. pose proof (alloc_reads bytes a) as Hread.
  assert (alloc bytes a = (None, a) ∨ ∃ s, (alloc bytes a).1 = Some s) as Hcase.
  { unfold alloc. case_decide; [by left|right; by eexists]. }
  destruct (alloc bytes a) as [o a1]. simpl in *. destruct (alloc_all ls a1) as [l2 a2] eqn:Hl2.
  injection Hall as <- <-. destruct (IH a1 l2 Ha1 Hl2) as (Hf & Hs & Ha2 & Hc2 & Hcur & Hk2).
  destruct Hcase as [[= -> ->]|[s ->]].
  - split_and!; done.
  - destruct (Hread s a1 Ha eq_refl) as (Hr & Hst & Hen & Hc1).
    split_and!; [constructor| |done|lia|csimpl; lia|].
    + simpl. rewrite Hk2 by lia. repeat split; [done|lia..].
    + eapply Forall_impl; [exact Hf|]. naive_solver lia.
    + constructor; [done|]. eapply Forall_impl; [exact Hf|]. intros x (_ & Hx & _). simpl. lia.
    + intros s' Hs'. rewrite Hk2, Hkeep; [done|done|done|lia].
Qed.

(** The arena keeps what it hands out.  After a reset and any allocations,
    each slice handed out reads the bytes it was made for, though others were
    made after it; slices lie one behind the other, without overlap, within the
    capacity; and the space used is that of the slices alone. *)
Theorem arena_keeps_slices (cap : nat) (before : list (list ascii)) (ls : list (list ascii)) :
  let a := (alloc_all before (arena_with_capacity cap)).2 in
  let '(l, a') := alloc_all ls (arena_reset a) in
  Forall (λ sb : slice * list ascii, read_slice a' sb.1 = sb.2 ∧ sl_end sb.1 ≤ cap) l ∧
  StronglySorted (λ x y : slice * list ascii, sl_end x.1 ≤ sl_start y.1) l ∧
  used a' = sum_list (length <$> l.*2) ∧ used a' + available a' = cap.
Proof.
  intros a. assert (arena_ok a ∧ capacity a = cap) as [Ha Hcap].
  { subst a. destruct (alloc_all before (arena_with_capacity cap)) as [l0 a0] eqn:H0.
    apply alloc_all_spec in H0 as (_ & _ & Hok & Hc & _); [|unfold arena_ok; simpl; lia].
    split; [done|]. simpl. rewrite Hc. unfold capacity. simpl. apply length_replicate. }
  clearbody a. destruct (alloc_all ls (arena_reset a)) as [l a'] eqn:Hl.
  apply alloc_all_spec in Hl as (Hf & Hs & Ha' & Hc & Hcur & _); [|unfold arena_ok; simpl; lia].
  unfold capacity, arena_ok, used, available in *. simpl in *. split_and!; [|done|lia|lia].
  eapply Forall_impl; [exact Hf|]. naive_solver lia.
Qed.

(** ** The pool hands out empty buffers *)

(** The pools a run of the server reaches from a new one. *)
Inductive reachable (n : nat) : BufferPool → Prop :=
| reach_new : reachable n (with_max_per_bucket n)
| reach_acquire p min_size : reachable n p → reachable n (acquire min_size p).2
| reach_release p v : reachable n p → reachable n (release v p).

Lemma reachable_inv n p : reachable n p →
  max_per_bucket p = n ∧ length (pool_buckets p) = 4 ∧
  Forall (λ b, length b ≤ n ∧ Forall (λ v, vec_bytes v = EmptyString) b) (pool_buckets p).
Proof.
  induction 1 as [|p k _ (Hn & Hl & Hb)|p v _ (Hn & Hl & Hb)].
  - split_and!; [done|done|]. apply Forall_replicate. split; [simpl; lia|constructor].
  - unfold acquire. destruct (last _) as [v|] eqn:Hlast; [|done]. simpl. rewrite length_insert.
    split_and!; [done|done|]. apply Forall_insert; [done|].
    destruct (pool_buckets p !! bucket_index k) as [b|] eqn:Hk; [|done].
    rewrite Forall_lookup in Hb. destruct (Hb _ _ Hk) as [Hlen He]. simpl in *.
    apply last_Some in Hlast as [b' ->]. rewrite removelast_last.
    apply Forall_app in He as [He _]. rewrite length_app in Hlen. split; [lia|done].
  - unfold release. simpl. case_decide as Hlt; [|done]. simpl. rewrite length_insert.
    split_and!; [done|done|]. apply Forall_insert; [done|]. rewrite length_app. simpl.
    split; [lia|]. apply Forall_app. split; [|by repeat constructor].
    destruct (pool_buckets p !! _) as [b|] eqn:Hk; [|by constructor].
    rewrite Forall_lookup in Hb. by destruct (Hb _ _ Hk).
Qed.

Lemma acquire_empty n p min_size : reachable n p → vec_bytes (acquire min_size p).1 = EmptyString.
Proof.
  intros (_ & _ & Hb)%reachable_inv. unfold acquire.
  destruct (last _) as [v|] eqn:Hlast; [|done]. simpl.
  destruct (pool_buckets p !! _) as [b|] eqn:Hk; [|done]. rewrite Forall_lookup in Hb.
  destruct (Hb _ _ Hk) as [_ He]. rewrite Forall_forall in He. apply He.
  simpl in Hlast. apply last_Some in Hlast as [b' ->]. set_solver.
Qed.

(** No bytes travel from one request to another through the pool.  After
    any acquisitions and releases, of buffers with any contents, the pool holds
    at most its limit in each bucket, and a buffer it hands out is empty, so
    what is put in it is all it holds. *)
Theorem pool_recycles_clean n p min_size grow bytes :
  reachable n p →
  let '(v, p') := acquire min_size p in
  vec_bytes v = EmptyString ∧ vec_bytes (extend grow bytes v) = bytes ∧
  Forall (λ b, length b ≤ n) (pool_buckets p').
Proof.
  intros Hp. pose proof (reachable_inv n _ (reach_acquire n p min_size Hp)) as (_ & _ & Hb').
  pose proof (acquire_empty n p min_size Hp) as Hv. destruct (acquire min_size p) as [v p'].
  simpl in *. split_and!; [done|unfold extend; by rewrite Hv|].
  eapply Forall_impl; [exact Hb'|]. naive_solver.
Qed.

Module Examples.

(** A buffer that was grown to 1025 bytes is filed under 4096, so the pool
    hands it out where 4096 bytes are asked for. *)
Example acquire_short :
  vec_capacity (acquire 4096 (release (mk_vec "x" 1025) pool_new)).1 = 1025%Z.
Proof. vm_compute. reflexivity. Qed.

Example acquire_huge : vec_capacity (acquire 100000 pool_new).1 = 65536%Z.
Proof. vm_compute. reflexivity. Qed.

Lemma pool_recycles_clean_witness :
  vec_bytes (extend (λ _ n, n) "new" (acquire 8 (release (mk_vec "secret" 64) pool_new)).1) = "new"%string.
Proof.
  apply (pool_recycles_clean 128 (release (mk_vec "secret" 64) pool_new) 8 (λ _ n, n) "new").
  apply reach_release, reach_new.
Defined.

End Examples.
