(* ===== verification/Docs.v ===== *)
(** * Docs: the constant documents of the server

    The built-in OpenAPI document of [crates/justapi-core/src/server/mod.rs]
    and the two pages of [openapi.rs].  A backquote below stands for a double
    quote of the page. *)

From Stdlib Require Import Ascii.
From S2P Require Import Prelude Text Http.

#[local] Open Scope string_scope.

(** [BUILTIN_SPEC], before it is printed. *)
Definition builtin_spec : json :=
  JObject [
    ("openapi", JString "3.1.0");
    ("info", JObject [
        ("title", JString "JustAPI");
        ("version", JString "0.1.0");
        ("description", JString "JustAPI Runtime — Python application server")]);
    ("servers", JArray [
        JObject [
          ("url", JString "http://localhost:8080");
          ("description", JString "Local development")]]);
    ("tags", JArray [JObject [("name", JString "builtin"); ("description", JString "Built-in routes")]]);
    ("paths", JObject [
        ("/hello", JObject [
            ("get", JObject [
                ("summary", JString "Hello world");
                ("description", JString "Returns a greeting message");
                ("operationId", JString "get_hello");
                ("tags", JArray [JString "builtin"]);
                ("responses", JObject [("200", JObject [("description", JString "Greeting")])])])]);
        ("/echo", JObject [
            ("post", JObject [
                ("summary", JString "Echo request body");
                ("description", JString "Returns the request body as-is");
                ("operationId", JString "post_echo");
                ("tags", JArray [JString "builtin"]);
                ("requestBody", JObject [
                    ("description", JString "Any JSON payload");
                    ("content", JObject [("application/json", JObject [("schema", JObject [])])]);
                    ("required", JBool true)]);
                ("responses", JObject [("200", JObject [("description", JString "Echoed body")])])])]);
        ("/users/{id}", JObject [
            ("get", JObject [
                ("summary", JString "Get user by ID");
                ("operationId", JString "get_users_id");
                ("tags", JArray [JString "builtin"]);
                ("parameters", JArray [
                    JObject [
                      ("name", JString "id");
                      ("in", JString "path");
                      ("description", JString "User ID");
                      ("required", JBool true);
                      ("schema", JObject [("type", JString "string")])]]);
                ("responses", JObject [
                    ("200", JObject [("description", JString "User found")]);
                    ("404", JObject [("description", JString "Not found")])])])]);
        ("/events", JObject [
            ("get", JObject [
                ("summary", JString "Server-Sent Events stream");
                ("description", JString "Streams count events via SSE");
                ("operationId", JString "get_events");
                ("tags", JArray [JString "builtin"]);
                ("responses", JObject [("200", JObject [("description", JString "SSE event stream")])])])]);
        ("/health", JObject [
            ("get", JObject [
                ("summary", JString "Health check");
                ("description", JString "Returns health status of all registered components");
                ("operationId", JString "get_health");
                ("tags", JArray [JString "builtin"]);
                ("responses", JObject [
                    ("200", JObject [("description", JString "Healthy")]);
                    ("503", JObject [("description", JString "Unhealthy")])])])]);
        ("/ready", JObject [
            ("get", JObject [
                ("summary", JString "Readiness probe");
                ("description", JString "Returns readiness status for Kubernetes probes");
                ("operationId", JString "get_ready");
                ("tags", JArray [JString "builtin"]);
                ("responses", JObject [("200", JObject [("description", JString "Ready")])])])]);
        ("/live", JObject [
            ("get", JObject [
                ("summary", JString "Liveness probe");
                ("description", JString "Returns liveness status for Kubernetes probes");
                ("operationId", JString "get_live");
                ("tags", JArray [JString "builtin"]);
                ("responses", JObject [("200", JObject [("description", JString "Alive")])])])]);
        ("/metrics", JObject [
            ("get", JObject [
                ("summary", JString "Prometheus metrics");
                ("description", JString "Returns Prometheus-formatted metrics");
                ("operationId", JString "get_metrics");
                ("tags", JArray [JString "builtin"]);
                ("responses", JObject [
                    ("200", JObject [("description", JString "Metrics in Prometheus text format")])])])]);
        ("/openapi.json", JObject [
            ("get", JObject [
                ("summary", JString "OpenAPI 3.1 spec");
                ("description", JString "Returns the OpenAPI 3.1 specification for this server");
                ("operationId", JString "get_openapi_json");
                ("tags", JArray [JString "builtin"]);
                ("responses", JObject [("200", JObject [("description", JString "OpenAPI spec")])])])]);
        ("/docs", JObject [
            ("get", JObject [
                ("summary", JString "Swagger UI");
                ("description", JString "Interactive API documentation via Swagger UI");
                ("operationId", JString "get_docs");
                ("tags", JArray [JString "builtin"]);
                ("responses", JObject [("200", JObject [("description", JString "Swagger UI HTML")])])])]);
        ("/redoc", JObject [
            ("get", JObject [
                ("summary", JString "ReDoc");
                ("description", JString "Interactive API documentation via ReDoc");
                ("operationId", JString "get_redoc");
                ("tags", JArray [JString "builtin"]);
                ("responses", JObject [("200", JObject [("description", JString "ReDoc HTML")])])])])])].

Definition page (lines : list string) : string :=
  replace_char "`" (ascii_of_nat 34) (join newline lines).

Definition swagger_ui_html : string := page
  ["<!DOCTYPE html>";
   "<html lang=`en`>";
   "<head>";
   "  <meta charset=`UTF-8`>";
   "  <title>JustAPI — Swagger UI</title>";
   "  <link rel=`stylesheet` href=`https://unpkg.com/swagger-ui-dist@5/swagger-ui.css`>";
   "</head>";
   "<body>";
   "  <div id=`swagger-ui`></div>";
   "  <script src=`https://unpkg.com/swagger-ui-dist@5/swagger-ui-bundle.js`></script>";
   "  <script>";
   "    SwaggerUIBundle({";
   "      url: '/openapi.json',";
   "      dom_id: '#swagger-ui',";
   "      presets: [";
   "        SwaggerUIBundle.presets.apis,";
   "        SwaggerUIBundle.SwaggerUIStandalonePreset";
   "      ],";
   "      layout: `BaseLayout`";
   "    });";
   "  </script>";
   "</body>";
   "</html>"].

Definition redoc_html : string := page
  ["<!DOCTYPE html>";
   "<html lang=`en`>";
   "<head>";
   "  <meta charset=`UTF-8`>";
   "  <title>JustAPI — ReDoc</title>";
   "  <meta name=`viewport` content=`width=device-width, initial-scale=1`>";
   "  <link rel=`stylesheet` href=`https://fonts.googleapis.com/css?family=Roboto:300,400,700|Roboto+Mono`>";
   "  <style>";
   "    body { margin: 0; padding: 0; }";
   "  </style>";
   "</head>";
   "<body>";
   "  <div id=`redoc-container`></div>";
   "  <script src=`https://cdn.redoc.ly/redoc/latest/bundles/redoc.standalone.js`></script>";
   "  <script>";
   "    Redoc.init('/openapi.json', {";
   "      scrollYOffset: 0,";
   "      hideDownloadButton: false,";
   "      expandResponses: `200`";
   "    }, document.getElementById('redoc-container'));";
   "  </script>";
   "</body>";
   "</html>"].

(** The paths the built-in document describes. *)
Definition documented_paths : list string :=
  match json_get "paths" builtin_spec ≫= as_object with Some ps => ps.*1 | None => [] end.

Example documents : documented_paths =
  ["/hello"; "/echo"; "/users/{id}"; "/events"; "/health"; "/ready"; "/live"; "/metrics"; "/openapi.json"; "/docs"; "/redoc"].
Proof. reflexivity. Qed.
