(* ===== verification/OpenAi.v ===== *)
(** * OpenAi: the OpenAI-compatible protocol

    [crates/justapi-inference/src/openai.rs]: the requests and responses of the
    API and the drivers that run them on an engine, directly or through the
    scheduler, in full or as a stream of server-sent events.  A receiver is the
    list of the tokens that arrive on it before its channel closes.  The
    parsers and the number printer [serde] derives are parameters; the clock
    is an argument. *)

From Stdlib Require Import Ascii.
From S2P Require Import Prelude F32 Text Http Model SpecDecode Scheduler Engine SchedulerEngine.

#[local] Open Scope Z_scope.
#[local] Arguments String.append : simpl nomatch.
#[local] Arguments String.concat : simpl never.

(** ** Requests *)

Record ChatMessage := mk_message { msg_role : string; msg_content : string; msg_name : option string }.

Definition default_max_tokens : Z := 256.

Record ChatCompletionRequest := mk_chat {
  chat_model : string;
  chat_messages : list ChatMessage;
  chat_temperature : option f32;
  chat_max_tokens : Z;
  chat_max_completion_tokens : option Z;
  chat_top_p : option f32;
  chat_streaming : bool;
  chat_stop : option (list string);
  chat_user : option string }.

Definition effective_max_tokens (r : ChatCompletionRequest) : Z :=
  default (chat_max_tokens r) (chat_max_completion_tokens r).

Record CompletionRequest := mk_completion {
  comp_model : string;
  comp_prompt : string;
  comp_temperature : option f32;
  comp_max_tokens : Z;
  comp_top_p : option f32;
  comp_streaming : bool;
  comp_stop : option (list string) }.

Inductive EmbeddingInput := Single (s : string) | Many (l : list string).

Record EmbeddingRequest := mk_embedding {
  emb_model : string; emb_input : EmbeddingInput; emb_encoding_format : option string }.

Definition into_texts (i : EmbeddingInput) : list string :=
  match i with Single s => [s] | Many l => l end.

(** ** Responses *)

Record Usage := mk_usage { prompt_tokens : Z; completion_tokens : Z; total_tokens : Z }.

Record ChatMessageOut := mk_message_out {
  out_role : string; out_content : string; out_finish_reason : option string }.

Record ChatCompletionChoice := mk_chat_choice {
  cc_index : Z; cc_message : ChatMessageOut; cc_finish_reason : string }.

Record ChatCompletionResponse := mk_chat_response {
  cr_id : string; cr_object : string; cr_created : Z; cr_model : string;
  cr_choices : list ChatCompletionChoice; cr_usage : Usage }.

Record Delta := mk_delta { delta_role : option string; delta_content : option string }.

Record ChunkChoice := mk_chunk_choice {
  ck_index : Z; ck_delta : Delta; ck_finish_reason : option string }.

Record ChatCompletionChunk := mk_chunk {
  chunk_id : string; chunk_object : string; chunk_created : Z; chunk_model : string;
  chunk_choices : list ChunkChoice }.

Record CompletionChoice := mk_choice { ch_text : string; ch_index : Z; ch_finish_reason : string }.

Record CompletionResponse := mk_completion_response {
  pr_id : string; pr_object : string; pr_created : Z; pr_model : string;
  pr_choices : list CompletionChoice; pr_usage : Usage }.

Record EmbeddingObject := mk_embedding_object {
  eo_object : string; eo_index : Z; eo_embedding : list f32 }.

Record EmbeddingResponse := mk_embedding_response {
  er_object : string; er_data : list EmbeddingObject; er_model : string; er_usage : Usage }.

Record ApiError := mk_api_error {
  ae_message : string; ae_type : string; ae_param : option string; ae_code : option string }.

Record ModelPermission := mk_permission {
  mp_id : string; mp_object : string; mp_created : Z; mp_allow_create_engine : bool;
  mp_allow_sampling : bool; mp_allow_logprobs : bool; mp_allow_search_indices : bool;
  mp_allow_view : bool; mp_organization : string; mp_group : option string; mp_is_blocking : bool }.

Definition ModelPermission_default : ModelPermission :=
  mk_permission EmptyString EmptyString 0 false false false false false EmptyString None false.

Record ModelObject := mk_model_object {
  mo_id : string; mo_object : string; mo_created : Z; mo_owned_by : string;
  mo_permission : list ModelPermission; mo_root : option string; mo_parent : option string }.

Record ModelList := mk_model_list { ml_object : string; ml_data : list ModelObject }.

(** ** Serialisation

    The fields in their order, [None] as null unless the field is skipped. *)

Class OpenAiSerde := {
  parse_chat : string → string + ChatCompletionRequest;
  parse_completion : string → string + CompletionRequest;
  parse_embedding : string → string + EmbeddingRequest;
  f32_text : f32 → string }.

Definition opt_string (o : option string) : json :=
  match o with Some s => JString s | None => JNull end.

(** [skip_serializing_if = "Option::is_none"] *)
Definition unless_none (name : string) (o : option string) : list (string * json) :=
  match o with Some s => [(name, JString s)] | None => [] end.

Definition usage_json (u : Usage) : json :=
  JObject [("prompt_tokens"%string, json_int (prompt_tokens u));
           ("completion_tokens"%string, json_int (completion_tokens u));
           ("total_tokens"%string, json_int (total_tokens u))].

Definition message_out_json (m : ChatMessageOut) : json :=
  JObject ([("role"%string, JString (out_role m)); ("content"%string, JString (out_content m))]
           ++ unless_none "finish_reason" (out_finish_reason m)).

Definition chat_choice_json (c : ChatCompletionChoice) : json :=
  JObject [("index"%string, json_int (cc_index c)); ("message"%string, message_out_json (cc_message c));
           ("finish_reason"%string, JString (cc_finish_reason c))].

Definition chat_response_json (r : ChatCompletionResponse) : json :=
  JObject [("id"%string, JString (cr_id r)); ("object"%string, JString (cr_object r));
           ("created"%string, json_int (cr_created r)); ("model"%string, JString (cr_model r));
           ("choices"%string, JArray (chat_choice_json <$> cr_choices r));
           ("usage"%string, usage_json (cr_usage r))].

Definition delta_json (d : Delta) : json :=
  JObject (unless_none "role" (delta_role d) ++ unless_none "content" (delta_content d)).

Definition chunk_choice_json (c : ChunkChoice) : json :=
  JObject ([("index"%string, json_int (ck_index c)); ("delta"%string, delta_json (ck_delta c))]
           ++ unless_none "finish_reason" (ck_finish_reason c)).

Definition chunk_json (c : ChatCompletionChunk) : json :=
  JObject [("id"%string, JString (chunk_id c)); ("object"%string, JString (chunk_object c));
           ("created"%string, json_int (chunk_created c)); ("model"%string, JString (chunk_model c));
           ("choices"%string, JArray (chunk_choice_json <$> chunk_choices c))].

Definition choice_json (c : CompletionChoice) : json :=
  JObject [("text"%string, JString (ch_text c)); ("index"%string, json_int (ch_index c));
           ("finish_reason"%string, JString (ch_finish_reason c))].

Definition completion_response_json (r : CompletionResponse) : json :=
  JObject [("id"%string, JString (pr_id r)); ("object"%string, JString (pr_object r));
           ("created"%string, json_int (pr_created r)); ("model"%string, JString (pr_model r));
           ("choices"%string, JArray (choice_json <$> pr_choices r));
           ("usage"%string, usage_json (pr_usage r))].

Definition embedding_object_json `{!OpenAiSerde} (e : EmbeddingObject) : json :=
  JObject [("object"%string, JString (eo_object e)); ("index"%string, json_int (eo_index e));
           ("embedding"%string, JArray ((λ x, JNumber (FloatNumber (f32_text x))) <$> eo_embedding e))].

Definition embedding_response_json `{!OpenAiSerde} (r : EmbeddingResponse) : json :=
  JObject [("object"%string, JString (er_object r));
           ("data"%string, JArray (embedding_object_json <$> er_data r));
           ("model"%string, JString (er_model r)); ("usage"%string, usage_json (er_usage r))].

(** [ErrorResponse] *)
Definition error_envelope (e : ApiError) : json :=
  JObject [("error"%string,
    JObject [("message"%string, JString (ae_message e)); ("type"%string, JString (ae_type e));
             ("param"%string, opt_string (ae_param e)); ("code"%string, opt_string (ae_code e))])].

Definition permission_json (p : ModelPermission) : json :=
  JObject [("id"%string, JString (mp_id p)); ("object"%string, JString (mp_object p));
           ("created"%string, json_int (mp_created p));
           ("allow_create_engine"%string, JBool (mp_allow_create_engine p));
           ("allow_sampling"%string, JBool (mp_allow_sampling p));
           ("allow_logprobs"%string, JBool (mp_allow_logprobs p));
           ("allow_search_indices"%string, JBool (mp_allow_search_indices p));
           ("allow_view"%string, JBool (mp_allow_view p));
           ("organization"%string, JString (mp_organization p));
           ("group"%string, opt_string (mp_group p));
           ("is_blocking"%string, JBool (mp_is_blocking p))].

Definition model_object_json (m : ModelObject) : json :=
  JObject [("id"%string, JString (mo_id m)); ("object"%string, JString (mo_object m));
           ("created"%string, json_int (mo_created m)); ("owned_by"%string, JString (mo_owned_by m));
           ("permission"%string, JArray (permission_json <$> mo_permission m));
           ("root"%string, opt_string (mo_root m)); ("parent"%string, opt_string (mo_parent m))].

Definition model_list_json (l : ModelList) : json :=
  JObject [("object"%string, JString (ml_object l));
           ("data"%string, JArray (model_object_json <$> ml_data l))].

(** ** Helpers *)

(** The messages of [ModelError]; that of an I/O error is the system's. *)
Definition model_error_text (e : ModelError) : string :=
  match e with
  | NotFound name => "model '" +:+ name +:+ "' not found in registry"
  | FeatureRequired f =>
      "feature '" +:+ f +:+ "' is required for this operation (enable it in the crate features)"
  | NotImplemented => "real model loading is not implemented yet (lands with the KV-cache in Phase 42)"
  | Generation msg => "generation failed: " +:+ msg
  | Io msg => msg
  end.

Definition finish_reason_str (r : FinishReason) : string :=
  match r with Length => "length" | Stop => "stop" | Cancelled => "stop" end.


Fixpoint prompt_from_messages (messages : list ChatMessage) : string :=
  match messages with
  | [] => EmptyString
  | m :: ms => msg_role m +:+ ": " +:+ msg_content m +:+ newline +:+ prompt_from_messages ms
  end.

(** [text.bytes()] *)
Definition tokenize (s : string) : list Z := MockModel.tokenize (code <$> String.list_ascii_of_string s).

(** A character below 256 in UTF-8. *)
Definition byte_of (z : Z) : ascii := ascii_of_nat (Z.to_nat z).
Definition utf8 (c : Z) : string :=
  if c <? 128 then String (byte_of c) EmptyString
  else String (byte_of (192 + c / 64)) (String (byte_of (128 + c mod 64)) EmptyString).
Definition text_of (cs : list Z) : string := String.concat EmptyString (utf8 <$> cs).

(** What the clock says when the id is made (in nanoseconds) and when
    [created] is read (in seconds). *)
Record Clock := mk_clock { id_nanos : Z; now_secs : Z }.

Definition short_id (t : Clock) : string := hex (id_nanos t mod 0xfffffffffffffff).

Definition server_error (e : ModelError) : ApiError :=
  mk_api_error (model_error_text e) "server_error" None None.

(** What a stream yields. *)
Inductive SseItem := SseChunk (c : ChatCompletionChunk) | SseError (e : ApiError) | SseDone.

Section render.
Context `{!SerdeJson}.

Definition sse_event (c : ChatCompletionChunk) : string :=
  "data: " +:+ json_to_string (chunk_json c) +:+ newline +:+ newline.

Definition sse_error (e : ApiError) : string :=
  "data: " +:+ json_to_string (error_envelope e) +:+ newline +:+ newline.

Definition SSE_DONE : string := "data: [DONE]" +:+ newline +:+ newline.

Definition sse_bytes (i : SseItem) : string :=
  match i with SseChunk c => sse_event c | SseError e => sse_error e | SseDone => SSE_DONE end.

Definition error_json (message error_type : string) (st : Z) : Z * string :=
  (st, json_to_string (error_envelope (mk_api_error message error_type None None))).
End render.

(** ** Drivers *)

(** [SamplingParams { max_tokens, temperature, top_p, ..Default::default() }] *)
Definition sampling (max_tokens : Z) (temperature top_p : option f32) : SamplingParams :=
  mk_params max_tokens (default f32_one temperature) (default f32_one top_p)
    (top_k SamplingParams_default) (stop_tokens SamplingParams_default)
    (stop_sequences SamplingParams_default).

Definition chat_params (r : ChatCompletionRequest) : SamplingParams :=
  sampling (effective_max_tokens r) (chat_temperature r) (chat_top_p r).
Definition completion_params (r : CompletionRequest) : SamplingParams :=
  sampling (comp_max_tokens r) (comp_temperature r) (comp_top_p r).

Definition chat_tokens (r : ChatCompletionRequest) : list Z :=
  tokenize (prompt_from_messages (chat_messages r)).
Definition completion_prompt (r : CompletionRequest) : list Z := tokenize (comp_prompt r).

(** The loop over the receiver: the text, the finish reason last seen and the
    number of tokens. *)
Fixpoint collect (rx : list GeneratedToken) (text finish : string) (n : Z) : string * string * Z :=
  match rx with
  | [] => (text, finish, n)
  | t :: rx' =>
      collect rx' (text +:+ text_of (tok_text t))
        (match tok_finish t with Some r => finish_reason_str r | None => finish end) (n + 1)
  end.

Definition usage (prompt : list Z) (n : Z) : Usage :=
  mk_usage (Z.of_nat (length prompt)) n (Z.of_nat (length prompt) + n).

Definition full_chat (t : Clock) (r : ChatCompletionRequest) (rx : list GeneratedToken)
    : ChatCompletionResponse :=
  let '(content, finish, n) := collect rx EmptyString "length" 0 in
  mk_chat_response ("chatcmpl-" +:+ short_id t) "chat.completion" (now_secs t) (chat_model r)
    [mk_chat_choice 0 (mk_message_out "assistant" content None) finish]
    (usage (chat_tokens r) n).

Definition full_completion (t : Clock) (r : CompletionRequest) (rx : list GeneratedToken)
    : CompletionResponse :=
  let '(text, finish, n) := collect rx EmptyString "length" 0 in
  mk_completion_response ("cmpl-" +:+ short_id t) "text_completion" (now_secs t) (comp_model r)
    [mk_choice text 0 finish] (usage (completion_prompt r) n).

(** A chunk of a stream. *)
Definition chunk (id : string) (created : Z) (model : string) (d : Delta) (finish : option string)
    : ChatCompletionChunk :=
  mk_chunk id "chat.completion.chunk" created model [mk_chunk_choice 0 d finish].

(** The loop of a stream and its end.  A driver of the engine forgets an
    earlier finish reason when a token without one follows; [sticky] drivers,
    those of the scheduler, remember it. *)
Fixpoint relay (sticky : bool) (id : string) (created : Z) (model : string)
    (rx : list GeneratedToken) (finished : bool) : list SseItem :=
  match rx with
  | [] =>
      (if finished then []
       else [SseChunk (chunk id created model (mk_delta None None) (Some "length"%string))]) ++ [SseDone]
  | t :: rx' =>
      let finish := finish_reason_str <$> tok_finish t in
      SseChunk (chunk id created model (mk_delta None (Some (text_of (tok_text t)))) finish)
      :: relay sticky id created model rx'
           (if sticky then finished || bool_decide (is_Some finish)
            else bool_decide (is_Some finish))
  end.

Definition stream_of (sticky : bool) (id : string) (created : Z) (model : string)
    (rx : ModelError + list GeneratedToken) : list SseItem :=
  match rx with
  | inl e => [SseError (server_error e); SseDone]
  | inr rx => relay sticky id created model rx false
  end.

Definition chat_stream (sticky : bool) (t : Clock) (r : ChatCompletionRequest)
    (rx : ModelError + list GeneratedToken) : list SseItem :=
  let id := "chatcmpl-" +:+ short_id t in
  SseChunk (chunk id (now_secs t) (chat_model r) (mk_delta (Some "assistant"%string) None) None)
  :: stream_of sticky id (now_secs t) (chat_model r) rx.

Definition text_stream (sticky : bool) (t : Clock) (r : CompletionRequest)
    (rx : ModelError + list GeneratedToken) : list SseItem :=
  stream_of sticky ("cmpl-" +:+ short_id t) (now_secs t) (comp_model r) rx.

(** [let mut rx = engine.generate(..)?] and what is made of the tokens. *)
Definition with_rx {A} (f : list GeneratedToken → A) (rx : ModelError + list GeneratedToken)
    : ModelError + A :=
  match rx with inl err => inl err | inr rx => inr (f rx) end.

(** *** Directly on the engine *)

(** The receiver of [Engine::generate]: the thread drops the sender when the
    model returns, whatever it returns; a panic of the model aborts. *)
Definition engine_rx (e : Engine) (model : string) (prompt : list Z) (params : SamplingParams)
    : exec (ModelError + list GeneratedToken) :=
  match Engine.generate model prompt params e with
  | inl err => Ret (inl err)
  | inr (_, Crash) => Panic
  | inr (rx, _) => Ret (inr rx)
  end.

Definition chat_completion_stream (t : Clock) (e : Engine) (r : ChatCompletionRequest)
    : exec (list SseItem) :=
  rx ← engine_rx e (chat_model r) (chat_tokens r) (chat_params r);
  Ret (chat_stream false t r rx).

Definition chat_completion (t : Clock) (e : Engine) (r : ChatCompletionRequest)
    : exec (ModelError + ChatCompletionResponse) :=
  rx ← engine_rx e (chat_model r) (chat_tokens r) (chat_params r);
  Ret (with_rx (full_chat t r) rx).

Definition completion_stream (t : Clock) (e : Engine) (r : CompletionRequest)
    : exec (list SseItem) :=
  rx ← engine_rx e (comp_model r) (completion_prompt r) (completion_params r);
  Ret (text_stream false t r rx).

Definition completion (t : Clock) (e : Engine) (r : CompletionRequest)
    : exec (ModelError + CompletionResponse) :=
  rx ← engine_rx e (comp_model r) (completion_prompt r) (completion_params r);
  Ret (with_rx (full_completion t r) rx).

(** [(t as f32) / 1000.0 - 0.5] *)
Definition pseudo_embedding (tokens : list Z) : list f32 :=
  (λ t, f32_sub (f32_div (f32_of_Z t) (f32_of_Z 1000)) f32_half) <$> tokens.

Definition embeddings (r : EmbeddingRequest) : EmbeddingResponse :=
  let texts := into_texts (emb_input r) in
  let total := foldl (λ n text, n + Z.of_nat (length (tokenize text))) 0 texts in
  mk_embedding_response "list"
    (imap (λ i text, mk_embedding_object "embedding" (Z.of_nat i) (pseudo_embedding (tokenize text)))
       texts)
    (emb_model r) (mk_usage total 0 total).

Definition model_list (t : Clock) (e : Engine) : ModelList :=
  mk_model_list "list"
    ((λ id, mk_model_object id "model" (now_secs t) "justapi" [ModelPermission_default] None None)
     <$> Engine.list_models e).

(** *** Through the scheduler

    [later] is what the loop thread does until the driver finds the channel
    closed; [None] is a driver that still waits. *)
Section scheduled.
Context `{Entropy}.

Definition receive (id : Z) (e : SchedulerEngine) : option (list GeneratedToken) :=
  if decide (id ∈ senders e) then None else Some (stream e id).

Definition scheduled_rx (later : SchedulerEngine → exec SchedulerEngine) (e : SchedulerEngine)
    (model : string) (prompt : list Z) (params : SamplingParams)
    : exec (option (ModelError + list GeneratedToken) * SchedulerEngine) :=
  match SchedulerEngine.generate model prompt params e with
  | (inl err, e') => Ret (Some (inl err), e')
  | (inr id, e') => e'' ← later e'; Ret (inr <$> receive id e'', e'')
  end.

Definition answer {A B} (f : A → B) (res : option A * SchedulerEngine)
    : exec (option B * SchedulerEngine) := Ret (f <$> res.1, res.2).

Definition scheduled_chat_completion (later : SchedulerEngine → exec SchedulerEngine)
    (t : Clock) (e : SchedulerEngine)
    (r : ChatCompletionRequest) : exec (option (ModelError + ChatCompletionResponse) * SchedulerEngine) :=
  scheduled_rx later e (chat_model r) (chat_tokens r) (chat_params r)
  ≫= answer (with_rx (full_chat t r)).

Definition scheduled_chat_completion_stream (later : SchedulerEngine → exec SchedulerEngine)
    (t : Clock) (e : SchedulerEngine)
    (r : ChatCompletionRequest) : exec (option (list SseItem) * SchedulerEngine) :=
  scheduled_rx later e (chat_model r) (chat_tokens r) (chat_params r)
  ≫= answer (chat_stream true t r).

Definition scheduled_completion (later : SchedulerEngine → exec SchedulerEngine)
    (t : Clock) (e : SchedulerEngine) (r : CompletionRequest)
    : exec (option (ModelError + CompletionResponse) * SchedulerEngine) :=
  scheduled_rx later e (comp_model r) (completion_prompt r) (completion_params r)
  ≫= answer (with_rx (full_completion t r)).

Definition scheduled_completion_stream (later : SchedulerEngine → exec SchedulerEngine)
    (t : Clock) (e : SchedulerEngine)
    (r : CompletionRequest) : exec (option (list SseItem) * SchedulerEngine) :=
  scheduled_rx later e (comp_model r) (completion_prompt r) (completion_params r)
  ≫= answer (text_stream true t r).
End scheduled.

(** ** What a client sees of a stream *)

Definition choices (items : list SseItem) : list ChunkChoice :=
  items ≫= λ i, match i with SseChunk c => chunk_choices c | _ => [] end.

Definition streamed_text (items : list SseItem) : string :=
  String.concat EmptyString (omap (λ c, delta_content (ck_delta c)) (choices items)).

Definition finish_reasons (items : list SseItem) : list string :=
  omap ck_finish_reason (choices items).

Definition rx_text (rx : list GeneratedToken) : string :=
  String.concat EmptyString ((λ t, text_of (tok_text t)) <$> rx).

Definition final_reason (rx : list GeneratedToken) : string :=
  default "length"%string (finish_reason_str <$> (last rx ≫= tok_finish)).

Definition lf : ascii := ascii_of_nat 10.

(** How a client reads an event stream: the data lines up to a blank line are
    one event. *)
Fixpoint dispatch (lines : list string) (data : option string) : list string :=
  match lines with
  | [] => []
  | l :: lines' =>
      if String.eqb l EmptyString then option_list data ++ dispatch lines' None
      else
        match strip_prefix "data:" l with
        | Some v =>
            let v := default v (strip_prefix " " v) in
            dispatch lines' (Some (match data with Some d => d +:+ newline +:+ v | None => v end))
        | None => dispatch lines' data
        end
  end.

Definition sse_decode (s : string) : list string := dispatch (split lf s) None.

(** The bytes of a streamed body. *)
Definition stream_bytes `{!SerdeJson} (items : list SseItem) : string :=
  String.concat EmptyString (sse_bytes <$> items).

Definition sse_payload `{!SerdeJson} (i : SseItem) : string :=
  match i with
  | SseChunk c => json_to_string (chunk_json c)
  | SseError e => json_to_string (error_envelope e)
  | SseDone => "[DONE]"
  end.

Definition one_line (s : string) : Prop := str_all (λ c, negb (Ascii.eqb lf c)) s = true.

(** The compact form of [serde_json] escapes control characters and puts no
    line breaks between tokens. *)
Class CompactJson `{!SerdeJson} : Prop := { json_one_line : ∀ j, one_line (json_to_string j) }.

(** Only the last token of a receiver carries a finish reason. *)
Fixpoint ends_once (rx : list GeneratedToken) : Prop :=
  match rx with
  | [] => True
  | t :: rx' => match rx' with [] => True | _ => tok_finish t = None ∧ ends_once rx' end
  end.

Lemma rx_text_cons t rx : rx_text (t :: rx) = text_of (tok_text t) +:+ rx_text rx.
Proof. unfold rx_text. by rewrite fmap_cons, concat_cons. Qed.

Lemma streamed_chunk_cons c rest d f :
  chunk_choices c = [mk_chunk_choice 0 d f] →
  streamed_text (SseChunk c :: rest) = default EmptyString (delta_content d) +:+ streamed_text rest ∧
  finish_reasons (SseChunk c :: rest) = option_list f ++ finish_reasons rest.
Proof.
  intros Hc. unfold streamed_text, finish_reasons, choices. csimpl. rewrite Hc. csimpl.
  split; [|by destruct f]. destruct (delta_content d); csimpl; [by rewrite concat_cons|done].
Qed.

Lemma collect_spec rx text finish n :
  ends_once rx →
  collect rx text finish n
  = (text +:+ rx_text rx, default finish (finish_reason_str <$> (last rx ≫= tok_finish)),
     n + Z.of_nat (length rx)).
Proof.
  revert text finish n. induction rx as [|t rx IH]; intros text finish n He.
  { simpl. by rewrite str_append_nil_r, Z.add_0_r. }
  cbn [collect]. rewrite rx_text_cons, str_append_assoc. destruct rx as [|u rx].
  - simpl. rewrite str_append_nil_r. by destruct (tok_finish t).
  - destruct He as [Ht He]. rewrite Ht, IH by done. f_equal. simpl length. lia.
Qed.

Lemma relay_end sticky id created model finished :
  let items := relay sticky id created model [] finished in
  streamed_text items = EmptyString ∧
  finish_reasons items = (if finished then [] else ["length"%string]) ∧
  last items = Some SseDone ∧ (∀ e, SseError e ∉ items).
Proof. destruct finished; split_and!; try done; intros e; cbn; set_solver. Qed.

(** The loop of a stream, on a receiver that has not finished yet. *)
Lemma relay_spec sticky id created model rx :
  ends_once rx →
  let items := relay sticky id created model rx false in
  streamed_text items = rx_text rx ∧ finish_reasons items = [final_reason rx] ∧
  last items = Some SseDone ∧ (∀ e, SseError e ∉ items).
Proof.
  induction rx as [|t rx IH]; intros He; cbn [relay].
  { unfold final_reason. simpl. split_and!; [done..|]. intros e. set_solver. }
  destruct rx as [|u rx].
  { edestruct (streamed_chunk_cons (chunk id created model (mk_delta None (Some (text_of (tok_text t))))
      (finish_reason_str <$> tok_finish t))) as [-> ->]; [done|].
    assert ((if sticky then false || bool_decide (is_Some (finish_reason_str <$> tok_finish t))
             else bool_decide (is_Some (finish_reason_str <$> tok_finish t)))
            = bool_decide (is_Some (tok_finish t))) as -> by by destruct sticky, (tok_finish t).
    destruct (relay_end sticky id created model (bool_decide (is_Some (tok_finish t))))
      as (-> & -> & Hlast & Herr).
    rewrite rx_text_cons. unfold final_reason. change (last [t] ≫= tok_finish) with (tok_finish t).
    set (l := relay _ _ _ _ _ _) in *. split_and!; [done| | |].
    - by destruct (tok_finish t).
    - by rewrite last_cons, Hlast.
    - intros e. rewrite elem_of_cons. intros [|]; [done|by eapply Herr]. }
  destruct He as [Ht He]. rewrite Ht. cbn [fmap option_fmap option_map].
  assert ((if sticky then false || bool_decide (is_Some (@None string))
           else bool_decide (is_Some (@None string))) = false) as -> by by destruct sticky.
  destruct (IH He) as (Htext & Hfin & Hlast & Herr). set (items := relay _ _ _ _ _ _) in *.
  edestruct (streamed_chunk_cons (chunk id created model (mk_delta None (Some (text_of (tok_text t)))) None))
    as [-> ->]; [done|].
  rewrite Htext, Hfin, (rx_text_cons t). split_and!; [done|done| |].
  - by rewrite last_cons, Hlast.
  - intros e. rewrite elem_of_cons. intros [|]; [done|by eapply Herr].
Qed.

(** What the model promises of its tokens, for the mock model. *)
Lemma ends_once_snoc out t : Forall (λ u, tok_finish u = None) out → ends_once (out ++ [t]).
Proof.
  induction 1 as [|u out Hu Hout IH]; [done|]. cbn [app ends_once].
  destruct (out ++ [t]) eqn:Heq; [done|]. by split.
Qed.

Lemma ends_once_none out : Forall (λ u, tok_finish u = None) out → ends_once out.
Proof. induction 1 as [|u [|v out] Hu Hout IH]; [done..|]. by split. Qed.

Lemma mock_ends_once m prompt params : ends_once (MockModel.generate m prompt params (λ _ _, true) []).1.
Proof.
  unfold MockModel.generate. generalize (MockModel.last_or_zero prompt).
  assert (Forall (λ u, tok_finish u = None) []) as Hout by constructor. revert Hout.
  generalize (@nil GeneratedToken) as out.
  induction (Z.to_nat (max_tokens params)) as [|n IH]; intros out Hout prev;
    cbn [MockModel.generate_loop]; [by apply ends_once_none|].
  case_decide; [by apply ends_once_none|]. unfold mbind, gen_bind, emit. simpl.
  case_bool_decide; simpl; [by apply ends_once_snoc|]. apply IH.
  apply Forall_app. split; [done|]. by repeat constructor.
Qed.

(** ** Server-sent events *)

Section sse.
Context `{!SerdeJson} `{!CompactJson}.

Lemma dispatch_event p rest :
  one_line p → dispatch (split lf ("data: " +:+ p +:+ newline +:+ newline +:+ rest)) None
               = p :: dispatch (split lf rest) None.
Proof.
  intros Hp.
  replace ("data: " +:+ p +:+ newline +:+ newline +:+ rest)
    with (String.append ("data: " +:+ p) (String lf (String.append EmptyString (String lf rest))))
    by (rewrite <- str_append_assoc; done).
  rewrite !split_append. unfold split at 1. rewrite split_with_none.
  - assert (strip_prefix "data:" ("data: " +:+ p) = Some (" " +:+ p)) as Hd
      by by apply strip_prefix_spec.
    assert (strip_prefix " " (" " +:+ p) = Some p) as Hs by by apply strip_prefix_spec.
    cbn [app dispatch]. rewrite Hd. simpl (String.eqb _ _). cbv iota. by rewrite Hs.
  - by rewrite str_all_append, Hp.
Qed.

Lemma sse_payload_line i : one_line (sse_payload i).
Proof. destruct i; [apply json_one_line..|done]. Qed.

Lemma sse_bytes_payload i : sse_bytes i = "data: " +:+ sse_payload i +:+ newline +:+ newline.
Proof. by destruct i. Qed.

(** A client gets back every event of a stream. Whatever a driver yields,
    reading the bytes of the body as an event stream gives the payloads in
    order: the JSON text of each chunk or error, and [DONE] for the end; no
    event is split, merged or lost. *)
Theorem sse_roundtrip items : sse_decode (stream_bytes items) = sse_payload <$> items.
Proof.
  unfold sse_decode, stream_bytes. induction items as [|i items IH]; [done|].
  rewrite !fmap_cons, concat_cons, sse_bytes_payload, <- !str_append_assoc.
  rewrite dispatch_event by apply sse_payload_line. by rewrite IH.
Qed.
End sse.

(** ** The theorems *)

(** C32: Streaming changes how a chat completion arrives, not what it says. For
    a registered model whose run does not panic and puts a finish reason on its
    last token at most, the contents of the chunks joined together are the
    message of the full answer, exactly one chunk carries a finish reason and
    it is that of the full answer, the first chunk has the role, no error event
    appears, the stream ends with [DONE], and the usage counts the tokens
    received. For an unknown model the stream is the role, one error event with
    the message of the full error, and the end. *)
Theorem chat_stream_agrees t e r :
  match Engine.generate (chat_model r) (chat_tokens r) (chat_params r) e with
  | inl err =>
      chat_completion t e r = Ret (inl err) ∧
      ∃ c, chat_completion_stream t e r = Ret [SseChunk c; SseError (server_error err); SseDone]
  | inr (out, o) =>
      o ≠ Crash → ends_once out →
      ∃ items finish,
        chat_completion_stream t e r = Ret items ∧
        chat_completion t e r = Ret (inr (mk_chat_response ("chatcmpl-" +:+ short_id t)
          "chat.completion" (now_secs t) (chat_model r)
          [mk_chat_choice 0 (mk_message_out "assistant" (streamed_text items) None) finish]
          (usage (chat_tokens r) (Z.of_nat (length out))))) ∧
        finish_reasons items = [finish] ∧ last items = Some SseDone ∧
        (delta_role ∘ ck_delta <$> head (choices items)) = Some (Some "assistant"%string) ∧
        (∀ err, SseError err ∉ items)
  end.
Proof.
  unfold chat_completion_stream, chat_completion, engine_rx.
  destruct (Engine.generate _ _ _ e) as [err|[out o]]; [split; [done|by eexists]|].
  intros Ho He.
  assert (∀ A (x y : exec A), match o with Crash => x | _ => y end = y) as Hc by by destruct o.
  rewrite Hc. cbn [mbind exec_bind with_rx]. unfold full_chat.
  rewrite collect_spec by done.
  destruct (relay_spec false ("chatcmpl-" +:+ short_id t) (now_secs t) (chat_model r) out He)
    as (Htext & Hfin & Hlast & Herr).
  eexists _, (final_reason out). split; [done|]. unfold chat_stream, stream_of.
  set (items := relay _ _ _ _ _ _) in *.
  edestruct (streamed_chunk_cons (chunk ("chatcmpl-" +:+ short_id t) (now_secs t) (chat_model r)
    (mk_delta (Some "assistant"%string) None) None)) as [-> ->]; [done|].
  rewrite Htext. cbn [delta_content default String.append option_list app].
  split_and!; [done|done|by rewrite last_cons, Hlast|done|].
  intros err. rewrite elem_of_cons. intros [|]; [done|by eapply Herr].
Qed.

(** ** Concrete runs *)

Module Examples.

(** A printer of compact JSON. *)

Definition escape_char (c : ascii) : string :=
  if code c <? 32 then "\u00" +:+ (if code c <? 16 then "0" else "") +:+ hex (code c)
  else if (code c =? 34) || (code c =? 92) then String (ascii_of_nat 92) (String c EmptyString)
  else String c EmptyString.

Fixpoint escape (s : string) : string :=
  match s with EmptyString => EmptyString | String c s' => escape_char c +:+ escape s' end.

Definition print_string (s : string) : string := quote +:+ escape s +:+ quote.

Fixpoint print_json (j : json) : string :=
  match j with
  | JNull => "null"
  | JBool b => if b then "true" else "false"
  | JNumber (IntNumber n) => (if n <? 0 then "-" else "") +:+ decimal (Z.abs n)
  | JNumber (FloatNumber text) => escape text
  | JString s => print_string s
  | JArray l => "[" +:+ String.concat "," (List.map print_json l) +:+ "]"
  | JObject o =>
      "{" +:+ String.concat ","
        (List.map (λ kv : string * json, print_string kv.1 +:+ ":" +:+ print_json kv.2) o) +:+ "}"
  end.

#[local] Instance serde : SerdeJson := {| json_to_string := print_json |}.

Lemma one_line_append a b : one_line a → one_line b → one_line (a +:+ b).
Proof. unfold one_line. intros Ha Hb. by rewrite str_all_append, Ha, Hb. Qed.

Lemma one_line_concat sep l : one_line sep → Forall one_line l → one_line (String.concat sep l).
Proof.
  intros Hsep. induction 1 as [|s [|s' l] Hs _ IH]; [done..|].
  by repeat apply one_line_append.
Qed.

Lemma one_line_escape_char c : one_line (escape_char c).
Proof. destruct c as [[] [] [] [] [] [] [] []]; vm_compute; reflexivity. Qed.

Lemma one_line_escape s : one_line (escape s).
Proof.
  induction s as [|c s IH]; [done|]. apply one_line_append; [apply one_line_escape_char|done].
Qed.

Lemma one_line_decimal z : one_line (decimal z).
Proof.
  unfold one_line. eapply str_all_impl; [|apply decimal_all_digits].
  intros c Hc. apply negb_true_iff, not_true_is_false. intros <-%Ascii.eqb_eq. discriminate.
Qed.

#[local] Instance compact : CompactJson.
Proof.
  constructor. intros j. change (json_to_string j) with (print_json j).
  induction j as [|b|n|s|l IH|o IH] using json_ind; cbn [print_json].
  - done.
  - by destruct b.
  - destruct n as [n|text]; [|apply one_line_escape].
    apply one_line_append; [by destruct (n <? 0)|apply one_line_decimal].
  - by repeat apply one_line_append; try apply one_line_escape.
  - repeat apply one_line_append; [done| |done]. apply one_line_concat; [done|].
    by apply List.Forall_map.
  - repeat apply one_line_append; [done| |done]. apply one_line_concat; [done|].
    apply List.Forall_map. eapply Forall_impl; [exact IH|]. intros kv Hkv.
    by repeat apply one_line_append; try apply one_line_escape.
Qed.

Definition ex_engine : Engine := Engine.register "m" (dyn (mk_mock 8)) Engine.new.

Definition ex_chat : ChatCompletionRequest :=
  mk_chat "m" [mk_message "user" "hi" None] (Some f32_zero) 2 None None false None None.

Definition ex_clock : Clock := mk_clock 255 7.

Example ex_stream :
  stream_bytes (chat_stream false ex_clock ex_chat (inl (NotFound "m")))
  = String.concat EmptyString
      ["data: {"; quote; "id"; quote; ":"; quote; "chatcmpl-ff"; quote; ","; quote; "object"; quote;
       ":"; quote; "chat.completion.chunk"; quote; ","; quote; "created"; quote; ":7,"; quote; "model";
       quote; ":"; quote; "m"; quote; ","; quote; "choices"; quote; ":[{"; quote; "index"; quote;
       ":0,"; quote; "delta"; quote; ":{"; quote; "role"; quote; ":"; quote; "assistant"; quote;
       "}}]}"; newline; newline;
       "data: {"; quote; "error"; quote; ":{"; quote; "message"; quote; ":"; quote;
       "model 'm' not found in registry"; quote; ","; quote; "type"; quote; ":"; quote;
       "server_error"; quote; ","; quote; "param"; quote; ":null,"; quote; "code"; quote; ":null}}";
       newline; newline; "data: [DONE]"; newline; newline]%string.
Proof. vm_compute. reflexivity. Qed.

Lemma sse_roundtrip_witness :
  let items := chat_stream false ex_clock ex_chat (inl (NotFound "m")) in
  sse_decode (stream_bytes items) = sse_payload <$> items.
Proof. apply sse_roundtrip. Defined.

Lemma chat_stream_agrees_witness :
  ∃ items, chat_completion_stream ex_clock ex_engine ex_chat = Ret items ∧
    streamed_text items = "de"%string ∧ finish_reasons items = ["length"%string].
Proof.
  pose proof (chat_stream_agrees ex_clock ex_engine ex_chat) as H.
  assert (Engine.generate (chat_model ex_chat) (chat_tokens ex_chat) (chat_params ex_chat) ex_engine
    = inr ([mk_token 3 [100] f32_zero None; mk_token 4 [101] f32_zero None], Done Length)) as Hg
    by (vm_compute; reflexivity).
  rewrite Hg in H. destruct H as (items & finish & Hs & Hc & Hf & _); [done|by simpl|].
  exists items. split; [exact Hs|].
  assert (finish = "length"%string ∧ streamed_text items = "de"%string) as [-> ->]; [|done].
  vm_compute in Hc. by simplify_eq.
Defined.

(** The scheduler's final token counts as generated: a request for three
    tokens is billed four. *)
Theorem scheduled_usage_counts_final `{Entropy} rng :
  let r := mk_completion "m" "a" (Some f32_zero) 3 None false None in
  match scheduled_completion (iterations 4) ex_clock (demo_engine rng) r with
  | Ret (Some (inr full), _) => Some (completion_tokens (pr_usage full))
  | _ => None
  end = Some 4 ∧
  match completion ex_clock ex_engine r with
  | Ret (inr full) => Some (completion_tokens (pr_usage full))
  | _ => None
  end = Some 3.
Proof. vm_compute. auto. Qed.

End Examples.
