(* ===== verification/OpenAiHttp.v ===== *)
(** * OpenAiHttp: the HTTP endpoints of the OpenAI-compatible API

    [crates/justapi-core/src/openai.rs]: the handlers of the four endpoints, on
    an engine, through the scheduler, or routed by the control plane and the
    replica router before they run.  A streamed body is the bytes of all its
    events.  [body_error] is the message of a body that breaks off. *)

From S2P Require Import Prelude F32 Text Http Model SpecDecode Scheduler Engine SchedulerEngine ControlPlane LlmRouter OpenAi.

#[local] Open Scope Z_scope.

(** [serde_json::from_slice] into a [Value]. *)
Class ParseValue := { parse_value : string → option json }.

(** [StatusCode::from_u16] takes 100 to 999. *)
Definition safe_status (st : Z) : Z := if (100 <=? st) && (st <=? 999) then st else 500.

(** [lib.rs], [streaming_response]. *)
Definition streaming_response (st : Z) (content_type : string) (bytes : string) : Response :=
  mk_response st [("content-type"%string, content_type)] bytes.

Section handlers.
Context `{!SerdeJson} `{!OpenAiSerde} `{!ParseValue}.
Context (body_error : string).

(** [json_response(safe_status(st), &json)] of an [error_json]. *)
Definition reject (message error_type : string) (st : Z) : Response :=
  let '(st, j) := error_json message error_type st in json_response (safe_status st) j.

(** The answer to a driver that failed. *)
Definition failed (e : ModelError) : Response :=
  json_response 422 (json_to_string (error_envelope (server_error e))).

Definition sse (items : list SseItem) : Response :=
  streaming_response 200 "text/event-stream" (stream_bytes items).

Definition full {A} (to_json : A → json) (res : ModelError + A) : Response :=
  match res with inl e => failed e | inr a => json_response 200 (json_to_string (to_json a)) end.

(** *** Engine handlers *)

(** The part of a handler after its request is parsed. *)
Definition serve_chat (t : Clock) (e : Engine) (r : ChatCompletionRequest) : exec Response :=
  if chat_streaming r then items ← chat_completion_stream t e r; Ret (sse items)
  else res ← chat_completion t e r; Ret (full chat_response_json res).

Definition serve_completion (t : Clock) (e : Engine) (r : CompletionRequest) : exec Response :=
  if comp_streaming r then items ← completion_stream t e r; Ret (sse items)
  else res ← completion t e r; Ret (full completion_response_json res).

Definition serve_embeddings (r : EmbeddingRequest) : Response :=
  full embedding_response_json (inr (embeddings r)).

(** The body and its parse, which end most handlers early. *)
Definition with_parsed {A B} (parse : string → string + A) (early : Response → B) (req : Request)
    (serve : A → B) : B :=
  match req_body req with
  | None => early (reject body_error "invalid_request_error" 400)
  | Some b =>
      match parse b with
      | inl e => early (reject e "invalid_request_error" 400)
      | inr r => serve r
      end
  end.

Definition chat_completions_handler (t : Clock) (e : Engine) (req : Request) : exec Response :=
  with_parsed parse_chat Ret req (serve_chat t e).

Definition completions_handler (t : Clock) (e : Engine) (req : Request) : exec Response :=
  with_parsed parse_completion Ret req (serve_completion t e).

Definition embeddings_handler (req : Request) : Response :=
  with_parsed parse_embedding (λ r, r) req serve_embeddings.

Definition models_handler (t : Clock) (e : Engine) : Response :=
  json_response 200 (json_to_string (model_list_json (model_list t e))).

(** *** Scheduler handlers *)

Section scheduled.
Context `{Entropy}.
Context (later : SchedulerEngine → exec SchedulerEngine).

(** The response and the engine; no response while the driver waits. *)
Definition respond {A} (f : A → Response) (res : option A * SchedulerEngine)
    : exec (option Response * SchedulerEngine) := Ret (f <$> res.1, res.2).

Definition scheduled_chat_completions_handler (t : Clock) (e : SchedulerEngine) (req : Request)
    : exec (option Response * SchedulerEngine) :=
  with_parsed parse_chat (λ resp, Ret (Some resp, e)) req (λ r,
    if chat_streaming r
    then scheduled_chat_completion_stream later t e r ≫= respond sse
    else scheduled_chat_completion later t e r ≫= respond (full chat_response_json)).

Definition scheduled_completions_handler (t : Clock) (e : SchedulerEngine) (req : Request)
    : exec (option Response * SchedulerEngine) :=
  with_parsed parse_completion (λ resp, Ret (Some resp, e)) req (λ r,
    if comp_streaming r
    then scheduled_completion_stream later t e r ≫= respond sse
    else scheduled_completion later t e r ≫= respond (full completion_response_json)).
End scheduled.

(** *** Routed handlers *)

Definition routing_context (b : string) : option RouteRequest :=
  v ← parse_value b;
  m ← json_get "model" v;
  model ← as_str m;
  Some (LlmRouter.mk_request model (json_get "version" v ≫= as_str) (json_get "routing_key" v ≫= as_str)).

Inductive AdmitOutcome := Serve (d : RouteDecision) | Reject (r : Response).

Definition admit_request (b : string) (cp : ControlPlane) (rt : Router) : exec (AdmitOutcome * Router) :=
  match routing_context b with
  | None => Ret (Reject (reject "request must include a `model`" "invalid_request_error" 400), rt)
  | Some q =>
      res ← Router.route cp q rt;
      Ret (match res.1 with
           | Some d => Serve d
           | None =>
               Reject (reject "no replica available to serve this request (all at capacity or no route)"
                         "server_error" 503)
           end, res.2)
  end.

(** The body, admission and the parse; [serve] gets the decision. *)
Definition routed {A} (parse : string → string + A) (serve : RouteDecision → A → exec Response)
    (cp : ControlPlane) (rt : Router) (req : Request) : exec (Response * Router) :=
  match req_body req with
  | None => Ret (reject body_error "invalid_request_error" 400, rt)
  | Some b =>
      res ← admit_request b cp rt;
      match res.1 with
      | Reject resp => Ret (resp, res.2)
      | Serve d =>
          match parse b with
          | inl e => Ret (reject e "invalid_request_error" 400, res.2)
          | inr r => resp ← serve d r; Ret (resp, res.2)
          end
      end
  end.

(** [req.model = decision.resolved.model_name.clone()] *)
Definition chat_for (d : RouteDecision) (r : ChatCompletionRequest) : ChatCompletionRequest :=
  mk_chat (rm_model_name (rd_resolved d)) (chat_messages r) (chat_temperature r) (chat_max_tokens r)
    (chat_max_completion_tokens r) (chat_top_p r) (chat_streaming r) (chat_stop r) (chat_user r).
Definition completion_for (d : RouteDecision) (r : CompletionRequest) : CompletionRequest :=
  mk_completion (rm_model_name (rd_resolved d)) (comp_prompt r) (comp_temperature r)
    (comp_max_tokens r) (comp_top_p r) (comp_streaming r) (comp_stop r).
Definition embedding_for (d : RouteDecision) (r : EmbeddingRequest) : EmbeddingRequest :=
  mk_embedding (rm_model_name (rd_resolved d)) (emb_input r) (emb_encoding_format r).

Definition routed_chat_completions_handler (t : Clock) (e : Engine) : ControlPlane → Router →
    Request → exec (Response * Router) :=
  routed parse_chat (λ d r, serve_chat t e (chat_for d r)).

Definition routed_completions_handler (t : Clock) (e : Engine) : ControlPlane → Router →
    Request → exec (Response * Router) :=
  routed parse_completion (λ d r, serve_completion t e (completion_for d r)).

Definition routed_embeddings_handler : ControlPlane → Router → Request → exec (Response * Router) :=
  routed parse_embedding (λ d r, Ret (serve_embeddings (embedding_for d r))).
End handlers.

(** ** The theorems *)

Section lemmas.
Context `{!SerdeJson} `{!OpenAiSerde} `{!ParseValue}.

Lemma reject_status message ty st : 100 <= st <= 999 → status (reject message ty st) = st.
Proof.
  intros Hst. unfold reject, error_json, safe_status. simpl.
  rewrite andb_true_intro; [done|]. split; apply Z.leb_le; lia.
Qed.

(** No model of the engine panics. *)
Definition no_crash (e : Engine) : Prop :=
  ∀ name m prompt params, Engine.get name e = Some m →
    (Model.generate m prompt params (λ _ _, true) []).2 ≠ Crash.

Lemma engine_rx_returns e name prompt params :
  no_crash e →
  ∃ rx, engine_rx e name prompt params = Ret rx ∧
    (match rx with inl _ => True | inr _ => False end ↔ Engine.get name e = None).
Proof.
  intros Hc. unfold engine_rx, Engine.generate. specialize (Hc name).
  change (ModelRegistry.get name (registry e)) with (Engine.get name e).
  destruct (Engine.get name e) as [m|]; [|by eexists].
  specialize (Hc m prompt params eq_refl).
  destruct (Model.generate m prompt params _ []) as [out [f|err|]]; [| |done]; by eexists.
Qed.

Lemma serve_chat_status t e r :
  no_crash e →
  ∃ resp, serve_chat t e r = Ret resp ∧
    status resp = if chat_streaming r then 200
                  else match Engine.get (chat_model r) e with Some _ => 200 | None => 422 end.
Proof.
  intros Hc. unfold serve_chat, chat_completion_stream, chat_completion.
  destruct (engine_rx_returns e (chat_model r) (chat_tokens r) (chat_params r) Hc)
    as (rx & -> & Hrx).
  destruct (chat_streaming r); simpl; [by eexists|]. eexists. split; [done|].
  destruct (Engine.get (chat_model r) e), rx; simpl; naive_solver.
Qed.
End lemmas.

(** C26: What a routed chat completion answers, on every path. Over an engine
    whose models do not panic the handler always answers, and it leaves the
    replicas as they were. The answer is 400 when the body breaks off or names
    no model; 503 when the control plane does not resolve the name or no
    replica is eligible for what it resolves to; 400 when the body is no chat
    request; and otherwise what the engine answers to the request under the
    resolved model name: 422 when the engine does not have that model and the
    answer is not streamed, 200 else. *)
Theorem routed_chat_answers `{!SerdeJson} `{!OpenAiSerde} `{!ParseValue} body_error t e cp rt req :
  no_crash e →
  ∃ resp rt', routed_chat_completions_handler body_error t e cp rt req = Ret (resp, rt') ∧
    replicas rt' = replicas rt ∧
    match req_body req with
    | None => status resp = 400
    | Some b =>
        match routing_context b with
        | None => status resp = 400 ∧ rt' = rt
        | Some q =>
            match ControlPlane.resolve (rq_model q) (rq_version q) (rq_routing_key q) cp with
            | None => status resp = 503 ∧ rt' = rt
            | Some m =>
                (status resp = 503 ∧ rt' = rt ∧ ∀ r, r ∈ replicas rt → ¬ eligible m r) ∨
                ((∃ r, r ∈ replicas rt ∧ eligible m r) ∧
                 match parse_chat b with
                 | inl _ => status resp = 400
                 | inr r =>
                     serve_chat t e (mk_chat (rm_model_name m) (chat_messages r) (chat_temperature r)
                       (chat_max_tokens r) (chat_max_completion_tokens r) (chat_top_p r)
                       (chat_streaming r) (chat_stop r) (chat_user r)) = Ret resp ∧
                     status resp = (if chat_streaming r then 200
                                    else match Engine.get (rm_model_name m) e with
                                         | Some _ => 200 | None => 422 end)
                 end)
            end
        end
    end.
Proof.
  intros Hc. unfold routed_chat_completions_handler, routed, admit_request.
  destruct (req_body req) as [b|]; [|by eexists _, _].
  destruct (routing_context b) as [q|]; [|by eexists _, _].
  pose proof (route_spec cp q rt) as Hroute.
  destruct (ControlPlane.resolve _ _ _ cp) as [m|]; [|rewrite Hroute; by eexists _, _].
  destruct Hroute as [[-> Hno]|(r & rt' & -> & Hr & He & _ & Hrs & _)].
  { eexists _, _. split; [done|]. split; [done|]. by left. }
  cbn [mbind exec_bind fst snd]. destruct (parse_chat b) as [err|cr].
  { eexists _, _. split; [done|]. split; [done|]. right. split; [by exists r|done]. }
  destruct (serve_chat_status t e (chat_for (mk_decision (rep_id r) m) cr) Hc) as (resp & Hs & Hst).
  rewrite Hs. eexists _, _. split; [done|]. split; [done|]. right. split; [by exists r|].
  split; [exact Hs|exact Hst].
Qed.

(** ** Concrete requests *)

Module Examples.

#[local] Instance serde : SerdeJson := {| json_to_string := OpenAi.Examples.print_json |}.
#[local] Instance value : ParseValue := {|
  parse_value b := if String.eqb b "{}" then Some (JObject [])
                   else Some (JObject [("model"%string, JString "m")]) |}.
#[local] Instance requests : OpenAiSerde := {|
  parse_chat b := if String.eqb b "{}" then inl "missing field"%string
                  else inr OpenAi.Examples.ex_chat;
  parse_completion _ := inl "missing field"%string;
  parse_embedding _ := inl "missing field"%string;
  f32_text _ := "0.0"%string |}.

Definition ex_cp : ControlPlane :=
  ControlPlane.register (mk_record "m" [ModelVersion.new "v1" (Local "/models/m")] "v1" ∅) ControlPlane.new.

Definition ex_replica : Replica := mk_replica "r1" "m" "v1" Cpu 4 0 f32_zero true [].
Definition ex_router : Router := mk_router LeastLoaded [ex_replica] 0.

Definition post (b : string) : Request :=
  new_request "POST" "/v1/chat/completions" None [] (Some b).

Lemma mock_no_crash v prompt params :
  MockModel.vocab32 (mk_mock v) ≠ 0 →
  (MockModel.generate (mk_mock v) prompt params (λ _ _, true) []).2 ≠ Crash.
Proof.
  intros Hv. unfold MockModel.generate. generalize (MockModel.last_or_zero prompt), (@nil GeneratedToken).
  induction (Z.to_nat (max_tokens params)) as [|n IH]; intros prev out; cbn [MockModel.generate_loop];
    [done|]. rewrite decide_False by done. unfold mbind, gen_bind, emit. cbn [negb].
  case_bool_decide; [done|apply IH].
Qed.

Lemma ex_no_crash : no_crash OpenAi.Examples.ex_engine.
Proof.
  intros name m prompt params. unfold OpenAi.Examples.ex_engine, Engine.get, ModelRegistry.get,
    Engine.register, ModelRegistry.register. cbn [registry].
  destruct (decide (name = "m"%string)) as [->|Hne].
  - rewrite lookup_insert_eq. intros [= <-]. apply mock_no_crash. vm_compute. discriminate.
  - rewrite lookup_insert_ne by done. cbn. by rewrite lookup_empty.
Qed.

(** Served, not a chat request, and no replica. *)
Example ex_served : match routed_chat_completions_handler "eof" OpenAi.Examples.ex_clock
    OpenAi.Examples.ex_engine ex_cp ex_router (post "{model}") with
  | Ret (r, _) => status r | Panic => 0 end = 200.
Proof. vm_compute. reflexivity. Qed.

Example ex_no_replica : match routed_chat_completions_handler "eof" OpenAi.Examples.ex_clock
    OpenAi.Examples.ex_engine ex_cp (mk_router LeastLoaded [] 0) (post "{model}") with
  | Ret (r, _) => status r | Panic => 0 end = 503.
Proof. vm_compute. reflexivity. Qed.

Lemma routed_chat_answers_witness :
  ∃ resp rt', routed_chat_completions_handler "eof" OpenAi.Examples.ex_clock
      OpenAi.Examples.ex_engine ex_cp ex_router (post "{model}") = Ret (resp, rt') ∧ status resp = 200.
Proof.
  destruct (routed_chat_answers "eof" OpenAi.Examples.ex_clock OpenAi.Examples.ex_engine ex_cp ex_router
    (post "{model}") ex_no_crash) as (resp & rt' & Heq & _ & H).
  exists resp, rt'. split; [exact Heq|]. vm_compute in H.
  destruct H as [(_ & _ & Hno)|(_ & _ & Hst)]; [|exact Hst].
  exfalso. apply (Hno ex_replica); [apply list_elem_of_here|]. by repeat split.
Defined.

End Examples.
