(* ===== verification/Compress.v ===== *)
(** * Compress: the choice of a content encoding and the compression middleware

    [crates/justapi-core/src/compress.rs].  The optional encodings of the build
    are the flags [brotli] and [zstd]; the compressors are parameters, with
    the decoders a client has for them as a law.  A response holds the bytes
    of its body; a body that is streamed may also break off, and with which
    error reading it ends is a parameter of the middleware. *)

From Stdlib Require Import Ascii.
From S2P Require Import Prelude F32 Text F64 Http Middleware.

#[local] Open Scope Z_scope.

Inductive Encoding := Gzip | Deflate | Brotli | Zstd | Identity.

#[export] Instance Encoding_eq_dec : EqDecision Encoding.
Proof. solve_decision. Defined.

Class Codec := {
  gzip_encode : string → string + string;
  deflate_encode : string → string + string;
  brotli_encode : string → string + string;
  zstd_encode : string → string + string;
  decode : Encoding → string → option string }.

(** ** The choice of the encoding *)

Section encoding.
Context (brotli zstd : bool).

(** The parameters of a part after its name; [q] is the only one read. *)
Fixpoint quality_of (params : list string) (q : f64) : f64 :=
  match params with
  | [] => q
  | p :: ps =>
      match split_once "=" (trim p) with
      | Some (key, val) =>
          if String.eqb (trim key) "q" then quality_of ps (default f64_zero (parse_f64 (trim val)))
          else quality_of ps q
      | None => quality_of ps q
      end
  end.

Definition known (name : string) : bool :=
  existsb (String.eqb name) ["br"; "zstd"; "gzip"; "x-gzip"; "deflate"; "*"]%string.

Definition candidate (part : string) : option (string * f64) :=
  match split ";" part with
  | [] => None
  | name :: params =>
      let name := trim name in
      let quality := quality_of params f64_one in
      if f32_le quality f64_zero then None
      else if known name then Some (name, quality) else None
  end.

Definition candidates (header_value : string) : list (string * f64) :=
  omap candidate (trim <$> split "," (lowercase header_value)).

Definition preference_order (name : string) : Z :=
  if String.eqb name "br" && brotli then 0
  else if String.eqb name "zstd" && zstd then 1
  else if String.eqb name "gzip" || String.eqb name "x-gzip" then 2
  else if String.eqb name "deflate" then 3
  else if String.eqb name "*" then 4 else 5.

(** By quality, the highest first, and then by preference. *)
Definition by_quality (a b : string * f64) : comparison :=
  match f32_cmp_or_eq b.2 a.2 with
  | Eq => preference_order a.1 ?= preference_order b.1
  | c => c
  end.

Definition encoding_named (name : string) : Encoding :=
  if String.eqb name "br" && brotli then Brotli
  else if String.eqb name "zstd" && zstd then Zstd
  else if String.eqb name "gzip" || String.eqb name "x-gzip" then Gzip
  else if String.eqb name "deflate" then Deflate
  else if String.eqb name "*" then (if brotli then Brotli else if zstd then Zstd else Gzip)
  else Identity.

Definition from_accept_encoding (header_value : string) : Encoding :=
  match sort_by by_quality (candidates header_value) with
  | [] => Identity
  | c :: _ => encoding_named c.1
  end.

Definition as_header_value (e : Encoding) : string :=
  match e with
  | Gzip => "gzip" | Deflate => "deflate" | Brotli => "br" | Zstd => "zstd" | Identity => "identity"
  end.

Definition is_compression (e : Encoding) : bool := negb (bool_decide (e = Identity)).

(** ** The middleware *)

Context `{!Codec}.

(** The [Result] of a compressor: an error on the left. *)
Definition compress_bytes (data : string) (e : Encoding) : string + string :=
  match e with
  | Gzip => gzip_encode data
  | Deflate => deflate_encode data
  | Brotli => brotli_encode data
  | Zstd => zstd_encode data
  | Identity => inr data
  end.

Record CompressionMiddleware := mk_compression { min_size : Z }.
Definition compression_new : CompressionMiddleware := mk_compression 1024.

Definition is_compressible_content_type (ct : string) : bool :=
  starts_with "text/" ct || contains "json" ct || contains "javascript" ct || contains "xml" ct
  || contains "svg" ct || contains "html" ct || contains "css" ct || contains "wasm" ct.

(** The error reading the body of a response ends with, if it does. *)
Context (broken : Response → option string).

(** What is made of the response of the rest of the chain: a body is collected
    only if it may have to be compressed. *)
Definition compress_response (c : CompressionMiddleware) (e : Encoding) (resp : Response) : outcome :=
  let content_type := default EmptyString (header_str "content-type" (headers resp)) in
  if negb (is_compressible_content_type content_type) then inl resp
  else if bool_decide (is_Some (assoc_get "content-encoding"%string (headers resp))) then inl resp
  else if broken resp is Some err then inr err
  else
    let size := Z.of_nat (String.length (body resp)) in
    if size <? min_size c then inl resp
    else
      match compress_bytes (body resp) e with
      | inl err => inr err
      | inr compressed =>
          let n := Z.of_nat (String.length compressed) in
          if size <=? n then inl resp
          else
            inl (mk_response (status resp)
                   (header_insert "vary" "accept-encoding"
                      (header_insert "content-length" (decimal n)
                         (header_insert "content-encoding" (as_header_value e) (headers resp))))
                   compressed)
      end.

Definition compression {W} (c : CompressionMiddleware) : Middleware W := λ next req w,
  let accept_encoding := default EmptyString (header_str "accept-encoding" (req_headers req)) in
  let encoding := from_accept_encoding accept_encoding in
  if negb (is_compression encoding) then next req w
  else after_ok (next req w) (compress_response c encoding).
End encoding.

(** ** The choice *)

Section choice.
Context (brotli zstd : bool).

Abbreviation numeric := (λ c : string * f64, is_nan c.2 = false).

Lemma by_quality_le a b :
  numeric a → numeric b →
  by_quality brotli zstd a b ≠ Gt ↔
  f32_le b.2 a.2 = true ∧
  (f32_le a.2 b.2 = true → preference_order brotli zstd a.1 <= preference_order brotli zstd b.1).
Proof.
  intros Ha Hb. rewrite <- !f32_cmp_or_eq_le by done. unfold by_quality.
  rewrite (f32_cmp_or_eq_antisym b.2 a.2).
  destruct (f32_cmp_or_eq b.2 a.2); simpl; [|naive_solver|naive_solver].
  rewrite Z.compare_gt_iff. split; [intros; split; [done|lia]|intros [_ H]].
  specialize (H ltac:(done)). lia.
Qed.

Lemma by_quality_trans a b c :
  numeric a → numeric b → numeric c →
  by_quality brotli zstd a b ≠ Gt → by_quality brotli zstd b c ≠ Gt →
  by_quality brotli zstd a c ≠ Gt.
Proof.
  intros Ha Hb Hc. rewrite !by_quality_le by done. intros [H1 H2] [H3 H4].
  split; [by apply (f32_le_trans _ b.2)|]. intros H5.
  assert (f32_le b.2 c.2 = true) by (by apply (f32_le_trans _ a.2)).
  assert (f32_le a.2 b.2 = true) by (by apply (f32_le_trans _ c.2)). etrans; eauto.
Qed.

Lemma by_quality_total a b :
  numeric a → numeric b → by_quality brotli zstd a b = Gt → by_quality brotli zstd b a ≠ Gt.
Proof.
  intros Ha Hb Hab. apply by_quality_le; [done..|].
  assert (¬ by_quality brotli zstd a b ≠ Gt) as Hn by tauto. rewrite by_quality_le in Hn by done.
  destruct (f32_le a.2 b.2) eqn:Hle.
  - split; [done|]. intros Hba. destruct (decide (preference_order brotli zstd b.1
      <= preference_order brotli zstd a.1)); [done|]. exfalso. apply Hn. split; [done|lia].
  - exfalso. apply Hn. split; [by apply f32_le_total|done].
Qed.

(** The encoding chosen is one the client ranks highest. When the weights of
    the header are numbers, the encoding is that of an acceptable name of the
    header, no other has a higher weight, and among those of the same weight it
    comes first in the order of preference; without acceptable names the
    answer is not encoded. *)
Theorem encoding_best header_value :
  Forall numeric (candidates header_value) →
  (candidates header_value = [] ∧ from_accept_encoding brotli zstd header_value = Identity) ∨
  ∃ c, c ∈ candidates header_value ∧ f32_le c.2 f64_zero = false ∧
    from_accept_encoding brotli zstd header_value = encoding_named brotli zstd c.1 ∧
    ∀ c', c' ∈ candidates header_value → f32_le c'.2 c.2 = true ∧
      (f32_le c.2 c'.2 = true →
       preference_order brotli zstd c.1 <= preference_order brotli zstd c'.1).
Proof.
  intros Hn. unfold from_accept_encoding.
  destruct (sort_by (by_quality brotli zstd) (candidates header_value)) as [|c rest] eqn:Hs.
  { left. split; [|done]. apply Permutation_nil. rewrite <- Hs. apply sort_by_perm. }
  right. destruct (sort_by_head _ numeric by_quality_trans by_quality_total _ _ _ Hn Hs) as [Hc Hbest].
  exists c. split; [done|]. rewrite Forall_forall in Hn. split_and!; [|done|].
  - apply list_elem_of_omap in Hc as (part & _ & Hp). unfold candidate in Hp.
    destruct (split ";" part); [done|]. destruct (f32_le _ _) eqn:Hle; [done|].
    destruct (known _); [|done]. by injection Hp as <-.
  - intros c' Hc'. apply by_quality_le; [by apply Hn..|].
    destruct (Hbest c' Hc') as [->|?]; [|done].
    apply by_quality_le; [by apply Hn..|]. split; [apply f32_le_refl; by apply Hn|done].
Qed.
End choice.

(** ** The middleware *)

Section transparent.
Context (brotli zstd : bool) `{!Codec}.

(** A client undoes what a compressor did, by the content coding that names
    its format: RFC 1952 for gzip, RFC 7932 for br, RFC 8878 for zstd.  Not for
    [Deflate]: the coding of that name is the zlib format of RFC 1950, while
    [DeflateEncoder] writes a raw stream of RFC 1951. *)
Class CodecLaws : Prop := {
  decode_compress : ∀ e data compressed,
    e ≠ Identity → e ≠ Deflate → compress_bytes data e = inr compressed → decode e compressed = Some data }.

Context (broken : Response → option string).

Definition encoding_of_header (v : string) : option Encoding :=
  List.find (λ e, String.eqb (as_header_value e) v) [Gzip; Deflate; Brotli; Zstd].

(** The body a client recovers. *)
Definition decoded (r : Response) : option string :=
  match assoc_get "content-encoding"%string (headers r) with
  | None => Some (body r)
  | Some v => e ← encoding_of_header v; decode e (body r)
  end.

Lemma encoding_of_value e : e ≠ Identity → encoding_of_header (as_header_value e) = Some e.
Proof. by destruct e. Qed.

Lemma is_compression_spec e : is_compression e = true ↔ e ≠ Identity.
Proof. unfold is_compression. rewrite negb_true_iff, bool_decide_eq_false. done. Qed.

Abbreviation negotiated req :=
  (from_accept_encoding brotli zstd (default EmptyString (header_str "accept-encoding" (req_headers req)))).

(** What the middleware did to a response. *)
Definition compressed_from (c : CompressionMiddleware) (e : Encoding) (r r' : Response) : Prop :=
  e ≠ Identity ∧ assoc_get "content-encoding"%string (headers r) = None ∧
  min_size c <= Z.of_nat (String.length (body r)) ∧
  (String.length (body r') < String.length (body r))%nat ∧
  compress_bytes (body r) e = inr (body r') ∧
  assoc_get "content-encoding"%string (headers r') = Some (as_header_value e) ∧
  assoc_get "content-length"%string (headers r') = Some (decimal (Z.of_nat (String.length (body r')))).

Lemma compress_response_spec `{!CodecLaws} c e r :
  e ≠ Identity →
  match compress_response broken c e r with
  | inr err => broken r = Some err ∨ compress_bytes (body r) e = inl err
  | inl r' =>
      status r' = status r ∧ (e ≠ Deflate → decoded r' = decoded r) ∧
      (∀ k, k ∉ ["content-encoding"; "content-length"; "vary"]%string →
            assoc_get k (headers r') = assoc_get k (headers r)) ∧
      (r' = r ∨ compressed_from c e r r')
  end.
Proof.
  intros He. unfold compress_response.
  assert (status r = status r ∧ (e ≠ Deflate → decoded r = decoded r) ∧
    (∀ k, k ∉ ["content-encoding"; "content-length"; "vary"]%string →
          assoc_get k (headers r) = assoc_get k (headers r)) ∧
    (r = r ∨ compressed_from c e r r)) as Hsame by (split_and!; [done..|by left]).
  destruct (negb _); [done|]. destruct (bool_decide _) eqn:Hce; [done|].
  apply bool_decide_eq_false, eq_None_not_Some in Hce.
  destruct (broken r) as [err|] eqn:Hbr; [by left|]. destruct (_ <? _) eqn:Hmin; [done|].
  destruct (compress_bytes (body r) e) as [err|data] eqn:Hdata; [by right|].
  destruct (_ <=? _) eqn:Hlen; [done|]. apply Z.ltb_ge in Hmin. apply Z.leb_gt in Hlen. cbn [status headers body].
  assert (∀ k, assoc_get k (header_insert "vary" "accept-encoding" (header_insert "content-length"
    (decimal (Z.of_nat (String.length data))) (header_insert "content-encoding" (as_header_value e) (headers r))))
    = if decide ("vary"%string = k) then Some "accept-encoding"%string
      else if decide ("content-length"%string = k) then Some (decimal (Z.of_nat (String.length data)))
      else if decide ("content-encoding"%string = k) then Some (as_header_value e)
      else assoc_get k (headers r)) as Hget by (intros k; by rewrite !header_insert_get).
  split_and!; [done| | |].
  - intros Hdef. unfold decoded. cbn [headers body]. rewrite Hget, Hce. simpl.
    rewrite encoding_of_value by done. by apply decode_compress.
  - intros k Hk. rewrite Hget. repeat case_decide; set_solver.
  - right. unfold compressed_from. cbn [headers body]. rewrite !Hget. split_and!; try done. lia.
Qed.

(** C33: Compression changes the transfer, not the answer. Around any rest of a
    chain, the answer has its status and all its headers but [Vary] and those
    of the encoding; either it is the very answer of the rest of the chain, or
    its body is what the compressor of the negotiated encoding made of it, is
    shorter, was at least the minimum size and not encoded before, and carries
    its encoding and its new length.  A client decodes it to the body the rest
    of the chain gave, if the negotiated encoding is not deflate: under that
    name a raw stream is sent that HTTP does not mean by it, a finding. An
    error or a panic of the rest of the chain, and its effects, are passed on;
    the only new errors are that of a body that cannot be read to its end and
    that of a compressor. *)
Theorem compression_transparent `{!CodecLaws} {W} c (next : HandlerFn W) req w :
  match next req w with
  | Ret (inl r, w') =>
      match compression brotli zstd broken c next req w with
      | Ret (inl r', w'') =>
          w'' = w' ∧ status r' = status r ∧ (negotiated req ≠ Deflate → decoded r' = decoded r) ∧
          (∀ k, k ∉ ["content-encoding"; "content-length"; "vary"]%string →
                assoc_get k (headers r') = assoc_get k (headers r)) ∧
          (r' = r ∨ compressed_from c (negotiated req) r r')
      | Ret (inr err, w'') =>
          w'' = w' ∧ (broken r = Some err ∨ compress_bytes (body r) (negotiated req) = inl err)
      | Panic => False
      end
  | res => compression brotli zstd broken c next req w = res
  end.
Proof.
  unfold compression. destruct (is_compression (negotiated req)) eqn:He; cbn [negb].
  - apply is_compression_spec in He. destruct (next req w) as [[[r|err] w']|]; [|done..].
    cbn [after_ok]. pose proof (compress_response_spec c (negotiated req) r He) as Hspec.
    by destruct (compress_response broken c (negotiated req) r).
  - destruct (next req w) as [[[r|err] w']|]; [by split_and!; [..|left]|done..].
Qed.
End transparent.

(** ** Concrete headers and answers *)

Module Examples.

Example prefers_gzip : from_accept_encoding false false "deflate, gzip" = Gzip.
Proof. vm_compute. reflexivity. Qed.
Example honours_weights : from_accept_encoding false false "deflate;q=1.0, gzip;q=0.5" = Deflate.
Proof. vm_compute. reflexivity. Qed.
Example all_refused : from_accept_encoding false false "gzip;q=0, deflate;q=0" = Identity.
Proof. vm_compute. reflexivity. Qed.

(** A refused encoding comes back through the wildcard. *)
Example wildcard_gives_refused : from_accept_encoding false false "gzip;q=0, *" = Gzip.
Proof. vm_compute. reflexivity. Qed.

(** A build without brotli answers a client that likes it best uncompressed. *)
Example unsupported_hides_supported : from_accept_encoding false false "br, gzip;q=0.9" = Identity.
Proof. vm_compute. reflexivity. Qed.

Lemma encoding_best_witness :
  ∃ c, c ∈ candidates "deflate, gzip" ∧
    from_accept_encoding false false "deflate, gzip" = encoding_named false false c.1 ∧
    ∀ c', c' ∈ candidates "deflate, gzip" → f32_le c'.2 c.2 = true.
Proof.
  destruct (encoding_best false false "deflate, gzip") as [[H _]|(c & Hc & _ & Heq & Hb)].
  - vm_compute. repeat constructor.
  - vm_compute in H. discriminate.
  - exists c. split; [exact Hc|]. split; [exact Heq|]. intros c' Hc'. apply (Hb c' Hc').
Defined.

(** Gzip as a code that drops the first byte of a text that begins with a known
    letter; the others fail. *)
#[local] Instance ex_codec : Codec := {|
  gzip_encode s := match s with String "a" s' => inr s' | _ => inl "unsupported"%string end;
  deflate_encode _ := inl "unsupported"%string;
  brotli_encode _ := inl "unsupported"%string;
  zstd_encode _ := inl "unsupported"%string;
  decode _ s := Some (String "a" s) |}.

#[local] Instance ex_codec_laws : CodecLaws.
Proof.
  constructor. intros [] data compressed He Hd; simpl; try done.
  destruct data as [|c data]; [done|].
  destruct c as [[] [] [] [] [] [] [] []]; simpl; by intros [= <-].
Qed.

Definition ex_request : Request :=
  new_request "GET" "/" None [("accept-encoding"%string, "gzip"%string)] None.
Definition ex_response : Response :=
  mk_response 200 [("content-type"%string, "text/plain"%string); ("vary"%string, "origin"%string)] "abc".

Definition ex_answer : exec (outcome * nat) :=
  compression false false (λ _, None) (mk_compression 2) (λ _ (w : nat), Ret (inl ex_response, S w)) ex_request 0%nat.

(** The [Vary] of the answer, here of a CORS middleware, is lost. *)
Example vary_overwritten :
  match ex_answer with Ret (inl r, _) => assoc_get "vary"%string (headers r) | _ => None end
  = Some "accept-encoding"%string.
Proof. vm_compute. reflexivity. Qed.

Lemma compression_transparent_witness :
  match ex_answer with
  | Ret (inl r', w') => w' = 1%nat ∧ status r' = 200 ∧ decoded r' = Some "abc"%string ∧ body r' = "bc"%string
  | _ => False
  end.
Proof.
  pose proof (compression_transparent false false (λ _, None) (mk_compression 2)
    (λ _ (w : nat), Ret (inl ex_response, S w)) ex_request 0%nat) as H.
  cbv beta iota in H. unfold ex_answer.
  destruct (compression _ _ _ _ _ _ _) as [[[r'|err] w']|] eqn:Heq.
  - destruct H as (Hw & Hs & Hd & _). rewrite Hw, Hs, Hd by (by vm_compute).
    assert (body r' = "bc"%string) as Hb by (vm_compute in Heq; by injection Heq as <- _).
    rewrite Hb. repeat split.
  - destruct H as [_ [H|H]]; vm_compute in H; discriminate.
  - contradiction.
Defined.

End Examples.
