(* ===== verification/Validate.v ===== *)
(** * Validate: request validation

    [crates/justapi-core/src/validate.rs]: the checkers of the string formats,
    validation errors and their response, coercion of parameters, and JSON
    schema validation.  The parsers of [serde] and the schema compiler and
    validator of the [jsonschema] crate are parameters. *)

From Stdlib Require Import Ascii.
From S2P Require Import Prelude F32 Text F64 Http.

#[local] Open Scope Z_scope.
#[local] Arguments String.append : simpl nomatch.

(** ** Formats *)

Definition all_digits (s : string) : bool := str_all is_digit s.
Definition nonempty (s : string) : bool := negb (String.eqb s EmptyString).
Definition len (s : string) : Z := Z.of_nat (String.length s).

Definition email (s : string) : bool :=
  if (negb (nonempty s) || str_any is_space s) then false
  else
    match split_once "@" s with
    | Some (local, domain) =>
        nonempty local && nonempty domain && contains "." domain
        && negb (starts_with "." domain) && negb (ends_with "." domain)
    | None => false
    end.

Definition uri (s : string) : bool :=
  match split_once "://" s with
  | Some (scheme, rest) =>
      nonempty scheme
      && str_all (λ c, is_alphanumeric c || Ascii.eqb c "+" || Ascii.eqb c "-" || Ascii.eqb c ".") scheme
      && nonempty rest
  | None => false
  end.

Definition is_brace (c : ascii) : bool := Ascii.eqb c "{" || Ascii.eqb c "}".

Definition uuid (s : string) : bool :=
  let parts := split "-" (trim_end_with is_brace (trim_start_with is_brace s)) in
  bool_decide (len <$> parts = [8; 4; 4; 4; 12]) && forallb (str_all is_hexdigit) parts.

Definition is_sign (c : ascii) : bool := Ascii.eqb c "+" || Ascii.eqb c "-".

Definition date_time (s : string) : bool :=
  match split_once "T" s with
  | None => false
  | Some (date, time) =>
      let ds := split "-" date in
      if negb (Nat.eqb (length ds) 3) || existsb (λ p, negb (nonempty p) || negb (all_digits p)) ds
      then false
      else
        let time := trim_end_with is_sign (trim_end_with (Ascii.eqb "Z") time) in
        let time := default time (head (split "." time)) in
        let ts := split ":" time in
        (2 <=? Z.of_nat (length ts)) && (Z.of_nat (length ts) <=? 3)
        && forallb (λ p, (len p <=? 2) && nonempty p && all_digits p) ts
  end.

Definition date (s : string) : bool :=
  let ds := split "-" s in
  Nat.eqb (length ds) 3 && forallb (λ p, nonempty p && all_digits p) ds.

Definition hostname (s : string) : bool :=
  nonempty s && negb (starts_with "-" s) && negb (ends_with "-" s) && negb (contains ".." s)
  && str_all (λ c, is_alphanumeric c || Ascii.eqb c "-" || Ascii.eqb c ".") s.

Definition octet (p : string) : bool :=
  (len p <=? 3) && nonempty p && all_digits p && bool_decide (is_Some (parse_u8 p)).

Definition ipv4 (s : string) : bool :=
  let parts := split "." s in
  Nat.eqb (length parts) 4 && forallb octet parts.

Definition format_validators : list (string * (string → bool)) :=
  [("email"%string, email); ("uri"%string, uri); ("uuid"%string, uuid); ("date-time"%string, date_time);
   ("date"%string, date); ("hostname"%string, hostname); ("ipv4"%string, ipv4)].

(** ** Errors *)

Record FieldError := mk_field_error { fe_field : string; fe_message : string }.

Abbreviation ValidationError := (list FieldError).

Definition verr_new (field message : string) : ValidationError := [mk_field_error field message].
Definition verr_multiple (errors : list FieldError) : ValidationError := errors.
Definition verr_add (field message : string) (e : ValidationError) : ValidationError :=
  e ++ [mk_field_error field message].
Definition verr_is_empty (e : ValidationError) : bool := Nat.eqb (length e) 0.

Definition field_error_text (e : FieldError) : string := fe_field e +:+ ": " +:+ fe_message e.

(** The loop of [fmt], from the error at [i]. *)
Fixpoint fmt_errors (i : nat) (es : list FieldError) : string :=
  match es with
  | [] => EmptyString
  | e :: es' => (if Nat.eqb i 0 then EmptyString else "; "%string) +:+ field_error_text e +:+ fmt_errors (S i) es'
  end.
Definition verr_text (e : ValidationError) : string := fmt_errors 0 e.

Definition field_error_json (e : FieldError) : json :=
  JObject [("field"%string, JString (fe_field e)); ("message"%string, JString (fe_message e))].

Definition validation_problem (e : ValidationError) : json :=
  JObject [("type"%string, JString "https://justapi.dev/errors/validation");
           ("title"%string, JString "Validation Error"); ("status"%string, json_int 422);
           ("detail"%string, JString (verr_text e)); ("errors"%string, JArray (field_error_json <$> e))].

Definition validation_error_response `{!SerdeJson} (e : ValidationError) : Response :=
  problem_response 422 [] (validation_problem e).

(** ** Typed bodies and parameters *)

(** [Schema]: parsing with [serde_json] and then [validate], which the blanket
    implementation leaves at its default. *)
Definition validate_default {T} (_ : T) : ValidationError + unit := inr tt.

Definition parse_body {T} (from_slice : string → string + T) (validate : T → ValidationError + unit)
    (body : string) : ValidationError + T :=
  match from_slice body with
  | inl e => inl (verr_new "body" ("Invalid JSON: " +:+ e))
  | inr value => match validate value with inl e => inl e | inr _ => inr value end
  end.

(** [Coerce] through [FromStr], under the name of the type. *)
Definition coerce_with {T} (type_name : string) (parse : string → option T) (s : string)
    : ValidationError + T :=
  match parse s with
  | Some v => inr v
  | None => inl (verr_new EmptyString ("invalid value: expected " +:+ type_name +:+ ", got '" +:+ s +:+ "'"))
  end.

(** An integer of [bits] bits. *)
Definition parse_signed (bits : Z) (s : string) : option Z :=
  match s with
  | String "-" s' =>
      match parse_digits s' with
      | Some n => if n <=? 2 ^ (bits - 1) then Some (- n) else None
      | None => None
      end
  | _ => parse_unsigned (2 ^ (bits - 1) - 1) s
  end.

Definition parse_bool (s : string) : option bool :=
  if String.eqb s "true" then Some true else if String.eqb s "false" then Some false else None.

Definition coerce_string : string → ValidationError + string := coerce_with "String" Some.
Definition coerce_signed (bits : Z) : string → ValidationError + Z :=
  coerce_with ("i" +:+ decimal bits) (parse_signed bits).
Definition coerce_unsigned (bits : Z) : string → ValidationError + Z :=
  coerce_with ("u" +:+ decimal bits) (parse_unsigned (2 ^ bits - 1)).
Definition coerce_f32 : string → ValidationError + f32 := coerce_with "f32" parse_f32.
Definition coerce_f64 : string → ValidationError + f64 := coerce_with "f64" parse_f64.
Definition coerce_bool : string → ValidationError + bool := coerce_with "bool" parse_bool.

Definition coerce_char (s : string) : ValidationError + ascii :=
  match s with
  | String c EmptyString => inr c
  | _ => inl (verr_new EmptyString ("invalid value: expected a single character, got '" +:+ s +:+ "'"))
  end.

Definition parse_query {T} (from_str : string → string + T) (query : string) : ValidationError + T :=
  let cleaned := trim_start_with (Ascii.eqb "?") query in
  match from_str cleaned with
  | inl e => inl (verr_new "query" ("parse error: " +:+ e))
  | inr v => inr v
  end.

(** ** JSON schemas *)

(** A compiled schema lists the errors of a value: the path of the instance
    and the message. [build] gets the format checkers. *)
Class JsonSchema := {
  Validator : Type;
  build : list (string * (string → bool)) → json → string + Validator;
  iter_errors : Validator → json → list (string * string);
  from_json : string → string + json }.

Section schema.
Context `{!JsonSchema}.

Definition build_validator (schema : json) : string + Validator := build format_validators schema.

Definition error_field (path : string) : string :=
  if String.eqb path EmptyString || String.eqb path "/" || String.eqb path "#" then "body"
  else trim_start_with (Ascii.eqb "/") path.

Definition collect_errors (v : Validator) (value : json) : ValidationError :=
  foldl (λ acc e, verr_add (error_field e.1) e.2 acc) [] (iter_errors v value).

Definition errors_or_ok (e : ValidationError) : ValidationError + unit :=
  if verr_is_empty e then inr tt else inl e.

Definition validate_json_schema (body schema_json : string) : ValidationError + unit :=
  match from_json body with
  | inl e => inl (verr_new "body" ("Invalid JSON: " +:+ e))
  | inr body_value =>
      match from_json schema_json with
      | inl e => inl (verr_new "schema" ("Invalid schema JSON: " +:+ e))
      | inr schema_value =>
          match build_validator schema_value with
          | inl e => inl (verr_new "schema" ("Schema compilation error: " +:+ e))
          | inr v => errors_or_ok (collect_errors v body_value)
          end
      end
  end.

Definition compiled_validate (v : Validator) (body : string) : ValidationError + unit :=
  match from_json body with
  | inl e => inl (verr_new "body" ("Invalid JSON: " +:+ e))
  | inr body_value => errors_or_ok (collect_errors v body_value)
  end.

Definition compile_schema (schema_json : string) : ValidationError + Validator :=
  match from_json schema_json with
  | inl e => inl (verr_new "schema" ("Invalid schema JSON: " +:+ e))
  | inr schema_value =>
      match build_validator schema_value with
      | inl e => inl (verr_new "schema" ("Schema compilation error: " +:+ e))
      | inr v => inr v
      end
  end.
End schema.

(** ** Formats *)

Lemma octet_spec p :
  octet p = true ↔
  1 <= len p <= 3 ∧ all_digits p = true ∧ ∃ n, parse_u8 p = Some n ∧ 0 <= n <= 255.
Proof.
  unfold octet. rewrite !andb_true_iff, bool_decide_eq_true, Z.leb_le. unfold nonempty.
  rewrite negb_true_iff, String.eqb_neq. split.
  - intros [[[H1 H2] H3] [n Hn]]. split_and!; [|done|done|].
    + destruct p; [done|]. unfold len. simpl. lia.
    + exists n. split; [done|]. by apply parse_unsigned_bound in Hn.
  - intros ([H1 H2] & H3 & n & Hn & _). split_and!; [done| |done|by eexists].
    intros ->. unfold len in H1. simpl in H1. lia.
Qed.

Lemma octet_decimal n : 0 <= n <= 255 → octet (decimal n) = true.
Proof.
  intros Hn. assert (forallb (λ k, octet (decimal (Z.of_nat k))) (seq 0 256) = true) as Hall
    by (vm_compute; reflexivity).
  rewrite forallb_forall in Hall. specialize (Hall (Z.to_nat n)).
  rewrite Z2Nat.id in Hall by lia. apply Hall. apply in_seq. lia.
Qed.

Lemma digits_no_dot p : all_digits p = true → str_all (λ c, negb (Ascii.eqb "." c)) p = true.
Proof.
  apply str_all_impl. intros c Hc. apply negb_true_iff, not_true_is_false.
  intros <-%Ascii.eqb_eq. discriminate.
Qed.

(** The dotted quads are accepted, and what is accepted is four runs of one to
    three digits, each an octet; leading zeros pass. *)
Theorem ipv4_exact :
  (∀ a b c d, Forall (λ n, 0 <= n <= 255) [a; b; c; d] →
     ipv4 (join "." (decimal <$> [a; b; c; d])) = true) ∧
  ∀ s, ipv4 s = true → ∃ ps, s = join "." ps ∧ length ps = 4%nat ∧
    Forall (λ p, 1 <= len p <= 3 ∧ all_digits p = true ∧ ∃ n, parse_u8 p = Some n ∧ 0 <= n <= 255) ps.
Proof.
  split.
  - intros a b c d H. rewrite !Forall_cons in H. destruct H as (Ha & Hb & Hc & Hd & _).
    assert (∀ n, str_all (λ c, negb (Ascii.eqb "." c)) (decimal n) = true) as Hdot
      by (intros n; apply digits_no_dot, decimal_all_digits).
    unfold ipv4. change (join "." (decimal <$> [a; b; c; d])) with
      (decimal a +:+ String "." (decimal b +:+ String "." (decimal c +:+ String "." (decimal d)))).
    rewrite !split_append. unfold split. rewrite !split_with_none by done.
    cbn [app length forallb]. by rewrite !octet_decimal.
  - intros s [Hn Ho]%andb_true_iff. exists (split "." s). split; [by rewrite split_join|].
    split; [by apply Nat.eqb_eq|]. apply Forall_forall. intros p Hp.
    apply octet_spec. rewrite forallb_forall in Ho. by apply Ho, list_elem_of_In.
Qed.

(** ** Parameters *)

Lemma parse_signed_digit bits c s :
  c ≠ "-"%char → parse_signed bits (String c s) = parse_unsigned (2 ^ (bits - 1) - 1) (String c s).
Proof. destruct c as [[] [] [] [] [] [] [] []]; intros Hc; try reflexivity; by destruct Hc. Qed.

Definition print_int (z : Z) : string := if z <? 0 then String "-" (decimal (- z)) else decimal z.

Lemma parse_signed_bound bits s z :
  1 <= bits → parse_signed bits s = Some z → - 2 ^ (bits - 1) <= z < 2 ^ (bits - 1).
Proof.
  intros Hbits. pose proof (Z.pow_pos_nonneg 2 (bits - 1) ltac:(lia) ltac:(lia)) as Hpos.
  assert (∀ s, parse_unsigned (2 ^ (bits - 1) - 1) s = Some z → - 2 ^ (bits - 1) <= z < 2 ^ (bits - 1))
    as Hu by (intros t Ht%parse_unsigned_bound; lia).
  unfold parse_signed. destruct s as [|[[] [] [] [] [] [] [] []] s]; try apply Hu.
  destruct (parse_digits s) as [n|] eqn:Hn; [|done]. destruct (Z.leb_spec n (2 ^ (bits - 1))); [|done].
  intros [= <-]. unfold parse_digits in Hn. destruct s; [done|].
  apply digits_value_bound in Hn; lia.
Qed.

Lemma parse_signed_print bits z :
  1 <= bits <= 128 → - 2 ^ (bits - 1) <= z < 2 ^ (bits - 1) → parse_signed bits (print_int z) = Some z.
Proof.
  intros Hbits Hz. assert (2 ^ (bits - 1) <= 2 ^ 127) as Hp by (apply Z.pow_le_mono_r; lia).
  change (2 ^ 127) with 170141183460469231731687303715884105728 in Hp.
  assert (10 ^ 40 = 10000000000000000000000000000000000000000) as H10 by done.
  unfold print_int. destruct (Z.ltb_spec z 0).
  - cbn [parse_signed]. rewrite parse_digits_decimal by lia.
    destruct (Z.leb_spec (- z) (2 ^ (bits - 1))); [f_equal; lia|lia].
  - destruct (decimal_cons z) as (c & s & Hc & Hd). rewrite Hc, parse_signed_digit, <- Hc.
    + apply parse_unsigned_decimal; lia.
    + by intros ->.
Qed.

(** Integer parameters are read exactly. For every width up to 128 bits the
    decimal text of a number in range is coerced to that number, whatever is
    accepted is in the range of the type, and what is refused is refused with
    one error that names the type and the text. *)
Theorem coerce_exact bits :
  1 <= bits <= 128 →
  (∀ z, 0 <= z < 2 ^ bits → coerce_unsigned bits (decimal z) = inr z) ∧
  (∀ z, - 2 ^ (bits - 1) <= z < 2 ^ (bits - 1) → coerce_signed bits (print_int z) = inr z) ∧
  (∀ s z, coerce_unsigned bits s = inr z → 0 <= z < 2 ^ bits) ∧
  (∀ s z, coerce_signed bits s = inr z → - 2 ^ (bits - 1) <= z < 2 ^ (bits - 1)) ∧
  (∀ s e, coerce_unsigned bits s = inl e →
     e = [mk_field_error EmptyString ("invalid value: expected u" +:+ decimal bits +:+ ", got '" +:+ s +:+ "'")]).
Proof.
  intros Hbits. unfold coerce_unsigned, coerce_signed, coerce_with. split_and!.
  - intros z Hz. assert (2 ^ bits <= 2 ^ 128) as Hp by (apply Z.pow_le_mono_r; lia).
    change (2 ^ 128) with 340282366920938463463374607431768211456 in Hp.
    rewrite parse_unsigned_decimal; [done|lia|].
    change (10 ^ 40) with 10000000000000000000000000000000000000000. lia.
  - intros z Hz. by rewrite parse_signed_print.
  - intros s z. destruct (parse_unsigned _ s) as [n|] eqn:Hn; [|done]. intros [= <-].
    apply parse_unsigned_bound in Hn. lia.
  - intros s z. destruct (parse_signed _ s) as [n|] eqn:Hn; [|done]. intros [= <-].
    apply parse_signed_bound in Hn; lia.
  - intros s e. destruct (parse_unsigned _ s); [done|]. by intros [= <-].
Qed.

(** ** Errors *)

Lemma fmt_errors_cons i e es :
  fmt_errors i (e :: es)
  = (if Nat.eqb i 0 then EmptyString else "; "%string) +:+ field_error_text e +:+ fmt_errors (S i) es.
Proof. done. Qed.

Lemma fmt_errors_later i es :
  es ≠ [] → fmt_errors (S i) es = "; " +:+ join "; " (field_error_text <$> es).
Proof.
  revert i. induction es as [|x es IH]; intros i Hes; [done|].
  rewrite fmt_errors_cons. cbn [Nat.eqb]. destruct es as [|y es].
  - cbn. by rewrite str_append_nil_r.
  - by rewrite IH.
Qed.

(** The text of a validation error is that of its errors, separated. *)
Lemma verr_text_join e : verr_text e = join "; " (field_error_text <$> e).
Proof.
  destruct e as [|x [|y es]]; [done|cbn; by rewrite str_append_nil_r|].
  unfold verr_text. rewrite fmt_errors_cons, fmt_errors_later by done. done.
Qed.

(** ** Schemas *)

Section schema_lemmas.
Context `{!JsonSchema}.

Lemma collect_errors_map v value :
  collect_errors v value = (λ e, mk_field_error (error_field e.1) e.2) <$> iter_errors v value.
Proof.
  unfold collect_errors. generalize (iter_errors v value). intros l.
  assert (∀ acc, foldl (λ acc e, verr_add (error_field e.1) e.2 acc) acc l
    = acc ++ ((λ e, mk_field_error (error_field e.1) e.2) <$> l)) as Hacc; [|by rewrite Hacc].
  induction l as [|e l IH]; intros acc; simpl; [by rewrite app_nil_r|].
  rewrite IH. unfold verr_add. by rewrite <- app_assoc.
Qed.

(** Compiling a schema once changes nothing. For a body that is JSON,
    validation against the schema's text gives what compiling the schema and
    then validating gives: the error of the compilation, or acceptance exactly
    when the validator has no error, or else all its errors in order, each
    under the field its path names. A body that is not JSON is refused under
    [body] by both. *)
Theorem schema_validation_agrees (b schema : string) :
  match from_json b with
  | inl e =>
      validate_json_schema b schema = inl [mk_field_error "body" ("Invalid JSON: " +:+ e)] ∧
      ∀ v, compiled_validate v b = inl [mk_field_error "body" ("Invalid JSON: " +:+ e)]
  | inr value =>
      match compile_schema schema with
      | inl err => validate_json_schema b schema = inl err ∧ length err = 1%nat
      | inr v =>
          validate_json_schema b schema = compiled_validate v b ∧
          (iter_errors v value = [] → compiled_validate v b = inr tt) ∧
          (iter_errors v value ≠ [] →
           compiled_validate v b
           = inl ((λ e, mk_field_error (error_field e.1) e.2) <$> iter_errors v value))
      end
  end.
Proof.
  unfold validate_json_schema, compiled_validate, compile_schema.
  destruct (from_json b) as [e|value]; [done|].
  destruct (from_json schema) as [e|sv]; [done|]. destruct (build_validator sv) as [e|v]; [done|].
  split; [done|]. rewrite collect_errors_map. by destruct (iter_errors v value).
Qed.
End schema_lemmas.

(** ** Concrete inputs *)

Module Examples.

Example email_ok : email "user@example.com" = true ∧ email "a@b@c" = false ∧ email "@example.com" = false
  ∧ email "user @example.com" = false.
Proof. vm_compute. auto. Qed.

Example uuid_ok : uuid "{123e4567-e89b-12d3-a456-426614174000}" = true ∧ uuid "123e4567" = false.
Proof. vm_compute. auto. Qed.

(** The checks are of the shape only: a thirteenth month and a time zone that
    is cut off before its digits are read. *)
Example dates : date "2024-13-99" = true ∧ date_time "2024-01-01T10:00:00Z" = true
  ∧ date_time "2024-01-01T10:00:00+02:00" = false.
Proof. vm_compute. auto. Qed.

Example hostnames : hostname "example.com" = true ∧ hostname "-a" = false ∧ hostname "." = true.
Proof. vm_compute. auto. Qed.

Example uris : uri "https://x" = true ∧ uri "://x" = false ∧ uri "mailto:a@b.c" = false.
Proof. vm_compute. auto. Qed.

Lemma coerce_exact_witness : coerce_signed 8 "-128" = inr (-128) ∧ coerce_unsigned 16 "65535" = inr 65535.
Proof.
  split.
  - apply (proj1 (proj2 (coerce_exact 8 ltac:(split; discriminate))) (-128)). split; [discriminate|reflexivity].
  - apply (proj1 (coerce_exact 16 ltac:(split; discriminate)) 65535). split; [discriminate|reflexivity].
Defined.

(** A schema is an object whose property [max] bounds the size of an array. *)
#[local] Instance ex_schema : JsonSchema := {|
  Validator := Z;
  build _ s := match json_get "max" s with
               | Some (JNumber (IntNumber n)) => inr n
               | _ => inl "no max"%string
               end;
  iter_errors n j := match j with
                     | JArray l => if Z.of_nat (length l) <=? n then [] else [("/list"%string, "too long"%string)]
                     | _ => [(EmptyString, "not an array"%string)]
                     end;
  from_json s := if String.eqb s "schema" then inr (JObject [("max"%string, json_int 1)])
                 else if String.eqb s "pair" then inr (JArray [JNull; JNull])
                 else inl "expected value"%string |}.

Lemma schema_validation_agrees_witness :
  validate_json_schema "pair" "schema" = inl [mk_field_error "list" "too long"].
Proof.
  pose proof (schema_validation_agrees "pair" "schema") as (H1 & _ & H2). rewrite H1. apply H2.
  discriminate.
Defined.

End Examples.
