(* ===== verification/Errors.v ===== *)
(** * Errors: the error type of the core library

    [crates/justapi-core/src/error.rs]: the variants of [CoreError], their
    statuses and messages, and the problem response they are rendered as.  The
    message of a wrapped [anyhow] error is its text. *)

From Stdlib Require Import Ascii.
From S2P Require Import Prelude Text F64 Http Validate.

#[local] Open Scope Z_scope.

Inductive CoreError :=
| Validation (detail : string) (errors : list FieldError)
| RouteNotFound (method path : string)
| MethodNotAllowed (method : string)
| Auth (reason : string)
| Forbidden (reason : string)
| RateLimited (retry_after_secs : Z)
| PayloadTooLarge (size max : Z)
| Upstream (msg : string)
| Config (msg : string)
| Internal (msg : string)
| ServiceUnavailable (msg : string)
| GatewayTimeout (timeout_ms : Z)
| Other (msg : string).

(** The [#[error]] messages. *)
Definition core_error_text (e : CoreError) : string :=
  match e with
  | Validation detail _ => "validation failed: " +:+ detail
  | RouteNotFound method path => "route not found: " +:+ method +:+ " " +:+ path
  | MethodNotAllowed method => "method not allowed: " +:+ method
  | Auth reason => "unauthorized: " +:+ reason
  | Forbidden reason => "forbidden: " +:+ reason
  | RateLimited n => "rate limited, retry after " +:+ decimal n +:+ "s"
  | PayloadTooLarge size max =>
      "request body too large: " +:+ decimal size +:+ " bytes (max " +:+ decimal max +:+ ")"
  | Upstream msg => "upstream error: " +:+ msg
  | Config msg => "configuration error: " +:+ msg
  | Internal msg => "internal error: " +:+ msg
  | ServiceUnavailable msg => "service unavailable: " +:+ msg
  | GatewayTimeout ms => "gateway timeout after " +:+ decimal ms +:+ "ms"
  | Other msg => msg
  end.

Definition status_code (e : CoreError) : Z :=
  match e with
  | Validation _ _ => 422
  | RouteNotFound _ _ => 404
  | MethodNotAllowed _ => 405
  | Auth _ => 401
  | Forbidden _ => 403
  | RateLimited _ => 429
  | PayloadTooLarge _ _ => 413
  | Upstream _ => 502
  | Config _ => 500
  | Internal _ => 500
  | ServiceUnavailable _ => 503
  | GatewayTimeout _ => 504
  | Other _ => 500
  end.

(** The match on the title in [to_problem_json]. *)
Definition error_title (e : CoreError) : string :=
  match e with
  | Validation _ _ => "Validation Error"
  | RouteNotFound _ _ => "Not Found"
  | MethodNotAllowed _ => "Method Not Allowed"
  | Auth _ => "Unauthorized"
  | Forbidden _ => "Forbidden"
  | RateLimited _ => "Too Many Requests"
  | PayloadTooLarge _ _ => "Payload Too Large"
  | Upstream _ => "Bad Gateway"
  | Config _ => "Internal Server Error"
  | Internal _ => "Internal Server Error"
  | ServiceUnavailable _ => "Service Unavailable"
  | GatewayTimeout _ => "Gateway Timeout"
  | Other _ => "Internal Server Error"
  end.

(** The map of [to_problem_json], in the order of its insertions. *)
Definition error_problem (e : CoreError) : json :=
  JObject ([("type"%string, JString (problem_type (error_title e)));
            ("title"%string, JString (error_title e));
            ("status"%string, json_int (status_code e));
            ("detail"%string, JString (core_error_text e))]
           ++ match e with
              | Validation _ errors => [("errors"%string, JArray (field_error_json <$> errors))]
              | RateLimited n => [("retry_after"%string, json_int n)]
              | _ => []
              end).

Section responses.
Context `{!SerdeJson}.

Definition to_problem_json (e : CoreError) : string := json_to_string (error_problem e).

(** [From<ValidationError>] *)
Definition from_validation (e : ValidationError) : CoreError :=
  Validation (join "; " (field_error_text <$> e)) e.

Definition retry_after (e : CoreError) : option string :=
  match e with
  | RateLimited n => Some (decimal n)
  | ServiceUnavailable _ => Some "1"%string
  | _ => None
  end.

Definition error_into_response (e : CoreError) : Response :=
  let body := to_problem_json e in
  mk_response (status_code e)
    ([("content-type"%string, "application/problem+json"%string); content_length body]
     ++ match retry_after e with Some r => [("retry-after"%string, r)] | None => [] end)
    body.

(** ** The theorems *)

Lemma status_code_range e : 400 <= status_code e <= 599.
Proof. destruct e; simpl; lia. Qed.

Lemma title_of_status e : (∀ d l, e ≠ Validation d l) → error_title e = status_title (status_code e).
Proof. destruct e; try done. intros Hv. by destruct (Hv detail errors). Qed.

(** Every error becomes one problem response. The status of the response is
    a client or server error and the status member of its body; the body is
    the JSON of an object with its type, title and detail, [errors] exactly
    for a validation error and [retry_after] exactly for a rate limit; a retry
    hint is in the headers exactly for a rate limit and an unavailable
    service, and equals the member of the body; the length is that of the
    body; a validation error converted keeps its field errors and has their
    text as detail. *)
Theorem error_response_contract e :
  let r := error_into_response e in
  let get k := json_get k (error_problem e) in
  status r = status_code e ∧ 400 <= status r <= 599 ∧
  body r = json_to_string (error_problem e) ∧
  get "status"%string = Some (json_int (status r)) ∧
  get "title"%string = Some (JString (error_title e)) ∧
  get "detail"%string = Some (JString (core_error_text e)) ∧
  (is_Some (get "errors"%string) ↔ ∃ d l, e = Validation d l) ∧
  (∀ n, get "retry_after"%string = Some (json_int n) ↔ e = RateLimited n) ∧
  assoc_get "content-type"%string (headers r) = Some "application/problem+json"%string ∧
  assoc_get "content-length"%string (headers r)
    = Some (decimal (Z.of_nat (String.length (body r)))) ∧
  assoc_get "retry-after"%string (headers r)
    = match e with RateLimited n => Some (decimal n) | ServiceUnavailable _ => Some "1"%string | _ => None end ∧
  ∀ v, status (error_into_response (from_validation v)) = 422 ∧
       core_error_text (from_validation v) = "validation failed: " +:+ verr_text v.
Proof.
  cbv zeta. pose proof (status_code_range e) as Hrange.
  split_and!; try done; try (cbn; lia).
  - destruct e; cbn; (split; [intros [? [=]]; by eauto|intros (? & ? & [=]); by eauto]).
  - intros n. destruct e; cbn; split; intros [=]; by subst.
  - by destruct e.
  - intros v. split; [done|]. by rewrite verr_text_join.
Qed.
End responses.

Module Examples.

#[local] Instance serde : SerdeJson := {| json_to_string _ := "{}"%string |}.

(** A validation error is typed one way here, another in [Validate] and a third
    by the status in [Http]. *)
Example three_types :
  json_get "type" (error_problem (from_validation [])) = Some (JString "https://justapi.dev/errors/validation-error") ∧
  json_get "type" (validation_problem []) = Some (JString "https://justapi.dev/errors/validation") ∧
  json_get "type" (problem 422 EmptyString) = Some (JString "https://justapi.dev/errors/unprocessable-entity").
Proof. vm_compute. auto. Qed.

End Examples.
