(* ===== verification/HttpRouter.v ===== *)
(** * HttpRouter: method and path dispatch with a route cache

    [crates/justapi-core/src/router.rs] and the routing of a request in
    [make_handler] of [server/mod.rs].  The path matcher of each method is the
    [matchit] crate, a parameter here: the class [Matchit] is its interface and
    [MatchitLaws] what its documentation promises of static routes.  Methods
    and paths are strings. *)

From S2P Require Import Prelude.

(** [matchit::Router<T>]: [insert] may fail, [at] gives the handler and the
    parameters of the path. *)
Class Matchit (R T E : Type) := {
  m_empty : R;
  m_insert : string → T → R → R * option E;
  m_at : string → R → option (T * list (string * string)) }.

(** A path without a placeholder. *)
Fixpoint static_path (p : string) : bool :=
  match p with
  | EmptyString => true
  | String c p' =>
      negb (Ascii.eqb c (Ascii.ascii_of_nat 123) || Ascii.eqb c (Ascii.ascii_of_nat 125))
      && static_path p'
  end.

(** An inserted static route is the one its path matches, and keeps the static
    routes of other paths. *)
Class MatchitLaws (R T E : Type) `{!Matchit R T E} := {
  at_insert_static p h r r' :
    static_path p = true → m_insert p h r = (r', None) → m_at p r' = Some (h, []);
  at_insert_other p q h r r' h' :
    static_path q = true → p ≠ q → m_at q r = Some (h', []) →
    m_insert p h r = (r', None) → m_at q r' = Some (h', []);
  at_insert_failed p h r r' e q : m_insert p h r = (r', Some e) → m_at q r' = m_at q r }.

(** What the documentation of [matchit] says of static routes beyond
    [MatchitLaws]: an empty router matches nothing, a static route is refused
    only where it is already registered, and matches no other path. *)
Class StaticRoutes (R T E : Type) `{!HttpRouter.Matchit R T E} := {
  at_empty p : m_at p m_empty = None;
  insert_fresh p h r : static_path p = true → m_at p r = None → (m_insert p h r).2 = None;
  insert_twice p h h' r : static_path p = true → m_at p r = Some (h', []) →
    ∃ e, (m_insert p h r).2 = Some e;
  at_insert_absent p q h r : static_path p = true → static_path q = true → p ≠ q →
    m_at q r = None → m_at q (m_insert p h r).1 = None }.

Inductive RouterError := NotFound | MethodNotAllowed.

Abbreviation Method := string.

Section router.
Context {R T E : Type} `{!Matchit R T E}.

Record RouteResolution := mk_resolution {
  handler : T; params : list (string * string) }.

Inductive CacheEntry := Hit (r : RouteResolution) | CachedNotFound.

Record RouteCache := mk_cache {
  cache_map : gmap (Method * string) CacheEntry;
  cache_order : list (Method * string);
  cache_capacity : nat }.

Definition cache_new (capacity : nat) : RouteCache := mk_cache ∅ [] (capacity `max` 1).

Definition cache_get (key : Method * string) (c : RouteCache) : option CacheEntry :=
  cache_map c !! key.

Definition cache_insert (key : Method * string) (entry : CacheEntry) (c : RouteCache)
    : RouteCache :=
  let '(m, o) :=
    match cache_map c !! key with
    | Some _ => (cache_map c, cache_order c)
    | None =>
        let o := cache_order c ++ [key] in
        if decide (cache_capacity c < length o)
        then match o with
             | old :: o' => (delete old (cache_map c), o')
             | [] => (cache_map c, o)
             end
        else (cache_map c, o)
    end in
  mk_cache (<[key := entry]> m) o (cache_capacity c).

Record Router := mk_http_router {
  routes : gmap Method R;
  fallback : option T;
  route_list : list (Method * string);
  cache : option RouteCache }.

Definition new : Router := mk_http_router ∅ None [] (Some (cache_new 16384)).
Definition without_cache : Router := mk_http_router ∅ None [] None.

Definition with_cache (c : option RouteCache) (r : Router) : Router :=
  mk_http_router (routes r) (fallback r) (route_list r) c.

Definition with_cache_capacity (capacity : nat) (r : Router) : Router :=
  with_cache (if Nat.eqb capacity 0 then None else Some (cache_new capacity)) r.

Definition GET : Method := "GET".
Definition HEAD : Method := "HEAD".

(** [insert]: an [Err] of the matcher returns early, after the method has its
    entry; a GET route is also tried for HEAD, ignoring the error. *)
Definition insert (method : Method) (path : string) (h : T) (r : Router)
    : option E * Router :=
  let '(m, e) := m_insert path h (default m_empty (routes r !! method)) in
  let rs := <[method := m]> (routes r) in
  match e with
  | Some err => (Some err, mk_http_router rs (fallback r) (route_list r) (cache r))
  | None =>
      let l := route_list r ++ [(method, path)] in
      if String.eqb method GET
      then let '(hd, _) := m_insert path h (default m_empty (rs !! HEAD)) in
           (None, mk_http_router (<[HEAD := hd]> rs) (fallback r) (l ++ [(HEAD, path)]) (cache r))
      else (None, mk_http_router rs (fallback r) l (cache r))
  end.

Definition list_routes : Router → list (Method * string) := route_list.

(** Some other method has a route for the path. *)
Definition other_method_matches (method : Method) (path : string) (r : Router) : bool :=
  existsb (λ mr : Method * R, negb (String.eqb mr.1 method) && bool_decide (is_Some (m_at path mr.2)))
    (map_to_list (routes r)).

Definition raw_resolve (method : Method) (path : string) (r : Router)
    : RouteResolution + RouterError :=
  match routes r !! method ≫= m_at path with
  | Some (h, ps) => inl (mk_resolution h ps)
  | None => inr (if other_method_matches method path r then MethodNotAllowed else NotFound)
  end.

(** [at] borrows what [raw_resolve] clones. *)
Definition at_ (method : Method) (path : string) (r : Router)
    : (T * list (string * string)) + RouterError :=
  match routes r !! method ≫= m_at path with
  | Some m => inl m
  | None => inr (if other_method_matches method path r then MethodNotAllowed else NotFound)
  end.

(** What [resolve] does to the cache after a miss. *)
Definition fill (method : Method) (path : string) (r : Router) : Router :=
  match cache r with
  | None => r
  | Some c =>
      match raw_resolve method path r with
      | inl res =>
          match params res with
          | [] => with_cache (Some (cache_insert (method, path) (Hit res) c)) r
          | _ => r
          end
      | inr NotFound => with_cache (Some (cache_insert (method, path) CachedNotFound c)) r
      | inr MethodNotAllowed => r
      end
  end.

Definition resolve (method : Method) (path : string) (r : Router)
    : (RouteResolution + RouterError) * Router :=
  match cache r with
  | Some c =>
      match cache_get (method, path) c with
      | Some (Hit res) => (inl res, r)
      | Some CachedNotFound => (inr NotFound, r)
      | None => (raw_resolve method path r, fill method path r)
      end
  | None => (raw_resolve method path r, r)
  end.

Definition set_fallback (h : T) (r : Router) : Router :=
  mk_http_router (routes r) (Some h) (route_list r) (cache r).

Definition get_fallback : Router → option T := fallback.

(** What [make_handler] runs for a request: a handler with its parameters, or
    an error response of that status. *)
Definition dispatch (method : Method) (path : string) (r : Router)
    : ((T * list (string * string)) + nat) * Router :=
  match resolve method path r with
  | (inl res, r') => (inl (handler res, params res), r')
  | (inr MethodNotAllowed, r') => (inr 405, r')
  | (inr NotFound, r') =>
      (match get_fallback r' with Some fb => inl (fb, []) | None => inr 404 end, r')
  end.
End router.

Arguments RouteResolution : clear implicits.
Arguments CacheEntry : clear implicits.
Arguments RouteCache : clear implicits.
Arguments Router : clear implicits.

(** ** The cache *)

Section cache.
Context {R T E : Type} `{!Matchit R T E}.
Implicit Types (r : Router R T) (c : RouteCache T).

Definition entry_of r (key : Method * string) (e : CacheEntry T) : Prop :=
  match e with
  | Hit res => raw_resolve key.1 key.2 r = inl res
  | CachedNotFound => raw_resolve key.1 key.2 r = inr NotFound
  end.

(** The cache is within its capacity and agrees with the routes. *)
Record cache_ok r c : Prop := {
  co_nodup : NoDup (cache_order c);
  co_keys : ∀ k, k ∈ cache_order c ↔ is_Some (cache_map c !! k);
  co_bound : length (cache_order c) ≤ cache_capacity c;
  co_positive : 1 ≤ cache_capacity c;
  co_entries : ∀ k e, cache_map c !! k = Some e → entry_of r k e }.

Definition router_ok r : Prop :=
  match cache r with Some c => cache_ok r c | None => True end.

Lemma cache_new_ok r n : cache_ok r (cache_new n).
Proof.
  constructor; simpl; [constructor| |lia|lia|done].
  intros k. split; [by intros ?%elem_of_nil|]. by intros [? ?].
Qed.

Lemma cache_insert_ok r c k e :
  cache_ok r c → entry_of r k e → cache_ok r (cache_insert k e c).
Proof.
  intros [Hnd Hkeys Hb Hpos Hent] He. unfold cache_insert.
  destruct (cache_map c !! k) as [e0|] eqn:Hk.
  { constructor; simpl; try done.
    - intros k'. rewrite Hkeys, lookup_insert_is_Some. destruct (decide (k = k')); naive_solver.
    - intros k' e'. rewrite lookup_insert_Some. naive_solver. }
  assert (k ∉ cache_order c) as Hnk by (rewrite Hkeys, Hk; by intros [? ?]).
  assert (NoDup (cache_order c ++ [k])) as Hnd'.
  { apply NoDup_app. split; [done|]. split; [|apply NoDup_singleton].
    by intros x Hx ->%list_elem_of_singleton. }
  case_decide as Hlen; rewrite length_app in Hlen; simpl in Hlen.
  - destruct (cache_order c) as [|old o'] eqn:Ho; simpl in *; [lia|].
    apply NoDup_cons in Hnd' as [Hold Hnd']. constructor; simpl; try done.
    + intros k'. rewrite lookup_insert_is_Some, lookup_delete_is_Some, elem_of_app,
        list_elem_of_singleton, <- Hkeys, elem_of_cons.
      rewrite elem_of_app, list_elem_of_singleton in Hold.
      destruct (decide (k = k')); [naive_solver|]. split; [|naive_solver].
      intros [Hin| ->]; [|done]. right. split; [done|]. split; [|by right].
      intros ->. naive_solver.
    + rewrite length_app. simpl. lia.
    + intros k' e'. rewrite lookup_insert_Some, lookup_delete_Some. naive_solver.
  - constructor; simpl; try done.
    + intros k'. rewrite lookup_insert_is_Some, elem_of_app, list_elem_of_singleton, Hkeys.
      destruct (decide (k = k')); naive_solver.
    + rewrite length_app. simpl. lia.
    + intros k' e'. rewrite lookup_insert_Some. naive_solver.
Qed.

Lemma entry_of_with_cache r o k e : entry_of (with_cache o r) k e ↔ entry_of r k e.
Proof. by destruct e. Qed.

Lemma cache_ok_with_cache r o c : cache_ok r c → cache_ok (with_cache o r) c.
Proof.
  by intros [? ? ? ? Hent]; constructor.
Qed.

(** Filling the cache, at whatever moment, keeps it right and changes nothing
    else. *)
Lemma fill_ok m p r :
  router_ok r → router_ok (fill m p r) ∧ ∃ o, fill m p r = with_cache o r.
Proof.
  unfold router_ok, fill. intros Hok.
  assert (r = with_cache (cache r) r) as Hr by (by destruct r).
  destruct (cache r) as [c|] eqn:Hc; [|rewrite Hc; by eauto].
  destruct (raw_resolve m p r) as [[h [|x ps]]|[|]] eqn:Hraw; simpl;
    try (rewrite Hc; by eauto); (split; [|by eexists]);
    by apply cache_ok_with_cache, cache_insert_ok.
Qed.

Lemma resolve_raw m p r :
  router_ok r → (resolve m p r).1 = raw_resolve m p r ∧
  ∃ o, (resolve m p r).2 = with_cache o r.
Proof.
  intros Hok. assert (r = with_cache (cache r) r) as Hr by (by destruct r).
  destruct (fill_ok m p r Hok) as [_ Hfill]. unfold router_ok in Hok. unfold resolve.
  destruct (cache r) as [c|]; [|by eauto].
  destruct (cache_get (m, p) c) as [[res|]|] eqn:Hget; simpl; [| |by eauto];
    apply (co_entries _ _ Hok) in Hget; simpl in Hget; (split; [done|by eauto]).
Qed.

(** The requests that have filled the cache so far, in any interleaving. *)
Definition fills (ks : list (Method * string)) r : Router R T :=
  foldl (λ r k, fill k.1 k.2 r) r ks.

Lemma fills_ok ks r :
  router_ok r → router_ok (fills ks r) ∧ ∃ o, fills ks r = with_cache o r.
Proof.
  revert r. induction ks as [|k ks IH]; intros r Hok.
  - split; [done|]. exists (cache r). by destruct r.
  - destruct (fill_ok k.1 k.2 r Hok) as [Hok' [o Ho]].
    destruct (IH _ Hok') as [Hok2 [o' Ho']]. split; [exact Hok2|]. exists o'.
    change (fills ks (fill k.1 k.2 r) = with_cache o' r). by rewrite Ho', Ho.
Qed.

(** C11: however many requests have filled the route cache and however their
    look-ups and insertions interleave, the cache never exceeds its capacity,
    and a request is dispatched as if there were no cache: to the handler its
    method's matcher finds, with status 405 exactly when only another method
    has a route for the path, and otherwise to the fallback or status 404. *)
Theorem route_dispatch ks r m p :
  cache r = None ∨ (∃ n, cache r = Some (cache_new n)) →
  let r' := fills ks r in
  (∀ c, cache r' = Some c → size (cache_map c) ≤ cache_capacity c) ∧
  (resolve m p r').1 = raw_resolve m p r ∧
  match routes r !! m ≫= m_at p with
  | Some x => (dispatch m p r').1 = inl x
  | None =>
      ((∃ m' mr, m' ≠ m ∧ routes r !! m' = Some mr ∧ is_Some (m_at p mr)) ∧
       (dispatch m p r').1 = inr 405) ∨
      ((∀ m' mr, m' ≠ m → routes r !! m' = Some mr → m_at p mr = None) ∧
       (dispatch m p r').1 = match fallback r with Some fb => inl (fb, []) | None => inr 404 end)
  end.
Proof.
  intros Hc r'.
  assert (router_ok r) as Hok.
  { unfold router_ok. destruct Hc as [->|[n ->]]; [done|apply cache_new_ok]. }
  destruct (fills_ok ks r Hok) as [Hok' [o Ho]]. fold r' in Hok', Ho.
  destruct (resolve_raw m p r' Hok') as [Hres [o' Hr']].
  assert (raw_resolve m p r' = raw_resolve m p r) as Hraw by (by rewrite Ho).
  split; [|split; [congruence|]].
  - intros c Hc'. unfold router_ok in Hok'. rewrite Hc' in Hok'. destruct Hok' as [Hnd Hk Hb _ _].
    assert (dom (cache_map c) = list_to_set (cache_order c)) as Hdom.
    { apply set_eq. intros k. by rewrite elem_of_dom, elem_of_list_to_set, Hk. }
    by rewrite <- size_dom, Hdom, size_list_to_set.
  - unfold dispatch. destruct (resolve m p r') as [res r2]. simpl in *. subst res r2.
    rewrite Hraw. unfold raw_resolve. destruct (routes r !! m ≫= m_at p) as [[h ps]|]; [done|].
    destruct (other_method_matches m p r) eqn:Hother; unfold other_method_matches in Hother.
    + left. split; [|done]. apply existsb_exists in Hother as ([m' mr] & Hin & Hm).
      apply list_elem_of_In, elem_of_map_to_list in Hin.
      apply andb_true_iff in Hm as [Hne%negb_true_iff Hat%bool_decide_eq_true].
      exists m', mr. split; [by apply String.eqb_neq in Hne|done].
    + right. split; [|by rewrite Ho]. intros m' mr Hne Hm'.
      destruct (m_at p mr) as [x|] eqn:Hat; [|done]. exfalso.
      apply not_true_iff_false in Hother. apply Hother, existsb_exists. exists (m', mr).
      split; [by apply list_elem_of_In, elem_of_map_to_list|]. simpl.
      apply String.eqb_neq in Hne. rewrite Hne. simpl. apply bool_decide_eq_true.
      rewrite Hat. by eexists.
Qed.

(** ** Registration *)

Context `{!MatchitLaws R T E}.

(** A static route that is registered without error is the one its method
    and path resolve to, for HEAD too when a GET route is also accepted there,
    and every static route of another path is kept for every method. *)
Theorem route_registered m p h r r' :
  insert m p h r = (None, r') →
  (static_path p = true → raw_resolve m p r' = inl (mk_resolution h [])) ∧
  (static_path p = true → m = GET → (m_insert p h (default m_empty (routes r !! HEAD))).2 = None →
     raw_resolve HEAD p r' = inl (mk_resolution h [])) ∧
  (∀ m' q h', static_path q = true → p ≠ q →
     raw_resolve m' q r = inl (mk_resolution h' []) →
     raw_resolve m' q r' = inl (mk_resolution h' [])).
Proof.
  unfold insert.
  destruct (m_insert p h (default m_empty (routes r !! m))) as [mr [e|]] eqn:Hins; [done|].
  pose proof (λ Hp, at_insert_static _ _ _ _ Hp Hins) as Hat.
  assert (∀ m' q h' rt, raw_resolve m' q rt = inl (mk_resolution h' []) ↔
    ∃ mr', routes rt !! m' = Some mr' ∧ m_at q mr' = Some (h', [])) as Hraw.
  { intros m' q h' rt. unfold raw_resolve. destruct (routes rt !! m') as [mr'|]; simpl.
    - destruct (m_at q mr') as [[h2 ps]|] eqn:Hq.
      + split; [intros [= -> ->]; by exists mr'|]. intros (x & [= <-] & Hx). by simplify_eq.
      + split; [done|]. intros (x & [= <-] & Hx). congruence.
    - split; [done|]. by intros (x & ? & _). }
  assert (∀ m' q h' mr', static_path q = true → p ≠ q → routes r !! m' = Some mr' →
    m_at q mr' = Some (h', []) →
    m_at q (m_insert p h (default m_empty (routes r !! m'))).1 = Some (h', [])) as Hkeep.
  { intros m' q h' mr' Hq Hne Hm' Hq'. rewrite Hm'. simpl.
    destruct (m_insert p h mr') as [r2 [e|]] eqn:Hi; simpl.
    - by rewrite (at_insert_failed _ _ _ _ _ q Hi).
    - by eapply at_insert_other. }
  destruct (String.eqb_spec m GET) as [->|Hget].
  - destruct (m_insert p h (default m_empty (<[GET:=mr]> (routes r) !! HEAD))) as [hd e] eqn:Hh.
    rewrite lookup_insert_ne in Hh by done. intros [= <-]. split_and!.
    + intros Hp. apply Hraw. exists mr. simpl. rewrite lookup_insert_ne, lookup_insert_eq by done. auto.
    + intros Hp _. rewrite Hh. simpl. intros ->. apply Hraw. exists hd. simpl.
      rewrite lookup_insert_eq. split; [done|]. by eapply at_insert_static.
    + intros m' q h' Hq Hne (mr' & Hm' & Hq')%Hraw. apply Hraw. simpl.
      specialize (Hkeep m' q h' mr' Hq Hne Hm' Hq').
      destruct (decide (m' = HEAD)) as [->|]; [exists hd; rewrite lookup_insert_eq; by rewrite Hh in Hkeep|].
      rewrite lookup_insert_ne by done.
      destruct (decide (m' = GET)) as [->|]; [exists mr; rewrite lookup_insert_eq; by rewrite Hins in Hkeep|].
      rewrite lookup_insert_ne by done. by exists mr'.
  - intros [= <-]. split_and!; [|done|].
    + intros Hp. apply Hraw. exists mr. simpl. rewrite lookup_insert_eq. auto.
    + intros m' q h' Hq Hne (mr' & Hm' & Hq')%Hraw. apply Hraw. simpl.
      specialize (Hkeep m' q h' mr' Hq Hne Hm' Hq').
      destruct (decide (m' = m)) as [->|]; [exists mr; rewrite lookup_insert_eq; by rewrite Hins in Hkeep|].
      rewrite lookup_insert_ne by done. by exists mr'.
Qed.

Context `{!StaticRoutes R T E}.

Lemma raw_resolve_static m p h r :
  raw_resolve m p r = inl (mk_resolution h []) ↔ routes r !! m ≫= m_at p = Some (h, []).
Proof.
  unfold raw_resolve. destruct (routes r !! m ≫= m_at p) as [[h' ps]|]; [|done].
  split; [by intros [= -> ->]|by intros [= -> ->]].
Qed.

(** A registration that succeeds takes no static route away. *)
Lemma insert_keeps m p h r r' m' q h' :
  insert m p h r = (None, r') → static_path q = true →
  raw_resolve m' q r = inl (mk_resolution h' []) → raw_resolve m' q r' = inl (mk_resolution h' []).
Proof.
  intros Hins Hq Hr. destruct (decide (p = q)) as [->|Hne]; [|by apply (route_registered _ _ _ _ _ Hins)].
  rewrite raw_resolve_static in Hr |- *. unfold insert in Hins.
  destruct (m_insert q h (default m_empty (routes r !! m))) as [mr [e|]] eqn:Hi; [done|].
  destruct (decide (m' = m)) as [->|Hm].
  { destruct (routes r !! m) as [mr0|]; [|done]. simpl in Hi, Hr.
    destruct (insert_twice q h h' mr0 Hq Hr) as [e He]. by rewrite Hi in He. }
  destruct (String.eqb_spec m GET) as [->|Hget]; [|simplify_eq; simpl; by rewrite lookup_insert_ne].
  rewrite lookup_insert_ne in Hins by done.
  destruct (m_insert q h (default m_empty (routes r !! HEAD))) as [hd e] eqn:Hh. simplify_eq. simpl.
  destruct (decide (m' = HEAD)) as [->|Hhead]; [|by rewrite !lookup_insert_ne].
  rewrite lookup_insert_eq. simpl. destruct (routes r !! HEAD) as [hd0|]; [|done]. simpl in Hh, Hr.
  destruct (insert_twice q h h' hd0 Hq Hr) as [e' He]. rewrite Hh in He. simpl in He. subst e.
  by rewrite (at_insert_failed _ _ _ _ _ q Hh).
Qed.
End cache.

(** ** A matcher of static routes *)

#[export] Instance static_matchit {T} : Matchit (list (string * T)) T unit := {|
  m_empty := [];
  m_insert p h r :=
    match assoc_get p r with Some _ => (r, Some tt) | None => ((p, h) :: r, None) end;
  m_at p r := match assoc_get p r with Some h => Some (h, []) | None => None end |}.

#[export] Instance static_matchit_laws {T} : MatchitLaws (list (string * T)) T unit.
Proof.
  constructor; simpl.
  - intros p h r r' _. destruct (assoc_get p r); [done|]. intros [= <-]. csimpl.
    by rewrite decide_True.
  - intros p q h r r' h' _ Hne Hq. destruct (assoc_get p r); [done|]. intros [= <-]. csimpl.
    by rewrite decide_False.
  - intros p h r r' e q. by destruct (assoc_get p r); intros [= <-].
Qed.

#[export] Instance static_matchit_static {T} : StaticRoutes (list (string * T)) T unit.
Proof.
  constructor; simpl.
  - done.
  - intros p h r _. by destruct (assoc_get p r).
  - intros p h h' r _. destruct (assoc_get p r); [by eexists|done].
  - intros p q h r _ _ Hne Hq. destruct (assoc_get p r); [exact Hq|]. simpl. case_decide; [congruence|]. exact Hq.
Qed.

Definition ex_http_router : Router (list (string * nat)) nat :=
  (insert "POST" "/items" 2 (insert GET "/hello" 1 new).2).2.

Lemma route_dispatch_witness :
  (dispatch "HEAD" "/hello" (fills [("GET", "/hello"); ("GET", "/nope")]%string ex_http_router)).1
  = inl (1, []) ∧
  (dispatch "GET" "/items" (fills [("GET", "/hello"); ("GET", "/nope")]%string ex_http_router)).1
  = inr 405.
Proof.
  split.
  - exact (proj2 (proj2 (route_dispatch [("GET", "/hello"); ("GET", "/nope")]%string
      ex_http_router "HEAD" "/hello" (or_intror (ex_intro _ 16384 eq_refl))))).
  - destruct (proj2 (proj2 (route_dispatch [("GET", "/hello"); ("GET", "/nope")]%string
      ex_http_router "GET" "/items" (or_intror (ex_intro _ 16384 eq_refl)))))
      as [[_ H]|[H _]]; [exact H|].
    specialize (H "POST"%string [("/items"%string, 2)] ltac:(discriminate) eq_refl).
    vm_compute in H. discriminate H.
Defined.

Lemma route_registered_witness :
  raw_resolve "POST" "/items" ex_http_router = inl (mk_resolution 2 []) ∧
  raw_resolve "HEAD" "/hello" ex_http_router = inl (mk_resolution 1 []).
Proof.
  destruct (route_registered "POST" "/items" 2 (insert GET "/hello" 1 new).2 ex_http_router)
    as (H1 & _ & H2); [reflexivity|].
  split; [exact (H1 eq_refl)|]. apply (H2 "HEAD"%string "/hello"%string); [reflexivity|discriminate|].
  reflexivity.
Defined.

(** A route registered after a request has cached its absence stays unknown to
    [resolve]: registration does not clear the cache. *)
Example stale_not_found :
  let r1 := (resolve GET "/late" ex_http_router).2 in
  let r2 := (insert GET "/late" 3 r1).2 in
  (resolve GET "/late" r2).1 = inr NotFound ∧
  raw_resolve GET "/late" r2 = inl (mk_resolution 3 []).
Proof. split; vm_compute; reflexivity. Qed.
