(* ===== verification/RateLimit.v ===== *)
(** * RateLimit: the rate limiter kept in Redis

    [crates/justapi-core/src/rate_limit.rs]: [check_limit] and the Lua script
    it runs, the generic cell rate algorithm on one timestamp per key.  Redis
    is a parameter: the class [RedisStore] has its two commands and the law
    says what its documentation does of [SET .. EX] and [GET].  Redis's clock
    and the caller's are taken to agree. *)

From S2P Require Import Prelude.

#[local] Open Scope Z_scope.

(** ** Lua numbers

    A Lua number is a double.  On integers, a sum or a product is the exact one
    rounded to 53 bits, to nearest and ties to even. *)

Definition lua (x : Z) : Z :=
  let k := Z.log2 (Z.abs x) - 52 in
  if k <=? 0 then x else Z.sgn x * (round_half_even (Z.abs x) (2 ^ k) * 2 ^ k).

(** [math.ceil(n / d)] for the two constant divisors of the script: below
    [2 ^ 53] the rounded quotient lies strictly above the integer part when
    the exact one does, so the result is the exact one. *)
Definition ceil_div (n d : Z) : Z := - ((- n) / d).

Definition exact_max : Z := 2 ^ 53.

Lemma lua_exact x : - exact_max ≤ x ≤ exact_max → lua x = x.
Proof.
  unfold exact_max, lua. intros Hx. destruct (Z.leb_spec (Z.log2 (Z.abs x) - 52) 0); [done|].
  destruct (decide (Z.abs x = 2 ^ 53)) as [He|He].
  - destruct (Z.abs_spec x) as [[? Hax]|[? Hax]]; rewrite Hax in He; subst;
      [|assert (x = - 2 ^ 53) as -> by lia]; reflexivity.
  - assert (Z.log2 (Z.abs x) < 53); [|lia]. apply Z.log2_lt_pow2; [|lia].
    destruct (decide (x = 0)) as [->|]; [by simpl in *|lia].
Qed.

Lemma ceil_div_spec n d : 0 < d → n ≤ d * ceil_div n d < n + d.
Proof.
  intros Hd. unfold ceil_div. pose proof (Z.div_mod (- n) d). pose proof (Z.mod_pos_bound (- n) d).
  lia.
Qed.

(** ** Redis *)

Class RedisStore (S : Type) := {
  redis_get : string → Z → S → option Z;
  redis_set : string → Z → option Z → Z → S → S }.

(** Microseconds in the seconds of an expiry. *)
Definition micros (secs : Z) : Z := 1000000 * secs.

(** A key that was set reads back until its expiry; other keys are kept. *)
Class RedisLaws (S : Type) `{!RedisStore S} := {
  redis_get_set k v ttl now now' s :
    now ≤ now' →
    redis_get k now' (redis_set k v ttl now s)
    = match ttl with
      | Some secs => if decide (now' < now + micros secs) then Some v else None
      | None => Some v
      end;
  redis_get_other k k' v ttl now now' s :
    k ≠ k' → redis_get k' now' (redis_set k v ttl now s) = redis_get k' now' s }.

Record RateLimitResult := mk_result { allowed : bool; retry_after_ms : Z }.

Section limiter.
Context {S : Type} `{!RedisStore S}.

(** The script: its result is the array it returns. *)
Definition lua_script (key : string) (t tau now request : Z) (s : S) : list Z * S :=
  let t := lua t in
  let tau := lua tau in
  let now := lua now in
  let request := lua request in
  let tat := default now (redis_get key now s) in
  let new_tat := lua (Z.max tat now + lua (t * request)) in
  let allow_at := lua (new_tat - tau) in
  if now <? allow_at then ([0; ceil_div (lua (allow_at - now)) 1000], s)
  else
    let ttl := ceil_div (lua (new_tat - now)) 1000000 in
    if 0 <? ttl then ([1; 0], redis_set key new_tat (Some ttl) now s)
    else ([1; 0], redis_set key new_tat None now s).

(** [check_limit] at the time [now] in microseconds. *)
Definition check_limit (key : string) (capacity replenish_rate tokens now : Z) (s : S)
    : (string + RateLimitResult) * S :=
  if replenish_rate =? 0 then (inl "replenish_rate must be > 0"%string, s) else
  let t := 1000000 / replenish_rate in
  let tau := wmul64 t capacity in
  let '(result, s') := lua_script key t tau now tokens s in
  match result with
  | r0 :: r1 :: _ => (inr (mk_result (r0 =? 1) r1), s')
  | _ => (inl "Invalid response from Redis GCRA script"%string, s')
  end.
End limiter.

(** ** The specification: a theoretical arrival time per key *)

Definition gcra (tats : string → Z) (key : string) (t tau now tokens : Z)
    : RateLimitResult * (string → Z) :=
  let new_tat := Z.max (tats key) now + t * tokens in
  if now <? new_tat - tau
  then (mk_result false (ceil_div (new_tat - tau - now) 1000), tats)
  else (mk_result true 0, λ k, if String.eqb k key then new_tat else tats k).

Record Call := mk_call { call_key : string; call_tokens : Z; call_now : Z }.

Fixpoint gcra_run (t tau : Z) (calls : list Call) (tats : string → Z)
    : list RateLimitResult * (string → Z) :=
  match calls with
  | [] => ([], tats)
  | c :: cs =>
      let '(r, tats1) := gcra tats (call_key c) t tau (call_now c) (call_tokens c) in
      let '(rs, tats2) := gcra_run t tau cs tats1 in (r :: rs, tats2)
  end.

Fixpoint limit_run {S} `{!RedisStore S} (capacity rate : Z) (calls : list Call) (s : S)
    : list (string + RateLimitResult) * S :=
  match calls with
  | [] => ([], s)
  | c :: cs =>
      let '(r, s1) := check_limit (call_key c) capacity rate (call_tokens c) (call_now c) s in
      let '(rs, s2) := limit_run capacity rate cs s1 in (r :: rs, s2)
  end.

(** The tokens granted to a key. *)
Fixpoint granted (key : string) (calls : list Call) (rs : list RateLimitResult) : Z :=
  match calls, rs with
  | c :: cs, r :: rs' =>
      (if allowed r && String.eqb (call_key c) key then call_tokens c else 0)
      + granted key cs rs'
  | _, _ => 0
  end.

Fixpoint last_now (now : Z) (calls : list Call) : Z :=
  match calls with [] => now | c :: cs => last_now (call_now c) cs end.

(** Calls in the order of their times, from [now] on, with numbers the script
    computes exactly. *)
Fixpoint calls_ok (t tau now : Z) (calls : list Call) : Prop :=
  match calls with
  | [] => True
  | c :: cs =>
      now ≤ call_now c ∧ 0 ≤ call_tokens c ∧
      call_now c + tau + t * call_tokens c ≤ exact_max ∧ call_tokens c ≤ exact_max ∧
      calls_ok t tau (call_now c) cs
  end.

(** ** The script implements the specification *)

Section refinement.
Context {S : Type} `{!RedisStore S, !RedisLaws S}.

(** The store holds the arrival times, up to those that have passed. *)
Definition represents (tau now : Z) (s : S) (tats : string → Z) : Prop :=
  (∀ k now', now ≤ now' →
     Z.max (default now' (redis_get k now' s)) now' = Z.max (tats k) now') ∧
  (∀ k, tats k ≤ now + tau).

Lemma represents_later tau now now' s tats :
  now ≤ now' → represents tau now s tats → represents tau now' s tats.
Proof.
  intros Hle [Hr Hb]. split; [intros k n Hn; apply Hr; lia|]. intros k. specialize (Hb k). lia.
Qed.

(** A store that has no entry for any key. *)
Lemma represents_fresh tau now s :
  0 ≤ tau → (∀ k now', now ≤ now' → redis_get k now' s = None) → represents tau now s (λ _, now).
Proof. intros Ht Hs. split; [|lia]. intros k n Hn. rewrite Hs by done. simpl. lia. Qed.

Lemma represents_set tau now s tats k v ttl :
  represents tau now s tats → v ≤ now + tau →
  match ttl with Some secs => v ≤ now + micros secs | None => True end →
  represents tau now (redis_set k v ttl now s) (λ k', if String.eqb k' k then v else tats k').
Proof.
  intros [Hr Hb] Hv Httl. split.
  - intros k' n Hn. destruct (String.eqb_spec k' k) as [->|Hne].
    + rewrite redis_get_set by done. destruct ttl as [secs|]; [|done]. case_decide; simpl; lia.
    + rewrite redis_get_other by done. by apply Hr.
  - intros k'. by destruct (String.eqb k' k).
Qed.

Lemma script_refines t tau now0 s tats key tokens now :
  0 ≤ t ≤ 1000000 → 0 ≤ tau → 0 ≤ now0 ≤ now → represents tau now0 s tats → 0 ≤ tokens →
  now + tau + t * tokens ≤ exact_max → tokens ≤ exact_max →
  let '(r, tats') := gcra tats key t tau now tokens in
  ∃ s', lua_script key t tau now tokens s = ([if allowed r then 1 else 0; retry_after_ms r], s') ∧
    represents tau now s' tats'.
Proof.
  intros Ht Htau H0 Hrep Htok Hmax Htmax.
  apply (represents_later _ _ now) in Hrep; [|lia].
  pose proof Hrep as [Hr Hb]. specialize (Hb key). specialize (Hr key now ltac:(lia)).
  assert (0 ≤ t * tokens) as Htn by nia. assert (t ≤ exact_max) by (unfold exact_max; lia).
  unfold gcra, lua_script.
  rewrite (lua_exact t), (lua_exact tau), (lua_exact now), (lua_exact tokens),
    (lua_exact (t * tokens)), Hr by lia.
  set (new_tat := Z.max (tats key) now + t * tokens).
  assert (now ≤ new_tat ≤ now + tau + t * tokens) as Hnew by (unfold new_tat; lia).
  rewrite (lua_exact new_tat), (lua_exact (new_tat - tau)), (lua_exact (new_tat - now)),
    (lua_exact (new_tat - tau - now)) by lia.
  destruct (Z.ltb_spec now (new_tat - tau)); [by exists s|].
  pose proof (ceil_div_spec (new_tat - now) 1000000) as Hceil.
  destruct (Z.ltb_spec 0 (ceil_div (new_tat - now) 1000000)); (eexists; split; [done|]);
    apply represents_set; simpl; unfold micros; try done; lia.
Qed.

Context (capacity rate : Z).
Hypothesis Hrate : 1 ≤ rate.
Hypothesis Hcap : 0 ≤ capacity.
Let t := 1000000 / rate.
Let tau := t * capacity.
Hypothesis Htau : tau ≤ u64_max.

Lemma interval_bounds : 0 ≤ t ≤ 1000000 ∧ 0 ≤ tau.
Proof.
  assert (0 ≤ t ≤ 1000000) as Ht; [|split; [done|unfold tau; nia]].
  unfold t. split; [apply Z.div_pos; lia|]. apply Z.div_le_upper_bound; nia.
Qed.

Lemma check_refines now0 s tats key tokens now :
  0 ≤ now0 ≤ now → represents tau now0 s tats → 0 ≤ tokens →
  now + tau + t * tokens ≤ exact_max → tokens ≤ exact_max →
  let '(r, tats') := gcra tats key t tau now tokens in
  ∃ s', check_limit key capacity rate tokens now s = (inr r, s') ∧ represents tau now s' tats'.
Proof.
  intros. destruct interval_bounds as [Ht Ht0].
  pose proof (script_refines t tau now0 s tats key tokens now) as Hs.
  destruct (gcra tats key t tau now tokens) as [r tats'].
  destruct Hs as (s' & Hs & Hrep); [done..|]. exists s'. split; [|done].
  unfold check_limit. destruct (Z.eqb_spec rate 0) as [->|_]; [lia|].
  fold t. assert (wmul64 t capacity = tau) as ->.
  { unfold wmul64, u64_modulus. apply Z.mod_small. unfold u64_max in Htau. fold tau. lia. }
  rewrite Hs. destruct r as [[] ra]; done.
Qed.

Lemma run_refines calls now0 s tats :
  0 ≤ now0 → represents tau now0 s tats → calls_ok t tau now0 calls →
  let '(rs, tats') := gcra_run t tau calls tats in
  ∃ s', limit_run capacity rate calls s = (inr <$> rs, s') ∧
    represents tau (last_now now0 calls) s' tats'.
Proof.
  revert now0 s tats. induction calls as [|c calls IH]; intros now0 s tats H0 Hrep; simpl;
    [by exists s|]. intros (Hnow & Htok & Hmax & Htmax & Hok).
  pose proof (check_refines now0 s tats (call_key c) (call_tokens c) (call_now c)) as Hc.
  destruct (gcra tats _ t tau _ _) as [r tats1]. destruct Hc as (s1 & -> & Hrep1); [done..|].
  specialize (IH (call_now c) s1 tats1 ltac:(lia) Hrep1 Hok).
  destruct (gcra_run t tau calls tats1) as [rs tats2]. destruct IH as (s2 & -> & Hrep2).
  by exists s2.
Qed.
End refinement.

(** ** Runs of the specification *)

Section spec.
Context (t tau : Z).

Lemma gcra_run_app a b tats :
  gcra_run t tau (a ++ b) tats
  = ((gcra_run t tau a tats).1 ++ (gcra_run t tau b (gcra_run t tau a tats).2).1,
     (gcra_run t tau b (gcra_run t tau a tats).2).2).
Proof.
  revert tats. induction a as [|c a IH]; intros tats; cbn [gcra_run app].
  - simpl. by destruct (gcra_run t tau b tats).
  - destruct (gcra tats _ t tau _ _) as [r tats1]. rewrite IH.
    by destruct (gcra_run t tau a tats1).
Qed.

Lemma gcra_run_length a tats : length (gcra_run t tau a tats).1 = length a.
Proof.
  revert tats. induction a as [|c a IH]; intros tats; simpl; [done|].
  destruct (gcra tats _ t tau _ _) as [r tats1]. specialize (IH tats1).
  destruct (gcra_run t tau a tats1). simpl in *. lia.
Qed.

Lemma calls_ok_app now a b :
  calls_ok t tau now (a ++ b) ↔ calls_ok t tau now a ∧ calls_ok t tau (last_now now a) b.
Proof. revert now. induction a as [|c a IH]; intros now; simpl; [|rewrite IH]; naive_solver. Qed.

(** Every granted token moves the arrival time of its key by one interval. *)
Lemma gcra_run_grows now calls tats key :
  calls_ok t tau now calls →
  Z.max (tats key) now + t * granted key calls (gcra_run t tau calls tats).1
  ≤ Z.max ((gcra_run t tau calls tats).2 key) (last_now now calls).
Proof.
  revert now tats. induction calls as [|c calls IH]; intros now tats; simpl; [lia|].
  intros (Hnow & Htok & _ & _ & Hok). unfold gcra.
  destruct (Z.ltb_spec (call_now c) (Z.max (tats (call_key c)) (call_now c) + t * call_tokens c - tau)).
  - specialize (IH (call_now c) tats Hok). destruct (gcra_run t tau calls tats). simpl in *. lia.
  - match goal with |- context [gcra_run t tau calls ?f] =>
      specialize (IH (call_now c) f Hok); destruct (gcra_run t tau calls f) end.
    simpl in *. rewrite (String.eqb_sym (call_key c) key).
    destruct (String.eqb_spec key (call_key c)) as [->|]; lia.
Qed.

Lemma gcra_run_other calls tats key :
  Forall (λ c, call_key c ≠ key) calls → (gcra_run t tau calls tats).2 key = tats key.
Proof.
  intros Hall. revert tats. induction Hall as [|c calls Hc Hall IH]; intros tats; simpl; [done|].
  unfold gcra. destruct (_ <? _).
  - specialize (IH tats). by destruct (gcra_run t tau calls tats).
  - match goal with |- context [gcra_run t tau calls ?f] =>
      specialize (IH f); destruct (gcra_run t tau calls f) end.
    simpl in *. rewrite IH. by destruct (String.eqb_spec key (call_key c)).
Qed.
End spec.

(** C19: The limiter never exceeds its rate beyond the burst.  From a store
    with no entries, for a rate of one to a million tokens a second and a burst
    whose product with the interval fits in 64 bits, over calls in the order of
    their times whose numbers stay within 2^53 (where the script's doubles are
    exact): no call fails, and the tokens granted to a key between any call and
    any later one, in microseconds of the interval (1,000,000 / rate, rounded
    down) each, are at most the burst plus the time that has passed.  When the
    rate divides a million that is the documented rate: at most the burst plus
    rate tokens for every second.  (Any other rate is rounded up by the
    interval, and above a million a second there is no limit at all: [ex_rate_rounded],
    [ex_no_limit].) *)
Theorem rate_limit_bound {S} `{!RedisStore S, !RedisLaws S} capacity rate (s : S) now0
    calls1 c calls2 :
  let t := 1000000 / rate in
  1 ≤ rate ≤ 1000000 → 0 ≤ capacity → t * capacity ≤ u64_max → 0 ≤ now0 →
  (∀ k now, now0 ≤ now → redis_get k now s = None) →
  calls_ok t (t * capacity) now0 (calls1 ++ c :: calls2) →
  ∃ rs1 rs2 s',
    limit_run capacity rate (calls1 ++ c :: calls2) s = (inr <$> (rs1 ++ rs2), s') ∧
    length rs1 = length calls1 ∧
    ∀ key, let elapsed := last_now (call_now c) calls2 - call_now c in
      t * granted key (c :: calls2) rs2 ≤ t * capacity + elapsed ∧
      ((rate | 1000000) →
       1000000 * granted key (c :: calls2) rs2 ≤ 1000000 * capacity + rate * elapsed).
Proof.
  intros t [Hrate Hmillion]. intros Hcap Hu H0 Hs Hok.
  cut (∃ rs1 rs2 s', limit_run capacity rate (calls1 ++ c :: calls2) s = (inr <$> (rs1 ++ rs2), s') ∧
    length rs1 = length calls1 ∧
    ∀ key, t * granted key (c :: calls2) rs2
           ≤ t * capacity + (last_now (call_now c) calls2 - call_now c)).
  { intros (rs1 & rs2 & s' & Hrun & Hl & Hg). exists rs1, rs2, s'. split_and!; [done..|].
    intros key elapsed. split; [apply Hg|]. intros Hdiv. specialize (Hg key). fold elapsed in Hg.
    assert (rate * t = 1000000) as Ht by (destruct Hdiv as [q Hq]; unfold t; rewrite Hq, Z.div_mul by lia; lia).
    apply (Z.mul_le_mono_nonneg_l _ _ rate) in Hg; [|lia]. rewrite <- Ht. lia. }
  destruct (interval_bounds capacity rate Hrate Hcap) as [Ht Htau].
  fold t in Ht, Htau.
  pose proof (represents_fresh _ now0 s Htau Hs) as Hrep.
  pose proof (run_refines capacity rate Hrate Hcap Hu _ _ _ _ H0 Hrep Hok) as Hrun. fold t in Hrun.
  rewrite gcra_run_app in Hrun. destruct Hrun as (s' & Hrun & _ & Hb).
  eexists _, _, s'. split; [exact Hrun|]. split; [apply gcra_run_length|]. intros key.
  apply calls_ok_app in Hok as [_ Hok].
  destruct Hok as (Hn & Htok & Hmax & Htmax & Hok).
  set (tats1 := (gcra_run t (t * capacity) calls1 (λ _, now0)).2) in *.
  pose proof (gcra_run_grows t (t * capacity) (call_now c) (c :: calls2) tats1 key)
    as Hgrow.
  specialize (Hb key). simpl last_now in *.
  assert (last_now now0 (calls1 ++ c :: calls2) = last_now (call_now c) calls2) as Hlast.
  { clear. revert now0. induction calls1; intros; simpl; auto. }
  rewrite Hlast in Hb.
  assert (∀ calls now, calls_ok t (t * capacity) now calls → now ≤ last_now now calls) as Hmono.
  { clear. induction calls as [|d calls IH]; intros now; simpl; [lia|].
    intros (? & _ & _ & _ & Hd). specialize (IH _ Hd). lia. }
  specialize (Hmono calls2 (call_now c) Hok).
  assert (calls_ok t (t * capacity) (call_now c) (c :: calls2)) as Hc by (simpl; auto with lia).
  specialize (Hgrow Hc). cbn [last_now] in Hgrow. lia.
Qed.

(** A refused call that asks for no more than the burst is granted when it
    is made again at least [retry_after_ms] later, whatever other keys have
    been granted in between. *)
Theorem retry_after_sufficient {S} `{!RedisStore S, !RedisLaws S} capacity rate (s : S) now0
    calls1 c calls2 now :
  let t := 1000000 / rate in
  1 ≤ rate → 0 ≤ capacity → t * capacity ≤ u64_max → 0 ≤ now0 →
  (∀ k now, now0 ≤ now → redis_get k now s = None) →
  calls_ok t (t * capacity) now0
    (calls1 ++ c :: calls2 ++ [mk_call (call_key c) (call_tokens c) now]) →
  Forall (λ d, call_key d ≠ call_key c) calls2 → call_tokens c ≤ capacity →
  ∃ rs1 r rs2 r' s',
    limit_run capacity rate (calls1 ++ c :: calls2 ++ [mk_call (call_key c) (call_tokens c) now]) s
    = (inr <$> (rs1 ++ r :: rs2 ++ [r']), s') ∧
    length rs1 = length calls1 ∧ length rs2 = length calls2 ∧
    (allowed r = false → call_now c + 1000 * retry_after_ms r ≤ now → allowed r' = true).
Proof.
  intros t Hrate Hcap Hu H0 Hs Hok Hother Htok.
  destruct (interval_bounds capacity rate Hrate Hcap) as [Ht Htau]. fold t in Ht, Htau.
  pose proof (represents_fresh _ now0 s Htau Hs) as Hrep.
  pose proof (run_refines capacity rate Hrate Hcap Hu _ _ _ _ H0 Hrep Hok) as Hrun. fold t in Hrun.
  rewrite gcra_run_app in Hrun. cbn [gcra_run] in Hrun.
  set (tats1 := (gcra_run t (t * capacity) calls1 (λ _, now0)).2) in *.
  destruct (gcra tats1 (call_key c) t (t * capacity) (call_now c) (call_tokens c)) as [r tats2] eqn:Hr.
  rewrite gcra_run_app in Hrun. cbn [gcra_run call_key call_now call_tokens] in Hrun.
  pose proof (gcra_run_other t (t * capacity) calls2 tats2 (call_key c) Hother) as Hsame.
  set (tats3 := (gcra_run t (t * capacity) calls2 tats2).2) in *.
  destruct (gcra tats3 (call_key c) t (t * capacity) now (call_tokens c)) as [r' tats4] eqn:Hr'.
  destruct Hrun as (s' & Hrun & _). eexists _, r, _, r', s'. split; [exact Hrun|].
  split; [apply gcra_run_length|]. split; [apply gcra_run_length|].
  intros Hden Hwait. unfold gcra in Hr, Hr'.
  destruct (Z.ltb_spec (call_now c)
    (Z.max (tats1 (call_key c)) (call_now c) + t * call_tokens c - t * capacity)) as [Hlt|];
    injection Hr as <- <-; [|done]. simpl in Hwait. rewrite Hsame in Hr'.
  pose proof (ceil_div_spec (Z.max (tats1 (call_key c)) (call_now c) + t * call_tokens c
    - t * capacity - call_now c) 1000) as Hceil.
  assert (t * call_tokens c ≤ t * capacity) by nia.
  destruct (Z.ltb_spec now
    (Z.max (tats1 (call_key c)) now + t * call_tokens c - t * capacity)); [lia|].
  by injection Hr' as <- _.
Qed.

(** ** A store *)

Abbreviation store := (gmap string (Z * option Z)).

#[export] Instance gmap_redis : RedisStore store := {|
  redis_get k now s :=
    match s !! k with
    | Some (v, Some expiry) => if decide (now < expiry) then Some v else None
    | Some (v, None) => Some v
    | None => None
    end;
  redis_set k v ttl now s := <[k := (v, (λ secs, now + micros secs) <$> ttl)]> s |}.

#[export] Instance gmap_redis_laws : RedisLaws store.
Proof.
  constructor; simpl.
  - intros k v ttl now now' s _. rewrite lookup_insert_eq. by destruct ttl.
  - intros k k' v ttl now now' s Hne. by rewrite lookup_insert_ne.
Qed.

(** A burst of three tokens at ten a second: a fourth request at once is told
    to wait 100 ms. *)
Definition ex_calls : list Call :=
  [mk_call "a" 2 5000000; mk_call "b" 3 5000000; mk_call "a" 1 5000000].
Definition ex_refused : Call := mk_call "a" 1 5000000.

Example ex_limit_run :
  (limit_run 3 10 (ex_calls ++ [ex_refused; mk_call "a" 1 5100000]) (∅ : store)).1
  = inr <$> [mk_result true 0; mk_result true 0; mk_result true 0; mk_result false 100;
             mk_result true 0].
Proof. vm_compute. reflexivity. Qed.

(** At 600,000 a second the interval is one microsecond: a
    token every microsecond, a million in a second. *)
Example ex_rate_rounded :
  (limit_run 1 600000 (mk_call "a" 1 5000000 :: ((λ k, mk_call "a" 1 (5000000 + Z.of_nat k)) <$> seq 1 9)) (∅ : store)).1
  = replicate 10 (inr (mk_result true 0)).
Proof. vm_compute. reflexivity. Qed.

(** Above a million tokens a second the interval is zero microseconds and the
    limiter grants everything. *)
Example ex_no_limit :
  (limit_run 1 2000000 (replicate 5 (mk_call "a" 1000 5000000)) (∅ : store)).1
  = replicate 5 (inr (mk_result true 0)).
Proof. vm_compute. reflexivity. Qed.

Lemma rate_limit_bound_witness :
  ∃ rs1 rs2 s',
    limit_run 3 10 (ex_calls ++ ex_refused :: [mk_call "a" 1 5100000]) (∅ : store)
    = (inr <$> (rs1 ++ rs2), s') ∧
    1000000 * granted "a" [ex_refused; mk_call "a" 1 5100000] rs2 ≤ 3000000 + 10 * 100000.
Proof.
  destruct (rate_limit_bound 3 10 (∅ : store) 0 ex_calls ex_refused [mk_call "a" 1 5100000])
    as (rs1 & rs2 & s' & Hrun & _ & Hg);
    [lia|lia|vm_compute; discriminate|lia|reflexivity|vm_compute; repeat split; discriminate|].
  exists rs1, rs2, s'. split; [exact Hrun|]. apply (Hg "a"%string). by exists 100000.
Defined.

Lemma retry_after_sufficient_witness :
  ∃ rs1 r rs2 r' s',
    limit_run 3 10 (ex_calls ++ ex_refused :: [] ++ [mk_call "a" 1 5100000]) (∅ : store)
    = (inr <$> (rs1 ++ r :: rs2 ++ [r']), s') ∧
    (allowed r = false → 5000000 + 1000 * retry_after_ms r ≤ 5100000 → allowed r' = true).
Proof.
  destruct (retry_after_sufficient 3 10 (∅ : store) 0 ex_calls ex_refused [] 5100000)
    as (rs1 & r & rs2 & r' & s' & Hrun & _ & _ & Hr);
    [lia|lia|vm_compute; discriminate|lia|reflexivity|vm_compute; repeat split; discriminate
    |constructor|simpl; lia|].
  exists rs1, r, rs2, r', s'. split; [exact Hrun|exact Hr].
Defined.
