(* ===== verification/Coalesce.v ===== *)
(** * Coalesce: one call of the handler for identical requests in flight

    [crates/justapi-core/src/coalesce.rs].  Requests interleave at the points
    where a future waits or touches shared state: a request arrives and takes
    or finds the key under the lock, a request that found it subscribes to the
    channel, a leader's handler returns, a frame of its body passes, the body
    ends or is dropped, a waiter wakes up, a future is dropped.  Each is one
    event on the shared state: the map of keys in flight and the channels it
    points to.  A channel is its number; waiters and the map hold its sender,
    so it is never closed while someone waits.  Its receivers are the waiters
    that have subscribed: [watch::Sender::send] keeps nothing when there is
    none. *)

From S2P Require Import Prelude Text Http.

(** [CoalescedResponse::to_response]: framing headers are dropped. *)
Definition to_response (r : Response) : Response :=
  mk_response (status r)
    (filter (λ h : string * string, h.1 ∉ ["transfer-encoding"; "connection"]%string) (headers r))
    (body r).

Inductive Outcome := Pending | Ok (r : Response) | Err (message : string).

Record CoalesceKey := mk_key {
  key_method : string; key_uri : string; key_headers : list (string * string) }.

#[export] Instance CoalesceKey_eq_dec : EqDecision CoalesceKey.
Proof. solve_decision. Defined.
#[export] Instance CoalesceKey_countable : Countable CoalesceKey.
Proof.
  refine (inj_countable' (λ k, (key_method k, key_uri k, key_headers k))
            (λ t, mk_key t.1.1 t.1.2 t.2) _). by intros [].
Defined.

(** [key_of]: the named headers the request has, in the order of the
    configuration. *)
Definition key_of (include_headers : list string) (req : Request) : CoalesceKey :=
  mk_key (req_method req)
    (String.append (req_path req)
       (match req_query req with Some q => String.append "?" q | None => EmptyString end))
    (omap (λ n, (λ v, (n, v)) <$> assoc_get n (req_headers req)) include_headers).

(** Where a request stands.  [Joining] holds the sender it found in the map,
    [Follower] has subscribed to it.  [Streaming] is the leader's response
    with the body that has passed so far. *)
Inductive Task :=
| Joining (c : nat)
| Follower (c : nat)
| Leader (k : CoalesceKey) (c : nat)
| Streaming (c : nat) (so_far : Response)
| Answered (o : outcome)
| Gone.

Record RequestCoalescer := mk_coalescer {
  in_flight : gmap CoalesceKey nat;
  channels : list Outcome;
  tasks : list Task }.

Definition new : RequestCoalescer := mk_coalescer ∅ [] [].

Inductive Event :=
| Arrive (k : CoalesceKey)
| Subscribe (i : nat)
| HandlerOk (i : nat) (st : Z) (hs : HeaderMap)
| HandlerErr (i : nat) (e : string)
| Chunk (i : nat) (b : string)
| EndOfBody (i : nat)
| Wake (i : nat)
| Dropped (i : nat).

Definition set_task (i : nat) (t : Task) (s : RequestCoalescer) : RequestCoalescer :=
  mk_coalescer (in_flight s) (channels s) (<[i:=t]> (tasks s)).

(** The task holds a receiver of the channel. *)
Definition receives (c : nat) (t : Task) : bool :=
  match t with Follower c' => bool_decide (c' = c) | _ => false end.

(** [tx.send]: without a receiver it fails and the value is dropped. *)
Definition publish (c : nat) (o : Outcome) (s : RequestCoalescer) : RequestCoalescer :=
  if existsb (receives c) (tasks s)
  then mk_coalescer (in_flight s) (<[c:=o]> (channels s)) (tasks s)
  else s.

Definition remove_key (k : CoalesceKey) (s : RequestCoalescer) : RequestCoalescer :=
  mk_coalescer (delete k (in_flight s)) (channels s) (tasks s).

(** [handle]: under the lock, take the sender of the key's leader or become
    it. *)
Definition arrive (k : CoalesceKey) (s : RequestCoalescer) : RequestCoalescer :=
  match in_flight s !! k with
  | Some c => mk_coalescer (in_flight s) (channels s) (tasks s ++ [Joining c])
  | None =>
      let c := length (channels s) in
      mk_coalescer (<[k:=c]> (in_flight s)) (channels s ++ [Pending]) (tasks s ++ [Leader k c])
  end.

(** The first line of [wait_for_leader]: [tx.subscribe()]. *)
Definition subscribe (i c : nat) (s : RequestCoalescer) : RequestCoalescer :=
  set_task i (Follower c) s.

(** [run_leader] when [next.run] has returned. *)
Definition leader_ok (i : nat) (k : CoalesceKey) (c : nat) (st : Z) (hs : HeaderMap)
    (s : RequestCoalescer) : RequestCoalescer :=
  set_task i (Streaming c (mk_response st hs EmptyString)) (remove_key k s).

Definition leader_err (i : nat) (k : CoalesceKey) (c : nat) (e : string) (s : RequestCoalescer)
    : RequestCoalescer :=
  set_task i (Answered (inr e)) (publish c (Err e) (remove_key k s)).

(** [FanoutBody::poll_frame] on a data frame and at the end of the stream. *)
Definition push_chunk (r : Response) (b : string) : Response :=
  mk_response (status r) (headers r) (String.append (body r) b).

Definition end_of_body (i c : nat) (r : Response) (s : RequestCoalescer) : RequestCoalescer :=
  set_task i (Answered (inl r)) (publish c (Ok r) s).

(** One iteration of the loop of [wait_for_leader]; a pending channel keeps waiting. *)
Definition wait_for_leader (i : nat) (o : Outcome) (s : RequestCoalescer) : option RequestCoalescer :=
  match o with
  | Ok r => Some (set_task i (Answered (inl (to_response r))) s)
  | Err message => Some (set_task i (Answered (inr message)) s)
  | Pending => None
  end.

(** The future or the body of a request is dropped; [FanoutBody] publishes
    what it has, the handler of a leader just stops.  A request that found
    the key reaches its first wait after it has subscribed. *)
Definition dropped (i : nat) (t : Task) (s : RequestCoalescer) : option RequestCoalescer :=
  match t with
  | Streaming c r => Some (set_task i Gone (publish c (Ok r) s))
  | Leader _ _ | Follower _ => Some (set_task i Gone s)
  | Joining _ | Answered _ | Gone => None
  end.

(** [None] is an event that cannot happen in the state. *)
Definition apply (e : Event) (s : RequestCoalescer) : option RequestCoalescer :=
  match e with
  | Arrive k => Some (arrive k s)
  | Subscribe i => match tasks s !! i with Some (Joining c) => Some (subscribe i c s) | _ => None end
  | HandlerOk i st hs =>
      match tasks s !! i with Some (Leader k c) => Some (leader_ok i k c st hs s) | _ => None end
  | HandlerErr i e =>
      match tasks s !! i with Some (Leader k c) => Some (leader_err i k c e s) | _ => None end
  | Chunk i b =>
      match tasks s !! i with
      | Some (Streaming c r) => Some (set_task i (Streaming c (push_chunk r b)) s)
      | _ => None
      end
  | EndOfBody i =>
      match tasks s !! i with Some (Streaming c r) => Some (end_of_body i c r s) | _ => None end
  | Wake i =>
      match tasks s !! i with
      | Some (Follower c) => o ← channels s !! c; wait_for_leader i o s
      | _ => None
      end
  | Dropped i => t ← tasks s !! i; dropped i t s
  end.

Fixpoint run (es : list Event) (s : RequestCoalescer) : option RequestCoalescer :=
  match es with [] => Some s | e :: es' => s' ← apply e s; run es' s' end.

(** ** The invariant *)

(** The channel a request answers on. *)
Definition owns (t : Task) (c : nat) : Prop :=
  match t with Leader _ c' | Streaming c' _ => c' = c | _ => False end.

Record Inv (s : RequestCoalescer) : Prop := {
  inv_flight : ∀ k c, in_flight s !! k = Some c → channels s !! c = Some Pending;
  inv_keys : ∀ k k' c, in_flight s !! k = Some c → in_flight s !! k' = Some c → k = k';
  inv_leader : ∀ i k c, tasks s !! i = Some (Leader k c) → in_flight s !! k = Some c;
  inv_stream : ∀ i c r, tasks s !! i = Some (Streaming c r) →
    channels s !! c = Some Pending ∧ ∀ k, in_flight s !! k ≠ Some c;
  inv_owner : ∀ i j t u c, tasks s !! i = Some t → tasks s !! j = Some u → owns t c → owns u c → i = j }.

Lemma new_inv : Inv new.
Proof.
  split; simpl.
  - by intros k c ?%lookup_empty_Some.
  - by intros k k' c ?%lookup_empty_Some.
  - done.
  - done.
  - done.
Qed.

(** A task that answers on no channel. *)
Definition idle (t : Task) : Prop :=
  match t with Leader _ _ | Streaming _ _ => False | _ => True end.

Lemma idle_owns t c : idle t → ¬ owns t c.
Proof. destruct t; simpl; tauto. Qed.

(** The channel of an owner is pending. *)
Lemma owner_pending s i t c : Inv s → tasks s !! i = Some t → owns t c → channels s !! c = Some Pending.
Proof.
  intros H Hi Ho. destruct t as [| |k c'|c' r| |]; try done; simpl in Ho; subst c';
    [|exact (proj1 (inv_stream _ H _ _ _ Hi))].
  eapply inv_flight; [done|]. by eapply inv_leader.
Qed.

Lemma owner_lt s i t c : Inv s → tasks s !! i = Some t → owns t c → c < length (channels s).
Proof. intros H Hi Ho. eapply lookup_lt_Some, owner_pending; eauto. Qed.

Lemma set_idle_inv i t s : idle t → Inv s → Inv (set_task i t s).
Proof.
  intros Ht [Hf Hk Hl Hs Ho]. split; simpl; [done|done| | |].
  - intros j k c [(-> & -> & _)|[_ Hj]]%list_lookup_insert_Some; [done|]. by eapply Hl.
  - intros j c r [(-> & -> & _)|[_ Hj]]%list_lookup_insert_Some; [done|]. by eapply Hs.
  - intros j j' u u' c [(-> & -> & _)|[_ Hj]]%list_lookup_insert_Some
      [(-> & -> & _)|[_ Hj']]%list_lookup_insert_Some Hu Hu'; try (by exfalso; eapply idle_owns; eassumption).
    by eapply Ho.
Qed.

(** An owner publishes and is done: nobody else answers on its channel. *)
Lemma publish_inv i t t' c o s :
  Inv s → tasks s !! i = Some t → owns t c → (∀ k, in_flight s !! k ≠ Some c) → idle t' →
  Inv (set_task i t' (publish c o s)).
Proof.
  intros H Hi Hc Hnf Ht'. unfold publish. destruct (existsb _ _); [|by apply set_idle_inv].
  destruct H as [Hf Hk Hl Hs Ho].
  assert (∀ j u c', tasks s !! j = Some u → j ≠ i → owns u c' → c' ≠ c) as Hother.
  { intros j u c' Hj Hne Hu ->. apply Hne. by eapply Ho. }
  split; simpl.
  - intros k c' Hkc. rewrite list_lookup_insert_ne; [by eapply Hf|]. intros ->. by eapply Hnf.
  - done.
  - intros j k c' [(-> & -> & _)|[_ Hj]]%list_lookup_insert_Some; [done|]. by eapply Hl.
  - intros j c' r [(-> & -> & _)|[Hne Hj]]%list_lookup_insert_Some; [done|].
    rewrite list_lookup_insert_ne; [by eapply Hs|]. intros <-. by eapply (Hother j).
  - intros j j' u u' c' [(-> & -> & _)|[_ Hj]]%list_lookup_insert_Some
      [(-> & -> & _)|[_ Hj']]%list_lookup_insert_Some Hu Hu'; try (by exfalso; eapply idle_owns; eassumption).
    by eapply Ho.
Qed.

(** The end of leadership, before the answer. *)
Lemma leader_ok_inv i k c st hs s :
  Inv s → tasks s !! i = Some (Leader k c) → Inv (leader_ok i k c st hs s).
Proof.
  intros H Hi. pose proof (inv_leader _ H _ _ _ Hi) as Hkc. destruct H as [Hf Hk Hl Hs Ho].
  assert (∀ j u c', tasks s !! j = Some u → j ≠ i → owns u c' → c' ≠ c) as Hother.
  { intros j u c' Hj Hne Hu ->. apply Hne. by eapply Ho. }
  split; simpl.
  - intros k' c' [_ Hk']%lookup_delete_Some. by eapply Hf.
  - intros k1 k2 c' [_ H1]%lookup_delete_Some [_ H2]%lookup_delete_Some. by eapply Hk.
  - intros j k' c' [(-> & [=] & _)|[Hne Hj]]%list_lookup_insert_Some.
    apply lookup_delete_Some. split; [|by eapply Hl]. intros <-.
    apply (Hother j _ c' Hj); [done|done|]. apply Hl in Hj. congruence.
  - intros j c' r [(-> & [= -> _] & _)|[Hne Hj]]%list_lookup_insert_Some.
    + split; [by eapply Hf|]. intros k' [Hne Hk']%lookup_delete_Some. apply Hne. by eapply Hk.
    + destruct (Hs _ _ _ Hj) as [Hp Hno]. split; [done|]. intros k' [_ Hk']%lookup_delete_Some. by eapply Hno.
  - intros j j' u u' c' [(-> & <- & _)|[Hne Hj]]%list_lookup_insert_Some
      [(Hi' & <- & _)|[Hne' Hj']]%list_lookup_insert_Some Hu Hu'; [done|..].
    + simpl in Hu. subst. by destruct (Hother j' u' c').
    + simpl in Hu'. subst. by destruct (Hother j u c').
    + by eapply Ho.
Qed.

(** A leader that becomes something else holds no receiver before or after. *)
Lemma receives_insert c i t u ts :
  ts !! i = Some t → receives c t = receives c u →
  existsb (receives c) (<[i:=u]> ts) = existsb (receives c) ts.
Proof.
  intros Hi Hu. revert i Hi. induction ts as [|t' ts IH]; intros [|i] Hi; simpl in *; try done.
  - injection Hi as ->. by rewrite Hu.
  - by rewrite IH.
Qed.

Lemma leader_err_inv i k c e s :
  Inv s → tasks s !! i = Some (Leader k c) → Inv (leader_err i k c e s).
Proof.
  intros H Hi. assert (i < length (tasks s)) as Hlt by by eapply lookup_lt_Some.
  pose proof (leader_ok_inv i k c 0 [] s H Hi) as H'.
  assert (tasks (leader_ok i k c 0 [] s) !! i = Some (Streaming c (mk_response 0 [] EmptyString))) as Hi'
    by by apply list_lookup_insert_eq.
  pose proof (publish_inv i _ (Answered (inr e)) c (Err e) _ H' Hi' eq_refl
                (proj2 (inv_stream _ H' _ _ _ Hi')) I) as Hp.
  cut (set_task i (Answered (inr e)) (publish c (Err e) (leader_ok i k c 0 [] s)) = leader_err i k c e s).
  { by intros <-. }
  assert (existsb (receives c) (<[i:=Streaming c (mk_response 0 [] EmptyString)]> (tasks s))
          = existsb (receives c) (tasks s)) as He by (by eapply receives_insert).
  unfold leader_err, leader_ok, publish, set_task, remove_key. simpl. rewrite He.
  destruct (existsb (receives c) (tasks s)); simpl; by rewrite list_insert_insert_eq.
Qed.

Lemma arrive_inv k s : Inv s → Inv (arrive k s).
Proof.
  intros H. pose proof (owner_lt s) as Hlt. destruct H as [Hf Hk Hl Hs Ho] eqn:HI. clear HI.
  unfold arrive. destruct (in_flight s !! k) as [c|] eqn:Hkc.
  - split; simpl; [done|done| | |].
    + intros i k' c' [[_ Hi]|[_ [=]]]%lookup_snoc_Some. by eapply Hl.
    + intros i c' r [[_ Hi]|[_ [=]]]%lookup_snoc_Some. by eapply Hs.
    + intros i j t u c' [[_ Hi]|[-> <-]]%lookup_snoc_Some [[_ Hj]|[-> <-]]%lookup_snoc_Some; try done.
      by apply Ho.
  - set (c := length (channels s)).
    assert (∀ c', channels s !! c' = Some Pending → (channels s ++ [Pending]) !! c' = Some Pending) as Hold
      by (intros; by apply lookup_app_l_Some).
    assert (∀ k' c', in_flight s !! k' = Some c' → c' ≠ c) as Hfresh.
    { intros k' c' Hk' ->. apply Hf, lookup_lt_Some in Hk'. unfold c in Hk'. lia. }
    split; simpl.
    + intros k' c' [[_ <-]|[_ Hk']]%lookup_insert_Some; [|eauto]. by apply list_lookup_middle.
    + intros k1 k2 c' [[-> <-]|[_ H1]]%lookup_insert_Some [[-> H2]|[_ H2]]%lookup_insert_Some;
        [done|by apply Hfresh in H2|subst; by apply Hfresh in H1|by eapply Hk].
    + intros i k' c' [[_ Hi]|[_ [= <- <-]]]%lookup_snoc_Some; [|by apply lookup_insert_eq].
      apply lookup_insert_Some. right. split; [|by eapply Hl]. intros <-. apply Hl in Hi. congruence.
    + intros i c' r [[_ Hi]|[_ [=]]]%lookup_snoc_Some. destruct (Hs _ _ _ Hi) as [Hp Hno].
      split; [by apply Hold|]. intros k' [[_ <-]|[_ Hk']]%lookup_insert_Some; [|by eapply Hno].
      apply lookup_lt_Some in Hp. unfold c in Hp. lia.
    + intros i j t u c' [[_ Hi]|[-> <-]]%lookup_snoc_Some [[_ Hj]|[-> <-]]%lookup_snoc_Some Ht Hu;
        [by eapply Ho| | |done]; simpl in *; subst; exfalso.
      * specialize (Hlt i t c H Hi Ht). unfold c in Hlt. lia.
      * specialize (Hlt j u c H Hj Hu). unfold c in Hlt. lia.
Qed.

Lemma apply_inv e s s' : apply e s = Some s' → Inv s → Inv s'.
Proof.
  intros Ha H. destruct e as [k|i|i st hs|i e|i b|i|i|i]; simpl in Ha.
  - simplify_eq. by apply arrive_inv.
  - destruct (tasks s !! i) as [[]|] eqn:Hi; simplify_eq. by apply set_idle_inv.
  - destruct (tasks s !! i) as [[]|] eqn:Hi; simplify_eq. by apply leader_ok_inv.
  - destruct (tasks s !! i) as [[]|] eqn:Hi; simplify_eq. by apply leader_err_inv.
  - destruct (tasks s !! i) as [[| | |c r| |]|] eqn:Hi; simplify_eq.
    destruct H as [Hf Hk Hl Hs Ho]. split; simpl; [done|done| | |].
    + intros j k c' [(-> & [=] & _)|[_ Hj]]%list_lookup_insert_Some. by eapply Hl.
    + intros j c' r' [(-> & [= -> _] & _)|[_ Hj]]%list_lookup_insert_Some; by eapply Hs.
    + intros j j' u u' c' [(-> & <- & _)|[_ Hj]]%list_lookup_insert_Some
        [(<- & <- & _)|[_ Hj']]%list_lookup_insert_Some Hu Hu'; [done|by eapply Ho..].
  - destruct (tasks s !! i) as [[| | |c r| |]|] eqn:Hi; simplify_eq.
    by eapply publish_inv; [|exact Hi| |apply (inv_stream _ H _ _ _ Hi)|].
  - destruct (tasks s !! i) as [[|c| | | |]|] eqn:Hi; simplify_eq.
    apply bind_Some in Ha as (o & Ho & Ha). destruct o; simplify_eq/=; by apply set_idle_inv.
  - apply bind_Some in Ha as (t & Hi & Ha). destruct t as [|c|k c|c r| |]; simplify_eq/=;
      [by apply set_idle_inv..|].
    by eapply publish_inv; [|exact Hi| |apply (inv_stream _ H _ _ _ Hi)|].
Qed.

Lemma run_inv es s s' : run es s = Some s' → Inv s → Inv s'.
Proof.
  revert s. induction es as [|e es IH]; intros s Hr H; simpl in Hr; [by simplify_eq|].
  apply bind_Some in Hr as (s1 & H1 & Hr). eapply IH; [done|]. by eapply apply_inv.
Qed.

(** ** What the requests see *)

Lemma publish_ne c c' o s : c' ≠ c → channels (publish c' o s) !! c = channels s !! c.
Proof. intros Hne. unfold publish. destruct (existsb _ _); [|done]. by apply list_lookup_insert_ne. Qed.

(** Only the owner of a channel writes to it: an event that is no step of an
    owner leaves it as it was. *)
Lemma apply_channel e s s' c o :
  apply e s = Some s' → Inv s → channels s !! c = Some o →
  (∀ i t, tasks s !! i = Some t → ¬ owns t c) → channels s' !! c = Some o.
Proof.
  intros Ha H Hc Ho.
  assert (∀ i t c' o' k, tasks s !! i = Some t → owns t c' →
            channels (publish c' o' s) !! c = Some o ∧ channels (publish c' o' (remove_key k s)) !! c = Some o) as Hpub.
  { intros i t c' o' k Hi Ht. assert (c' ≠ c) by (intros ->; by eapply Ho). by rewrite !publish_ne. }
  destruct e as [k|i|i st hs|i e|i b|i|i|i]; simpl in Ha.
  - simplify_eq. unfold arrive. destruct (in_flight s !! k); simpl; [done|]. by apply lookup_app_l_Some.
  - destruct (tasks s !! i) as [[]|] eqn:Hi; by simplify_eq.
  - destruct (tasks s !! i) as [[]|] eqn:Hi; by simplify_eq.
  - destruct (tasks s !! i) as [[]|] eqn:Hi; simplify_eq. by eapply Hpub.
  - destruct (tasks s !! i) as [[]|] eqn:Hi; by simplify_eq.
  - destruct (tasks s !! i) as [[| | |c' r| |]|] eqn:Hi; simplify_eq. by eapply (Hpub i _ _ _ (mk_key "" "" [])).
  - destruct (tasks s !! i) as [[|c'| | | |]|] eqn:Hi; simplify_eq.
    apply bind_Some in Ha as (o' & _ & Ha). by destruct o'; simplify_eq/=.
  - apply bind_Some in Ha as (t & Hi & Ha). destruct t as [|c'|k c'|c' r| |]; simplify_eq/=; [done|done|].
    by eapply (Hpub i _ _ _ (mk_key "" "" [])).
Qed.

(** A published outcome stays: its channel has no owner any more. *)
Lemma apply_published e s s' c o :
  apply e s = Some s' → Inv s → channels s !! c = Some o → o ≠ Pending → channels s' !! c = Some o.
Proof.
  intros Ha H Hc Ho. eapply apply_channel; [done|done|done|].
  intros i t Hi Ht. pose proof (owner_pending _ _ _ _ H Hi Ht). congruence.
Qed.

Lemma run_published es s s' c o :
  run es s = Some s' → Inv s → channels s !! c = Some o → o ≠ Pending → channels s' !! c = Some o.
Proof.
  revert s. induction es as [|e es IH]; intros s Hr H Hc Ho; simpl in Hr; [by simplify_eq|].
  apply bind_Some in Hr as (s1 & H1 & Hr).
  eapply IH; [done|by eapply apply_inv|by eapply apply_published|done].
Qed.

(** Whatever order requests, frames and drops come in, at most one request
    of a key is inside the handler, and while it is there every further
    request of the key waits instead of calling the handler. *)
Theorem single_flight es s i k c :
  run es new = Some s → tasks s !! i = Some (Leader k c) →
  (∀ j c', tasks s !! j = Some (Leader k c') → j = i ∧ c' = c) ∧
  ∀ s', apply (Arrive k) s = Some s' → tasks s' = tasks s ++ [Joining c].
Proof.
  intros Hr Hi. pose proof (run_inv _ _ _ Hr new_inv) as H.
  pose proof (inv_leader _ H _ _ _ Hi) as Hk. split.
  - intros j c' Hj. pose proof (inv_leader _ H _ _ _ Hj) as Hk'. simplify_eq.
    split; [|done]. by eapply (inv_owner _ H).
  - intros s'. simpl. unfold arrive. rewrite Hk. by intros [= <-].
Qed.

(** A channel that nobody will answer on. *)
Record dead (c : nat) (s : RequestCoalescer) : Prop := {
  dead_pending : channels s !! c = Some Pending;
  dead_owner : ∀ i t, tasks s !! i = Some t → ¬ owns t c }.

Lemma dead_set_task i t c s : dead c s → ¬ owns t c → dead c (set_task i t s).
Proof.
  intros [Hp Ho] Ht. split; simpl; [done|].
  intros j u [(-> & <- & _)|[_ Hj]]%list_lookup_insert_Some; [done|by eapply Ho].
Qed.

Lemma dead_publish c c' o k s :
  dead c s → c' ≠ c → dead c (publish c' o s) ∧ dead c (publish c' o (remove_key k s)).
Proof.
  intros [Hp Ho] Hne.
  split; split; try (by rewrite publish_ne by done); unfold publish; destruct (existsb _ _); exact Ho.
Qed.

Lemma dead_apply c e s s' : dead c s → Inv s → apply e s = Some s' → dead c s'.
Proof.
  intros Hd H Ha. assert (channels s' !! c = Some Pending) as Hp'.
  { eapply apply_channel; [done|done|apply Hd|apply Hd]. }
  pose proof Hd as [Hp Ho].
  assert (∀ i t, tasks s !! i = Some t → ∀ c', owns t c' → c' ≠ c) as Hne.
  { intros i t Hi c' Ht ->. by eapply Ho. }
  destruct e as [k|i|i st hs|i e|i b|i|i|i]; simpl in Ha.
  - split; [done|]. simplify_eq. unfold arrive. destruct (in_flight s !! k); simpl;
      intros i t [[_ Hi]|[_ <-]]%lookup_snoc_Some; try (by eapply Ho); simpl; [tauto|].
    intros <-. apply lookup_lt_Some in Hp. lia.
  - destruct (tasks s !! i) as [[]|] eqn:Hi; simplify_eq. apply dead_set_task; [done|simpl; tauto].
  - destruct (tasks s !! i) as [[| |k' c'| | |]|] eqn:Hi; simplify_eq.
    apply (dead_set_task i _ c (remove_key k' s)); [done|]. by eapply Hne.
  - destruct (tasks s !! i) as [[| |k' c'| | |]|] eqn:Hi; simplify_eq.
    apply dead_set_task; [|simpl; tauto]. apply (dead_publish c c' (Err e) k' s Hd). by eapply Hne.
  - destruct (tasks s !! i) as [[| | |c' r| |]|] eqn:Hi; simplify_eq.
    apply dead_set_task; [done|]. by eapply Hne.
  - destruct (tasks s !! i) as [[| | |c' r| |]|] eqn:Hi; simplify_eq.
    apply dead_set_task; [|simpl; tauto]. apply (dead_publish c c' (Ok r) (mk_key "" "" []) s Hd). by eapply Hne.
  - destruct (tasks s !! i) as [[|c'| | | |]|] eqn:Hi; simplify_eq.
    apply bind_Some in Ha as (o & _ & Ha). destruct o; simplify_eq/=; apply dead_set_task; simpl; tauto.
  - apply bind_Some in Ha as (t & Hi & Ha). destruct t as [|c'|k' c'|c' r| |]; simplify_eq/=;
      [apply dead_set_task; [done|simpl; tauto]..|].
    apply dead_set_task; [|simpl; tauto]. apply (dead_publish c c' (Ok r) (mk_key "" "" []) s Hd). by eapply Hne.
Qed.

Lemma dead_run c es s s' : dead c s → Inv s → run es s = Some s' → dead c s'.
Proof.
  revert s. induction es as [|e es IH]; intros s Hd H Hr; simpl in Hr; [by simplify_eq|].
  apply bind_Some in Hr as (s1 & He & Hr). eapply IH; [by eapply dead_apply|by eapply apply_inv|done].
Qed.

(** What a publication and the end of its owner leave: the outcome if the
    channel had a receiver, otherwise a channel nobody will answer on. *)
Lemma publish_done i t a c o s s' :
  Inv s → tasks s !! i = Some t → owns t c →
  channels s' = channels s → tasks s' = tasks s →
  tasks (set_task i (Answered a) (publish c o s')) !! i = Some (Answered a) ∧
  if existsb (receives c) (tasks s)
  then channels (set_task i (Answered a) (publish c o s')) !! c = Some o
  else dead c (set_task i (Answered a) (publish c o s')).
Proof.
  intros H Hi Ht Hc Hts. pose proof (owner_lt _ _ _ _ H Hi Ht) as Hlt.
  assert (i < length (tasks s)) by by eapply lookup_lt_Some.
  unfold publish. rewrite Hts. destruct (existsb _ _); simpl; rewrite ?Hts, ?Hc.
  - split; by apply list_lookup_insert_eq.
  - split; [by apply list_lookup_insert_eq|]. split; simpl; rewrite ?Hts, ?Hc; [by eapply owner_pending|].
    intros j u [(-> & <- & _)|[Hne Hj]]%list_lookup_insert_Some Hu; [done|].
    apply Hne. by eapply (inv_owner _ H).
Qed.

(** What a waiter of a channel does with its outcome. *)
Definition answer_of (o : Outcome) : option outcome :=
  match o with Ok r => Some (inl (to_response r)) | Err m => Some (inr m) | Pending => None end.

Lemma wake_after (b : bool) es s s2 j c o a :
  run es s = Some s2 → Inv s → tasks s2 !! j = Some (Follower c) → answer_of o = Some a →
  (if b then channels s !! c = Some o else dead c s) →
  if b then ∃ s3, apply (Wake j) s2 = Some s3 ∧ tasks s3 !! j = Some (Answered a)
  else apply (Wake j) s2 = None.
Proof.
  intros Hr H Hj Ha Hb. assert (j < length (tasks s2)) by by eapply lookup_lt_Some.
  simpl. rewrite Hj. destruct b.
  - assert (channels s2 !! c = Some o) as ->.
    { eapply run_published; [done|done|done|]. by intros ->. }
    destruct o; simplify_eq/=; eexists; split; [done|by apply list_lookup_insert_eq|done|by apply list_lookup_insert_eq].
  - by rewrite (dead_pending _ _ (dead_run _ _ _ _ Hb H Hr)).
Qed.

(** C23: The waiters of a leader share its outcome if one of them had
    subscribed when it was published, and hang if none had.  Requests,
    frames, drops and the two steps of a waiter (taking the sender under the
    lock, subscribing) come in any order.  Say the leader's body ends, or its
    handler fails, while some request waits on its channel: then every waiter
    of the channel, also one that subscribed only later, answers when it wakes
    up at any later time, with the leader's status, its body and its headers
    but the framing ones, or with the same message.  If no request had
    subscribed by then, tokio's sender drops the outcome, and a request that
    had found the key and subscribes afterwards never wakes up. *)
Theorem followers_share_outcome es s e i s1 es' s2 j c :
  run es new = Some s → apply e s = Some s1 → run es' s1 = Some s2 →
  tasks s2 !! j = Some (Follower c) →
  (∀ r, e = EndOfBody i → tasks s !! i = Some (Streaming c r) →
    tasks s1 !! i = Some (Answered (inl r)) ∧
    if existsb (receives c) (tasks s)
    then ∃ s3, apply (Wake j) s2 = Some s3 ∧ tasks s3 !! j = Some (Answered (inl (to_response r)))
    else apply (Wake j) s2 = None) ∧
  (∀ k m, e = HandlerErr i m → tasks s !! i = Some (Leader k c) →
    tasks s1 !! i = Some (Answered (inr m)) ∧
    if existsb (receives c) (tasks s)
    then ∃ s3, apply (Wake j) s2 = Some s3 ∧ tasks s3 !! j = Some (Answered (inr m))
    else apply (Wake j) s2 = None).
Proof.
  intros Hr He Hr' Hj. pose proof (run_inv _ _ _ Hr new_inv) as H.
  pose proof (apply_inv _ _ _ He H) as H1. split.
  - intros r -> Hi. simpl in He. rewrite Hi in He. simplify_eq.
    destruct (publish_done i _ (inl r) c (Ok r) s s H Hi) as [Hl Hc]; [done..|].
    split; [done|]. by eapply (wake_after _ _ _ _ _ _ (Ok r)).
  - intros k m -> Hi. simpl in He. rewrite Hi in He. simplify_eq.
    destruct (publish_done i _ (inr m) c (Err m) s (remove_key k s) H Hi) as [Hl Hc]; [done..|].
    split; [done|]. by eapply (wake_after _ _ _ _ _ _ (Err m)).
Qed.

(** A leader dropped in its handler leaves its key in flight and its channel
    dead. *)
Lemma drop_leader_orphans i k c s :
  Inv s → tasks s !! i = Some (Leader k c) →
  ∃ s', apply (Dropped i) s = Some s' ∧ in_flight s' !! k = Some c ∧ dead c s'.
Proof.
  intros H Hi. simpl. rewrite Hi. simpl. eexists; split; [done|].
  pose proof (inv_leader _ H _ _ _ Hi) as Hk. split; [done|]. split; simpl; [by eapply inv_flight|].
  intros j t [(-> & <- & _)|[Hne Hj]]%list_lookup_insert_Some Ht; [done|].
  apply Hne. eapply (inv_owner _ H); [exact Hi|exact Hj|done|done].
Qed.

(** The key of a dead channel stays in flight: only its leader removes it. *)
Lemma dead_key k c e s s' :
  dead c s → Inv s → in_flight s !! k = Some c → apply e s = Some s' → in_flight s' !! k = Some c.
Proof.
  intros [_ Ho] H Hk Ha.
  assert (∀ i k' c', tasks s !! i = Some (Leader k' c') → k' ≠ k) as Hl.
  { intros i k' c' Hi ->. pose proof (inv_leader _ H _ _ _ Hi). simplify_eq. by eapply Ho. }
  assert (∀ c' o s0, in_flight (publish c' o s0) = in_flight s0) as Hp.
  { intros c' o s0. unfold publish. by destruct (existsb _ _). }
  destruct e as [k'|i|i st hs|i e|i b|i|i|i]; simpl in Ha.
  - simplify_eq. unfold arrive. destruct (in_flight s !! k') as [c'|] eqn:Hk'; simpl; [done|].
    rewrite lookup_insert_ne; [done|congruence].
  - destruct (tasks s !! i) as [[]|] eqn:Hi; by simplify_eq.
  - destruct (tasks s !! i) as [[]|] eqn:Hi; simplify_eq. simpl.
    rewrite lookup_delete_ne; [done|by eapply Hl].
  - destruct (tasks s !! i) as [[]|] eqn:Hi; simplify_eq. simpl. rewrite Hp. simpl.
    rewrite lookup_delete_ne; [done|by eapply Hl].
  - destruct (tasks s !! i) as [[]|] eqn:Hi; by simplify_eq.
  - destruct (tasks s !! i) as [[]|] eqn:Hi; simplify_eq. simpl. by rewrite Hp.
  - destruct (tasks s !! i) as [[]|] eqn:Hi; simplify_eq.
    apply bind_Some in Ha as (o & _ & Ha). by destruct o; simplify_eq/=.
  - apply bind_Some in Ha as (t & _ & Ha). destruct t; simplify_eq/=; by rewrite ?Hp.
Qed.

(** A leader dropped inside the handler (its client disconnected, a timeout
    cancelled it) leaves its key in flight for ever: after any further events
    a new request of the key takes the sender of the dead channel, and no
    waiter of that channel ever wakes up. *)
Theorem dropped_leader_hangs_key es s i k c es' s1 s2 :
  run es new = Some s → tasks s !! i = Some (Leader k c) →
  apply (Dropped i) s = Some s1 → run es' s1 = Some s2 →
  (∀ j, tasks s2 !! j = Some (Follower c) → apply (Wake j) s2 = None) ∧
  ∀ s3, apply (Arrive k) s2 = Some s3 → tasks s3 = tasks s2 ++ [Joining c].
Proof.
  intros Hr Hi Hd Hr'. pose proof (run_inv _ _ _ Hr new_inv) as H.
  destruct (drop_leader_orphans _ _ _ _ H Hi) as (s1' & Hd' & Ho). simplify_eq.
  assert (in_flight s2 !! k = Some c ∧ dead c s2) as [Hk [Hp _]].
  { pose proof (apply_inv _ _ _ Hd H) as H1. clear Hd Hr H Hi. revert s1 Ho H1 Hr'.
    induction es' as [|e es' IH]; intros s1 [Hk Ho] H1 Hr'; simpl in Hr'; [by simplify_eq|].
    apply bind_Some in Hr' as (s1' & He & Hr').
    eapply IH; [|by eapply apply_inv|done]. split; [by eapply dead_key|by eapply dead_apply]. }
  split.
  - intros j Hj. simpl. by rewrite Hj, Hp.
  - intros s3. simpl. unfold arrive. rewrite Hk. by intros [= <-].
Qed.

(** ** Witnesses *)

Module Examples.

Definition key : CoalesceKey :=
  key_of ["accept"%string] (new_request "GET" "/top" (Some "n=3"%string)
    [("accept", "text/html"); ("host", "h")]%string None).

Definition two_in_flight : list Event := [Arrive key; Arrive key; Subscribe 1].
Definition streamed : list Event :=
  two_in_flight ++ [Arrive key; HandlerOk 0 200 [("connection", "close"); ("x", "y")]%string; Chunk 0 "ab"; Chunk 0 "c"].

Lemma single_flight_witness :
  ∃ s, run two_in_flight new = Some s ∧ tasks s !! 0 = Some (Leader key 0) ∧
       ∀ j c', tasks s !! j = Some (Leader key c') → j = 0 ∧ c' = 0.
Proof.
  eexists. split; [by vm_compute|]. split; [done|].
  eapply (single_flight two_in_flight); [by vm_compute|done].
Defined.

Lemma followers_share_outcome_witness :
  ∃ s s1 s2 s3, run streamed new = Some s ∧ apply (EndOfBody 0) s = Some s1 ∧
    run [Subscribe 2] s1 = Some s2 ∧ apply (Wake 2) s2 = Some s3 ∧
    tasks s3 !! 2 = Some (Answered (inl (mk_response 200 [("x", "y")]%string "abc"))).
Proof.
  eexists _, _, _.
  destruct (followers_share_outcome streamed _ (EndOfBody 0) 0 _ [Subscribe 2] _ 2 0
              ltac:(by vm_compute) ltac:(by vm_compute) ltac:(by vm_compute) ltac:(done)) as [Hok _].
  destruct (Hok _ eq_refl ltac:(by vm_compute)) as (_ & s3 & Hw & Ht).
  exists s3. split_and!; [by vm_compute|by vm_compute|by vm_compute|exact Hw|exact Ht].
Defined.

(** The only other request has taken the sender but not subscribed when the
    body ends: it subscribes to a channel nobody will answer on. *)
Definition late_subscriber : list Event :=
  [Arrive key; Arrive key; HandlerOk 0 200 []; Chunk 0 "abc"; EndOfBody 0; Subscribe 1].

Example late_subscriber_hangs :
  ∃ s, run late_subscriber new = Some s ∧ tasks s !! 1 = Some (Follower 0) ∧ apply (Wake 1) s = None.
Proof. eexists. by split_and!; vm_compute. Qed.

Lemma dropped_leader_hangs_key_witness :
  ∃ s s1, run two_in_flight new = Some s ∧ apply (Dropped 0) s = Some s1 ∧
    tasks s1 !! 1 = Some (Follower 0) ∧ apply (Wake 1) s1 = None.
Proof.
  eexists _, _. split_and!; [by vm_compute|by vm_compute|done|].
  apply (proj1 (dropped_leader_hangs_key two_in_flight _ 0 key 0 [] _ _
                  ltac:(by vm_compute) ltac:(by vm_compute) ltac:(by vm_compute) eq_refl)). done.
Defined.
End Examples.
