(* ===== verification/Batching.v ===== *)
(** * Batching: the adaptive batcher

    [crates/justapi-core/src/batching.rs].  What the loop sees is a sequence
    of events: a request taken from the channel, the deadline of the batch, the
    end of the channel.  The [select!] of the loop picks any event that is
    ready, so a theorem about every sequence covers every choice. *)

From S2P Require Import Prelude.

Section batching.
Context {Req Res : Type}.

(** [responder] names the caller's channel. *)
Record BatchRequest := mk_request { payload : Req; responder : nat }.

Inductive Event := Item (r : BatchRequest) | Deadline | Closed.

Inductive Loop :=
| Idle                                (* waiting for the first item *)
| Collecting (batch : list BatchRequest)
| Stopped.

(** The check at the head of the inner loop: a full batch is flushed. *)
Definition check_full (max_size : nat) (batch : list BatchRequest) : Loop * list (list BatchRequest) :=
  if decide (max_size ≤ length batch) then (Idle, [batch]) else (Collecting batch, []).

(** One event; the batches flushed by it. *)
Definition on_event (max_size : nat) (l : Loop) (e : Event) : Loop * list (list BatchRequest) :=
  match l, e with
  | Idle, Item r => check_full max_size [r]
  | Idle, Closed => (Stopped, [])
  | Collecting batch, Item r => check_full max_size (batch ++ [r])
  | Collecting batch, Deadline => (Idle, [batch])
  | Collecting batch, Closed => (Stopped, [batch])
  | _, _ => (l, [])
  end.

Fixpoint start_batcher (max_size : nat) (l : Loop) (es : list Event) : Loop * list (list BatchRequest) :=
  match es with
  | [] => (l, [])
  | e :: es' =>
      let '(l1, b1) := on_event max_size l e in
      let '(l2, b2) := start_batcher max_size l1 es' in
      (l2, b1 ++ b2)
  end.

(** [processor(batch)] and the scatter: the channels and what is sent on
    them; a responder without a result is dropped. *)
Definition scatter (processor : list Req → list Res) (batch : list BatchRequest) : list (nat * Res) :=
  zip (responder <$> batch) (processor (payload <$> batch)).

Definition answers (processor : list Req → list Res) (batches : list (list BatchRequest))
    : list (nat * Res) := batches ≫= scatter processor.

(** What [execute] returns once the loop has stopped. *)
Definition execute (sent : list (nat * Res)) (tx : nat) : Res + string :=
  match assoc_get tx sent with
  | Some r => inl r
  | None => inr "Batcher dropped the response"%string
  end.

Definition item_of (e : Event) : option BatchRequest := match e with Item r => Some r | _ => None end.
Definition items (es : list Event) : list BatchRequest := omap item_of es.

(** The items an unfinished loop holds. *)
Definition held (l : Loop) : list BatchRequest := match l with Collecting b => b | _ => [] end.

(** A loop that has not flushed holds fewer items than the limit. *)
Definition loop_ok (max_size : nat) (l : Loop) : Prop :=
  match l with Collecting b => 0 < length b < max_size | _ => True end.

Definition batch_ok (max_size : nat) (b : list BatchRequest) : Prop := 0 < length b ≤ max 1 max_size.

Lemma on_event_ok max_size l e l' bs :
  loop_ok max_size l → on_event max_size l e = (l', bs) →
  loop_ok max_size l' ∧ Forall (batch_ok max_size) bs ∧
  (l ≠ Stopped → concat bs ++ held l' = held l ++ items [e]).
Proof.
  intros Hl He. unfold on_event, check_full, batch_ok in *.
  destruct l as [|b|], e as [r| |]; simpl in *; repeat case_decide; simplify_eq/=;
    rewrite ?length_app in *; simpl in *;
    (split; [try done; lia|]); (split; [repeat constructor; rewrite ?length_app; simpl; lia|]);
    intros Hne; rewrite ?app_nil_r; done.
Qed.

(** Once stopped, nothing is taken from the channel. *)
Lemma stopped_stays max_size es : start_batcher max_size Stopped es = (Stopped, []).
Proof. induction es as [|[] es IH]; simpl; rewrite ?IH; done. Qed.

(** The batches of a loop that stopped, in order. *)
Lemma batches_partition max_size es l bs :
  start_batcher max_size Idle (es ++ [Closed]) = (l, bs) →
  Forall (λ e, e ≠ Closed) es →
  l = Stopped ∧ Forall (batch_ok max_size) bs ∧ concat bs = items es.
Proof.
  intros H Hes.
  enough (∀ l0, loop_ok max_size l0 → l0 ≠ Stopped →
            start_batcher max_size l0 (es ++ [Closed]) = (l, bs) →
            l = Stopped ∧ Forall (batch_ok max_size) bs ∧ concat bs = held l0 ++ items es) as Hall
    by by apply (Hall Idle).
  clear H. revert bs. induction Hes as [|e es He _ IH]; intros bs l0 Hok Hne H; simpl in H.
  - destruct l0 as [|b|]; simplify_eq/=; [split_and!; [done|by apply Forall_nil|done]|].
    split; [done|]. split; [|done]. repeat constructor; unfold batch_ok; lia.
  - destruct (on_event max_size l0 e) as [l1 b1] eqn:He1.
    destruct (start_batcher max_size l1 (es ++ [Closed])) as [l2 b2] eqn:H2. simplify_eq.
    destruct (on_event_ok _ _ _ _ _ Hok He1) as (Hok1 & Hb1 & Hc1).
    assert (l1 ≠ Stopped) as Hne1.
    { destruct l0, e; simpl in He1; unfold check_full in He1; repeat case_decide; simplify_eq; done. }
    destruct (IH b2 l1 Hok1 Hne1 H2) as (-> & Hb2 & Hc2).
    split; [done|]. split; [by apply Forall_app|].
    rewrite concat_app, Hc2, app_assoc, Hc1, <- app_assoc by done. by destruct e.
Qed.

Lemma scatter_pointwise (f : Req → Res) batch :
  scatter (fmap f) batch = (λ r, (responder r, f (payload r))) <$> batch.
Proof. unfold scatter. induction batch as [|r b IH]; csimpl; [done|]. by rewrite IH. Qed.

Lemma answers_pointwise (f : Req → Res) batches :
  answers (fmap f) batches = (λ r, (responder r, f (payload r))) <$> concat batches.
Proof.
  unfold answers. induction batches as [|b bs IH]; csimpl; [done|].
  by rewrite IH, scatter_pointwise, fmap_app.
Qed.

Lemma scatter_get processor batch i r :
  NoDup (responder <$> batch) → batch !! i = Some r →
  assoc_get (responder r) (scatter processor batch) = processor (payload <$> batch) !! i.
Proof.
  intros Hnd Hi. unfold scatter. set (res := processor _). clearbody res.
  revert i res Hi. induction batch as [|q b IH]; intros i res Hi; [done|].
  csimpl in *. apply NoDup_cons in Hnd as [Hq Hnd].
  destruct i as [|i], res as [|x res]; simplify_eq/=; [done|by rewrite decide_True|done|].
  rewrite decide_False; [by apply IH|]. intros Heq. apply Hq. rewrite Heq.
  apply list_elem_of_fmap. exists r. split; [done|]. by apply list_elem_of_lookup_2 in Hi.
Qed.

Lemma scatter_other processor batch tx :
  tx ∉ responder <$> batch → assoc_get tx (scatter processor batch) = None.
Proof.
  intros Htx. apply assoc_get_None. contradict Htx.
  apply list_elem_of_fmap in Htx as ([t x] & -> & Hin). unfold scatter in Hin.
  apply elem_of_zip_l in Hin. done.
Qed.

Lemma answers_get processor bs b i r :
  NoDup (responder <$> concat bs) → b ∈ bs → b !! i = Some r →
  assoc_get (responder r) (answers processor bs) = processor (payload <$> b) !! i.
Proof.
  unfold answers. induction bs as [|c bs IH]; csimpl; [by intros _ ?%elem_of_nil|].
  rewrite fmap_app, NoDup_app. intros (Hc & Hd & Hnd) Hb Hi. rewrite assoc_get_app.
  apply elem_of_cons in Hb as [->|Hb].
  - rewrite (scatter_get _ _ i) by done.
    destruct (processor (payload <$> c) !! i) eqn:Hres; [done|].
    apply assoc_get_None. intros (kv & Hk & (b' & Hkv & Hb')%list_elem_of_bind)%list_elem_of_fmap.
    destruct kv as [t x]. simpl in Hk. subst t. apply elem_of_zip_l in Hkv.
    apply (Hd (responder r)); [apply list_elem_of_fmap; exists r; split; [done|by eapply list_elem_of_lookup_2]|].
    apply list_elem_of_fmap in Hkv as (r' & Hr' & Hr2). apply list_elem_of_fmap. exists r'. split; [done|].
    apply list_elem_of_In, in_concat. exists b'. by rewrite <- !list_elem_of_In.
  - rewrite scatter_other; [by apply IH|]. intros Hin. apply (Hd _ Hin).
    apply list_elem_of_fmap. exists r. split; [done|].
    apply list_elem_of_In, in_concat. exists b. rewrite <- !list_elem_of_In.
    split; [done|by eapply list_elem_of_lookup_2].
Qed.

(** Batching loses no request and mixes none up.  For every sequence of
    items and deadlines and then the end of the channel, each batch is
    non-empty and within the limit (a limit of 0 acts as 1), and the batches
    are the items received, in order.  With a processor that maps each payload to
    its result, every caller gets the result of its own payload, whatever the
    batches its request was put in; and whatever the processor answers, a
    caller gets the result at its own place in its own batch, or the error
    when the processor returned too few. *)
Theorem batching_transparent max_size es l bs r :
  start_batcher max_size Idle (es ++ [Closed]) = (l, bs) →
  Forall (λ e, e ≠ Closed) es → NoDup (responder <$> items es) → r ∈ items es →
  Forall (batch_ok max_size) bs ∧ concat bs = items es ∧
  (∀ f : Req → Res, execute (answers (fmap f) bs) (responder r) = inl (f (payload r))) ∧
  ∀ processor b i, b ∈ bs → b !! i = Some r →
    execute (answers processor bs) (responder r)
    = match processor (payload <$> b) !! i with
      | Some res => inl res
      | None => inr "Batcher dropped the response"%string
      end.
Proof.
  intros H Hes Hnd Hr. destruct (batches_partition _ _ _ _ H Hes) as (_ & Hok & Hc).
  split; [done|]. split; [done|]. rewrite <- Hc in Hr, Hnd. unfold execute. split.
  - intros f. apply list_elem_of_In, in_concat in Hr as (b & Hb & Hr).
    rewrite <- !list_elem_of_In in *. apply list_elem_of_lookup in Hr as [i Hi].
    by rewrite (answers_get _ _ _ _ _ Hnd Hb Hi), list_lookup_fmap, list_lookup_fmap, Hi.
  - intros processor b i Hb Hi. by rewrite (answers_get _ _ _ _ _ Hnd Hb Hi).
Qed.
End batching.
#[global] Arguments BatchRequest : clear implicits.
#[global] Arguments Event : clear implicits.

Module Examples.

Definition req (n : nat) : BatchRequest nat := mk_request n (100 + n).
Definition events : list (Event nat) :=
  [Item (req 1); Item (req 2); Item (req 3); Deadline; Deadline; Item (req 4)].

Lemma batching_transparent_witness :
  execute (answers (fmap S) [[req 1; req 2]; [req 3]; [req 4]]) 103 = inl 4.
Proof.
  apply (batching_transparent 2 events Stopped [[req 1; req 2]; [req 3]; [req 4]] (req 3)); [done| | |].
  - repeat constructor; done.
  - apply (bool_decide_unpack _). by vm_compute.
  - by do 2 right; left.
Defined.
End Examples.
