(* ===== verification/Dag.v ===== *)
(** * Dag: running a graph of dependent tasks

    [crates/justapi-py/src/dag.rs].  The values are Python objects of a type
    [V]; the handler of a node is a function of its arguments that returns a
    value or raises.  The loop of [run_dag_internal] and the tasks it spawns
    run concurrently: a step of the relation [step] is one turn of the loop,
    one task running to its end, or the join of one finished task.  The
    futures, the locks and the notifications that only wake the loop up are
    not modelled. *)

From S2P Require Import Prelude.

Section dag.
Context {V : Type}.

Record DagNode := mk_node {
  name : string;
  handler : list V → V + string;
  dependencies : list string }.

(** [Dag::new]: the last node of a name stays. *)
Definition dag_new (nodes : list DagNode) : gmap string DagNode :=
  foldl (λ m n, <[name n:=n]> m) ∅ nodes.

(** [finished] holds the results of the tasks that have returned and are not
    yet joined; they still count as running. *)
Record RunState := mk_run {
  pending : gset string;
  running : gset string;
  finished : gmap string (V + string);
  completed : gset string;
  store : gmap string V }.

Inductive DagStatus :=
| AtHead (s : RunState)
| Waiting (s : RunState)
| Done (final : gmap string V)
| Failed (message : string).

Definition deadlock_message (pending : gset string) : string :=
  String.concat EmptyString
    ["DAG deadlock: nodes "%string; String.concat ", " (elements pending);
     " are waiting for dependencies that never arrive"%string].

Section run.
Context (nodes : gmap string DagNode) (inputs : gmap string V).

Definition run_start : RunState := mk_run (dom nodes) ∅ ∅ ∅ inputs.

Definition deps (n : string) : list string :=
  match nodes !! n with Some nd => dependencies nd | None => [] end.

Definition can_run (st : gmap string V) (n : string) : bool :=
  forallb (λ d, bool_decide (is_Some (st !! d))) (deps n).

Definition ready (s : RunState) : gset string := filter (λ n, can_run (store s) n = true) (pending s).

(** All the ready nodes are spawned before the loop waits. *)
Definition dispatch (s : RunState) : RunState :=
  mk_run (pending s ∖ ready s) (running s ∪ ready s) (finished s) (completed s) (store s).

(** The task of [n]: the arguments it finds in the store when it runs. *)
Definition task_args (st : gmap string V) (n : string) : list V := omap (λ d, st !! d) (deps n).

Definition task_result (st : gmap string V) (n : string) : V + string :=
  match nodes !! n with Some nd => handler nd (task_args st n) | None => inr EmptyString end.

Definition task_end (n : string) (s : RunState) : RunState :=
  mk_run (pending s) (running s) (<[n:=task_result (store s) n]> (finished s)) (completed s) (store s).

Definition join_ok (n : string) (v : V) (s : RunState) : RunState :=
  mk_run (pending s) (running s ∖ {[n]}) (delete n (finished s)) (completed s ∪ {[n]})
    (<[n:=v]> (store s)).

Definition failed_message (n e : string) : string :=
  String.concat EmptyString ["Node "%string; n; " failed: "%string; e].

(** One turn of the loop from its head. *)
Definition loop_head (s : RunState) : DagStatus :=
  if decide (pending s = ∅ ∧ running s = ∅) then Done (store s)
  else
    let s' := dispatch s in
    if decide (running s' = ∅) then Failed (deadlock_message (pending s')) else Waiting s'.

(** The loop at [tasks.join_next()], given the task that is joined. *)
Definition join (n : string) (s : RunState) : option DagStatus :=
  (λ r : V + string, match r with
                     | inl v => AtHead (join_ok n v s)
                     | inr e => Failed (failed_message n e)
                     end) <$> finished s !! n.

Inductive step : DagStatus → DagStatus → Prop :=
| step_head s : step (AtHead s) (loop_head s)
| step_task_head n s :
    n ∈ running s → finished s !! n = None → step (AtHead s) (AtHead (task_end n s))
| step_task n s :
    n ∈ running s → finished s !! n = None → step (Waiting s) (Waiting (task_end n s))
| step_join n s t : join n s = Some t → step (Waiting s) t.

Definition final (t : DagStatus) : Prop :=
  match t with Done _ | Failed _ => True | _ => False end.

(** ** A scheduler: run and join one task at a time, the first of the set *)

Fixpoint run_dag (fuel : nat) (t : DagStatus) : DagStatus :=
  match fuel, t with
  | S fuel', AtHead s => run_dag fuel' (loop_head s)
  | S fuel', Waiting s =>
      match elements (running s) with
      | [] => t
      | n :: _ => match join n (task_end n s) with
                  | Some t' => run_dag fuel' t'
                  | None => t
                  end
      end
  | _, _ => t
  end.

(** ** The meaning of a graph

    [computes k v]: [k] is an input of value [v], or a node whose handler
    returns [v] for the values of its dependencies. *)

Inductive computes : string → V → Prop :=
| computes_input k v : inputs !! k = Some v → computes k v
| computes_node n nd vs v :
    nodes !! n = Some nd → computes_all (dependencies nd) vs → handler nd vs = inl v → computes n v
with computes_all : list string → list V → Prop :=
| computes_nil : computes_all [] []
| computes_cons d ds v vs : computes d v → computes_all ds vs → computes_all (d :: ds) (v :: vs).

Scheme computes_mut := Induction for computes Sort Prop
with computes_all_mut := Induction for computes_all Sort Prop.
End run.
End dag.
#[global] Arguments DagNode : clear implicits.
#[global] Arguments RunState : clear implicits.
#[global] Arguments DagStatus : clear implicits.

Section proofs.
Context {V : Type} (nodes : gmap string (DagNode V)) (inputs : gmap string V).
Implicit Types (s : RunState V) (t : DagStatus V).

(** An input named like a node would be overwritten when the node completes:
    what a dependent reads would depend on the order. *)
Hypothesis inputs_disjoint : dom inputs ## dom nodes.

#[local] Abbreviation computes := (computes nodes inputs).
#[local] Abbreviation computes_all := (computes_all nodes inputs).
#[local] Abbreviation step := (step nodes).
#[local] Abbreviation deps := (deps nodes).

Lemma node_not_input n : n ∈ dom nodes → inputs !! n = None.
Proof. intros Hn. apply not_elem_of_dom. set_solver. Qed.

(** A name has one value. *)
Lemma computes_unique k v v' : computes k v → computes k v' → v = v'.
Proof.
  intros H. revert v'.
  refine (computes_mut _ _ (λ k v _, ∀ v', computes k v' → v = v')
           (λ ds vs _, ∀ vs', computes_all ds vs' → vs = vs') _ _ _ _ k v H).
  - intros k0 v0 Hi v' H'. inversion H' as [|? nd ?? Hn]; simplify_eq; [done|].
    rewrite node_not_input in Hi; [done|]. by apply elem_of_dom_2 in Hn.
  - intros n nd vs v0 Hn _ IH Hh v' H'. inversion H' as [?? Hi|]; simplify_eq.
    + rewrite node_not_input in Hi; [done|]. by apply elem_of_dom_2 in Hn.
    + assert (vs = vs0) as <- by by apply IH. congruence.
  - intros vs' H'. by inversion H'.
  - intros d ds v0 vs _ IHd _ IHds vs' H'. inversion H'; subst. f_equal; auto.
Qed.

Lemma computes_all_args (st : gmap string V) ds :
  (∀ k v, st !! k = Some v → computes k v) →
  Forall (λ d, is_Some (st !! d)) ds →
  computes_all ds (omap (λ d, st !! d) ds).
Proof.
  intros Hst. induction 1 as [|d ds [v Hd] _ IH]; csimpl; [constructor|].
  rewrite Hd. constructor; auto.
Qed.

(** What holds of the loop whenever it is at its head or waits. *)
Record Inv s : Prop := {
  inv_nodes : pending s ∪ running s ∪ completed s = dom nodes;
  inv_pending : pending s ## running s ∪ completed s;
  inv_running : running s ## completed s;
  inv_finished : dom (finished s) ⊆ running s;
  inv_store : ∀ k v, store s !! k = Some v → computes k v;
  inv_dom : dom (store s) = dom inputs ∪ completed s;
  inv_deps : ∀ n, n ∈ running s → Forall (λ d, is_Some (store s !! d)) (deps n);
  inv_results : ∀ n r, finished s !! n = Some r →
    ∃ nd vs, nodes !! n = Some nd ∧ computes_all (dependencies nd) vs ∧ handler nd vs = r }.

(** A set of nodes that wait for each other or for names nobody provides. *)
Definition stuck (U : gset string) : Prop :=
  U ≠ ∅ ∧ U ⊆ dom nodes ∧
  ∀ n, n ∈ U → ∃ d, d ∈ deps n ∧ d ∉ dom inputs ∧ (d ∈ U ∨ d ∉ dom nodes).

Definition raises (n e : string) : Prop :=
  ∃ nd vs, nodes !! n = Some nd ∧ computes_all (dependencies nd) vs ∧ handler nd vs = inr e.

Definition status_inv t : Prop :=
  match t with
  | AtHead s => Inv s
  | Waiting s => Inv s ∧ running s ≠ ∅
  | Done σ => (∀ k v, σ !! k = Some v ↔ computes k v) ∧ ∀ n, n ∈ dom nodes → ∃ v, computes n v
  | Failed m => (∃ n e, m = failed_message n e ∧ raises n e) ∨ (∃ U, m = deadlock_message U ∧ stuck U)
  end.

Lemma can_run_spec (st : gmap string V) n :
  can_run nodes st n = true ↔ Forall (λ d, is_Some (st !! d)) (deps n).
Proof.
  unfold can_run. rewrite forallb_forall, Forall_forall.
  setoid_rewrite bool_decide_eq_true. by setoid_rewrite <- list_elem_of_In.
Qed.

Lemma elem_of_ready s n :
  n ∈ ready nodes s ↔ n ∈ pending s ∧ Forall (λ d, is_Some (store s !! d)) (deps n).
Proof. unfold ready. rewrite elem_of_filter, can_run_spec. tauto. Qed.

Lemma ready_pending s : ready nodes s ⊆ pending s.
Proof. intros n Hn. by apply elem_of_ready in Hn as [? _]. Qed.

Lemma run_start_inv : Inv (run_start nodes inputs).
Proof.
  split; simpl; try set_solver.
  - intros k v Hk. by constructor.
Qed.

Lemma dispatch_inv s : Inv s → Inv (dispatch nodes s).
Proof.
  intros [Hn Hp Hr Hf Hs Hd Hdeps Hres]. pose proof (ready_pending s) as Hrp.
  split; simpl; try done.
  - rewrite <- Hn. apply set_eq. intros x. destruct (decide (x ∈ ready nodes s)); set_solver.
  - set_solver.
  - set_solver.
  - set_solver.
  - intros n [Hin|Hin]%elem_of_union; [auto|]. by apply elem_of_ready in Hin as [_ ?].
Qed.

Lemma task_end_inv n s : n ∈ running s → Inv s → Inv (task_end nodes n s).
Proof.
  intros Hin [Hn Hp Hr Hf Hs Hd Hdeps Hres]. split; simpl; try done.
  - rewrite dom_insert. set_solver.
  - intros n' r. destruct (decide (n' = n)) as [->|Hne].
    + rewrite lookup_insert_eq. intros [= <-]. unfold task_result.
      destruct (nodes !! n) as [nd|] eqn:Hnd.
      * exists nd, (task_args nodes (store s) n). split_and!; [done| |done].
        specialize (Hdeps n Hin). unfold task_args, Dag.deps in *. rewrite Hnd in *.
        by apply computes_all_args.
      * apply not_elem_of_dom in Hnd. set_solver.
    + rewrite lookup_insert_ne by done. auto.
Qed.

Lemma join_ok_inv n v s : finished s !! n = Some (inl v) → Inv s → Inv (join_ok n v s).
Proof.
  intros Hfin [Hn Hp Hr Hf Hs Hd Hdeps Hres].
  assert (n ∈ running s) as Hin by (apply Hf; by apply elem_of_dom_2 in Hfin).
  split; simpl.
  - rewrite <- Hn. apply set_eq. intros x. destruct (decide (x = n)); set_solver.
  - set_solver.
  - set_solver.
  - rewrite dom_delete. set_solver.
  - intros k w. destruct (decide (k = n)) as [->|Hne].
    + rewrite lookup_insert_eq. intros [= <-].
      destruct (Hres _ _ Hfin) as (nd & vs & ? & ? & ?). by eapply computes_node.
    + rewrite lookup_insert_ne by done. auto.
  - rewrite dom_insert_L, Hd. set_solver.
  - intros m [Hm _]%elem_of_difference. eapply Forall_impl; [by apply Hdeps|].
    intros d Hsome. simpl. destruct (decide (d = n)) as [->|].
    + rewrite lookup_insert_eq. by eexists.
    + by rewrite lookup_insert_ne.
  - intros m r. destruct (decide (m = n)) as [->|]; [by rewrite lookup_delete_eq|].
    rewrite lookup_delete_ne by done. auto.
Qed.

Lemma done_inv s : Inv s → pending s = ∅ → running s = ∅ → status_inv (Done (store s)).
Proof.
  intros [Hn Hp Hr Hf Hs Hd Hdeps Hres] Hp0 Hr0.
  assert (∀ n, n ∈ dom nodes → is_Some (store s !! n)) as Hall.
  { intros n Hn'. apply elem_of_dom. rewrite Hd. set_solver. }
  assert (∀ k v, computes k v → store s !! k = Some v) as Hc.
  { intros k v Hk. assert (is_Some (store s !! k)) as [w Hw].
    { destruct Hk as [k v Hi|n nd vs v Hnd]; [|apply Hall; by apply elem_of_dom_2 in Hnd].
      apply elem_of_dom. rewrite Hd. apply elem_of_dom_2 in Hi. set_solver. }
    rewrite Hw. f_equal. eapply computes_unique; eauto. }
  split; [naive_solver|]. intros n [v Hv]%Hall. eauto.
Qed.

Lemma loop_head_inv s : Inv s → status_inv (loop_head nodes s).
Proof.
  intros Hinv. unfold loop_head. case_decide as Hd0; [apply done_inv; tauto|].
  pose proof (dispatch_inv s Hinv) as Hinv'.
  destruct (decide (running (dispatch nodes s) = ∅)) as [He|He]; [|done].
  right. exists (pending (dispatch nodes s)). split; [done|]. simpl in *.
  assert (running s = ∅ ∧ ready nodes s = ∅) as [Hr Hrdy] by set_solver.
  assert (pending s ∖ ready nodes s = pending s) as Hps by set_solver.
  destruct Hinv as [Hn Hp _ _ _ Hd Hdeps _]. rewrite Hps. split_and!; [set_solver|set_solver|].
  intros n Hin. assert (¬ Forall (λ d, is_Some (store s !! d)) (deps n)) as Hnot.
  { intros Hall. assert (n ∈ ready nodes s) by by apply elem_of_ready. set_solver. }
  apply not_Forall_Exists in Hnot; [|solve_decision]. apply Exists_exists in Hnot as (d & Hd1 & Hd2).
  exists d. split; [done|]. simpl in Hd2.
  assert (d ∉ dom (store s)) as Hd3 by by rewrite elem_of_dom.
  rewrite Hd in Hd3. destruct (decide (d ∈ dom nodes)); set_solver.
Qed.

Lemma step_inv t t' : step t t' → status_inv t → status_inv t'.
Proof.
  intros [s|n s Hn Hf|n s Hn Hf|n s t0 Hj] Hinv; simpl in *.
  - by apply loop_head_inv.
  - by apply task_end_inv.
  - destruct Hinv. split; [by apply task_end_inv|done].
  - destruct Hinv as [Hinv Hr]. unfold join in Hj.
    destruct (finished s !! n) as [[v|e]|] eqn:Hfin; simplify_eq/=; [by apply join_ok_inv|].
    left. exists n, e. split; [done|]. by apply (inv_results _ Hinv) in Hfin.
Qed.

(** Nothing a stuck set contains has a value. *)
Lemma stuck_no_value U n : stuck U → n ∈ U → ∀ v, ¬ computes n v.
Proof.
  intros (_ & Hsub & HU) Hn v H.
  enough (∀ k v, computes k v → k ∉ U) as Hk by (by eapply Hk).
  clear n v Hn H. intros k v H.
  refine (computes_mut _ _ (λ k v _, k ∉ U) (λ ds vs _, Forall (λ d, d ∉ U ∧ (d ∈ dom inputs ∨ d ∈ dom nodes)) ds)
    _ _ _ _ k v H).
  - intros k0 v0 Hi Hin. apply Hsub, node_not_input in Hin. congruence.
  - intros n nd vs v0 Hnd _ IH _ Hin. destruct (HU n Hin) as (d & Hd & Hd1 & Hd2).
    unfold Dag.deps in Hd. rewrite Hnd in Hd. rewrite Forall_forall in IH. naive_solver.
  - constructor.
  - intros d ds v0 vs Hd IHd _ IHds. constructor; [|done]. split; [done|].
    destruct Hd as [? ? Hi|? ? ? ? Hnd]; [left; by apply elem_of_dom_2 in Hi|right; by apply elem_of_dom_2 in Hnd].
Qed.

Lemma raises_no_value n e : raises n e → n ∈ dom nodes ∧ ∀ v, ¬ computes n v.
Proof.
  intros (nd & vs & Hnd & Hvs & Hh). split; [by apply elem_of_dom_2 in Hnd|].
  intros v H. inversion H as [?? Hi|? nd' vs' ? Hnd' Hvs' Hh']; simplify_eq.
  - rewrite node_not_input in Hi; [done|]. by apply elem_of_dom_2 in Hnd.
  - assert (vs = vs') as <-; [|congruence]. clear - Hvs Hvs' inputs_disjoint.
    revert vs' Hvs'. induction Hvs as [|d ds v vs Hd Hds IH]; intros vs' H'; inversion H'; subst; f_equal; eauto using computes_unique.
Qed.

(** ** The loop ends *)

(** Every step makes it smaller: a pending node counts four, a running task
    three, two once it has returned. *)
Definition weight t : nat :=
  match t with
  | AtHead s => S (4 * size (pending s) + 3 * size (running s) - size (finished s))
  | Waiting s => 4 * size (pending s) + 3 * size (running s) - size (finished s)
  | _ => 0
  end.

Lemma finished_le s : Inv s → size (finished s) ≤ size (running s).
Proof. intros H. rewrite <- size_dom. apply subseteq_size, (inv_finished _ H). Qed.

Lemma dispatch_weight s :
  Inv s → weight (Waiting (dispatch nodes s)) < weight (AtHead s).
Proof.
  intros H. pose proof (ready_pending s) as Hsub. pose proof (inv_pending _ H) as Hp. simpl.
  assert (size (pending s ∖ ready nodes s) + size (ready nodes s) = size (pending s)).
  { rewrite <- size_union by set_solver. f_equal. apply set_eq. intros x.
    destruct (decide (x ∈ ready nodes s)); set_solver. }
  assert (size (running s ∪ ready nodes s) = size (running s) + size (ready nodes s)).
  { apply size_union. set_solver. }
  pose proof (finished_le s H). lia.
Qed.

Lemma task_end_weight n s :
  Inv s → n ∈ running s → finished s !! n = None →
  size (finished (task_end nodes n s)) = S (size (finished s)) ∧ S (size (finished s)) ≤ size (running s).
Proof.
  intros H Hn Hf. simpl. rewrite map_size_insert_None by done. split; [done|].
  pose proof (finished_le _ (task_end_inv n s Hn H)) as Hle. simpl in Hle.
  by rewrite map_size_insert_None in Hle by done.
Qed.

Lemma step_weight t t' : step t t' → status_inv t → weight t' < weight t.
Proof.
  intros [s|n s Hn Hf|n s Hn Hf|n s t0 Hj] Hinv; simpl in Hinv.
  - unfold loop_head. repeat case_decide; [simpl; lia|simpl; lia|]. by apply dispatch_weight.
  - destruct (task_end_weight n s) as [H1 H2]; [done..|]. simpl in *. lia.
  - destruct Hinv. destruct (task_end_weight n s) as [H1 H2]; [done..|]. simpl in *. lia.
  - destruct Hinv as [Hinv Hr]. unfold join in Hj.
    destruct (finished s !! n) as [r|] eqn:Hfin; simplify_eq/=.
    assert (n ∈ running s) as Hn by (apply (inv_finished _ Hinv); by apply elem_of_dom_2 in Hfin).
    pose proof (finished_le s Hinv).
    assert (size (finished s) ≠ 0).
    { intros Hz%map_size_empty_inv. by rewrite Hz in Hfin. }
    destruct r as [v|e]; simpl; [|lia].
    rewrite map_size_delete, Hfin. simpl.
    rewrite size_difference by set_solver. rewrite size_singleton. lia.
Qed.

(** Unless the run is over, something can happen. *)
Lemma step_progress t : status_inv t → final t ∨ ∃ t', step t t'.
Proof.
  destruct t as [s|s|σ|m]; simpl; [right; eexists; constructor| |by left..].
  intros [Hinv Hr]. right. apply set_choose_L in Hr as [n Hn].
  destruct (finished s !! n) as [[v|e]|] eqn:Hf.
  - exists (AtHead (join_ok n v s)). eapply step_join. unfold join. by rewrite Hf.
  - exists (Failed (failed_message n e)). eapply step_join. unfold join. by rewrite Hf.
  - eexists. by apply step_task.
Qed.

Lemma steps_inv n t t' : nsteps step n t t' → status_inv t → status_inv t' ∧ weight t' + n ≤ weight t.
Proof.
  induction 1 as [t|n t1 t2 t3 Hs _ IH]; intros Hi; [split; [done|lia]|].
  pose proof (step_inv _ _ Hs Hi) as Hi2. pose proof (step_weight _ _ Hs Hi).
  destruct (IH Hi2). split; [done|lia].
Qed.

Lemma start_weight : weight (AtHead (run_start nodes inputs)) = S (4 * size nodes).
Proof.
  unfold weight, run_start. cbn [pending running finished].
  rewrite size_dom, size_empty, map_size_empty. lia.
Qed.

Lemma start_inv : status_inv (AtHead (run_start nodes inputs)).
Proof. apply run_start_inv. Qed.

(** The sequential scheduler leaves no returned task unjoined. *)
Definition joined t : Prop :=
  match t with AtHead s | Waiting s => finished s = ∅ | _ => True end.

Lemma loop_head_joined s : finished s = ∅ → joined (loop_head nodes s).
Proof. intros H. unfold loop_head. by repeat case_decide. Qed.

Lemma run_one n s :
  Inv s → finished s = ∅ → n ∈ running s →
  ∃ t, join n (task_end nodes n s) = Some t ∧ joined t ∧ nsteps step 2 (Waiting s) t.
Proof.
  intros Hinv Hfin Hn.
  assert (∃ t, join n (task_end nodes n s) = Some t ∧ joined t) as (t & Ht & Hj).
  { unfold join. simpl. rewrite lookup_insert_eq. simpl. eexists; split; [done|].
    destruct (task_result nodes (store s) n) as [v|e]; simpl; [|done].
    by rewrite Hfin, insert_empty, delete_singleton_eq. }
  exists t. split; [done|]. split; [done|].
  eapply nsteps_l; [apply (step_task nodes n); [done|by rewrite Hfin]|].
  apply nsteps_once. by eapply step_join.
Qed.

Lemma run_dag_steps fuel t :
  status_inv t → joined t → weight t ≤ fuel →
  rtc step t (run_dag nodes fuel t) ∧ final (run_dag nodes fuel t).
Proof.
  revert t. induction fuel as [|fuel IH]; intros t Hinv Hj Hw.
  - destruct (step_progress t Hinv) as [Hf|[t' Hs]].
    + by destruct t.
    + pose proof (step_weight _ _ Hs Hinv). lia.
  - destruct t as [s|s|σ|m]; cbn [run_dag]; [| |done..].
    + pose proof (step_head nodes s) as Hs. pose proof (step_weight _ _ Hs Hinv).
      destruct (IH (loop_head nodes s)) as [Hr Hf]; [by eapply step_inv|by apply loop_head_joined|lia|].
      split; [by eapply rtc_l|done].
    + destruct Hinv as [Hinv Hne]. destruct (elements (running s)) as [|n l] eqn:He.
      { by apply elements_empty_inv, leibniz_equiv in He. }
      assert (n ∈ running s) as Hn by (apply elem_of_elements; rewrite He; by left).
      destruct (run_one n s Hinv Hj Hn) as (t & -> & Hjt & Hs2).
      destruct (steps_inv _ _ _ Hs2) as [Hit Hwt]; [done|].
      destruct (IH t Hit Hjt) as [Hr Hf]; [lia|].
      split; [|done]. etrans; [by eapply rtc_nsteps_2|done].
Qed.

(** A run of a task graph ends.  However the tasks interleave, a run makes
    at most four steps per node and one more, and it can go on until it has an
    answer; so the loop never waits for a task that does not exist. *)
Theorem dag_terminates n t :
  nsteps step n (AtHead (run_start nodes inputs)) t →
  n ≤ S (4 * size nodes) ∧ (final t ∨ ∃ t', step t t').
Proof.
  intros H. destruct (steps_inv _ _ _ H start_inv) as [Hi Hw]. rewrite start_weight in Hw.
  split; [lia|]. by apply step_progress.
Qed.

(** The answers a run can end with. *)
Lemma dag_outcome t :
  rtc step (AtHead (run_start nodes inputs)) t → final t →
  (∃ σ, t = Done σ ∧ (∀ k v, σ !! k = Some v ↔ computes k v) ∧
        ∀ n, n ∈ dom nodes → ∃ v, computes n v) ∨
  (∃ n e, t = Failed (failed_message n e) ∧ raises n e ∧ n ∈ dom nodes ∧ ∀ v, ¬ computes n v) ∨
  (∃ U, t = Failed (deadlock_message U) ∧ stuck U ∧ ∀ n, n ∈ U → ∀ v, ¬ computes n v).
Proof.
  intros (n & H)%rtc_nsteps_1 Hf. destruct (steps_inv _ _ _ H start_inv) as [Hi _].
  destruct t as [s|s|σ|m]; simpl in *; [done|done| |].
  - left. exists σ. tauto.
  - right. destruct Hi as [(k & e & -> & Hr)|(U & -> & HU)].
    + left. exists k, e. pose proof (raises_no_value _ _ Hr). tauto.
    + right. exists U. split; [done|]. split; [done|]. intros. by eapply stuck_no_value.
Qed.

(** C8: When no input has the name of a node, the order in which tasks complete
    does not matter (with such an input it does, see [Examples.input_races]: the
    dependents of the node take the input or the node's own result, whichever
    is there when they run).  A finished run has exactly the values the graph defines, for every input and every node; if
    one run finishes, every run that ends finishes with the same values; and a
    run fails only when some node has no value: its handler raised on the
    values of its dependencies, or it belongs to a set of nodes that wait for
    each other or for a name nobody provides. *)
Theorem dag_deterministic t :
  rtc step (AtHead (run_start nodes inputs)) t → final t →
  (∀ σ, t = Done σ →
     (∀ k v, σ !! k = Some v ↔ computes k v) ∧ (∀ n, n ∈ dom nodes → ∃ v, computes n v) ∧
     ∀ t', rtc step (AtHead (run_start nodes inputs)) t' → final t' → t' = Done σ) ∧
  (∀ m, t = Failed m → ∃ n, n ∈ dom nodes ∧ (∀ v, ¬ computes n v) ∧
     ((∃ e, m = failed_message n e ∧ raises n e) ∨ (∃ U, m = deadlock_message U ∧ n ∈ U ∧ stuck U))).
Proof.
  intros Hr Hf. pose proof (dag_outcome t Hr Hf) as Ho. split.
  - intros σ ->. destruct Ho as [(σ' & [= <-] & Hσ & Hall)|[(? & ? & ? & _)|(? & ? & _)]]; [|done..].
    split; [done|]. split; [done|]. intros t' Hr' Hf'.
    destruct (dag_outcome t' Hr' Hf') as
      [(σ' & -> & Hσ' & _)|[(n & e & -> & _ & Hn & Hno)|(U & -> & (HU & Hsub & _) & Hno)]].
    + f_equal. apply map_eq. intros k. apply option_eq. intros v. by rewrite Hσ, Hσ'.
    + destruct (Hall n Hn) as [v Hv]. by destruct (Hno v).
    + apply set_choose_L in HU as [n Hn]. destruct (Hall n) as [v Hv]; [set_solver|].
      by destruct (Hno n Hn v).
  - intros m ->. destruct Ho as [(σ' & [=] & _)|[(n & e & [= ->] & Hra & Hn & Hno)|(U & [= ->] & HU & Hno)]].
    + exists n. split; [done|]. split; [done|]. left. by exists e.
    + destruct (HU) as (Hne & Hsub & _). apply set_choose_L in Hne as [n Hn].
      exists n. split; [set_solver|]. split; [by apply Hno|]. right. by exists U.
Qed.

(** The sequential scheduler is a run that ends. *)
Lemma run_dag_total :
  let t := run_dag nodes (S (4 * size nodes)) (AtHead (run_start nodes inputs)) in
  rtc step (AtHead (run_start nodes inputs)) t ∧ final t.
Proof. apply run_dag_steps; [apply start_inv|done|by rewrite start_weight]. Qed.
End proofs.

(** ** Witnesses *)

Module Examples.

Definition sum : list Z → Z + string := λ l, inl (foldr Z.add 1%Z l).

(** A diamond over the input [x]. *)
Definition diamond : gmap string (DagNode Z) :=
  dag_new [mk_node "d" sum ["b"; "c"]; mk_node "b" sum ["a"; "x"];
           mk_node "c" sum ["a"]; mk_node "a" sum ["x"]]%string.
Definition x_input : gmap string Z := {[ "x"%string := 10%Z ]}.

Definition diamond_values : gmap string Z :=
  {[ "x" := 10; "a" := 11; "b" := 22; "c" := 12; "d" := 35 ]}%string%Z.

Lemma diamond_inputs : dom x_input ## dom diamond.
Proof. intros k H1%elem_of_dom H2%elem_of_dom. unfold x_input in H1.
  destruct (decide (k = "x"%string)) as [->|Hne]; [by destruct H2|].
  rewrite lookup_singleton_ne in H1 by done. by destruct H1.
Qed.

Lemma dag_deterministic_witness :
  run_dag diamond 17 (AtHead (run_start diamond x_input)) = Done diamond_values ∧
  ∀ t', rtc (step diamond) (AtHead (run_start diamond x_input)) t' → final t' → t' = Done diamond_values.
Proof.
  split; [by vm_compute|].
  apply (dag_deterministic diamond x_input diamond_inputs (Done diamond_values)); [|done|done].
  apply (run_dag_total diamond x_input diamond_inputs).
Defined.

Lemma dag_terminates_witness :
  nsteps (step diamond) 1 (AtHead (run_start diamond x_input)) (loop_head diamond (run_start diamond x_input)) ∧
  1 ≤ 17.
Proof.
  assert (nsteps (step diamond) 1 (AtHead (run_start diamond x_input))
            (loop_head diamond (run_start diamond x_input))) as H by apply nsteps_once, step_head.
  split; [done|]. apply (dag_terminates diamond x_input diamond_inputs _ _ H).
Defined.

(** A run given move by move: the head of the loop, a task that ends, a join. *)
Inductive move := Head | Ends (n : string) | Joins (n : string).

Fixpoint replay (nodes : gmap string (DagNode Z)) (ms : list move) (t : DagStatus Z) : option (DagStatus Z) :=
  match ms, t with
  | [], _ => Some t
  | Head :: ms, AtHead s => replay nodes ms (loop_head nodes s)
  | Ends n :: ms, Waiting s =>
      if decide (n ∈ running s ∧ finished s !! n = None) then replay nodes ms (Waiting (task_end nodes n s)) else None
  | Joins n :: ms, Waiting s => t ← join n s; replay nodes ms t
  | _, _ => None
  end.

Lemma replay_steps nodes ms t t' : replay nodes ms t = Some t' → rtc (step nodes) t t'.
Proof.
  revert t. induction ms as [|[|n|n] ms IH]; intros [s|s|σ|m]; simpl; try done; try (intros [= <-]; reflexivity).
  - intros Hr. eapply rtc_l; [apply step_head|by apply IH].
  - case_decide as Hd; [|done]. intros Hr. eapply rtc_l; [apply (step_task nodes n); apply Hd|by apply IH].
  - destruct (join n s) as [t1|] eqn:Hj; simpl; [|done]. intros Hr. eapply rtc_l; [by apply (step_join nodes n)|by apply IH].
Qed.

(** A node [a] and an input of the same name: its dependent [b] runs at once, on
    the input when it is quicker than [a] and on the result of [a] when it is not. *)
Definition named_twice : gmap string (DagNode Z) := dag_new [mk_node "a" sum []; mk_node "b" sum ["a"]]%string.
Definition a_input : gmap string Z := {[ "a"%string := 10%Z ]}.

Example input_races :
  rtc (step named_twice) (AtHead (run_start named_twice a_input)) (Done {[ "a" := 1; "b" := 11 ]}%string%Z) ∧
  rtc (step named_twice) (AtHead (run_start named_twice a_input)) (Done {[ "a" := 1; "b" := 2 ]}%string%Z).
Proof.
  split.
  - apply (replay_steps _ [Head; Ends "b"; Joins "b"; Head; Ends "a"; Joins "a"; Head]%string). by vm_compute.
  - apply (replay_steps _ [Head; Ends "a"; Joins "a"; Head; Ends "b"; Joins "b"; Head]%string). by vm_compute.
Qed.

(** Two nodes that wait for each other. *)
Example cycle_deadlocks :
  final (run_dag (dag_new [mk_node "a" sum ["b"]; mk_node "b" sum ["a"]]%string) 9
           (AtHead (run_start (dag_new [mk_node "a" sum ["b"]; mk_node "b" sum ["a"]]%string) x_input))) ∧
  run_dag (dag_new [mk_node "a" sum ["b"]; mk_node "b" sum ["a"]]%string) 9
    (AtHead (run_start (dag_new [mk_node "a" sum ["b"]; mk_node "b" sum ["a"]]%string) x_input))
  = Failed (deadlock_message {[ "a"%string; "b"%string ]}).
Proof. split; by vm_compute. Qed.
End Examples.
