(* ===== verification/CronScheduler.v ===== *)
(** * CronScheduler: cron and interval jobs

    [crates/justapi-py/src/scheduler.rs].  Times are milliseconds since the
    epoch in a signed 64-bit integer.  The Python callable of a job is an
    opaque action; submitting it to the background pool is what a tick returns.
    The [cron] crate is a parameter: [cron_after s now] is the first time of
    the schedule after [now]. *)

From S2P Require Import Prelude.

#[local] Open Scope Z_scope.

(** Two's complement, 64 bits. *)
Definition wrap_i64 (z : Z) : Z := (z + 2 ^ 63) mod 2 ^ 64 - 2 ^ 63.
Definition i64_max : Z := 9223372036854775807.

Lemma wrap_i64_id z : - 9223372036854775808 ≤ z ≤ i64_max → wrap_i64 z = z.
Proof. unfold wrap_i64, i64_max. intros. rewrite Z.mod_small; lia. Qed.

(** The [cron] crate: [parse::<Schedule>] and [after(..).next()]. *)
Class Cron := {
  Schedule : Type;
  cron_parse : string → Schedule + string;
  cron_after : Schedule → Z → option Z }.

Section scheduler.
Context {CR : Cron} {Action : Type}.

Record Job := mk_job {
  job_id : Z;
  job_name : string;
  cron : option Schedule;
  interval : option Z;                     (* seconds *)
  action : Action;
  last_fire_ms : option Z;
  next_fire_ms : option Z }.

Definition step_ms (secs : Z) : Z := wrap_i64 (1000 * secs).

Definition compute_next (c : option Schedule) (iv : option Z) (last_fire : option Z) (now : Z)
    : option Z :=
  match c with
  | Some s => cron_after s now
  | None =>
      match iv with
      | Some secs =>
          let base := match last_fire with Some t => t | None => now end in
          let next := wrap_i64 (base + step_ms secs) in
          Some (if next <=? now then wrap_i64 (now + step_ms secs) else next)
      | None => None
      end
  end.

Definition job_next (j : Job) (now : Z) : option Z :=
  compute_next (cron j) (interval j) (last_fire_ms j) now.

Definition set_times (last next : option Z) (j : Job) : Job :=
  mk_job (job_id j) (job_name j) (cron j) (interval j) (action j) last next.

(** The body of the loop over the jobs: the new job and whether it fired. *)
Definition tick_job (now : Z) (j : Job) : Job * bool :=
  let next := match next_fire_ms j with Some t => Some t | None => job_next j now end in
  let j := set_times (last_fire_ms j) next j in
  match next with
  | Some t =>
      if t <=? now
      then (set_times (Some now) (compute_next (cron j) (interval j) (Some now) now) j, true)
      else (j, false)
  | None => (j, false)
  end.

Record SchedulerInner := mk_inner {
  jobs : list Job;
  fired : Z;
  failed : Z;
  next_id : Z;
  is_running : bool }.

Definition scheduler_new : SchedulerInner := mk_inner [] 0 0 1 false.

Definition start (s : SchedulerInner) : SchedulerInner :=
  mk_inner (jobs s) (fired s) (failed s) (next_id s) true.
Definition stop (s : SchedulerInner) : SchedulerInner :=
  mk_inner (jobs s) (fired s) (failed s) (next_id s) false.
Definition maybe_start_if_jobs (s : SchedulerInner) : SchedulerInner :=
  match jobs s with [] => s | _ => start s end.

(** One turn of [tick_loop]: the actions submitted, in the order of the jobs. *)
Definition tick (now : Z) (s : SchedulerInner) : SchedulerInner * list Action :=
  if is_running s then
    let rs := tick_job now <$> jobs s in
    let due := filter (λ r : Job * bool, r.2 = true) rs in
    (mk_inner rs.*1 (wadd64 (fired s) (Z.of_nat (length due))) (failed s) (next_id s) true,
     (λ r : Job * bool, action r.1) <$> due)
  else (s, []).

Definition add_job (j : Z → Job) (s : SchedulerInner) : SchedulerInner * Z :=
  let id := next_id s in
  (mk_inner (jobs s ++ [j id]) (fired s) (failed s) (wadd64 id 1) (is_running s), id).

Definition schedule (expr : string) (a : Action) (s : SchedulerInner)
    : (SchedulerInner * Z) + string :=
  match cron_parse expr with
  | inr e => inr (String.append "invalid cron expr: " e)
  | inl c =>
      inl (add_job (λ id, mk_job id (String.append "cron:" expr) (Some c) None a None None) s)
  end.

Definition every (secs : Z) (a : Action) (s : SchedulerInner) : (SchedulerInner * Z) + string :=
  if secs =? 0 then inr "every(seconds) requires seconds > 0"%string
  else inl (add_job (λ id, mk_job id (String.concat EmptyString ["every:"%string; decimal secs; "s"%string])
                             None (Some secs) a None None) s).

Definition remove (id : Z) (s : SchedulerInner) : SchedulerInner * bool :=
  let left := filter (λ j, job_id j ≠ id) (jobs s) in
  (mk_inner left (fired s) (failed s) (next_id s) (is_running s),
   negb (Nat.eqb (length left) (length (jobs s)))).

(** ** One job *)

(** An interval in whole seconds whose steps do not overflow until [horizon]. *)
Definition fits (secs horizon : Z) : Prop := 0 < secs ∧ 0 ≤ horizon ∧ horizon + 1000 * secs ≤ i64_max.

Lemma step_ms_fits secs horizon : fits secs horizon → step_ms secs = 1000 * secs.
Proof. intros (? & ? & ?). apply wrap_i64_id. unfold i64_max in *. lia. Qed.

Lemma compute_next_interval secs last now horizon :
  fits secs horizon → 0 ≤ now ≤ horizon → (∀ t, last = Some t → 0 ≤ t ≤ now) →
  compute_next None (Some secs) last now
  = Some (let next := match last with Some t => t | None => now end + 1000 * secs in
          if next <=? now then now + 1000 * secs else next).
Proof.
  intros Hf Hn Hl. unfold compute_next. rewrite (step_ms_fits _ _ Hf). destruct Hf as (? & ? & ?).
  assert (0 ≤ match last with Some t => t | None => now end ≤ now) by (destruct last; [by apply Hl|lia]).
  rewrite !wrap_i64_id by (unfold i64_max in *; lia). done.
Qed.

(** The fire times of a job over a sequence of ticks. *)
Fixpoint fires (ts : list Z) (j : Job) : list Z :=
  match ts with
  | [] => []
  | t :: ts' => let '(j', b) := tick_job t j in (if b then [t] else []) ++ fires ts' j'
  end.

(** The reference: fire at the first tick at or after the deadline; the next
    deadline is one step later. *)
Fixpoint greedy (step deadline : Z) (ts : list Z) : list Z :=
  match ts with
  | [] => []
  | t :: ts' => if deadline <=? t then t :: greedy step (t + step) ts' else greedy step deadline ts'
  end.

Lemma fires_greedy secs horizon deadline ts j :
  fits secs horizon → cron j = None → interval j = Some secs →
  next_fire_ms j = Some deadline → Forall (λ t, 0 ≤ t ≤ horizon) ts →
  fires ts j = greedy (1000 * secs) deadline ts.
Proof.
  intros Hf Hc Hi. revert deadline j Hc Hi. induction ts as [|t ts IH]; intros deadline j Hc Hi Hn Hts; [done|].
  inversion Hts as [|?? Ht Hts']; subst. cbn [fires greedy]. unfold tick_job. rewrite Hn.
  destruct (deadline <=? t) eqn:Hd; simpl.
  - f_equal. apply IH; [done|done| |done]. simpl. rewrite Hc, Hi.
    rewrite (compute_next_interval secs (Some t) t horizon) by (try done; intros ? [= ->]; lia).
    cbn zeta. destruct Hf as (? & ? & ?). destruct (Z.leb_spec (t + 1000 * secs) t); [lia|done].
  - by apply IH.
Qed.

Lemma greedy_spaced step deadline ts :
  StronglySorted Z.le ts →
  StronglySorted (λ a b, a + step ≤ b) (greedy step deadline ts) ∧
  Forall (λ t, deadline ≤ t ∧ t ∈ ts) (greedy step deadline ts).
Proof.
  intros Hs. revert deadline. induction Hs as [|t ts Hs IH Ht]; intros deadline; simpl; [split; constructor|].
  destruct (Z.leb_spec deadline t).
  - destruct (IH (t + step)) as [H1 H2]. split.
    + constructor; [done|]. eapply Forall_impl; [exact H2|]. simpl. tauto.
    + constructor; [split; [done|left]|]. apply Forall_forall. intros x Hx.
      rewrite Forall_forall in H2. destruct (H2 x Hx) as [_ Hin].
      rewrite Forall_forall in Ht. specialize (Ht x Hin). split; [lia|by right].
  - destruct (IH deadline) as [H1 H2]. split; [done|]. eapply Forall_impl; [exact H2|].
    simpl. intros x [??]. split; [done|by right].
Qed.

(** An interval job fires like the textbook rule.  From its first tick
    [t0] on, it fires at the first tick that is at least its interval after
    [t0] or after its previous fire, never twice at a tick and never for ticks
    that were missed; so two fires are at least the interval apart, as long as
    the times stay within 64 bits. *)
Theorem interval_fires_spaced secs horizon j t0 ts :
  fits secs horizon → cron j = None → interval j = Some secs →
  last_fire_ms j = None → next_fire_ms j = None →
  Forall (λ t, 0 ≤ t ≤ horizon) (t0 :: ts) → StronglySorted Z.le ts →
  fires (t0 :: ts) j = greedy (1000 * secs) (t0 + 1000 * secs) ts ∧
  StronglySorted (λ a b, a + 1000 * secs ≤ b) (fires (t0 :: ts) j) ∧
  Forall (λ t, t0 + 1000 * secs ≤ t ∧ t ∈ ts) (fires (t0 :: ts) j).
Proof.
  intros Hf Hc Hi Hl Hn Hts Hs. inversion Hts as [|?? Ht0 Hts']; subst.
  assert (fires (t0 :: ts) j = greedy (1000 * secs) (t0 + 1000 * secs) ts) as Hg.
  { cbn [fires]. unfold tick_job, job_next. rewrite Hn, Hc, Hi, Hl.
    rewrite (compute_next_interval secs None t0 horizon) by done.
    assert (0 < secs) by by destruct Hf. cbn zeta.
    destruct (Z.leb_spec (t0 + 1000 * secs) t0); [lia|].
    destruct (Z.leb_spec (t0 + 1000 * secs) t0); [lia|]. simpl.
    eapply fires_greedy; eauto. }
  rewrite Hg. split; [done|]. by apply greedy_spaced.
Qed.

(** ** A tick of the scheduler *)

Lemma tick_job_id now j : job_id (tick_job now j).1 = job_id j ∧ action (tick_job now j).1 = action j.
Proof. unfold tick_job. destruct (next_fire_ms j), (job_next j now); simpl; repeat case_match; done. Qed.

(** The documented promise of [Schedule::after]. *)
Definition cron_after_later : Prop := ∀ s now t, cron_after s now = Some t → now < t.

(** An interval that fits, or a cron job. *)
Definition job_ok (horizon : Z) (j : Job) : Prop :=
  match cron j, interval j with
  | None, Some secs => fits secs horizon ∧ ∀ t, last_fire_ms j = Some t → 0 ≤ t ≤ horizon
  | Some _, _ => True
  | None, None => False
  end.

Lemma compute_next_future now horizon j last u :
  cron_after_later → job_ok horizon j → 0 ≤ now ≤ horizon → (∀ t, last = Some t → 0 ≤ t ≤ now) →
  compute_next (cron j) (interval j) last now = Some u → now < u.
Proof.
  intros Hc Hj Hn Hlast Hu. unfold job_ok in Hj. destruct (cron j) as [c|]; [by eapply Hc|].
  destruct (interval j) as [secs|]; [|done]. destruct Hj as [Hf _].
  rewrite (compute_next_interval secs last now horizon) in Hu by done. cbn zeta in Hu.
  destruct Hf as (? & ? & ?). injection Hu as <-.
  destruct (Z.leb_spec (match last with Some t0 => t0 | None => now end + 1000 * secs) now); lia.
Qed.

Lemma job_next_future now horizon j u :
  cron_after_later → job_ok horizon j → 0 ≤ now ≤ horizon →
  (∀ t, last_fire_ms j = Some t → t ≤ now) → job_next j now = Some u → now < u.
Proof.
  intros Hc Hj Hn Hl Hu. unfold job_next in Hu. unfold job_ok in Hj.
  destruct (cron j) as [c|] eqn:Hcj; [by eapply Hc|].
  destruct (interval j) as [secs|] eqn:Hij; [|done]. destruct Hj as [Hf Ht].
  apply (compute_next_future now horizon j (last_fire_ms j)); [done| |done| |by rewrite Hcj, Hij].
  - unfold job_ok. by rewrite Hcj, Hij.
  - intros t Hlt. split; [by apply Ht in Hlt as [? _]|by apply Hl].
Qed.

Lemma tick_job_next now horizon j t :
  cron_after_later → job_ok horizon j → 0 ≤ now ≤ horizon →
  (∀ t, last_fire_ms j = Some t → t ≤ now) →
  next_fire_ms (tick_job now j).1 = Some t → now < t.
Proof.
  intros Hc Hj Hn Hl. unfold tick_job.
  destruct (match next_fire_ms j with Some t0 => Some t0 | None => job_next j now end) as [u|] eqn:Hu; [|done].
  destruct (Z.leb_spec u now); simpl; [|intros [= <-]; lia].
  apply (compute_next_future now horizon j (Some now)); [done|done|done|]. intros ? [= <-]. lia.
Qed.

Lemma tick_ids now s : job_id <$> jobs (tick now s).1 = job_id <$> jobs s.
Proof.
  unfold tick. destruct (is_running s); [|done]. simpl. rewrite <- !list_fmap_compose.
  apply list_fmap_ext. intros _ j _. apply tick_job_id.
Qed.

(** The ids of the jobs are distinct and smaller than the next one. *)
Definition ids_ok (s : SchedulerInner) : Prop :=
  NoDup (job_id <$> jobs s) ∧ Forall (λ j, 0 < job_id j < next_id s) (jobs s) ∧ 0 < next_id s.

Inductive Op :=
| OpSchedule (expr : string) (a : Action) | OpEvery (secs : Z) (a : Action) | OpRemove (id : Z)
| OpStart | OpStop | OpMaybeStart | OpTick (now : Z).

Definition run_op (o : Op) (s : SchedulerInner) : SchedulerInner :=
  match o with
  | OpSchedule e a => match schedule e a s with inl (s', _) => s' | inr _ => s end
  | OpEvery n a => match every n a s with inl (s', _) => s' | inr _ => s end
  | OpRemove id => (remove id s).1
  | OpStart => start s
  | OpStop => stop s
  | OpMaybeStart => maybe_start_if_jobs s
  | OpTick now => (tick now s).1
  end.

Lemma add_job_ids j s :
  (∀ id, job_id (j id) = id) → next_id s < u64_max → ids_ok s → ids_ok (add_job j s).1.
Proof.
  intros Hj Hlt (Hnd & Hall & Hpos). unfold ids_ok. simpl.
  rewrite wadd64_small by (unfold u64_max in *; lia). split_and!; [| |lia].
  - rewrite fmap_app. apply NoDup_app. split; [done|]. split; [|apply NoDup_singleton].
    intros id (j' & -> & Hin)%list_elem_of_fmap Heq%list_elem_of_singleton. rewrite Hj in Heq.
    rewrite Forall_forall in Hall. specialize (Hall _ Hin). lia.
  - apply Forall_app. split; [|constructor; [rewrite Hj; lia|constructor]].
    eapply Forall_impl; [exact Hall|]. simpl. lia.
Qed.

Lemma run_op_ids o s : next_id s < u64_max → ids_ok s → ids_ok (run_op o s).
Proof.
  intros Hlt Hok. destruct o as [e a|n a|id| | | |now]; simpl.
  - unfold schedule. destruct (cron_parse e); [by apply add_job_ids|done].
  - unfold every. destruct (n =? 0); [done|by apply add_job_ids].
  - destruct Hok as (Hnd & Hall & Hpos). split_and!; simpl; [|by apply Forall_filter|done].
    eapply sublist_NoDup; [exact Hnd|]. apply fmap_sublist, sublist_filter.
  - done.
  - done.
  - unfold maybe_start_if_jobs. by destruct (jobs s) eqn:Hj.
  - destruct Hok as (Hnd & Hall & Hpos). pose proof (tick_ids now s) as Hids.
    assert (next_id (tick now s).1 = next_id s) as Hnx by (unfold tick; by destruct (is_running s)).
    unfold ids_ok. rewrite Hnx, Hids. split_and!; [done| |done].
    assert (Forall (λ i, 0 < i < next_id s) (job_id <$> jobs (tick now s).1)) as Hf
      by (rewrite Hids; by apply Forall_fmap). by apply Forall_fmap in Hf.
Qed.
(** When a job is due at a tick. *)
Definition due (now : Z) (j : Job) : bool :=
  match match next_fire_ms j with Some t => Some t | None => job_next j now end with
  | Some t => t <=? now
  | None => false
  end.

Lemma tick_job_due now j : (tick_job now j).2 = due now j.
Proof. unfold tick_job, due. destruct (next_fire_ms j), (job_next j now); simpl; by repeat case_match. Qed.

Lemma tick_actions now s :
  is_running s = true → (tick now s).2 = action <$> filter (λ j, due now j = true) (jobs s).
Proof.
  intros Hr. unfold tick. rewrite Hr. simpl. induction (jobs s) as [|j l IH]; [done|].
  rewrite fmap_cons, !filter_cons. rewrite tick_job_due.
  destruct (due now j); [rewrite !decide_True by done|rewrite !decide_False by done; exact IH].
  by rewrite !fmap_cons, IH, (proj2 (tick_job_id now j)).
Qed.

(** What a job keeps from tick to tick. *)
Lemma tick_job_ok horizon now j :
  0 ≤ now ≤ horizon → job_ok horizon j → (∀ t, last_fire_ms j = Some t → t ≤ now) →
  job_ok horizon (tick_job now j).1 ∧ ∀ t, last_fire_ms (tick_job now j).1 = Some t → t ≤ now.
Proof.
  intros Hn Hj Hl.
  assert ((tick_job now j).1.(cron) = cron j ∧ (tick_job now j).1.(interval) = interval j ∧
          ((tick_job now j).1.(last_fire_ms) = last_fire_ms j ∨ (tick_job now j).1.(last_fire_ms) = Some now))
    as (Hc & Hi & Hlast).
  { unfold tick_job. destruct (next_fire_ms j), (job_next j now); simpl; repeat case_match; simpl; auto. }
  unfold job_ok in *. rewrite Hc, Hi. split.
  - destruct (cron j); [done|]. destruct (interval j); [|done]. destruct Hj as [Hf Ht]. split; [done|].
    destruct Hlast as [-> | ->]; [done|]. by intros ? [= <-].
  - destruct Hlast as [-> | ->]; [done|]. by intros ? [= <-].
Qed.

Definition jobs_ok (horizon now : Z) (s : SchedulerInner) : Prop :=
  0 ≤ now ≤ horizon ∧
  Forall (λ j, job_ok horizon j ∧ ∀ t, last_fire_ms j = Some t → t ≤ now) (jobs s).

(** A tick submits the action of each due job once, in the order the jobs
    were registered, counts them, and leaves every job with a next time in the
    future: a second tick at the same instant submits nothing.  A stopped
    scheduler submits nothing. *)
Theorem tick_fires_once horizon now s :
  cron_after_later → jobs_ok horizon now s →
  (is_running s = true →
   (tick now s).2 = action <$> filter (λ j, due now j = true) (jobs s) ∧
   fired (tick now s).1 = wadd64 (fired s) (Z.of_nat (length (tick now s).2)) ∧
   Forall (λ j, ∀ t, next_fire_ms j = Some t → now < t) (jobs (tick now s).1) ∧
   (tick now (tick now s).1).2 = []) ∧
  (is_running s = false → tick now s = (s, [])).
Proof.
  intros Hc [Hn Hok]. split; [|by intros Hr; unfold tick; rewrite Hr]. intros Hr.
  assert (Forall (λ j, ∀ t, next_fire_ms j = Some t → now < t) (jobs (tick now s).1)) as Hfut.
  { unfold tick. rewrite Hr. simpl. rewrite <- list_fmap_compose. apply Forall_fmap.
    eapply Forall_impl; [exact Hok|]. intros j [Hj Hl] t. simpl. by eapply tick_job_next. }
  split; [by apply tick_actions|]. split; [|split; [done|]].
  - unfold tick. rewrite Hr. simpl. by rewrite length_fmap.
  - rewrite tick_actions by (unfold tick; by rewrite Hr).
    rewrite filter_none; [done|]. intros j Hj Hd. rewrite Forall_forall in Hfut.
    unfold due in Hd. destruct (next_fire_ms j) as [t|] eqn:Ht.
    + specialize (Hfut j Hj t Ht). lia.
    + destruct (job_next j now) as [u|] eqn:Hu; [|done].
      unfold tick in Hj. rewrite Hr in Hj. simpl in Hj. rewrite <- list_fmap_compose in Hj.
      apply list_elem_of_fmap in Hj as (j0 & -> & Hj0). rewrite Forall_forall in Hok.
      destruct (Hok j0 Hj0) as [Hj Hl]. destruct (tick_job_ok _ _ _ Hn Hj Hl) as [Hj' Hl'].
      pose proof (job_next_future _ _ _ _ Hc Hj' Hn Hl' Hu). lia.
Qed.
End scheduler.
#[global] Arguments Job _ _ : clear implicits.

(** ** Witnesses *)

Module Examples.

(** Schedules are periods in milliseconds. *)
#[local] Instance periods : Cron := {|
  Schedule := Z;
  cron_parse e := if String.eqb e "@minute" then inl 60000 else inr "unknown"%string;
  cron_after p now := if p <=? 0 then None else Some ((now / p + 1) * p) |}.

Definition every_2s : Job periods nat := mk_job 1 "every:2s" None (Some 2) 7%nat None None.

Lemma interval_fires_spaced_witness :
  fires [0; 250; 2000; 2250; 4100; 9000; 9250; 11000] every_2s = [2000; 4100; 9000; 11000] ∧
  StronglySorted (λ a b, a + 1000 * 2 ≤ b) (fires [0; 250; 2000; 2250; 4100; 9000; 9250; 11000] every_2s).
Proof.
  split; [by vm_compute|].
  apply (interval_fires_spaced 2 11000 every_2s 0 [250; 2000; 2250; 4100; 9000; 9250; 11000]);
    [done|done|done|done|done|repeat constructor; lia|repeat constructor; lia].
Defined.

Definition sample : SchedulerInner :=
  run_op (OpTick 1000) (run_op OpMaybeStart (run_op (OpEvery 2 8%nat)
    (run_op (OpSchedule "@minute" 7%nat) scheduler_new))).

Lemma tick_fires_once_witness :
  (tick 60000 sample).2 = [7; 8]%nat ∧ (tick 60000 (tick 60000 sample).1).2 = [].
Proof.
  assert (cron_after_later) as Hc.
  { intros p now t. simpl. destruct (Z.leb_spec p 0); [done|]. intros [= <-].
    pose proof (Z.mod_pos_bound now p ltac:(lia)). pose proof (Z.div_mod now p ltac:(lia)). lia. }
  assert (jobs_ok 60000 60000 sample) as Hok.
  { split; [lia|]. repeat constructor; try done; simpl; unfold fits, i64_max; lia. }
  destruct (tick_fires_once 60000 60000 sample Hc Hok) as [H _].
  destruct (H ltac:(by vm_compute)) as (Ha & _ & _ & Hd). split; [|exact Hd].
  rewrite Ha. by vm_compute.
Defined.
End Examples.
