(* ===== verification/StaticFiles.v ===== *)
(** * StaticFiles: files under a root directory

    [crates/justapi-core/src/static_files.rs].  The file system is a
    parameter: what [canonicalize] and [metadata] answer, and the contents of
    the files.  A file over a megabyte is streamed with the same headers and
    the same bytes, so the two branches are one here. *)

From Stdlib Require Import Ascii.
From S2P Require Import Prelude Text Paths Http.

#[local] Open Scope Z_scope.

(** ** The file system *)

(** [modified] in nanoseconds, [None] where the platform has no such time. *)
Record Metadata := mk_metadata { is_file : bool; contents : string; modified : option Z }.

Class FileSystem := {
  canonicalize : string → option string;
  metadata : string → option Metadata }.

Definition len (m : Metadata) : Z := Z.of_nat (String.length (contents m)).

(** ** Ranges *)

Inductive ByteRange :=
| StartEnd (first last : Z)
| StartFrom (first : Z)
| Suffix (n : Z).

Definition into_abs_range (r : ByteRange) (total_len : Z) : Z * Z :=
  match r with
  | StartEnd first last =>
      let first := Z.min first (ssub total_len 1) in
      let last := Z.min last (ssub total_len 1) in
      (first, Z.max last first)
  | StartFrom first => (Z.min first (ssub total_len 1), ssub total_len 1)
  | Suffix n => (ssub total_len n, ssub total_len 1)
  end.

Definition parse_range (range_str : string) (total_len : Z) : option ByteRange :=
  range_spec ← strip_prefix "bytes=" (trim range_str);
  match split "-" range_spec with
  | [first; last] =>
      let start_str := trim first in
      let end_str := trim last in
      if String.eqb start_str EmptyString then
        n ← parse_u64 end_str;
        if (n =? 0) || (total_len <? n) then None else Some (Suffix n)
      else if String.eqb end_str EmptyString then StartFrom <$> parse_u64 start_str
      else
        first ← parse_u64 start_str;
        last ← parse_u64 end_str;
        if last <? first then None else Some (StartEnd first last)
  | _ => None
  end.

Section serve.
Context {FS : FileSystem}.

Record StaticMount := mk_mount { prefix : string; root : string; fallback : option string }.

(** [StaticDir::resolve]. *)
Definition resolve (root uri_path : string) : option string :=
  let relative := trim_start_with (Ascii.eqb "/") uri_path in
  if String.eqb relative EmptyString then None
  else if contains ".." relative || contains "%2e" relative || contains "%2E" relative then None
  else
    let path := path_join root relative in
    match canonicalize path, canonicalize root with
    | Some canonical, Some root_canonical =>
        if path_starts_with canonical root_canonical then Some path else None
    | _, _ => if path_starts_with path root then Some path else None
    end.

(** [StaticMount::resolve]. *)
Definition mount_resolve (m : StaticMount) (uri_path : string) : option string :=
  if String.eqb (prefix m) "/" then resolve (root m) uri_path
  else rel ← strip_prefix (prefix m) uri_path; resolve (root m) rel.

(** [t.elapsed()] fails for a time in the future. *)
Definition elapsed_secs (now : Z) (m : Metadata) : Z :=
  match modified m with
  | Some t => if t <=? now then (now - t) / 1000000000 else 0
  | None => 0
  end.

Definition make_etag (now : Z) (m : Metadata) : string :=
  String.concat EmptyString [quote; hex (len m); "-"%string; hex (elapsed_secs now m); quote].

Definition guess_content_type (path : string) : string :=
  match extension path with
  | Some ("html" | "htm") => "text/html; charset=utf-8"
  | Some "css" => "text/css; charset=utf-8"
  | Some ("js" | "mjs") => "application/javascript; charset=utf-8"
  | Some "json" => "application/json; charset=utf-8"
  | Some "png" => "image/png"
  | Some ("jpg" | "jpeg") => "image/jpeg"
  | Some "gif" => "image/gif"
  | Some "svg" => "image/svg+xml"
  | Some "ico" => "image/x-icon"
  | Some "woff" => "font/woff"
  | Some "woff2" => "font/woff2"
  | Some "ttf" => "font/ttf"
  | Some "txt" => "text/plain; charset=utf-8"
  | Some "xml" => "application/xml; charset=utf-8"
  | Some "wasm" => "application/wasm"
  | Some "mp4" => "video/mp4"
  | Some "webp" => "image/webp"
  | _ => "application/octet-stream"
  end%string.

Definition not_found : Response :=
  json_response 404 (String.concat EmptyString
    ["{"%string; quote; "detail"%string; quote; ":"%string; quote; "not found"%string; quote; "}"%string]).

Definition cache_control : string * string := ("cache-control"%string, "public, max-age=3600"%string).
Definition nosniff : string * string := ("x-content-type-options"%string, "nosniff"%string).

(** [serve_range]: [read_exact] past the end of the file is an error. *)
Definition serve_range (path etag content_type : string) (total_len : Z) (r : ByteRange) : outcome :=
  let '(first, last) := into_abs_range r total_len in
  let n := last - first + 1 in
  match metadata path with
  | None => inr "No such file or directory"%string
  | Some m =>
      if len m <? first + n then inr "failed to fill whole buffer"%string
      else inl (mk_response 206
             [("content-type"%string, content_type); ("content-length"%string, decimal n);
              ("content-range"%string,
               String.concat EmptyString ["bytes "%string; decimal first; "-"%string; decimal last;
                                          "/"%string; decimal total_len]);
              ("etag"%string, etag); ("accept-ranges"%string, "bytes"%string); cache_control; nosniff]
             (String.substring (Z.to_nat first) (Z.to_nat n) (contents m)))
  end.

Definition full_response (content_type etag : string) (ranges : HeaderMap) (m : Metadata) : Response :=
  mk_response 200
    ([("content-type"%string, content_type); ("content-length"%string, decimal (len m));
      ("etag"%string, etag); cache_control] ++ ranges ++ [nosniff])
    (contents m).

(** [serve_file]. *)
Definition serve_file (now : Z) (path : string) : outcome :=
  match metadata path with
  | None => inr "No such file or directory"%string
  | Some m =>
      if negb (is_file m) then inl not_found
      else inl (full_response (guess_content_type path) (make_etag now m) [] m)
  end.

(** [StaticDir::handle]. *)
Definition handle (root : string) (now : Z) (req : Request) : outcome :=
  match resolve root (req_path req) with
  | None => inl not_found
  | Some path =>
      match metadata path with
      | None => inl not_found
      | Some m =>
          if negb (is_file m) then inl not_found
          else
            let etag := make_etag now m in
            if bool_decide (header_str "if-none-match" (req_headers req) = Some etag)
            then inl (mk_response 304 [("etag"%string, etag); cache_control] EmptyString)
            else
              let content_type := guess_content_type path in
              match header_str "range" (req_headers req) ≫= λ r, parse_range r (len m) with
              | Some r => serve_range path etag content_type (len m) r
              | None =>
                  inl (full_response content_type etag [("accept-ranges"%string, "bytes"%string)] m)
              end
      end
  end.
End serve.

Section serve_lemmas.
Context {FS : FileSystem}.

(** What a resolved path is. *)
Lemma resolve_spec root uri path :
  resolve root uri = Some path →
  ∃ cs, path = path_join root (trim_start_with (Ascii.eqb "/") uri) ∧
    components path = components root ++ cs ∧ ".."%string ∉ cs ∧
    ∀ c rc, canonicalize path = Some c → canonicalize root = Some rc →
            path_starts_with c rc = true.
Proof.
  unfold resolve. set (rel := trim_start_with _ uri). destruct (String.eqb rel EmptyString); [done|].
  destruct (contains ".." rel) eqn:Hdots; [done|].
  destruct (contains "%2e" rel), (contains "%2E" rel); cbn [orb]; try done.
  intros H. assert (path = path_join root rel ∧ ∀ c rc, canonicalize path = Some c →
                    canonicalize root = Some rc → path_starts_with c rc = true) as [-> Hcan].
  { destruct (canonicalize (path_join root rel)) as [c|] eqn:Hc, (canonicalize root) as [rc|] eqn:Hrc;
      case_match; simplify_eq; split; try done; congruence. }
  destruct (components_join root rel) as (cs & Hcs & Hin).
  exists cs. split_and!; [done|done| |done].
  intros Hd%Hin. assert (contains ".." rel = true); [|congruence].
  by eapply split_with_contains.
Qed.

(** The first and last byte of a range, of a file that is not empty. *)
Lemma into_abs_range_bounds r total a b :
  0 < total → into_abs_range r total = (a, b) →
  match r with
  | StartEnd f l => 0 ≤ f ≤ l
  | StartFrom f => 0 ≤ f
  | Suffix n => 0 < n ≤ total
  end →
  0 ≤ a ≤ b ∧ b < total.
Proof. destruct r; simpl; intros Ht [= <- <-] Hr; unfold ssub; lia. Qed.

Lemma parse_range_wf s total r :
  parse_range s total = Some r →
  match r with
  | StartEnd f l => 0 ≤ f ≤ l
  | StartFrom f => 0 ≤ f
  | Suffix n => 0 < n ≤ total
  end.
Proof.
  unfold parse_range. intros (spec & _ & H)%bind_Some.
  destruct (split "-" spec) as [|f [|l []]]; try done.
  destruct (String.eqb (trim f) EmptyString).
  - apply bind_Some in H as (n & Hn%parse_unsigned_bound & H).
    destruct (Z.eqb_spec n 0), (Z.ltb_spec total n); simplify_eq/=. lia.
  - destruct (String.eqb (trim l) EmptyString).
    + apply fmap_Some in H as (n & Hn%parse_unsigned_bound & ->). lia.
    + apply bind_Some in H as (x & Hx%parse_unsigned_bound & H).
      apply bind_Some in H as (y & Hy%parse_unsigned_bound & H).
      destruct (Z.ltb_spec y x); simplify_eq. lia.
Qed.

(** What the code relies on: a file that can be read has a canonical path. *)
Definition canonical_paths : Prop := ∀ p m, metadata p = Some m → is_Some (canonicalize p).

(** What an answer holds of the file [m]: all of it, the bytes from [a] to [b] of it with their
    place, or nothing, where the client's copy is said to be current. *)
Definition answers_from (now : Z) (req : Request) (m : Metadata) (r : Response) : Prop :=
  (status r = 200 ∧ body r = contents m) ∨
  (∃ a b, status r = 206 ∧ 0 ≤ a ≤ b ∧ b < len m ∧
     body r = String.substring (Z.to_nat a) (Z.to_nat (b - a + 1)) (contents m) ∧
     assoc_get "content-range"%string (headers r) = Some (String.concat EmptyString
       ["bytes "%string; decimal a; "-"%string; decimal b; "/"%string; decimal (len m)])) ∨
  (status r = 304 ∧ body r = EmptyString ∧ header_str "if-none-match" (req_headers req) = Some (make_etag now m)).

Lemma serve_range_answers now req path m etag ct range r :
  metadata path = Some m → parse_range range (len m) = Some r →
  match serve_range path etag ct (len m) r with inl resp => answers_from now req m resp | inr _ => True end.
Proof.
  intros Hm Hp. apply parse_range_wf in Hp. destruct (into_abs_range r (len m)) as [a b] eqn:Hab.
  unfold serve_range. rewrite Hab, Hm. destruct (Z.ltb_spec (len m) (a + (b - a + 1))); [done|].
  assert (0 ≤ a ≤ b ∧ b < len m) as [Ha Hb].
  { destruct (decide (0 < len m)) as [Hpos|Hz]; [by eapply into_abs_range_bounds|].
    assert (len m = 0) as Hl by (unfold len in *; lia). rewrite Hl in *.
    destruct r; simpl in *; unfold ssub in *; injection Hab as <- <-; lia. }
  right; left. by exists a, b.
Qed.

(** C12: No request reads a file outside the root.  When the root directory
    exists, and every file that can be read has a canonical path (as a path
    that can be opened can be resolved, if nothing changes in between), an
    answer is the 404, or comes from the file at the root's path followed by
    the path of the request: that path has the root's components and further
    ones, none of them [..]; its canonical path, all symbolic links resolved,
    lies below the root's; and the answer holds that file's contents, the bytes
    of it that its content-range names, or nothing when the client holds its
    tag (304). *)
Theorem files_stay_under_root root rc now req r :
  canonical_paths → canonicalize root = Some rc → handle root now req = inl r →
  r = not_found ∨
  ∃ path m cs c,
    path = path_join root (trim_start_with (Ascii.eqb "/") (req_path req)) ∧
    metadata path = Some m ∧ is_file m = true ∧
    components path = components root ++ cs ∧ ".."%string ∉ cs ∧
    canonicalize path = Some c ∧
    (∃ below, components c = components rc ++ below) ∧
    answers_from now req m r.
Proof.
  intros Hlaw Hrc H. unfold handle in H.
  destruct (resolve root (req_path req)) as [path|] eqn:Hr; [|left; by simplify_eq].
  destruct (metadata path) as [m|] eqn:Hm; [|left; by simplify_eq].
  destruct (is_file m) eqn:Hf; simpl in H; [|left; by simplify_eq]. right.
  destruct (resolve_spec _ _ _ Hr) as (cs & -> & Hcs & Hdots & Hcan).
  destruct (Hlaw _ _ Hm) as [c Hc]. set (path := path_join _ _) in *.
  exists path, m, cs, c. split_and!; try done.
  - specialize (Hcan c rc Hc Hrc). unfold path_starts_with in Hcan.
    apply andb_true_iff in Hcan as [_ Hp]. by apply is_prefix_spec.
  - case_bool_decide as Htag; [simplify_eq; right; right; by split_and!|].
    destruct (header_str "range" (req_headers req) ≫= _) as [br|] eqn:Hbr; [|simplify_eq; left; by split].
    apply bind_Some in Hbr as (range & _ & Hp).
    pose proof (serve_range_answers now req path m (make_etag now m) (guess_content_type path) range br Hm Hp) as Ha.
    by rewrite H in Ha.
Qed.

(** ** Ranges *)

Lemma decimal_no_dash n : str_all (λ c, negb (Ascii.eqb "-" c)) (decimal n) = true.
Proof.
  eapply str_all_impl; [|apply decimal_all_digits]. intros c Hc.
  destruct (Ascii.eqb_spec "-" c) as [<-|]; [by vm_compute in Hc|done].
Qed.

Lemma decimal_no_space n : str_all (λ c, negb (is_space c)) (decimal n) = true.
Proof.
  eapply str_all_impl; [|apply decimal_all_digits]. intros c Hc. unfold is_digit, is_space in *. lia.
Qed.

Lemma decimal_not_empty n : String.eqb (decimal n) EmptyString = false.
Proof. by destruct (decimal_cons n) as (c & s & -> & _). Qed.

Definition print_range (first last : Z) : string :=
  String.append "bytes=" (String.append (decimal first) (String "-" (decimal last))).

(** A printed range reads back. *)
Lemma parse_print_range first last total :
  0 ≤ first ≤ last → last ≤ u64_max →
  parse_range (print_range first last) total = Some (StartEnd first last).
Proof.
  intros Hf Hl. unfold parse_range, print_range.
  rewrite trim_none.
  2: { rewrite !str_all_append. simpl. by rewrite !decimal_no_space. }
  rewrite (proj2 (strip_prefix_spec _ _ _) eq_refl). cbn [mbind option_bind].
  rewrite split_append. unfold split. rewrite !split_with_none by apply decimal_no_dash. cbn [app].
  rewrite !trim_none by apply decimal_no_space. rewrite !decimal_not_empty.
  rewrite !parse_u64_decimal by (unfold is_u64; lia). cbn [mbind option_bind].
  destruct (Z.ltb_spec last first); [lia|done].
Qed.

Lemma substring_length a n s :
  (a + n ≤ String.length s)%nat → String.length (String.substring a n s) = n.
Proof.
  revert a n. induction s as [|c s IH]; intros [|a] [|n] Hle; simpl in *; try lia; try done.
  - by rewrite IH by lia.
  - apply (IH a 0%nat). lia.
  - apply (IH a (S n)). lia.
Qed.

Lemma serve_range_ok path etag ct m r a b :
  metadata path = Some m → into_abs_range r (len m) = (a, b) → 0 ≤ a ≤ b → b < len m →
  ∃ resp, serve_range path etag ct (len m) r = inl resp ∧ status resp = 206 ∧
    body resp = String.substring (Z.to_nat a) (Z.to_nat (b - a + 1)) (contents m) ∧
    String.length (body resp) = Z.to_nat (b - a + 1) ∧
    assoc_get "content-length"%string (headers resp) = Some (decimal (b - a + 1)).
Proof.
  intros Hm Hab Ha Hb. unfold serve_range. rewrite Hab, Hm.
  destruct (Z.ltb_spec (len m) (a + (b - a + 1))); [lia|].
  eexists. split_and!; [done|done|done| |done]. simpl.
  apply substring_length. unfold len in *. lia.
Qed.

(** A range request gets exactly the bytes it asks for.  For every range
    the parser accepts on a file that is not empty, the answer is 206 with the
    bytes from [a] to [b], both inside the file, and their number as its
    length; the range a client prints as bytes=first-last, with [first]
    inside the file, is served from [first] up to [last] or the end of the
    file. *)
Theorem range_served_exactly root now req path m :
  resolve root (req_path req) = Some path → metadata path = Some m → is_file m = true →
  header_str "if-none-match" (req_headers req) = None → 0 < len m →
  (∀ h r, header_str "range" (req_headers req) = Some h → parse_range h (len m) = Some r →
     ∃ a b resp, into_abs_range r (len m) = (a, b) ∧ 0 ≤ a ≤ b ∧ b < len m ∧
       handle root now req = inl resp ∧ status resp = 206 ∧
       body resp = String.substring (Z.to_nat a) (Z.to_nat (b - a + 1)) (contents m) ∧
       String.length (body resp) = Z.to_nat (b - a + 1) ∧
       assoc_get "content-length"%string (headers resp) = Some (decimal (b - a + 1))) ∧
  (∀ first last, 0 ≤ first ≤ last → last ≤ u64_max → first < len m →
     header_str "range" (req_headers req) = Some (print_range first last) →
     ∃ resp, handle root now req = inl resp ∧ status resp = 206 ∧
       body resp = String.substring (Z.to_nat first)
                     (Z.to_nat (Z.min last (len m - 1) - first + 1)) (contents m)).
Proof.
  intros Hr Hm Hf Hn Hlen.
  assert (∀ h r, header_str "range" (req_headers req) = Some h → parse_range h (len m) = Some r →
            handle root now req = serve_range path (make_etag now m) (guess_content_type path) (len m) r)
    as Hh.
  { intros h r Hh Hp. unfold handle. rewrite Hr, Hm, Hf, Hn, Hh. cbn [negb mbind option_bind]. by rewrite Hp. }
  split.
  - intros h r Hhd Hp. destruct (into_abs_range r (len m)) as [a b] eqn:Hab.
    destruct (into_abs_range_bounds _ _ _ _ Hlen Hab (parse_range_wf _ _ _ Hp)) as [Ha Hb].
    destruct (serve_range_ok path (make_etag now m) (guess_content_type path) m r a b Hm Hab Ha Hb)
      as (resp & Hs & Hrest). exists a, b, resp. rewrite (Hh _ _ Hhd Hp).
    do 4 (split; [done|]). exact Hrest.
  - intros first last Hfl Hu Hfirst Hhd.
    pose proof (parse_print_range first last (len m) Hfl Hu) as Hp.
    assert (into_abs_range (StartEnd first last) (len m) = (first, Z.min last (len m - 1))) as Hab.
    { simpl. unfold ssub. f_equal; lia. }
    destruct (serve_range_ok path (make_etag now m) (guess_content_type path) m _ _ _ Hm Hab)
      as (resp & Hs & Hst & Hb & _); [lia|lia|].
    exists resp. rewrite (Hh _ _ Hhd Hp). by split_and!.
Qed.

(** The whole of an empty file asked for as a range is an error, not a 416. *)
Lemma empty_file_range_fails root now req path m h r :
  resolve root (req_path req) = Some path → metadata path = Some m → is_file m = true →
  header_str "if-none-match" (req_headers req) = None → contents m = EmptyString →
  header_str "range" (req_headers req) = Some h → parse_range h 0 = Some r →
  ∃ e, handle root now req = inr e.
Proof.
  intros Hr Hm Hf Hn Hc Hh Hp. assert (len m = 0) as Hl by (unfold len; by rewrite Hc).
  unfold handle. rewrite Hr, Hm, Hf, Hn, Hh, Hl. cbn [negb mbind option_bind]. rewrite Hp.
  unfold serve_range. destruct (into_abs_range r 0) as [a b] eqn:Hab. rewrite Hm, Hl.
  pose proof (parse_range_wf _ _ _ Hp). eexists.
  destruct (Z.ltb_spec 0 (a + (b - a + 1))); [done|].
  destruct r; simpl in *; unfold ssub in *; injection Hab as <- <-; lia.
Qed.
End serve_lemmas.

(** ** Witnesses *)

Module Examples.

(** A root with a file, a link that stays inside and one that leaves. *)
#[local] Instance disk : FileSystem := {|
  canonicalize p :=
    match p with
    | "/srv/www" => Some "/data/www"
    | "/srv/www/a.txt" | "/srv/www/in" => Some "/data/www/a.txt"
    | "/srv/www/out" => Some "/etc/passwd"
    | _ => None
    end%string;
  metadata p :=
    match p with
    | "/srv/www/a.txt" | "/srv/www/in" => Some (mk_metadata true "0123456789" (Some 5000000000))
    | "/srv/www/out" => Some (mk_metadata true "secret" None)
    | _ => None
    end%string |}.

Definition get (path : string) (hs : HeaderMap) : Request :=
  new_request "GET" path None hs None.

Example leaving_links_are_refused :
  handle "/srv/www" 0 (get "/out" []) = inl not_found ∧
  handle "/srv/www" 0 (get "/../www/a.txt" []) = inl not_found ∧
  handle "/srv/www" 0 (get "/%2e%2e/a.txt" []) = inl not_found.
Proof. split_and!; by vm_compute. Qed.

Lemma disk_paths : canonical_paths.
Proof. intros p m H. simpl in *. repeat case_match; simplify_eq; by eexists. Qed.

(** A range asked for through a link that stays inside. *)
Definition ranged : Request := get "/in" [("range", "bytes=2-4")]%string.
Definition ranged_answer : Response :=
  match handle "/srv/www" 6000000000 ranged with inl r => r | inr _ => not_found end.

Lemma files_stay_under_root_witness :
  (status ranged_answer = 206 ∧ body ranged_answer = "234"%string) ∧
  ∃ m c below, metadata "/srv/www/in" = Some m ∧ canonicalize "/srv/www/in" = Some c ∧
    components c = components "/data/www" ++ below ∧ answers_from 6000000000 ranged m ranged_answer.
Proof.
  split; [by vm_compute|].
  destruct (files_stay_under_root "/srv/www" "/data/www" 6000000000 ranged ranged_answer
    disk_paths eq_refl ltac:(by vm_compute))
    as [Hn|(path & m & cs & c & -> & Hm & _ & _ & _ & Hc & [below Hb] & Ha)]; [by vm_compute in Hn|].
  by exists m, c, below.
Defined.

Lemma range_served_exactly_witness :
  ∃ resp, handle "/srv/www" 0 (get "/a.txt" [("range", "bytes=7-20")]%string) = inl resp ∧
          status resp = 206 ∧ body resp = "789"%string.
Proof.
  apply (proj2 (range_served_exactly "/srv/www" 0 (get "/a.txt" [("range", "bytes=7-20")]%string)
                  "/srv/www/a.txt" _ ltac:(by vm_compute) eq_refl eq_refl eq_refl ltac:(by vm_compute))
               7 20); [lia|by vm_compute|by vm_compute|by vm_compute].
Defined.
End Examples.
