(* ===== verification/ReverseGateway.v ===== *)
(** * ReverseGateway: routes to upstreams from a file that may change

    [crates/justapi-core/src/gateway.rs].  A middleware answers the requests
    the configuration routes to an upstream and passes the others on; a watcher
    loads the file again when it changes.  The deserialiser of the
    configuration is a parameter, the matcher that of [HttpRouter].  The warning
    about a file that anyone may write is a log line. *)

From S2P Require Import Prelude Text HttpRouter Http Middleware.

#[local] Open Scope string_scope.

Record GatewayRoute := mk_gateway_route {
  upstream : string;
  rate_limit_capacity : option Z;
  rate_limit_replenish_rate : option Z;
  wasm_plugin : option string }.

(** [routes] maps a path to its methods; both maps in the order of iteration. *)
Record GatewayConfigData := mk_gateway_config {
  gw_routes : list (string * list (string * GatewayRoute));
  global_rate_limit : option Z }.

Definition config_default : GatewayConfigData := mk_gateway_config [] None.

(** The methods the loader knows. *)
Definition config_method (method_str : string) : option string :=
  let m := uppercase method_str in
  if existsb (String.eqb m) ["GET"; "POST"; "PUT"; "DELETE"; "PATCH"; "OPTIONS"] then Some m else None.

Section gateway.
Context {R E : Type} `{!HttpRouter.Matchit R GatewayRoute E}.

Abbreviation GatewayRouter := (HttpRouter.Router R GatewayRoute).

Record GatewayState := mk_gateway_state { gs_config : GatewayConfigData; gs_router : GatewayRouter }.

(** [serde_json::from_str]; an error is its text. *)
Context (parse_config : string → string + GatewayConfigData).

(** An error of the matcher is ignored. *)
Definition add_route (path_pattern : string) (rt : GatewayRouter) (mr : string * GatewayRoute) : GatewayRouter :=
  match config_method mr.1 with
  | Some m => (HttpRouter.insert m path_pattern mr.2 rt).2
  | None => rt
  end.

Definition build_router (config : GatewayConfigData) : GatewayRouter :=
  fold_left (λ rt pm, fold_left (add_route pm.1) pm.2 rt) (gw_routes config) HttpRouter.new.

(** [data] is what reading the file gives: its text or an error. *)
Definition load_config (data : string + string) : string + (GatewayConfigData * GatewayRouter) :=
  match data with
  | inl e => inl e
  | inr text =>
      match parse_config text with inl e => inl e | inr config => inr (config, build_router config) end
  end.

(** [GatewayState::new]: a file that cannot be loaded is an empty one. *)
Definition gateway_new (data : string + string) : GatewayState :=
  match load_config data with
  | inr (config, router) => mk_gateway_state config router
  | inl _ => mk_gateway_state config_default HttpRouter.new
  end.

(** What the watcher does when the file has changed to [data]. *)
Definition reload (data : string + string) (s : GatewayState) : GatewayState :=
  match load_config data with
  | inr (config, router) => mk_gateway_state config router
  | inl _ => s
  end.

Definition watch (datas : list (string + string)) (s : GatewayState) : GatewayState :=
  fold_left (λ s d, reload d s) datas s.

(** [get_route]: its look-up may fill the cache of the router. *)
Definition get_route (method path : string) (s : GatewayState)
    : option (HttpRouter.RouteResolution GatewayRoute) * GatewayState :=
  let '(res, rt) := HttpRouter.resolve method path (gs_router s) in
  (match res with inl r => Some r | inr _ => None end, mk_gateway_state (gs_config s) rt).

Definition proxied (u : string) : Response :=
  mk_response 200 [("x-justapi-gateway", "hot-reloaded")] ("Proxied to: " +:+ u).

(** [state] is the part of the world the watcher changes. *)
Definition gateway_handle {W} (state : W → GatewayState) : Middleware W := λ next req w,
  match HttpRouter.at_ (req_method req) (req_path req) (gs_router (state w)) with
  | inl (route, _) => Ret (inl (proxied (upstream route)), w)
  | inr _ => next req w
  end.
End gateway.

(** ** What the gateway answers *)

#[local] Arguments String.eqb : simpl never.

(** The routes of a configuration, in the order they are registered. *)
Definition entries (config : GatewayConfigData) : list (string * string * GatewayRoute) :=
  pm ← gw_routes config;
  omap (λ mr : string * GatewayRoute, m ← config_method mr.1; Some (m, pm.1, mr.2)) pm.2.

(** HEAD is answered as GET. *)
Definition as_get (m : string) : string := if String.eqb m "HEAD" then "GET" else m.

Definition is_entry (m p : string) (e : string * string * GatewayRoute) : bool :=
  String.eqb e.1.1 (as_get m) && String.eqb e.1.2 p.

(** The reference: the first entry of the path and the method. *)
Definition find_route (m p : string) (es : list (string * string * GatewayRoute)) : option GatewayRoute :=
  snd <$> List.find (is_entry m p) es.

Section answers.
Context {R E : Type} `{HM : !HttpRouter.Matchit R GatewayRoute E}.
Context {HL : HttpRouter.MatchitLaws R GatewayRoute E} {HS : StaticRoutes R GatewayRoute E}.
Context (parse_config : string → string + GatewayConfigData).

Abbreviation GatewayRouter := (HttpRouter.Router R GatewayRoute).

Definition add_entry (rt : GatewayRouter) (e : string * string * GatewayRoute) : GatewayRouter :=
  (HttpRouter.insert e.1.1 e.1.2 e.2 rt).2.

Lemma build_router_entries config : build_router config = fold_left add_entry (entries config) HttpRouter.new.
Proof.
  unfold build_router, entries. generalize (@HttpRouter.new R GatewayRoute).
  induction (gw_routes config) as [|[p ms] pms IH]; intros rt; [done|]. csimpl.
  rewrite fold_left_app, <- IH. f_equal. clear. revert rt.
  induction ms as [|[m r] ms IH]; intros rt; [done|]. csimpl. unfold add_route at 2. simpl.
  by destruct (config_method m).
Qed.

(** What the matcher of a method answers. *)
Definition answer (rt : GatewayRouter) (m p : string) : option (GatewayRoute * list (string * string)) :=
  HttpRouter.routes rt !! m ≫= m_at p.

Lemma at_answer rt m p :
  HttpRouter.at_ m p rt = match answer rt m p with
                          | Some x => inl x
                          | None => inr (if HttpRouter.other_method_matches m p rt
                                         then HttpRouter.MethodNotAllowed else HttpRouter.NotFound)
                          end.
Proof. done. Qed.

(** One more route in a matcher of static routes. *)
Lemma insert_step p q h (r : R) :
  static_path p = true → static_path q = true →
  (∀ x, m_at q r = Some x → x.2 = []) → (∀ x, m_at p r = Some x → x.2 = []) →
  m_at q (m_insert p h r).1 =
  match m_at q r with Some x => Some x | None => if String.eqb p q then Some (h, []) else None end.
Proof.
  intros Hp Hq Hlq Hlp. destruct (String.eqb_spec p q) as [->|Hne].
  - destruct (m_at q r) as [[h' ps]|] eqn:Hat.
    + pose proof (Hlq _ eq_refl) as Hps. simpl in Hps. subst ps.
      destruct (insert_twice q h h' r Hq Hat) as [e He].
      destruct (m_insert q h r) as [r' e'] eqn:Hi. simpl in *. subst e'.
      by rewrite (at_insert_failed _ _ _ _ _ q Hi).
    + pose proof (insert_fresh q h r Hq Hat) as He.
      destruct (m_insert q h r) as [r' e'] eqn:Hi. simpl in *. subst e'.
      by apply (at_insert_static _ _ _ _ Hq Hi).
  - destruct (m_at q r) as [[h' ps]|] eqn:Hat.
    + pose proof (Hlq _ eq_refl) as Hps. simpl in Hps. subst ps.
      destruct (m_insert p h r) as [r' [e|]] eqn:Hi; simpl.
      * by rewrite (at_insert_failed _ _ _ _ _ q Hi).
      * by apply (at_insert_other _ _ _ _ _ _ Hq Hne Hat Hi).
    + by apply at_insert_absent.
Qed.

Definition entry_ok (e : string * string * GatewayRoute) : Prop := static_path e.1.2 = true ∧ e.1.1 ≠ "HEAD".

(** The matchers answer as the list says. *)
Definition agrees (rt : GatewayRouter) (es : list (string * string * GatewayRoute)) : Prop :=
  ∀ m p, static_path p = true → answer rt m p = (λ r, (r, [])) <$> find_route m p es.

Lemma find_route_snoc m p es e :
  find_route m p (es ++ [e]) =
  match find_route m p es with Some r => Some r | None => if is_entry m p e then Some e.2 else None end.
Proof.
  unfold find_route. induction es as [|e' es IH]; simpl; [by destruct (is_entry m p e)|].
  by destruct (is_entry m p e').
Qed.

Lemma answer_default rt m p : answer rt m p = m_at p (default m_empty (HttpRouter.routes rt !! m)).
Proof. unfold answer. destruct (_ !! m); simpl; [done|]. by rewrite at_empty. Qed.

Lemma agrees_insert rt es m p q h :
  agrees rt es → static_path p = true → static_path q = true →
  m_at q (m_insert p h (default m_empty (HttpRouter.routes rt !! m))).1 =
  match answer rt m q with Some x => Some x | None => if String.eqb p q then Some (h, []) else None end.
Proof.
  intros Ha Hp Hq. assert (∀ q' x, static_path q' = true → answer rt m q' = Some x → x.2 = []) as He.
  { intros q' x Hq'. rewrite Ha by done. destruct (find_route m q' es); [|done]. by intros [= <-]. }
  rewrite insert_step; [by rewrite answer_default|done..| |]; intros x; rewrite <- answer_default; by apply He.
Qed.

Lemma agrees_add rt es e : agrees rt es → entry_ok e → agrees (add_entry rt e) (es ++ [e]).
Proof.
  intros Ha [Hp Hm] m q Hq. destruct e as [[me p] h]. simpl in *. rewrite find_route_snoc.
  assert (answer (add_entry rt (me, p, h)) m q =
    match answer rt m q with Some x => Some x | None => if is_entry m q (me, p, h) then Some (h, []) else None end) as ->.
  2: { rewrite Ha by done. destruct (find_route m q es); simpl; [done|]. by destruct (is_entry m q _). }
  pose proof (λ m, agrees_insert rt es m p q h Ha Hp Hq) as Hi.
  unfold add_entry, HttpRouter.insert, is_entry, as_get. simpl.
  pose proof (Hi me) as Hme. destruct (m_insert p h (default m_empty (HttpRouter.routes rt !! me))) as [r' [er|]] eqn:Hins.
  - simpl in Hme. unfold answer at 1. simpl. destruct (decide (m = me)) as [->|Hne].
    + rewrite lookup_insert_eq. simpl. rewrite Hme. destruct (String.eqb_spec me "HEAD"); [congruence|].
      by rewrite String.eqb_refl.
    + rewrite lookup_insert_ne by done. change (HttpRouter.routes rt !! m ≫= m_at q) with (answer rt m q).
      destruct (answer rt m q) eqn:Hans; [done|].
      destruct (String.eqb_spec m "HEAD") as [->|]; [|by destruct (String.eqb_spec me m); [congruence|]].
      destruct (String.eqb_spec me "GET") as [->|]; [|done].
      destruct (String.eqb_spec p q) as [->|]; [|done]. exfalso.
      rewrite Ha in Hans by done.
      assert (m_at q (default m_empty (HttpRouter.routes rt !! "GET")) = None) as Hnone.
      { rewrite <- answer_default, Ha by done. exact Hans. }
      pose proof (insert_fresh q h _ Hq Hnone) as Hf. by rewrite Hins in Hf.
  - unfold HttpRouter.GET, HttpRouter.HEAD. simpl in Hme. destruct (String.eqb_spec me "GET") as [->|Hget].
    + specialize (Hi "HEAD"). rewrite lookup_insert_ne by done.
      destruct (m_insert p h (default m_empty (HttpRouter.routes rt !! "HEAD"))) as [hd eh]. simpl in Hi.
      unfold answer at 1. simpl. destruct (decide (m = "HEAD")) as [->|Hne].
      * by rewrite lookup_insert_eq.
      * rewrite lookup_insert_ne by done. destruct (String.eqb_spec m "HEAD"); [congruence|].
        destruct (decide (m = "GET")) as [->|Hne2]; [by rewrite lookup_insert_eq|].
        rewrite lookup_insert_ne by done. change (HttpRouter.routes rt !! m ≫= m_at q) with (answer rt m q).
        destruct (answer rt m q); [done|]. by destruct (String.eqb_spec "GET" m); [congruence|].
    + unfold answer at 1. simpl. destruct (decide (m = me)) as [->|Hne].
      * rewrite lookup_insert_eq. destruct (String.eqb_spec me "HEAD"); [congruence|].
        by rewrite String.eqb_refl.
      * rewrite lookup_insert_ne by done. change (HttpRouter.routes rt !! m ≫= m_at q) with (answer rt m q).
        destruct (answer rt m q); [done|].
        destruct (String.eqb_spec m "HEAD"); [by destruct (String.eqb_spec me "GET")|].
        by destruct (String.eqb_spec me m); [congruence|].
Qed.

Lemma build_router_agrees config : Forall entry_ok (entries config) → agrees (build_router config) (entries config).
Proof.
  rewrite build_router_entries. induction (entries config) as [|e es IH] using rev_ind; intros Hok.
  - intros m p _. unfold answer. simpl. by rewrite lookup_empty.
  - apply Forall_app in Hok as [Hok He]. rewrite fold_left_app. simpl.
    apply agrees_add; [by apply IH|by inversion He].
Qed.

(** *** Reloading *)

(** The configuration a version of the file gives, if it loads. *)
Definition parsed (data : string + string) : option GatewayConfigData :=
  match data with
  | inr text => match parse_config text with inr c => Some c | inl _ => None end
  | inl _ => None
  end.

(** The configuration of the last version that loads. *)
Definition last_good (ds : list (string + string)) : GatewayConfigData :=
  default config_default (last (omap parsed ds)).

Definition state_of (config : GatewayConfigData) : GatewayState := mk_gateway_state config (build_router config).

Lemma load_config_parsed d :
  match load_config parse_config d with
  | inr (c, rt) => parsed d = Some c ∧ rt = build_router c
  | inl _ => parsed d = None
  end.
Proof. destruct d as [e|text]; [done|]. simpl. by destruct (parse_config text). Qed.

Lemma watch_last_good d ds :
  watch parse_config ds (gateway_new parse_config d) = state_of (last_good (d :: ds)).
Proof.
  assert (gateway_new parse_config d = state_of (last_good [d])) as ->.
  { unfold gateway_new, last_good. simpl. pose proof (load_config_parsed d) as Hd.
    destruct (load_config parse_config d) as [e|[c rt]]; [by rewrite Hd|]. destruct Hd as [-> ->]. done. }
  induction ds as [|d' ds IH] using rev_ind; [done|].
  unfold watch in *. rewrite fold_left_app, IH. simpl. unfold reload.
  pose proof (load_config_parsed d') as Hd. unfold last_good.
  rewrite app_comm_cons, omap_app. simpl.
  destruct (load_config parse_config d') as [e|[c rt]]; [by rewrite Hd, app_nil_r|].
  destruct Hd as [-> ->]. by rewrite last_snoc.
Qed.

(** The gateway follows its file.  After the file was loaded and then
    changed any number of times, a request whose method and path the last
    version that loads routes to an upstream, the first of them when it does so
    twice, is answered for that upstream, a HEAD request as a GET, and nothing
    behind the gateway sees it; every other request is passed on untouched.
    For routes without placeholders, that is. *)
Theorem gateway_follows_file {W} (state : W → GatewayState) d ds next req w :
  let config := last_good (d :: ds) in
  Forall (λ e, static_path e.1.2 = true) (entries config) → static_path (req_path req) = true →
  state w = watch parse_config ds (gateway_new parse_config d) →
  gateway_handle state next req w =
  match find_route (req_method req) (req_path req) (entries config) with
  | Some route => Ret (inl (proxied (upstream route)), w)
  | None => next req w
  end.
Proof.
  intros config Hall Hp Hw. unfold gateway_handle. rewrite Hw, watch_last_good, at_answer. simpl.
  rewrite build_router_agrees; [|apply Forall_forall|done].
  - by destruct (find_route _ _ _).
  - intros e He. rewrite Forall_forall in Hall. split; [by apply Hall|].
    unfold entries in He. apply list_elem_of_bind in He as (pm & He & _).
    apply list_elem_of_omap in He as (mr & _ & Hm). unfold config_method in Hm.
    destruct (existsb _ _) eqn:Hex; [|done]. simplify_eq/=. intros Hh. by rewrite Hh in Hex.
Qed.
End answers.

(** ** A configuration that changes *)

Module Examples.

Definition parse (text : string) : string + GatewayConfigData :=
  if String.eqb text "v1" then
    inr (mk_gateway_config [("/api", [("get", mk_gateway_route "http://a" None None None)])] None)
  else if String.eqb text "v2" then
    inr (mk_gateway_config [("/api", [("GET", mk_gateway_route "http://b" (Some 1%Z) None None);
                                       ("TRACE", mk_gateway_route "http://c" None None None)])] None)
  else inl "expected value".

Definition files : list (string + string) := [inr "v2"; inr "{"; inl "no such file"].

Definition state (n : nat) : @GatewayState (list (string * GatewayRoute)) :=
  watch parse files (gateway_new parse (inr "v1")).

Definition app : HandlerFn nat := λ _ n, Ret (inl (mk_response 200 [] "app"), S n).

Lemma gateway_follows_file_witness :
  gateway_handle state app (new_request "HEAD" "/api" None [] None) 0
  = Ret (inl (proxied "http://b"), 0) ∧
  gateway_handle state app (new_request "TRACE" "/api" None [] None) 0
  = Ret (inl (mk_response 200 [] "app"), 1).
Proof.
  split.
  - rewrite (gateway_follows_file parse state (inr "v1") files); [reflexivity| |reflexivity..].
    repeat constructor.
  - rewrite (gateway_follows_file parse state (inr "v1") files); [reflexivity| |reflexivity..].
    repeat constructor.
Defined.

(** Which of two spellings of a method wins is the order of the map. *)
Example spellings_clash :
  let a := ("get", mk_gateway_route "http://a" None None None) in
  let b := ("GET", mk_gateway_route "http://b" None None None) in
  let first l := upstream <$> find_route "GET" "/" (entries (mk_gateway_config [("/", l)] None)) in
  first [a; b] = Some "http://a" ∧ first [b; a] = Some "http://b".
Proof. split; reflexivity. Qed.

End Examples.
