(* ===== verification/Serve.v ===== *)
(** * Serve: the path of a request through the server

    [crates/justapi-core/src/server/handler_exec.rs], [sse_ws.rs] and the
    request handling of [server/mod.rs]: the built-in handlers, the handler made
    of a router, the static files behind it and [handle_request] around the
    whole chain.  The application's state is [A]; a handler of the application
    sees no other state.  The timers, GraphQL, the WebSocket key and the WASM
    engine are parameters: an optional part that is not compiled in or not
    configured is [None].  Of an upgraded connection only the answer to the
    upgrade is here; its session is in [WebSockets]. *)

From Stdlib Require Import Ascii.
From S2P Require Import Prelude F32 Text F64 Paths HttpRouter OpenAiHttp Http Middleware StaticFiles Metrics.
From S2P Require Import Health Memory Docs.

#[local] Open Scope Z_scope.

Section serve.
Context {R E A : Type}.

Inductive Handler :=
| HStatic (st : Z) (b : string)
| HEcho
| HParamsEcho
| HSse
| HHealth
| HReady
| HLive
| HPrometheus
| HOpenApiJson
| HSwaggerUi
| HRedoc
| HGraphQL
| HCustom (f : HandlerFn A).

(** What the handlers share: the router with its cache, the buffers, the
    counters and the application's own state. *)
Record World := mk_world {
  w_router : HttpRouter.Router R Handler;
  w_pool : BufferPool;
  w_metrics : Metrics A;
  w_app : A }.

Definition set_router (r : HttpRouter.Router R Handler) (w : World) : World :=
  mk_world r (w_pool w) (w_metrics w) (w_app w).
Definition set_pool (p : BufferPool) (w : World) : World :=
  mk_world (w_router w) p (w_metrics w) (w_app w).
Definition set_metrics (m : Metrics A) (w : World) : World :=
  mk_world (w_router w) (w_pool w) m (w_app w).
Definition set_app (a : A) (w : World) : World := mk_world (w_router w) (w_pool w) (w_metrics w) a.

(** An operation on the counters. *)
Definition count_steps (l : steps) (w : World) : World := set_metrics (run_steps l (w_metrics w)) w.

Context `{!HttpRouter.Matchit R Handler E} `{!SerdeJson} `{!ParseValue} {FS : FileSystem}.

(** [to_string_pretty]; the growth of a [Vec]; GraphQL over the application;
    the file clock. *)
Context (pretty : json → string) (grow : Z → Z → Z).
Context (graphql : option (Request → A → exec (outcome * A))).
Context (now : World → Z).

Definition is_success (st : Z) : bool := between 200 st 299.

(** ** Server-sent events *)

Definition sse_count_event (i : nat) : string :=
  "data: {" +:+ quote +:+ "n" +:+ quote +:+ ":" +:+ decimal (Z.of_nat i) +:+ "}" +:+ newline +:+ newline.

(** The spacing of the events does not show in the bytes. *)
Definition sse_stream_response (count : nat) : Response :=
  streaming_response 200 "text/event-stream" (join EmptyString (sse_count_event <$> seq 1 count)).

Definition sse_response : Response := sse_stream_response 10.

(** ** Handlers *)

Definition html_response (html : string) : Response :=
  mk_response 200 [("content-type"%string, "text/html; charset=utf-8"%string); content_length html] html.

(** A plain body without headers. *)
Definition plain_response (st : Z) (b : string) : Response := mk_response st [] b.

(** The bytes go through a buffer of the pool. *)
Definition echo (max_body_size : Z) (req : Request) (w : World) : Response * World :=
  match req_body req with
  | None => (error_response 400 "bad request", w)
  | Some b =>
      let n := Z.of_nat (String.length b) in
      if max_body_size <? n then (error_response 413 "payload too large", w)
      else
        let w := count_steps (add_bytes_in n) w in
        let '(buf, p) := acquire n (w_pool w) in
        let buf := extend grow b buf in
        (json_response 200 (from_utf8_lossy (vec_bytes buf)), set_pool (release buf p) w)
  end.

Definition params_echo (params : list (string * string)) : Response :=
  let pair kv := quote +:+ kv.1 +:+ quote +:+ ":" +:+ quote +:+ kv.2 +:+ quote in
  json_response 200 ("{" +:+ join "," (pair <$> params) +:+ "}").

(** A computation on the application's state alone. *)
Definition on_app (m : A → exec (outcome * A)) (w : World) : exec (outcome * World) :=
  '(o, a) ← m (w_app w); Ret (o, set_app a w).

Definition graphql_handler (req : Request) (w : World) : exec (outcome * World) :=
  match graphql with
  | None => Ret (inl (error_response 404 "GraphQL is not enabled"), w)
  | Some run =>
      '(o, w') ← on_app (run req) w;
      Ret (match o with inl r => inl r | inr e => inl (plain_response 500 ("GraphQL Error: " +:+ e)) end, w')
  end.

Definition execute_handler (health : HealthRegistry A) (openapi_spec : option string) (max_body_size : Z)
    (h : Handler) (params : list (string * string)) : HandlerFn World := λ req w,
  match h with
  | HStatic st b => Ret (inl (if is_success st then json_response st b else error_response st b), w)
  | HEcho => let '(r, w') := echo max_body_size req w in Ret (inl r, w')
  | HParamsEcho => Ret (inl (params_echo params), w)
  | HSse => Ret (inl sse_response, w)
  | HHealth => Ret (inl health_response, w)
  | HReady =>
      Ret (inl (if registry_is_empty health then ready_response else registry_response (w_app w) health), w)
  | HLive => Ret (inl live_response, w)
  | HPrometheus => Ret (inl (metrics_response (w_metrics w) (w_app w)), w)
  | HOpenApiJson =>
      Ret (inl (json_response 200 (default (pretty builtin_spec) openapi_spec)), w)
  | HSwaggerUi => Ret (inl (html_response swagger_ui_html), w)
  | HRedoc => Ret (inl (html_response redoc_html), w)
  | HGraphQL => graphql_handler req w
  | HCustom f => on_app (f (with_params params req)) w
  end.

(** The handler of a router. *)
Definition make_handler (health : HealthRegistry A) (openapi_spec : option string) (max_body_size : Z)
    : HandlerFn World := λ req w,
  let '(d, r) := HttpRouter.dispatch (req_method req) (req_path req) (w_router w) in
  let w := set_router r w in
  match d with
  | inl (h, params) => execute_handler health openapi_spec max_body_size h params req w
  | inr st =>
      Ret (inl (if Nat.eqb st 405 then error_response 405 "method not allowed"
                else error_response 404 "not found"), w)
  end.

(** ** Static files *)

Definition ok {X Y} (r : X + Y) : option X := match r with inl x => Some x | inr _ => None end.

Definition is_file_at (path : string) : bool :=
  match metadata path with Some m => is_file m | None => false end.

(** [path] lies under the prefix of the mount. *)
Definition under_prefix (m : StaticMount) (path : string) : bool :=
  String.eqb (prefix m) "/" || String.eqb path (prefix m)
  || starts_with (trim_end_with (Ascii.eqb "/") (prefix m) +:+ "/") path.

(** A mount ends the search ([Some]) or passes the path on. *)
Definition serve_mount (t : Z) (m : StaticMount) (path : string) : option (option Response) :=
  let serve file := Some (ok (serve_file t file)) in
  match mount_resolve m path with
  | Some file => if is_file_at file then serve file else None
  | None => None
  end
  ∪ match fallback m with
    | Some fb =>
        let file := path_join (root m) (trim_start_with (Ascii.eqb "/") fb) in
        if under_prefix m path && is_file_at file then serve file else None
    | None => None
    end.

Definition try_serve_static (t : Z) (path : string) (static_dir : option string) (mounts : list StaticMount)
    : option Response :=
  match foldr (λ m found, serve_mount t m path ∪ found) None mounts with
  | Some r => r
  | None =>
      dir ← static_dir;
      file ← StaticFiles.resolve dir path;
      if is_file_at file then ok (serve_file t file) else None
  end.

(** ** [handle_request] *)

Definition MAX_PATH_LENGTH : Z := 8192.
Definition MAX_HEADER_VALUE_LENGTH : Z := 8192.
Definition MAX_HEADER_COUNT : Z := 100.
Definition MAX_QUERY_LENGTH : Z := 2048.

Definition len (s : string) : Z := Z.of_nat (String.length s).

(** The first header with too long a value. *)
Definition long_header (hs : HeaderMap) : option string :=
  fst <$> List.find (λ h : string * string, MAX_HEADER_VALUE_LENGTH <? len h.2) hs.

(** The refusal of a request that is too large, before anything else runs. *)
Definition refuse (req : Request) : option Response :=
  if MAX_PATH_LENGTH <? len (req_path req) then
    Some (error_response 414 "request URI exceeds maximum length")
  else if match req_query req with Some q => MAX_QUERY_LENGTH <? len q | None => false end then
    Some (error_response 414 "query string exceeds maximum length")
  else if MAX_HEADER_COUNT <? Z.of_nat (length (req_headers req)) then
    Some (error_response 431 "too many request headers")
  else match long_header (req_headers req) with
       | Some name => Some (error_response 431 ("header '" +:+ name +:+ "' exceeds maximum value length"))
       | None => None
       end.

(** [ws] computes the accept key of a WebSocket upgrade. *)
Definition ws_upgrade (ws : option (string → string)) (req : Request) : option Response :=
  accept ← ws;
  upgrade ← header_str "upgrade" (req_headers req);
  if eq_ignore_case upgrade "websocket" then
    _ ← assoc_get "sec-websocket-key"%string (req_headers req);
    let key := default EmptyString (header_str "sec-websocket-key" (req_headers req)) in
    let r := json_response 101 EmptyString in
    Some (with_headers (header_insert "sec-websocket-accept" (default EmptyString (header_value (accept key)))
                          ∘ header_insert "connection" "upgrade" ∘ header_insert "upgrade" "websocket") r)
  else None.

(** The request as the WASM middleware sees it. *)
Definition wasm_request (req : Request) : json :=
  let hdrs := foldl (λ m (h : string * string), if visible h.2 then assoc_set h.1 (JString h.2) m else m) []
                (req_headers req) in
  JObject [("path"%string, JString (req_path req)); ("method"%string, JString (req_method req));
           ("headers"%string, JObject hdrs)].

Definition as_u64 (j : json) : option Z :=
  match j with JNumber (IntNumber n) => if (0 <=? n) && (n <=? u64_max) then Some n else None | _ => None end.

(** [StatusCode::from_u16(code as u16).unwrap_or(FORBIDDEN)] *)
Definition status_from (code : Z) : Z :=
  let c := code mod 2 ^ 16 in if (100 <=? c) && (c <=? 999) then c else 403.

(** The answer of the WASM middleware, when it does not let the request pass. *)
Definition wasm_verdict (res : string + string) : option Response :=
  match res with
  | inr text =>
      parsed ← parse_value text;
      status ← json_get "status" parsed;
      code ← as_u64 status;
      if code =? 200 then None
      else
        let b := default EmptyString (json_get "body" parsed ≫= as_str) in
        Some (json_response (status_from code) b)
  | inl _ => None
  end.

(** The parts a server passes to [handle_request].  [timeout] tells of a chain
    that is still running when the time of a request is over, and how it left
    the world; [elapsed_ms] is the time a request has taken. *)
Context (timeout : Request → World → option World) (elapsed_ms : Request → World → f64).

Record Frontend := mk_frontend {
  fe_chain : MiddlewareChain World;
  fe_static_dir : option string;
  fe_static_mounts : list StaticMount;
  fe_wasm : option (string → string + string);
  fe_ws : option (string → string) }.

(** Status and latency of an answer, in the order of the code. *)
Definition record_answer (req : Request) (st : Z) (w : World) : World :=
  count_steps (record_latency (elapsed_ms req w)) (count_steps (record_status st) w).

Definition run_chain (fe : Frontend) (req : Request) (w : World) : exec (Response * World) :=
  match timeout req w with
  | Some w' => Ret (error_response 504 "request timeout", record_answer req 504 w')
  | None =>
      '(o, w') ← chain_run (fe_chain fe) req w;
      match o with
      | inl r =>
          let w' := record_answer req (status r) w' in
          Ret (if status r =? 404
               then default r (try_serve_static (now w') (req_path req) (fe_static_dir fe) (fe_static_mounts fe))
               else r, w')
      | inr _ => Ret (error_response 500 "internal server error", record_answer req 500 w')
      end
  end.

Definition run_wasm (fe : Frontend) (req : Request) : option Response :=
  wasm ← fe_wasm fe; wasm_verdict (wasm (json_to_string (wasm_request req))).

Definition handle_request (fe : Frontend) (peer : option string) (req : Request) (w : World)
    : exec (Response * World) :=
  match refuse req with
  | Some r => Ret (r, w)
  | None =>
      let req := with_peer peer req in
      let w := count_steps record_request w in
      match ws_upgrade (fe_ws fe) req with
      | Some r => Ret (r, w)
      | None =>
          match run_wasm fe req with
          | Some r => Ret (r, record_answer req (status r) w)
          | None => run_chain fe req w
          end
      end
  end.
End serve.

Arguments Handler : clear implicits.
Arguments World : clear implicits.
Arguments Frontend : clear implicits.

(** ** The account of the counters *)

Section account.
Context {R E A : Type} `{!HttpRouter.Matchit R (Handler A) E} `{!SerdeJson} `{!ParseValue} {FS : FileSystem}.
Context (now : World R A → Z) (timeout : Request → World R A → option (World R A)).
Context (elapsed_ms : Request → World R A → f64).
Implicit Types (w : World R A) (m : Metrics A) (fe : Frontend R A).

(** The counters of bytes received apart, [m'] is [m]. *)
Definition only_bytes m m' : Prop :=
  ∃ l : steps, Forall (λ s, s.1 = BytesIn) l ∧ m' = run_steps l m.

(** The handler counts nothing but received bytes. *)
Definition quiet_handler (h : HandlerFn (World R A)) : Prop :=
  ∀ req w o w', h req w = Ret (o, w') → only_bytes (w_metrics w) (w_metrics w').

(** So do the chain and what is left of it when its time is over. *)
Definition quiet fe : Prop :=
  quiet_handler (chain_run (fe_chain fe)) ∧
  ∀ req w w', timeout req w = Some w' → only_bytes (w_metrics w) (w_metrics w').

(** The requests of a run, in the order they are answered. *)
Fixpoint serve_all fe (reqs : list (option string * Request)) w : exec (list Response * World R A) :=
  match reqs with
  | [] => Ret ([], w)
  | (peer, req) :: reqs' =>
      '(r, w1) ← handle_request now timeout elapsed_ms fe peer req w;
      '(rs, w2) ← serve_all fe reqs' w1;
      Ret (r :: rs, w2)
  end.

Definition in_class (c st : Z) : bool := st / 100 =? c.

(** [n] requests were admitted and these statuses recorded. *)
Definition statuses m (n : nat) (sts : list Z) : Prop :=
  requests_total m = Z.of_nat n ∧
  status_2xx m = Z.of_nat (count (in_class 2) sts) ∧ status_3xx m = Z.of_nat (count (in_class 3) sts) ∧
  status_4xx m = Z.of_nat (count (in_class 4) sts) ∧ status_5xx m = Z.of_nat (count (in_class 5) sts) ∧
  errors_total m = 0 ∧ bytes_out m = 0.

(** And a latency with each. *)
Definition tally m (n : nat) (sts : list Z) : Prop :=
  statuses m n sts ∧ hist_count (latency m) = Z.of_nat (length sts).

Lemma tally_bytes m m' n sts : only_bytes m m' → tally m n sts → tally m' n sts.
Proof.
  intros (l & Hl & ->). revert m. induction Hl as [|[c k] l Hc _ IH]; intros m Hm; [done|].
  simpl in Hc. subst c. apply IH. by destruct m as [? ? ? ? ? ? ? ? ? [? ? ?] ?].
Qed.

Lemma tally_request m n sts :
  Z.of_nat (S n) <= u64_max → tally m n sts → tally (run_steps record_request m) (S n) sts.
Proof.
  intros Hn. destruct m as [? ? ? ? ? ? ? ? ? [? ? ?] ?]. unfold tally, statuses. simpl.
  intros [(-> & ?) ?]. split; [split; [rewrite wadd64_small; lia|done]|done].
Qed.

Lemma count_snoc {X} (f : X → bool) l x : count f (l ++ [x]) = (count f l + bnat (f x))%nat.
Proof. rewrite count_app. simpl. lia. Qed.

Lemma between_class c st : between (100 * c) st (100 * c + 99) = in_class c st.
Proof.
  unfold between, in_class. apply eq_bool_prop_intro. rewrite andb_True, !Is_true_true, !Z.leb_le, Z.eqb_eq.
  pose proof (Z_div_mod_eq_full st 100). pose proof (Z.mod_pos_bound st 100). lia.
Qed.

(** The counters a status adds to. *)
Lemma record_status_class st :
  record_status st =
    (if in_class 2 st then [(Status2, 1)] else if in_class 3 st then [(Status3, 1)]
     else if in_class 4 st then [(Status4, 1)] else if in_class 5 st then [(Status5, 1)] else []).
Proof. unfold record_status. by rewrite <- !between_class. Qed.

Lemma record_status_statuses m n sts st :
  Z.of_nat (S (length sts)) <= u64_max → statuses m n sts →
  statuses (run_steps (record_status st) m) n (sts ++ [st]) ∧
  hist_count (latency (run_steps (record_status st) m)) = hist_count (latency m).
Proof.
  intros Hl. assert (∀ c, wadd64 (Z.of_nat (count (in_class c) sts)) 1 = Z.of_nat (count (in_class c) sts + 1)) as Hadd.
  { intros c. pose proof (count_le_length (in_class c) sts). rewrite wadd64_small; lia. }
  rewrite record_status_class. unfold statuses. rewrite !count_snoc.
  change (in_class 2 st) with (st / 100 =? 2). change (in_class 3 st) with (st / 100 =? 3).
  change (in_class 4 st) with (st / 100 =? 4). change (in_class 5 st) with (st / 100 =? 5).
  generalize (st / 100). intros q. destruct m as [? ? ? ? ? ? ? ? ? [? ? ?] ?].
  simpl. intros (-> & -> & -> & -> & -> & -> & ->).
  destruct (Z.eqb_spec q 2), (Z.eqb_spec q 3), (Z.eqb_spec q 4), (Z.eqb_spec q 5); try lia; simpl;
    rewrite ?Nat.add_0_r, ?Hadd; tauto.
Qed.

Lemma record_latency_statuses m n sts ms :
  statuses m n sts → statuses (run_steps (record_latency ms) m) n sts.
Proof.
  unfold record_latency. generalize (micros ms). intros us.
  destruct m as [? ? ? ? ? ? ? ? ? [? ? ?] ?], (bucket_of _ _); done.
Qed.

Lemma tally_answer m n sts st ms :
  Z.of_nat (S (length sts)) <= u64_max → tally m n sts →
  tally (run_steps (record_latency ms) (run_steps (record_status st) m)) n (sts ++ [st]).
Proof.
  intros Hl [Hs Hk]. destruct (record_status_statuses m n sts st Hl Hs) as [Hs' Hk'].
  split; [by apply record_latency_statuses|].
  destruct (record_latency_hist ms (run_steps (record_status st) m)) as [-> _].
  rewrite Hk', Hk, length_app. simpl. rewrite wadd64_small; lia.
Qed.
Lemma record_answer_tally req st w n sts :
  Z.of_nat (S (length sts)) <= u64_max → tally (w_metrics w) n sts →
  tally (w_metrics (record_answer elapsed_ms req st w)) n (sts ++ [st]).
Proof. apply tally_answer. Qed.

(** A mount and a directory answer with a file. *)
Lemma try_serve_static_200 t path dir mounts r : try_serve_static t path dir mounts = Some r → status r = 200.
Proof.
  assert (∀ file, is_file_at file = true → ∀ r, ok (serve_file t file) = Some r → status r = 200) as Hfile.
  { intros file Hf r'. unfold is_file_at, serve_file in *. destruct (metadata file) as [m|]; [|done].
    rewrite Hf. by intros [= <-]. }
  assert (∀ (m : StaticMount) r, serve_mount t m path = Some (Some r) → status r = 200) as Hmount.
  { intros m r'. unfold serve_mount.
    assert (∀ o : option (option Response), (match fallback m with
              | Some fb => if under_prefix m path && is_file_at (path_join (root m) (trim_start_with (Ascii.eqb "/") fb))
                           then Some (ok (serve_file t (path_join (root m) (trim_start_with (Ascii.eqb "/") fb)))) else None
              | None => None end) = o → o = Some (Some r') → status r' = 200) as Hfb.
    { intros o <-. destruct (fallback m) as [fb|]; [|done].
      destruct (under_prefix m path); [|done]. destruct (is_file_at _) eqn:Hf; [|done].
      cbn [andb]. intros [= Hr]. by eapply Hfile. }
    destruct (mount_resolve m path) as [file|]; [|rewrite (left_id_L None (∪)); by apply Hfb].
    destruct (is_file_at file) eqn:Hf; [|rewrite (left_id_L None (∪)); by apply Hfb].
    match goal with |- ?a ∪ ?y = _ → _ => assert (a ∪ y = a) as -> by by destruct y end.
    intros [= Hr]. by eapply Hfile. }
  unfold try_serve_static. destruct (foldr _ None mounts) as [o|] eqn:Hm.
  - intros ->. revert Hm. induction mounts as [|m ms IH]; simpl; [done|].
    destruct (serve_mount t m path) as [o|] eqn:Hs; [|by rewrite (left_id_L None (∪))].
    match goal with |- ?a ∪ ?y = _ → _ => assert (a ∪ y = a) as -> by by destruct y end. intros [= ->]. by eapply Hmount.
  - destruct dir as [d|]; [|done]. cbn [mbind option_bind]. destruct (StaticFiles.resolve d path) as [file|]; [|done].
    cbn [mbind option_bind]. destruct (is_file_at file) eqn:Hf; [|done]. by apply Hfile.
Qed.

(** The status recorded for a request that is answered [r]: that of the answer, or the 404 of the
    application where a static file took its place. *)
Definition recorded fe (req : Request) (r : Response) (st : Z) : Prop :=
  st = status r ∨
  (st = 404 ∧ status r = 200 ∧
   ∃ w, try_serve_static (now w) (req_path req) (fe_static_dir fe) (fe_static_mounts fe) = Some r).

Lemma run_chain_tally fe req w r w' n sts :
  quiet fe → Z.of_nat (S (length sts)) <= u64_max → tally (w_metrics w) n sts →
  run_chain now timeout elapsed_ms fe req w = Ret (r, w') →
  ∃ st, recorded fe req r st ∧ tally (w_metrics w') n (sts ++ [st]).
Proof.
  intros [Hchain Hlate] Hl Ht. unfold run_chain. destruct (timeout req w) as [w1|] eqn:Hto.
  - intros [= <- <-]. exists 504. split; [by left|].
    apply record_answer_tally; [done|]. by eapply tally_bytes; [eapply Hlate|].
  - destruct (chain_run (fe_chain fe) req w) as [[[r1|e] w1]|] eqn:Hrun; [..|done];
      apply Hchain in Hrun; apply (tally_bytes _ _ _ _ Hrun) in Ht; simpl; intros [= <- <-].
    + exists (status r1). split; [|by apply record_answer_tally].
      destruct (Z.eqb_spec (status r1) 404) as [H4|]; [|by left]. rewrite H4.
      destruct (try_serve_static _ _ _ _) as [r2|] eqn:Hst; simpl; [|left; by rewrite H4].
      right. split; [done|]. split; [by eapply try_serve_static_200|]. by eexists.
    + exists 500. split; [by left|by apply record_answer_tally].
Qed.

(** A request is refused, upgraded or answered. *)
Lemma handle_request_tally fe peer req w r w' n sts :
  quiet fe → (length sts <= n)%nat → Z.of_nat (S n) <= u64_max → tally (w_metrics w) n sts →
  handle_request now timeout elapsed_ms fe peer req w = Ret (r, w') →
  (refuse req = Some r ∧ w' = w) ∨
  (refuse req = None ∧ ws_upgrade (fe_ws fe) req = Some r ∧ tally (w_metrics w') (S n) sts) ∨
  (refuse req = None ∧ ws_upgrade (fe_ws fe) req = None ∧
     ∃ st, recorded fe req r st ∧ tally (w_metrics w') (S n) (sts ++ [st])).
Proof.
  intros Hq Hlen Hn Ht. unfold handle_request. destruct (refuse req) as [r0|]; [intros [= <- <-]; by left|].
  apply (tally_request _ _ _ Hn) in Ht. change (ws_upgrade ?ws (with_peer peer req)) with (ws_upgrade ws req).
  intros Hrun. right. destruct (ws_upgrade (fe_ws fe) req) as [r0|]; [injection Hrun as <- <-; by left|].
  right. split; [done|]. split; [done|].
  destruct (run_wasm fe (with_peer peer req)) as [r0|].
  - injection Hrun as <- <-. exists (status r0). split; [by left|]. apply record_answer_tally; [lia|done].
  - destruct (run_chain_tally fe _ (count_steps record_request w) _ _ (S n) sts Hq ltac:(lia) Ht Hrun) as (st & Hst & Hk). by exists st.
Qed.

(** The requests of a run that are counted, and those of them that upgrade. *)
Definition admitted (reqs : list (option string * Request)) : list (option string * Request) :=
  filter (λ q, refuse q.2 = None) reqs.

Definition upgraded fe (reqs : list (option string * Request)) : list (option string * Request) :=
  filter (λ q, is_Some (ws_upgrade (fe_ws fe) q.2)) (admitted reqs).

(** The requests of a run that are neither refused nor upgraded, with their answers. *)
Definition answered fe (qrs : list (option string * Request * Response)) : list (option string * Request * Response) :=
  filter (λ qr, refuse qr.1.2 = None ∧ ws_upgrade (fe_ws fe) qr.1.2 = None) qrs.

Lemma serve_all_tally fe reqs w rs w' n sts :
  quiet fe → (length sts <= n)%nat → Z.of_nat (n + length reqs) <= u64_max → tally (w_metrics w) n sts →
  serve_all fe reqs w = Ret (rs, w') →
  ∃ new, tally (w_metrics w') (n + length (admitted reqs)) (sts ++ new) ∧
    (length new + length (upgraded fe reqs) = length (admitted reqs))%nat ∧
    length rs = length reqs ∧ Forall2 (λ qr st, recorded fe qr.1.2 qr.2 st) (answered fe (zip reqs rs)) new.
Proof.
  intros Hq. unfold upgraded, admitted, answered.
  revert w rs n sts. induction reqs as [|[peer req] reqs IH]; intros w rs n sts Hlen Hn Ht; simpl.
  - intros [= <- <-]. exists []. rewrite app_nil_r, Nat.add_0_r. split; [done|]. by split_and!.
  - intros ([r w1] & Hr & Hrest)%bind_Ret_inv.
    apply bind_Ret_inv in Hrest as ([rs' w2] & Hrs & [= <- <-]). simpl in Hn.
    apply (handle_request_tally _ _ _ _ _ _ n sts) in Hr; [|done|done|lia|done]. cbn [zip_with].
    rewrite !filter_cons. destruct Hr as [[Href ->]|[(Href & Hws & Ht1)|(Href & Hws & st & Hst & Ht1)]].
    + rewrite !decide_False by (simpl; naive_solver congruence).
      destruct (IH w rs' n sts) as (new & Hnew & Hl & Hlen' & Hf); [done|lia|done..|].
      exists new. split_and!; [done..|simpl; lia|done].
    + rewrite decide_True by done. rewrite filter_cons, decide_True by (simpl; rewrite Hws; eauto).
      rewrite decide_False by (simpl; rewrite Hws; naive_solver).
      destruct (IH w1 rs' (S n) sts) as (new & Hnew & Hl & Hlen' & Hf); [lia|lia|done..|].
      exists new. simpl. split_and!; [by rewrite Nat.add_succ_r|lia|lia|done].
    + rewrite decide_True by done. rewrite filter_cons, decide_False by (simpl; rewrite Hws; by intros [? ?]).
      rewrite decide_True by (by split).
      destruct (IH w1 rs' (S n) (sts ++ [st])) as (new & Hnew & Hl & Hlen' & Hf); [rewrite length_app; simpl; lia|lia|done..|].
      exists (st :: new). simpl. rewrite <- app_assoc in Hnew. split_and!; [by rewrite Nat.add_succ_r|lia|lia|by constructor].
Qed.

(** C17: The counters account for the requests.  However many requests a new
    server handled (fewer than 2^64), with a chain that counts nothing but
    received bytes: the requests counted are those within the limits; for each
    of them that is not an upgrade there is one latency and, in the order of the
    requests, one status, which is that of its own answer, or 404 where its
    answer is a static file that stands in for it; the class counters are the
    numbers of these statuses; and no error and no sent byte is ever counted. *)
Theorem requests_accounted fe reqs w rs w' :
  quiet fe → tally (w_metrics w) 0 [] → Z.of_nat (length reqs) <= u64_max →
  serve_all fe reqs w = Ret (rs, w') →
  ∃ sts, let m := w_metrics w' in
    requests_total m = Z.of_nat (length (admitted reqs)) ∧
    hist_count (latency m) = Z.of_nat (length (admitted reqs)) - Z.of_nat (length (upgraded fe reqs)) ∧
    hist_count (latency m) = Z.of_nat (length sts) ∧
    length rs = length reqs ∧ Forall2 (λ qr st, recorded fe qr.1.2 qr.2 st) (answered fe (zip reqs rs)) sts ∧
    status_2xx m = Z.of_nat (count (in_class 2) sts) ∧ status_3xx m = Z.of_nat (count (in_class 3) sts) ∧
    status_4xx m = Z.of_nat (count (in_class 4) sts) ∧ status_5xx m = Z.of_nat (count (in_class 5) sts) ∧
    errors_total m = 0 ∧ bytes_out m = 0.
Proof.
  intros Hq Ht Hl Hrun.
  destruct (serve_all_tally fe reqs w rs w' 0 [] Hq (le_n _) Hl Ht Hrun)
    as (sts & [(Hr & H2x & H3x & H4x & H5x & He & Hb) Hk] & Hlen & Hlen' & Hf).
  rewrite !app_nil_l in *. exists sts. split_and!; try done. rewrite Hk. lia.
Qed.

(** ** Chains that count nothing but received bytes *)

Lemma only_bytes_refl m : only_bytes m m.
Proof. exists []. split; [constructor|done]. Qed.

Lemma on_app_quiet (g : Request → A → exec (outcome * A)) : quiet_handler (λ req, on_app (g req)).
Proof.
  intros req w o w'. unfold on_app. intros ([o1 a] & _ & [= <- <-])%bind_Ret_inv. apply only_bytes_refl.
Qed.

Lemma make_handler_quiet pretty grow graphql health spec max :
  quiet_handler (make_handler (E := E) pretty grow graphql health spec max).
Proof.
  intros req w o w'. unfold make_handler. destruct (HttpRouter.dispatch _ _ _) as [d r].
  destruct d as [[h params]|st]; [|intros [= <- <-]; apply only_bytes_refl].
  change (w_metrics w) with (w_metrics (set_router r w)). generalize (set_router r w). clear w. intros w.
  destruct h; simpl; try (intros [= <- <-]; apply only_bytes_refl).
  - unfold echo. destruct (req_body req) as [b|]; [|intros [= <- <-]; apply only_bytes_refl].
    destruct (max <? _); [intros [= <- <-]; apply only_bytes_refl|]. destruct (acquire _ _) as [buf p].
    intros [= <- <-]. exists (add_bytes_in (Z.of_nat (String.length b))). split; [by repeat constructor|done].
  - unfold graphql_handler. destruct graphql as [run|]; [|intros [= <- <-]; apply only_bytes_refl].
    intros ([o1 w1] & Hw & [= <- <-])%bind_Ret_inv. by apply (on_app_quiet run) in Hw.
  - apply (on_app_quiet (λ req, f (with_params params req))).
Qed.

Definition keeps_quiet (mw : Middleware (World R A)) : Prop :=
  ∀ next, quiet_handler next → quiet_handler (mw next).

Lemma chain_quiet ms h : Forall keeps_quiet ms → quiet_handler h → quiet_handler (chain_run (mk_chain ms h)).
Proof. rewrite chain_run_eq. simpl. induction 1 as [|mw ms Hmw _ IH]; simpl; auto. Qed.

Lemma jwt_keeps_quiet `{!JsonWebToken (World R A)} a : keeps_quiet (jwt_handle a).
Proof.
  intros next Hn req w o w'. destruct (jwt_handle_cases a req w) as [(req' & _ & ->)|(st & msg & _ & ->)].
  - apply Hn.
  - intros [= <- <-]. apply only_bytes_refl.
Qed.

(** ** Errors stay inside *)

(** A result without the text of its error. *)
Definition blind (m : exec (outcome * World R A)) : exec (outcome * World R A) :=
  match m with Ret (inr _, w) => Ret (inr EmptyString, w) | _ => m end.

Definition with_chain (c : MiddlewareChain (World R A)) fe : Frontend R A :=
  mk_frontend c (fe_static_dir fe) (fe_static_mounts fe) (fe_wasm fe) (fe_ws fe).

(** C5: The text of an error stays inside.  If two chains agree on every
    request but for the text of the errors they fail with, no client can tell
    the servers apart: they answer every request alike, with the same counters
    and the same effects. *)
Theorem errors_stay_inside fe c peer req w :
  (∀ req w, blind (chain_run (fe_chain fe) req w) = blind (chain_run c req w)) →
  handle_request now timeout elapsed_ms fe peer req w =
  handle_request now timeout elapsed_ms (with_chain c fe) peer req w.
Proof.
  intros Hc. unfold handle_request, run_chain, run_wasm. simpl.
  destruct (refuse req); [done|]. destruct (ws_upgrade _ _); [done|].
  destruct (fe_wasm fe ≫= _); [done|]. destruct (timeout _ _); [done|].
  specialize (Hc (with_peer peer req) (count_steps record_request w)).
  destruct (chain_run (fe_chain fe) _ _) as [[[r|e] w1]|], (chain_run c _ _) as [[[r'|e'] w1']|];
    simpl in Hc; by simplify_eq.
Qed.

(** ** Limits *)

Definition within_limits (req : Request) : Prop :=
  len (req_path req) <= 8192 ∧ (∀ q, req_query req = Some q → len q <= 2048) ∧
  Z.of_nat (length (req_headers req)) <= 100 ∧ Forall (λ h : string * string, len h.2 <= 8192) (req_headers req).

Lemma refuse_spec req :
  (refuse req = None ↔ within_limits req) ∧ ∀ r, refuse req = Some r → status r ∈ [414; 431].
Proof.
  unfold refuse, within_limits, MAX_PATH_LENGTH, MAX_QUERY_LENGTH, MAX_HEADER_COUNT, long_header.
  destruct (Z.ltb_spec 8192 (len (req_path req))); [split; [split; [done|lia]|intros r [= <-]; set_solver]|].
  assert ((∀ q, req_query req = Some q → len q <= 2048) ↔
    match req_query req with Some q => 2048 <? len q | None => false end = false) as ->.
  { destruct (req_query req) as [q|]; [|by split]. rewrite Z.ltb_ge. naive_solver. }
  destruct (match req_query req with Some q => _ | None => _ end); [split; [naive_solver|intros r [= <-]; set_solver]|].
  destruct (Z.ltb_spec 100 (Z.of_nat (length (req_headers req)))); [split; [split; [done|lia]|intros r [= <-]; set_solver]|].
  destruct (List.find _ _) as [h|] eqn:Hf; simpl.
  - split; [|intros r [= <-]; set_solver]. split; [done|]. intros (_ & _ & _ & Hall).
    apply find_some in Hf as [Hin%list_elem_of_In Hlt%Z.ltb_lt]. rewrite Forall_forall in Hall.
    specialize (Hall h Hin). unfold MAX_HEADER_VALUE_LENGTH in Hlt. lia.
  - split; [|done]. split; [|done]. intros _. split; [done|]. split; [done|]. split; [done|].
    apply Forall_forall. intros h Hh. apply list_elem_of_In in Hh. apply (find_none _ _ Hf) in Hh.
    by apply Z.ltb_ge in Hh.
Qed.

(** A request that is too large touches nothing.  It is refused exactly
    when its path, its query, one of its headers or their number is over the
    limit, with 414 or 431; no middleware, no handler and no counter sees it. *)
Theorem oversized_untouched fe peer req w :
  (¬ within_limits req →
     ∃ r, handle_request now timeout elapsed_ms fe peer req w = Ret (r, w) ∧ status r ∈ [414; 431]) ∧
  (within_limits req → refuse req = None).
Proof.
  destruct (refuse_spec req) as [Hn Hs]. split; [|apply Hn]. intros Hl. unfold handle_request.
  destruct (refuse req) as [r|]; [|by destruct Hl; apply Hn]. exists r. split; [done|by apply Hs].
Qed.
End account.

(** ** Echoes go through the pool *)

Lemma echo_returns_body {R A} `{!SerdeJson} n grow max (req : Request) (w : World R A) b :
  reachable n (w_pool w) → req_body req = Some b → Z.of_nat (String.length b) <= max →
  (echo grow max req w).1 = json_response 200 (from_utf8_lossy b) ∧
  reachable n (w_pool (echo grow max req w).2).
Proof.
  intros Hp Hb Hl. unfold echo. rewrite Hb. destruct (Z.ltb_spec max (Z.of_nat (String.length b))); [lia|].
  pose proof (reach_acquire n (w_pool w) (Z.of_nat (String.length b)) Hp) as Hr.
  pose proof (acquire_empty n (w_pool w) (Z.of_nat (String.length b)) Hp) as He.
  change (w_pool (count_steps _ w)) with (w_pool w). destruct (acquire _ _) as [buf p]. simpl in *.
  split; [|by apply reach_release]. unfold extend. simpl. by rewrite He.
Qed.

(** ** Concrete requests *)

Module Examples.

#[local] Instance serde : SerdeJson := {|
  json_to_string j := match json_get "detail" j ≫= as_str with Some d => d | None => "{}"%string end |}.
#[local] Instance values : ParseValue := {| parse_value _ := None |}.
#[local] Instance no_files : FileSystem := {| metadata _ := None; canonicalize _ := None |}.

Abbreviation Table := (list (string * Handler Z)).

(** [POST /add] counts in the application's state; [GET /fail] fails. *)
Definition ex_router : HttpRouter.Router Table (Handler Z) :=
  (HttpRouter.insert "GET" "/hello" (HStatic 200 "hi")
    (HttpRouter.insert "POST" "/add" (HCustom (λ _ n, Ret (inl (json_response 201 (decimal (n + 1))), n + 1)))
      (HttpRouter.insert "GET" "/fail" (HCustom (λ _ n, Ret (inr "secret"%string, n)))
        HttpRouter.new).2).2).2.

Definition ex_world : World Table Z := mk_world ex_router pool_new metrics_new 0.

Definition ex_handler : HandlerFn (World Table Z) :=
  make_handler (λ _, EmptyString) (λ _ n, n) None registry_new None 1000.

Definition ex_frontend (h : HandlerFn (World Table Z)) : Frontend Table Z :=
  mk_frontend (chain_new h) None [] None (Some (λ k, k)).

Definition get (path : string) (hs : HeaderMap) : option string * Request :=
  (Some "10.0.0.1"%string, new_request "GET" path None hs None).

Definition ex_requests : list (option string * Request) :=
  [get "/hello" []; (None, new_request "POST" "/add" None [] (Some "x"%string)); get "/fail" []; get "/none" [];
   get "/hello" (replicate 101 ("a", "b")%string);
   get "/ws" [("upgrade", "WebSocket")%string; ("sec-websocket-key", "k")%string]].

Definition ex_run (h : HandlerFn (World Table Z)) : exec (list Response * World Table Z) :=
  serve_all (λ _, 0) (λ _ _, None) (λ _ w, f64_of_Z (w_app w)) (ex_frontend h) ex_requests ex_world.

Example ex_statuses :
  match ex_run ex_handler with
  | Ret (rs, w) => map status rs = [200; 201; 500; 404; 431; 101] ∧ requests_total (w_metrics w) = 5 ∧
                   hist_count (latency (w_metrics w)) = 4
  | Panic => False
  end.
Proof. vm_compute. auto. Qed.

(** The limiter by address sees the address of no client: what the server
    stores with a request is not what the limiter looks up. *)
Example peers_share_a_bucket peer method path query hs b :
  client_ip (with_peer peer (new_request method path query hs b)) = "unknown"%string.
Proof. reflexivity. Qed.

(** A path parameter is not escaped in the echoed object. *)
Example params_injected :
  body (params_echo [("rest"%string, "a" +:+ quote +:+ "," +:+ quote +:+ "admin" +:+ quote +:+ ":" +:+ quote +:+ "1")]%string)
  = ("{" +:+ quote +:+ "rest" +:+ quote +:+ ":" +:+ quote +:+ "a" +:+ quote +:+ ","
     +:+ quote +:+ "admin" +:+ quote +:+ ":" +:+ quote +:+ "1" +:+ quote +:+ "}")%string.
Proof. vm_compute. reflexivity. Qed.

Lemma requests_accounted_witness :
  ∃ rs w', ex_run ex_handler = Ret (rs, w') ∧ requests_total (w_metrics w') = 5 ∧
    hist_count (latency (w_metrics w')) = 4 ∧ errors_total (w_metrics w') = 0.
Proof.
  assert (match ex_run ex_handler with Ret _ => True | Panic => False end) as Hok by (vm_compute; exact I).
  destruct (ex_run ex_handler) as [[rs w']|] eqn:Hrun; [|destruct Hok].
  exists rs, w'. split; [reflexivity|].
  destruct (requests_accounted (λ _, 0) (λ _ _, None) (λ _ w, f64_of_Z (w_app w))
    (ex_frontend ex_handler) ex_requests ex_world rs w') as (sts & Hr & Hk & _ & _ & _ & _ & _ & _ & _ & He & _).
  - split; [|discriminate]. intros req w o w1. unfold ex_frontend, chain_run. simpl.
    apply make_handler_quiet.
  - repeat split.
  - vm_compute. discriminate.
  - exact Hrun.
  - rewrite Hr, Hk. split; [vm_compute; reflexivity|]. split; [vm_compute; reflexivity|exact He].
Defined.

Lemma errors_stay_inside_witness :
  handle_request (λ _ : World Table Z, 0) (λ _ _, None) (λ _ _, f64_zero)
    (ex_frontend (λ _ w, Ret (inr "password of db: x"%string, w))) None (get "/" []).2 ex_world =
  handle_request (λ _, 0) (λ _ _, None) (λ _ _, f64_zero)
    (ex_frontend (λ _ w, Ret (inr "refused"%string, w))) None (get "/" []).2 ex_world.
Proof.
  apply (errors_stay_inside (λ _, 0) (λ _ _, None) (λ _ _, f64_zero)
    (ex_frontend (λ _ w, Ret (inr "password of db: x"%string, w)))
    (chain_new (λ _ w, Ret (inr "refused"%string, w)))).
  intros req w. reflexivity.
Defined.

End Examples.
