(* ===== verification/Server.v ===== *)
(** * Server: the builder and the life of a server

    [crates/justapi-core/src/server/mod.rs] and [plugin.rs]: the [Server] and
    its methods, the plugins around a run, and [serve].  The accept loop inside
    a run is a parameter here; [Connections] models it.  gRPC and the socket
    file are not modelled. *)

From S2P Require Import Prelude F32 Text F64 RadixCache Model SpecDecode Engine Scheduler SchedulerEngine ControlPlane LlmRouter.
From S2P Require Import HttpRouter Http OpenAi OpenAiHttp Compress Middleware StaticFiles Metrics Health Memory Docs.
From S2P Require Import ReverseGateway Serve.

#[local] Open Scope string_scope.
#[local] Open Scope Z_scope.

(** ** Plugins *)

(** The trait without [build], which works on a server and is a parameter
    where it is called.  An error is its text. *)
Class Plugin (P A : Type) := {
  plugin_name : P → string;
  on_startup : P → A → exec (option string * A);
  on_shutdown : P → A → exec (option string * A) }.

Section plugins.
Context {P A : Type} `{!Plugin P A}.

(** A [HashMap] of names, in the order of iteration. *)
Record PluginRegistry := mk_plugins { plugins : list (string * P) }.

Definition plugins_new : PluginRegistry := mk_plugins [].
Definition plugin_register (p : P) (r : PluginRegistry) : PluginRegistry :=
  mk_plugins (assoc_set (plugin_name p) p (plugins r)).

(** A hook of every plugin; the first error ends the loop. *)
Fixpoint hook_all (hook : P → A → exec (option string * A)) (ps : list P) (a : A) : exec (option string * A) :=
  match ps with
  | [] => Ret (None, a)
  | p :: ps' =>
      '(e, a) ← hook p a;
      match e with Some err => Ret (Some err, a) | None => hook_all hook ps' a end
  end.

Definition on_startup_all (r : PluginRegistry) : A → exec (option string * A) :=
  hook_all on_startup (plugins r).*2.
Definition on_shutdown_all (r : PluginRegistry) : A → exec (option string * A) :=
  hook_all on_shutdown (plugins r).*2.
End plugins.
Arguments PluginRegistry : clear implicits.

(** ** The builder *)

Inductive ListenAddr := Tcp (addr : string) | Unix (path : string).

Definition listen_display (a : ListenAddr) : string := match a with Tcp a => a | Unix p => p end.

Record TlsConfig := mk_tls_config { cert_path : string; key_path : string }.

(** Tokens are checked against the application's part of the world. *)
#[local] Instance world_tokens {R A} `{!JsonWebToken A} : JsonWebToken (World R A) := {|
  algorithm := algorithm (W := A);
  HS256 := HS256; RS256 := RS256; RS384 := RS384; RS512 := RS512; ES256 := ES256; ES384 := ES384;
  decoding_key := decoding_key (W := A);
  encoding_key := encoding_key (W := A);
  decoding_key_from_secret := decoding_key_from_secret;
  decoding_key_from_rsa_pem := decoding_key_from_rsa_pem;
  decoding_key_from_ec_pem := decoding_key_from_ec_pem;
  decoding_key_from_rsa_der := decoding_key_from_rsa_der;
  decoding_key_from_ec_der := decoding_key_from_ec_der;
  decode token k algs issuers audience w := decode token k algs issuers audience (w_app w);
  encode := encode |}.

Definition on_world {R A} `{!JsonWebToken A} (a : JwtAuth A) : JwtAuth (World R A) :=
  @mk_jwt_auth (World R A) _ (mk_validation (World R A) _ (algorithms (validation a)) (iss (validation a)) (aud (validation a)))
    (key a) (route_rules a) (default_requirement a).

Definition DEFAULT_MAX_BODY_SIZE : Z := 50 * 1024 * 1024.

Section server.
Context {R E A P : Type} `{!HttpRouter.Matchit R (Handler A) E} `{!SerdeJson} `{!ParseValue} `{!Plugin P A}.

Abbreviation W := (World R A).
Abbreviation Routes := (HttpRouter.Router R (Handler A)).

Record Server := mk_server {
  srv_addr : ListenAddr;
  srv_chain : MiddlewareChain W;
  srv_static_dir : option string;
  srv_static_mounts : list StaticMount;
  srv_metrics : Metrics A;
  srv_health : HealthRegistry A;
  srv_tls : option TlsConfig;
  srv_has_shutdown : bool;
  srv_plugins : PluginRegistry P;
  srv_wasm : option (string → string + string);
  srv_ws : option (string → string);
  srv_router : option Routes;
  custom_handler_set : bool;
  default_routes_set : bool;
  srv_openapi_spec : option string;
  srv_max_body_size : Z;
  srv_shutdown_timeout : Z }.

(** [ws_accept] is the key computation of the default WebSocket handler. *)
Definition server_new (ws_accept : string → string) (addr : ListenAddr) : Server :=
  mk_server addr (chain_new (λ _ w, Ret (inl (plain_response 404 "Not Found"), w))) None [] metrics_new
    registry_new None false plugins_new None (Some ws_accept) (Some HttpRouter.new) false false None
    DEFAULT_MAX_BODY_SIZE 30.

Definition set_srv_chain (c : MiddlewareChain W) (s : Server) : Server :=
  let 'mk_server a _ sd sm m h t sh ps wa ws r cu de sp mb st := s in
  mk_server a c sd sm m h t sh ps wa ws r cu de sp mb st.
Definition set_srv_router (r : option Routes) (s : Server) : Server :=
  let 'mk_server a c sd sm m h t sh ps wa ws _ cu de sp mb st := s in
  mk_server a c sd sm m h t sh ps wa ws r cu de sp mb st.
Definition set_flags (custom defaults : bool) (s : Server) : Server :=
  let 'mk_server a c sd sm m h t sh ps wa ws r _ _ sp mb st := s in
  mk_server a c sd sm m h t sh ps wa ws r custom defaults sp mb st.
Definition set_srv_metrics (m : Metrics A) (s : Server) : Server :=
  let 'mk_server a c sd sm _ h t sh ps wa ws r cu de sp mb st := s in
  mk_server a c sd sm m h t sh ps wa ws r cu de sp mb st.

Definition with_openapi_spec (spec : string) (s : Server) : Server :=
  let 'mk_server a c sd sm m h t sh ps wa ws r cu de _ mb st := s in
  mk_server a c sd sm m h t sh ps wa ws r cu de (Some spec) mb st.
Definition with_max_body_size (bytes : Z) (s : Server) : Server :=
  let 'mk_server a c sd sm m h t sh ps wa ws r cu de sp _ st := s in
  mk_server a c sd sm m h t sh ps wa ws r cu de sp bytes st.
Definition with_shutdown_timeout (timeout : Z) (s : Server) : Server :=
  let 'mk_server a c sd sm m h t sh ps wa ws r cu de sp mb _ := s in
  mk_server a c sd sm m h t sh ps wa ws r cu de sp mb timeout.
Definition with_ws (accept : string → string) (s : Server) : Server :=
  let 'mk_server a c sd sm m h t sh ps wa _ r cu de sp mb st := s in
  mk_server a c sd sm m h t sh ps wa (Some accept) r cu de sp mb st.
Definition with_shutdown (s : Server) : Server :=
  let 'mk_server a c sd sm m h t _ ps wa ws r cu de sp mb st := s in
  mk_server a c sd sm m h t true ps wa ws r cu de sp mb st.
Definition with_static_dir (dir : string) (s : Server) : Server :=
  let 'mk_server a c _ sm m h t sh ps wa ws r cu de sp mb st := s in
  mk_server a c (Some dir) sm m h t sh ps wa ws r cu de sp mb st.
Definition with_static_mounts (mounts : list StaticMount) (s : Server) : Server :=
  let 'mk_server a c sd _ m h t sh ps wa ws r cu de sp mb st := s in
  mk_server a c sd mounts m h t sh ps wa ws r cu de sp mb st.
Definition with_tls (config : TlsConfig) (s : Server) : Server :=
  let 'mk_server a c sd sm m h _ sh ps wa ws r cu de sp mb st := s in
  mk_server a c sd sm m h (Some config) sh ps wa ws r cu de sp mb st.
Definition with_health_registry (registry : HealthRegistry A) (s : Server) : Server :=
  let 'mk_server a c sd sm m _ t sh ps wa ws r cu de sp mb st := s in
  mk_server a c sd sm m registry t sh ps wa ws r cu de sp mb st.
Definition with_plugin (p : P) (s : Server) : Server :=
  let 'mk_server a c sd sm m h t sh ps wa ws r cu de sp mb st := s in
  mk_server a c sd sm m h t sh (plugin_register p ps) wa ws r cu de sp mb st.
Definition with_wasm_middleware (engine : string + (string → string + string)) (s : Server) : string + Server :=
  let 'mk_server a c sd sm m h t sh ps _ ws r cu de sp mb st := s in
  match engine with
  | inl e => inl e
  | inr run => inr (mk_server a c sd sm m h t sh ps (Some run) ws r cu de sp mb st)
  end.

(** [register_plugin]: [build] is the plugin's hook. *)
Definition register_plugin (build : P → Server → exec (string + Server)) (p : P) (s : Server)
    : exec (string + Server) :=
  res ← build p s;
  Ret (match res with inl e => inl e | inr s' => inr (with_plugin p s') end).

(** *** Middleware *)

Definition add_middleware (mw : Middleware W) (s : Server) : Server :=
  set_srv_chain (chain_add mw (srv_chain s)) s.

Definition add_cors (c : Cors) : Server → Server := add_middleware (cors_handle c).
Definition add_security_headers (h : SecurityHeaders) : Server → Server := add_middleware (security_handle h).
Definition add_api_key_auth (a : ApiKeyAuth) : Server → Server := add_middleware (api_key_handle a).
Definition add_jwt `{!JsonWebToken A} (a : JwtAuth A) : Server → Server := add_middleware (jwt_handle (on_world a)).
Definition add_rate_limiter `{!Governor W} (l : direct_limiter) : Server → Server :=
  add_middleware (rate_limiter_handle l).
Definition add_per_route_rate_limit `{!Governor W} (l : PerRouteRateLimiter) : Server → Server :=
  add_middleware (per_route_limiter_handle l).
Definition add_gateway {GR GE} `{!HttpRouter.Matchit GR GatewayRoute GE} (state : W → @GatewayState GR)
    : Server → Server :=
  add_middleware (gateway_handle state).

(** *** Routes *)

(** [router.insert(..).expect(..)] *)
Definition expect_route (m path : string) (h : Handler A) (r : Routes) : exec Routes :=
  match HttpRouter.insert m path h r with (None, r') => Ret r' | (Some _, _) => Panic end.

Fixpoint expect_routes (l : list (string * string * Handler A)) (r : Routes) : exec Routes :=
  match l with
  | [] => Ret r
  | (m, path, h) :: l' => r' ← expect_route m path h r; expect_routes l' r'
  end.

(** A handler of the application alone. *)
Definition app_handler (f : HandlerFn A) : HandlerFn W := λ req, on_app (f req).

Definition with_handler (f : HandlerFn A) (s : Server) : exec Server :=
  if default_routes_set s then Panic
  else Ret (set_flags true (default_routes_set s) (set_srv_router None (set_srv_chain (set_handler (app_handler f) (srv_chain s)) s))).

Definition add_custom_route (m path : string) (f : HandlerFn A) (s : Server) : exec Server :=
  if custom_handler_set s then Panic
  else
    r ← expect_route m path (HCustom f) (default HttpRouter.new (srv_router s));
    Ret (set_srv_router (Some r) s).

Definition hello (message : string) : string :=
  "{" +:+ quote +:+ "message" +:+ quote +:+ ":" +:+ quote +:+ message +:+ quote +:+ "}".

Definition default_routes : list (string * string * Handler A) :=
  [("GET", "/hello", HStatic 200 (hello "hello")); ("POST", "/echo", HEcho); ("GET", "/echo/{*rest}", HParamsEcho);
   ("GET", "/users/{id}", HStatic 200 (hello "user lookup")); ("GET", "/events", HSse);
   ("GET", "/graphql", HGraphQL); ("POST", "/graphql", HGraphQL)].

Definition with_default_routes (s : Server) : exec Server :=
  if custom_handler_set s then Panic
  else
    r ← expect_routes default_routes (default HttpRouter.new (srv_router s));
    Ret (set_flags (custom_handler_set s) true (set_srv_router (Some (HttpRouter.set_fallback (HStatic 404 "not found") r)) s)).

(** Routes for a router that is still there. *)
Definition with_routes (l : list (string * string * Handler A)) (s : Server) : exec Server :=
  match srv_router s with
  | Some r => r' ← expect_routes l r; Ret (set_srv_router (Some r') s)
  | None => Ret s
  end.

(** The token route, and the gate before every handler. *)
Definition with_oauth2_password `{!JsonWebToken A} (parse_form : string → option (list (string * string)))
    (now : A → Z) (o : OAuth2Password A) (s : Server) : exec Server :=
  s' ← with_routes [("POST", token_path o, HCustom (token_handler parse_form now o))] s;
  Ret (add_jwt (require_for (token_path o) ReqNone (jwt_auth o)) s').

(** *** The OpenAI endpoints *)

Section openai.
Context `{!OpenAiSerde} `{!Entropy} (body_error : string) (clock : A → Clock).

Definition pure_handler (f : Request → A → Response) : Handler A := HCustom (λ req a, Ret (inl (f req a), a)).

Definition openai_routes (chat completions embeddings models : Handler A) : list (string * string * Handler A) :=
  [("POST", "/v1/chat/completions", chat); ("POST", "/v1/completions", completions);
   ("POST", "/v1/embeddings", embeddings); ("GET", "/v1/models", models)].

Definition engine_handler (f : Clock → Engine → Request → exec Response) (e : Engine) : Handler A :=
  HCustom (λ req a, r ← f (clock a) e req; Ret (inl r, a)).

Definition models_route (e : Engine) : Handler A := pure_handler (λ _ a, models_handler (clock a) e).
Definition embeddings_route : Handler A := pure_handler (λ req _, embeddings_handler body_error req).

Definition with_openai (e : Engine) : Server → exec Server :=
  with_routes (openai_routes (engine_handler (chat_completions_handler body_error) e)
                 (engine_handler (completions_handler body_error) e) embeddings_route (models_route e)).

(** The scheduler and its loop are part of the application's state; [waits]
    answers a request whose tokens are still to come. *)
Context (get_se : A → SchedulerEngine) (put_se : SchedulerEngine → A → A).
Context (later : SchedulerEngine → exec SchedulerEngine) (waits : HandlerFn A).

Definition scheduled_handler
    (f : Clock → SchedulerEngine → Request → exec (option Response * SchedulerEngine)) : Handler A :=
  HCustom (λ req a,
    '(r, se) ← f (clock a) (get_se a) req;
    match r with Some r => Ret (inl r, put_se se a) | None => waits req (put_se se a) end).

(** The lines of the statistics provider. *)
Definition scheduler_lines (s : SchedulerStats) : string :=
  let n x := Z.of_nat x in
  metric "justapi_scheduler_waiting" "Current number of waiting requests." "gauge" (n (num_waiting s))
  +:+ metric "justapi_scheduler_running" "Current number of running sequences." "gauge" (n (num_running s))
  +:+ metric "justapi_scheduler_prefilling" "Current number of prefilling sequences." "gauge" (n (num_prefilling s))
  +:+ metric "justapi_scheduler_back_pressure" "Whether the scheduler is under back-pressure." "gauge"
        (if ss_back_pressure s then 1 else 0)
  +:+ metric "justapi_scheduler_prefix_hits" "Total prefix-cache hits." "counter" (rs_hits (ss_prefix s))
  +:+ metric "justapi_scheduler_prefix_misses" "Total prefix-cache misses." "counter" (rs_misses (ss_prefix s))
  +:+ metric "justapi_scheduler_prefix_tokens_saved" "Tokens of prefill saved by prefix cache." "counter"
        (rs_tokens_saved (ss_prefix s))
  +:+ metric "justapi_scheduler_cached_kv_blocks" "KV blocks resident in prefix cache." "gauge"
        (n (cached_kv_blocks s)).

Definition with_openai_scheduled (e : Engine) (s : Server) : exec Server :=
  let stats_provider a := scheduler_lines (Scheduler.stats (scheduler (get_se a))) in
  let s := set_srv_metrics (register_extra_provider stats_provider (srv_metrics s)) s in
  with_routes (openai_routes (scheduled_handler (scheduled_chat_completions_handler body_error later))
                 (scheduled_handler (scheduled_completions_handler body_error later))
                 embeddings_route (models_route e)) s.

Context (get_rt : A → LlmRouter.Router) (put_rt : LlmRouter.Router → A → A).

Definition routed_handler (f : LlmRouter.Router → Request → exec (Response * LlmRouter.Router)) : Handler A :=
  HCustom (λ req a, '(r, rt) ← f (get_rt a) req; Ret (inl r, put_rt rt a)).
Definition routed_engine_handler
    (f : Clock → LlmRouter.Router → Request → exec (Response * LlmRouter.Router)) : Handler A :=
  HCustom (λ req a, '(r, rt) ← f (clock a) (get_rt a) req; Ret (inl r, put_rt rt a)).

Definition with_openai_routed (e : Engine) (cp : ControlPlane) : Server → exec Server :=
  with_routes (openai_routes
    (routed_engine_handler (λ t, routed_chat_completions_handler body_error t e cp))
    (routed_engine_handler (λ t, routed_completions_handler body_error t e cp))
    (routed_handler (routed_embeddings_handler body_error cp)) (models_route e)).
End openai.

(** ** A run *)

Section run.
Context (pretty : json → string) (grow : Z → Z → Z).
Context (graphql : option (Request → A → exec (outcome * A))).

(** The handler of the router, when there still is one. *)
Definition prepare (s : Server) : Server :=
  match srv_router s with
  | Some _ =>
      set_srv_chain (set_handler (make_handler pretty grow graphql (srv_health s) (srv_openapi_spec s)
                                    (srv_max_body_size s)) (srv_chain s)) s
  | None => s
  end.

Definition server_world (s : Server) (a : A) : W :=
  mk_world (default HttpRouter.new (srv_router s)) pool_new (srv_metrics s) a.

Definition server_frontend (s : Server) : Frontend R A :=
  mk_frontend (srv_chain (prepare s)) (srv_static_dir s) (srv_static_mounts s) (srv_wasm s) (srv_ws s).

(** The accept loop: plain, or with the TLS configuration. *)
Context (serve_loop : option TlsConfig → Frontend R A → W → exec (option string * W)).

Definition with_plugins (ps : PluginRegistry P) (body : W → exec (option string * W)) (w : W)
    : exec (option string * W) :=
  '(e, a) ← on_startup_all ps (w_app w);
  match e with
  | Some err => Ret (Some err, set_app a w)
  | None =>
      '(res, w) ← body (set_app a w);
      '(e, a) ← on_shutdown_all ps (w_app w);
      Ret (match e with Some err => Some err | None => res end, set_app a w)
  end.

Definition run_on (s : Server) (a : A) : exec (option string * W) :=
  with_plugins (srv_plugins s) (serve_loop (srv_tls s) (server_frontend s)) (server_world s a).

(** The check of TLS is between the hooks: an early return skips the last. *)
Definition run_on_uds (s : Server) (a : A) : exec (option string * W) :=
  match srv_tls s with
  | None => with_plugins (srv_plugins s) (serve_loop None (server_frontend s)) (server_world s a)
  | Some _ =>
      '(e, a) ← on_startup_all (srv_plugins s) a;
      let err := match e with Some err => err | None => "TLS is not supported over Unix domain sockets" end in
      Ret (Some err, server_world s a)
  end.

(** [bind] may fail. *)
Definition run (bind : ListenAddr → option string) (s : Server) (a : A) : exec (option string * W) :=
  match bind (srv_addr s) with
  | Some err => Ret (Some err, server_world s a)
  | None => match srv_addr s with Tcp _ => run_on s a | Unix _ => run_on_uds s a end
  end.

(** The stand-alone [serve]. *)
Definition serve_routes : list (string * string * Handler A) :=
  [("GET", "/hello", HStatic 200 (hello "hello")); ("POST", "/echo", HEcho); ("GET", "/health", HHealth);
   ("GET", "/ready", HReady); ("GET", "/live", HLive); ("GET", "/metrics", HPrometheus); ("GET", "/events", HSse)].

Definition serve (ws_accept : string → string) (a : A) : exec (option string * W) :=
  r ← expect_routes serve_routes (HttpRouter.set_fallback (HStatic 404 "not found") HttpRouter.new);
  let h := make_handler pretty grow graphql registry_new None DEFAULT_MAX_BODY_SIZE in
  serve_loop None (mk_frontend (chain_new h) None [] None (Some ws_accept)) (mk_world r pool_new metrics_new a).
End run.
End server.

Arguments Server : clear implicits.

(** ** What the builder keeps *)

Section builder.
Context {R E A P : Type} `{HM : !HttpRouter.Matchit R (Handler A) E} `{!SerdeJson} `{!ParseValue} `{!Plugin P A}.
Context {JW : JsonWebToken A}.
Abbreviation Server := (Server R A P).
Abbreviation Routes := (HttpRouter.Router R (Handler A)).
Implicit Types (s : Server) (r : Routes).

(** One call of a method; the [add_] methods are [add_middleware], the OpenAI
    methods [with_routes]. *)
Inductive builder_step : Server → Server → Prop :=
| b_openapi_spec spec s : builder_step s (with_openapi_spec spec s)
| b_max_body_size n s : builder_step s (with_max_body_size n s)
| b_shutdown_timeout t s : builder_step s (with_shutdown_timeout t s)
| b_ws f s : builder_step s (with_ws f s)
| b_shutdown s : builder_step s (with_shutdown s)
| b_static_dir dir s : builder_step s (with_static_dir dir s)
| b_static_mounts ms s : builder_step s (with_static_mounts ms s)
| b_tls c s : builder_step s (with_tls c s)
| b_health h s : builder_step s (with_health_registry h s)
| b_plugin p s : builder_step s (with_plugin p s)
| b_wasm engine s s' : with_wasm_middleware engine s = inr s' → builder_step s s'
| b_metrics m s : builder_step s (set_srv_metrics m s)
| b_middleware mw s : builder_step s (add_middleware mw s)
| b_handler f s s' : with_handler f s = Ret s' → builder_step s s'
| b_custom_route m path f s s' : add_custom_route m path f s = Ret s' → builder_step s s'
| b_default_routes s s' : with_default_routes s = Ret s' → builder_step s s'
| b_routes l s s' : with_routes l s = Ret s' → builder_step s s'
| b_oauth2 parse_form now o s s' : with_oauth2_password parse_form now o s = Ret s' → builder_step s s'.

(** The router of the server has this static route. *)
Definition has_route s m q h : Prop :=
  ∃ r, srv_router s = Some r ∧ HttpRouter.raw_resolve m q r = inl (HttpRouter.mk_resolution h []).

Context {HL : HttpRouter.MatchitLaws R (Handler A) E} {HS : HttpRouter.StaticRoutes R (Handler A) E}.

Lemma expect_route_inv m path h r r' : expect_route m path h r = Ret r' → HttpRouter.insert m path h r = (None, r').
Proof. unfold expect_route. destruct (HttpRouter.insert m path h r) as [[e|] r1]; [done|]. by intros [= ->]. Qed.

Lemma expect_routes_keep l r r' m q h :
  expect_routes l r = Ret r' → HttpRouter.static_path q = true →
  HttpRouter.raw_resolve m q r = inl (HttpRouter.mk_resolution h []) →
  HttpRouter.raw_resolve m q r' = inl (HttpRouter.mk_resolution h []).
Proof.
  intros Hl Hq. revert r Hl. induction l as [|[[m0 p0] h0] l IH]; intros r; simpl; [by intros [= ->]|].
  intros (r1 & Hr1%expect_route_inv & Hl)%bind_Ret_inv Hr. eapply IH; [done|].
  by apply (HttpRouter.insert_keeps _ _ _ _ _ _ _ _ Hr1).
Qed.

Lemma expect_routes_registered l r r' m p h :
  expect_routes l r = Ret r' → (m, p, h) ∈ l → HttpRouter.static_path p = true →
  HttpRouter.raw_resolve m p r' = inl (HttpRouter.mk_resolution h []).
Proof.
  intros Hl Hin Hp. revert r Hl. induction l as [|[[m0 p0] h0] l IH]; intros r; [by apply elem_of_nil in Hin|].
  simpl. intros (r1 & Hr1%expect_route_inv & Hl)%bind_Ret_inv.
  apply elem_of_cons in Hin as [[= <- <- <-]|Hin]; [|by apply (IH Hin _ Hl)].
  eapply expect_routes_keep; [done..|]. exact (proj1 (HttpRouter.route_registered _ _ _ _ _ Hr1) Hp).
Qed.

Lemma fallback_resolves m q fb r : HttpRouter.raw_resolve m q (HttpRouter.set_fallback fb r) = HttpRouter.raw_resolve m q r.
Proof. done. Qed.

(** The switches of the server and the routes it must have. *)
Record built_ok s : Prop := {
  bo_custom : custom_handler_set s = true ↔ srv_router s = None;
  bo_both : custom_handler_set s = true → default_routes_set s = false;
  bo_defaults m p h : default_routes_set s = true → (m, p, h) ∈ default_routes → HttpRouter.static_path p = true →
    has_route s m p h }.

(** The routes of [s] are routes of [s']. *)
Definition routes_kept s s' : Prop :=
  ∀ m q h, HttpRouter.static_path q = true → has_route s m q h → has_route s' m q h.

(** A step that touches neither switches nor routes, or adds routes. *)
Definition extends s s' : Prop :=
  custom_handler_set s' = custom_handler_set s ∧ (srv_router s' = None ↔ srv_router s = None) ∧
  default_routes_set s' = default_routes_set s ∧ routes_kept s s'.

Lemma extends_ok s s' : extends s s' → built_ok s → built_ok s'.
Proof.
  intros (Hc & Hr & Hd & Hk) [H1 H2 H3]. constructor.
  - by rewrite Hc, Hr.
  - by rewrite Hc, Hd.
  - rewrite Hd. intros m p h Hs Hin Hp. by apply Hk, H3.
Qed.

Lemma same_extends s s' :
  custom_handler_set s' = custom_handler_set s → srv_router s' = srv_router s →
  default_routes_set s' = default_routes_set s → extends s s'.
Proof. intros Hc Hr Hd. unfold extends, routes_kept, has_route. by rewrite Hc, Hr, Hd. Qed.

Lemma with_routes_extends l s s' : with_routes l s = Ret s' → extends s s'.
Proof.
  unfold with_routes. destruct (srv_router s) as [r|] eqn:Hr; [|intros [= <-]; by apply same_extends].
  intros (r' & Hl & [= <-])%bind_Ret_inv. destruct s. simpl in *. subst. unfold extends. simpl. split_and!; try done.
  intros m q h Hq (r0 & [= <-] & Hres). exists r'. split; [done|]. by eapply expect_routes_keep.
Qed.

Lemma custom_route_extends m path f s s' : built_ok s → add_custom_route m path f s = Ret s' → extends s s'.
Proof.
  intros [H1 _ _]. unfold add_custom_route. destruct (custom_handler_set s) eqn:Hc; [done|].
  intros (r' & Hl%expect_route_inv & [= <-])%bind_Ret_inv. destruct s as [? ? ? ? ? ? ? ? ? ? ? rt ? ? ? ? ?].
  simpl in *. subst. destruct rt as [r|]; [|naive_solver]. unfold extends. simpl. split_and!; try done.
  intros m' q h Hq (r0 & [= <-] & Hres). exists r'. split; [done|].
  by apply (HttpRouter.insert_keeps _ _ _ _ _ _ _ _ Hl).
Qed.

Lemma default_routes_ok s s' : built_ok s → with_default_routes s = Ret s' →
  built_ok s' ∧ routes_kept s s' ∧ custom_handler_set s' = custom_handler_set s.
Proof.
  intros [H1 _ _]. unfold with_default_routes. destruct (custom_handler_set s) eqn:Hc; [done|].
  intros (r' & Hl & [= <-])%bind_Ret_inv. destruct s as [? ? ? ? ? ? ? ? ? ? ? rt ? ? ? ? ?].
  cbn [custom_handler_set srv_router] in Hc, H1, Hl. subst. destruct rt as [r|]; [|naive_solver].
  cbn [default] in Hl. split_and!; [|..|done].
  - constructor; simpl; [naive_solver|done|]. intros m p h _ Hin Hp. eexists. split; [done|].
    rewrite fallback_resolves. by eapply expect_routes_registered.
  - intros m q h Hq (r0 & [= <-] & Hres). eexists. split; [done|]. simpl.
    rewrite fallback_resolves. by eapply expect_routes_keep.
Qed.

Lemma handler_ok f s s' : built_ok s → with_handler f s = Ret s' → built_ok s' ∧ custom_handler_set s' = true.
Proof.
  intros _. unfold with_handler. destruct (default_routes_set s) eqn:Hd; [done|]. intros [= <-].
  destruct s. simpl in *. subst. split; [|done]. by constructor.
Qed.

Lemma builder_step_ok s s' :
  builder_step s s' → built_ok s →
  built_ok s' ∧ ((∀ f, with_handler f s ≠ Ret s') → routes_kept s s').
Proof.
  intros Hstep Hok.
  assert (extends s s' ∨ (∃ f, with_handler f s = Ret s') ∨ with_default_routes s = Ret s') as [Hx|[[f Hf]|Hd]].
  { destruct Hstep as [| | | | | | | | | | | | | | | |? ? ? ? |? ? ? ? ? Ho]; try (left; destruct s; by apply same_extends); eauto.
    - left. unfold with_wasm_middleware in *. destruct s, engine; simplify_eq. by apply same_extends.
    - left. by eapply custom_route_extends.
    - left. by eapply with_routes_extends.
    - left. unfold with_oauth2_password in *. destruct (bind_Ret_inv _ _ _ Ho) as (s1 & Hs1%with_routes_extends & [= <-]).
      by destruct s1. }
  - split; [by eapply extends_ok|]. intros _. apply Hx.
  - split; [by eapply handler_ok|]. intros Hn. by destruct (Hn f).
  - destruct (default_routes_ok _ _ Hok Hd) as (? & ? & _). auto.
Qed.

(** The builder loses no route.  In every server the methods can build
    from a new one: there is no router exactly when a custom handler was set,
    and then the default routes were not; the default routes without
    placeholders, once registered, resolve to their handlers; and every method
    but [with_handler] keeps every route without placeholders that was there. *)
Theorem builder_keeps_routes ws addr s :
  rtc builder_step (server_new ws addr) s →
  (custom_handler_set s = true ↔ srv_router s = None) ∧
  (custom_handler_set s = true → default_routes_set s = false) ∧
  (default_routes_set s = true →
     has_route s "GET" "/hello" (HStatic 200 (hello "hello")) ∧ has_route s "POST" "/echo" HEcho ∧
     has_route s "GET" "/events" HSse ∧ has_route s "GET" "/graphql" HGraphQL ∧ has_route s "POST" "/graphql" HGraphQL) ∧
  ∀ s', builder_step s s' → (∀ f, with_handler f s ≠ Ret s') → routes_kept s s'.
Proof.
  intros Hb. assert (built_ok s) as Hok.
  { assert (built_ok (server_new ws addr)) as Hnew by (by constructor).
    revert Hnew. induction Hb as [|? ? ? Hs _ IH]; [done|]. intros Hnew. apply IH. by apply (builder_step_ok _ _ Hs). }
  split_and!; [apply Hok..| |].
  - intros Hd. pose proof (λ m p h, bo_defaults _ Hok m p h Hd) as Hr.
    split_and!; apply Hr; try reflexivity; set_solver.
  - intros s' Hs. by apply (builder_step_ok _ _ Hs).
Qed.
End builder.

(** ** A server with the password flow *)

(** The router of the world has the routes of [r], whatever its cache holds. *)
Definition same_routes {R T E} `{!HttpRouter.Matchit R T E} (r r' : HttpRouter.Router R T) : Prop :=
  HttpRouter.router_ok r' ∧ ∃ o, r' = HttpRouter.with_cache o r.

Lemma dispatch_static {R T E} `{!HttpRouter.Matchit R T E} (r r' : HttpRouter.Router R T) m p h :
  same_routes r r' → HttpRouter.raw_resolve m p r = inl (HttpRouter.mk_resolution h []) →
  (HttpRouter.dispatch m p r').1 = inl (h, []).
Proof.
  intros [Hok [o ->]] Hr. unfold HttpRouter.dispatch.
  destruct (HttpRouter.resolve_raw m p _ Hok) as [Hres _].
  destruct (HttpRouter.resolve m p (HttpRouter.with_cache o r)) as [res r']. simpl in Hres. subst res.
  change (HttpRouter.raw_resolve m p (HttpRouter.with_cache o r)) with (HttpRouter.raw_resolve m p r).
  by rewrite Hr.
Qed.

Section oauth2.
Context {R E A P : Type} `{HM : !HttpRouter.Matchit R (Handler A) E} `{SJ : !SerdeJson} `{PV : !ParseValue} `{!Plugin P A}.
Context {FS : FileSystem} {JW : JsonWebToken A}.
Context {HL : HttpRouter.MatchitLaws R (Handler A) E} {HS : HttpRouter.StaticRoutes R (Handler A) E}.
Context (pretty : json → string) (grow : Z → Z → Z) (graphql : option (Request → A → exec (outcome * A))).
Context (file_clock : World R A → Z) (timeout : Request → World R A → option (World R A)).
Context (elapsed_ms : Request → World R A → f64).
Context (parse_form : string → option (list (string * string))) (secs : A → Z).
Implicit Types (o : OAuth2Password A) (s : Server R A P) (w : World R A) (fe : Frontend R A).

Abbreviation handle := (handle_request file_clock timeout elapsed_ms).

(** The request goes through the chain: it is neither refused nor an upgrade,
    there is no WASM filter, and it is done in time. *)
Definition ordinary fe peer (req : Request) w : Prop :=
  refuse req = None ∧ ws_upgrade (fe_ws fe) (with_peer peer req) = None ∧ fe_wasm fe = None ∧
  timeout (with_peer peer req) (count_steps record_request w) = None.

Lemma handle_ordinary fe peer req w r w' :
  ordinary fe peer req w →
  chain_run (fe_chain fe) (with_peer peer req) (count_steps record_request w) = Ret (inl r, w') →
  status r ≠ 404 →
  ∃ w2, handle fe peer req w = Ret (r, w2) ∧ w_app w2 = w_app w' ∧ w_router w2 = w_router w'.
Proof.
  intros (Href & Hws & Hwasm & Ht) Hrun Hst. unfold handle_request, run_chain, run_wasm.
  rewrite Href, Hws, Hwasm. cbn [mbind option_bind]. rewrite Ht, Hrun. simpl.
  destruct (Z.eqb_spec (status r) 404); [done|]. eexists. split; [reflexivity|]. done.
Qed.

Lemma starts_with_refl p : starts_with p p = true.
Proof. unfold starts_with. induction p as [|c p IH]; [done|]. simpl. by destruct (Ascii.ascii_dec c c). Qed.

(** The gate of the flow. *)
Definition gate_of o : JwtAuth (World R A) := on_world (require_for (token_path o) ReqNone (jwt_auth o)).

Lemma oauth2_parts o s s' :
  with_oauth2_password parse_form secs o s = Ret s' →
  middlewares (srv_chain s') = (middlewares (srv_chain s) ++ [jwt_handle (gate_of o)])%list ∧
  (∀ r', srv_router s' = Some r' → ∃ r,
     HttpRouter.insert "POST" (token_path o) (HCustom (token_handler parse_form secs o)) r = (None, r')).
Proof.
  unfold with_oauth2_password, with_routes. intros (s1 & Hs1 & [= <-])%bind_Ret_inv.
  destruct (srv_router s) as [r0|] eqn:Hr.
  - apply bind_Ret_inv in Hs1 as (r' & Hr' & [= <-]). simpl in Hr'.
    apply bind_Ret_inv in Hr' as (r1 & Hr1%expect_route_inv & [= <-]). destruct s. simpl in *. subst.
    split; [done|]. intros r [= <-]. by exists r0.
  - injection Hs1 as <-. destruct s. simpl in *. subst. done.
Qed.

Lemma gate_requires o path : starts_with (token_path o) path = false → requirement_for_path (gate_of o) path = ReqRequired.
Proof. intros Hp. unfold requirement_for_path, rule_for_path. simpl. by rewrite Hp. Qed.

(** A middleware that hands this request on: what comes behind gets it as it is, and its answer
    comes back with its status. *)
Definition hands_on (req : Request) (mw : Middleware (World R A)) : Prop :=
  ∀ next w r w', next req w = Ret (inl r, w') → ∃ r', mw next req w = Ret (inl r', w') ∧ status r' = status r.

Lemma all_hand_on req (ms : list (Middleware (World R A))) k w r w' :
  Forall (hands_on req) ms → k req w = Ret (inl r, w') →
  ∃ r', compose_all ms k req w = Ret (inl r', w') ∧ status r' = status r.
Proof.
  intros Hms Hk. unfold compose_all. induction Hms as [|mw ms Hmw _ (r' & Hr' & Hst)]; [by exists r|].
  cbn [foldr]. destruct (Hmw _ _ _ _ Hr') as (r2 & Hr2 & Hst2). exists r2. by rewrite Hst2.
Qed.

(** A CORS layer does so when no origin is sent, or one it does not know; of an origin it knows it
    answers the preflights itself. *)
Lemma cors_hands_on c req : matched_origin c req = None → hands_on req (cors_handle c).
Proof. intros Hm next w r w' Hn. exists r. unfold cors_handle. by rewrite Hm. Qed.

(** C13: A server with the password flow lets no one in without a token. When
    every middleware added before the gate hands the request on -- a CORS layer
    does not for the preflights of an origin it allows, which it answers itself
    ([Examples.preflight_before_gate]) -- whatever is added behind the gate, a
    request in the ordinary course (not refused for its size or form, no
    upgrade, no WASM filter, done in time) whose path does not begin with that
    of the token endpoint and whose bearer token, if it has one, the provider's
    key does not verify, is answered 401; the application and the routes are
    untouched. *)
Theorem oauth2_guards_server o s s' ms h fe peer req w :
  with_oauth2_password parse_form secs o s = Ret s' →
  Forall (hands_on (with_peer peer req)) (middlewares (srv_chain s)) →
  fe_chain fe = mk_chain (middlewares (srv_chain s') ++ ms)%list h →
  ordinary fe peer req w → starts_with (token_path o) (req_path req) = false →
  (∀ token, bearer_token req = Some token → jwt_decode (jwt_auth o) token (w_app w) = None) →
  ∃ r w', handle fe peer req w = Ret (r, w') ∧ status r = 401 ∧ w_app w' = w_app w ∧ w_router w' = w_router w.
Proof.
  intros Ho Hms Hfe Hord Hp Htok. destruct (oauth2_parts _ _ _ Ho) as [Hmw _].
  assert (∃ r, chain_run (fe_chain fe) (with_peer peer req) (count_steps record_request w)
    = Ret (inl r, count_steps record_request w) ∧ status r = 401) as (r & Hrun & Hst).
  { rewrite Hfe, Hmw, chain_run_eq. simpl. rewrite <- app_assoc, compose_all_app.
    assert (∃ msg, compose_all ([jwt_handle (gate_of o)] ++ ms) h (with_peer peer req) (count_steps record_request w)
      = Ret (inl (json_error 401 msg), count_steps record_request w)) as [msg Hk]; [|by apply (all_hand_on _ _ _ _ _ _ Hms Hk)].
    simpl. unfold jwt_handle.
    change (req_path (with_peer peer req)) with (req_path req). rewrite gate_requires by done. simpl.
    change (bearer_token (with_peer peer req)) with (bearer_token req).
    destruct (bearer_token req) as [token|]; [|by eexists]. specialize (Htok token eq_refl).
    unfold jwt_decode in Htok. simpl in Htok. rewrite Htok. by eexists. }
  destruct (handle_ordinary fe peer req w _ _ Hord Hrun) as (w2 & Hw2 & Ha & Hr); [by rewrite Hst|].
  exists r, w2. by split_and!.
Qed.

(** The frontend and the router of a server that runs. *)
Definition runs s fe w : Prop :=
  fe = server_frontend pretty grow graphql s ∧
  ∃ r, srv_router s = Some r ∧ same_routes r (w_router w).

(** A request that passes the gate reaches the handler of its route. *)
Lemma gate_to_route o s s' fe peer req req' w f res a :
  with_oauth2_password parse_form secs o s = Ret s' → middlewares (srv_chain s) = [] → runs s' fe w →
  ordinary fe peer req w → has_route s' (req_method req') (req_path req') (HCustom f) →
  jwt_handle (gate_of o) (handler (fe_chain fe)) (with_peer peer req) (count_steps record_request w)
    = handler (fe_chain fe) req' (count_steps record_request w) →
  f (with_params [] req') (w_app w) = Ret (inl res, a) → status res ≠ 404 →
  ∃ w', handle fe peer req w = Ret (res, w') ∧ w_app w' = a.
Proof.
  intros Ho Hms [-> (r & Hr & Hsame)] Hord (r0 & Hr0 & Hres) Hgate Hf Hst. simplify_eq.
  destruct (oauth2_parts _ _ _ Ho) as [Hmw _]. rewrite Hms in Hmw. simpl in Hmw.
  assert (fe_chain (server_frontend pretty grow graphql s') = mk_chain [jwt_handle (gate_of o)]
    (make_handler pretty grow graphql (srv_health s') (srv_openapi_spec s') (srv_max_body_size s'))) as Hfe.
  { unfold server_frontend, prepare. rewrite Hr. simpl. rewrite <- Hmw. by destruct s'. }
  assert (∃ r2, chain_run (fe_chain (server_frontend pretty grow graphql s')) (with_peer peer req)
    (count_steps record_request w) = Ret (inl res, set_app a (set_router r2 (count_steps record_request w)))) as [r2 Hrun].
  { rewrite Hfe in Hgate |- *. rewrite chain_run_eq. simpl in Hgate |- *. rewrite Hgate. unfold make_handler.
    pose proof (dispatch_static r (w_router w) _ _ _ Hsame Hres) as Hd.
    change (w_router (count_steps record_request w)) with (w_router w).
    destruct (HttpRouter.dispatch (req_method req') (req_path req') (w_router w)) as [d r2]. simpl in Hd. subst d.
    exists r2. simpl. unfold on_app. simpl. by rewrite Hf. }
  destruct (handle_ordinary _ peer req w _ _ Hord Hrun Hst) as (w2 & Hw2 & Ha & _). exists w2. by split.
Qed.

(** C20: Logging in works.  On a server built with the password flow and no
    other middleware, whose token endpoint is a path without placeholders and
    whose keys verify what they sign, in the ordinary course (not refused, no
    upgrade, no WASM filter, done in time): a POST of a form to the token
    endpoint with credentials the provider accepts, for a user whose claims
    have no [aud] (an audience would make the gate refuse the token) and no
    name twice, is answered with a token and changes nothing; and until it
    expires, a request that presents this token, for a route without
    placeholders of the server whose path does not begin with that of the token
    endpoint, runs the handler of the route with the issued claims, and the
    client has its answer, unless that is a 404 (which static files may still
    answer). *)
Theorem oauth2_login o s s' fe peer req w text params username password obj token :
  verifies secs (oauth_algorithm o) (oauth_encoding_key o) (oauth_decoding_key o) →
  with_oauth2_password parse_form secs o s = Ret s' → middlewares (srv_chain s) = [] → runs s' fe w →
  HttpRouter.static_path (token_path o) = true → ordinary fe peer req w →
  req_method req = "POST" → req_path req = token_path o →
  header_str "content-type" (req_headers req) = Some "application/x-www-form-urlencoded" →
  req_body req = Some text → parse_form text = Some params → form_credentials params = inl (username, password) →
  validate_user o username password = Some (JObject obj) → NoDup obj.*1 → assoc_get "aud" obj = None →
  encode (oauth_algorithm o) (issued_claims o username (JObject obj) (secs (w_app w))) (oauth_encoding_key o) = Some token →
  (∃ w', handle fe peer req w = Ret (token_response o token, w') ∧ w_app w' = w_app w) ∧
  ∀ peer2 req2 w2 f res a,
    let claimed := with_claims (issued_claims o username (JObject obj) (secs (w_app w))) (with_peer peer2 req2) in
    runs s' fe w2 → ordinary fe peer2 req2 w2 → has_route s' (req_method req2) (req_path req2) (HCustom f) →
    starts_with (token_path o) (req_path req2) = false →
    assoc_get "authorization" (req_headers req2) = Some ("Bearer " +:+ token) →
    secs (w_app w2) ≤ wadd64 (secs (w_app w)) (token_expiry o) →
    f (with_params [] claimed) (w_app w2) = Ret (inl res, a) → status res ≠ 404 →
    ∃ w', handle fe peer2 req2 w2 = Ret (res, w') ∧ w_app w' = a.
Proof.
  intros Hver Ho Hms Hruns Hpath Hord Hm Hp Hct Hb Hf Hc Hu Hnd Haud He. split.
  - destruct (oauth2_parts _ _ _ Ho) as [_ Hins]. pose proof Hruns as (_ & r & Hr & _).
    apply (gate_to_route o s s' fe peer req (with_peer peer req) w
             (token_handler parse_form secs o) (token_response o token) (w_app w)); try done.
    + change (has_route s' (req_method req) (req_path req) (HCustom (token_handler parse_form secs o))).
      rewrite Hm, Hp. destruct (Hins r Hr) as [r0 Hr0]. exists r. split; [done|].
      exact (proj1 (HttpRouter.route_registered _ _ _ _ _ Hr0) Hpath).
    + unfold jwt_handle, requirement_for_path, rule_for_path. simpl. rewrite Hp. by rewrite starts_with_refl.
    + unfold token_handler. simpl. rewrite Hm, Hp, !String.eqb_refl. simpl. rewrite Hct. simpl.
      by rewrite Hb, Hf, Hc, Hu, He.
  - intros peer2 req2 w2 f res a claimed Hruns2 Hord2 Hroute Hp2 Hauth Hexp Hfres Hst.
    destruct (issued_token_decodes secs o username obj token (w_app w) (w_app w2) Hver Hnd Haud He Hexp) as [Hvis Hdec].
    apply (gate_to_route o s s' fe peer2 req2 claimed w2 f res a); try done.
    unfold jwt_handle. change (req_path (with_peer peer2 req2)) with (req_path req2).
    rewrite gate_requires by done. change (bearer_token (with_peer peer2 req2)) with (bearer_token req2).
    rewrite (bearer_token_of token) by done. simpl. unfold jwt_decode in Hdec |- *. simpl in Hdec |- *.
    by rewrite Hdec.
Qed.
End oauth2.

(** ** Concrete servers *)

Module Examples.

#[local] Existing Instance Middleware.Examples.serde.
#[local] Existing Instance Middleware.Examples.jwt.
#[local] Instance values : ParseValue := {| parse_value _ := None |}.
#[local] Instance no_files : FileSystem := {| metadata _ := None; canonicalize _ := None |}.

(** A plugin is its name; the application's state counts the hooks, and the
    plugin "bad" fails to start. *)
#[local] Instance named_plugin : Plugin string Z := {|
  plugin_name p := p;
  on_startup p a := Ret (if String.eqb p "bad" then Some "no licence" else None, a + 1);
  on_shutdown _ a := Ret (None, a - 1) |}.

Abbreviation Table := (list (string * Handler Z)).

(** [GET /me] tells whose token it is. *)
Definition me : HandlerFn Z := λ req a,
  Ret (inl (plain_response 200 (default "?" ((req_claims req ≫= json_get "sub") ≫= as_str))), a).

Definition ex_new : Server Table Z string := server_new (λ k, k) (Tcp "127.0.0.1:8080").

Definition ex_build : exec (Server Table Z string) :=
  s ← add_custom_route "GET" "/me" me ex_new;
  with_oauth2_password Middleware.Examples.form id Middleware.Examples.provider s.

Definition ex_frontend (s : Server Table Z string) : Frontend Table Z :=
  server_frontend (λ _, "{}") (λ _ n, n) None s.

Definition ex_handle (s : Server Table Z string) (req : Request) (w : World Table Z) : exec (Response * World Table Z) :=
  handle_request (λ _, 0) (λ _ _, None) (λ _ _, f64_zero) (ex_frontend s) None req w.

Definition get_me (hs : HeaderMap) : Request := new_request "GET" "/me" None hs None.

Example login_then_me :
  match ex_build with
  | Ret s =>
      let w := server_world s 100 in
      match ex_handle s Middleware.Examples.token_request w with
      | Ret (r, w1) =>
          status r = 200 ∧
          match ex_handle s (get_me [("authorization", "Bearer good")]) w1, ex_handle s (get_me []) w1 with
          | Ret (r2, _), Ret (r3, _) => body r2 = "ann" ∧ status r3 = 401
          | _, _ => False
          end
      | Panic => False
      end
  | Panic => False
  end.
Proof. vm_compute. auto. Qed.

(** A path that merely begins like the token endpoint needs no token. *)
Example prefix_is_public :
  match (s ← add_custom_route "GET" "/tokens" me ex_new;
         with_oauth2_password Middleware.Examples.form id Middleware.Examples.provider s) with
  | Ret s => match ex_handle s (new_request "GET" "/tokens" None [] None) (server_world s 100) with
             | Ret (r, _) => status r = 200
             | Panic => False
             end
  | Panic => False
  end.
Proof. vm_compute. reflexivity. Qed.

(** An upgrade needs none either. *)
Example upgrade_is_public :
  match ex_build with
  | Ret s =>
      match ex_handle s (get_me [("upgrade", "websocket"); ("sec-websocket-key", "k")]) (server_world s 100) with
      | Ret (r, _) => status r = 101
      | Panic => False
      end
  | Panic => False
  end.
Proof. vm_compute. reflexivity. Qed.

(** A custom handler takes the routes registered before it away, silently. *)
Example handler_drops_routes :
  match (s ← add_custom_route "GET" "/me" me ex_new; with_handler (λ _ a, Ret (inl (plain_response 200 "all"), a)) s) with
  | Ret s => srv_router s = None
  | Panic => False
  end.
Proof. reflexivity. Qed.

(** The built-in document describes paths the default routes do not answer. *)
Definition answers (s : Server Table Z string) (path : string) : bool :=
  match srv_router s with
  | Some r => match HttpRouter.raw_resolve "GET" path r with inl _ => true | inr _ => false end
  | None => false
  end.

Example documented_not_served :
  match with_default_routes ex_new with
  | Ret s => filter (λ p, answers s p = false) documented_paths =
             ["/echo"; "/health"; "/ready"; "/live"; "/metrics"; "/openapi.json"; "/docs"; "/redoc"]
  | Panic => False
  end.
Proof. vm_compute. reflexivity. Qed.

(** When a plugin fails to start, those before it are not shut down. *)
Example started_stays_up :
  with_plugins (plugin_register "bad" (plugin_register "good" plugins_new))
    (λ w, Ret (None, w)) (server_world ex_new 0) = Ret (Some "no licence", server_world ex_new 2).
Proof. reflexivity. Qed.

Lemma ex_runs s a : ex_build = Ret s → runs (λ _, "{}") (λ _ n, n) None s (ex_frontend s) (server_world s a).
Proof.
  intros Hs. split; [reflexivity|]. injection Hs as <-. eexists. split; [reflexivity|].
  split; [apply HttpRouter.cache_new_ok|]. eexists. reflexivity.
Qed.

(** The same server with a CORS layer before the gate. *)
Definition shop : Cors := allow_origin "https://shop.test" cors_new.

Definition ex_cors_build : exec (Server Table Z string) :=
  s ← add_custom_route "GET" "/me" me (add_cors shop ex_new);
  with_oauth2_password Middleware.Examples.form id Middleware.Examples.provider s.

(** It answers the preflights of its origin itself, without a token. *)
Example preflight_before_gate :
  match ex_cors_build with
  | Ret s =>
      match ex_handle s (new_request "OPTIONS" "/me" None [("origin", "https://shop.test")] None) (server_world s 100) with
      | Ret (r, _) => status r = 204
      | Panic => False
      end
  | Panic => False
  end.
Proof. vm_compute. reflexivity. Qed.

Lemma oauth2_guards_server_witness :
  ∃ r w', (s ← ex_cors_build; ex_handle s (get_me [("authorization", "Bearer bad")]) (server_world s 100)) = Ret (r, w') ∧
    status r = 401 ∧ w_app w' = 100.
Proof.
  assert (∃ s', ex_cors_build = Ret s') as [s' Hb] by (eexists; reflexivity). rewrite Hb. unfold mbind, exec_bind.
  assert (∃ s0, add_custom_route "GET" "/me" me (add_cors shop ex_new) = Ret s0) as [s0 Hs0] by (eexists; reflexivity).
  unfold ex_cors_build in Hb. rewrite Hs0 in Hb. simpl in Hb.
  destruct (oauth2_guards_server (λ _, 0) (λ _ _, None) (λ _ _, f64_zero) Middleware.Examples.form id
    Middleware.Examples.provider s0 s' [] (handler (fe_chain (ex_frontend s'))) (ex_frontend s') None
    (get_me [("authorization", "Bearer bad")]) (server_world s' 100)) as (r & w' & Hr & Hst & Ha & _).
  - exact Hb.
  - injection Hs0 as <-. constructor; [|constructor]. apply cors_hands_on. reflexivity.
  - injection Hs0 as <-. injection Hb as <-. reflexivity.
  - injection Hs0 as <-. injection Hb as <-. repeat split.
  - reflexivity.
  - intros token Ht. vm_compute in Ht. injection Ht as <-. reflexivity.
  - exists r, w'. split; [exact Hr|]. split; [exact Hst|]. rewrite Ha. reflexivity.
Defined.

Lemma oauth2_login_witness :
  ∃ w', (s ← ex_build; ex_handle s Middleware.Examples.token_request (server_world s 100))
          = Ret (token_response Middleware.Examples.provider "good", w') ∧ w_app w' = 100 ∧
  ∃ w2, (s ← ex_build; ex_handle s (get_me [("authorization", "Bearer good")]) (server_world s 200))
          = Ret (plain_response 200 "ann", w2).
Proof.
  assert (∃ s0, add_custom_route "GET" "/me" me ex_new = Ret s0) as [s0 Hs0] by (eexists; reflexivity).
  assert (∃ s', ex_build = Ret s') as [s' Hb] by (eexists; reflexivity).
  pose proof (ex_runs s' 100 Hb) as Hr1. pose proof (ex_runs s' 200 Hb) as Hr2.
  rewrite Hb. unfold mbind, exec_bind. unfold ex_build in Hb. rewrite Hs0 in Hb. simpl in Hb.
  destruct (oauth2_login (λ _, "{}") (λ _ n, n) None (λ _, 0) (λ _ _, None) (λ _ _, f64_zero)
    Middleware.Examples.form id Middleware.Examples.provider s0 s' (ex_frontend s') None
    Middleware.Examples.token_request (server_world s' 100) "form"
    [("grant_type", "password"); ("username", "ann"); ("password", "pw")] "ann" "pw"
    [("roles", JArray [JString "admin"])] "good") as [(w' & Hw & Ha) Hme].
  - exact Middleware.Examples.provider_verifies.
  - exact Hb.
  - injection Hs0 as <-. reflexivity.
  - exact Hr1.
  - reflexivity.
  - injection Hs0 as <-. injection Hb as <-. repeat split.
  - reflexivity.
  - reflexivity.
  - reflexivity.
  - reflexivity.
  - reflexivity.
  - reflexivity.
  - reflexivity.
  - repeat constructor. intros []%elem_of_nil.
  - reflexivity.
  - reflexivity.
  - exists w'. split; [exact Hw|]. split; [rewrite Ha; reflexivity|].
    destruct (Hme None (get_me [("authorization", "Bearer good")]) (server_world s' 200) me
      (plain_response 200 "ann") 200) as (w2 & Hw2 & _).
    + exact Hr2.
    + injection Hs0 as <-. injection Hb as <-. repeat split.
    + injection Hs0 as <-. injection Hb as <-. eexists. split; reflexivity.
    + reflexivity.
    + reflexivity.
    + vm_compute. discriminate.
    + reflexivity.
    + discriminate.
    + exists w2. exact Hw2.
Defined.

Lemma builder_keeps_routes_witness :
  match (s ← with_default_routes ex_new; add_custom_route "GET" "/me" me s) with
  | Ret s => has_route s "GET" "/graphql" HGraphQL ∧ ¬ custom_handler_set s = true
  | Panic => False
  end.
Proof.
  assert (match (s ← with_default_routes ex_new; add_custom_route "GET" "/me" me s) with
          | Ret s => default_routes_set s | Panic => false end = true) as Hdef by (vm_compute; reflexivity).
  destruct (with_default_routes ex_new) as [s1|] eqn:H1; [|discriminate Hdef]. unfold mbind, exec_bind in *.
  destruct (add_custom_route "GET" "/me" me s1) as [s2|] eqn:H2; [|discriminate Hdef].
  destruct (builder_keeps_routes (λ k, k) (Tcp "127.0.0.1:8080") s2) as (_ & Hc & Hd & _).
  - eapply rtc_l; [apply b_default_routes; exact H1|]. eapply rtc_once. eapply b_custom_route. exact H2.
  - split; [apply Hd; exact Hdef|]. intros Hcs. rewrite (Hc Hcs) in Hdef. discriminate Hdef.
Defined.
End Examples.
