(* ===== verification/Connections.v ===== *)
(** * Connections: the accept loops of the server

    [crates/justapi-core/src/server/mod.rs]: [serve_connection],
    [serve_generic] and the loop of [serve_with_tls], as events on a shared
    state: the set of the tasks, the permits and the gauge.  What happens on a
    connection is [Serve]; TLS itself is not modelled. *)

From S2P Require Import Prelude F32 Text F64 Http Metrics.

#[local] Open Scope string_scope.
#[local] Open Scope Z_scope.

(** ** Tasks and events *)

(** [str::parse::<usize>] and the two settings of the environment. *)
Definition request_timeout (env : option string) : Z :=
  default 60 (env ≫= parse_u64).

Definition max_connections (env : option string) : Z :=
  match env ≫= parse_u64 with
  | Some n => if 0 <? n then n else 10000
  | None => 10000
  end.

(** A connection's task: waiting for a permit, serving, ended, ended by a panic
    of its future, or dropped with the set; of a dropped one, whether the gauge
    counted it. *)
Inductive Task := Waiting | Open | Closed | Panicked | Aborted (counted : bool).

#[export] Instance Task_eq_dec : EqDecision Task.
Proof. solve_decision. Defined.

Inductive Phase := Accepting | Draining | Stopped (err : option string).

(** [tasks] is the [JoinSet]: a task stays in it until it is joined. *)
Record Loop (A : Type) := mk_loop { phase : Phase; tasks : list Task; gauge : Metrics A }.
Arguments mk_loop {A}.
Arguments phase {A}.
Arguments tasks {A}.
Arguments gauge {A}.

Inductive Event :=
| EvAccept
| EvAcceptError (e : string)
| EvShutdown
| EvPermit (i : nat)
| EvClose (i : nat)
| EvPanic (i : nat)
| EvDrained
| EvTimeout.

Section loop.
Context {A : Type}.

(** [tls]: the gauge counts a connection when it is accepted, not when it has
    its permit.  [shutdown]: there is a token. *)
Context (tls shutdown : bool) (permits : Z).
Implicit Types (s : Loop A) (ts : list Task).

Definition loop_new (m : Metrics A) : Loop A := mk_loop Accepting [] m.

Definition is_open (t : Task) : bool := bool_decide (t = Open).
Definition is_waiting (t : Task) : bool := bool_decide (t = Waiting).
Definition finished (t : Task) : bool := negb (is_open t || is_waiting t).

(** The gauge counts this task and nobody will take it off again. *)
Definition stuck (t : Task) : bool := match t with Panicked | Aborted true => true | _ => false end.

Definition counted (t : Task) : bool := is_open t || (tls && is_waiting t).

Definition open_count ts : Z := Z.of_nat (count is_open ts).

(** Dropping the set. *)
Definition abort (t : Task) : Task := if finished t then t else Aborted (counted t).

Definition opened (b : bool) (m : Metrics A) : Metrics A := if b then run_steps connection_opened m else m.

Definition loop_step (e : Event) s : option (Loop A) :=
  let 'mk_loop ph ts m := s in
  match e, ph with
  | EvAccept, Accepting => Some (mk_loop Accepting (ts ++ [Waiting])%list (opened tls m))
  | EvAcceptError err, Accepting => Some (mk_loop (Stopped (Some err)) (abort <$> ts) m)
  | EvShutdown, Accepting => if shutdown then Some (mk_loop Draining ts m) else None
  | EvPermit i, (Accepting | Draining) =>
      if bool_decide (ts !! i = Some Waiting) && (open_count ts <? permits)
      then Some (mk_loop ph (<[i := Open]> ts) (opened (negb tls) m)) else None
  | EvClose i, (Accepting | Draining) =>
      if bool_decide (ts !! i = Some Open)
      then Some (mk_loop ph (<[i := Closed]> ts) (run_steps connection_closed m)) else None
  | EvPanic i, (Accepting | Draining) =>
      if bool_decide (ts !! i = Some Open) then Some (mk_loop ph (<[i := Panicked]> ts) m) else None
  | EvDrained, Draining =>
      if forallb finished ts then Some (mk_loop (Stopped None) ts m) else None
  | EvTimeout, Draining => Some (mk_loop (Stopped None) (abort <$> ts) m)
  | _, _ => None
  end.

Fixpoint loop_run (es : list Event) s : option (Loop A) :=
  match es with
  | [] => Some s
  | e :: es' => s' ← loop_step e s; loop_run es' s'
  end.

(** *** The account of the connections *)

Definition is_accept (e : Event) : bool := match e with EvAccept => true | _ => false end.
Definition accepts (es : list Event) : nat := count is_accept es.

(** The gauge is one up for this task. *)
Definition weighs (t : Task) : bool := counted t || stuck t.

Definition stopped s : bool := match phase s with Stopped _ => true | _ => false end.

Record loop_inv (n : nat) s : Prop := {
  li_open : open_count (tasks s) <= permits;
  li_tasks : length (tasks s) = n;
  li_gauge : active_connections (gauge s) = Z.of_nat (count weighs (tasks s)) mod 2 ^ 64;
  li_stopped : stopped s = true → Forall (λ t, finished t = true) (tasks s) }.

Lemma active_opened b (m : Metrics A) :
  active_connections (opened b m) = if b then wadd64 (active_connections m) 1 else active_connections m.
Proof. by destruct b, m as [? ? ? ? ? ? ? ? ? [? ? ?] ?]. Qed.

Lemma active_closed (m : Metrics A) :
  active_connections (run_steps connection_closed m) = wadd64 (active_connections m) (-1).
Proof. by destruct m as [? ? ? ? ? ? ? ? ? [? ? ?] ?]. Qed.

Lemma abort_weighs t : weighs (abort t) = weighs t.
Proof. unfold weighs, abort, counted. destruct t, tls; try done. all: by destruct counted. Qed.

Lemma abort_finished t : finished (abort t) = true.
Proof. by destruct t. Qed.

Lemma count_abort ts : count weighs (abort <$> ts) = count weighs ts.
Proof. induction ts as [|t ts IH]; [done|]. csimpl. by rewrite abort_weighs, IH. Qed.

Lemma open_abort ts : open_count (abort <$> ts) = 0.
Proof.
  unfold open_count. rewrite count_0; [done|]. intros ? (t & -> & _)%list_elem_of_fmap. by destruct t.
Qed.

Lemma wadd64_count n k : wadd64 (Z.of_nat n mod 2 ^ 64) k = (Z.of_nat n + k) mod 2 ^ 64.
Proof. unfold wadd64. by rewrite Zplus_mod_idemp_l. Qed.

Lemma wadd64_mod x k : wadd64 (x mod 2 ^ 64) k = (x mod 2 ^ 64 + k) mod 2 ^ 64.
Proof. done. Qed.

Lemma weighs_waiting : weighs Waiting = tls.
Proof. unfold weighs, counted. by destruct tls. Qed.

(** A task of an accepting or draining loop moves from [x] to [y]. *)
Lemma task_move ts i x y :
  ts !! i = Some x →
  Z.of_nat (count weighs (<[i := y]> ts)) =
    Z.of_nat (count weighs ts) + (Z.of_nat (bnat (weighs y)) - Z.of_nat (bnat (weighs x))) ∧
  open_count (<[i := y]> ts) = open_count ts + (Z.of_nat (bnat (is_open y)) - Z.of_nat (bnat (is_open x))).
Proof.
  intros Hi. pose proof (count_insert weighs ts i x y Hi). pose proof (count_insert is_open ts i x y Hi).
  unfold open_count. lia.
Qed.

Lemma move_inv n ph ts m m' i x y :
  loop_inv n (mk_loop ph ts m) → ts !! i = Some x → stopped (mk_loop ph ts m) = false →
  active_connections m' =
    (active_connections m + (Z.of_nat (bnat (weighs y)) - Z.of_nat (bnat (weighs x)))) mod 2 ^ 64 →
  (y = Open → open_count ts < permits) → loop_inv n (mk_loop ph (<[i := y]> ts) m').
Proof.
  intros [Ho Hl Hg Hs] Hi Hph Hm Hy. simpl in *. destruct (task_move ts i x y Hi) as [Hw Hop].
  constructor; simpl.
  - rewrite Hop. destruct (is_open y) eqn:Hyo; [apply bool_decide_eq_true in Hyo; specialize (Hy Hyo)|];
      destruct (is_open x); simpl; lia.
  - by rewrite length_insert.
  - by rewrite Hm, Hg, Hw, Zplus_mod_idemp_l.
  - unfold stopped in *. simpl in *. by destruct ph.
Qed.

Lemma permit_inv n ph ts m i s' :
  loop_inv n (mk_loop ph ts m) → stopped (mk_loop ph ts m) = false →
  (if bool_decide (ts !! i = Some Waiting) && (open_count ts <? permits)
   then Some (mk_loop ph (<[i := Open]> ts) (opened (negb tls) m)) else None) = Some s' → loop_inv n s'.
Proof.
  intros Hinv Hph. destruct (bool_decide _) eqn:Hi; [|done]. apply bool_decide_eq_true in Hi. simpl.
  destruct (Z.ltb_spec (open_count ts) permits); [|done]. intros [= <-].
  pose proof (li_gauge _ _ Hinv) as Hg. simpl in Hg.
  eapply move_inv; [done..| |done]. rewrite active_opened, weighs_waiting, Hg. simpl.
  destruct tls; simpl; [by rewrite Z.add_0_r, Z.mod_mod by done|apply wadd64_mod].
Qed.

Lemma close_inv n ph ts m i s' :
  loop_inv n (mk_loop ph ts m) → stopped (mk_loop ph ts m) = false →
  (if bool_decide (ts !! i = Some Open)
   then Some (mk_loop ph (<[i := Closed]> ts) (run_steps connection_closed m)) else None) = Some s' → loop_inv n s'.
Proof.
  intros Hinv Hph. destruct (bool_decide _) eqn:Hi; [|done]. apply bool_decide_eq_true in Hi. intros [= <-].
  eapply move_inv; [done..| |done]. unfold weighs, counted. destruct tls; apply (active_closed m).
Qed.

Lemma panic_inv n ph ts m i s' :
  loop_inv n (mk_loop ph ts m) → stopped (mk_loop ph ts m) = false →
  (if bool_decide (ts !! i = Some Open) then Some (mk_loop ph (<[i := Panicked]> ts) m) else None) = Some s' →
  loop_inv n s'.
Proof.
  intros Hinv Hph. destruct (bool_decide _) eqn:Hi; [|done]. apply bool_decide_eq_true in Hi. intros [= <-].
  pose proof (li_gauge _ _ Hinv) as Hg. simpl in Hg.
  eapply move_inv; [done..| |done]. rewrite Hg. unfold weighs at 3 4, counted.
  destruct tls; cbn; by rewrite Z.add_0_r, Z.mod_mod.
Qed.

Lemma abort_inv n ph ts m res :
  0 <= permits → loop_inv n (mk_loop ph ts m) → loop_inv n (mk_loop (Stopped res) (abort <$> ts) m).
Proof.
  intros Hpos [Ho Hl Hg Hs]. constructor; simpl in *.
  - by rewrite open_abort.
  - by rewrite length_fmap.
  - by rewrite count_abort.
  - intros _. apply Forall_forall. intros ? (t & -> & _)%list_elem_of_fmap. apply abort_finished.
Qed.

Lemma loop_step_inv e n s s' :
  0 <= permits → loop_inv n s → loop_step e s = Some s' → loop_inv (if is_accept e then S n else n) s'.
Proof.
  intros Hpos Hinv. pose proof Hinv as [Ho Hl Hg Hs]. destruct s as [ph ts m]. simpl in *.
  assert (active_connections m mod 2 ^ 64 = active_connections m) as Hmod.
  { rewrite Hg. by apply Z.mod_mod. }
  destruct e as [|err| |i|i|i| |], ph as [| |res]; simpl; try discriminate.
  - intros [= <-]. constructor; simpl; [|by rewrite length_app, Hl, Nat.add_1_r| |done].
    + unfold open_count in *. rewrite count_app. simpl. lia.
    + rewrite active_opened, Hg, count_app. cbn [count]. rewrite weighs_waiting.
      destruct tls; simpl; [|by rewrite Nat.add_0_r]. rewrite wadd64_count. f_equal. lia.
  - intros [= <-]. by apply abort_inv with Accepting.
  - destruct shutdown; [|done]. intros [= <-]. by constructor.
  - by apply permit_inv.
  - by apply permit_inv.
  - by apply close_inv.
  - by apply close_inv.
  - by apply panic_inv.
  - by apply panic_inv.
  - destruct (forallb finished ts) eqn:Hf; [|done]. intros [= <-]. constructor; simpl; try done.
    intros _. apply Forall_forall. intros t Ht. rewrite forallb_forall in Hf. by apply Hf, list_elem_of_In.
  - intros [= <-]. by apply abort_inv with Draining.
Qed.

Lemma loop_run_inv es n s s' :
  0 <= permits → loop_inv n s → loop_run es s = Some s' → loop_inv (n + accepts es) s'.
Proof.
  intros Hpos. revert n s. induction es as [|e es IH]; intros n s Hinv; simpl.
  - intros [= <-]. unfold accepts. simpl. by rewrite Nat.add_0_r.
  - intros (s1 & Hs1 & Hrun)%bind_Some. apply (loop_step_inv e n) in Hs1; [|done..].
    apply (IH _ _ Hs1) in Hrun. unfold accepts in *. simpl. by destruct (is_accept e); rewrite ?Nat.add_succ_r.
Qed.

Lemma max_connections_pos env : 0 < max_connections env.
Proof. unfold max_connections. destruct (env ≫= parse_u64) as [n|]; [|done]. by destruct (Z.ltb_spec 0 n). Qed.

Lemma count_weighs ts :
  Z.of_nat (count weighs ts) =
  open_count ts + (if tls then Z.of_nat (count is_waiting ts) else 0) + Z.of_nat (count stuck ts).
Proof.
  unfold open_count. induction ts as [|t ts IH]; [by destruct tls|]. cbn [count].
  assert (Z.of_nat (bnat (weighs t)) = Z.of_nat (bnat (is_open t)) +
    (if tls then Z.of_nat (bnat (is_waiting t)) else 0) + Z.of_nat (bnat (stuck t))) as Ht.
  { unfold weighs, counted. destruct t as [| | | |[|]], tls; reflexivity. }
  destruct tls; lia.
Qed.

(** Connections are bounded and accounted for.  Whatever the clients do and
    however the tasks interleave: never more connections are served at a time
    than [JUSTAPI_MAX_CONNECTIONS] says, 10000 when it says nothing positive;
    each accepted connection has its task in the set until the loop stops; the
    gauge is the number of connections that are served, with TLS also of those
    that wait for a permit, and of those that ended by a panic or were dropped
    while it counted them; and no task outlives the loop. *)
Theorem connections_accounted env m es s :
  permits = max_connections env → active_connections m = 0 → Z.of_nat (accepts es) < 2 ^ 64 →
  loop_run es (loop_new m) = Some s →
  open_count (tasks s) <= permits ∧
  length (tasks s) = accepts es ∧
  active_connections (gauge s) =
    open_count (tasks s) + (if tls then Z.of_nat (count is_waiting (tasks s)) else 0)
    + Z.of_nat (count stuck (tasks s)) ∧
  (stopped s = true → Forall (λ t, finished t = true) (tasks s)).
Proof.
  intros Hp Hm Hn Hrun. assert (0 <= permits) as Hpos.
  { rewrite Hp. pose proof (max_connections_pos env). lia. }
  assert (loop_inv (accepts es) s) as [Ho Hl Hg Hs].
  { apply (loop_run_inv es 0%nat (loop_new m)); [done| |done]. constructor; [done..| |done]. simpl. by rewrite Hm. }
  split_and!; [done..| |done]. rewrite Hg, Z.mod_small, count_weighs; [done|].
  pose proof (count_le_length weighs (tasks s)). lia.
Qed.

(** *** Draining *)

(** The events that drop nobody. *)
Definition graceful (e : Event) : bool := match e with EvPermit _ | EvClose _ | EvDrained => true | _ => false end.

(** The permits that are still to be given and the ends that are to come. *)
Definition work ts : nat := (2 * count is_waiting ts + count is_open ts)%nat.

Lemma work_insert ts i x y :
  ts !! i = Some x →
  (work (<[i := y]> ts) + (2 * bnat (is_waiting x) + bnat (is_open x)) =
   work ts + (2 * bnat (is_waiting y) + bnat (is_open y)))%nat.
Proof.
  intros Hi. pose proof (count_insert is_waiting ts i x y Hi). pose proof (count_insert is_open ts i x y Hi).
  unfold work. lia.
Qed.

(** A draining loop is done, or one of its tasks can move. *)
Lemma drain_progress ts :
  0 < permits →
  forallb finished ts = true ∨ (∃ i, ts !! i = Some Open) ∨ (∃ i, ts !! i = Some Waiting ∧ open_count ts < permits).
Proof.
  intros Hpos. destruct (decide (Open ∈ ts)) as [Ho|Ho].
  { apply list_elem_of_lookup in Ho as [i Hi]. eauto. }
  destruct (decide (Waiting ∈ ts)) as [Hw|Hw].
  - apply list_elem_of_lookup in Hw as [i Hi]. right. right. exists i. split; [done|].
    unfold open_count. rewrite count_0; [done|]. intros t Ht. apply bool_decide_eq_false. by intros ->.
  - left. apply forallb_forall. intros t Ht%list_elem_of_In. by destruct t.
Qed.

(** One task moves on. *)
Definition moves (e : Event) ts ts' : Prop :=
  ∃ i x y, ts !! i = Some x ∧ ts' = <[i := y]> ts ∧
    ((x = Waiting ∧ y = Open) ∨ (x = Open ∧ y = Closed ∧ e = EvClose i) ∨ (x = Open ∧ y = Panicked ∧ e = EvPanic i)).

Lemma moves_work e ts ts' : moves e ts ts' → (work ts' < work ts)%nat.
Proof.
  intros (i & x & y & Hi & -> & Hxy). pose proof (work_insert ts i x y Hi) as Hw.
  destruct Hxy as [[-> ->]|[(-> & -> & _)|(-> & -> & _)]]; simpl in Hw; lia.
Qed.

Lemma drain_step e ts m s' :
  loop_step e (mk_loop Draining ts m) = Some s' →
  (∃ ts' m', s' = mk_loop Draining ts' m' ∧ moves e ts ts') ∨
  (e = EvDrained ∧ forallb finished ts = true ∧ s' = mk_loop (Stopped None) ts m) ∨
  (e = EvTimeout ∧ s' = mk_loop (Stopped None) (abort <$> ts) m).
Proof.
  destruct e as [|err| |i|i|i| |]; simpl; try discriminate.
  - destruct (bool_decide _) eqn:Hi; [|done]. apply bool_decide_eq_true in Hi. simpl.
    destruct (_ <? _); [|done]. intros [= <-]. left. eexists _, _. split; [done|]. exists i, Waiting, Open. by split_and!; [..|left].
  - destruct (bool_decide _) eqn:Hi; [|done]. apply bool_decide_eq_true in Hi. intros [= <-].
    left. eexists _, _. split; [done|]. exists i, Open, Closed. by split_and!; [..|right; left].
  - destruct (bool_decide _) eqn:Hi; [|done]. apply bool_decide_eq_true in Hi. intros [= <-].
    left. eexists _, _. split; [done|]. exists i, Open, Panicked. by split_and!; [..|right; right].
  - destruct (forallb finished ts) eqn:Hf; [|done]. intros [= <-]. right. by left.
  - intros [= <-]. right. by right.
Qed.

Lemma loop_run_stopped es err ts m s' :
  loop_run es (mk_loop (Stopped err) ts m) = Some s' → es = [] ∧ s' = mk_loop (Stopped err) ts m.
Proof. destruct es as [|e es]; simpl; [by intros [= <-]|]. by destruct e. Qed.

(** How the task [i] got from [t] to [t'] while the loop drained. *)
Definition ended_by (es : list Event) (i : nat) (t t' : Task) : Prop :=
  if finished t then t' = t
  else finished t' = true →
    (t' = Closed ∧ EvClose i ∈ es) ∨ (t' = Panicked ∧ EvPanic i ∈ es) ∨
    (EvTimeout ∈ es ∧ ∃ counted, t' = Aborted counted).

Lemma ended_by_refl es i t : ended_by es i t t.
Proof. unfold ended_by. by destruct t. Qed.

Lemma ended_by_cons e es i t t' : ended_by es i t t' → ended_by (e :: es) i t t'.
Proof. unfold ended_by. destruct (finished t); [done|]. intros Hend Hf. specialize (Hend Hf). set_solver. Qed.

(** The first event moved the task to [u]. *)
Lemma ended_by_step e es ts ts' i t u t' :
  moves e ts ts' → ts !! i = Some t → ts' !! i = Some u → ended_by es i u t' → ended_by (e :: es) i t t'.
Proof.
  intros (j & x & y & Hj & -> & Hxy) Ht [(-> & <- & _)|[Hne Hu]]%list_lookup_insert_Some Hend; simplify_eq;
    [|by apply ended_by_cons].
  destruct Hxy as [[-> ->]|[(-> & -> & ->)|(-> & -> & ->)]].
  - by apply (ended_by_cons e) in Hend.
  - unfold ended_by in *. simpl in *. subst. intros _. left. split; [done|left].
  - unfold ended_by in *. simpl in *. subst. intros _. right. left. split; [done|left].
Qed.

Lemma drain_run es ts m s' :
  loop_run es (mk_loop Draining ts m) = Some s' →
  (phase s' = Draining ∧ (length es + work (tasks s') <= work ts)%nat ∨
   phase s' = Stopped None ∧ (length es <= S (work ts))%nat ∧ Forall (λ t, finished t = true) (tasks s')) ∧
  length (tasks s') = length ts ∧
  ∀ i t t', ts !! i = Some t → tasks s' !! i = Some t' → ended_by es i t t'.
Proof.
  revert ts m. induction es as [|e es IH]; intros ts m; cbn [loop_run].
  { intros [= <-]. simpl. split_and!; [left; split; [done|lia]|done|].
    intros i t t' Ht Ht'. simplify_eq. apply ended_by_refl. }
  intros (s1 & He & Hrun)%bind_Some.
  apply drain_step in He as [(ts1 & m1 & -> & Hmv)|[(-> & Hf & ->)|(-> & ->)]].
  - pose proof (moves_work _ _ _ Hmv) as Hw. destruct (IH _ _ Hrun) as (Hph & Hlen & Hend).
    assert (length ts1 = length ts) as Hlen1 by (destruct Hmv as (i & x & y & _ & -> & _); apply length_insert).
    split; [|split; [congruence|]].
    + destruct Hph as [[? ?]|(? & ? & ?)]; [left|right]; (split_and!; [done|cbn [length]; lia|..]; done).
    + intros i t t' Ht Ht'. assert (is_Some (ts1 !! i)) as [u Hu].
      { apply lookup_lt_is_Some. rewrite Hlen1. by eapply lookup_lt_Some. }
      by eapply ended_by_step, Hend.
  - apply loop_run_stopped in Hrun as [-> ->]. simpl. split_and!; [right; split_and!; [done|lia|]|done|].
    + apply Forall_forall. intros t Ht. rewrite forallb_forall in Hf. by apply Hf, list_elem_of_In.
    + intros i t t' Ht Ht'. simplify_eq. apply ended_by_refl.
  - apply loop_run_stopped in Hrun as [-> ->]. simpl.
    split_and!; [right; split_and!; [done|lia|]|by rewrite length_fmap|].
    + apply Forall_forall. intros ? (t & -> & _)%list_elem_of_fmap. apply abort_finished.
    + intros i t t' Ht. rewrite list_lookup_fmap, Ht. intros [= <-]. unfold ended_by, abort.
      destruct (finished t); [done|]. intros _. right. right. split; [left|by eexists].
Qed.

Lemma work_le ts : (work ts <= 2 * length ts)%nat.
Proof. unfold work. induction ts as [|t ts IH]; [done|]. destruct t; simpl; lia. Qed.

(** C39: Draining ends, and loses nobody before the timeout.  Take any state in
    which the loop drains and any schedule of events from there.  It has at
    most two events for each connection and one more; the set keeps a task for
    each connection; and the loop drains still or has stopped without error.
    While it drains some permit, end of a connection or the end of the drain
    is possible, so it never hangs but for a connection that does not end by
    itself, and the timeout stops it at once, dropping exactly the tasks that
    have not ended.  When it has stopped, every task has ended: those that had
    ended before are as they were, and every other one because its own
    connection was closed (or its future panicked) in the schedule, unless the
    timeout fired. *)
Theorem drain_completes env s es s' :
  permits = max_connections env → phase s = Draining → loop_run es s = Some s' →
  (length es <= 2 * length (tasks s) + 1)%nat ∧ length (tasks s') = length (tasks s) ∧
  (∀ i t t', tasks s !! i = Some t → tasks s' !! i = Some t' → ended_by es i t t') ∧
  match phase s' with
  | Draining =>
      (∃ e s'', graceful e = true ∧ loop_step e s' = Some s'') ∧
      loop_step EvTimeout s' = Some (mk_loop (Stopped None) (abort <$> tasks s') (gauge s'))
  | Stopped err => err = None ∧ Forall (λ t, finished t = true) (tasks s')
  | Accepting => False
  end.
Proof.
  intros Hp Hd Hrun. destruct s as [ph ts g]. simpl in *. subst ph. pose proof (work_le ts).
  destruct (drain_run _ _ _ _ Hrun) as (Hph & Hlen & Hend).
  destruct Hph as [[Hph Hl]|(Hph & Hl & Hf)]; rewrite Hph; split_and!; try done; try lia.
  - destruct s' as [ph ts' g']. simpl in *. subst ph.
    assert (0 < permits) as Hpos by (rewrite Hp; apply max_connections_pos).
    destruct (drain_progress ts' Hpos) as [Hf|[[i Hi]|(i & Hi & Hlt)]].
    + exists EvDrained. eexists. split; [done|]. simpl. by rewrite Hf.
    + exists (EvClose i). eexists. split; [done|]. simpl. by rewrite bool_decide_true.
    + exists (EvPermit i). eexists. split; [done|]. simpl. rewrite bool_decide_true by done.
      by rewrite (proj2 (Z.ltb_lt _ _) Hlt).
  - destruct s' as [ph ts' g']. simpl in *. by subst ph.
Qed.
End loop.

(** ** Concrete loops *)

Module Examples.

(** Two connections and one permit; the first connection panics. *)
Definition ex_events : list Event := [EvAccept; EvAccept; EvPermit 0; EvPanic 0; EvPermit 1; EvShutdown].

Lemma connections_accounted_witness :
  ∃ s, loop_run false true (max_connections (Some "1")) ex_events (loop_new (metrics_new (P := Z))) = Some s ∧
    open_count (tasks s) <= 1 ∧ length (tasks s) = 2%nat ∧ active_connections (gauge s) = 2.
Proof.
  destruct (loop_run false true (max_connections (Some "1")) ex_events (loop_new (metrics_new (P := Z)))) as [s|] eqn:Hs;
    [|discriminate Hs].
  exists s. split; [reflexivity|].
  destruct (connections_accounted false true (max_connections (Some "1")) (Some "1") metrics_new ex_events s)
    as (Ho & Hl & Hg & _); [reflexivity|reflexivity|reflexivity|exact Hs|].
  split; [exact Ho|]. split; [exact Hl|]. rewrite Hg. injection Hs as <-. reflexivity.
Defined.

(** Nothing bounds the connections that are accepted and wait. *)
Example accepts_unbounded n :
  loop_run false true 1 (replicate n EvAccept) (loop_new (metrics_new (P := Z)))
  = Some (mk_loop Accepting (replicate n Waiting) metrics_new).
Proof.
  assert (∀ ts, loop_run false true 1 (replicate n EvAccept) (mk_loop Accepting ts (metrics_new (P := Z)))
    = Some (mk_loop Accepting (ts ++ replicate n Waiting)%list metrics_new)) as Hgen; [|apply (Hgen [])].
  induction n as [|n IH]; intros ts; simpl; [by rewrite app_nil_r|].
  rewrite IH. by rewrite <- app_assoc.
Qed.

(** A failing accept drops the connections at once. *)
Example accept_error_drops :
  tasks <$> loop_run false true 10 [EvAccept; EvPermit 0; EvAcceptError "too many open files"] (loop_new (metrics_new (P := Z)))
  = Some [Aborted true].
Proof. reflexivity. Qed.

Definition ex_draining : Loop Z := mk_loop Draining [Waiting; Panicked; Open] (metrics_new (P := Z)).
Definition ex_drain : list Event := [EvClose 2; EvPermit 0; EvClose 0; EvDrained].

(** Nobody is dropped here, and the drain cannot end before the last is closed. *)
Lemma drain_completes_witness :
  ∃ s', loop_run false true 10000 ex_drain ex_draining = Some s' ∧ phase s' = Stopped None ∧
    tasks s' = [Closed; Panicked; Closed] ∧ ended_by ex_drain 0 Waiting Closed ∧
    loop_run false true 10000 [EvClose 2; EvDrained] ex_draining = None.
Proof.
  destruct (loop_run false true 10000 ex_drain ex_draining) as [s'|] eqn:Hs; [|discriminate Hs].
  destruct (drain_completes false true 10000 None ex_draining ex_drain s' eq_refl eq_refl Hs) as (_ & _ & Hend & _).
  exists s'. split; [reflexivity|]. injection Hs as <-. split; [reflexivity|]. split; [reflexivity|].
  split; [by apply (Hend 0%nat Waiting Closed)|reflexivity].
Defined.
End Examples.
