(* ===== verification/Xml.v ===== *)
(** * Xml: XML bodies as JSON values and content negotiation

    [crates/justapi-core/src/xml.rs].  The reader of [quick_xml] is a
    parameter: a document is the sequence of events it yields, and the
    conversion is the loop over them.  Serialisation to XML is [quick_xml]'s,
    a parameter too.  An object is an association list; a number that is not an
    integer keeps its literal, which stands for the nearest double. *)

From Stdlib Require Import Ascii.
From S2P Require Import Prelude Text Http.

#[local] Open Scope Z_scope.

(** ** Negotiation *)

Inductive Format := FormatJson | FormatXml.

Definition content_type (f : Format) : string :=
  match f with FormatJson => "application/json" | FormatXml => "application/xml" end.

Definition or_default (s : option string) : string :=
  match s with Some s => s | None => EmptyString end.

Definition mentions_xml (s : string) : bool := contains "application/xml" s || contains "text/xml" s.

Definition negotiate (content_type accept : option string) : Format :=
  let accept := lowercase (or_default accept) in
  if mentions_xml accept then FormatXml
  else
    let ct := lowercase (or_default content_type) in
    if String.eqb accept EmptyString && mentions_xml ct then FormatXml else FormatJson.

(** ** Numbers *)

(** The digits at the front of a string and what follows. *)
Fixpoint span_digits (s : string) : string * string :=
  match s with
  | String c s' => if is_digit c then let '(d, r) := span_digits s' in (String c d, r) else (EmptyString, s)
  | EmptyString => (EmptyString, EmptyString)
  end.

Definition drop_sign (s : string) : bool * string :=
  match s with
  | String "-" s' => (true, s')
  | String "+" s' => (false, s')
  | _ => (false, s)
  end.

Definition digits_or_zero (s : string) : Z :=
  match digits_value 0 s with Some n => n | None => 0 end.

(** An exponent: nothing, or [e] or [E], a sign and digits to the end. *)
Definition parse_exponent (s : string) : option Z :=
  match s with
  | EmptyString => Some 0
  | String ("e" | "E") s' =>
      let '(neg, s') := drop_sign s' in
      match parse_digits s' with Some e => Some (if neg then - e else e) | None => None end
  | _ => None
  end.

(** The grammar of [f64::from_str] but for infinities and [nan], which give
    no JSON number: the decimal mantissa and exponent. *)
Definition parse_decimal (s : string) : option (Z * Z) :=
  let '(_, s) := drop_sign s in
  let '(ints, s) := span_digits s in
  let '(fracs, s) := match s with String "." s' => span_digits s' | _ => (EmptyString, s) end in
  if String.eqb ints EmptyString && String.eqb fracs EmptyString then None
  else
    e ← parse_exponent s;
    Some (digits_or_zero (String.append ints fracs), e - Z.of_nat (String.length fracs)).

(** Whether the nearest double of [m] times ten to the [e] is finite: it lies
    below the midpoint between the largest double and the next power of two. *)
Definition rounds_to_finite (m e : Z) : bool :=
  if 0 <=? e then m * 10 ^ e <? 2 ^ 1024 - 2 ^ 970
  else m <? (2 ^ 1024 - 2 ^ 970) * 10 ^ (- e).

Definition coerce (s : string) : json :=
  match parse_i64 s with
  | Some n => JNumber (IntNumber n)
  | None =>
      match parse_decimal s with
      | Some (m, e) => if rounds_to_finite m e then JNumber (FloatNumber s) else JString s
      | None => JString s
      end
  end.

(** ** The conversion *)

Inductive XmlEvent :=
| EStart (name : string) (attrs : list (string * string))
| EEmpty (name : string) (attrs : list (string * string))
| EText (raw : string)
| ECData (raw : string)
| EGeneralRef (raw : string)
| EEnd
| EOther                               (* comment, PI, declaration, DTD *)
| EError (e : string).

Abbreviation object := (list (string * json)).

(** A frame of the stack; its top is the head of the list. *)
Record Frame := mk_frame { frame_name : string; frame_obj : object }.

Definition attr_object (attrs : list (string * string)) : object :=
  foldl (λ o a, assoc_set (String.append "@" a.1) (coerce a.2) o) [] attrs.

(** The object case of [insert_child]: a repeated child is folded into an
    array. *)
Definition insert_field (key : string) (value : json) (o : object) : object :=
  match assoc_get key o with
  | Some existing =>
      let arr := match existing with JArray a => a ++ [value] | other => [other; value] end in
      assoc_set key (JArray arr) (assoc_remove key o)
  | None => assoc_set key value o
  end.

Definition insert_child (stack : list Frame) (key : string) (value : json) : list Frame :=
  match stack with
  | [] => [mk_frame key [(key, value)]]
  | f :: stack' => mk_frame (frame_name f) (insert_field key value (frame_obj f)) :: stack'
  end.

Definition empty_value (attrs : list (string * string)) : json :=
  match attr_object attrs with [] => JNull | o => JObject o end.

(** The value of an element at its end tag. *)
Definition close_element (o : object) (txt : string) : json :=
  let o := if String.eqb txt EmptyString then o else assoc_set "#text"%string (coerce txt) o in
  match o with
  | [] => JNull
  | [(k, v)] => if String.eqb k "#text" then v else JObject o
  | _ => JObject o
  end.

Section convert.
(** [quick_xml::escape::unescape(raw).unwrap_or_default()]. *)
Context (unescape : string → string).

Definition at_eof (stack : list Frame) (text_buf : string) : json + string :=
  match stack with
  | [] =>
      let t := trim text_buf in
      inl (if String.eqb t EmptyString then JNull else coerce t)
  | _ => inr "xml parse failed: incomplete document"%string
  end.

Fixpoint xml_loop (es : list XmlEvent) (stack : list Frame) (text_buf : string) : exec (json + string) :=
  match es with
  | [] => Ret (at_eof stack text_buf)
  | EStart name attrs :: es' => xml_loop es' (mk_frame name (attr_object attrs) :: stack) EmptyString
  | EEmpty name attrs :: es' => xml_loop es' (insert_child stack name (empty_value attrs)) text_buf
  | EText raw :: es' => xml_loop es' stack (String.append text_buf (unescape raw))
  | ECData raw :: es' => xml_loop es' stack (String.append text_buf raw)
  | EGeneralRef raw :: es' => xml_loop es' stack (String.append text_buf raw)
  | EEnd :: es' =>
      match stack with
      | [] => Panic                                       (* expect("unbalanced xml") *)
      | f :: stack' =>
          let value := close_element (frame_obj f) (trim text_buf) in
          match stack' with
          | [] => Ret (inl (JObject [(frame_name f, value)]))
          | _ => xml_loop es' (insert_child stack' (frame_name f) value) EmptyString
          end
      end
  | EOther :: es' => xml_loop es' stack text_buf
  | EError e :: _ => Ret (inr (String.append "xml parse error: " e))
  end.

Definition xml_to_json (es : list XmlEvent) : exec (json + string) := xml_loop es [] EmptyString.
End convert.

(** ** Responses *)

Section respond.
Context {SJ : SerdeJson}.
(** [quick_xml::se::to_string_with_root]. *)
Context (to_string_with_root : string → json → string + string).

Definition xml_response (st : Z) (b : string) : Response :=
  mk_response st [("content-type"%string, "application/xml"%string); content_length b] b.

Definition json_to_xml (root : string) (value : json) : string + string :=
  match to_string_with_root root value with
  | inl s => inl s
  | inr e => inr (String.append "xml serialization failed: " e)
  end.

Record XmlResponse := mk_xml_response {
  xr_root : string; xr_data : json; xr_status : Z; xr_headers : HeaderMap }.

Definition xml_response_from (root : string) (data : json) : XmlResponse :=
  mk_xml_response root data 200 [].
Definition with_status (st : Z) (x : XmlResponse) : XmlResponse :=
  mk_xml_response (xr_root x) (xr_data x) st (xr_headers x).
(** A name that is no header name is ignored. *)
Definition with_header (name value : string) (x : XmlResponse) : XmlResponse :=
  match header_name_from name with
  | Some n => mk_xml_response (xr_root x) (xr_data x) (xr_status x) (xr_headers x ++ [(n, value)])
  | None => x
  end.

Definition into_response (x : XmlResponse) : exec outcome :=
  match json_to_xml (xr_root x) (xr_data x) with
  | inr e => Ret (inr e)
  | inl b =>
      r ← build_response (xr_status x)
            ([("content-type"%string, "application/xml"%string); content_length b] ++ xr_headers x) b;
      Ret (inl r)
  end.

Definition respond (st : Z) (root : string) (value : json) (f : Format) : outcome :=
  match f with
  | FormatJson => inl (json_response st (json_to_string value))
  | FormatXml =>
      match json_to_xml root value with
      | inl s => inl (xml_response st s)
      | inr e => inr e
      end
  end.
End respond.

(** ** Documents as trees *)

(** The pieces of an element's content: elements with tags, empty elements,
    character data, CDATA sections, references to entities or characters, and
    what the conversion skips (comments and processing instructions). *)
Inductive node :=
| Elem (name : string) (attrs : list (string * string)) (children : list node)
| EmptyElem (name : string) (attrs : list (string * string))
| Txt (raw : string)
| CData (raw : string)
| Ref (name : string)
| Note.

Section node_ind.
Context (P : node → Prop).
Hypothesis Pelem : ∀ n a cs, Forall P cs → P (Elem n a cs).
Hypothesis Pempty : ∀ n a, P (EmptyElem n a).
Hypothesis Ptxt : ∀ s, P (Txt s).
Hypothesis Pcdata : ∀ s, P (CData s).
Hypothesis Pref : ∀ s, P (Ref s).
Hypothesis Pnote : P Note.

Fixpoint node_ind' (t : node) : P t :=
  match t with
  | Elem n a cs =>
      Pelem n a cs ((fix go (l : list node) : Forall P l :=
                       match l with
                       | [] => List.Forall_nil _
                       | x :: l' => List.Forall_cons _ x l' (node_ind' x) (go l')
                       end) cs)
  | EmptyElem n a => Pempty n a
  | Txt s => Ptxt s
  | CData s => Pcdata s
  | Ref s => Pref s
  | Note => Pnote
  end.
End node_ind.

(** What a reader yields for a tree. *)
Fixpoint events (t : node) : list XmlEvent :=
  match t with
  | Elem n a cs => EStart n a :: flat_map events cs ++ [EEnd]
  | EmptyElem n a => [EEmpty n a]
  | Txt s => [EText s]
  | CData s => [ECData s]
  | Ref s => [EGeneralRef s]
  | Note => [EOther]
  end.

(** XML names begin with neither of the two marks the conversion uses. *)
Definition name_ok (n : string) : bool := negb (starts_with "#" n) && negb (starts_with "@" n).

(** ** The value of a document

    The rules of the documentation of [xml_to_json], without the event loop:
    attributes are fields under [@name], children are fields under their
    names, several of one name an array in document order, and the text is
    the value of an element with nothing else and the field [#text] of any
    other. *)

(** The values of the children with a name, in document order. *)
Definition named (k : string) (kids : object) : list json :=
  (filter (λ nv : string * json, nv.1 = k) kids).*2.

Definition one_or_array (vs : list json) : json := match vs with [v] => v | _ => JArray vs end.

(** One field per name, at the place of the last child of that name. *)
Definition grouped (kids : object) : object :=
  (λ k, (k, one_or_array (named k kids))) <$> remove_dups kids.*1.

Definition attr_fields (attrs : list (string * string)) : object :=
  (λ a, (String.append "@" a.1, coerce a.2)) <$> attrs.

Definition text_field (txt : string) : object :=
  if String.eqb txt EmptyString then [] else [("#text"%string, coerce txt)].

Definition elem_value (attrs : list (string * string)) (kids : object) (txt : string) : json :=
  match attrs, kids with
  | [], [] => if String.eqb txt EmptyString then JNull else coerce txt
  | _, _ => JObject (attr_fields attrs ++ grouped kids ++ text_field txt)
  end.

Section value.
Context (unescape : string → string).

(** The text of a piece: character data is unescaped, a CDATA section stands
    for itself, a reference gives its name. *)
Definition text_of (c : node) : string :=
  match c with Txt s => unescape s | CData s => s | Ref s => s | _ => EmptyString end.

Definition all_text (cs : list node) : string :=
  foldr (λ c t, String.append (text_of c) t) EmptyString cs.

Fixpoint value (t : node) : json :=
  match t with
  | Elem n a cs =>
      elem_value a
        (flat_map (λ c, match c with Elem m _ _ | EmptyElem m _ => [(m, value c)] | _ => [] end) cs)
        (trim (all_text cs))
  | EmptyElem n a => elem_value a [] EmptyString
  | _ => JNull
  end.

Definition kid (c : node) : object :=
  match c with Elem m _ _ | EmptyElem m _ => [(m, value c)] | _ => [] end.

Definition is_elem (c : node) : bool := match c with Elem _ _ _ => true | _ => false end.

(** All text of an element comes after its last child with tags. *)
Fixpoint texts_last (cs : list node) : bool :=
  match cs with
  | [] => true
  | c :: cs' => (String.eqb (text_of c) EmptyString || negb (existsb is_elem cs')) && texts_last cs'
  end.

(** Names and attributes as in well-formed XML, and no text before a child
    with tags. *)
Fixpoint tree_ok (t : node) : Prop :=
  match t with
  | Elem n a cs => name_ok n = true ∧ NoDup a.*1 ∧ texts_last cs = true ∧
      (fix all (l : list node) : Prop := match l with [] => True | c :: l' => tree_ok c ∧ all l' end) cs
  | EmptyElem n a => name_ok n = true ∧ NoDup a.*1
  | _ => True
  end.

Lemma tree_ok_elem n a cs :
  tree_ok (Elem n a cs) ↔ name_ok n = true ∧ NoDup a.*1 ∧ texts_last cs = true ∧ Forall tree_ok cs.
Proof.
  simpl. assert ((fix all (l : list node) : Prop :=
           match l with [] => True | c :: l' => tree_ok c ∧ all l' end) cs ↔ Forall tree_ok cs) as ->; [|done].
  induction cs as [|c cs IH]; [by split|]. rewrite Forall_cons. tauto.
Qed.

Lemma value_elem n a cs :
  value (Elem n a cs) = elem_value a (flat_map kid cs) (trim (all_text cs)).
Proof. done. Qed.

(** The text the loop has at an end tag: what follows the last child with
    tags. *)
Definition text_after (t : string) (c : node) : string :=
  if is_elem c then EmptyString else String.append t (text_of c).

Lemma kept_text t cs :
  texts_last cs = true →
  foldl text_after t cs = if existsb is_elem cs then all_text cs else String.append t (all_text cs).
Proof.
  revert t. induction cs as [|c cs IH]; intros t; simpl; [by rewrite str_append_nil_r|].
  intros [Hc Hcs]%andb_true_iff. rewrite IH by done. unfold text_after.
  destruct (is_elem c) eqn:He; simpl.
  - destruct c; try done. simpl. by destruct (existsb is_elem cs).
  - destruct (existsb is_elem cs); [|by rewrite <- str_append_assoc].
    rewrite orb_false_r in Hc. by apply String.eqb_eq in Hc as ->.
Qed.
End value.

(** ** The shape of the result *)

Definition event_ok (e : XmlEvent) : Prop :=
  match e with EStart n _ | EEmpty n _ => name_ok n = true | _ => True end.

(** The JSON values of elements and of the fields of their objects. *)
Inductive xml_value : json → Prop :=
| xv_null : xml_value JNull
| xv_number n : xml_value (JNumber n)
| xv_string s : xml_value (JString s)
| xv_object o : NoDup o.*1 → (∀ k v, (k, v) ∈ o → xml_field v) → xml_value (JObject o)
with xml_field : json → Prop :=
| xf_one v : xml_value v → xml_field v
| xf_many l : (2 ≤ length l)%nat → (∀ v, v ∈ l → xml_value v) → xml_field (JArray l).

Definition object_ok (o : object) : Prop :=
  NoDup o.*1 ∧ "#text"%string ∉ o.*1 ∧ ∀ k v, (k, v) ∈ o → xml_field v.

Lemma coerce_value s : xml_value (coerce s).
Proof. unfold coerce. repeat case_match; constructor. Qed.

Lemma xml_value_not_array l : ¬ xml_value (JArray l).
Proof. inversion 1. Qed.

Lemma attr_object_ok attrs :
  object_ok (attr_object attrs) ∧ ∀ k, k ∈ (attr_object attrs).*1 → name_ok k = false.
Proof.
  unfold attr_object. rewrite <- (rev_involutive attrs). induction (rev attrs) as [|[k v] l IH]; simpl.
  - split; [split_and!; [constructor|by intros ?%elem_of_nil|by intros ?? ?%elem_of_nil]|by intros ? ?%elem_of_nil].
  - rewrite foldl_app. simpl. destruct IH as [(Hnd & Ht & Hv) Hk].
    set (o := foldl _ _ _) in *.
    assert (∀ x, x ∈ (assoc_set (String.append "@" k) (coerce v) o).*1 → name_ok x = false) as Hk'.
    { intros x. rewrite assoc_set_keys. case_decide; [by apply Hk|].
      intros [Hx| ->%list_elem_of_singleton]%elem_of_app; [by apply Hk|]. destruct k; reflexivity. }
    split; [|done]. split_and!; [by apply assoc_set_nodup| |].
    + rewrite assoc_set_keys. case_decide; [done|].
      intros [?|Heq%list_elem_of_singleton]%elem_of_app; [by apply Ht|discriminate Heq].
    + intros k' v' [[= -> ->]|?]%assoc_set_elem; [constructor; apply coerce_value|by eapply Hv].
Qed.

Lemma insert_field_ok k v o : name_ok k = true → xml_value v → object_ok o → object_ok (insert_field k v o).
Proof.
  intros Hk Hv (Hnd & Ht & Hf).
  assert (k ≠ "#text"%string) as Hne by (by intros ->).
  assert (∀ w o', xml_field w → NoDup o'.*1 → "#text"%string ∉ o'.*1 → (∀ x y, (x, y) ∈ o' → xml_field y) →
            object_ok (assoc_set k w o')) as Hset.
  { intros w o' Hw Hnd' Ht' Hf'. split_and!; [by apply assoc_set_nodup| |].
    - rewrite assoc_set_keys. case_decide; [done|].
      intros [?|Heq%list_elem_of_singleton]%elem_of_app; [done|]. by subst.
    - intros x y [[= -> ->]|?]%assoc_set_elem; [done|by eapply Hf']. }
  unfold insert_field. destruct (assoc_get k o) as [e|] eqn:He; [|by apply Hset; [apply xf_one| | |]].
  apply assoc_get_elem in He. pose proof (Hf _ _ He) as Hfe.
  apply Hset.
  - inversion Hfe as [w Hw|l Hl Hall]; subst.
    + destruct e; try (by destruct (xml_value_not_array l)); constructor; simpl; try lia;
        intros x [->|[->|[]%elem_of_nil]%elem_of_cons]%elem_of_cons; done.
    + constructor; [rewrite length_app; lia|]. intros x [?| ->%list_elem_of_singleton]%elem_of_app; auto.
  - by apply assoc_remove_nodup.
  - intros (kv & Hkv & Hin%assoc_remove_elem)%list_elem_of_fmap. apply Ht, list_elem_of_fmap. by exists kv.
  - intros x y Hxy%assoc_remove_elem. by eapply Hf.
Qed.

Lemma close_element_value o txt : object_ok o → xml_value (close_element o txt).
Proof.
  intros (Hnd & Ht & Hf). unfold close_element. destruct (String.eqb txt EmptyString).
  - destruct o as [|[k v] [|kv o]]; [constructor| |by constructor].
    destruct (String.eqb_spec k "#text") as [->|]; [|by constructor]. destruct Ht. left.
  - set (o' := assoc_set _ _ o).
    assert (xml_value (JObject o')) as Hv.
    { constructor; [by apply assoc_set_nodup|].
      intros k v [[= -> ->]|?]%assoc_set_elem; [constructor; apply coerce_value|by eapply Hf]. }
    subst o'. destruct o as [|[k1 v1] o]; [apply coerce_value|]. cbn [assoc_set] in *.
    rewrite decide_False in * by (intros ->; apply Ht; left).
    destruct (assoc_set "#text"%string (coerce txt) o); [|done].
    destruct (String.eqb_spec k1 "#text") as [->|]; [|done]. destruct Ht. left.
Qed.

Definition stack_ok (st : list Frame) : Prop :=
  Forall (λ f, object_ok (frame_obj f) ∧ name_ok (frame_name f) = true) st.

Lemma insert_child_ok st k v :
  name_ok k = true → xml_value v → stack_ok st → stack_ok (insert_child st k v).
Proof.
  intros Hk Hv. destruct st as [|f st]; simpl.
  - intros _. constructor; [|constructor]. split; [|done]. simpl. split_and!; simpl.
    + apply NoDup_singleton.
    + intros Heq%list_elem_of_singleton. by rewrite <- Heq in Hk.
    + intros x y [= -> ->]%list_elem_of_singleton. by constructor.
  - inversion 1 as [|?? [Ho Hn] Hst]; subst. constructor; [|done]. split; [|done]. by apply insert_field_ok.
Qed.

(** C38: Whatever events the reader yields for elements whose names begin
    with neither [#] nor [@] (no XML name does, but the reader does not check
    it; children named [#text] would meet the text's own field and give an
    array in an array), in any order and balanced or not, a conversion that
    succeeds gives a well-formed value: null, a number, a string, or an object
    with distinct keys whose fields are such values or arrays of at least two
    of them; no array is nested in an array, no boolean is made up. *)
Theorem xml_result_shape unescape es r :
  Forall event_ok es → xml_to_json unescape es = Ret (inl r) → xml_value r.
Proof.
  unfold xml_to_json. assert (stack_ok []) as Hst by constructor. revert Hst.
  generalize EmptyString at 1. generalize (@nil Frame).
  induction es as [|e es IH]; intros st t Hst Hes H; cbn [xml_loop] in H.
  - unfold at_eof in H. destruct st; [|done]. simplify_eq. case_match; [constructor|apply coerce_value].
  - inversion Hes as [|?? He Hes']; subst. destruct e as [n a|n a|s|s|s| | |e]; simpl in He.
    + eapply IH; [|done|exact H]. constructor; [|done]. split; [apply attr_object_ok|done].
    + eapply IH; [|done|exact H]. apply insert_child_ok; [done| |done].
      unfold empty_value. destruct (attr_object_ok a) as [(Hnd & _ & Hf) _].
      destruct (attr_object a) eqn:Ha; [constructor|]. by constructor.
    + by eapply IH.
    + by eapply IH.
    + by eapply IH.
    + destruct st as [|f st]; [done|]. inversion Hst as [|?? [Ho Hn] Hst']; subst.
      pose proof (close_element_value (frame_obj f) (trim t) Ho) as Hv.
      destruct st as [|g st].
      * simplify_eq. constructor; [apply NoDup_singleton|].
        intros k v [= -> ->]%list_elem_of_singleton. by constructor.
      * eapply IH; [|done|exact H]. by apply insert_child_ok.
    + by eapply IH.
    + done.
Qed.

(** ** A document is its tree *)

Lemma assoc_remove_app k (o1 o2 : object) :
  k ∉ o1.*1 → assoc_remove k (o1 ++ o2) = o1 ++ assoc_remove k o2.
Proof.
  induction o1 as [|[k1 v1] o1 IH]; simpl; [done|]. intros [Hne Hk]%not_elem_of_cons.
  rewrite decide_False by done. by rewrite IH.
Qed.

Lemma assoc_remove_image k (F : string → json) ns :
  NoDup ns → assoc_remove k ((λ n, (n, F n)) <$> ns) = (λ n, (n, F n)) <$> filter (λ n, n ≠ k) ns.
Proof.
  induction 1 as [|n ns Hn Hnd IH]; [done|]. rewrite fmap_cons. cbn [assoc_remove].
  rewrite filter_cons. destruct (decide (n = k)) as [->|Hne].
  - rewrite decide_False by tauto. f_equal. symmetry. apply filter_all. by intros n Hin ->.
  - rewrite decide_True by done. rewrite fmap_cons. by rewrite IH.
Qed.

Lemma remove_dups_snoc (ns : list string) n :
  remove_dups (ns ++ [n]) = filter (λ m, m ≠ n) (remove_dups ns) ++ [n].
Proof.
  induction ns as [|m ns IH]; simpl; [done|].
  assert (m ∈ ns ++ [n] ↔ m ∈ ns ∨ m = n) as Hin by by rewrite elem_of_app, list_elem_of_singleton.
  repeat case_decide; rewrite ?IH, ?filter_cons; try tauto.
  - rewrite decide_False; [done|tauto].
  - by rewrite decide_True by tauto.
Qed.

Lemma named_snoc k kids n v :
  named k (kids ++ [(n, v)]) = named k kids ++ (if decide (n = k) then [v] else []).
Proof.
  unfold named. rewrite filter_app, fmap_app. f_equal. rewrite filter_cons, filter_nil. simpl. by case_decide.
Qed.

Lemma named_nil k kids : named k kids = [] ↔ k ∉ kids.*1.
Proof.
  induction kids as [|[n v] kids IH]; simpl; [by split; [intros _ ?%elem_of_nil|]|].
  unfold named in *. rewrite filter_cons. simpl. rewrite elem_of_cons.
  case_decide as Hd; simpl; [split; [done|intros []; by left]|]. rewrite IH. naive_solver.
Qed.

Lemma grouped_get k kids :
  assoc_get k (grouped kids) = if decide (k ∈ kids.*1) then Some (one_or_array (named k kids)) else None.
Proof.
  unfold grouped. transitivity (if decide (k ∈ remove_dups kids.*1)
    then Some (one_or_array (named k kids)) else None); [|apply decide_ext, elem_of_remove_dups].
  induction (remove_dups kids.*1) as [|n ns IH]; [done|].
  rewrite fmap_cons. cbn [assoc_get]. destruct (decide (n = k)) as [->|Hne].
  - by rewrite decide_True by left.
  - rewrite IH. apply decide_ext. rewrite elem_of_cons. naive_solver.
Qed.

Definition not_array (v : json) : Prop := match v with JArray _ => False | _ => True end.

(** One more child in an object that holds other fields and the children so
    far. *)
Lemma insert_grouped o kids n v :
  n ∉ o.*1 → Forall (λ nv, not_array nv.2) kids →
  insert_field n v (o ++ grouped kids) = o ++ grouped (kids ++ [(n, v)]).
Proof.
  intros Hn Hkids. unfold insert_field. rewrite assoc_get_app.
  assert (assoc_get n o = None) as -> by by apply assoc_get_None.
  assert (grouped (kids ++ [(n, v)]) =
    ((λ k, (k, one_or_array (named k kids))) <$> filter (λ m, m ≠ n) (remove_dups kids.*1)) ++
    [(n, one_or_array (named n kids ++ [v]))]) as ->.
  { unfold grouped. rewrite (fmap_app fst). cbn [fmap list_fmap fst]. rewrite remove_dups_snoc, fmap_app. f_equal.
    - apply list_fmap_ext. intros i k Hk. f_equal. f_equal.
      apply list_elem_of_lookup_2, list_elem_of_filter in Hk as [Hk _].
      rewrite named_snoc, decide_False by done. by rewrite app_nil_r.
    - simpl. by rewrite named_snoc, decide_True. }
  rewrite grouped_get. case_decide as Hin.
  - assert (assoc_remove n (o ++ grouped kids)
      = o ++ ((λ k, (k, one_or_array (named k kids))) <$> filter (λ m, m ≠ n) (remove_dups kids.*1))) as Hrm.
    { rewrite assoc_remove_app by done. f_equal. apply assoc_remove_image, NoDup_remove_dups. }
    rewrite Hrm, assoc_set_new.
    2: { rewrite assoc_get_None, fmap_app, not_elem_of_app. split; [done|].
         rewrite <- list_fmap_compose. intros (k & -> & [Hk _]%list_elem_of_filter)%list_elem_of_fmap. done. }
    rewrite <- app_assoc. do 4 f_equal.
    assert (named n kids ≠ []) as Hne by (by rewrite named_nil; intros []).
    assert (Forall not_array (named n kids)) as Hna.
    { apply Forall_forall. intros w ([k w'] & -> & [_ Hw]%list_elem_of_filter)%list_elem_of_fmap.
      by apply (proj1 (Forall_forall _ _) Hkids (k, w')). }
    destruct (named n kids) as [|w [|w' ws]]; [done| |done].
    apply Forall_cons in Hna as [Hw _]. by destruct w.
  - rewrite assoc_set_new.
    2: { rewrite assoc_get_app. assert (assoc_get n o = None) as -> by by apply assoc_get_None.
         by rewrite grouped_get, decide_False. }
    rewrite <- app_assoc. f_equal.
    assert (named n kids = []) as -> by by apply named_nil. f_equal.
    unfold grouped. f_equal. symmetry. apply filter_all. intros m Hm ->. by apply Hin, elem_of_remove_dups.
Qed.

Lemma insert_all o kids :
  Forall (λ nv, nv.1 ∉ o.*1) kids → Forall (λ nv, not_array nv.2) kids →
  foldl (λ o nv, insert_field nv.1 nv.2 o) o kids = o ++ grouped kids.
Proof.
  induction kids as [|[n v] kids IH] using rev_ind; intros Hn Hv; [by rewrite app_nil_r|].
  apply Forall_app in Hn as [Hn [Hn1 _]%Forall_cons]. apply Forall_app in Hv as [Hv _].
  rewrite foldl_app, IH by done. simpl. by apply insert_grouped.
Qed.

Lemma attr_object_fields attrs : NoDup attrs.*1 → attr_object attrs = attr_fields attrs.
Proof.
  induction attrs as [|[k v] attrs IH] using rev_ind; [done|].
  rewrite fmap_app. intros (Hnd & Hk & _)%NoDup_app.
  unfold attr_object, attr_fields in *. rewrite foldl_app, IH, fmap_app by done. simpl.
  apply assoc_set_new, assoc_get_None. rewrite <- list_fmap_compose.
  intros ([k' v'] & Heq & Hin)%list_elem_of_fmap. apply (str_append_inv "@") in Heq as ->.
  apply (Hk k'); [|left]. apply list_elem_of_fmap. by exists (k', v').
Qed.

Lemma attr_fields_keys attrs k : k ∈ (attr_fields attrs).*1 → starts_with "@" k = true.
Proof.
  unfold attr_fields. rewrite <- list_fmap_compose.
  intros ([n v] & -> & _)%list_elem_of_fmap. by destruct n.
Qed.

Lemma elem_value_not_array a kids txt : not_array (elem_value a kids txt).
Proof.
  unfold elem_value. destruct a, kids; try done. destruct (String.eqb _ _); [done|].
  unfold coerce. repeat case_match; done.
Qed.

Lemma grouped_keys kids k : k ∈ (grouped kids).*1 → k ∈ kids.*1.
Proof.
  unfold grouped. rewrite <- list_fmap_compose.
  intros (n & -> & Hn)%list_elem_of_fmap. by apply elem_of_remove_dups.
Qed.

Lemma grouped_nonempty nv kids : grouped (nv :: kids) ≠ [].
Proof.
  intros Hg. assert (nv.1 ∈ remove_dups (nv :: kids).*1) as Hin by (apply elem_of_remove_dups; left).
  unfold grouped in Hg. apply fmap_nil_inv in Hg. rewrite Hg in Hin. by apply elem_of_nil in Hin.
Qed.

(** The value built at an end tag is the one of the rules. *)
Lemma close_element_spec a kids txt :
  Forall (λ nv, name_ok nv.1 = true) kids →
  close_element (attr_fields a ++ grouped kids) txt = elem_value a kids txt.
Proof.
  intros Hk. set (o := attr_fields a ++ grouped kids).
  assert ("#text"%string ∉ o.*1) as Ht.
  { unfold o. rewrite fmap_app, not_elem_of_app. split; [by intros ?%attr_fields_keys|].
    intros ([k v] & Heq & Hin)%grouped_keys%list_elem_of_fmap.
    pose proof (proj1 (Forall_forall _ _) Hk _ Hin) as Hn. simpl in *. by subst k. }
  assert (elem_value a kids txt = match o with
    | [] => if String.eqb txt EmptyString then JNull else coerce txt
    | _ => JObject (o ++ text_field txt) end) as ->.
  { unfold elem_value, o. rewrite <- app_assoc. destruct a as [|kv a]; [|by destruct kids].
    destruct kids as [|nv kids]; [done|]. pose proof (grouped_nonempty nv kids) as Hne. simpl.
    by destruct (grouped (nv :: kids)). }
  clearbody o. unfold close_element, text_field. destruct (String.eqb txt EmptyString).
  - rewrite app_nil_r. destruct o as [|[k v] [|kv o]]; [done| |done].
    destruct (String.eqb_spec k "#text") as [->|]; [|done]. destruct Ht. left.
  - rewrite assoc_set_new by by apply assoc_get_None. by destruct o as [|[k v] [|kv o]].
Qed.

Section convert_lemmas.
Context (unescape : string → string).
Notation kid := (kid unescape).

Lemma kids_ok cs :
  Forall (tree_ok unescape) cs →
  Forall (λ nv, name_ok nv.1 = true ∧ not_array nv.2) (flat_map kid cs).
Proof.
  induction 1 as [|c cs Hc _ IH]; [constructor|]. simpl. apply Forall_app. split; [|done].
  destruct c as [n a l|n a|s|s|s|]; simpl; repeat constructor; simpl; try apply elem_value_not_array;
    simpl in Hc; tauto.
Qed.

Definition add_kid (o : object) (nv : string * json) : object := insert_field nv.1 nv.2 o.

Lemma close_element_elem a cs :
  NoDup a.*1 → texts_last unescape cs = true → Forall (tree_ok unescape) cs →
  close_element (foldl add_kid (attr_object a) (flat_map kid cs))
    (trim (foldl (text_after unescape) EmptyString cs))
  = elem_value a (flat_map kid cs) (trim (all_text unescape cs)).
Proof.
  intros Ha Ht Hok. rewrite kept_text by done.
  assert ((if existsb is_elem cs then all_text unescape cs
           else String.append EmptyString (all_text unescape cs)) = all_text unescape cs) as ->
    by by destruct (existsb is_elem cs).
  pose proof (kids_ok cs Hok) as [Hn Hv]%Forall_and.
  rewrite attr_object_fields by done. unfold add_kid. rewrite insert_all; [|..|done].
  - by apply close_element_spec.
  - eapply Forall_impl; [exact Hn|]. intros nv Hnv Hin%attr_fields_keys. unfold name_ok in Hnv.
    by rewrite Hin, andb_false_r in Hnv.
Qed.

(** One piece of content, inside its parent. *)
Lemma loop_node c : ∀ f st t es, tree_ok unescape c →
  xml_loop unescape (events c ++ es) (f :: st) t
  = xml_loop unescape es (mk_frame (frame_name f) (foldl add_kid (frame_obj f) (kid c)) :: st)
      (text_after unescape t c).
Proof.
  induction c as [n a cs IH|n a|s|s|s|] using node_ind'; intros f st t es Hok; cycle 1.
  - destruct Hok as [_ Ha]. unfold text_after. cbn [is_elem text_of]. rewrite str_append_nil_r.
    cbn [events app xml_loop]. do 2 f_equal. destruct f as [fn fo]. simpl. unfold add_kid. simpl.
    do 2 f_equal. unfold empty_value, elem_value. rewrite attr_object_fields by done.
    destruct a; [done|]. simpl. by rewrite app_nil_r.
  - by destruct f.
  - by destruct f.
  - by destruct f.
  - unfold text_after. cbn [is_elem text_of]. rewrite str_append_nil_r. by destruct f.
  - apply tree_ok_elem in Hok as (Hn & Ha & Ht & Hok). cbn [events app xml_loop].
    assert (∀ g t', xml_loop unescape ((flat_map events cs ++ [EEnd]) ++ es) (g :: f :: st) t'
              = xml_loop unescape (EEnd :: es)
                  (mk_frame (frame_name g) (foldl add_kid (frame_obj g) (flat_map kid cs)) :: f :: st)
                  (foldl (text_after unescape) t' cs)) as Hcs.
    { rewrite <- app_assoc. cbn [app]. clear Ht. induction IH as [|c cs Hc _ IHcs]; intros g t'; [by destruct g|].
      apply Forall_cons in Hok as [Hc' Hok]. cbn [flat_map]. rewrite <- app_assoc, Hc, IHcs by done.
      cbn [frame_name frame_obj foldl]. by rewrite foldl_app. }
    rewrite Hcs. cbn [xml_loop frame_name frame_obj]. rewrite close_element_elem by done. by destruct f.
Qed.

Lemma loop_children cs : ∀ f st t es, Forall (tree_ok unescape) cs →
  xml_loop unescape (flat_map events cs ++ es) (f :: st) t
  = xml_loop unescape es (mk_frame (frame_name f) (foldl add_kid (frame_obj f) (flat_map kid cs)) :: st)
      (foldl (text_after unescape) t cs).
Proof.
  induction cs as [|c cs IH]; intros f st t es Hok; [by destruct f|].
  apply Forall_cons in Hok as [Hc Hok]. cbn [flat_map]. rewrite <- app_assoc, loop_node, IH by done.
  cbn [frame_name frame_obj foldl]. by rewrite foldl_app.
Qed.
End convert_lemmas.

(** C28: A document converts to what the documentation says of its tree.
    Take any document whose root has tags, with elements, empty elements,
    character data, CDATA sections, references and comments inside, distinct
    attributes and names that begin with neither [#] nor [@], in which no text
    stands before a child element with tags; let any prologue precede it.
    The event loop returns the object of the root's name and value, where the
    value of an element has its attributes under [@name], its children under
    their names (several of one name as the array of their values in document
    order) and its trimmed text under [#text], and is the text itself, or
    null, when it has neither attributes nor children; text is a number when
    it reads as one.  A reference counts as its name, and text before a child
    with tags is thrown away: both are findings. *)
Theorem xml_converts_tree unescape prologue n a cs rest :
  tree_ok unescape (Elem n a cs) →
  xml_to_json unescape (repeat EOther prologue ++ events (Elem n a cs) ++ rest)
  = Ret (inl (JObject [(n, value unescape (Elem n a cs))])).
Proof.
  intros (Hn & Ha & Ht & Hok)%tree_ok_elem.
  unfold xml_to_json. induction prologue as [|p IH]; [|exact IH]. cbn [repeat app events].
  rewrite <- app_assoc. cbn [xml_loop]. rewrite loop_children by done. cbn [app xml_loop frame_obj frame_name].
  by rewrite value_elem, close_element_elem.
Qed.

(** ** Witnesses *)

Module Examples.

Definition order : node :=
  Elem "order" [("id", "7")]%string
    [Elem "item" [] [Txt "a"; Ref "amp"]; Note; Elem "note" [] [Txt " hi "]; Elem "item" [] [CData "2.50"];
     Elem "item" [] []; EmptyElem "rush" []; Txt "soon"]%string.

Lemma xml_converts_tree_witness :
  xml_to_json id (EOther :: events order)
  = Ret (inl (JObject [("order", JObject [("@id", json_int 7); ("note", JString "hi");
       ("item", JArray [JString "aamp"; JNumber (FloatNumber "2.50"); JNull]); ("rush", JNull);
       ("#text", JString "soon")])]))%string.
Proof.
  assert (tree_ok id order) as Hok.
  { repeat split; try by vm_compute. all: simpl; repeat constructor; set_solver. }
  pose proof (xml_converts_tree id 1 _ _ _ [] Hok) as H1.
  rewrite app_nil_r in H1. cbn [repeat app] in H1. fold order in H1. rewrite H1. by vm_compute.
Defined.

Lemma xml_result_shape_witness : xml_value (JObject [("order"%string, value id order)]).
Proof.
  apply (xml_result_shape id (events order)); [|by vm_compute].
  repeat constructor.
Defined.

(** Text before a child is dropped; an empty root is refused. *)
Example leading_text_lost :
  xml_to_json id (events (Elem "p" [] [Txt "Hello "; Elem "b" [] [Txt "x"]; Txt " there"]))%string
  = Ret (inl (JObject [("p", JObject [("b", JString "x"); ("#text", JString "there")])]))%string.
Proof. by vm_compute. Qed.

Example empty_root_refused :
  xml_to_json id (events (EmptyElem "root" [])) = Ret (inr "xml parse failed: incomplete document"%string).
Proof. by vm_compute. Qed.
End Examples.
