(* ===== verification/Migrations.v ===== *)
(** * Migrations: versioned SQL scripts

    [crates/justapi-core/src/db/migrations.rs].  A database is a state of a
    type [D]; executing a statement may fail and may change it.  What the
    statements of the tracking table do is the database's business, stated as
    the laws of [TrackingTable]. *)

From Stdlib Require Import Ascii.
From S2P Require Import Prelude Text Paths.

#[local] Open Scope Z_scope.

Record Migration := mk_migration {
  version : Z; mname : string; up_sql : string; down_sql : option string }.

(** ** Files *)

(** [splitn(2, '_')]. *)
Definition parse_filename (filename : string) : option (Z * string) :=
  stem ← strip_suffix ".sql" filename;
  parts ← split_once "_" stem;
  v ← parse_u64 parts.1;
  Some (v, parts.2).

Definition strip_up (up : string) : string := trim (trim_start_str "-- UP" (trim up)).

Definition parse_content (content : string) : string * option string :=
  match split_once "-- DOWN" content with
  | Some (up, down) =>
      (strip_up up, Some (trim (trim_start_str "-- DOWN" (trim down))))
  | None => (strip_up content, None)
  end.

(** A directory entry: its name and its text, when it can be read. *)
Definition from_file (filename : string) (content : option string) : Migration + string :=
  match parse_filename filename with
  | None => inr (String.append "Migration filename must be <version>_<name>.sql, got: " filename)
  | Some (v, n) =>
      match content with
      | None => inr (String.append "Cannot read " filename)
      | Some c => let '(up, down) := parse_content c in inl (mk_migration v n up down)
      end
  end.

(** The entries in the order the directory lists them; the first bad one stops. *)
Fixpoint from_files (entries : list (string * option string)) : list Migration + string :=
  match entries with
  | [] => inl []
  | (f, c) :: es =>
      if bool_decide (extension f = Some "sql"%string) then
        match from_file f c with
        | inr e => inr e
        | inl m => match from_files es with inl ms => inl (m :: ms) | inr e => inr e end
        end
      else from_files es
  end.

(** [None] is a directory that does not exist. *)
Definition discover (dir : option (list (string * option string))) : list Migration + string :=
  match dir with
  | None => inr "Migrations directory not found"%string
  | Some entries =>
      match from_files entries with
      | inl ms => inl (sort_by_key version ms)
      | inr e => inr e
      end
  end.

(** ** Statements *)

Inductive DbKind := Postgres | Sqlite | MySql.

Definition create_sql (k : DbKind) : string :=
  match k with
  | Postgres => "CREATE TABLE IF NOT EXISTS _justapi_migrations (version BIGINT PRIMARY KEY, name TEXT NOT NULL, applied_at TIMESTAMPTZ DEFAULT NOW())"
  | Sqlite => "CREATE TABLE IF NOT EXISTS _justapi_migrations (version INTEGER PRIMARY KEY, name TEXT NOT NULL, applied_at TEXT DEFAULT (datetime('now')))"
  | MySql => "CREATE TABLE IF NOT EXISTS _justapi_migrations (version BIGINT PRIMARY KEY, name VARCHAR(255) NOT NULL, applied_at TIMESTAMP DEFAULT CURRENT_TIMESTAMP)"
  end%string.

(** [name.replace('\'', "''")]. *)
Definition safe_name (name : string) : string := str_replace "'" "''" 0 name.

Definition insert_values (v : Z) (name : string) : string :=
  String.concat EmptyString
    [" INTO _justapi_migrations (version, name) VALUES ("; decimal v; ", '"; safe_name name; "')"]%string.

Definition record_sql (k : DbKind) (v : Z) (name : string) : string :=
  match k with
  | Postgres => String.concat EmptyString ["INSERT"; insert_values v name; " ON CONFLICT DO NOTHING"]
  | Sqlite => String.append "INSERT OR IGNORE" (insert_values v name)
  | MySql => String.append "INSERT IGNORE" (insert_values v name)
  end%string.

Definition remove_sql (v : Z) : string :=
  String.append "DELETE FROM _justapi_migrations WHERE version = " (decimal v).

(** ** The migrator *)

Class Database (D : Type) := {
  kind : D → DbKind;
  execute : string → D → D * option string;      (* the error, if any *)
  query_many_i64 : string → D → list Z + string }.

Section migrator.
Context {D : Type} {DB : Database D}.

Definition tagged (what : string) (e : string) : string := String.append what e.

Definition ensure_tracking_table (d : D) : D * option string :=
  let '(d', r) := execute (create_sql (kind d)) d in
  (d', tagged "Create tracking table error: " <$> r).

(** [v as u64]. *)
Definition as_u64 (v : Z) : Z := v mod u64_modulus.

Definition get_applied_versions (d : D) : list Z + string :=
  match query_many_i64 "SELECT version FROM _justapi_migrations" d with
  | inl vs => inl (as_u64 <$> vs)
  | inr e => inr (tagged "Query applied migrations error: " e)
  end.

Definition record_migration (v : Z) (name : string) (d : D) : D * option string :=
  let '(d', r) := execute (record_sql (kind d) v name) d in
  (d', tagged "Record migration error: " <$> r).

Definition remove_migration (v : Z) (d : D) : D * option string :=
  let '(d', r) := execute (remove_sql v) d in
  (d', tagged "Delete migration error: " <$> r).

Definition migration_error (what : string) (v : Z) (e : string) : string :=
  String.concat EmptyString [what; " v"%string; decimal v; " error: "%string; e].

(** The loop of [run] over the migrations in their order. *)
Fixpoint run_loop (applied : list Z) (ms : list Migration) (acc : list Migration) (d : D)
    : D * (list Migration + string) :=
  match ms with
  | [] => (d, inl acc)
  | m :: ms' =>
      if bool_decide (version m ∈ applied) then run_loop applied ms' acc d
      else
        let '(d1, r1) := execute (up_sql m) d in
        match r1 with
        | Some e => (d1, inr (migration_error "Migration" (version m) e))
        | None =>
            let '(d2, r2) := record_migration (version m) (mname m) d1 in
            match r2 with
            | Some e => (d2, inr e)
            | None => run_loop applied ms' (acc ++ [m]) d2
            end
        end
  end.

Definition run (ms : list Migration) (d : D) : D * (list Migration + string) :=
  let '(d1, r) := ensure_tracking_table d in
  match r with
  | Some e => (d1, inr e)
  | None =>
      match get_applied_versions d1 with
      | inr e => (d1, inr e)
      | inl applied => run_loop applied ms [] d1
      end
  end.

Definition max_version (vs : list Z) : option Z :=
  match vs with [] => None | v :: vs' => Some (foldl Z.max v vs') end.

Definition rollback_one (ms : list Migration) (d : D) : D * option string :=
  match get_applied_versions d with
  | inr e => (d, Some e)
  | inl applied =>
      match max_version applied with
      | None => (d, Some "No migrations to roll back"%string)
      | Some v =>
          match List.find (λ m, version m =? v) ms with
          | None => (d, Some (String.concat EmptyString
                                ["Migration v"%string; decimal v; " not found in files"%string]))
          | Some m =>
              match down_sql m with
              | None => (d, None)
              | Some down =>
                  let '(d1, r) := execute down d in
                  match r with
                  | Some e => (d1, Some (migration_error "Rollback" (version m) e))
                  | None => remove_migration (version m) d1
                  end
              end
          end
      end
  end.

(** ** What the tracking table does

    [tracked d] is the set of versions the table holds, empty before it
    exists.  A statement that fails changes nothing in it; a version fits the
    signed 64-bit column. *)

Class TrackingTable := {
  tracked : D → gset Z;
  create_law d : tracked (execute (create_sql (kind d)) d).1 = tracked d;
  query_law d vs : query_many_i64 "SELECT version FROM _justapi_migrations" d = inl vs →
    list_to_set vs = tracked d;
  range_law d v : v ∈ tracked d → 0 ≤ v < 2 ^ 63;
  record_law d v name : 0 ≤ v < 2 ^ 63 →
    tracked (execute (record_sql (kind d) v name) d).1
    = match (execute (record_sql (kind d) v name) d).2 with
      | None => tracked d ∪ {[v]}
      | Some _ => tracked d
      end;
  remove_law d v : 0 ≤ v < 2 ^ 63 →
    tracked (execute (remove_sql v) d).1
    = match (execute (remove_sql v) d).2 with
      | None => tracked d ∖ {[v]}
      | Some _ => tracked d
      end }.

Context {TT : TrackingTable}.

(** The scripts leave the tracking table alone, and their versions are
    distinct and fit its column. *)
Record scripts_ok (ms : list Migration) : Prop := {
  script_versions : NoDup (version <$> ms);
  script_range m : m ∈ ms → 0 ≤ version m < 2 ^ 63;
  script_up m d : m ∈ ms → tracked (execute (up_sql m) d).1 = tracked d;
  script_down m d sql : m ∈ ms → down_sql m = Some sql → tracked (execute sql d).1 = tracked d }.

Definition versions (ms : list Migration) : gset Z := list_to_set (version <$> ms).

Definition pending (t : gset Z) (ms : list Migration) : list Migration :=
  filter (λ m, version m ∉ t) ms.

(** The statements of migrations that went through: each one's script, then
    its record. *)
Inductive applied_in_order : list Migration → D → D → Prop :=
| applied_nil d : applied_in_order [] d d
| applied_cons m l d d1 d2 d3 :
    execute (up_sql m) d = (d1, None) →
    execute (record_sql (kind d1) (version m) (mname m)) d1 = (d2, None) →
    applied_in_order l d2 d3 → applied_in_order (m :: l) d d3.

(** The statement a run stopped at: the script of the next migration, or its
    record. *)
Inductive stopped_at : list Migration → D → D → string → Prop :=
| stopped_up m l d d1 e :
    execute (up_sql m) d = (d1, Some e) →
    stopped_at (m :: l) d d1 (migration_error "Migration" (version m) e)
| stopped_record m l d d1 d2 e :
    execute (up_sql m) d = (d1, None) →
    execute (record_sql (kind d1) (version m) (mname m)) d1 = (d2, Some e) →
    stopped_at (m :: l) d d2 (tagged "Record migration error: " e).

(** The tracking table could not be made or read. *)
Definition no_table (d d0 : D) : Prop :=
  (execute (create_sql (kind d)) d).2 ≠ None ∨
  ∃ e, query_many_i64 "SELECT version FROM _justapi_migrations" d0 = inr e.

Lemma as_u64_id v : 0 ≤ v < 2 ^ 63 → as_u64 v = v.
Proof. intros. unfold as_u64, u64_modulus. rewrite Z.mod_small; lia. Qed.

Lemma get_applied_spec d vs :
  get_applied_versions d = inl vs → ∀ v, v ∈ vs ↔ v ∈ tracked d.
Proof.
  unfold get_applied_versions. destruct (query_many_i64 _ d) as [l|] eqn:Hq; [|done]. intros [= <-] v.
  apply query_law in Hq. rewrite <- Hq, elem_of_list_to_set, list_elem_of_fmap.
  assert (∀ x, x ∈ l → as_u64 x = x) as Hid.
  { intros x Hx. apply as_u64_id, (range_law d). rewrite <- Hq. by apply elem_of_list_to_set. }
  split; [intros (x & -> & Hx); by rewrite Hid|]. intros Hv. exists v. by rewrite Hid.
Qed.

Lemma pending_in t ms m : m ∈ pending t ms → m ∈ ms.
Proof. by intros [_ ?]%list_elem_of_filter. Qed.

Lemma scripts_ok_tail m ms : scripts_ok (m :: ms) → scripts_ok ms.
Proof.
  intros [Hnd Hr Hu Hd]. csimpl in *. apply NoDup_cons in Hnd as [_ Hnd].
  split; [done|intros ??; apply Hr; by right|intros ???; apply Hu; by right|].
  intros ??? Hin. apply Hd. by right.
Qed.

(** The loop executes and records a front part of what is pending, in order,
    and stops at the next one's statement. *)
Lemma run_loop_spec applied ms : ∀ acc d d1 res,
  scripts_ok ms → run_loop applied ms acc d = (d1, res) →
  ∃ l1 l2 dm, filter (λ m, version m ∉ applied) ms = l1 ++ l2 ∧
    applied_in_order l1 d dm ∧ tracked d1 = tracked d ∪ versions l1 ∧
    match res with
    | inl l => l2 = [] ∧ l = acc ++ l1 ∧ d1 = dm
    | inr e => stopped_at l2 dm d1 e
    end.
Proof.
  unfold versions. induction ms as [|m ms IH]; intros acc d d1 res Hok H; simpl in H.
  - simplify_eq. exists [], [], d1. split_and!; [done|constructor|set_solver|done|by rewrite app_nil_r|done].
  - pose proof (scripts_ok_tail _ _ Hok) as Hok'. rewrite filter_cons. case_bool_decide as Hap.
    + rewrite decide_False by tauto. by apply IH.
    + rewrite decide_True by done. set (rest := filter _ ms) in *.
      pose proof (script_up _ Hok m d ltac:(left)) as Hup.
      destruct (execute (up_sql m) d) as [da ra] eqn:Hea. simpl in Hup. destruct ra as [e|].
      { simplify_eq. exists [], (m :: rest), d. split_and!; [done|constructor|simpl; set_solver|by constructor]. }
      unfold record_migration in H.
      pose proof (record_law da (version m) (mname m) (script_range _ Hok m ltac:(left))) as Hrec.
      destruct (execute (record_sql (kind da) (version m) (mname m)) da) as [db rb] eqn:Heb. simpl in *.
      destruct rb as [e|]; simpl in *.
      * simplify_eq. exists [], (m :: rest), d.
        split_and!; [done|constructor|set_solver|by eapply stopped_record].
      * destruct (IH _ _ _ _ Hok' H) as (l1 & l2 & dm & -> & Hap1 & Ht & Hres). exists (m :: l1), l2, dm.
        split; [done|]. split; [by eapply applied_cons|].
        split; [rewrite Ht, Hrec, Hup; csimpl; set_solver|].
        destruct res; [|done]. destruct Hres as (-> & -> & ->). by rewrite <- app_assoc.
Qed.

Lemma run_spec ms d d1 res :
  scripts_ok ms → run ms d = (d1, res) →
  ∃ l1 l2 dm, pending (tracked d) ms = l1 ++ l2 ∧
    applied_in_order l1 (execute (create_sql (kind d)) d).1 dm ∧
    tracked d1 = tracked d ∪ versions l1 ∧
    match res with
    | inl l => l2 = [] ∧ l = l1 ∧ d1 = dm
    | inr e => stopped_at l2 dm d1 e ∨ (l1 = [] ∧ d1 = dm ∧ no_table d dm)
    end.
Proof.
  intros Hok Hrun. unfold run, ensure_tracking_table in Hrun. pose proof (create_law d) as Hc.
  unfold no_table. destruct (execute (create_sql (kind d)) d) as [da ra]. simpl in *.
  assert (∀ (P : Prop), P → ∃ l1 l2 dm, pending (tracked d) ms = l1 ++ l2 ∧ applied_in_order l1 da dm ∧
            tracked da = tracked d ∪ versions l1 ∧ (l1 = [] ∧ da = dm ∧ P)) as Herr.
  { intros P HP. exists [], (pending (tracked d) ms), da.
    split_and!; [done|constructor|rewrite Hc; unfold versions; set_solver|done|done|done]. }
  destruct ra as [e|]; simpl in Hrun.
  { simplify_eq. destruct (Herr (Some e ≠ None)) as (l1 & l2 & dm & ? & ? & ? & ? & -> & ?); [done|].
    exists l1, l2, dm. naive_solver. }
  destruct (get_applied_versions da) as [applied|e] eqn:Ha.
  - destruct (run_loop_spec _ _ _ _ _ _ Hok Hrun) as (l1 & l2 & dm & Hl & Hap & Ht & Hres).
    exists l1, l2, dm. rewrite <- Hl, Ht, Hc. split; [|split_and!; [done|done|destruct res; [done|by left]]].
    unfold pending. apply list_filter_iff. intros m. by rewrite <- Hc, (get_applied_spec _ _ Ha).
  - simplify_eq. unfold get_applied_versions in Ha.
    destruct (query_many_i64 _ d1) as [|e'] eqn:Hq; [done|].
    destruct (Herr True) as (l1 & l2 & dm & ? & ? & ? & ? & <- & ?); [done|].
    exists l1, l2, d1. split_and!; try done. right. split_and!; [done|done|]. right. by exists e'.
Qed.

Lemma pending_split ms t l1 l2 :
  NoDup (version <$> ms) → pending t ms = l1 ++ l2 → pending (t ∪ versions l1) ms = l2.
Proof.
  intros Hnd Hp.
  assert (pending (t ∪ versions l1) ms = pending (versions l1) (pending t ms)) as ->.
  { unfold pending. rewrite list_filter_filter. apply list_filter_iff. intros m.
    rewrite not_elem_of_union. tauto. }
  assert (NoDup (version <$> l1 ++ l2)) as Hnd'.
  { rewrite <- Hp. eapply sublist_NoDup; [exact Hnd|]. apply fmap_sublist, sublist_filter. }
  rewrite Hp. unfold pending, versions. rewrite filter_app. rewrite fmap_app in Hnd'.
  apply NoDup_app in Hnd' as (_ & Hdisj & _).
  assert (filter (λ m, version m ∉ (list_to_set (version <$> l1) : gset Z)) l1 = []) as ->.
  { apply filter_none. intros m Hm Hn. apply Hn. apply elem_of_list_to_set, list_elem_of_fmap. by exists m. }
  simpl. apply filter_all. intros m Hm.
  rewrite elem_of_list_to_set. intros Hin. apply (Hdisj _ Hin). apply list_elem_of_fmap. by exists m.
Qed.

(** C31: A run executes and records what is pending, once each, in order, and
    a failed run can be resumed.  The versions of the migrations are taken to
    be distinct and to fit the signed column, their scripts to leave the
    tracking table alone.  After the statement that makes the table, what the
    run executes on the database is, for a front part of the migrations not
    yet tracked, in the order of the list, each one's script and then its
    record, all of which succeed, and nothing else but the script, or the
    record, of the next one if the run stops there, with its error; if the
    table can neither be made nor read, it executes none.  The versions of
    that front part are what the table has gained.  A run that succeeds has
    executed all that was pending and returns it.  After a failure exactly the
    others are still pending, and after a success a further run that succeeds
    executes no script. *)
Theorem run_applies_pending ms d d1 res :
  scripts_ok ms → run ms d = (d1, res) →
  ∃ l1 l2 dm, pending (tracked d) ms = l1 ++ l2 ∧
    applied_in_order l1 (execute (create_sql (kind d)) d).1 dm ∧
    tracked d1 = tracked d ∪ versions l1 ∧
    pending (tracked d1) ms = l2 ∧
    match res with
    | inr e => stopped_at l2 dm d1 e ∨ (l1 = [] ∧ d1 = dm ∧ no_table d dm)
    | inl l =>
        l = pending (tracked d) ms ∧ l1 = l ∧ d1 = dm ∧ tracked d1 = tracked d ∪ versions ms ∧
        ∀ d2 l', run ms d1 = (d2, inl l') → l' = [] ∧ d2 = (execute (create_sql (kind d1)) d1).1
    end.
Proof.
  intros Hok Hrun. destruct (run_spec _ _ _ _ Hok Hrun) as (l1 & l2 & dm & Hp & Hap & Ht & Hres).
  pose proof (pending_split _ _ _ _ (script_versions _ Hok) Hp) as Hp2. rewrite <- Ht in Hp2.
  exists l1, l2, dm. split_and!; [done|done|done|done|]. destruct res as [l|e]; [|done].
  destruct Hres as (-> & -> & ->). rewrite app_nil_r in Hp. split_and!; [done|done|done| |].
  - rewrite Ht, <- Hp. unfold versions, pending. apply set_eq. intros v.
    rewrite !elem_of_union, !elem_of_list_to_set, !list_elem_of_fmap.
    setoid_rewrite list_elem_of_filter. split; [naive_solver|].
    intros [?|(m & -> & Hm)]; [by left|]. destruct (decide (version m ∈ tracked d)); [by left|right; eauto].
  - intros d2 l' H2. destruct (run_spec _ _ _ _ Hok H2) as (k1 & k2 & dn & Hk & Hap2 & Ht2 & -> & -> & ->).
    rewrite Hp2, app_nil_r in Hk. subst k1. split; [done|]. by inversion Hap2.
Qed.

(** ** Rolling back *)

Lemma max_version_spec vs v :
  max_version vs = Some v → v ∈ vs ∧ ∀ u, u ∈ vs → u ≤ v.
Proof.
  destruct vs as [|x vs]; [done|]. simpl. intros [= <-].
  revert x. induction vs as [|y vs IH]; intros x; simpl.
  - split; [left|]. intros u ->%list_elem_of_singleton. lia.
  - destruct (IH (Z.max x y)) as [H1 H2]. split.
    + apply elem_of_cons in H1 as [->|H1]; [|by do 2 right].
      destruct (Z.max_spec x y) as [[_ ->]|[_ ->]]; [right; left|left].
    + intros u [->|[->|Hu]%elem_of_cons]%elem_of_cons.
      * pose proof (H2 (Z.max x y) ltac:(left)). lia.
      * pose proof (H2 (Z.max x y) ltac:(left)). lia.
      * apply H2. by right.
Qed.

Lemma find_version ms v m :
  List.find (λ m, version m =? v) ms = Some m → m ∈ ms ∧ version m = v.
Proof. intros [Hin Hv]%find_some. split; [by apply list_elem_of_In|lia]. Qed.

(** A rollback that succeeds undoes the newest version tracked: with a down
    script it is exactly that version that leaves the table, and a run that
    succeeds afterwards applies that migration again and nothing else; without
    a down script nothing happens at all, so the next rollback finds the same
    version. *)
Theorem rollback_undoes_newest ms d d1 :
  scripts_ok ms → rollback_one ms d = (d1, None) →
  ∃ m, m ∈ ms ∧ version m ∈ tracked d ∧ (∀ v, v ∈ tracked d → v ≤ version m) ∧
    match down_sql m with
    | Some _ =>
        tracked d1 = tracked d ∖ {[version m]} ∧
        (versions ms ⊆ tracked d → ∀ d2 l, run ms d1 = (d2, inl l) → l = [m] ∧ tracked d2 = tracked d)
    | None => d1 = d
    end.
Proof.
  intros Hok H. unfold rollback_one in H.
  destruct (get_applied_versions d) as [vs|] eqn:Ha; [|done]. pose proof (get_applied_spec _ _ Ha) as Hvs.
  destruct (max_version vs) as [v|] eqn:Hm; [|done]. apply max_version_spec in Hm as [Hin Hmax].
  destruct (List.find _ ms) as [m|] eqn:Hf; [|done]. apply find_version in Hf as [Hmin <-].
  exists m. split; [done|]. split; [by apply Hvs|]. split; [intros u Hu; by apply Hmax, Hvs|].
  destruct (down_sql m) as [down|] eqn:Hdown; [|by simplify_eq].
  pose proof (script_down _ Hok m d down Hmin Hdown) as Hd.
  destruct (execute down d) as [da ra]. simpl in Hd. destruct ra; [done|].
  unfold remove_migration in H. pose proof (remove_law da (version m) (script_range _ Hok m Hmin)) as Hr.
  destruct (execute (remove_sql (version m)) da) as [db rb]. simpl in *.
  destruct rb; simpl in H; simplify_eq. rewrite Hd in Hr. split; [done|].
  intros Hall d2 l H2. destruct (run_spec _ _ _ _ Hok H2) as (l1 & l2 & dm & Hp & _ & Ht & -> & -> & _). rewrite app_nil_r in Hp. subst l1.
  assert (pending (tracked d1) ms = [m]) as Hone.
  { rewrite Hr. pose proof (script_versions _ Hok) as Hnd. clear -Hall Hnd Hmin Hvs Hin.
    apply list_elem_of_split in Hmin as (a & b & ->). rewrite fmap_app, fmap_cons in Hnd.
    apply NoDup_app in Hnd as (_ & Hda & [Hmb _]%NoDup_cons).
    unfold pending, versions in *. rewrite filter_app, filter_cons.
    rewrite decide_True by set_solver.
    rewrite (filter_none _ a), (filter_none _ b); [done| |]; intros x Hx Hn; apply Hn;
      apply elem_of_difference; (split; [apply Hall, elem_of_list_to_set, list_elem_of_fmap; exists x; set_solver|]).
    - intros Heq%elem_of_singleton. apply Hmb. rewrite <- Heq. apply list_elem_of_fmap. by exists x.
    - intros Heq%elem_of_singleton. apply (Hda (version x)); [apply list_elem_of_fmap; by exists x|].
      rewrite Heq. left. }
  rewrite Hone in *. split; [done|]. rewrite Ht, Hr. unfold versions. simpl.
  apply set_eq. intros u. destruct (decide (u = version m)) as [->|]; [|set_solver].
  apply Hvs in Hin. set_solver.
Qed.
End migrator.
#[global] Arguments TrackingTable D {_}.

(** ** Files *)

(** A migration's file name reads back: the name written from a version
    and a description parses to both, for every description, underscores and
    dots included. *)
Theorem filename_roundtrip v n :
  is_u64 v →
  parse_filename (String.append (decimal v) (String.append (String "_" n) ".sql")) = Some (v, n).
Proof.
  intros Hv. unfold parse_filename. rewrite str_append_assoc, strip_suffix_append. cbn [mbind option_bind].
  rewrite split_once_char.
  - cbn [mbind option_bind fst snd]. by rewrite parse_u64_decimal.
  - eapply str_all_impl; [|apply decimal_all_digits]. intros c Hc.
    destruct (Ascii.eqb_spec "_" c) as [<-|]; [by vm_compute in Hc|done].
Qed.

(** What [discover] returns is in the order of the versions. *)
Lemma discover_sorted entries ms :
  discover (Some entries) = inl ms →
  StronglySorted (λ a b, version a ≤ version b) ms ∧ ∃ l, from_files entries = inl l ∧ ms ≡ₚ l.
Proof.
  unfold discover. destruct (from_files entries) as [l|e]; [|done]. intros [= <-].
  split; [apply sort_by_key_sorted|]. exists l. split; [done|apply sort_by_key_perm].
Qed.

(** Reading an SQL string literal after its opening quote: two quotes stand
    for one, a single one ends it. *)
Fixpoint read_literal (fuel : nat) (s : string) : option (string * string) :=
  match fuel, s with
  | S fuel', String "'" (String "'" s') => prod_map (String "'") id <$> read_literal fuel' s'
  | S fuel', String "'" s' => Some (EmptyString, s')
  | S fuel', String c s' => prod_map (String c) id <$> read_literal fuel' s'
  | _, _ => None
  end.

Lemma safe_name_cons c n :
  safe_name (String c n) = if Ascii.eqb c "'" then String "'" (String "'" (safe_name n)) else String c (safe_name n).
Proof.
  unfold safe_name. cbn [str_replace].
  assert (String.prefix "'" (String c n) = Ascii.eqb c "'") as ->.
  { cbn [String.prefix]. destruct (ascii_dec "'" c) as [<-|Hne]; [by destruct n|].
    symmetry. apply Ascii.eqb_neq. congruence. }
  by destruct (Ascii.eqb c "'").
Qed.

#[local] Arguments String.append : simpl nomatch.

(** A recorded name cannot leave its literal: the text between the quotes of
    the statement reads back as the name and the statement goes on after it. *)
Lemma name_stays_in_literal n rest fuel :
  (2 * String.length n < fuel)%nat → (∀ r, rest ≠ String "'" r) →
  read_literal fuel (String.append (safe_name n) (String "'" rest)) = Some (n, rest).
Proof.
  revert fuel. induction n as [|c n IH]; intros [|fuel] Hf Hr; simpl in Hf; try lia.
  - cbn [String.append read_literal]. destruct rest as [|c r]; [done|].
    destruct (ascii_dec c "'") as [->|Hne]; [by destruct (Hr r)|].
    destruct c as [[] [] [] [] [] [] [] []]; done.
  - rewrite safe_name_cons. destruct (Ascii.eqb_spec c "'") as [->|Hne]; cbn [String.append].
    + cbn [read_literal]. rewrite IH by (lia || done). done.
    + assert (∀ s, read_literal (S fuel) (String c s) = prod_map (String c) id <$> read_literal fuel s) as Hc.
      { intros s. cbn [read_literal]. destruct c as [[] [] [] [] [] [] [] []]; done. }
      rewrite Hc, IH by (lia || done). done.
Qed.

(** ** Witnesses *)

Module Examples.

(** A small database: the tracking table and the scripts executed. *)
Record db := mk_db { table : gset Z; scripts : list string }.

Definition insert_prefix : string :=
  "INSERT OR IGNORE INTO _justapi_migrations (version, name) VALUES (".
Definition delete_prefix : string := "DELETE FROM _justapi_migrations WHERE version = ".

Definition db_execute (sql : string) (d : db) : db * option string :=
  match strip_prefix insert_prefix sql with
  | Some r =>
      match split_once "," r ≫= λ p, parse_u64 p.1 with
      | Some v => (mk_db (table d ∪ {[v]}) (scripts d), None)
      | None => (d, Some "syntax error"%string)
      end
  | None =>
      match strip_prefix delete_prefix sql with
      | Some r =>
          match parse_u64 r with
          | Some v => (mk_db (table d ∖ {[v]}) (scripts d), None)
          | None => (d, Some "syntax error"%string)
          end
      | None =>
          if String.eqb sql "oops" then (d, Some "syntax error"%string)
          else (mk_db (table d) (scripts d ++ [sql]), None)
      end
  end.

(** The table holds versions a signed column can. *)
Definition small (d : db) : gset Z := filter (λ v, 0 ≤ v < 2 ^ 63) (table d).

#[local] Instance sqlite : Database db := {|
  kind _ := Sqlite; execute := db_execute; query_many_i64 _ d := inl (elements (small d)) |}.

Lemma db_record d v name :
  0 ≤ v < 2 ^ 63 →
  db_execute (record_sql Sqlite v name) d = (mk_db (table d ∪ {[v]}) (scripts d), None).
Proof.
  intros Hv. unfold db_execute.
  assert (record_sql Sqlite v name = String.append insert_prefix
            (String.append (decimal v) (String "," (String.append " '" (String.append (safe_name name) "')"))))) as ->
    by done.
  rewrite (proj2 (strip_prefix_spec _ _ _) eq_refl), split_once_char.
  - cbn [mbind option_bind fst]. rewrite parse_u64_decimal by (unfold is_u64, u64_max; lia). done.
  - eapply str_all_impl; [|apply decimal_all_digits]. intros c Hc.
    destruct (Ascii.eqb_spec "," c) as [<-|]; [by vm_compute in Hc|done].
Qed.

Lemma db_remove d v :
  0 ≤ v < 2 ^ 63 → db_execute (remove_sql v) d = (mk_db (table d ∖ {[v]}) (scripts d), None).
Proof.
  intros Hv. unfold db_execute. change (remove_sql v) with (String.append delete_prefix (decimal v)).
  destruct (strip_prefix insert_prefix _) as [r|] eqn:Hi;
    [by apply strip_prefix_spec in Hi|].
  rewrite (proj2 (strip_prefix_spec _ _ _) eq_refl), parse_u64_decimal by (unfold is_u64, u64_max; lia). done.
Qed.

#[local, refine] Instance sqlite_table : TrackingTable db := {| tracked := small |}.
Proof.
  - done.
  - intros d vs [= <-]. by rewrite list_to_set_elements_L.
  - intros d v. unfold small. rewrite elem_of_filter. tauto.
  - intros d v name Hv. change (execute _ d) with (db_execute (record_sql Sqlite v name) d).
    rewrite db_record by done. unfold small. cbn [fst snd table].
    apply set_eq. intros u. rewrite elem_of_union, !elem_of_filter, elem_of_union, elem_of_singleton.
    split; [tauto|]. intros [?| ->]; [tauto|]. split; [lia|by right].
  - intros d v Hv. change (execute _ d) with (db_execute (remove_sql v) d).
    rewrite db_remove by done. unfold small. cbn [fst snd table]. set_solver.
Defined.

Definition users : Migration := mk_migration 1 "users" "CREATE TABLE users" (Some "DROP TABLE users").
Definition posts : Migration := mk_migration 2 "posts" "CREATE TABLE posts" (Some "DROP TABLE posts").

Lemma sample_ok : scripts_ok [users; posts].
Proof.
  split.
  - apply (bool_decide_unpack _). by vm_compute.
  - intros m [->|[->|[]%elem_of_nil]%elem_of_cons]%elem_of_cons; simpl; lia.
  - by intros m d [->|[->|[]%elem_of_nil]%elem_of_cons]%elem_of_cons.
  - by intros m d sql [->|[->|[]%elem_of_nil]%elem_of_cons]%elem_of_cons [= <-].
Qed.

Definition fresh : db := mk_db ∅ [].
Definition migrated : db := (run [users; posts] fresh).1.

Lemma run_applies_pending_witness :
  (run [users; posts] fresh).2 = inl [users; posts] ∧
  scripts migrated = [create_sql Sqlite; "CREATE TABLE users"; "CREATE TABLE posts"]%string ∧
  ∀ d2 l', run [users; posts] migrated = (d2, inl l') → l' = [].
Proof.
  split; [by vm_compute|]. split; [by vm_compute|].
  destruct (run_applies_pending [users; posts] fresh migrated (inl [users; posts]) sample_ok ltac:(by vm_compute))
    as (l1 & l2 & dm & _ & _ & _ & _ & _ & _ & _ & _ & Hagain). intros d2 l' H2. exact (proj1 (Hagain d2 l' H2)).
Defined.

Lemma rollback_undoes_newest_witness :
  rollback_one [users; posts] migrated = ((rollback_one [users; posts] migrated).1, None) ∧
  ∃ m, m ∈ [users; posts] ∧ version m ∈ tracked migrated ∧ ∀ v, v ∈ tracked migrated → v ≤ version m.
Proof.
  assert (rollback_one [users; posts] migrated = ((rollback_one [users; posts] migrated).1, None)) as H
    by by vm_compute.
  split; [exact H|].
  destruct (rollback_undoes_newest _ _ _ sample_ok H) as (m & Hm & Hv & Hmax & _). by exists m.
Defined.

Lemma filename_roundtrip_witness :
  is_u64 20240101 ∧ parse_filename "20240101_add_users.v2.sql" = Some (20240101, "add_users.v2"%string).
Proof.
  assert (is_u64 20240101) as H by (unfold is_u64, u64_max; lia). split; [done|].
  exact (filename_roundtrip 20240101 "add_users.v2" H).
Defined.

(** The markers are searched as text: a comment that begins with the letters
    of one is cut. *)
Example marker_cuts_comment :
  parse_content "-- UPDATE totals" = ("DATE totals", None)%string ∧
  parse_content "SELECT 1; -- DOWNLOADS table" = ("SELECT 1;", Some "LOADS table")%string.
Proof. split; by vm_compute. Qed.
End Examples.
