(* ===== verification/Crud.v ===== *)
(** * Crud: route handlers that run SQL

    [crates/justapi-core/src/server/crud.rs] and [db_error_response] of
    [lib.rs]: a route is inserted, selected, updated or deleted rows of one
    table.  The database is a parameter: what a statement and its parameters
    answer, in a state of type [D].  [crud_plan] is what a handler decides
    before it talks to the database. *)

From Stdlib Require Import Ascii.
From S2P Require Import Prelude Text F64 Http Validate.

#[local] Open Scope Z_scope.
#[local] Arguments String.append : simpl nomatch.

Inductive CrudOp := Insert | Select | Update | Delete.

Record CrudSpec := mk_crud {
  crud_op : CrudOp; crud_table : string; crud_columns : list string; crud_id_column : string }.

Definition is_alpha (c : ascii) : bool := is_upper c || is_lower c.

Definition is_valid_sql_identifier (name : string) : bool :=
  match name with
  | EmptyString => false
  | String first rest =>
      (is_alpha first || Ascii.eqb first "_")
      && str_all (λ c, is_alphanumeric c || Ascii.eqb c "_") rest
  end.

Definition invalid (what name : string) : string :=
  "Invalid " +:+ what +:+ " '" +:+ name
  +:+ "': must be a valid SQL identifier (alphanumeric + underscore)".

Definition crud_validate (spec : CrudSpec) : string + unit :=
  if negb (is_valid_sql_identifier (crud_table spec)) then inl (invalid "table name" (crud_table spec))
  else if negb (is_valid_sql_identifier (crud_id_column spec))
  then inl (invalid "id_column" (crud_id_column spec))
  else
    match List.find (λ c, negb (is_valid_sql_identifier c)) (crud_columns spec) with
    | Some col => inl (invalid "column name" col)
    | None => inr tt
    end.

Definition is_allowed (columns : list string) (name : string) : bool :=
  existsb (λ c, eq_ignore_case c name) columns.

(** ** Query strings and path parameters *)

Definition hex_digit (b : ascii) : option Z :=
  if in_range 48 57 b then Some (code b - 48)
  else if in_range 97 102 b then Some (code b - 97 + 10)
  else if in_range 65 70 b then Some (code b - 65 + 10)
  else None.

(** The bytes of [percent_decode]. *)
Fixpoint percent_bytes (s : string) : string :=
  match s with
  | EmptyString => EmptyString
  | String b rest =>
      if Ascii.eqb b "+" then String " " (percent_bytes rest)
      else if Ascii.eqb b "%" then
        match rest with
        | String h (String l rest') =>
            match hex_digit h, hex_digit l with
            | Some hi, Some lo => String (ascii_of_nat (Z.to_nat (hi * 16 + lo))) (percent_bytes rest')
            | _, _ => String b (percent_bytes rest)
            end
        | _ => String b (percent_bytes rest)
        end
      else String b (percent_bytes rest)
  end.

Definition percent_decode (s : string) : string := from_utf8_lossy (percent_bytes s).

Definition query_pair (allowed : list string) (pair : string) : option (string * string) :=
  if String.eqb pair EmptyString then None
  else
    let '(k, v) := default (pair, EmptyString) (split_once "=" pair) in
    let k := percent_decode k in
    if is_allowed allowed k then Some (k, percent_decode v) else None.

Definition parse_query (filter : string) (allowed : list string) : list (string * string) :=
  omap (query_pair allowed) (split "&" (from_utf8_lossy filter)).

Definition id_param (path_params : list (string * string)) (id_column : string) : option json :=
  match List.find (λ kv : string * string, eq_ignore_case kv.1 id_column) path_params with
  | None => None
  | Some (_, raw) =>
      match parse_i64 raw with Some i => Some (json_int i) | None => Some (JString raw) end
  end.

(** ** Database errors *)

Inductive SqlError :=
| PoolTimedOut | PoolClosed | DatabaseError (err_code : option string) | OtherError (msg : string).

Section dispatch.
Context `{!SerdeJson} `{!JsonSchema} {D : Type}.
Context (postgres : bool) (query_with_params : string → list json → D → (SqlError + json) * D).

Definition db_error_response (e : SqlError) : Response :=
  match e with
  | PoolTimedOut | PoolClosed =>
      service_unavailable_response "database pool saturated; please retry shortly"
  | DatabaseError c =>
      if existsb (String.eqb (default EmptyString c)) ["5"; "6"; "517"; "518"; "261"]%string
      then service_unavailable_response "database is locked; please retry shortly"
      else error_response 500 "database error"
  | OtherError _ => error_response 500 "database error"
  end.

(** ** Statements *)

(** The [n]-th placeholder of [placeholder_gen], from 1. *)
Definition ph (n : nat) : string := if postgres then "$" +:+ decimal (Z.of_nat n) else "?".

(** [col = ?], the placeholders counted on from [from]. *)
Definition assignments (from : nat) (cols : list string) : list string :=
  imap (λ i c, c +:+ " = " +:+ ph (from + i)) cols.

Definition insert_sql (table : string) (cols : list string) : string :=
  "INSERT INTO " +:+ table +:+ " (" +:+ join ", " cols +:+ ") VALUES ("
  +:+ join ", " (imap (λ i _, ph (1 + i)) cols) +:+ ") RETURNING *".

Definition select_sql (table : string) (cols : list string) : string :=
  "SELECT * FROM " +:+ table
  +:+ match cols with [] => EmptyString | _ => " WHERE " +:+ join " AND " (assignments 1 cols) end.

Definition update_sql (table : string) (cols : list string) (id_column : string) : string :=
  "UPDATE " +:+ table +:+ " SET " +:+ join ", " (assignments 1 cols) +:+ " WHERE " +:+ id_column
  +:+ " = " +:+ ph (1 + length cols) +:+ " RETURNING *".

Definition delete_sql (table id_column : string) : string :=
  "DELETE FROM " +:+ table +:+ " WHERE " +:+ id_column +:+ " = " +:+ ph 1 +:+ " RETURNING *".

(** The columns of the spec the body has, with their values. *)
Definition present (columns : list string) (obj : list (string * json)) : list (string * json) :=
  omap (λ c, v ← assoc_get c obj; Some (c, v)) columns.

(** The body as an object; a response when it is none. *)
Definition body_object (b : string) : Response + list (string * json) :=
  match from_json b with
  | inl _ => inl (validation_response "request body must be valid JSON")
  | inr v =>
      match as_object v with
      | Some o => inr o
      | None => inl (validation_response "request body must be a JSON object")
      end
  end.

Definition plan_insert (spec : CrudSpec) (b : string) (validator : option Validator)
    : Response + (string * list json) :=
  let rest :=
    match body_object b with
    | inl resp => inl resp
    | inr obj =>
        match present (crud_columns spec) obj with
        | [] => inl (validation_response "no insertable columns matched the request body")
        | cvs => inr (insert_sql (crud_table spec) cvs.*1, cvs.*2)
        end
    end in
  match validator with
  | None => rest
  | Some v =>
      match compiled_validate v b with
      | inl e => inl (validation_response (verr_text e))
      | inr _ => rest
      end
  end.

Definition plan_select (spec : CrudSpec) (path_params : list (string * string)) (query : string)
    : string * list json :=
  let filters :=
    match id_param path_params (crud_id_column spec) with
    | Some id => [(crud_id_column spec, id)]
    | None => []
    end ++ ((λ kv : string * string, (kv.1, JString kv.2)) <$> parse_query query (crud_columns spec)) in
  (select_sql (crud_table spec) filters.*1, filters.*2).

Definition plan_update (spec : CrudSpec) (path_params : list (string * string)) (b : string)
    : Response + (string * list json) :=
  match id_param path_params (crud_id_column spec) with
  | None => inl (error_response 400 "missing path id for update")
  | Some id =>
      match body_object b with
      | inl resp => inl resp
      | inr obj =>
          match present (crud_columns spec) obj with
          | [] => inl (validation_response "no updatable columns matched the request body")
          | cvs => inr (update_sql (crud_table spec) cvs.*1 (crud_id_column spec), cvs.*2 ++ [id])
          end
      end
  end.

Definition plan_delete (spec : CrudSpec) (path_params : list (string * string))
    : Response + (string * list json) :=
  match id_param path_params (crud_id_column spec) with
  | None => inl (error_response 400 "missing path id for delete")
  | Some id => inr (delete_sql (crud_table spec) (crud_id_column spec), [id])
  end.

Definition crud_plan (spec : CrudSpec) (path_params : list (string * string)) (query b : string)
    (validator : option Validator) : Response + (string * list json) :=
  match crud_op spec with
  | Insert => plan_insert spec b validator
  | Select => inr (plan_select spec path_params query)
  | Update => plan_update spec path_params b
  | Delete => plan_delete spec path_params
  end.

(** ** Answers *)

Definition first_row (rows : json) : option json := as_array rows ≫= head.

Definition crud_answer (op : CrudOp) (rows : json) : Response :=
  match op with
  | Insert => json_response 200 (json_to_string (default rows (first_row rows)))
  | Select => json_response 200 (json_to_string rows)
  | Update | Delete =>
      match first_row rows with
      | Some payload => json_response 200 (json_to_string payload)
      | None => error_response 404 "row not found"
      end
  end.

Definition crud_dispatch_bytes (spec : CrudSpec) (path_params : list (string * string))
    (query b : string) (validator : option Validator) (d : D) : Response * D :=
  match crud_plan spec path_params query b validator with
  | inl resp => (resp, d)
  | inr (sql, params) =>
      match query_with_params sql params d with
      | (inr rows, d') => (crud_answer (crud_op spec) rows, d')
      | (inl e, d') => (db_error_response e, d')
      end
  end.

(** [DEFAULT_MAX_BODY_SIZE] *)
Definition max_body : Z := 50 * 1024 * 1024.

Definition crud_handler (spec : CrudSpec) (validator : option Validator) (req : Request) (d : D)
    : Response * D :=
  let path_params := default [] (ext_params (req_ext req)) in
  let refused := (error_response 400 "could not read request body", d) in
  match req_body req with
  | None => refused
  | Some b =>
      if max_body <? Z.of_nat (String.length b) then refused
      else crud_dispatch_bytes spec path_params (default EmptyString (req_query req)) b validator d
  end.

Definition crud_insert_spec (table : string) (columns : list string) : CrudSpec :=
  mk_crud Insert table columns "id".
Definition crud_insert_handler (table : string) (columns : list string) (validator : option Validator)
    : Request → D → Response * D :=
  crud_handler (crud_insert_spec table columns) validator.
Definition crud_insert_bytes (table : string) (columns : list string) (validator : option Validator)
    (b : string) (d : D) : Response * D :=
  crud_dispatch_bytes (crud_insert_spec table columns) [] EmptyString b validator d.
Definition crud_select_handler : Response := error_response 501 "use crud_handler".
End dispatch.

(** ** Identifiers *)

Abbreviation identifier s := (is_valid_sql_identifier s = true).

(** The characters of a statement: no quote, no semicolon, no dash, and no
    placeholder of the other kind. *)
Definition sql_char (postgres : bool) (c : ascii) : bool :=
  is_alphanumeric c || existsb (Ascii.eqb c) (String.list_ascii_of_string (if postgres then "_ ,()=*$" else "_ ,()=*?")).

Definition plain (postgres : bool) (s : string) : Prop := str_all (sql_char postgres) s = true.

Lemma plain_append postgres a b : plain postgres (a +:+ b) ↔ plain postgres a ∧ plain postgres b.
Proof. unfold plain. by rewrite str_all_append, andb_true_iff. Qed.

Lemma identifier_plain postgres s : identifier s → plain postgres s.
Proof.
  destruct s as [|c s]; [done|]. unfold is_valid_sql_identifier, plain.
  rewrite andb_true_iff. intros [Hc Hs]. cbn [str_all]. apply andb_true_iff. split.
  - unfold sql_char, is_alphanumeric, is_alpha in *.
    destruct (Ascii.eqb_spec c "_"%char) as [->|]; [by destruct postgres|].
    rewrite orb_false_r in Hc. apply orb_true_iff in Hc as [-> | ->]; by rewrite ?orb_true_r.
  - revert Hs. apply str_all_impl. intros d Hd. unfold sql_char.
    apply orb_true_iff in Hd as [->|Hd%Ascii.eqb_eq]; [done|]. subst d. by destruct postgres.
Qed.

Lemma lower_char_class c :
  is_alpha (lower_char c) = is_alpha c ∧ is_alphanumeric (lower_char c) = is_alphanumeric c ∧
  Ascii.eqb (lower_char c) "_" = Ascii.eqb c "_".
Proof. destruct c as [[] [] [] [] [] [] [] []]; vm_compute; auto. Qed.

Lemma identifier_lowercase s : is_valid_sql_identifier (lowercase s) = is_valid_sql_identifier s.
Proof.
  destruct s as [|c s]; [done|]. cbn [lowercase str_map is_valid_sql_identifier].
  destruct (lower_char_class c) as (-> & _ & ->). f_equal.
  induction s as [|d s IH]; [done|]. unfold lowercase. cbn [str_map str_all]. fold (lowercase s).
  destruct (lower_char_class d) as (_ & -> & ->). by rewrite IH.
Qed.

Lemma allowed_identifier columns k :
  Forall (λ c, identifier c) columns → is_allowed columns k = true → identifier k.
Proof.
  unfold is_allowed. rewrite existsb_exists, Forall_forall. intros Hc (c & Hin & Heq%String.eqb_eq).
  rewrite <- identifier_lowercase, <- Heq, identifier_lowercase. by apply Hc, list_elem_of_In.
Qed.

Lemma crud_validate_spec spec :
  crud_validate spec = inr tt →
  identifier (crud_table spec) ∧ identifier (crud_id_column spec) ∧
  Forall (λ c, identifier c) (crud_columns spec).
Proof.
  unfold crud_validate. destruct (is_valid_sql_identifier (crud_table spec)); [|done].
  destruct (is_valid_sql_identifier (crud_id_column spec)); [|done]. cbn [negb].
  destruct (List.find _ _) as [c|] eqn:Hf; [done|]. intros _. split_and!; [done..|].
  apply Forall_forall. intros c Hc. apply list_elem_of_In in Hc.
  pose proof (List.find_none _ _ Hf c Hc) as Hn. by apply negb_false_iff in Hn.
Qed.

(** ** Statements *)

Section statements.
Context (postgres : bool).
#[local] Hint Resolve identifier_plain : core.
#[local] Hint Extern 1 (plain _ _) => first [reflexivity | by destruct postgres] : core.

Lemma plain_join sep l : plain postgres sep → Forall (plain postgres) l → plain postgres (join sep l).
Proof.
  intros Hsep. unfold join. induction 1 as [|s [|s' l] Hs _ IH]; [done|done|].
  change (String.concat sep (s :: s' :: l)) with (s +:+ sep +:+ String.concat sep (s' :: l)).
  by rewrite !plain_append.
Qed.

Lemma plain_ph n : plain postgres (ph postgres n).
Proof.
  unfold ph. destruct postgres; [|done]. apply plain_append. split; [done|].
  eapply str_all_impl; [|apply decimal_all_digits]. intros c Hc.
  unfold sql_char, is_alphanumeric. by rewrite Hc.
Qed.

Lemma plain_imap {A} (f : nat → A → string) l :
  (∀ i a, a ∈ l → plain postgres (f i a)) → Forall (plain postgres) (imap f l).
Proof.
  intros Hf. apply Forall_lookup_2. intros i x Hx. rewrite list_lookup_imap in Hx.
  destruct (l !! i) as [a|] eqn:Ha; [|done]. injection Hx as <-.
  by eapply Hf, list_elem_of_lookup_2.
Qed.

Lemma plain_identifiers cols : Forall (λ c, identifier c) cols → Forall (plain postgres) cols.
Proof. intros Hc. eapply Forall_impl; [exact Hc|auto]. Qed.

Lemma plain_assignments from cols :
  Forall (λ c, identifier c) cols → Forall (plain postgres) (assignments postgres from cols).
Proof.
  intros Hc. apply plain_imap. intros i c Hin. rewrite Forall_forall in Hc.
  rewrite !plain_append. auto using plain_ph.
Qed.

Lemma plain_insert table cols :
  identifier table → Forall (λ c, identifier c) cols → plain postgres (insert_sql postgres table cols).
Proof.
  intros Ht Hc%plain_identifiers. unfold insert_sql. rewrite !plain_append.
  split_and!; auto; apply plain_join; auto. apply plain_imap. auto using plain_ph.
Qed.

Lemma plain_select table cols :
  identifier table → Forall (λ c, identifier c) cols → plain postgres (select_sql postgres table cols).
Proof.
  intros Ht Hc. pose proof (plain_assignments 1 cols Hc) as Ha. unfold select_sql.
  rewrite !plain_append. split_and!; auto. destruct cols; [done|]. rewrite plain_append. auto using plain_join.
Qed.

Lemma plain_update table cols id :
  identifier table → identifier id → Forall (λ c, identifier c) cols →
  plain postgres (update_sql postgres table cols id).
Proof.
  intros Ht Hi Hc. pose proof (plain_assignments 1 cols Hc). unfold update_sql.
  rewrite !plain_append. split_and!; auto using plain_join, plain_ph.
Qed.

Lemma plain_delete table id :
  identifier table → identifier id → plain postgres (delete_sql postgres table id).
Proof.
  intros Ht Hi. unfold delete_sql. rewrite !plain_append. split_and!; auto using plain_ph.
Qed.
End statements.

Lemma present_columns columns obj :
  (present columns obj).*1 `sublist_of` columns ∧ length (present columns obj).*2 = length (present columns obj).*1.
Proof.
  split; [|by rewrite !length_fmap]. induction columns as [|c columns IH]; [constructor|].
  unfold present in *. cbn [omap list_omap]. destruct (assoc_get c obj); simpl; by constructor.
Qed.

(** The statement of an operation on some columns. *)
Definition statement (postgres : bool) (spec : CrudSpec) (cols : list string) : string :=
  match crud_op spec with
  | Insert => insert_sql postgres (crud_table spec) cols
  | Select => select_sql postgres (crud_table spec) cols
  | Update => update_sql postgres (crud_table spec) cols (crud_id_column spec)
  | Delete => delete_sql postgres (crud_table spec) (crud_id_column spec)
  end.

Definition bound (spec : CrudSpec) (cols : list string) : nat :=
  match crud_op spec with Insert | Select => length cols | Update => S (length cols) | Delete => 1 end.

(** A column a statement of the route may name. *)
Definition route_column (spec : CrudSpec) (c : string) : Prop :=
  identifier c ∧ (c = crud_id_column spec ∨ is_allowed (crud_columns spec) c = true).

(** The statement is the route's own on such columns, its parameters in number. *)
Definition own_statement (postgres : bool) (spec : CrudSpec) (sql : string) (params : list json) : Prop :=
  ∃ cols, sql = statement postgres spec cols ∧ length params = bound spec cols ∧
    Forall (route_column spec) cols.

Section plans.
Context `{!SerdeJson} `{!JsonSchema} (postgres : bool) (spec : CrudSpec).
Hypothesis Hvalid : crud_validate spec = inr tt.

Lemma present_allowed obj : Forall (route_column spec) (present (crud_columns spec) obj).*1.
Proof.
  destruct (crud_validate_spec spec Hvalid) as (_ & _ & Hc). rewrite Forall_forall in Hc.
  apply Forall_forall. intros c Hin. destruct (present_columns (crud_columns spec) obj) as [Hsub _].
  eapply elem_of_sublist in Hin; [|exact Hsub]. split; [by apply Hc|right].
  apply existsb_exists. exists c. split; [by apply list_elem_of_In|]. apply String.eqb_refl.
Qed.

Lemma own_statement_plain sql params : own_statement postgres spec sql params → plain postgres sql.
Proof.
  destruct (crud_validate_spec spec Hvalid) as (Ht & Hi & _). intros (cols & -> & _ & Hcols).
  assert (Forall (λ c, identifier c) cols) by (eapply Forall_impl; [exact Hcols|by intros ? []]).
  unfold statement. destruct (crud_op spec); [by apply plain_insert|by apply plain_select|
    by apply plain_update|by apply plain_delete].
Qed.

Lemma plan_insert_own b validator sql params :
  crud_op spec = Insert → plan_insert postgres spec b validator = inr (sql, params) →
  own_statement postgres spec sql params.
Proof.
  intros Hop Hplan. unfold own_statement, statement, bound. rewrite Hop.
  assert (∃ obj, sql = insert_sql postgres (crud_table spec) (present (crud_columns spec) obj).*1 ∧
    params = (present (crud_columns spec) obj).*2) as (obj & -> & ->).
  { unfold plan_insert in Hplan.
    destruct validator as [v|]; [destruct (compiled_validate v b); [done|]|];
      (destruct (body_object b) as [|obj]; [done|]); exists obj;
      (destruct (present _ obj); [done|by injection Hplan as <- <-]). }
  eexists. split; [done|]. split; [by rewrite !length_fmap|apply present_allowed].
Qed.

Lemma parse_query_allowed query :
  Forall (route_column spec) (parse_query query (crud_columns spec)).*1.
Proof.
  destruct (crud_validate_spec spec Hvalid) as (_ & _ & Hc).
  apply Forall_forall. intros c ([k v] & -> & Hkv)%list_elem_of_fmap.
  apply list_elem_of_omap in Hkv as (pair & _ & Hp).
  unfold query_pair in Hp. destruct (String.eqb _ _); [done|].
  destruct (default _ _) as [k0 v0]. destruct (is_allowed _ _) eqn:Hal; [|done].
  injection Hp as <- <-. split; [by eapply allowed_identifier|by right].
Qed.

Lemma plan_select_own path_params query :
  crud_op spec = Select →
  own_statement postgres spec (plan_select postgres spec path_params query).1
    (plan_select postgres spec path_params query).2.
Proof.
  intros Hop. destruct (crud_validate_spec spec Hvalid) as (_ & Hi & _).
  unfold own_statement, statement, bound. rewrite Hop. eexists. split; [done|].
  split; [by unfold plan_select; simpl; rewrite !length_fmap|]. rewrite fmap_app. apply Forall_app. split.
  - destruct (id_param _ _); [|constructor]. apply Forall_singleton. by split; [|left].
  - rewrite <- list_fmap_compose. exact (parse_query_allowed query).
Qed.

Lemma plan_update_own path_params b sql params :
  crud_op spec = Update → plan_update postgres spec path_params b = inr (sql, params) →
  own_statement postgres spec sql params.
Proof.
  intros Hop Hplan. unfold own_statement, statement, bound. rewrite Hop.
  unfold plan_update in Hplan. destruct (id_param _ _) as [id|]; [|done].
  destruct (body_object b) as [|obj]; [done|]. pose proof (present_allowed obj) as Hpo.
  destruct (present _ obj) as [|cv cvs]; [done|]. injection Hplan as <- <-. eexists. split; [done|].
  split; [|exact Hpo]. csimpl. rewrite length_app, !length_fmap. simpl. lia.
Qed.

Lemma plan_delete_own path_params sql params :
  crud_op spec = Delete → plan_delete postgres spec path_params = inr (sql, params) →
  own_statement postgres spec sql params.
Proof.
  intros Hop Hplan. unfold own_statement, statement, bound. rewrite Hop.
  unfold plan_delete in Hplan. destruct (id_param _ _); [|done]. injection Hplan as <- <-.
  exists []. by repeat split.
Qed.
End plans.

Lemma crud_plan_own `{!SerdeJson} `{!JsonSchema} postgres spec path_params query b validator sql params :
  crud_validate spec = inr tt →
  crud_plan postgres spec path_params query b validator = inr (sql, params) →
  own_statement postgres spec sql params ∧ plain postgres sql.
Proof.
  intros Hv Hplan. assert (own_statement postgres spec sql params) as Hown;
    [|split; [done|by eapply own_statement_plain]].
  unfold crud_plan in Hplan. destruct (crud_op spec) eqn:Hop.
  - by eapply plan_insert_own.
  - pose proof (plan_select_own postgres spec Hv path_params query Hop) as H1.
    by injection Hplan as <- <-.
  - by eapply plan_update_own.
  - by eapply plan_delete_own.
Qed.

(** C6: No request writes SQL. For a route whose names pass validation,
    whatever the path, the query string and the body are, a request that
    reaches the database runs the route's own statement on some columns, each
    a plain identifier the route allows, and has one parameter for each
    placeholder; so values travel only as parameters, and the text has no
    quote, semicolon or comment, nor a placeholder of another engine. *)
Theorem crud_no_injection `{!SerdeJson} `{!JsonSchema} postgres spec path_params query b validator sql params :
  crud_validate spec = inr tt →
  crud_plan postgres spec path_params query b validator = inr (sql, params) →
  own_statement postgres spec sql params ∧ plain postgres sql.
Proof. intros Hv Hplan. by eapply crud_plan_own. Qed.

(** ** Concrete requests *)

Module Examples.

#[local] Instance serde : SerdeJson := {| json_to_string _ := "{}"%string |}.
#[local] Instance schema : JsonSchema := {|
  Validator := unit; build _ _ := inr tt; iter_errors _ _ := [];
  from_json s := if String.eqb s "row" then inr (JObject [("name"%string, JString "x'; DROP TABLE t; --");
                                                          ("role"%string, JString "admin")])
                 else inl "expected value"%string |}.

Definition users (op : CrudOp) : CrudSpec := mk_crud op "users" ["name"; "email"]%string "id".

Example insert_plan :
  crud_plan true (users Insert) [] EmptyString "row" None
  = inr ("INSERT INTO users (name) VALUES ($1) RETURNING *"%string, [JString "x'; DROP TABLE t; --"]).
Proof. vm_compute. reflexivity. Qed.

Example select_plan :
  crud_plan false (users Select) [("ID"%string, "7"%string)] "NAME=a%20b&x=1&email" EmptyString None
  = inr ("SELECT * FROM users WHERE id = ? AND NAME = ? AND email = ?"%string,
         [json_int 7; JString "a b"; JString EmptyString]).
Proof. vm_compute. reflexivity. Qed.

Example update_plan :
  crud_plan true (users Update) [("id"%string, "k"%string)] EmptyString "row" None
  = inr ("UPDATE users SET name = $1 WHERE id = $2 RETURNING *"%string,
         [JString "x'; DROP TABLE t; --"; JString "k"]).
Proof. vm_compute. reflexivity. Qed.

(** A name that is no identifier reaches the statement when nobody validates
    the route. *)
Example unvalidated_route :
  crud_validate (mk_crud Delete "t; --" [] "id") ≠ inr tt ∧
  crud_plan false (mk_crud Delete "t; --" [] "id") [("id"%string, "1"%string)] EmptyString EmptyString None
  = inr ("DELETE FROM t; -- WHERE id = ? RETURNING *"%string, [json_int 1]).
Proof. vm_compute. split; [done|reflexivity]. Qed.

Lemma crud_no_injection_witness :
  plain true "INSERT INTO users (name) VALUES ($1) RETURNING *" ∧
  own_statement true (users Insert) "INSERT INTO users (name) VALUES ($1) RETURNING *"
    [JString "x'; DROP TABLE t; --"].
Proof.
  destruct (crud_no_injection true (users Insert) [] EmptyString "row" None
    "INSERT INTO users (name) VALUES ($1) RETURNING *" [JString "x'; DROP TABLE t; --"]) as [H1 H2].
  - vm_compute. reflexivity.
  - vm_compute. reflexivity.
  - split; [exact H2|exact H1].
Defined.

End Examples.
