(* ===== verification/Query.v ===== *)
(** * Query: the builders of SQL statements

    [crates/justapi-core/src/db/query.rs]: [Select], [Insert], [Update] and
    [Delete] collect the parts of a statement and print it. *)

From Stdlib Require Import Ascii.
From S2P Require Import Prelude Text.

#[local] Open Scope Z_scope.
#[local] Arguments String.append : simpl nomatch.

(** The clauses the builders share. *)
Definition where_clause (conditions : list string) : string :=
  match conditions with
  | [] => EmptyString
  | _ => " WHERE " +:+ join " AND " conditions
  end.

Definition returning_clause (returning : option (list string)) : string :=
  match returning with
  | Some cols => " RETURNING " +:+ join ", " cols
  | None => EmptyString
  end.

(** ** Select *)

Record Select := mk_select {
  sel_table : string;
  sel_columns : list string;
  sel_conditions : list string;
  sel_order_by : option string;
  sel_limit : option Z;
  sel_offset : option Z }.

Module Select.

Definition new (table : string) : Select := mk_select table ["*"%string] [] None None None.
Definition columns (cs : list string) (s : Select) : Select :=
  mk_select (sel_table s) cs (sel_conditions s) (sel_order_by s) (sel_limit s) (sel_offset s).
Definition where_ (c : string) (s : Select) : Select :=
  mk_select (sel_table s) (sel_columns s) (sel_conditions s ++ [c]) (sel_order_by s) (sel_limit s)
    (sel_offset s).
Definition order_by (c : string) (s : Select) : Select :=
  mk_select (sel_table s) (sel_columns s) (sel_conditions s) (Some c) (sel_limit s) (sel_offset s).
Definition limit (n : Z) (s : Select) : Select :=
  mk_select (sel_table s) (sel_columns s) (sel_conditions s) (sel_order_by s) (Some n) (sel_offset s).
Definition offset (n : Z) (s : Select) : Select :=
  mk_select (sel_table s) (sel_columns s) (sel_conditions s) (sel_order_by s) (sel_limit s) (Some n).

Definition build (s : Select) : string :=
  "SELECT " +:+ join ", " (sel_columns s) +:+ " FROM " +:+ sel_table s
  +:+ where_clause (sel_conditions s)
  +:+ match sel_order_by s with Some ob => " ORDER BY " +:+ ob | None => EmptyString end
  +:+ match sel_limit s with Some n => " LIMIT " +:+ decimal n | None => EmptyString end
  +:+ match sel_offset s with Some n => " OFFSET " +:+ decimal n | None => EmptyString end.

Definition build_count (s : Select) : string :=
  "SELECT COUNT(*) as count FROM " +:+ sel_table s +:+ where_clause (sel_conditions s).

End Select.

(** ** Insert *)

Record Insert := mk_insert {
  ins_table : string;
  ins_columns : list string;
  ins_values : list (list string);
  ins_returning : option (list string) }.

Module Insert.

Definition new (table : string) : Insert := mk_insert table [] [] None.
Definition columns (cs : list string) (i : Insert) : Insert :=
  mk_insert (ins_table i) cs (ins_values i) (ins_returning i).
Definition values (vs : list string) (i : Insert) : Insert :=
  mk_insert (ins_table i) (ins_columns i) (ins_values i ++ [vs]) (ins_returning i).
Definition returning (cs : list string) (i : Insert) : Insert :=
  mk_insert (ins_table i) (ins_columns i) (ins_values i) (Some cs).

Definition placeholders (row : list string) : string :=
  "(" +:+ join ", " ((λ _, "?"%string) <$> row) +:+ ")".

Definition build (i : Insert) : string :=
  "INSERT INTO " +:+ ins_table i +:+ " (" +:+ join ", " (ins_columns i) +:+ ") VALUES "
  +:+ join ", " (placeholders <$> ins_values i) +:+ returning_clause (ins_returning i).

End Insert.

(** ** Update *)

Record Update := mk_update {
  upd_table : string;
  upd_sets : list string;
  upd_conditions : list string;
  upd_returning : option (list string) }.

Module Update.

Definition new (table : string) : Update := mk_update table [] [] None.
Definition set_ (column placeholder : string) (u : Update) : Update :=
  mk_update (upd_table u) (upd_sets u ++ [column +:+ " = " +:+ placeholder]) (upd_conditions u)
    (upd_returning u).
Definition where_ (c : string) (u : Update) : Update :=
  mk_update (upd_table u) (upd_sets u) (upd_conditions u ++ [c]) (upd_returning u).
Definition returning (cs : list string) (u : Update) : Update :=
  mk_update (upd_table u) (upd_sets u) (upd_conditions u) (Some cs).

Definition build (u : Update) : string :=
  "UPDATE " +:+ upd_table u +:+ " SET " +:+ join ", " (upd_sets u)
  +:+ where_clause (upd_conditions u) +:+ returning_clause (upd_returning u).

End Update.

(** ** Delete *)

Record Delete := mk_delete {
  del_table : string;
  del_conditions : list string;
  del_returning : option (list string) }.

Module Delete.

Definition new (table : string) : Delete := mk_delete table [] None.
Definition where_ (c : string) (d : Delete) : Delete :=
  mk_delete (del_table d) (del_conditions d ++ [c]) (del_returning d).
Definition returning (cs : list string) (d : Delete) : Delete :=
  mk_delete (del_table d) (del_conditions d) (Some cs).

Definition build (d : Delete) : string :=
  "DELETE FROM " +:+ del_table d +:+ where_clause (del_conditions d)
  +:+ returning_clause (del_returning d).

End Delete.

(** ** The theorems *)

Fixpoint count_char (c : ascii) (s : string) : nat :=
  match s with
  | EmptyString => 0
  | String d s' => (if Ascii.eqb c d then 1 else 0) + count_char c s'
  end.

Lemma count_char_append c a b : count_char c (a +:+ b) = (count_char c a + count_char c b)%nat.
Proof. induction a as [|d a IH]; simpl; [done|]. rewrite IH. lia. Qed.

Lemma count_char_join c sep l :
  count_char c sep = 0%nat → count_char c (join sep l) = sum_list (count_char c <$> l).
Proof.
  intros Hsep. unfold join. induction l as [|x [|y l] IH]; [done|simpl; lia|].
  change (String.concat sep (x :: y :: l)) with (x +:+ sep +:+ String.concat sep (y :: l)).
  rewrite !count_char_append, IH, Hsep. done.
Qed.

Lemma count_placeholders row : count_char "?" (Insert.placeholders row) = length row.
Proof.
  unfold Insert.placeholders. rewrite !count_char_append, count_char_join by done.
  assert (sum_list (count_char "?" <$> ((λ _, "?"%string) <$> row)) = length row) as ->.
  { induction row as [|x row IH]; csimpl; [done|]. by rewrite IH. }
  simpl. lia.
Qed.

(** No mark of its own in the parts the caller wrote. *)
Abbreviation unmarked s := (count_char "?" s = 0%nat).

Lemma sum_unmarked l : Forall (λ s, unmarked s) l → sum_list (count_char "?" <$> l) = 0%nat.
Proof. induction 1 as [|s l Hs _ IH]; csimpl; [done|]. by rewrite Hs, IH. Qed.

(** An INSERT never contains the values it inserts, and has one mark for
    each. Two statements for the same table, columns and result columns print
    alike when their rows have the same lengths, whatever the values are; and
    when table and columns have no mark of their own, the statement has exactly
    as many marks as values. *)
Theorem insert_binds_values (i j : Insert) :
  (ins_table i = ins_table j → ins_columns i = ins_columns j → ins_returning i = ins_returning j →
   length <$> ins_values i = length <$> ins_values j → Insert.build i = Insert.build j) ∧
  (unmarked (ins_table i) → Forall (λ s, unmarked s) (ins_columns i) →
   Forall (λ s, unmarked s) (default [] (ins_returning i)) →
   count_char "?" (Insert.build i) = sum_list (length <$> ins_values i)).
Proof.
  split.
  - intros Ht Hc Hr Hv. unfold Insert.build. rewrite Ht, Hc, Hr. do 6 f_equal.
    f_equal.
    revert Hv. generalize (ins_values j). induction (ins_values i) as [|r rs IH]; intros [|r' rs'];
      csimpl; [done..|]. intros [= Hlen Hrs]. f_equal; [|by apply IH].
    unfold Insert.placeholders. do 3 f_equal. revert r' Hlen.
    induction r as [|x r IHr]; intros [|y r']; csimpl; [done..|]. intros [= Hlen]. f_equal. by apply IHr.
  - intros Ht Hc Hr. unfold Insert.build.
    rewrite !count_char_append, !count_char_join by done. rewrite sum_unmarked by done.
    assert (count_char "?" (returning_clause (ins_returning i)) = 0%nat) as ->.
    { destruct (ins_returning i) as [cols|]; [|done]. simpl in Hr. unfold returning_clause.
      rewrite count_char_append, count_char_join by done. by rewrite sum_unmarked. }
    rewrite Ht, <- list_fmap_compose.
    assert (count_char "?" ∘ Insert.placeholders <$> ins_values i = length <$> ins_values i) as ->
      by (apply list_fmap_ext; intros; apply count_placeholders).
    simpl. lia.
Qed.

(** The clauses of a SELECT come in their order, each only when it was given. *)
Lemma select_build_plain table : Select.build (Select.new table) = "SELECT * FROM " +:+ table.
Proof. unfold Select.build. simpl. by rewrite !str_append_nil_r. Qed.

Module Examples.

Example select_where :
  Select.build (Select.where_ "active = true" (Select.where_ "id = ?"
    (Select.columns ["id"; "name"; "email"]%string (Select.new "users"))))
  = "SELECT id, name, email FROM users WHERE id = ? AND active = true"%string.
Proof. reflexivity. Qed.

Example select_paged :
  Select.build (Select.offset 20 (Select.limit 10 (Select.order_by "name ASC" (Select.new "users"))))
  = "SELECT * FROM users ORDER BY name ASC LIMIT 10 OFFSET 20"%string.
Proof. vm_compute. reflexivity. Qed.

Example insert_returning :
  Insert.build (Insert.returning ["id"%string] (Insert.values ["Alice"; "alice@example.com"]%string
    (Insert.columns ["name"; "email"]%string (Insert.new "users"))))
  = "INSERT INTO users (name, email) VALUES (?, ?) RETURNING id"%string.
Proof. reflexivity. Qed.

Example update : Update.build (Update.where_ "id = ?" (Update.set_ "name" "?" (Update.new "users")))
  = "UPDATE users SET name = ? WHERE id = ?"%string.
Proof. reflexivity. Qed.

Example delete_ : Delete.build (Delete.where_ "id = ?" (Delete.new "users"))
  = "DELETE FROM users WHERE id = ?"%string.
Proof. reflexivity. Qed.

Definition ex_insert (v : string) : Insert := mk_insert "t" ["a"; "b"]%string [[v; "x"]]%string None.

Lemma insert_binds_values_witness :
  Insert.build (ex_insert "1'); DROP TABLE t; --") = Insert.build (ex_insert "1") ∧
  count_char "?" (Insert.build (ex_insert "what?")) = 2%nat.
Proof.
  split.
  - apply (insert_binds_values (ex_insert "1'); DROP TABLE t; --") (ex_insert "1")); reflexivity.
  - apply (insert_binds_values (ex_insert "what?") (ex_insert "what?")); [reflexivity|by repeat constructor..].
Defined.

End Examples.
