(* ===== verification/Workers.v ===== *)
(** * Workers: the prefork supervisor of the command line

    [crates/justapi-cli/src/workers.rs] and the choice of its policy in
    [main.rs].  A turn of the [select!] loop is an event: which branch was
    taken, with the time, the load and the process ids the operating system
    gave.  Sockets, file descriptors and the probe of the system load are not
    modelled. *)

From S2P Require Import Prelude F32 Text F64.

#[local] Open Scope Z_scope.

(** ** The decision *)

Record ScalingPolicy := mk_policy {
  min_workers : Z; max_workers : Z; low : f64; high : f64; cooldown : Z; step : Z }.

Definition f64_lit (s : string) : f64 := default f64_zero (parse_f64 s).

Definition policy_default : ScalingPolicy := mk_policy 1 4 (f64_lit "0.3"%string) (f64_lit "0.7"%string) 15 1.

(** [usize::clamp] asserts that its bounds are in order. *)
Definition clamp (lo hi x : Z) : exec Z := if lo <=? hi then Ret (Z.max lo (Z.min hi x)) else Panic.

Definition decide_scale (current : Z) (load : f64) (p : ScalingPolicy) : exec Z :=
  let desired :=
    if f32_ge load (high p) then sadd64 current (step p)
    else if f32_le load (low p) then ssub current (step p)
    else current in
  clamp (min_workers p) (max_workers p) desired.

(** *** The policy of the command line *)

Record ServeArgs := mk_serve_args {
  arg_workers : Z; arg_min : option Z; arg_max : option Z; arg_scale : bool;
  arg_low : f64; arg_high : f64; arg_cooldown : Z }.

Definition prefork_max (a : ServeArgs) : Z := default (arg_workers a) (arg_max a).
Definition prefork (a : ServeArgs) : bool := (1 <? arg_workers a) || (arg_scale a && (1 <? prefork_max a)).

Definition scaling_of (a : ServeArgs) : option ScalingPolicy :=
  if arg_scale a then
    let mn := default (arg_workers a) (arg_min a) in
    let mx := default (Z.max (wmul64 (arg_workers a) 2) (wadd64 mn 1)) (arg_max a) in
    Some (mk_policy mn mx (arg_low a) (arg_high a) (arg_cooldown a) 1)
  else None.

(** ** The fleet *)

Inductive signal := SIGTERM | SIGKILL.

(** [waits] are the slots and process ids of the waits still in the set. *)
Record Fleet := mk_fleet {
  pids : list (option Z);
  waits : list (nat * Z);
  stopping : gset nat;
  cancelled : bool;
  drain_deadline : option Z;
  last_scale : Z;
  signals : list (signal * Z) }.

(** How a turn ends: the loop goes on, or [supervise] returns. *)
Inductive turn := Continue (f : Fleet) | Return (err : option string) (f : Fleet).

Definition live_pids (ps : list (option Z)) : list Z := omap id ps.

Definition set_pids (ps : list (option Z)) (f : Fleet) : Fleet :=
  mk_fleet ps (waits f) (stopping f) (cancelled f) (drain_deadline f) (last_scale f) (signals f).
Definition set_waits (ws : list (nat * Z)) (f : Fleet) : Fleet :=
  mk_fleet (pids f) ws (stopping f) (cancelled f) (drain_deadline f) (last_scale f) (signals f).
Definition set_stopping (st : gset nat) (f : Fleet) : Fleet :=
  mk_fleet (pids f) (waits f) st (cancelled f) (drain_deadline f) (last_scale f) (signals f).
Definition cancel (f : Fleet) : Fleet :=
  mk_fleet (pids f) (waits f) (stopping f) true (drain_deadline f) (last_scale f) (signals f).
Definition set_deadline (d : Z) (f : Fleet) : Fleet :=
  mk_fleet (pids f) (waits f) (stopping f) (cancelled f) (Some d) (last_scale f) (signals f).
Definition set_last_scale (t : Z) (f : Fleet) : Fleet :=
  mk_fleet (pids f) (waits f) (stopping f) (cancelled f) (drain_deadline f) t (signals f).
Definition send (s : signal) (ps : list Z) (f : Fleet) : Fleet :=
  mk_fleet (pids f) (waits f) (stopping f) (cancelled f) (drain_deadline f) (last_scale f)
    (signals f ++ ((s,.) <$> ps)).

(** [signal_children], [signal_kill] and [signal_one]. *)
Definition signal_children (f : Fleet) : Fleet := send SIGTERM (live_pids (pids f)) f.
Definition signal_kill (f : Fleet) : Fleet := send SIGKILL (live_pids (pids f)) f.
Definition signal_one (pid : option Z) (f : Fleet) : Fleet := send SIGTERM (option_list pid) f.

(** A free slot, or a new one. *)
Definition position_none (ps : list (option Z)) : option nat := fst <$> list_find (λ p, p = None) ps.

Definition next_free_slot (ps : list (option Z)) : nat * list (option Z) :=
  match position_none ps with
  | Some slot => (slot, ps)
  | None => (length ps, ps ++ [None])
  end.

(** A worker in a slot of the table: [pid] is what the system gave. *)
Definition start_worker (slot : nat) (pid : Z) (f : Fleet) : Fleet :=
  set_waits (waits f ++ [(slot, pid)]) (set_pids (<[slot := Some pid]> (pids f)) f).

Definition spawn_error : string := "failed to spawn worker process"%string.

(** [spawned] says how each call of [spawn_worker] ends; when it runs out the
    next one fails. *)
Definition next_spawn (spawned : list (option Z)) : option Z * list (option Z) :=
  match spawned with [] => (None, []) | p :: ps => (p, ps) end.

(** The first workers; an error returns at once. *)
Fixpoint spawn_all (count : nat) (slot : nat) (spawned : list (option Z)) (f : Fleet) : turn :=
  match count with
  | O => Continue f
  | S count' =>
      let '(p, spawned') := next_spawn spawned in
      match p with
      | None => Return (Some spawn_error) f
      | Some pid =>
          spawn_all count' (S slot) spawned'
            (set_waits (waits f ++ [(slot, pid)]) (set_pids (pids f ++ [Some pid]) f))
      end
  end.

(** [supervise] up to its loop, at the time [now]. *)
Definition supervise_start (count : nat) (policy : option ScalingPolicy) (now : Z) (spawned : list (option Z)) : turn :=
  let empty := mk_fleet [] [] ∅ false None (let cd := cooldown (default policy_default policy) in
                                            if cd <=? now then now - cd else now) [] in
  if Nat.eqb count 0 then Return (Some "worker count must be >= 1"%string) empty
  else spawn_all count 0 spawned empty.

(** *** One turn *)

Definition active_slots (f : Fleet) : list nat :=
  filter (λ s, s ∉ stopping f ∧ is_Some (pids f !! s ≫= id)) (seq 0 (length (pids f))).

Definition active (f : Fleet) : Z := Z.of_nat (length (active_slots f)).

(** The loop that scales up; a spawn that fails ends it. *)
Fixpoint scale_up (to_add : nat) (spawned : list (option Z)) (f : Fleet) : Fleet :=
  match to_add with
  | O => f
  | S n =>
      let '(slot, ps) := next_free_slot (pids f) in
      let f := set_pids ps f in
      let '(p, spawned') := next_spawn spawned in
      match p with None => f | Some pid => scale_up n spawned' (start_worker slot pid f) end
  end.

(** The loop that scales down, over the slots from the highest. *)
Fixpoint scale_down (to_remove : nat) (slots : list nat) (f : Fleet) : Fleet :=
  match slots, to_remove with
  | slot :: slots', S n =>
      match pids f !! slot ≫= id with
      | Some pid =>
          if decide (slot ∈ stopping f) then scale_down to_remove slots' f
          else scale_down n slots' (signal_one (Some pid) (set_stopping ({[slot]} ∪ stopping f) f))
      | None => scale_down to_remove slots' f
      end
  | _, _ => f
  end.

Definition scale (p : ScalingPolicy) (now : Z) (load : f64) (spawned : list (option Z)) (f : Fleet) : exec Fleet :=
  let a := active f in
  desired ← decide_scale a load p;
  if negb (desired =? a) && (cooldown p <=? now - last_scale f) then
    let f := set_last_scale now f in
    Ret (if a <? desired then scale_up (Z.to_nat (Z.min (desired - a) (step p))) spawned f
         else scale_down (Z.to_nat (Z.min (a - desired) (step p))) (reverse (seq 0 (length (pids f)))) f)
  else Ret f.

Inductive Event :=
| WorkerExited (slot : nat) (pid : Z) (ok : bool) (respawn : option Z)
| NoChildren
| ShutdownSeen
| StopSignal
| ScaleTick (load : f64) (spawned : list (option Z)).

(** The check at the end of a turn; the kill waits for every worker. *)
Definition drain_check (now : Z) (f : Fleet) : turn :=
  match drain_deadline f with
  | None => Continue f
  | Some deadline =>
      if forallb (λ sp : nat * option Z, bool_decide (sp.2 = None) || bool_decide (sp.1 ∈ stopping f)) (imap pair (pids f))
      then Return None f
      else if deadline <=? now then Return None (set_waits [] (signal_kill f))
      else Continue f
  end.

Section loop.
(** [policy] is the argument of [supervise]; without one it takes the default
    policy and a probe that reads no load. *)
Context (policy : option ScalingPolicy) (drain_timeout : Z).

Definition the_policy : ScalingPolicy := default policy_default policy.
Definition scaling_enabled : bool := min_workers the_policy <? max_workers the_policy.
Definition probed (load : f64) : f64 := match policy with Some _ => load | None => f64_zero end.

(** An event that cannot happen in a state is [None]. *)
Definition turn_step (now : Z) (e : Event) (f : Fleet) : option (exec turn) :=
  match e with
  | WorkerExited slot pid ok respawn =>
      if decide ((slot, pid) ∈ waits f) then
        let f := set_pids (<[slot := None]> (pids f)) (set_waits (filter (λ w, w ≠ (slot, pid)) (waits f)) f) in
        Some (Ret (
          if decide (slot ∈ stopping f) then Continue (set_stopping (stopping f ∖ {[slot]}) f)
          else if ok then
            if cancelled f then drain_check now f
            else match respawn with
                 | None => Return (Some spawn_error) f
                 | Some pid' => drain_check now (start_worker slot pid' f)
                 end
          else drain_check now f))
      else None
  | NoChildren =>
      if decide (waits f = []) then
        Some (Ret (if cancelled f then Return None f else drain_check now f))
      else None
  | ShutdownSeen =>
      if cancelled f then
        Some (Ret (drain_check now (match drain_deadline f with
                                    | None => signal_children (set_deadline (now + drain_timeout) f)
                                    | Some _ => f
                                    end)))
      else None
  | StopSignal => Some (Ret (drain_check now (cancel f)))
  | ScaleTick load spawned =>
      if scaling_enabled && negb (cancelled f) then
        Some (f' ← scale the_policy now (probed load) spawned f; Ret (drain_check now f'))
      else None
  end.

(** A run of the loop; [None] when an event could not happen. *)
Fixpoint turns (es : list (Z * Event)) (f : Fleet) : option (exec turn) :=
  match es with
  | [] => Some (Ret (Continue f))
  | (now, e) :: es' =>
      match turn_step now e f with
      | Some (Ret (Continue f')) => turns es' f'
      | Some (Ret (Return err f')) => match es' with [] => Some (Ret (Return err f')) | _ => None end
      | Some Panic => Some Panic
      | None => None
      end
  end.
End loop.

(** ** The table and the waits agree *)

Record fleet_ok (f : Fleet) : Prop := {
  fo_nodup : NoDup (waits f).*1;
  fo_live slot pid : (slot, pid) ∈ waits f ↔ pids f !! slot = Some (Some pid);
  fo_stopping slot : slot ∈ stopping f → ∃ pid, (slot, pid) ∈ waits f }.

(** The workers that are not being stopped. *)
Definition serving (f : Fleet) : list (nat * Z) := filter (λ w, w.1 ∉ stopping f) (waits f).

Lemma waits_fun f slot p q : fleet_ok f → (slot, p) ∈ waits f → (slot, q) ∈ waits f → p = q.
Proof. intros Hok Hp%(fo_live _ Hok) Hq%(fo_live _ Hok). congruence. Qed.

Lemma slot_live f slot : fleet_ok f → slot ∈ (waits f).*1 ↔ ∃ pid, pids f !! slot = Some (Some pid).
Proof.
  intros Hok. rewrite list_elem_of_fmap. split.
  - intros ([s p] & -> & Hp). exists p. by apply (fo_live _ Hok).
  - intros [p Hp]. exists (slot, p). split; [done|]. by apply (fo_live _ Hok).
Qed.

Lemma active_serving f : fleet_ok f → active f = Z.of_nat (length (serving f)).
Proof.
  intros Hok. unfold active. f_equal. rewrite <- (length_fmap fst (serving f)). apply Permutation_length.
  apply list.NoDup_Permutation.
  - apply NoDup_filter, NoDup_seq.
  - unfold serving. pose proof (fo_nodup _ Hok) as Hnd.
    induction (waits f) as [|w ws IH]; [constructor|]. csimpl in *. apply NoDup_cons in Hnd as [Hw Hnd].
    rewrite filter_cons. case_decide; csimpl; [|by apply IH]. constructor; [|by apply IH].
    rewrite list_elem_of_fmap in Hw |- *. intros (w' & Hw' & [_ Hin]%list_elem_of_filter). apply Hw. eauto.
  - intros s. unfold active_slots, serving. rewrite list_elem_of_filter, list_elem_of_fmap. split.
    + intros [[Hs [p Hp]] Hlen]. destruct (pids f !! s) as [[q|]|] eqn:Hps; simplify_eq/=.
      exists (s, p). split; [done|]. apply list_elem_of_filter. split; [done|]. by apply (fo_live _ Hok).
    + intros ([s' p] & -> & [Hs Hin]%list_elem_of_filter). simpl in *. apply (fo_live _ Hok) in Hin as Hp.
      rewrite Hp. split; [split; [done|by eexists]|]. apply elem_of_seq. apply lookup_lt_Some in Hp. lia.
Qed.

(** *** A worker starts *)

Lemma start_ok slot pid f :
  fleet_ok f → pids f !! slot = Some None → fleet_ok (start_worker slot pid f) ∧
  serving (start_worker slot pid f) = serving f ++ [(slot, pid)].
Proof.
  intros Hok Hslot. assert (slot ∉ (waits f).*1) as Hn.
  { rewrite (slot_live f slot Hok). intros [p Hp]. congruence. }
  assert (slot ∉ stopping f) as Hns.
  { intros (p & Hp)%(fo_stopping _ Hok). apply Hn. apply list_elem_of_fmap. by exists (slot, p). }
  split; [constructor; simpl|].
  - rewrite fmap_app. apply NoDup_app. split; [apply Hok|]. split; [|apply NoDup_singleton].
    by intros s Hs ->%list_elem_of_singleton.
  - intros s p. rewrite elem_of_app, list_elem_of_singleton, (fo_live _ Hok).
    destruct (decide (s = slot)) as [->|Hne].
    + rewrite list_lookup_insert_eq by (by eapply lookup_lt_Some). rewrite Hslot. naive_solver.
    + rewrite list_lookup_insert_ne by done. naive_solver.
  - intros s Hs. destruct (fo_stopping _ Hok s Hs) as [p Hp]. exists p. set_solver.
  - unfold serving. simpl. rewrite filter_app. f_equal. rewrite filter_cons, decide_True by done. done.
Qed.

Lemma next_free_ok f slot ps :
  fleet_ok f → next_free_slot (pids f) = (slot, ps) →
  fleet_ok (set_pids ps f) ∧ ps !! slot = Some None.
Proof.
  intros Hok. unfold next_free_slot, position_none. destruct (list_find _ (pids f)) as [[i q]|] eqn:Hf; simpl.
  - intros [= -> <-]. apply list_find_Some in Hf as (Hi & -> & _). split; [by destruct f|done].
  - intros [= <- <-]. assert (∀ s p, (pids f ++ [None]) !! s = Some (Some p) ↔ pids f !! s = Some (Some p)) as Hl.
    { intros s p. rewrite lookup_app_Some. split; [|by left].
      intros [?|[_ Hs]]; [done|]. by apply list_lookup_singleton_Some in Hs as [_ ?]. }
    split; [|by apply list_lookup_middle]. constructor; simpl; [apply Hok| |apply Hok].
    intros s p. by rewrite Hl, (fo_live _ Hok).
Qed.

Lemma scale_up_ok n spawned f :
  fleet_ok f → fleet_ok (scale_up n spawned f) ∧ stopping (scale_up n spawned f) = stopping f ∧
  (length (serving f) <= length (serving (scale_up n spawned f)) <= length (serving f) + n)%nat ∧
  ((n <= length spawned)%nat → Forall is_Some spawned → length (serving (scale_up n spawned f)) = (length (serving f) + n)%nat).
Proof.
  revert spawned f. induction n as [|n IH]; intros spawned f Hok; simpl; [split; [done|]; split; [done|]; split; lia|].
  destruct (next_free_slot (pids f)) as [slot ps] eqn:Hn.
  destruct (next_free_ok f slot ps Hok Hn) as [Hok1 Hslot].
  assert (serving (set_pids ps f) = serving f) as Hs1 by (by destruct f).
  destruct spawned as [|[pid|] spawned]; simpl.
  - split; [done|]. split; [by destruct f|]. rewrite Hs1. split; [lia|]. simpl. lia.
  - destruct (start_ok slot pid _ Hok1 Hslot) as [Hok2 Hs2].
    destruct (IH spawned _ Hok2) as (Hok3 & Hst & Hle & Heq). rewrite Hs2, length_app, Hs1 in Hle, Heq. simpl in Hle, Heq.
    split; [done|]. split; [by rewrite Hst; destruct f|]. split; [lia|].
    intros Hl Hall. apply Forall_cons in Hall as [_ Hall]. rewrite Heq by (done || lia). lia.
  - split; [done|]. split; [by destruct f|]. rewrite Hs1. split; [lia|].
    intros _ Hall. apply Forall_cons in Hall as [[? ?] _]. done.
Qed.

(** *** A worker stops *)

Lemma filter_add_stop (st : gset nat) slot (l : list (nat * Z)) :
  NoDup l.*1 → slot ∉ st →
  length (filter (λ w, w.1 ∉ st) l) =
  (length (filter (λ w, w.1 ∉ {[slot]} ∪ st) l) + if decide (slot ∈ l.*1) then 1 else 0)%nat.
Proof.
  intros Hnd Hst. induction l as [|[s p] l IH]; [done|]. csimpl in *. apply NoDup_cons in Hnd as [Hs Hnd].
  rewrite !filter_cons. specialize (IH Hnd). simpl. destruct (decide (slot ∈ s :: l.*1)) as [Hin|Hin].
  - destruct (decide (s = slot)) as [->|Hne].
    + rewrite (decide_True (P := slot ∉ st)) by done. rewrite (decide_False (P := slot ∉ _)) by set_solver.
      rewrite decide_False in IH by done. simpl. lia.
    + apply elem_of_cons in Hin as [->|Hin]; [done|]. rewrite decide_True in IH by done.
      destruct (decide (s ∉ st)); [rewrite decide_True by set_solver|rewrite decide_False by set_solver]; simpl; lia.
  - apply not_elem_of_cons in Hin as [Hne Hin]. rewrite decide_False in IH by done.
    destruct (decide (s ∉ st)); [rewrite decide_True by set_solver|rewrite decide_False by set_solver]; simpl; lia.
Qed.

Lemma stop_ok slot pid f :
  fleet_ok f → pids f !! slot = Some (Some pid) → slot ∉ stopping f →
  let f' := signal_one (Some pid) (set_stopping ({[slot]} ∪ stopping f) f) in
  fleet_ok f' ∧ length (serving f) = S (length (serving f')) ∧ pids f' = pids f.
Proof.
  intros Hok Hslot Hns f'. assert ((slot, pid) ∈ waits f) as Hin by (by apply (fo_live _ Hok)).
  split; [constructor; simpl|split; [|done]]; [apply Hok..| |].
  - intros s [->%elem_of_singleton|Hs]%elem_of_union; [by eexists|by apply (fo_stopping _ Hok)].
  - unfold serving. rewrite (filter_add_stop _ slot) by (done || apply Hok). simpl.
    rewrite decide_True; [lia|]. apply list_elem_of_fmap. by exists (slot, pid).
Qed.

Lemma filter_same {X} (P Q : X → Prop) `{!∀ x, Decision (P x)} `{!∀ x, Decision (Q x)} (l : list X) :
  (∀ x, x ∈ l → P x ↔ Q x) → filter P l = filter Q l.
Proof.
  induction l as [|x l IH]; intros HPQ; [done|]. rewrite !filter_cons, IH by set_solver.
  destruct (decide (P x)) as [HP|HP]; [rewrite decide_True|rewrite decide_False]; rewrite <- ?HPQ by set_solver; done.
Qed.

(** The scan stops as many of the serving workers as it may. *)
Lemma scale_down_ok n slots f :
  fleet_ok f → NoDup slots →
  let f' := scale_down n slots f in
  fleet_ok f' ∧ pids f' = pids f ∧
  length (serving f) = (length (serving f') + n `min` length (filter (λ s, s ∉ stopping f ∧ is_Some (pids f !! s ≫= id)) slots))%nat.
Proof.
  intros Hok Hnd. revert n f Hok. induction Hnd as [|slot slots Hslot _ IH]; intros n f Hok; simpl.
  { split; [by destruct n|]. split; [by destruct n|]. rewrite Nat.min_0_r. by destruct n; simpl; lia. }
  destruct n as [|n]; [split; [done|]; split; [done|]; simpl; lia|]. rewrite filter_cons.
  destruct (pids f !! slot ≫= id) as [pid|] eqn:Hp.
  2: { rewrite decide_False by (intros [_ [? ?]]; congruence). by apply (IH (S n)). }
  assert (pids f !! slot = Some (Some pid)) as Hpid by (destruct (pids f !! slot) as [[?|]|]; by simplify_eq/=).
  destruct (decide (slot ∈ stopping f)) as [Hst|Hst].
  { rewrite decide_False by tauto. by apply (IH (S n)). }
  rewrite decide_True by (split; [done|by eexists]).
  destruct (stop_ok slot pid f Hok Hpid Hst) as (Hok1 & Hlen & Hpids).
  destruct (IH n _ Hok1) as (Hok2 & Hp2 & Hl2). split; [done|]. split; [by rewrite Hp2|].
  rewrite Hlen, Hl2. simpl. rewrite Nat.add_succ_r. do 3 f_equal. f_equal.
  apply filter_same. intros s Hs. simpl. rewrite not_elem_of_union, not_elem_of_singleton.
  assert (s ≠ slot) by congruence. tauto.
Qed.

(** *** A worker exits *)

Definition exited (slot : nat) (pid : Z) (f : Fleet) : Fleet :=
  set_pids (<[slot := None]> (pids f)) (set_waits (filter (λ w, w ≠ (slot, pid)) (waits f)) f).

Lemma exit_split f slot pid :
  fleet_ok f → (slot, pid) ∈ waits f →
  ∃ l1 l2, waits f = l1 ++ (slot, pid) :: l2 ∧ waits (exited slot pid f) = l1 ++ l2 ∧ slot ∉ (l1 ++ l2).*1.
Proof.
  intros Hok Hin. pose proof (fo_nodup _ Hok) as Hnd.
  apply list_elem_of_split in Hin as (l1 & l2 & Hw). exists l1, l2. split; [done|]. rewrite Hw in Hnd.
  rewrite fmap_app, fmap_cons in Hnd. apply NoDup_app in Hnd as (_ & H1 & [H2 _]%NoDup_cons). simpl in H1, H2.
  assert (slot ∉ (l1 ++ l2).*1) as Hn.
  { rewrite fmap_app, not_elem_of_app. split; [|done]. intros Hs. apply (H1 _ Hs). set_solver. }
  split; [|done]. unfold exited. simpl. rewrite Hw, filter_app, filter_cons, decide_False by tauto.
  rewrite fmap_app, not_elem_of_app in Hn. destruct Hn as [Hn1 Hn2].
  rewrite !filter_all; [done| |]; intros x Hx ->; [apply Hn2|apply Hn1]; apply list_elem_of_fmap; by exists (slot, pid).
Qed.

(** The table after an exit, and the slot that is no longer being stopped. *)
Lemma exit_table f slot pid :
  fleet_ok f → (slot, pid) ∈ waits f →
  let f' := set_stopping (stopping f ∖ {[slot]}) (exited slot pid f) in
  fleet_ok f' ∧ (length (serving f) = length (serving f') + if decide (slot ∈ stopping f) then 0 else 1)%nat.
Proof.
  intros Hok Hin f'. destruct (exit_split f slot pid Hok Hin) as (l1 & l2 & Hw & Hw' & Hn).
  assert (pids f !! slot = Some (Some pid)) as Hp by (by apply (fo_live _ Hok)).
  assert (∀ s p, (s, p) ∈ l1 ++ l2 ↔ (s, p) ∈ waits f ∧ s ≠ slot) as Hwaits.
  { intros s p. rewrite Hw. split.
    - intros Hx. split; [set_solver|]. intros ->. apply Hn, list_elem_of_fmap. by exists (slot, p).
    - intros [Hx Hne]. set_solver. }
  assert (waits f' = l1 ++ l2) as Hf' by (rewrite <- Hw'; by destruct f).
  split; [constructor|].
  - rewrite Hf'. pose proof (fo_nodup _ Hok) as Hnd. rewrite Hw, fmap_app, fmap_cons in Hnd. rewrite fmap_app.
    apply NoDup_app in Hnd as (Ha & Hb & [_ Hc]%NoDup_cons). apply NoDup_app. split; [done|]. split; [|done].
    intros s Hs Hs2. apply (Hb s Hs). by right.
  - intros s p. rewrite Hf', Hwaits, (fo_live _ Hok). simpl. destruct (decide (s = slot)) as [->|Hne].
    + rewrite list_lookup_insert_eq by (by eapply lookup_lt_Some). naive_solver.
    + rewrite list_lookup_insert_ne by done. naive_solver.
  - intros s [Hs Hne]%elem_of_difference. destruct (fo_stopping _ Hok s Hs) as [p Hpw]. exists p.
    rewrite Hf', Hwaits. set_solver.
  - unfold serving. rewrite Hf'. change (stopping f') with (stopping f ∖ {[slot]}).
    rewrite (filter_same (λ w : nat * Z, w.1 ∉ stopping f ∖ {[slot]}) (λ w, w.1 ∉ stopping f)).
    + rewrite Hw, !filter_app, filter_cons. destruct (decide (slot ∈ stopping f)).
      * rewrite decide_False by tauto. lia.
      * rewrite decide_True by done. rewrite !length_app. simpl. lia.
    + intros [s p] [_ Hne]%Hwaits. simpl. set_solver.
Qed.

Lemma exit_ok f slot pid :
  fleet_ok f → (slot, pid) ∈ waits f → slot ∉ stopping f →
  fleet_ok (exited slot pid f) ∧ length (serving f) = S (length (serving (exited slot pid f))) ∧
  pids (exited slot pid f) !! slot = Some None.
Proof.
  intros Hok Hin Hns. destruct (exit_table f slot pid Hok Hin) as [Hok' Hl].
  rewrite decide_False in Hl by done. assert (stopping f ∖ {[slot]} = stopping f) as Hsame by set_solver.
  rewrite Hsame in Hl, Hok'.
  assert (set_stopping (stopping f) (exited slot pid f) = exited slot pid f) as Heq by (by destruct f).
  rewrite Heq in Hl, Hok'. split; [done|]. split; [lia|]. simpl. apply list_lookup_insert_eq.
  by eapply lookup_lt_Some, (fo_live _ Hok).
Qed.

(** ** Turns *)

(** What a turn leaves alone. *)
Definition same_phase (f f' : Fleet) : Prop :=
  cancelled f' = cancelled f ∧ drain_deadline f' = drain_deadline f.

Lemma scale_up_phase n spawned f : same_phase f (scale_up n spawned f).
Proof.
  revert spawned f. induction n as [|n IH]; intros spawned f; simpl; [done|].
  destruct (next_free_slot (pids f)) as [slot ps]. destruct (next_spawn spawned) as [[pid|] spawned']; [|by destruct f].
  destruct (IH spawned' (start_worker slot pid (set_pids ps f))) as [H1 H2]. split; [by rewrite H1|by rewrite H2].
Qed.

Lemma scale_down_phase n slots f : same_phase f (scale_down n slots f).
Proof.
  revert n f. induction slots as [|slot slots IH]; intros n f; [by destruct n|]. destruct n as [|n]; [done|]. simpl.
  destruct (pids f !! slot ≫= id) as [pid|]; [|apply (IH (S n))]. destruct (decide _); [apply (IH (S n))|].
  destruct (IH n (signal_one (Some pid) (set_stopping ({[slot]} ∪ stopping f) f))) as [H1 H2].
  split; [by rewrite H1|by rewrite H2].
Qed.

Definition policy_ok (p : ScalingPolicy) : Prop := min_workers p <= max_workers p ∧ 0 <= step p.

Definition enough (p : ScalingPolicy) (spawned : list (option Z)) : Prop :=
  step p <= Z.of_nat (length spawned) ∧ Forall is_Some spawned.

Lemma set_last_scale_ok t f : fleet_ok f → fleet_ok (set_last_scale t f).
Proof. by intros [? ? ?]; constructor. Qed.

(** The decision lies within the bounds of the policy. *)
Lemma decide_scale_bounds a load p d :
  decide_scale a load p = Ret d → min_workers p <= d <= max_workers p.
Proof. unfold decide_scale, clamp. destruct (Z.leb_spec (min_workers p) (max_workers p)); [|done]. intros [= <-]. lia. Qed.

Lemma scale_ok p now load spawned f f' :
  policy_ok p → fleet_ok f → scale p now load spawned f = Ret f' →
  fleet_ok f' ∧ same_phase f f' ∧ active f' <= Z.max (active f) (max_workers p) ∧
  (enough p spawned → Z.min (active f) (min_workers p) <= active f').
Proof.
  intros [Hmn Hstep] Hok. unfold scale. intros (d & Hd & Hs)%bind_Ret_inv. apply decide_scale_bounds in Hd.
  destruct (_ && _); [|injection Hs as <-; split; [done|]; split; [done|]; lia].
  injection Hs as <-. set (g := set_last_scale now f).
  assert (fleet_ok g) as Hg by (by apply set_last_scale_ok).
  assert (active f = Z.of_nat (length (serving g))) as Ha by (by rewrite <- active_serving).
  destruct (Z.ltb_spec (active f) d) as [Hlt|Hle].
  - destruct (scale_up_ok (Z.to_nat (Z.min (d - active f) (step p))) spawned g Hg) as (Hok' & _ & Hb & Heq).
    split; [done|]. split; [apply (scale_up_phase _ _ g)|]. pose proof (active_serving _ Hok') as Ha'.
    split; [lia|]. intros [Hen Hall]. specialize (Heq ltac:(lia) Hall). lia.
  - destruct (scale_down_ok (Z.to_nat (Z.min (active f - d) (step p))) (reverse (seq 0 (length (pids g)))) g Hg)
      as (Hok' & _ & Heq).
    { rewrite reverse_Permutation. apply NoDup_seq. }
    split; [done|]. split; [apply (scale_down_phase _ _ g)|].
    pose proof (active_serving _ Hok') as Ha'. change (pids g) with (pids f) in *. lia.
Qed.

Lemma drain_check_continue now f f' : drain_check now f = Continue f' → f' = f.
Proof.
  unfold drain_check. destruct (drain_deadline f); [|by intros [= ->]].
  destruct (forallb _ _); [done|]. destruct (_ <=? _); [done|by intros [= ->]].
Qed.

Section turns.
Context (policy : option ScalingPolicy) (drain_timeout : Z).
Abbreviation turn_step := (turn_step policy drain_timeout).
Abbreviation turns := (turns policy drain_timeout).
Abbreviation pol := (the_policy policy).

(** No wait fails, and the system gives the processes asked for. *)
Definition healthy (e : Event) : Prop :=
  match e with
  | WorkerExited _ _ ok _ => ok = true
  | ScaleTick _ spawned => enough pol spawned
  | _ => True
  end.

(** What one more turn of the loop does to the number of serving workers. *)
Definition near (f f' : Fleet) : Prop :=
  active f' <= Z.max (active f) (max_workers pol) ∧ (scaling_enabled policy = false → active f' <= active f).

Definition not_below (f f' : Fleet) : Prop :=
  Z.min (active f) (min_workers pol) <= active f' ∧ (scaling_enabled policy = false → active f <= active f').

Lemma respawn_ok slot pid pid' f :
  fleet_ok f → (slot, pid) ∈ waits f → slot ∉ stopping f →
  fleet_ok (start_worker slot pid' (exited slot pid f)) ∧
  active (start_worker slot pid' (exited slot pid f)) = active f.
Proof.
  intros Hok Hin Hst. destruct (exit_ok f slot pid Hok Hin Hst) as (Hok1 & Hl & Hs).
  destruct (start_ok slot pid' _ Hok1 Hs) as [Hok2 Hs2]. split; [done|].
  rewrite !active_serving by done. rewrite Hs2, length_app. simpl. lia.
Qed.

Lemma near_same f f' : active f' = active f → near f f' ∧ not_below f f'.
Proof. unfold near, not_below. lia. Qed.

Lemma turn_continue now e f f' :
  (scaling_enabled policy = true → policy_ok pol) →
  fleet_ok f → turn_step now e f = Some (Ret (Continue f')) →
  fleet_ok f' ∧ (cancelled f = true → cancelled f' = true) ∧
  (cancelled f' = false → near f f' ∧ (healthy e → not_below f f')).
Proof.
  intros Hpol Hok. destruct e as [slot pid ok respawn| | | |load spawned]; simpl.
  - destruct (decide _) as [Hin|]; [|done]. intros [= Ht]. change (set_pids _ _) with (exited slot pid f) in Ht.
    destruct (decide (slot ∈ stopping f)) as [Hst|Hst].
    { injection Ht as <-. destruct (exit_table f slot pid Hok Hin) as [Hok' Hl]. rewrite decide_True in Hl by done.
      split; [done|]. split; [done|]. intros _.
      destruct (near_same f (set_stopping (stopping f ∖ {[slot]}) (exited slot pid f))); [|auto].
      rewrite !active_serving by done. lia. }
    destruct (exit_ok f slot pid Hok Hin Hst) as (Hok1 & Hl & _).
    assert (near f (exited slot pid f)) as Hnear.
    { unfold near. rewrite !active_serving by done. split; [|intros _]; lia. }
    destruct ok.
    + change (cancelled (exited slot pid f)) with (cancelled f) in Ht. destruct (cancelled f) eqn:Hc.
      * apply drain_check_continue in Ht as ->. split; [done|]. split; [done|]. simpl. by rewrite Hc.
      * destruct respawn as [pid'|]; [|done]. apply drain_check_continue in Ht as ->.
        destruct (respawn_ok slot pid pid' f Hok Hin Hst) as [Hok2 Ha].
        split; [done|]. split; [done|]. intros _. destruct (near_same _ _ Ha). auto.
    + apply drain_check_continue in Ht as ->. split; [done|]. split; [done|]. intros _. split; [done|]. simpl. discriminate.
  - destruct (decide _); [|done]. destruct (cancelled f); [done|]. intros [= ->%drain_check_continue].
    split; [done|]. split; [done|]. intros _. destruct (near_same f f); auto.
  - destruct (cancelled f) eqn:Hc; [|done]. intros [= Ht]. apply drain_check_continue in Ht as ->.
    destruct (drain_deadline f); (split; [by destruct Hok; constructor|]; split; [done|]; simpl; by rewrite Hc).
  - intros [= ->%drain_check_continue]. split; [by destruct Hok; constructor|]. by split.
  - destruct (scaling_enabled policy) eqn:Hen; [|done]. destruct (cancelled f) eqn:Hc; [done|]. simpl.
    destruct (scale _ _ _ _ _) as [f1|] eqn:Hs; [|done]. simpl. intros [= ->%drain_check_continue].
    destruct (scale_ok _ _ _ _ _ _ (Hpol eq_refl) Hok Hs) as (Hok' & _ & Hu & Hl).
    split; [done|]. split; [done|]. intros _. unfold near, not_below, healthy. rewrite Hen. by repeat split; auto.
Qed.

Lemma turns_size es f f' :
  (scaling_enabled policy = true → policy_ok pol) → fleet_ok f → turns es f = Some (Ret (Continue f')) →
  fleet_ok f' ∧ (cancelled f = true → cancelled f' = true) ∧
  (cancelled f' = false → near f f' ∧ (Forall (λ e, healthy e.2) es → not_below f f')).
Proof.
  intros Hpol. revert f. induction es as [|[now e] es IH]; intros f Hok; simpl.
  { intros [= <-]. split; [done|]. split; [done|]. intros _. destruct (near_same f f); auto. }
  destruct (turn_step now e f) as [[[f1|err f1]|]|] eqn:Ht; try done; [|by destruct es].
  destruct (turn_continue now e f f1 Hpol Hok Ht) as (Hok1 & Hc1 & Hn1). intros Hes.
  destruct (IH f1 Hok1 Hes) as (Hok' & Hc' & Hn'). split; [done|]. split; [auto|]. intros Hc.
  destruct (Hn' Hc) as [Hnear' Hb']. destruct (cancelled f1) eqn:Hcf1; [by rewrite Hc' in Hc|].
  destruct (Hn1 eq_refl) as [Hnear1 Hb1]. unfold near, not_below in *. split.
  - destruct Hnear1 as [? H1], Hnear' as [? H2]. split; [lia|]. intros Hs. specialize (H1 Hs). specialize (H2 Hs). lia.
  - intros [He Hall]%Forall_cons. simpl in He. destruct (Hb' Hall) as [? H1], (Hb1 He) as [? H2].
    split; [lia|]. intros Hs. specialize (H1 Hs). specialize (H2 Hs). lia.
Qed.

(** The start of the fleet. *)
Lemma spawn_all_ok count slot spawned f f' :
  fleet_ok f → length (pids f) = slot → stopping f = ∅ → spawn_all count slot spawned f = Continue f' →
  fleet_ok f' ∧ stopping f' = ∅ ∧ length (waits f') = (length (waits f) + count)%nat ∧
  cancelled f' = cancelled f ∧ drain_deadline f' = drain_deadline f.
Proof.
  revert slot spawned f. induction count as [|count IH]; intros slot spawned f Hok Hl Hst; simpl.
  { intros [= <-]. by rewrite Nat.add_0_r. }
  destruct (next_spawn spawned) as [[pid|] spawned']; [|done]. intros Hs. eapply IH in Hs as (Hok' & Hst' & Hw & Hc & Hd).
  - split; [done|]. split; [done|]. simpl in Hw. rewrite length_app in Hw. simpl in Hw. split; [lia|]. by split.
  - destruct Hok as [Hnd Hlv Hs0]. assert (slot ∉ (waits f).*1) as Hn.
    { intros ([s p] & -> & Hp%Hlv%lookup_lt_Some)%list_elem_of_fmap. simpl in *. lia. }
    constructor; simpl.
    + rewrite fmap_app. apply NoDup_app. split; [done|]. split; [|apply NoDup_singleton].
      by intros s Hsl ->%list_elem_of_singleton.
    + intros s p. rewrite elem_of_app, list_elem_of_singleton, Hlv, lookup_app_Some, list_lookup_singleton_Some.
      split; [intros [?|[= -> ->]]; [by left|right]|intros [?|(Hle & Hse & Hpe)]; [by left|right]].
      * split; [lia|]. split; [lia|done].
      * injection Hpe as ->. f_equal. lia.
    + rewrite Hst. set_solver.
  - simpl. rewrite length_app. simpl. lia.
  - done.
Qed.

Lemma fleet_ok_empty t : fleet_ok (mk_fleet [] [] ∅ false None t []).
Proof.
  constructor; simpl; [constructor| |set_solver].
  intros slot pid. by split; [intros ?%elem_of_nil|].
Qed.

Lemma start_fleet_ok count t0 spawned f0 :
  supervise_start count policy t0 spawned = Continue f0 →
  fleet_ok f0 ∧ stopping f0 = ∅ ∧ active f0 = Z.of_nat count ∧ cancelled f0 = false ∧ drain_deadline f0 = None.
Proof.
  unfold supervise_start. destruct (Nat.eqb count 0); [done|]. intros Hs.
  eapply spawn_all_ok in Hs as (Hok & Hst & Hw & Hc & Hd); [|apply fleet_ok_empty|done..].
  split; [done|]. split; [done|]. split; [|by split]. rewrite active_serving by done. simpl in Hw. rewrite <- Hw.
  unfold serving. rewrite filter_all; [done|]. rewrite Hst. set_solver.
Qed.

(** The size of the fleet.  From the start to the shutdown, whatever
    workers die and whatever the load: each slot of the table that is taken is a
    process that is waited for; there are never more workers in service than
    were started with or the policy allows; and as long as every wait and
    every start of a process succeeds never fewer than were started with or the
    policy asks for, so that without scaling the number stays what it was. *)
Theorem fleet_size count t0 spawned f0 es f :
  (scaling_enabled policy = true → policy_ok pol) →
  supervise_start count policy t0 spawned = Continue f0 → turns es f0 = Some (Ret (Continue f)) → cancelled f = false →
  (∀ slot pid, (slot, pid) ∈ waits f ↔ pids f !! slot = Some (Some pid)) ∧
  active f <= Z.max (Z.of_nat count) (max_workers pol) ∧
  (Forall (λ e, healthy e.2) es → Z.min (Z.of_nat count) (min_workers pol) <= active f) ∧
  (scaling_enabled policy = false → Forall (λ e, healthy e.2) es → active f = Z.of_nat count).
Proof.
  intros Hpol Hs Hes Hc. destruct (start_fleet_ok _ _ _ _ Hs) as (Hok0 & _ & Ha & _).
  destruct (turns_size es f0 f Hpol Hok0 Hes) as (Hok & _ & Hn). destruct (Hn Hc) as [[Hu Hu2] Hl].
  unfold not_below in Hl. rewrite Ha in *. split; [apply Hok|]. split; [done|]. split; [by intros H; apply Hl|].
  intros Hsc Hall. specialize (Hu2 Hsc). destruct (Hl Hall) as [_ Hl2]. specialize (Hl2 Hsc). lia.
Qed.
End turns.

(** ** A fleet of a fixed size shrinks *)

Lemma scale_down_last n slots f : last_scale (scale_down n slots f) = last_scale f.
Proof.
  revert n f. induction slots as [|slot slots IH]; intros n f; [by destruct n|]. destruct n as [|n]; [done|]. simpl.
  destruct (pids f !! slot ≫= id) as [pid|]; [|apply (IH (S n))].
  destruct (decide _); [apply (IH (S n))|]. by rewrite IH.
Qed.

Lemma idle_scale now f :
  fleet_ok f → 1 < active f → 15 <= now - last_scale f →
  ∃ f', scale policy_default now f64_zero [] f = Ret f' ∧ fleet_ok f' ∧ same_phase f f' ∧
    active f' = active f - 1 ∧ last_scale f' = now.
Proof.
  intros Hok Ha Hnow. unfold scale, decide_scale.
  replace (f32_ge f64_zero (high policy_default)) with false by reflexivity.
  replace (f32_le f64_zero (low policy_default)) with true by reflexivity.
  unfold clamp, ssub. change (min_workers policy_default <=? max_workers policy_default) with true.
  change (min_workers policy_default) with 1. change (max_workers policy_default) with 4.
  change (step policy_default) with 1. change (cooldown policy_default) with 15.
  set (d := Z.max 1 (Z.min 4 (Z.max 0 (active f - 1)))). assert (1 <= d < active f) as Hd by lia.
  cbn [mbind exec_bind].
  rewrite (proj2 (Z.eqb_neq d (active f))) by lia. rewrite (proj2 (Z.leb_le 15 (now - last_scale f))) by lia. simpl.
  rewrite (proj2 (Z.ltb_ge (active f) d)) by lia. replace (Z.to_nat (Z.min (active f - d) 1)) with 1%nat by lia.
  set (g := set_last_scale now f). assert (fleet_ok g) as Hg by (by apply set_last_scale_ok).
  destruct (scale_down_ok 1 (reverse (seq 0 (length (pids g)))) g Hg) as (Hok' & _ & Heq).
  { rewrite reverse_Permutation. apply NoDup_seq. }
  eexists. split; [reflexivity|]. split; [done|]. split; [apply (scale_down_phase _ _ g)|].
  assert (length (filter (λ s, s ∉ stopping g ∧ is_Some (pids g !! s ≫= id)) (reverse (seq 0 (length (pids g)))))
          = length (serving g)) as Hlen.
  { rewrite reverse_Permutation. apply Nat2Z.inj. by rewrite <- active_serving. }
  split; [|by rewrite scale_down_last]. rewrite active_serving by done. rewrite (active_serving f) in * by done.
  change (serving f) with (serving g) in *. change (pids f) with (pids g). rewrite Hlen in Heq. lia.
Qed.

Lemma spawn_all_last count slot spawned f f' :
  spawn_all count slot spawned f = Continue f' → last_scale f' = last_scale f.
Proof.
  revert slot spawned f. induction count as [|count IH]; intros slot spawned f; simpl; [by intros [= ->]|].
  destruct (next_spawn spawned) as [[pid|] spawned']; [|done]. intros Hs. by rewrite (IH _ _ _ Hs).
Qed.

(** The ticks that come a cool-down apart, from the time [t]. *)
Fixpoint idle_ticks (n : nat) (t : Z) : list (Z * Event) :=
  match n with O => [] | S n' => (t, ScaleTick f64_zero []) :: idle_ticks n' (t + 15) end.

Lemma idle_ticks_shrink n drain_timeout t f :
  fleet_ok f → cancelled f = false → drain_deadline f = None → 15 <= t - last_scale f →
  active f = Z.of_nat (S n) →
  ∃ f', turns None drain_timeout (idle_ticks n t) f = Some (Ret (Continue f')) ∧ fleet_ok f' ∧ active f' = 1.
Proof.
  revert t f. induction n as [|n IH]; intros t f Hok Hc Hd Ht Ha; [by eexists|].
  destruct (idle_scale t f Hok) as (f1 & Hs & Hok1 & [Hc1 Hd1] & Ha1 & Hl1); [lia|lia|].
  destruct (IH (t + 15) f1) as (f2 & Ht2 & Hok2 & Ha2); [done|congruence|congruence|lia|lia|].
  exists f2. split; [|done]. cbn [idle_ticks turns turn_step the_policy probed default].
  replace (scaling_enabled None) with true by reflexivity. rewrite Hc. cbn [andb negb].
  rewrite Hs. unfold drain_check. cbn [mbind exec_bind]. by rewrite Hd1, Hd.
Qed.

(** Without a policy a fleet shrinks to one worker.  [supervise] without a
    policy, as [--workers n] without [--scale] calls it, takes the default
    policy, which scales between 1 and 4, and a load of zero: of any number of
    workers all but one are told to stop, one at each tick a cool-down after the
    other, whatever the load of the machine. *)
Theorem fleet_without_policy_shrinks count drain_timeout t0 spawned f0 :
  0 <= t0 → supervise_start count None t0 spawned = Continue f0 →
  active f0 = Z.of_nat count ∧
  ∃ f, turns None drain_timeout (idle_ticks (count - 1) (t0 + 15)) f0 = Some (Ret (Continue f)) ∧ active f = 1.
Proof.
  intros Ht0 Hs. destruct (start_fleet_ok None _ _ _ _ Hs) as (Hok & _ & Ha & Hc & Hd). split; [done|].
  assert (0 < count)%nat as Hpos by (unfold supervise_start in Hs; destruct count; [done|lia]).
  destruct (idle_ticks_shrink (count - 1) drain_timeout (t0 + 15) f0) as (f & Ht & _ & Hf); try done.
  - unfold supervise_start in Hs. destruct (Nat.eqb count 0); [done|]. rewrite (spawn_all_last _ _ _ _ _ Hs).
    cbn [last_scale default from_option]. change (cooldown policy_default) with 15. destruct (15 <=? t0); lia.
  - lia.
  - by exists f.
Qed.

(** ** Shutdown *)

(** The workers that are being stopped were told so. *)
Definition told (f : Fleet) : Prop :=
  ∀ slot pid, (slot, pid) ∈ waits f → slot ∈ stopping f → (SIGTERM, pid) ∈ signals f.

Lemma told_start slot pid f :
  fleet_ok f → pids f !! slot = Some None → told f → told (start_worker slot pid f).
Proof.
  intros Hok Hslot Ht s p. simpl. intros [Hin|[= -> ->]%list_elem_of_singleton]%elem_of_app; [by apply Ht|].
  intros (q & Hq%(fo_live _ Hok))%(fo_stopping _ Hok). congruence.
Qed.

Lemma told_scale_up n spawned f : fleet_ok f → told f → told (scale_up n spawned f).
Proof.
  revert spawned f. induction n as [|n IH]; intros spawned f Hok Ht; simpl; [done|].
  destruct (next_free_slot (pids f)) as [slot ps] eqn:Hn. destruct (next_free_ok f slot ps Hok Hn) as [Hok1 Hslot].
  destruct (next_spawn spawned) as [[pid|] spawned']; [|by destruct f].
  assert (told (set_pids ps f)) as Ht1 by (by destruct f).
  apply IH; [by apply start_ok|by apply told_start].
Qed.

Lemma told_scale_down n slots f : fleet_ok f → told f → told (scale_down n slots f).
Proof.
  revert n f. induction slots as [|slot slots IH]; intros n f Hok Ht; [by destruct n|]. destruct n as [|n]; [done|]. simpl.
  destruct (pids f !! slot ≫= id) as [pid|] eqn:Hp; [|by apply (IH (S n))].
  assert (pids f !! slot = Some (Some pid)) as Hpid by (destruct (pids f !! slot) as [[?|]|]; by simplify_eq/=).
  destruct (decide (slot ∈ stopping f)) as [Hst|Hst]; [by apply (IH (S n))|].
  apply IH; [by apply (stop_ok slot pid)|]. intros s p. simpl.
  intros Hin [->%elem_of_singleton|Hs]%elem_of_union; apply elem_of_app; [right|left; by apply (Ht s)].
  rewrite (waits_fun f slot p pid Hok Hin (proj2 (fo_live _ Hok slot pid) Hpid)). set_solver.
Qed.

Lemma told_exited slot pid st f :
  told f → st ⊆ stopping f → told (set_stopping st (exited slot pid f)).
Proof.
  intros Ht Hst s p [_ Hin]%list_elem_of_filter Hs. apply (Ht s p Hin). by apply Hst.
Qed.

(** The state a turn leaves. *)
Definition left (t : turn) : Fleet := match t with Continue f => f | Return _ f => f end.

(** A normal end of the loop: whoever still runs was told to stop. *)
Definition clean (t : turn) : Prop :=
  match t with
  | Return None f => ∀ slot pid, (slot, pid) ∈ waits f → slot ∈ stopping f ∧ (SIGTERM, pid) ∈ signals f
  | _ => True
  end.

Lemma drain_check_clean now f : fleet_ok f → told f → clean (drain_check now f).
Proof.
  intros Hok Ht. unfold drain_check. destruct (drain_deadline f) as [d|]; [|done].
  destruct (forallb _ _) eqn:Hall.
  - intros slot pid Hin. assert (slot ∈ stopping f) as Hs; [|split; [done|by apply (Ht slot)]].
    rewrite forallb_forall in Hall. specialize (Hall (slot, Some pid)). simpl in Hall.
    eapply bool_decide_eq_true_1, Hall.
    apply list_elem_of_In, list_elem_of_lookup. exists slot. rewrite list_lookup_imap.
    apply (fo_live _ Hok) in Hin. by rewrite Hin.
  - destruct (d <=? now); [|done]. by intros slot pid ?%elem_of_nil.
Qed.

Section shutdown.
Context (policy : option ScalingPolicy) (drain_timeout : Z).
Abbreviation turn_step := (turn_step policy drain_timeout).
Abbreviation turns := (turns policy drain_timeout).
Abbreviation pol := (the_policy policy).

Lemma turn_told now e f t :
  (scaling_enabled policy = true → policy_ok pol) → fleet_ok f → told f →
  turn_step now e f = Some (Ret t) → clean t ∧ ∀ f', t = Continue f' → told f'.
Proof.
  intros Hpol Hok Htold Hstep.
  assert (∀ g, fleet_ok g → told g → t = drain_check now g → clean t ∧ ∀ f', t = Continue f' → told f') as Hcheck.
  { intros g Hg Htg ->. split; [by apply drain_check_clean|]. by intros f' ->%drain_check_continue. }
  destruct e as [slot pid ok respawn| | | |load spawned]; simpl in Hstep.
  - destruct (decide _) as [Hin|]; [|done]. injection Hstep as Ht. change (set_pids _ _) with (exited slot pid f) in Ht.
    destruct (decide (slot ∈ stopping f)) as [Hst|Hst].
    { subst t. split; [done|]. intros f' [= <-]. apply told_exited; [done|set_solver]. }
    destruct (exit_ok f slot pid Hok Hin Hst) as (Hok1 & _ & Hslot).
    assert (told (exited slot pid f)) as Ht1.
    { replace (exited slot pid f) with (set_stopping (stopping f) (exited slot pid f)) by (by destruct f).
      by apply told_exited. }
    destruct ok; [|by apply (Hcheck (exited slot pid f))].
    destruct (cancelled f); [by apply (Hcheck (exited slot pid f))|].
    destruct respawn as [pid'|]; [|by subst t].
    apply (Hcheck (start_worker slot pid' (exited slot pid f))); [by apply start_ok|by apply told_start|done].
  - destruct (decide (waits f = [])) as [Hw|]; [|done]. injection Hstep as Ht. destruct (cancelled f); [|by apply (Hcheck f)].
    subst t. split; [|done]. simpl. rewrite Hw. by intros slot pid ?%elem_of_nil.
  - destruct (cancelled f); [|done]. injection Hstep as Ht. symmetry in Ht. eapply Hcheck; [| |done].
    + destruct (drain_deadline f); [done|]. by destruct Hok; constructor.
    + destruct (drain_deadline f); [done|]. intros s p Hin Hs. simpl. apply elem_of_app. left. by apply (Htold s).
  - injection Hstep as Ht. eapply (Hcheck (cancel f)); [|done..]. by destruct Hok; constructor.
  - destruct (scaling_enabled policy) eqn:Hen; [|done]. destruct (cancelled f); [done|]. simpl in Hstep.
    destruct (scale _ _ _ _ _) as [g|] eqn:Hs; [|done]. injection Hstep as Ht. eapply (Hcheck g); [|..|done].
    + by apply (scale_ok _ _ _ _ _ _ (Hpol eq_refl) Hok Hs).
    + unfold scale in Hs. apply bind_Ret_inv in Hs as (d & _ & Hs). destruct (_ && _); [|by injection Hs as <-].
      injection Hs as <-. assert (fleet_ok (set_last_scale now f)) by (by apply set_last_scale_ok).
      destruct (_ <? _); [by apply told_scale_up|by apply told_scale_down].
Qed.

Lemma turns_told es f t :
  (scaling_enabled policy = true → policy_ok pol) → fleet_ok f → told f → turns es f = Some (Ret t) →
  clean t ∧ ∀ f', t = Continue f' → told f'.
Proof.
  intros Hpol. revert f. induction es as [|[now e] es IH]; intros f Hok Htold; simpl.
  { intros [= <-]. split; [done|]. by intros f' [= <-]. }
  destruct (turn_step now e f) as [[[f1|err f1]|]|] eqn:Hs; try done.
  - apply IH; [by apply (turn_continue policy drain_timeout now e f f1 Hpol Hok Hs)|].
    by apply (turn_told now e f _ Hpol Hok Htold Hs).
  - destruct es; [|done]. intros [= <-]. by apply (turn_told now e f _ Hpol Hok Htold Hs).
Qed.

(** Once cancelled, no process is started. *)
Lemma cancelled_starts_none now e f t :
  cancelled f = true → turn_step now e f = Some (Ret t) → ∀ w, w ∈ waits (left t) → w ∈ waits f.
Proof.
  intros Hc Hstep. assert (∀ g, (∀ w, w ∈ waits g → w ∈ waits f) → t = drain_check now g →
    ∀ w, w ∈ waits (left t) → w ∈ waits f) as Hcheck.
  { intros g Hg -> w. unfold drain_check. destruct (drain_deadline g); [|apply Hg].
    destruct (forallb _ _); [apply Hg|]. destruct (_ <=? _); [by intros ?%elem_of_nil|apply Hg]. }
  destruct e as [slot pid ok respawn| | | |load spawned]; simpl in Hstep; rewrite ?Hc in Hstep.
  - destruct (decide _) as [Hin|]; [|done]. injection Hstep as Ht.
    assert (∀ w, w ∈ filter (λ w, w ≠ (slot, pid)) (waits f) → w ∈ waits f) as Hsub by (intros w; by intros [_ ?]%list_elem_of_filter).
    destruct (decide (slot ∈ stopping f)); [by subst t|].
    destruct ok; by apply (Hcheck (exited slot pid f)).
  - destruct (decide _); [|done]. injection Hstep as Ht. by subst t.
  - injection Hstep as Ht. symmetry in Ht. eapply Hcheck; [|exact Ht]. by destruct (drain_deadline f).
  - injection Hstep as Ht. by apply (Hcheck (cancel f)).
  - by rewrite andb_false_r in Hstep.
Qed.

(** Shutdown.  Once the token is cancelled no process is started any more;
    the first look at the token tells every worker to stop, and a look when the
    time to drain is over ends the supervisor; and when it ends without an
    error, whichever way it got there, every process it started has exited or
    was killed, except those a scale-down had told to stop, which it leaves
    behind. *)
Theorem supervise_shutdown count t0 spawned f0 es t :
  (scaling_enabled policy = true → policy_ok pol) →
  supervise_start count policy t0 spawned = Continue f0 → turns es f0 = Some (Ret t) →
  clean t ∧
  ∀ f, t = Continue f → cancelled f = true →
    (∀ now e t', turn_step now e f = Some (Ret t') → ∀ w, w ∈ waits (left t') → w ∈ waits f) ∧
    ∀ now, ∃ t1, turn_step now ShutdownSeen f = Some (Ret t1) ∧
      (drain_deadline f = None → ∀ slot pid, (slot, pid) ∈ waits f → (SIGTERM, pid) ∈ signals (left t1)) ∧
      match t1 with
      | Return err _ => err = None
      | Continue f1 => ∀ later, default (now + drain_timeout) (drain_deadline f) <= later →
          ∃ f2, turn_step later ShutdownSeen f1 = Some (Ret (Return None f2))
      end.
Proof.
  intros Hpol Hs Hes. destruct (start_fleet_ok policy _ _ _ _ Hs) as (Hok0 & Hst0 & _).
  assert (told f0) as Ht0 by (intros slot pid _; rewrite Hst0; set_solver).
  split; [by apply (turns_told _ _ _ Hpol Hok0 Ht0 Hes)|]. intros f -> Hc.
  destruct (turns_size policy drain_timeout es f0 f Hpol Hok0 Hes) as (Hok & _ & _).
  split; [intros now e t' Ht'; by apply (cancelled_starts_none now e)|]. intros now.
  eexists. split; [simpl; rewrite Hc; done|]. unfold drain_check.
  destruct (drain_deadline f) as [d|] eqn:Hd; cbn [drain_deadline set_deadline signal_children send default from_option].
  - rewrite Hd. split; [done|]. destruct (forallb _ _); [done|]. destruct (d <=? now); [done|].
    intros later Hl. simpl. rewrite Hc, Hd. unfold drain_check. rewrite Hd. destruct (forallb _ _); [by eexists|].
    rewrite (proj2 (Z.leb_le d later)) by done. by eexists.
  - assert (∀ slot pid, (slot, pid) ∈ waits f → (SIGTERM, pid) ∈ signals (signal_children (set_deadline (now + drain_timeout) f))) as Hsig.
    { intros slot pid Hin%(fo_live _ Hok). simpl. apply elem_of_app. right. apply list_elem_of_fmap. exists pid.
      split; [done|]. apply list_elem_of_omap. exists (Some pid). split; [by apply list_elem_of_lookup_2 in Hin|done]. }
    split.
    + intros _ slot pid Hin. destruct (forallb _ _); [by apply Hsig in Hin|].
      destruct (_ <=? now); [|by apply Hsig in Hin]. apply Hsig in Hin. simpl in Hin |- *.
      rewrite elem_of_app. by left.
    + destruct (forallb _ _); [done|]. destruct (_ <=? now); [done|]. intros later Hl. simpl. rewrite Hc.
      unfold drain_check. simpl. destruct (forallb _ _); [by eexists|].
      rewrite (proj2 (Z.leb_le _ later)) by done. by eexists.
Qed.
End shutdown.

(** ** Examples *)

Module Examples.
#[local] Open Scope string_scope.
Definition spawned3 : list (option Z) := [Some 101; Some 102; Some 103].
Definition fleet3 : Fleet :=
  mk_fleet [Some 101; Some 102; Some 103] [(0%nat, 101); (1%nat, 102); (2%nat, 103)] ∅ false None 85 [].
Definition policy_2_8 : ScalingPolicy := mk_policy 2 8 (f64_lit "0.3") (f64_lit "0.7") 15 1.

Lemma fleet3_started : supervise_start 3 (Some policy_2_8) 100 spawned3 = Continue fleet3.
Proof. vm_compute. reflexivity. Qed.

Lemma fleet3_default_started : supervise_start 3 None 100 spawned3 = Continue fleet3.
Proof. vm_compute. reflexivity. Qed.

(** The tests of [decide_scale]. *)
Example decide_tests :
  decide_scale 4 (f64_lit "0.5") policy_2_8 = Ret 4 ∧ decide_scale 4 (f64_lit "0.7") policy_2_8 = Ret 5 ∧
  decide_scale 4 (f64_lit "0.9") policy_2_8 = Ret 5 ∧ decide_scale 4 (f64_lit "0.3") policy_2_8 = Ret 3 ∧
  decide_scale 8 (f64_lit "1.0") policy_2_8 = Ret 8 ∧ decide_scale 2 f64_zero policy_2_8 = Ret 2.
Proof. vm_compute. repeat split. Qed.

Example next_free_test :
  next_free_slot [Some 1; None; Some 3] = (1%nat, [Some 1; None; Some 3]) ∧
  next_free_slot [Some 1; Some 9; Some 3] = (3%nat, [Some 1; Some 9; Some 3; None]).
Proof. vm_compute. repeat split. Qed.

(** [--scale --min-workers 4 --max-workers 2]: the clamp panics. *)
Example crossed_bounds : decide_scale 4 f64_zero (mk_policy 4 2 (f64_lit "0.3") (f64_lit "0.7") 15 1) = Panic.
Proof. reflexivity. Qed.

(** [--workers 1 --scale] is no prefork server, whatever its policy would be. *)
Example one_worker_scale :
  let a := mk_serve_args 1 None None true (f64_lit "0.3") (f64_lit "0.7") 15 in
  prefork a = false ∧ max_workers <$> scaling_of a = Some 2.
Proof. vm_compute. repeat split. Qed.

(** A respawn that fails ends the supervisor; the other workers run on, and
    nothing was sent to them. *)
Example respawn_error :
  match turn_step None 30 120 (WorkerExited 1 102 true None) fleet3 with
  | Some (Ret (Return (Some err) f)) => (err, waits f, signals f) = (spawn_error, [(0%nat, 101); (2%nat, 103)], [])
  | _ => False
  end.
Proof. vm_compute. reflexivity. Qed.

(** A worker whose wait fails is not replaced. *)
Example wait_error :
  match turn_step None 30 120 (WorkerExited 1 102 false (Some 104)) fleet3 with
  | Some (Ret (Continue f)) => pids f = [Some 101; None; Some 103]
  | _ => False
  end.
Proof. vm_compute. reflexivity. Qed.

(** A scaled-down worker that still runs when the others have drained is left. *)
Example left_behind :
  match turns (Some policy_2_8) 30
          [(115, ScaleTick f64_zero []); (120, StopSignal); (120, ShutdownSeen);
           (121, WorkerExited 0 101 true None); (122, WorkerExited 1 102 true None)] fleet3 with
  | Some (Ret (Return None f)) => waits f = [(2%nat, 103)]
  | _ => False
  end.
Proof. vm_compute. reflexivity. Qed.

Lemma fleet_size_witness :
  ∃ f, turns (Some policy_2_8) 30 [(115, ScaleTick f64_zero [Some 104]); (116, WorkerExited 2 103 true None);
                                   (117, WorkerExited 0 101 true (Some 104))] fleet3 = Some (Ret (Continue f)) ∧
       2 <= active f <= 8.
Proof.
  assert (policy_ok policy_2_8) as Hpol by (unfold policy_ok; repeat split; vm_compute; congruence).
  eexists. split; [vm_compute; reflexivity|].
  edestruct (fleet_size (Some policy_2_8) 30 3 100 spawned3 fleet3
    [(115, ScaleTick f64_zero [Some 104]); (116, WorkerExited 2 103 true None); (117, WorkerExited 0 101 true (Some 104))])
    as (_ & Hu & Hl & _); [by intros _|apply fleet3_started|vm_compute; reflexivity|reflexivity|].
  split; [apply Hl|apply Hu]. repeat (apply Forall_cons; split); try done. split; [done|]. by repeat constructor.
Defined.

Lemma fleet_without_policy_shrinks_witness :
  active fleet3 = 3 ∧
  ∃ f, turns None 30 (idle_ticks 2 115) fleet3 = Some (Ret (Continue f)) ∧ active f = 1.
Proof. by apply (fleet_without_policy_shrinks 3 30 100 spawned3 fleet3); [lia|apply fleet3_default_started]. Defined.

Lemma supervise_shutdown_witness :
  ∃ f, turns (Some policy_2_8) 30 [(120, StopSignal)] fleet3 = Some (Ret (Continue f)) ∧ cancelled f = true ∧
  ∃ t1, turn_step (Some policy_2_8) 30 121 ShutdownSeen f = Some (Ret t1) ∧ (SIGTERM, 102) ∈ signals (left t1).
Proof.
  eexists. split; [vm_compute; reflexivity|]. split; [reflexivity|].
  edestruct (supervise_shutdown (Some policy_2_8) 30 3 100 spawned3 fleet3 [(120, StopSignal)]) as [_ Hs];
    [intros _; unfold policy_ok; repeat split; vm_compute; congruence|apply fleet3_started|vm_compute; reflexivity|].
  destruct (Hs _ eq_refl eq_refl) as [_ Hsee]. destruct (Hsee 121) as (t1 & Ht1 & Hsig & _).
  exists t1. split; [exact Ht1|]. apply (Hsig eq_refl 1%nat). simpl. set_solver.
Defined.
End Examples.
