(* ===== verification/Forms.v ===== *)
(** * Forms: multipart bodies, cookies and typed extractors

    [crates/justapi-core/src/multipart.rs] and [extract.rs].  The multipart
    grammar of the multer crate is a parameter: what it makes of a body is a
    list of parts, each with its chunks.  Temporary files are the list of those
    that were kept; whether the file system takes a file is a parameter.
    serde_urlencoded is a parameter too. *)

From Stdlib Require Import Ascii.
From S2P Require Import Prelude Text Http.

#[local] Open Scope Z_scope.

Definition len (s : string) : Z := Z.of_nat (String.length s).

(** ** File names *)

Definition slash : ascii := "/"%char.
Definition backslash : ascii := "092"%char.

Definition usable (seg : string) : bool :=
  negb (String.eqb seg "") && negb (String.eqb seg ".") && negb (String.eqb seg "..").

(** [rsplit('/').find(..)] looks at the last segment first. *)
Definition sanitize_filename (name : string) : string :=
  default ""%string (find usable (reverse (split slash (replace_char backslash slash name)))).

(** ** The boundary *)

Definition dquote : string := quote.

Definition missing_boundary : string := "missing boundary in Content-Type header".

Fixpoint boundary_in (parts : list string) : option string :=
  match parts with
  | [] => None
  | part :: parts' =>
      match strip_prefix "boundary=" (trim part) with
      | Some value =>
          let b := trim value in
          let b := default b (strip_prefix dquote b) in
          Some (default b (strip_suffix dquote b))
      | None => boundary_in parts'
      end
  end.

Definition extract_boundary (content_type : string) : string + string :=
  match boundary_in (split ";"%char content_type) with
  | Some b => inr b
  | None => inl missing_boundary
  end.

(** ** The form *)

Record UploadFile := mk_upload {
  field_name : string;
  filename : option string;
  file_type : option string;
  part_headers : gmap string string;
  size : Z;
  temp_path : nat }.

Record MultipartForm := mk_form { form_fields : gmap string string; form_files : list UploadFile }.

Definition form_default : MultipartForm := mk_form ∅ [].

Definition form_file (name : string) (f : MultipartForm) : option UploadFile :=
  find (λ u, String.eqb (field_name u) name) (form_files f).
Definition form_field (name : string) (f : MultipartForm) : option string := form_fields f !! name.

(** [JUSTAPI_MAX_UPLOAD_SIZE]. *)
Definition max_upload_size (env : option string) : Z := default (50 * 1024 * 1024) (env ≫= parse_u64).

(** What multer gives for a part: [p_error] breaks its chunks off. *)
Record Part := mk_part {
  p_name : option string;
  p_filename : option string;
  p_type : option string;
  p_headers : list (string * string);
  p_chunks : list string;
  p_error : option string }.

Definition lower_headers (hs : list (string * string)) : gmap string string :=
  foldl (λ m h, if visible h.2 then <[lowercase h.1 := h.2]> m else m) ∅ hs.

(** The files that were kept, in the order of their paths: the next file's path
    is their number. *)
Abbreviation Temps := (list string).

Definition too_large (max : Z) : string :=
  "uploaded content exceeds maximum size of " +:+ decimal max +:+ " bytes".

Section parse.
(** [parts_of boundary body]: the parts, and the error that ends them; a body
    whose stream breaks is [None].
    [field_text] is [Field::text]; [disk] the error the file system gives when
    a file comes to hold these bytes. *)
Context (parts_of : string → option string → list Part * option string) (field_text : Part → string + string).
Context (disk : string → option string) (max_size : Z).

(** The chunks of a file: the total so far and what is written. *)
Fixpoint read_chunks (chunks : list string) (total : Z) (written : string) : string + (Z * string) :=
  match chunks with
  | [] => inr (total, written)
  | c :: cs =>
      let total := total + len c in
      let written := String.append written c in
      if max_size <? total then inl (too_large max_size)
      else match disk written with
           | Some e => inl e
           | None => read_chunks cs total written
           end
  end.

Definition read_part (p : Part) (total : Z) (form : MultipartForm) (temps : Temps)
    : string + (Z * MultipartForm * Temps) :=
  let name := default ""%string (p_name p) in
  match p_filename p with
  | Some raw =>
      match disk "" with
      | Some e => inl e
      | None =>
          match read_chunks (p_chunks p) total "" with
          | inl e => inl e
          | inr (total', written) =>
              match p_error p with
              | Some e => inl e
              | None =>
                  let u := mk_upload name (Some (sanitize_filename raw)) (p_type p) (lower_headers (p_headers p))
                             (len written) (length temps) in
                  inr (total', mk_form (form_fields form) (form_files form ++ [u]), temps ++ [written])
              end
          end
      end
  | None =>
      match field_text p with
      | inl e => inl e
      | inr text => inr (total, mk_form (<[name := text]> (form_fields form)) (form_files form), temps)
      end
  end.

(** The loop over the parts; the files that were kept stay on an error. *)
Fixpoint read_parts (parts : list Part) (last : option string) (total : Z) (form : MultipartForm) (temps : Temps)
    : (string + MultipartForm) * Temps :=
  match parts with
  | [] => (match last with Some e => inl e | None => inr form end, temps)
  | p :: parts' =>
      match read_part p total form temps with
      | inl e => (inl e, temps)
      | inr (total', form', temps') => read_parts parts' last total' form' temps'
      end
  end.

Definition parse_multipart (b : option string) (content_type : string) (temps : Temps) : (string + MultipartForm) * Temps :=
  match extract_boundary content_type with
  | inl e => (inl e, temps)
  | inr boundary => let '(parts, last) := parts_of boundary b in read_parts parts last 0 form_default temps
  end.
End parse.

(** ** Cookies *)

Definition hex_or_zero (c : ascii) : Z :=
  if is_digit c then code c - 48
  else if in_range 97 102 c then code c - 87
  else if in_range 65 70 c then code c - 55
  else 0.

Fixpoint url_bytes (s : string) : string :=
  match s with
  | EmptyString => EmptyString
  | String c (String h (String l s') as s1) =>
      if Ascii.eqb c "%" then
        String (ascii_of_nat (Z.to_nat (hex_or_zero h * 16 + hex_or_zero l))) (url_bytes s')
      else String (if Ascii.eqb c "+" then " "%char else c) (url_bytes s1)
  | String c s1 => String (if Ascii.eqb c "+" then " "%char else c) (url_bytes s1)
  end.

Definition url_decode (s : string) : string := from_utf8_lossy (url_bytes s).

Definition unquote (value : string) : string :=
  if (2 <=? len value) && starts_with dquote value && ends_with dquote value
  then String.substring 1 (String.length value - 2) value else value.

Definition add_cookie (m : gmap string string) (pair : string) : gmap string string :=
  match split_once "=" (trim pair) with
  | Some (name, value) => <[url_decode (trim name) := unquote (url_decode (trim value))]> m
  | None => m
  end.

Definition CookieJar : Type := gmap string string.

Definition cookies_from_request (req : Request) : CookieJar :=
  match header_str "cookie" (req_headers req) with
  | Some header => foldl add_cookie ∅ (split ";"%char header)
  | None => ∅
  end.

Definition cookie (name : string) (jar : CookieJar) : option string := jar !! name.

(** ** Headers, forms and queries *)

Definition get_header (req : Request) (name : string) : option string :=
  header_name_from name ≫= λ n, header_str n (req_headers req).

Definition get_header_typed {T} (parse : string → string + T) (req : Request) (name : string) : string + option T :=
  match get_header req name with
  | Some v =>
      match parse v with
      | inr t => inr (Some t)
      | inl e => inl ("invalid header '" +:+ name +:+ "': " +:+ e)
      end
  | None => inr None
  end.

Definition form_from_bytes {T} (from_bytes : string → string + T) (b : string) : string + T :=
  match from_bytes b with inr t => inr t | inl e => inl ("form error: " +:+ e) end.

Definition form_from_request {T} (from_bytes : string → string + T) (body_error : string) (req : Request) : string + T :=
  match req_body req with
  | Some b => form_from_bytes from_bytes b
  | None => inl body_error
  end.

Definition query_from_str {T} (from_str : string → string + T) (query : string) : string + T :=
  match from_str (trim_start_with (Ascii.eqb "?") query) with inr t => inr t | inl e => inl ("query error: " +:+ e) end.

Definition query_from_request {T} (from_str : string → string + T) (req : Request) : string + T :=
  query_from_str from_str (default ""%string (req_query req)).

(** ** File names are safe *)

(** One component of a path, and not a special one. *)
Definition safe_name (s : string) : Prop :=
  str_all (λ c, negb (Ascii.eqb slash c) && negb (Ascii.eqb backslash c)) s = true ∧ usable s = true.

Lemma replace_char_none a b s : a ≠ b → str_all (λ c, negb (Ascii.eqb a c)) (replace_char a b s) = true.
Proof.
  intros Hab. induction s as [|c s IH]; simpl; [done|]. fold (replace_char a b s). rewrite IH, andb_true_r.
  destruct (Ascii.eqb_spec c a) as [->|Hne]; apply negb_true_iff, Ascii.eqb_neq; congruence.
Qed.

Lemma replace_char_same a b s : str_all (λ c, negb (Ascii.eqb a c)) s = true → replace_char a b s = s.
Proof.
  unfold replace_char. induction s as [|c s IH]; simpl; [done|]. intros [Hc Hs]%andb_prop.
  rewrite IH by done. rewrite Ascii.eqb_sym. by destruct (Ascii.eqb a c).
Qed.

Lemma str_all_and f g s : str_all (λ c, f c && g c) s = str_all f s && str_all g s.
Proof. induction s as [|c s IH]; simpl; [done|]. rewrite IH. destruct (f c), (g c), (str_all f s); done. Qed.

Lemma str_all_piece f s a b t : s = String.append a (String.append t b) → str_all f s = true → str_all f t = true.
Proof. intros ->. rewrite !str_all_append. intros [_ [? _]%andb_prop]%andb_prop. done. Qed.

(** Upload names cannot leave their directory.  What is left of a file name
    is empty or one component of a path: it holds no slash and no backslash and
    is neither of the special names; and a name that is one already is kept, so
    that cleaning twice changes nothing. *)
Theorem sanitize_filename_safe name :
  (sanitize_filename name = ""%string ∨ safe_name (sanitize_filename name)) ∧
  (∀ s, safe_name s → sanitize_filename s = s) ∧
  sanitize_filename (sanitize_filename name) = sanitize_filename name.
Proof.
  assert (∀ s, safe_name s → sanitize_filename s = s) as Hkeep.
  { intros s [Hs Hu]. rewrite str_all_and in Hs. apply andb_prop in Hs as [Hsl Hbs]. unfold sanitize_filename.
    rewrite replace_char_same by done. unfold split. rewrite split_with_none by done. simpl. by rewrite Hu. }
  assert (sanitize_filename name = ""%string ∨ safe_name (sanitize_filename name)) as Hsafe.
  { unfold sanitize_filename. destruct (find usable _) as [s|] eqn:Hf; simpl; [right|by left].
    apply find_some in Hf as [Hin%list_elem_of_In Hu]. rewrite elem_of_reverse in Hin. split; [|done].
    rewrite str_all_and. apply andb_true_intro. split; [by apply (split_with_pieces _ _ _ Hin)|].
    destruct (split_with_piece _ _ _ Hin) as (a & b & Heq). apply (str_all_piece _ _ _ _ _ Heq).
    by apply replace_char_none. }
  split; [done|]. split; [done|]. destruct Hsafe as [->|Hs]; [done|by apply Hkeep].
Qed.

(** ** What a multipart body becomes *)

Definition is_file (p : Part) : bool := match p_filename p with Some _ => true | None => false end.

Definition contents (p : Part) : string := String.concat "" (p_chunks p).

(** The bytes of the files among the parts. *)
Definition file_bytes (parts : list Part) : Z :=
  foldr (λ p n, (if is_file p then len (contents p) else 0) + n) 0 parts.

Definition sizes (temps : Temps) : Z := foldr (λ t n, len t + n) 0 temps.

Section multipart.
Context (field_text : Part → string + string) (disk : string → option string) (max_size : Z).
Abbreviation read_part := (read_part field_text disk max_size).
Abbreviation read_parts := (read_parts field_text disk max_size).
Abbreviation read_chunks := (read_chunks disk max_size).

(** A part that was read to its end. *)
Definition sound (p : Part) : Prop :=
  if is_file p then p_error p = None else ∃ t, field_text p = inr t.

(** The form that the parts say, for files kept from number [n] on. *)
Fixpoint collect (n : nat) (parts : list Part) (form : MultipartForm) : MultipartForm :=
  match parts with
  | [] => form
  | p :: ps =>
      let name := default ""%string (p_name p) in
      match p_filename p with
      | Some raw =>
          let u := mk_upload name (Some (sanitize_filename raw)) (p_type p) (lower_headers (p_headers p))
                     (len (contents p)) n in
          collect (S n) ps (mk_form (form_fields form) (form_files form ++ [u]))
      | None =>
          let text := match field_text p with inr t => t | inl _ => ""%string end in
          collect n ps (mk_form (<[name := text]> (form_fields form)) (form_files form))
      end
  end.

Definition file_contents (parts : list Part) : Temps := contents <$> List.filter is_file parts.

Lemma len_append a b : len (String.append a b) = len a + len b.
Proof. unfold len. rewrite str_length_append. lia. Qed.

Lemma len_nonneg s : 0 <= len s.
Proof. unfold len. lia. Qed.

Lemma read_chunks_ok chunks total written total' written' :
  read_chunks chunks total written = inr (total', written') →
  total' = total + len (String.concat "" chunks) ∧ written' = String.append written (String.concat "" chunks) ∧
  (total <= max_size → total' <= max_size).
Proof.
  revert total written. induction chunks as [|c cs IH]; intros total written.
  { intros [= <- <-]. simpl. rewrite str_append_nil_r. unfold len. simpl. split; [lia|done]. }
  rewrite concat_cons, len_append. cbn [Forms.read_chunks]. destruct (Z.ltb_spec max_size (total + len c)); [done|].
  destruct (disk _); [done|]. intros (-> & -> & Hle)%IH. rewrite str_append_assoc. split; [lia|]. split; [done|].
  intros _. apply Hle. lia.
Qed.

Lemma read_chunks_complete chunks total written :
  (∀ s, disk s = None) → total + len (String.concat "" chunks) <= max_size →
  read_chunks chunks total written
  = inr (total + len (String.concat "" chunks), String.append written (String.concat "" chunks)).
Proof.
  intros Hd. revert total written. induction chunks as [|c cs IH]; intros total written.
  { simpl. rewrite str_append_nil_r. unfold len. simpl. intros _. do 2 f_equal. lia. }
  rewrite concat_cons, len_append. intros Hle. pose proof (len_nonneg (String.concat "" cs)).
  cbn [Forms.read_chunks]. rewrite (proj2 (Z.ltb_ge _ _)) by lia. rewrite Hd, IH by lia. rewrite str_append_assoc.
  do 2 f_equal. lia.
Qed.

Lemma read_chunks_error chunks total written e :
  (∀ s, disk s = None) → read_chunks chunks total written = inl e →
  e = too_large max_size ∧ max_size < total + len (String.concat "" chunks).
Proof.
  intros Hd. revert total written. induction chunks as [|c cs IH]; intros total written; [done|].
  rewrite concat_cons, len_append. pose proof (len_nonneg (String.concat "" cs)).
  cbn [Forms.read_chunks]. destruct (Z.ltb_spec max_size (total + len c)).
  - intros [= <-]. split; [done|lia].
  - rewrite Hd. intros [-> ?]%IH. split; [done|lia].
Qed.

Lemma sizes_app l k : sizes (l ++ k) = sizes l + sizes k.
Proof. induction l as [|t l IH]; simpl; [lia|]. rewrite IH. lia. Qed.

Lemma read_part_inv p total form temps total' form' temps' :
  read_part p total form temps = inr (total', form', temps') →
  sound p ∧ total' = total + (if is_file p then len (contents p) else 0) ∧
  temps' = (temps ++ file_contents [p])%list ∧ form' = collect (length temps) [p] form ∧
  (total <= max_size → total' <= max_size).
Proof.
  unfold Forms.read_part, sound, is_file, file_contents. cbn [collect List.filter]. unfold is_file.
  destruct (p_filename p) as [raw|].
  - destruct (disk ""); [done|]. destruct (read_chunks _ _ _) as [e|[t w]] eqn:Hr; [done|].
    destruct (p_error p); [done|]. intros [= <- <- <-]. apply read_chunks_ok in Hr as (-> & -> & Hle).
    unfold contents. done.
  - destruct (field_text p) as [e|t] eqn:Hft; [done|]. intros [= <- <- <-]. split; [by eexists|].
    split; [lia|]. by rewrite app_nil_r.
Qed.

Lemma collect_cons n p ps form :
  collect n (p :: ps) form = collect (n + length (file_contents [p])) ps (collect n [p] form).
Proof.
  unfold file_contents. simpl. unfold is_file. destruct (p_filename p); simpl; [|by rewrite Nat.add_0_r].
  by rewrite Nat.add_1_r.
Qed.

Lemma file_contents_cons p ps : file_contents (p :: ps) = (file_contents [p] ++ file_contents ps)%list.
Proof. unfold file_contents. simpl. by destruct (is_file p). Qed.

Lemma read_parts_inv parts last total form temps r temps' :
  total <= max_size → read_parts parts last total form temps = (r, temps') →
  ∃ kept, temps' = (temps ++ kept)%list ∧ kept `prefix_of` file_contents parts ∧ total + sizes kept <= max_size ∧
  (∀ f, r = inr f → last = None ∧ Forall sound parts ∧ kept = file_contents parts ∧ f = collect (length temps) parts form).
Proof.
  revert total form temps. induction parts as [|p ps IH]; intros total form temps Hle; cbn [Forms.read_parts].
  { intros [= <- <-]. exists []. rewrite app_nil_r. split; [done|]. split; [done|]. split; [simpl; lia|].
    destruct last; [done|]. by intros f [= <-]. }
  destruct (read_part p total form temps) as [e|[[total1 form1] temps1]] eqn:Hp.
  { intros [= <- <-]. exists []. rewrite app_nil_r. split; [done|]. split; [apply prefix_nil|]. split; [simpl; lia|done]. }
  apply read_part_inv in Hp as (Hs & -> & -> & -> & Hle1). intros Hr. destruct (IH _ _ _ (Hle1 Hle) Hr) as (k & -> & Hpre & Hsz & Hok).
  exists (file_contents [p] ++ k)%list. rewrite <- (app_assoc temps). split; [done|]. rewrite (file_contents_cons p ps).
  split; [by apply prefix_app|]. split.
  { rewrite sizes_app. unfold file_contents in *. simpl in *. destruct (is_file p); simpl in *; lia. }
  intros f Hf. destruct (Hok f Hf) as (-> & Hall & -> & ->). split; [done|]. split; [by constructor|]. split; [done|].
  rewrite (collect_cons _ p ps form). by rewrite length_app.
Qed.

Lemma read_parts_complete parts total form temps :
  (∀ s, disk s = None) → Forall sound parts → total <= max_size →
  match read_parts parts None total form temps with
  | (inr _, _) => total + file_bytes parts <= max_size
  | (inl e, _) => e = too_large max_size ∧ max_size < total + file_bytes parts
  end.
Proof.
  intros Hd Hs. revert total form temps. induction Hs as [|p ps Hp Hs IH]; intros total form temps Hle; [simpl; lia|].
  cbn [Forms.read_parts file_bytes foldr]. fold (file_bytes ps). unfold sound, is_file in Hp.
  assert (0 <= file_bytes ps) as Hnn.
  { clear. induction ps as [|q ps IH]; simpl; [lia|]. fold (file_bytes ps). pose proof (len_nonneg (contents q)).
    destruct (is_file q); lia. }
  unfold Forms.read_part, is_file. destruct (p_filename p) as [raw|].
  - rewrite Hd. destruct (read_chunks _ _ _) as [e|[t w]] eqn:Hr.
    + apply read_chunks_error in Hr as [-> ?]; [|done]. split; [done|]. unfold contents. lia.
    + rewrite Hp. apply read_chunks_ok in Hr as (-> & _ & Hle1). rewrite Z.add_assoc. by apply IH, Hle1.
  - destruct Hp as [t ->]. rewrite Z.add_0_l. by apply IH.
Qed.
End multipart.

(** C35: Multipart uploads.  Whatever the client sends, the files that are left
    on disk hold no more than the limit together.  When a form comes back, it
    is the one its parts say: the last text of each name, the files in order
    with their whole contents, and a file was kept for each and no other.
    Take a body whose parts can all be read, on a file system that takes them:
    it comes back as a form when the whole body is within the limit, and is
    refused with the error that says so when its files alone exceed it.  A body
    over the limit whose files are within it is left open here: the limit is
    documented for the whole body and the code does not count text, a
    finding. *)
Theorem multipart_collects parts_of field_text disk max_size b content_type temps r temps' :
  0 <= max_size → parse_multipart parts_of field_text disk max_size b content_type temps = (r, temps') →
  ∃ kept, temps' = (temps ++ kept)%list ∧ sizes kept <= max_size ∧
  (∀ form, r = inr form → ∃ boundary parts,
     extract_boundary content_type = inr boundary ∧ parts_of boundary b = (parts, None) ∧
     kept = file_contents parts ∧ form = collect field_text (length temps) parts form_default) ∧
  (∀ boundary parts bytes, extract_boundary content_type = inr boundary → parts_of boundary b = (parts, None) →
     Forall (sound field_text) parts → (∀ s, disk s = None) →
     b = Some bytes → file_bytes parts <= len bytes →
     (len bytes <= max_size → ∃ form, r = inr form) ∧
     (max_size < file_bytes parts → r = inl (too_large max_size))).
Proof.
  intros Hmax. unfold parse_multipart. destruct (extract_boundary content_type) as [e|bd].
  { intros [= <- <-]. exists []. rewrite app_nil_r. simpl. split_and!; [done|lia|done|done]. }
  destruct (parts_of bd b) as [parts last] eqn:Hparts. intros Hr.
  destruct (read_parts_inv _ _ _ _ _ _ _ _ _ _ Hmax Hr) as (kept & -> & _ & Hsz & Hok).
  exists kept. split; [done|]. split; [lia|]. split.
  - intros form ->. destruct (Hok form eq_refl) as (-> & _ & -> & ->). by exists bd, parts.
  - intros bd' parts' bytes [= <-] Hp Hs Hd _ Hlen. rewrite Hp in Hparts. injection Hparts as -> <-.
    pose proof (read_parts_complete field_text disk max_size parts 0 form_default temps Hd Hs Hmax) as Hc.
    rewrite Hr in Hc. destruct r as [e|form].
    + destruct Hc as [-> ?]. split; [lia|done].
    + split; [by exists form|lia].
Qed.

(** ** Cookies round trip *)

(** A reference encoder: every byte but letters and digits as [%xx]. *)
Definition pct_byte (c : ascii) : string :=
  String "%" (String (hex_digit (code c / 16)) (String (hex_digit (code c mod 16)) EmptyString)).

Fixpoint pct_encode (s : string) : string :=
  match s with
  | EmptyString => EmptyString
  | String c s' => if is_alphanumeric c then String c (pct_encode s') else String.append (pct_byte c) (pct_encode s')
  end.

Definition cookie_pair (nv : string * string) : string :=
  String.append (pct_encode nv.1) (String "=" (pct_encode nv.2)).

Definition cookie_header (cookies : list (string * string)) : string := join "; " (cookie_pair <$> cookies).

(** A Rust string is well-formed UTF-8. *)
Definition utf8 (s : string) : Prop := from_utf8_lossy s = s.

Lemma hex_byte c : ascii_of_nat (Z.to_nat (hex_or_zero (hex_digit (code c / 16)) * 16 + hex_or_zero (hex_digit (code c mod 16)))) = c.
Proof. destruct c as [[] [] [] [] [] [] [] []]; vm_compute; reflexivity. Qed.

Definition pct_char (c : ascii) : bool := is_alphanumeric c || Ascii.eqb c "%".

Lemma pct_byte_chars c : str_all pct_char (pct_byte c) = true.
Proof. destruct c as [[] [] [] [] [] [] [] []]; vm_compute; reflexivity. Qed.

Lemma pct_encode_chars s : str_all pct_char (pct_encode s) = true.
Proof.
  induction s as [|c s IH]; cbn [pct_encode]; [done|]. destruct (is_alphanumeric c) eqn:Hc.
  - cbn [str_all]. by rewrite IH, andb_true_r; unfold pct_char; rewrite Hc.
  - by rewrite str_all_append, pct_byte_chars.
Qed.

Lemma url_bytes_plain c s :
  is_alphanumeric c = true → url_bytes (String c s) = String c (url_bytes s).
Proof.
  intros Hc. assert (Ascii.eqb c "%" = false ∧ Ascii.eqb c "+" = false) as [H1 H2].
  { destruct c as [[] [] [] [] [] [] [] []]; by vm_compute in Hc |- *. }
  destruct s as [|h [|l s]]; cbn [url_bytes]; rewrite ?H1, ?H2; reflexivity.
Qed.

Lemma url_bytes_escape h l s :
  url_bytes (String "%" (String h (String l s)))
  = String (ascii_of_nat (Z.to_nat (hex_or_zero h * 16 + hex_or_zero l))) (url_bytes s).
Proof. reflexivity. Qed.

Lemma url_bytes_encode s : url_bytes (pct_encode s) = s.
Proof.
  induction s as [|c s IH]; cbn [pct_encode]; [done|]. destruct (is_alphanumeric c) eqn:Hc.
  - by rewrite url_bytes_plain, IH.
  - change (String.append (pct_byte c) (pct_encode s)) with
      (String "%" (String (hex_digit (code c / 16)) (String (hex_digit (code c mod 16)) (pct_encode s)))).
    by rewrite url_bytes_escape, hex_byte, IH.
Qed.

Lemma url_decode_encode s : utf8 s → url_decode (pct_encode s) = s.
Proof. unfold url_decode. by rewrite url_bytes_encode. Qed.

Lemma pct_without f s : (∀ c, pct_char c = true → f c = true) → str_all f (pct_encode s) = true.
Proof. intros Hf. by apply (str_all_impl pct_char), pct_encode_chars. Qed.

Lemma add_cookie_pair m n v :
  utf8 n → utf8 v → unquote v = v → add_cookie m (cookie_pair (n, v)) = <[n := v]> m.
Proof.
  intros Hn Hv Hq. unfold add_cookie, cookie_pair. cbn [fst snd].
  assert (∀ s, str_all (λ c, negb (is_space c)) (pct_encode s) = true) as Hsp by (intros s; apply pct_without; each_char).
  rewrite trim_none.
  2:{ rewrite str_all_append. cbn [str_all]. by rewrite !Hsp. }
  rewrite split_once_char by (apply pct_without; each_char).
  by rewrite !(trim_none _ (Hsp _)), !url_decode_encode, Hq.
Qed.

Lemma add_cookie_space m s : add_cookie m (String " " s) = add_cookie m s.
Proof. reflexivity. Qed.

Lemma split_pieces l p :
  Forall (λ s, str_all (λ x, negb (Ascii.eqb ";" x)) s = true) (p :: l) →
  split ";" (join "; " (p :: l)) = p :: (String " " <$> l).
Proof.
  intros Hall. revert p Hall. induction l as [|q l IH]; intros p [Hp Hall]%Forall_cons.
  - apply split_with_none, Hp.
  - change (join "; " (p :: q :: l)) with (String.append p (String ";" (String " " (join "; " (q :: l))))).
    rewrite split_append. unfold split at 1. rewrite split_with_none by done.
    change (split ";" (String " " (join "; " (q :: l)))) with
      (match split ";" (join "; " (q :: l)) with [] => [String " " ""] | x :: xs => String " " x :: xs end).
    by rewrite IH.
Qed.

Lemma insert_all_lookup (l : list (string * string)) (m : gmap string string) k :
  foldl (λ m p, <[p.1 := p.2]> m) m l !! k = match assoc_get k (reverse l) with Some v => Some v | None => m !! k end.
Proof.
  revert m. induction l as [|[n v] l IH]; intros m; [done|]. cbn [foldl]. rewrite IH, reverse_cons, assoc_get_app.
  destruct (assoc_get k (reverse l)); [done|]. cbn [assoc_get fst snd].
  destruct (decide (n = k)) as [->|Hne]; [by rewrite lookup_insert_eq|by rewrite lookup_insert_ne].
Qed.

Lemma visible_join l : Forall (λ s, visible s = true) l → visible (join "; " l) = true.
Proof.
  unfold visible. induction l as [|p [|q l] IH]; intros Hall; [done|by apply Forall_cons in Hall as [? _]|].
  apply Forall_cons in Hall as [Hp Hall].
  change (join "; " (p :: q :: l)) with (String.append p (String.append "; " (join "; " (q :: l)))).
  rewrite !str_all_append, Hp, IH by done. done.
Qed.

(** Cookies round trip.  The jar of a request whose header is the encoding
    of some cookies holds, for each name, the value it was given last, and
    nothing else, as long as no value is in quotes already. *)
Theorem cookies_roundtrip cookies req name :
  Forall (λ nv : string * string, utf8 nv.1 ∧ utf8 nv.2 ∧ unquote nv.2 = nv.2) cookies →
  assoc_get "cookie"%string (req_headers req) = Some (cookie_header cookies) →
  cookie name (cookies_from_request req) = assoc_get name (reverse cookies).
Proof.
  intros Hall Hh. unfold cookie, cookies_from_request, header_str. rewrite Hh. unfold cookie_header.
  assert (Forall (λ s, str_all (λ c, pct_char c || Ascii.eqb c "=") s = true) (cookie_pair <$> cookies)) as Hch.
  { apply Forall_fmap, Forall_true. intros [n v]. unfold compose, cookie_pair. cbn [fst snd].
    rewrite str_all_append. cbn [str_all]. by rewrite !pct_without by each_char. }
  rewrite visible_join by (eapply Forall_impl; [exact Hch|]; intros s; apply str_all_impl; each_char).
  assert (foldl add_cookie ∅ (split ";" (join "; " (cookie_pair <$> cookies))) = foldl (λ m p, <[p.1 := p.2]> m) ∅ cookies) as ->.
  { destruct cookies as [|nv l]; [done|]. rewrite fmap_cons, split_pieces.
    2:{ eapply Forall_impl; [exact Hch|]. intros s. apply str_all_impl. each_char. }
    apply Forall_cons in Hall as [(Hn & Hv & Hq) Hall]. cbn [foldl]. destruct nv as [n v]. rewrite add_cookie_pair by done.
    clear Hh Hch Hn Hv Hq. cbn [fst snd]. generalize (<[n := v]> (∅ : gmap string string)) as m.
    induction Hall as [|[n' v'] l (Hn & Hv & Hq) _ IH]; intros m; [done|]. cbn [fmap list_fmap foldl].
    rewrite add_cookie_space, add_cookie_pair by done. apply IH. }
  rewrite insert_all_lookup. by destruct (assoc_get name (reverse cookies)).
Qed.

(** ** Examples *)

Module Examples.
#[local] Open Scope string_scope.

(** The tests of [extract_boundary] and [sanitize_filename]. *)
Example boundary_tests :
  extract_boundary "multipart/form-data; boundary=----WebKitFormBoundaryxyz" = inr "----WebKitFormBoundaryxyz" ∧
  extract_boundary ("multipart/form-data; boundary=" +:+ dquote +:+ "----Boundary123" +:+ dquote) = inr "----Boundary123" ∧
  extract_boundary "multipart/form-data" = inl missing_boundary.
Proof. vm_compute. repeat split. Qed.

Example sanitize_tests :
  sanitize_filename <$> ["../../etc/passwd"; "foo/bar/baz.txt"; "C:\Windows\win.ini"; "/abs/path.txt"; "normal.txt"; ""; ".."]
  = ["passwd"; "baz.txt"; "win.ini"; "path.txt"; "normal.txt"; ""; ""].
Proof. vm_compute. reflexivity. Qed.

Lemma sanitize_filename_safe_witness :
  safe_name "passwd" ∧ sanitize_filename "../../etc/passwd" = "passwd" ∧ sanitize_filename "passwd" = "passwd".
Proof.
  split; [split; reflexivity|]. split; [reflexivity|].
  destruct (sanitize_filename_safe "../../etc/passwd") as (_ & Hk & _). apply Hk. split; reflexivity.
Defined.

Definition text_part (name text : string) : Part := mk_part (Some name) None None [] [text] None.
Definition file_part (name file : string) (chunks : list string) : Part :=
  mk_part (Some name) (Some file) None [] chunks None.
Definition plain_text (p : Part) : string + string := inr (contents p).
Definition parts3 : list Part :=
  [text_part "description" "my file"; file_part "file" "../a.txt" ["hello, "; "this"]; file_part "other" "b.txt" ["x"]].
(** The body they come from, its framing shortened. *)
Definition body3 : string := "--b description my file --b file hello, this --b other x --b--".
Definition parse3 (max : Z) : (string + MultipartForm) * Temps :=
  parse_multipart (λ _ _, (parts3, None)) plain_text (λ _, None) max (Some body3) "multipart/form-data; boundary=b" [].

Example parse3_ok :
  match parse3 100 with
  | (inr f, temps) =>
      (form_field "description" f, filename <$> form_file "file" f, size <$> form_file "file" f, temps)
      = (Some "my file", Some (Some "a.txt"), Some 11, ["hello, this"; "x"])
  | _ => False
  end.
Proof. vm_compute. reflexivity. Qed.

(** A file that was complete stays on disk when a later one is too much. *)
Example kept_after_error : parse3 11 = (inl (too_large 11), ["hello, this"]).
Proof. vm_compute. reflexivity. Qed.

(** Text is not counted: a limit of nothing takes any text. *)
Example text_unlimited :
  match parse_multipart (λ _ _, ([text_part "a" "as long as one likes"], None)) plain_text (λ _, None) 0 (Some "")
          "multipart/form-data; boundary=b" [] with
  | (inr f, _) => form_field "a" f = Some "as long as one likes"
  | _ => False
  end.
Proof. vm_compute. reflexivity. Qed.

Lemma multipart_collects_witness :
  ∃ form, fst (parse3 100) = inr form ∧ form_field "description" form = Some "my file".
Proof.
  destruct (parse3 100) as [r temps] eqn:Hp.
  destruct (multipart_collects _ _ _ 100 _ _ _ _ _ ltac:(lia) Hp) as (kept & _ & _ & Hf & Hc).
  specialize (Hc "b" parts3).
  destruct (Hc body3) as [Hfits _]; [reflexivity|reflexivity|repeat constructor; by eexists|done|done|by vm_compute|].
  destruct Hfits as [form ->]; [by vm_compute|]. exists form. split; [done|].
  destruct (Hf form eq_refl) as (bd & ps & _ & [= <-] & _ & ->). vm_compute. reflexivity.
Defined.

Definition cookie_request (header : string) : Request := new_request "GET" "/" None [("cookie", header)] None.
Definition jar_of (header : string) : CookieJar := cookies_from_request (cookie_request header).

Example cookie_tests :
  cookie "session_id" (jar_of "session_id=abc123") = Some "abc123" ∧
  cookie "lang" (jar_of "session=xyz; theme=dark; lang=en-US") = Some "en-US" ∧
  cookie "name" (jar_of "name=Hello%20World") = Some "Hello World" ∧
  cookie "q" (jar_of "q=rust+lang") = Some "rust lang".
Proof. vm_compute. repeat split. Qed.

(** Escapes that are none become the byte zero; quotes that were encoded go. *)
Example cookie_escapes :
  cookie "a" (jar_of "a=%zz") = Some (String zero EmptyString) ∧ cookie "a" (jar_of "a=%22x%22") = Some "x".
Proof. vm_compute. split; reflexivity. Qed.

Lemma cookies_roundtrip_witness :
  cookie "user id" (jar_of (cookie_header [("user id", "a;b=c"); ("t", "1"); ("user id", "+%")])) = Some "+%".
Proof.
  unfold jar_of. rewrite (cookies_roundtrip [("user id", "a;b=c"); ("t", "1"); ("user id", "+%")]); [reflexivity| |reflexivity].
  repeat constructor.
Defined.
End Examples.
