(* ===== verification/OpenApi.v ===== *)
(** * OpenApi: the description of the routes

    [crates/justapi-core/src/openapi.rs]: the document's data, the builder and
    the generator that describes the registered routes.  Reading and printing
    the document is derived by serde; reading a response the user gave is a
    parameter.  The two HTML pages are in [Docs]. *)

From Stdlib Require Import Ascii.
From S2P Require Import Prelude F32 Text F64 Http.

#[local] Open Scope string_scope.

(** ** The document *)

Record Info := mk_info { info_title : string; info_version : string; info_description : option string }.
Record DocServer := mk_doc_server { server_url : string; server_description : option string }.
Record Tag := mk_tag { tag_name : string; tag_description : option string }.

(** A reference, or a schema in place.  A map of schemas is the list of its
    entries, whose keys are distinct. *)
#[local] Unset Elimination Schemes.
Inductive Schema :=
| SRef (ref_path : string)
| SInline (o : SchemaObject)
with SchemaObject := mk_schema_object
  (schema_type format title description : option string)
  (properties : option (list (string * Schema))) (required : list string)
  (items additional_properties : option Schema)
  (enum_values : list json) (default_value example : option json)
  (nullable read_only write_only : option bool)
  (minimum maximum : option f64) (min_length max_length : option Z) (pattern : option string).
#[local] Set Elimination Schemes.

(** [..Default::default()] *)
Definition schema_default : SchemaObject :=
  mk_schema_object None None None None None [] None None [] None None None None None None None None None None.

(** The fields the generator sets. *)
Definition typed (ty : string) (props : option (list (string * Schema))) (req : list string) (its : option Schema)
    : SchemaObject :=
  mk_schema_object (Some ty) None None None props req its None [] None None None None None None None None None None.

Definition schema_of_type (ty : string) : Schema := SInline (typed ty None [] None).
Definition schema_string : Schema := schema_of_type "string".
Definition schema_integer : Schema := schema_of_type "integer".
Definition schema_number : Schema := schema_of_type "number".
Definition schema_boolean : Schema := schema_of_type "boolean".
Definition schema_array (its : Schema) : Schema := SInline (typed "array" None [] (Some its)).

(** [with_items], [with_property], [with_required] and [with_description]. *)
Definition with_items (i : Schema) (o : SchemaObject) : SchemaObject :=
  match o with
  | mk_schema_object t f ti d p r _ a e dv ex n ro wo mi ma mil mal pa =>
      mk_schema_object t f ti d p r (Some i) a e dv ex n ro wo mi ma mil mal pa
  end.
Definition with_property (name : string) (s : Schema) (o : SchemaObject) : SchemaObject :=
  match o with
  | mk_schema_object t f ti d p r i a e dv ex n ro wo mi ma mil mal pa =>
      mk_schema_object t f ti d (Some (assoc_set name s (default [] p))) r i a e dv ex n ro wo mi ma mil mal pa
  end.
Definition with_required (field : string) (o : SchemaObject) : SchemaObject :=
  match o with
  | mk_schema_object t f ti d p r i a e dv ex n ro wo mi ma mil mal pa =>
      mk_schema_object t f ti d p (r ++ [field])%list i a e dv ex n ro wo mi ma mil mal pa
  end.
Definition with_description (desc : string) (o : SchemaObject) : SchemaObject :=
  match o with
  | mk_schema_object t f ti _ p r i a e dv ex n ro wo mi ma mil mal pa =>
      mk_schema_object t f ti (Some desc) p r i a e dv ex n ro wo mi ma mil mal pa
  end.

Inductive ParameterLocation := InQuery | InPath | InHeader | InCookie.

Record DocParameter := mk_parameter {
  param_name : string; location : ParameterLocation; param_description : option string;
  param_required : bool; param_schema : option Schema }.

Record MediaType := mk_media { media_schema : option Schema }.

Record RequestBody := mk_request_body {
  body_description : option string; content : gmap string MediaType; body_required : bool }.

Record DocResponse := mk_doc_response {
  response_description : string; response_content : option (gmap string MediaType) }.

Record Operation := mk_operation {
  op_summary : option string;
  op_description : option string;
  op_id : option string;
  op_tags : list string;
  parameters : list DocParameter;
  request_body : option RequestBody;
  responses : gmap string DocResponse;
  op_deprecated : option bool;
  extensions : gmap string json }.

(** One field for each method. *)
Record PathItem := mk_path_item {
  pi_get : option Operation; pi_post : option Operation; pi_put : option Operation;
  pi_delete : option Operation; pi_patch : option Operation; pi_head : option Operation;
  pi_options : option Operation; pi_trace : option Operation; pi_query : option Operation }.

Definition path_item_empty : PathItem := mk_path_item None None None None None None None None None.

Definition query_method : string := "QUERY".

Definition path_item_insert (method : string) (op : Operation) (i : PathItem) : PathItem :=
  let '(mk_path_item g po pu d pa h o t q) := i in
  if String.eqb method query_method then mk_path_item g po pu d pa h o t (Some op)
  else if String.eqb method "GET" then mk_path_item (Some op) po pu d pa h o t q
  else if String.eqb method "POST" then mk_path_item g (Some op) pu d pa h o t q
  else if String.eqb method "PUT" then mk_path_item g po (Some op) d pa h o t q
  else if String.eqb method "DELETE" then mk_path_item g po pu (Some op) pa h o t q
  else if String.eqb method "PATCH" then mk_path_item g po pu d (Some op) h o t q
  else if String.eqb method "HEAD" then mk_path_item g po pu d pa (Some op) o t q
  else if String.eqb method "OPTIONS" then mk_path_item g po pu d pa h (Some op) t q
  else if String.eqb method "TRACE" then mk_path_item g po pu d pa h o (Some op) q
  else i.

Record OpenApiDocument := mk_document {
  openapi : string;
  info : Info;
  servers : option (list DocServer);
  paths : gmap string PathItem;
  component_schemas : option (gmap string SchemaObject);
  doc_tags : option (list Tag) }.

(** ** The builder *)

Record OpenApiBuilder := mk_builder {
  b_info : Info; b_servers : list DocServer; b_paths : gmap string PathItem;
  b_schemas : gmap string SchemaObject; b_tags : list Tag }.

Definition builder_new (title version : string) : OpenApiBuilder :=
  mk_builder (mk_info title version None) [] ∅ ∅ [].

Definition builder_description (desc : string) (b : OpenApiBuilder) : OpenApiBuilder :=
  mk_builder (mk_info (info_title (b_info b)) (info_version (b_info b)) (Some desc)) (b_servers b) (b_paths b)
    (b_schemas b) (b_tags b).

Definition builder_server (url : string) (desc : option string) (b : OpenApiBuilder) : OpenApiBuilder :=
  mk_builder (b_info b) (b_servers b ++ [mk_doc_server url desc])%list (b_paths b) (b_schemas b) (b_tags b).

Definition builder_tag (name : string) (desc : option string) (b : OpenApiBuilder) : OpenApiBuilder :=
  mk_builder (b_info b) (b_servers b) (b_paths b) (b_schemas b) (b_tags b ++ [mk_tag name desc])%list.

Definition builder_schema (name : string) (s : SchemaObject) (b : OpenApiBuilder) : OpenApiBuilder :=
  mk_builder (b_info b) (b_servers b) (b_paths b) (<[name := s]> (b_schemas b)) (b_tags b).

Definition builder_operation (method path : string) (op : Operation) (b : OpenApiBuilder) : OpenApiBuilder :=
  let item := default path_item_empty (b_paths b !! path) in
  mk_builder (b_info b) (b_servers b) (<[path := path_item_insert method op item]> (b_paths b)) (b_schemas b) (b_tags b).

Definition nonempty_list {X} (l : list X) : option (list X) := match l with [] => None | _ => Some l end.

Definition build (b : OpenApiBuilder) : OpenApiDocument :=
  mk_document "3.1.0" (b_info b) (nonempty_list (b_servers b)) (b_paths b)
    (if decide (b_schemas b = ∅) then None else Some (b_schemas b)) (nonempty_list (b_tags b)).

(** ** Schemas of examples *)

(** A value as an example of its schema. *)
Fixpoint json_value_to_schema (value : json) : Schema :=
  match value with
  | JNull => schema_of_type "null"
  | JBool _ => schema_boolean
  | JNumber (FloatNumber _) => schema_number
  | JNumber (IntNumber _) => schema_integer
  | JString _ => schema_string
  | JArray l =>
      SInline (typed "array" None [] (match l with [] => None | x :: _ => Some (json_value_to_schema x) end))
  | JObject o =>
      let props := List.map (λ kv : string * json, (kv.1, json_value_to_schema kv.2)) o in
      SInline (typed "object" (nonempty_list props)
                 (List.map fst (List.filter (λ kv : string * json, match kv.2 with JNull => false | _ => true end) o)) None)
  end.

(** ** The generator *)

Record RouteMeta := mk_route_meta {
  rm_method : string;
  rm_path : string;
  rm_summary : option string;
  rm_description : option string;
  rm_tags : list string;
  rm_request_schema : option json;
  rm_response_schema : option json;
  rm_deprecated : bool;
  rm_experimental : bool;
  rm_status : option Z;
  rm_responses : option json;
  rm_operation_id : option string;
  rm_extra : option json;
  rm_include : bool }.

Definition id_char (c : ascii) : ascii :=
  if existsb (Ascii.eqb c) ["/"; "{"; "}"; ":"]%char then "_"%char else c.
Definition trim_underscores (s : string) : string :=
  trim_end_with (Ascii.eqb "_") (trim_start_with (Ascii.eqb "_") s).
Definition auto_operation_id (r : RouteMeta) : string :=
  lowercase (rm_method r) +:+ "_" +:+ trim_underscores (str_map id_char (rm_path r)).

Definition operation_tags (r : RouteMeta) : list string :=
  if rm_experimental r && negb (existsb (String.eqb "experimental") (rm_tags r))
  then (rm_tags r ++ ["experimental"])%list else rm_tags r.

(** A segment in braces, or behind a colon. *)
Definition segment_param (segment : string) : option string :=
  if starts_with "{" segment && ends_with "}" segment
  then Some (String.substring 1 (String.length segment - 2) segment)
  else strip_prefix ":" segment.

Definition path_params (path : string) : list string := omap segment_param (split "/"%char path).

Definition path_parameter (name : string) : DocParameter := mk_parameter name InPath None true (Some schema_string).

Definition is_body_method (method : string) : bool :=
  existsb (String.eqb method) ["POST"; "PUT"; "PATCH"] || String.eqb method query_method.

Definition json_content (s : option json) : gmap string MediaType :=
  {["application/json" := mk_media (json_value_to_schema <$> s)]}.

Definition operation_body (r : RouteMeta) : option RequestBody :=
  if is_body_method (rm_method r) then Some (mk_request_body None (json_content (rm_request_schema r)) true) else None.

Definition standard_responses (r : RouteMeta) : gmap string DocResponse :=
  <["500" := mk_doc_response "Internal server error" None]>
    (<["400" := mk_doc_response "Bad request" None]>
       {[decimal (default 200%Z (rm_status r)) :=
           mk_doc_response "Successful response" (Some (json_content (rm_response_schema r)))]}).

Definition object_entries (j : option json) : list (string * json) := default [] (j ≫= as_object).

Definition operation_extensions (r : RouteMeta) : gmap string json :=
  foldl (λ m kv, if String.eqb kv.1 "responses" || String.eqb kv.1 "operationId" then m else <[kv.1 := kv.2]> m)
    ∅ (object_entries (rm_extra r)).

Section generate.
(** [serde_json::from_value::<Response>]. *)
Context (response_from : json → option DocResponse).

Definition merge_response (m : gmap string DocResponse) (kv : string * json) : gmap string DocResponse :=
  match response_from kv.2 with Some parsed => <[kv.1 := parsed]> m | None => m end.

Definition operation_of (r : RouteMeta) : Operation :=
  mk_operation (rm_summary r) (rm_description r)
    (Some (default (auto_operation_id r) (rm_operation_id r))) (operation_tags r)
    (path_parameter <$> path_params (rm_path r)) (operation_body r)
    (foldl merge_response (standard_responses r) (object_entries (rm_responses r)))
    (if rm_deprecated r then Some true else None) (operation_extensions r).

Definition add_operation (b : OpenApiBuilder) (r : RouteMeta) : OpenApiBuilder :=
  if rm_include r then builder_operation (rm_method r) (rm_path r) (operation_of r) b else b.

Definition generate (routes : list RouteMeta) (title version : string) : OpenApiDocument :=
  build (foldl add_operation
           (builder_tag "default" (Some "Default endpoint group")
              (builder_server "http://localhost:8080" (Some "Local development") (builder_new title version)))
           routes).
End generate.

(** [OpenApiRegistry] holds the routes in the order they were registered. *)
Definition registry_register (meta : RouteMeta) (routes : list RouteMeta) : list RouteMeta := (routes ++ [meta])%list.

(** ** The document says what is served *)

Definition operation_at (method : string) (i : PathItem) : option Operation :=
  if String.eqb method query_method then pi_query i
  else if String.eqb method "GET" then pi_get i
  else if String.eqb method "POST" then pi_post i
  else if String.eqb method "PUT" then pi_put i
  else if String.eqb method "DELETE" then pi_delete i
  else if String.eqb method "PATCH" then pi_patch i
  else if String.eqb method "HEAD" then pi_head i
  else if String.eqb method "OPTIONS" then pi_options i
  else if String.eqb method "TRACE" then pi_trace i
  else None.

Definition known_methods : list string :=
  ["GET"; "POST"; "PUT"; "DELETE"; "PATCH"; "HEAD"; "OPTIONS"; "TRACE"; query_method].

Lemma operation_at_insert m m' op i :
  m ∈ known_methods →
  operation_at m (path_item_insert m' op i) = if String.eqb m' m then Some op else operation_at m i.
Proof.
  intros Hm. destruct i as [g po pu d pa h o t q]. unfold path_item_insert.
  assert (∀ l, m ∈ l → existsb (String.eqb m) l = true) as Hex.
  { intros l Hl. apply existsb_exists. exists m. split; [by apply list_elem_of_In|apply String.eqb_refl]. }
  repeat match goal with |- context [String.eqb m' ?k] =>
    lazymatch k with m => fail | _ => destruct (String.eqb_spec m' k) as [->|?] end end.
  all: unfold known_methods in Hm; repeat (apply elem_of_cons in Hm as [->|Hm]); try by apply elem_of_nil in Hm.
  all: try reflexivity.
  all: rewrite (proj2 (String.eqb_neq m' _)) by congruence; reflexivity.
Qed.

Lemma operation_at_empty m : operation_at m path_item_empty = None.
Proof. unfold operation_at. by repeat case_match. Qed.

(** The route that speaks for a method and a path: the last that is included. *)
Definition speaks_for (m path : string) (r : RouteMeta) : bool :=
  rm_include r && String.eqb (rm_method r) m && String.eqb (rm_path r) path.
Definition last_route (m path : string) (routes : list RouteMeta) : option RouteMeta :=
  find (speaks_for m path) (reverse routes).

Section document.
Context (response_from : json → option DocResponse).
Abbreviation add_operation := (add_operation response_from).

Lemma add_operations_paths routes b m path :
  m ∈ known_methods →
  (b_paths (foldl add_operation b routes) !! path ≫= operation_at m)
  = match last_route m path routes with
    | Some r => Some (operation_of response_from r)
    | None => b_paths b !! path ≫= operation_at m
    end.
Proof.
  intros Hm. unfold last_route. revert b. induction routes as [|r routes IH] using rev_ind; intros b; [done|].
  rewrite foldl_app, reverse_app. cbn [foldl reverse rev_append app find]. unfold speaks_for at 1. unfold OpenApi.add_operation at 1.
  destruct (rm_include r); [|apply IH]. cbn [andb builder_operation b_paths].
  destruct (String.eqb_spec (rm_path r) path) as [<-|Hp].
  - rewrite lookup_insert_eq. cbn [mbind option_bind]. rewrite operation_at_insert by done. rewrite andb_true_r.
    destruct (String.eqb (rm_method r) m); [done|]. rewrite <- IH.
    destruct (b_paths _ !! _); [done|apply operation_at_empty].
  - rewrite lookup_insert_ne by done. rewrite andb_false_r. apply IH.
Qed.

Lemma add_operations_dom routes b path :
  is_Some (b_paths (foldl add_operation b routes) !! path) ↔
  is_Some (b_paths b !! path) ∨ ∃ r, r ∈ routes ∧ rm_include r = true ∧ rm_path r = path.
Proof.
  revert b. induction routes as [|r routes IH]; intros b; cbn [foldl].
  { split; [by left|]. intros [?|(r & ?%elem_of_nil & _)]; done. }
  rewrite IH. unfold OpenApi.add_operation at 1. destruct (rm_include r) eqn:Hr.
  - cbn [builder_operation b_paths]. destruct (decide (rm_path r = path)) as [<-|Hp].
    + rewrite lookup_insert_eq. split; [|by left]. intros _. right. exists r. split; [left|done].
    + rewrite lookup_insert_ne by done. split; intros [?|(r' & Hin & Hi & Hpath)]; [by left| |by left|].
      * right. exists r'. split; [by right|done].
      * apply elem_of_cons in Hin as [->|Hin]; [done|]. right. by exists r'.
  - split; intros [?|(r' & Hin & Hi & Hpath)]; [by left| |by left|].
    + right. exists r'. split; [by right|done].
    + apply elem_of_cons in Hin as [->|Hin]; [congruence|]. right. by exists r'.
Qed.
End document.

(** The description says what is served.  The document has an entry for
    exactly the paths of the routes that are included; under each known method
    of a path it describes the route that was registered last for them, and no
    other; and the parameters of that operation are the placeholders of the
    path, in order, each of them required. *)
Theorem openapi_documents_routes response_from routes title version path :
  let doc := generate response_from routes title version in
  (is_Some (paths doc !! path) ↔ ∃ r, r ∈ routes ∧ rm_include r = true ∧ rm_path r = path) ∧
  ∀ m, m ∈ known_methods →
    (paths doc !! path ≫= operation_at m) = operation_of response_from <$> last_route m path routes ∧
    ∀ op, (paths doc !! path ≫= operation_at m) = Some op →
      param_name <$> parameters op = path_params path ∧
      Forall (λ p, location p = InPath ∧ param_required p = true) (parameters op).
Proof.
  intros doc. split; [|intros m Hm].
  - unfold doc, generate. cbn [build paths]. rewrite add_operations_dom. cbn [builder_tag builder_server builder_new b_paths].
    rewrite lookup_empty. split; [|by right]. intros [[? ?]|?]; done.
  - assert ((paths doc !! path ≫= operation_at m) = operation_of response_from <$> last_route m path routes) as Hop.
    { unfold doc, generate. cbn [build paths]. rewrite add_operations_paths by done. by destruct (last_route m path routes). }
    split; [done|]. rewrite Hop. intros op Hop'. unfold last_route in Hop'.
    destruct (find _ _) as [r|] eqn:Hf; [|done]. injection Hop' as <-. apply find_some in Hf as [_ Hs].
    unfold speaks_for in Hs. apply andb_prop in Hs as [_ Hp%String.eqb_eq]. cbn [operation_of parameters]. rewrite Hp. split.
    + rewrite <- list_fmap_compose. apply list_fmap_id.
    + apply Forall_fmap, Forall_true. by intros x.
Qed.

(** ** The schema of an example *)

Fixpoint field_of (k : string) (o : list (string * json)) : option json :=
  match o with [] => None | (k', v) :: o' => if String.eqb k' k then Some v else field_of k o' end.

Definition type_is (ty : string) (j : json) : bool :=
  match j with
  | JNull => String.eqb ty "null"
  | JBool _ => String.eqb ty "boolean"
  | JNumber (IntNumber _) => String.eqb ty "integer" || String.eqb ty "number"
  | JNumber (FloatNumber _) => String.eqb ty "number"
  | JString _ => String.eqb ty "string"
  | JArray _ => String.eqb ty "array"
  | JObject _ => String.eqb ty "object"
  end.

(** What a schema of the generator accepts: JSON Schema's [type],
    [properties], [required] and [items]; a reference accepts anything. *)
Fixpoint accepts (s : Schema) (j : json) {struct s} : bool :=
  match s with
  | SRef _ => true
  | SInline (mk_schema_object ty _ _ _ props req its _ _ _ _ _ _ _ _ _ _ _ _) =>
      match ty with Some ty => type_is ty j | None => true end
      && match j with
         | JObject o =>
             forallb (λ k, match field_of k o with Some _ => true | None => false end) req
             && match props with
                | Some ps =>
                    (fix go (ps : list (string * Schema)) : bool :=
                       match ps with
                       | [] => true
                       | (k, s') :: ps' => match field_of k o with Some v => accepts s' v | None => true end && go ps'
                       end) ps
                | None => true
                end
         | JArray l => match its with Some i => forallb (accepts i) l | None => true end
         | _ => true
         end
  end.

(** The keys of every object are distinct, and every array is described by its
    first element. *)
Fixpoint regular (j : json) : Prop :=
  match j with
  | JArray [] => True
  | JArray ((x :: _) as l) =>
      (fix all (l : list json) : Prop := match l with [] => True | y :: l' => regular y ∧ all l' end) l ∧
      Forall (λ y, accepts (json_value_to_schema x) y = true) (tail l)
  | JObject o =>
      NoDup o.*1 ∧
      (fix all (o : list (string * json)) : Prop := match o with [] => True | (_, y) :: o' => regular y ∧ all o' end) o
  | _ => True
  end.

Lemma field_of_elem k v o : NoDup o.*1 → (k, v) ∈ o → field_of k o = Some v.
Proof.
  induction o as [|[k' v'] o IH]; intros Hnd Hin; [by apply elem_of_nil in Hin|]. csimpl in *.
  apply NoDup_cons in Hnd as [Hk Hnd]. apply elem_of_cons in Hin as [[= -> ->]|Hin]; [by rewrite String.eqb_refl|].
  destruct (String.eqb_spec k' k) as [->|]; [|by apply IH]. exfalso. apply Hk, list_elem_of_fmap. by exists (k, v).
Qed.

(** A schema accepts its example.  The schema that the generator makes of a
    value accepts that value, if the keys of its objects are distinct and the
    first element of each of its arrays speaks for the others. *)
Theorem schema_accepts_example j : regular j → accepts (json_value_to_schema j) j = true.
Proof.
  induction j as [| | [n|t] | | l IH | o IH] using json_ind; try done.
  - intros Hr. cbn [json_value_to_schema]. destruct l as [|x l]; [done|]. cbn [accepts typed type_is]. cbn.
    destruct Hr as [[Hx _] Hl]. apply Forall_cons in IH as [IHx _]. rewrite (IHx Hx). cbn [andb tail] in *.
    apply forallb_forall. intros y Hy%list_elem_of_In. by rewrite Forall_forall in Hl; apply Hl.
  - intros [Hnd Hall]. cbn [json_value_to_schema]. unfold typed. cbn [accepts]. apply andb_true_intro. split; [done|].
    apply andb_true_intro. split.
    + apply forallb_forall. intros k Hk. apply in_map_iff in Hk as ([k' v] & <- & [Hin%list_elem_of_In _]%filter_In).
      cbn [fst]. by rewrite (field_of_elem k' v o Hnd Hin).
    + assert (∀ o', (∀ kv, kv ∈ o' → kv ∈ o) → Forall (λ kv, regular kv.2 → accepts (json_value_to_schema kv.2) kv.2 = true) o' →
        (fix all (o : list (string * json)) : Prop := match o with [] => True | (_, y) :: o' => regular y ∧ all o' end) o' →
        (fix go (ps : list (string * Schema)) : bool :=
           match ps with
           | [] => true
           | (k, s') :: ps' => match field_of k o with Some v => accepts s' v | None => true end && go ps'
           end) (List.map (λ kv : string * json, (kv.1, json_value_to_schema kv.2)) o') = true) as Hgo.
      { induction o' as [|[k v] o' IHo]; intros Hsub Hacc Hreg; [done|]. apply Forall_cons in Hacc as [Hv Hacc].
        destruct Hreg as [Hrv Hreg]. cbn [List.map fst snd] in *. rewrite (field_of_elem k v o Hnd) by (apply Hsub; left).
        rewrite (Hv Hrv). apply IHo; [|done..]. intros kv Hin. apply Hsub. by right. }
      specialize (Hgo o (λ kv Hin, Hin) IH Hall).
      destruct (List.map _ o) as [|p ps] eqn:Hm; [done|]. exact Hgo.
Qed.

(** ** Examples *)

Module Examples.
Definition route (m path : string) : RouteMeta :=
  mk_route_meta m path None None [] None (Some (JObject [])) false false None None None None true.
Definition doc_of (routes : list RouteMeta) : OpenApiDocument := generate (λ _, None) routes "T" "1".

Example param_tests :
  path_params "/users/{id}/posts/:post" = ["id"; "post"] ∧ auto_operation_id (route "GET" "/users/{id}") = "get_users__id".
Proof. vm_compute. split; reflexivity. Qed.

(** Two paths may get one operation id. *)
Example ids_collide : auto_operation_id (route "GET" "/a/b") = auto_operation_id (route "GET" "/a_b").
Proof. reflexivity. Qed.

(** A method without a field leaves an empty entry for its path. *)
Example unknown_method : paths (doc_of [route "PROPFIND" "/x"]) !! "/x" = Some path_item_empty.
Proof. vm_compute. reflexivity. Qed.

(** A placeholder with a suffix is not a parameter. *)
Example suffix_is_no_param : path_params "/files/{name}.json" = [].
Proof. reflexivity. Qed.

(** A JSON Schema is taken for an example: the schema of integers becomes that of
    objects with a field [type], which accepts no integer. *)
Example schema_as_example :
  let s := json_value_to_schema (JObject [("type", JString "integer")]) in
  accepts s (json_int 1) = false ∧ accepts s (JObject [("type", JString "integer")]) = true.
Proof. vm_compute. split; reflexivity. Qed.

(** The elements of an array after the first do not count. *)
Example mixed_array :
  let j := JArray [json_int 1; JString "a"] in accepts (json_value_to_schema j) j = false.
Proof. reflexivity. Qed.

Lemma schema_accepts_example_witness :
  accepts (json_value_to_schema (JObject [("id", json_int 1); ("tags", JArray [JString "a"; JString "b"]); ("x", JNull)]))
    (JObject [("id", json_int 1); ("tags", JArray [JString "a"; JString "b"]); ("x", JNull)]) = true.
Proof.
  apply schema_accepts_example. split; [|repeat constructor]. cbn [fmap list_fmap fst].
  apply (bool_decide_eq_true_1 (NoDup ["id"; "tags"; "x"])). vm_compute. reflexivity.
Defined.

Lemma openapi_documents_routes_witness :
  (paths (doc_of [route "GET" "/u/{id}"; route "GET" "/h"; route "POST" "/u/{id}"]) !! "/u/{id}" ≫= operation_at "POST")
  = Some (operation_of (λ _, None) (route "POST" "/u/{id}")).
Proof.
  destruct (openapi_documents_routes (λ _, None) [route "GET" "/u/{id}"; route "GET" "/h"; route "POST" "/u/{id}"]
              "T" "1" "/u/{id}") as [_ Hm].
  destruct (Hm "POST" ltac:(unfold known_methods; set_solver)) as [Hop _]. unfold doc_of. rewrite Hop. reflexivity.
Defined.
End Examples.
