(* ===== verification/NativeApp.v ===== *)
(** * NativeApp: the application object behind the Python class

    [crates/justapi-py/src/native/app.rs], the state of [JustAPIApp] and its
    methods, and [resolve_schema_json] of [handlers.rs].  A route is spread over
    tables indexed by the number of its handler.  Python objects are opaque:
    what the code asks of them is a class.  The server that [run] builds is in
    [NativeRun], the handler in [NativeHandler], the database in [DbBridge], the
    WebSocket sessions in [WebSockets], the gRPC handler in [FrontEnds]; the
    WASM file is not modelled. *)

From Stdlib Require Import Ascii.
From S2P Require Import Prelude F32 Text F64 HttpRouter Http Middleware StaticFiles OpenApi.

#[local] Open Scope string_scope.

(** What the registration asks of a Python object: [extract::<String>],
    [is_instance_of::<PyDict>], [json.dumps], and the call without arguments of
    an attribute, which may be missing and may raise. *)
Class PyObject (Obj : Type) := {
  py_string : Obj → option string;
  py_is_dict : Obj → bool;
  py_json_dumps : Obj → string + string;
  py_call_attr : string → Obj → option (string + Obj);
  py_none : Obj }.

(** ** Schemas *)

Section schema.
Context {Obj : Type} `{!PyObject Obj}.

Definition no_schema : string := "schema must be a JSON Schema string, Schema subclass, or Pydantic model".

(** The two Pydantic methods: the first call that succeeds is dumped. *)
Fixpoint pydantic_schema (methods : list string) (schema : Obj) : string + option string :=
  match methods with
  | [] => inl no_schema
  | name :: methods' =>
      match py_call_attr name schema with
      | Some (inr d) => match py_json_dumps d with inl e => inl e | inr s => inr (Some s) end
      | _ => pydantic_schema methods' schema
      end
  end.

Definition resolve_schema_json (schema : option Obj) : string + option string :=
  match schema with
  | None => inr None
  | Some schema =>
      match py_string schema with
      | Some s => inr (Some s)
      | None =>
          if py_is_dict schema then
            match py_json_dumps schema with inl e => inl e | inr s => inr (Some s) end
          else
            match py_call_attr "_schema_json" schema with
            | Some (inl e) => inl e
            | Some (inr v) =>
                match py_string v with
                | Some s => inr (Some s)
                | None => pydantic_schema ["model_json_schema"; "schema"] schema
                end
            | None => pydantic_schema ["model_json_schema"; "schema"] schema
            end
      end
  end.
End schema.

(** A table, its columns and its key. *)
Abbreviation CrudConfig := (string * list string * string)%type.

Definition make_crud_spec (crud_table : option string) (crud_columns : option (list string))
    : string + option CrudConfig :=
  match crud_table, crud_columns with
  | Some table, Some [] => inl "crud_columns must be non-empty when crud_table is set"
  | Some table, Some columns => inr (Some (table, columns, "id"))
  | Some _, None => inl "crud_table requires crud_columns"
  | None, Some _ => inl "crud_columns requires crud_table"
  | None, None => inr None
  end.

(** ** The object *)

Record PyTool {Obj : Type} := mk_tool {
  tool_name : string; tool_description : string; tool_schema : string; tool_handler : Obj }.
Arguments PyTool : clear implicits.
Arguments mk_tool {Obj}.

Section app.
Context {Obj R E A : Type} `{!PyObject Obj} `{!HttpRouter.Matchit R nat E} {JW : JsonWebToken A}.
(** [serde_json::from_str], and the text of a routing error. *)
Context (from_str : string → string + json) (err_text : E → string).

(** The tables by handler number. *)
Record Tables := mk_tables {
  t_handlers : list Obj;
  t_native : list bool;
  t_crud : list (option CrudConfig);
  t_sse : list (option (Z * Z));
  t_schemas : list (option Obj);
  t_schema_jsons : list (option string);
  t_query_jsons : list (option string);
  t_batch : list (option (Z * Z)) }.

(** What does not belong to a route. *)
Record Settings := mk_settings {
  plugins : list Obj;
  gateway_config : option string;
  circuit_breaker_config : option (Z * Z);
  coalesce_headers : option (list string);
  http3_files : option (string * string);
  secure_headers : bool;
  secure_headers_config : option SecurityHeaders;
  health_checks : list (string * Obj);
  ws_routes : gmap string Obj;
  frontend_mounts : list StaticMount;
  jwt_auth : option (JwtAuth A);
  cors : option Cors }.

Record JustAPIApp := mk_app {
  app_router : HttpRouter.Router R nat;
  tables : Tables;
  route_meta : gmap (string * string) RouteMeta;
  named_routes : gmap string string;
  route_indices : gmap (string * string) nat;
  tools : list (PyTool Obj);
  sessions : gmap string json;
  settings : Settings }.

Definition settings_new : Settings := mk_settings [] None None None None false None [] ∅ [] None None.
Definition tables_new : Tables := mk_tables [] [] [] [] [] [] [] [].
Definition app_new : JustAPIApp := mk_app HttpRouter.new tables_new ∅ ∅ ∅ [] ∅ settings_new.

Definition set_tables (t : Tables) (a : JustAPIApp) : JustAPIApp :=
  mk_app (app_router a) t (route_meta a) (named_routes a) (route_indices a) (tools a) (sessions a) (settings a).
Definition set_router (r : HttpRouter.Router R nat) (a : JustAPIApp) : JustAPIApp :=
  mk_app r (tables a) (route_meta a) (named_routes a) (route_indices a) (tools a) (sessions a) (settings a).
Definition set_indices (i : gmap (string * string) nat) (a : JustAPIApp) : JustAPIApp :=
  mk_app (app_router a) (tables a) (route_meta a) (named_routes a) i (tools a) (sessions a) (settings a).
Definition set_named (n : gmap string string) (a : JustAPIApp) : JustAPIApp :=
  mk_app (app_router a) (tables a) (route_meta a) n (route_indices a) (tools a) (sessions a) (settings a).
Definition set_meta (m : gmap (string * string) RouteMeta) (a : JustAPIApp) : JustAPIApp :=
  mk_app (app_router a) (tables a) m (named_routes a) (route_indices a) (tools a) (sessions a) (settings a).
Definition set_tools (t : list (PyTool Obj)) (a : JustAPIApp) : JustAPIApp :=
  mk_app (app_router a) (tables a) (route_meta a) (named_routes a) (route_indices a) t (sessions a) (settings a).
Definition set_sessions (s : gmap string json) (a : JustAPIApp) : JustAPIApp :=
  mk_app (app_router a) (tables a) (route_meta a) (named_routes a) (route_indices a) (tools a) s (settings a).
Definition set_settings (s : Settings) (a : JustAPIApp) : JustAPIApp :=
  mk_app (app_router a) (tables a) (route_meta a) (named_routes a) (route_indices a) (tools a) (sessions a) s.

(** ** Methods that may raise *)

(** A method changes the object and returns or raises; what it changed before
    it raised stays.  An index out of range panics. *)
Definition method (X : Type) : Type := JustAPIApp → exec ((string + X) * JustAPIApp).

Definition m_return {X} (x : X) : method X := λ a, Ret (inr x, a).
Definition m_lift {X} (r : string + X) : method X := λ a, Ret (r, a).
Definition m_modify (f : JustAPIApp → JustAPIApp) : method unit := λ a, Ret (inr tt, f a).
Definition m_bind {X Y} (m : method X) (k : X → method Y) : method Y := λ a,
  match m a with
  | Ret (inl e, a') => Ret (inl e, a')
  | Ret (inr x, a') => k x a'
  | Panic => Panic
  end.

Notation "x <-- m ; k" := (m_bind m (λ x, k)) (at level 20, m at level 100, k at level 200, right associativity).
Notation "m ;; k" := (m_bind m (λ _, k)) (at level 100, right associativity).

(** [self.<table>.push(..)] *)
Definition on_tables (f : Tables → Tables) : method unit := m_modify (λ a, set_tables (f (tables a)) a).

Definition push_handler (x : Obj) : method unit :=
  on_tables (λ '(mk_tables h n c s sc sj q b), mk_tables (h ++ [x]) n c s sc sj q b).
Definition push_native (x : bool) : method unit :=
  on_tables (λ '(mk_tables h n c s sc sj q b), mk_tables h (n ++ [x]) c s sc sj q b).
Definition push_crud (x : option CrudConfig) : method unit :=
  on_tables (λ '(mk_tables h n c s sc sj q b), mk_tables h n (c ++ [x]) s sc sj q b).
Definition push_sse (x : option (Z * Z)) : method unit :=
  on_tables (λ '(mk_tables h n c s sc sj q b), mk_tables h n c (s ++ [x]) sc sj q b).
Definition push_schema (x : option Obj) : method unit :=
  on_tables (λ '(mk_tables h n c s sc sj q b), mk_tables h n c s (sc ++ [x]) sj q b).
Definition push_schema_json (x : option string) : method unit :=
  on_tables (λ '(mk_tables h n c s sc sj q b), mk_tables h n c s sc (sj ++ [x]) q b).
Definition push_query_json (x : option string) : method unit :=
  on_tables (λ '(mk_tables h n c s sc sj q b), mk_tables h n c s sc sj (q ++ [x]) b).
Definition push_batch (x : option (Z * Z)) : method unit :=
  on_tables (λ '(mk_tables h n c s sc sj q b), mk_tables h n c s sc sj q (b ++ [x])).

Definition handler_count (a : JustAPIApp) : nat := length (t_handlers (tables a)).

(** [self.router.insert(..).map_err(..)] *)
Definition insert_route (m path : string) (id : nat) : method unit := λ a,
  let '(e, r) := HttpRouter.insert m path id (app_router a) in
  Ret (match e with Some e => inl (err_text e) | None => inr tt end, set_router r a).

(** ** Registration *)

(** The keyword arguments of the route methods; a method reads those it has. *)
Record RouteArgs := mk_route_args {
  body_schema : option Obj;
  schema : option Obj;
  query_schema : option Obj;
  batch_size : option Z;
  batch_window_ms : option Z;
  experimental : option bool;
  arg_tags : option (list string);
  summary : option string;
  description : option string;
  deprecated : option bool;
  status_code : option Z;
  arg_responses : option string;
  operation_id : option string;
  openapi_extra : option string;
  include_in_schema : option bool;
  arg_name : option string;
  arg_native : option bool;
  crud_table : option string;
  crud_columns : option (list string) }.

Definition json_ok (s : option string) : option json :=
  s ≫= λ s, match from_str s with inr j => Some j | inl _ => None end.

(** [Method::from_bytes] takes any token for a method. *)
Definition method_enum (m : string) : string := if str_all token_char m && negb (String.eqb m "") then m else "GET".

Definition store_meta (m path : string) (body : option Obj) (response_schema_json : option (option string))
    (args : RouteArgs) (is_experimental : bool) : method unit :=
  m_modify (λ a,
    let schema_json := match resolve_schema_json body with inr s => s | inl _ => None end in
    let meta := mk_route_meta (method_enum m) path (summary args) (description args) (default [] (arg_tags args))
                  (json_ok schema_json) (json_ok (response_schema_json ≫= id)) (default false (deprecated args))
                  is_experimental (status_code args) (json_ok (arg_responses args)) (operation_id args)
                  (json_ok (openapi_extra args)) (default true (include_in_schema args)) in
    set_meta (<[(method_enum m, path) := meta]> (route_meta a)) a).

Definition name_route (path : string) (args : RouteArgs) : method unit :=
  match arg_name args with
  | Some n => m_modify (λ a, set_named (<[n := path]> (named_routes a)) a)
  | None => m_return tt
  end.

Definition last_schema_json (a : JustAPIApp) : option (option string) := last (t_schema_jsons (tables a)).

(** [post], [put] and [patch]. *)
Definition register_body (m path : string) (handler : Obj) (args : RouteArgs) : method unit := λ a,
  let id := handler_count a in
  (push_handler handler;;
   push_native (default false (arg_native args));;
   crud <-- m_lift (make_crud_spec (crud_table args) (crud_columns args));
   push_crud crud;;
   push_sse None;;
   push_schema (body_schema args);;
   schema_json <-- m_lift (resolve_schema_json (schema args));
   push_schema_json schema_json;;
   query_json <-- m_lift (resolve_schema_json (query_schema args));
   push_query_json query_json;;
   push_batch ((λ s, (s, default 10%Z (batch_window_ms args))) <$> batch_size args);;
   (λ a, store_meta m path (body_schema args) (last_schema_json a) args false a);;
   name_route path args;;
   insert_route m path id) a.

Definition post : string → Obj → RouteArgs → method unit := register_body "POST".
Definition put : string → Obj → RouteArgs → method unit := register_body "PUT".
Definition patch : string → Obj → RouteArgs → method unit := register_body "PATCH".

(** [query]: no batches, and the name is entered before the description. *)
Definition query (path : string) (handler : Obj) (args : RouteArgs) : method unit := λ a,
  let id := handler_count a in
  (push_handler handler;;
   push_native (default false (arg_native args));;
   crud <-- m_lift (make_crud_spec (crud_table args) (crud_columns args));
   push_crud crud;;
   push_sse None;;
   push_schema (body_schema args);;
   schema_json <-- m_lift (resolve_schema_json (schema args));
   push_schema_json schema_json;;
   query_json <-- m_lift (resolve_schema_json (query_schema args));
   push_query_json query_json;;
   push_batch None;;
   name_route path args;;
   (λ a, store_meta query_method path (body_schema args) (last_schema_json a) args (default false (experimental args)) a);;
   insert_route query_method path id) a.

(** [delete], [head], [options] and [trace]. *)
Definition register_plain (m path : string) (handler : Obj) (args : RouteArgs) : method unit := λ a,
  let id := handler_count a in
  (push_handler handler;;
   push_native (default false (arg_native args));;
   crud <-- m_lift (make_crud_spec (crud_table args) (crud_columns args));
   push_crud crud;;
   push_sse None;;
   push_schema None;;
   push_schema_json None;;
   query_json <-- m_lift (resolve_schema_json (query_schema args));
   push_query_json query_json;;
   push_batch None;;
   store_meta m path None None args false;;
   name_route path args;;
   insert_route m path id) a.

Definition delete : string → Obj → RouteArgs → method unit := register_plain "DELETE".
Definition head : string → Obj → RouteArgs → method unit := register_plain "HEAD".
Definition options : string → Obj → RouteArgs → method unit := register_plain "OPTIONS".
Definition trace : string → Obj → RouteArgs → method unit := register_plain "TRACE".

(** A new row for a GET route. *)
Definition push_row (handler : Obj) (is_native : bool) (crud : option CrudConfig) (sse : option (Z * Z))
    (query_json : option string) : method unit :=
  push_handler handler;; push_native is_native;; push_crud crud;; push_sse sse;; push_schema None;;
  push_schema_json None;; push_query_json query_json;; push_batch None.

Definition set_index (key : string * string) (id : nat) : method unit :=
  m_modify (λ a, set_indices (<[key := id]> (route_indices a)) a).

(** [self.<table>[id] = x], a function on the table. *)
Definition update {X} (i : nat) (x : X) (l : list X) : exec (list X) :=
  if Nat.ltb i (length l) then Ret (<[i := x]> l) else Panic.

Definition try_tables (f : Tables → exec Tables) : method unit := λ a,
  t ← f (tables a); Ret (inr tt, set_tables t a).

(** [get]: the arguments are looked at first, and a path that is known gets the
    new handler under the old number. *)
Definition get (path : string) (handler : Obj) (args : RouteArgs) : method unit :=
  let key := ("GET", path) in
  crud <-- m_lift (make_crud_spec (crud_table args) (crud_columns args));
  query_json <-- m_lift (resolve_schema_json (query_schema args));
  (λ a, match route_indices a !! key with
        | Some i =>
            try_tables (λ '(mk_tables h n c s sc sj q b),
              h ← update i handler h;
              n ← update i (default false (arg_native args)) n;
              c ← update i crud c;
              sc ← update i None sc;
              sj ← update i None sj;
              q ← update i query_json q;
              Ret (mk_tables h n c s sc sj q b)) a
        | None =>
            let id := handler_count a in
            (push_row handler (default false (arg_native args)) crud None query_json;;
             set_index key id;;
             insert_route "GET" path id) a
        end);;
  store_meta "GET" path None None args false;;
  name_route path args.

Definition no_args : RouteArgs :=
  mk_route_args None None None None None None None None None None None None None None None None None None None.

Definition sse_native (path : string) (count interval_ms : Z) (args : RouteArgs) : method unit :=
  let key := ("GET", path) in
  name_route path args;;
  (λ a, match route_indices a !! key with
        | Some i =>
            try_tables (λ '(mk_tables h n c s sc sj q b),
              h ← update i py_none h;
              s ← update i (Some (count, interval_ms)) s;
              Ret (mk_tables h n c s sc sj q b)) a
        | None =>
            let id := handler_count a in
            (push_row py_none false None (Some (count, interval_ms)) None;;
             set_index key id;;
             insert_route "GET" path id) a
        end);;
  store_meta "GET" path None None
    (mk_route_args None None None None None None (arg_tags args) (summary args) (description args) (deprecated args)
       None None None None (Some (default true (include_in_schema args))) None None None None) false.


(** ** Tools *)

Definition register_tool (name desc schema_json : string) (handler : Obj) : method unit := λ a,
  match from_str schema_json with
  | inl e => Ret (inl ("invalid tool schema: " +:+ e), a)
  | inr _ =>
      if existsb (λ t, String.eqb (tool_name t) name) (tools a)
      then Ret (inl ("tool '" +:+ name +:+ "' is already registered"), a)
      else Ret (inr tt, set_tools (tools a ++ [mk_tool name desc schema_json handler])%list a)
  end.

(** [list_tools]; [json.loads] of a schema that was accepted. *)
Definition list_tools (a : JustAPIApp) : list (string * string * string) :=
  (λ t, (tool_name t, tool_description t, tool_schema t)) <$> tools a.

(** [call_tool] up to the call: the handler and its keyword arguments; an
    argument that is no object means none. *)
Definition call_tool (name args_json : string) (a : JustAPIApp) : string + (Obj * list (string * json)) :=
  match find (λ t, String.eqb (tool_name t) name) (tools a) with
  | None => inl ("unknown tool '" +:+ name +:+ "'")
  | Some t =>
      match from_str args_json with
      | inl e => inl ("invalid tool args: " +:+ e)
      | inr j => inr (tool_handler t, default [] (as_object j))
      end
  end.

(** ** Sessions *)

Definition session_json (s : string) : string + json :=
  match from_str s with inl e => inl ("invalid session JSON: " +:+ e) | inr j => inr j end.

(** [fresh] is the UUID that is drawn when no id is given. *)
Definition create_session (fresh : string) (id initial_json : option string) : method string := λ a,
  match (match initial_json with Some s => session_json s | None => inr (JObject []) end) with
  | inl e => Ret (inl e, a)
  | inr v => let id := default fresh id in Ret (inr id, set_sessions (<[id := v]> (sessions a)) a)
  end.

Definition get_session `{!SerdeJson} (id : string) (a : JustAPIApp) : option string :=
  json_to_string <$> sessions a !! id.

Definition set_session (id s : string) : method bool := λ a,
  match session_json s with
  | inl e => Ret (inl e, a)
  | inr v =>
      match sessions a !! id with
      | Some _ => Ret (inr true, set_sessions (<[id := v]> (sessions a)) a)
      | None => Ret (inr false, a)
      end
  end.

(** A shallow merge of two objects; anything else is replaced. *)
Definition merge_session (existing incoming : json) : json :=
  match incoming, existing with
  | JObject inc, JObject ex => JObject (foldl (λ o kv, assoc_set kv.1 kv.2 o) ex inc)
  | _, _ => incoming
  end.

Definition update_session (id s : string) : method bool := λ a,
  match session_json s with
  | inl e => Ret (inl e, a)
  | inr v =>
      match sessions a !! id with
      | Some ex => Ret (inr true, set_sessions (<[id := merge_session ex v]> (sessions a)) a)
      | None => Ret (inr false, a)
      end
  end.

Definition delete_session (id : string) (a : JustAPIApp) : bool * JustAPIApp :=
  (bool_decide (is_Some (sessions a !! id)), set_sessions (base.delete id (sessions a)) a).

(** ** Named routes *)

(** The template's characters; [key] holds a placeholder that was opened. *)
Fixpoint fill_template (params : gmap string string) (key : option string) (t : string) : string :=
  match t, key with
  | EmptyString, None => EmptyString
  | EmptyString, Some k => match params !! k with Some v => v | None => "{" +:+ k +:+ "}" end
  | String c t', None =>
      if Ascii.eqb c "{" then fill_template params (Some "") t' else String c (fill_template params None t')
  | String c t', Some k =>
      if Ascii.eqb c "}"
      then String.append (match params !! k with Some v => v | None => "{" +:+ k +:+ "}" end) (fill_template params None t')
      else fill_template params (Some (String.append k (String c EmptyString))) t'
  end.

(** The keyword arguments come as strings. *)
Definition url_for (name : string) (params : gmap string string) (a : JustAPIApp) : string + string :=
  match named_routes a !! name with
  | None => inl ("No route named " +:+ quote +:+ name +:+ quote +:+ " is registered")
  | Some t => inr (fill_template params None t)
  end.

(** ** Settings *)

Definition modify_settings (f : Settings → Settings) (a : JustAPIApp) : JustAPIApp := set_settings (f (settings a)) a.

Definition enable_gateway (path : string) : JustAPIApp → JustAPIApp := modify_settings (λ s,
  mk_settings (plugins s) (Some path) (circuit_breaker_config s) (coalesce_headers s) (http3_files s) (secure_headers s)
    (secure_headers_config s) (health_checks s) (ws_routes s) (frontend_mounts s) (jwt_auth s) (cors s)).
Definition enable_circuit_breaker (failure_threshold reset_timeout_ms : Z) : JustAPIApp → JustAPIApp := modify_settings (λ s,
  mk_settings (plugins s) (gateway_config s) (Some (failure_threshold, reset_timeout_ms)) (coalesce_headers s)
    (http3_files s) (secure_headers s) (secure_headers_config s) (health_checks s) (ws_routes s) (frontend_mounts s)
    (jwt_auth s) (cors s)).
Definition enable_request_coalescing (headers : option (list string)) : JustAPIApp → JustAPIApp := modify_settings (λ s,
  mk_settings (plugins s) (gateway_config s) (circuit_breaker_config s) (Some (default [] headers)) (http3_files s)
    (secure_headers s) (secure_headers_config s) (health_checks s) (ws_routes s) (frontend_mounts s) (jwt_auth s) (cors s)).
Definition enable_http3 (cert key : string) : JustAPIApp → JustAPIApp := modify_settings (λ s,
  mk_settings (plugins s) (gateway_config s) (circuit_breaker_config s) (coalesce_headers s) (Some (cert, key))
    (secure_headers s) (secure_headers_config s) (health_checks s) (ws_routes s) (frontend_mounts s) (jwt_auth s) (cors s)).
Definition enable_secure_headers (with_hsts : option bool) : JustAPIApp → JustAPIApp := modify_settings (λ s,
  mk_settings (plugins s) (gateway_config s) (circuit_breaker_config s) (coalesce_headers s) (http3_files s) true
    (if default false with_hsts then Some (with_hsts_preload security_headers_default) else secure_headers_config s)
    (health_checks s) (ws_routes s) (frontend_mounts s) (jwt_auth s) (cors s)).
Definition register_health_check (name : string) (check : Obj) : JustAPIApp → JustAPIApp := modify_settings (λ s,
  mk_settings (plugins s) (gateway_config s) (circuit_breaker_config s) (coalesce_headers s) (http3_files s)
    (secure_headers s) (secure_headers_config s) (health_checks s ++ [(name, check)])%list (ws_routes s)
    (frontend_mounts s) (jwt_auth s) (cors s)).
Definition add_ws_route (path : string) (handler : Obj) : JustAPIApp → JustAPIApp := modify_settings (λ s,
  mk_settings (plugins s) (gateway_config s) (circuit_breaker_config s) (coalesce_headers s) (http3_files s)
    (secure_headers s) (secure_headers_config s) (health_checks s) (<[path := handler]> (ws_routes s))
    (frontend_mounts s) (jwt_auth s) (cors s)).
Definition add_mount (m : StaticMount) : JustAPIApp → JustAPIApp := modify_settings (λ s,
  mk_settings (plugins s) (gateway_config s) (circuit_breaker_config s) (coalesce_headers s) (http3_files s)
    (secure_headers s) (secure_headers_config s) (health_checks s) (ws_routes s) (frontend_mounts s ++ [m])%list
    (jwt_auth s) (cors s)).
Definition put_jwt (j : JwtAuth A) : JustAPIApp → JustAPIApp := modify_settings (λ s,
  mk_settings (plugins s) (gateway_config s) (circuit_breaker_config s) (coalesce_headers s) (http3_files s)
    (secure_headers s) (secure_headers_config s) (health_checks s) (ws_routes s) (frontend_mounts s) (Some j) (cors s)).
Definition put_cors (c : Cors) : JustAPIApp → JustAPIApp := modify_settings (λ s,
  mk_settings (plugins s) (gateway_config s) (circuit_breaker_config s) (coalesce_headers s) (http3_files s)
    (secure_headers s) (secure_headers_config s) (health_checks s) (ws_routes s) (frontend_mounts s) (jwt_auth s) (Some c)).

Definition websocket (path : string) (handler : Obj) : method unit := λ a,
  match ws_routes (settings a) !! path with
  | Some _ => Ret (inl ("WebSocket route already registered: " +:+ path), a)
  | None => Ret (inr tt, add_ws_route path handler a)
  end.

(** [is_dir] is what the file system says of the directory. *)
Definition frontend (is_dir : string → bool) (path directory : string) (fb : option string) (check_dir : bool)
    : method unit := λ a,
  if check_dir && negb (is_dir directory)
  then Ret (inl ("frontend directory does not exist or is not a directory: " +:+ directory), a)
  else Ret (inr tt, add_mount (mk_mount (if String.eqb path "" then "/" else path) directory fb) a).

(** The variant of [jsonwebtoken::Algorithm] a name stands for. *)
Definition jwt_algorithm (algorithm : option string) : string :=
  match algorithm with
  | Some n =>
      if existsb (String.eqb n) ["HS384"; "HS512"; "RS256"; "RS384"; "RS512"; "ES256"; "ES384"] then n
      else if existsb (String.eqb n) ["EdDSA"; "ED25519"] then "EdDSA" else "HS256"
  | None => "HS256"
  end.

Definition set_jwt_auth (variant : string → Middleware.algorithm) (secret : string) (alg : option string)
    : JustAPIApp → JustAPIApp :=
  put_jwt (with_algorithms [variant (jwt_algorithm alg)] (from_secret secret)).

Definition set_cors (origins methods headers : option (list string)) (credentials : option bool)
    (expose : option (list string)) (age : option Z) : JustAPIApp → JustAPIApp :=
  let c := match origins with
           | Some os => if decide (os = ["*"]) then cors_permissive else foldl (λ c o, allow_origin o c) cors_new os
           | None => cors_permissive
           end in
  let c := match methods with Some ms => with_allow_methods (join ", " ms) c | None => c end in
  let c := match headers with Some hs => with_allow_headers (join ", " hs) c | None => c end in
  let c := if default false credentials then with_allow_credentials c else c in
  let c := match expose with Some hs => with_expose_headers hs c | None => c end in
  let c := match age with Some n => with_max_age (decimal n) c | None => c end in
  put_cors c.
End app.

Arguments JustAPIApp Obj R A {JW}.
Arguments Tables : clear implicits.

(** ** Static routes: a router is a map *)

Section static_router.
Context {R T E : Type} `{!HttpRouter.Matchit R T E} `{!HttpRouter.MatchitLaws R T E} `{!HttpRouter.StaticRoutes R T E}.

Definition matches (f : string → option T) (mr : R) : Prop :=
  ∀ q, HttpRouter.static_path q = true → HttpRouter.m_at q mr = (λ h, (h, [])) <$> f q.

Definition routes_are (r : HttpRouter.Router R T) (t : gmap (string * string) T) : Prop :=
  ∀ m, matches (λ q, t !! (m, q)) (default HttpRouter.m_empty (HttpRouter.routes r !! m)).

Lemma matches_empty : matches (λ _, None) HttpRouter.m_empty.
Proof. intros q _. apply HttpRouter.at_empty. Qed.

Lemma matches_insert f mr p h mr' e :
  matches f mr → HttpRouter.static_path p = true → HttpRouter.m_insert p h mr = (mr', e) →
  match f p with
  | Some _ => is_Some e ∧ matches f mr'
  | None => e = None ∧ matches (λ q, if decide (q = p) then Some h else f q) mr'
  end.
Proof.
  intros Hf Hp Hins. pose proof (Hf p Hp) as Hfp. destruct (f p) as [h0|] eqn:Hfp'; simpl in Hfp.
  - destruct (HttpRouter.insert_twice p h h0 mr Hp Hfp) as [e' He]. rewrite Hins in He. simpl in He. subst e.
    split; [by eexists|]. intros q Hq. rewrite (HttpRouter.at_insert_failed _ _ _ _ _ q Hins). by apply Hf.
  - pose proof (HttpRouter.insert_fresh p h mr Hp Hfp) as He. rewrite Hins in He. simpl in He. subst e.
    split; [done|]. intros q Hq. destruct (decide (q = p)) as [->|Hne]; [by apply (HttpRouter.at_insert_static _ _ _ _ Hp Hins)|].
    pose proof (Hf q Hq) as Hfq. destruct (f q) as [hq|]; simpl in Hfq |- *.
    + by eapply (HttpRouter.at_insert_other p q); [done| |done|exact Hins].
    + pose proof (HttpRouter.at_insert_absent p q h mr Hp Hq (not_eq_sym Hne) Hfq) as Ha. by rewrite Hins in Ha.
Qed.

(** A GET route is one for HEAD too, if HEAD has none. *)
Definition route_add (m p : string) (h : T) (t : gmap (string * string) T) : gmap (string * string) T :=
  let t := <[(m, p) := h]> t in
  if String.eqb m "GET" then match t !! ("HEAD", p) with Some _ => t | None => <[("HEAD", p) := h]> t end else t.

Lemma routes_lookup_insert (rs : gmap string R) (m : string) (mr : R) (m' : string) :
  default HttpRouter.m_empty (<[m := mr]> rs !! m') = if decide (m' = m) then mr else default HttpRouter.m_empty (rs !! m').
Proof. destruct (decide (m' = m)) as [->|Hne]; [by rewrite lookup_insert_eq|by rewrite lookup_insert_ne]. Qed.

Lemma matches_ext f g mr : (∀ q, f q = g q) → matches f mr → matches g mr.
Proof. intros Hfg Hf q Hq. rewrite <- Hfg. by apply Hf. Qed.

Lemma lookup_insert_pair (t : gmap (string * string) T) m p h m' q :
  <[(m, p) := h]> t !! (m', q) = if decide (m' = m) then if decide (q = p) then Some h else t !! (m', q) else t !! (m', q).
Proof.
  destruct (decide (m' = m)) as [->|]; [destruct (decide (q = p)) as [->|]|].
  - by rewrite lookup_insert_eq.
  - rewrite lookup_insert_ne by congruence. done.
  - rewrite lookup_insert_ne by congruence. done.
Qed.

Lemma insert_static r t m p h e r' :
  routes_are r t → HttpRouter.static_path p = true → HttpRouter.insert m p h r = (e, r') →
  match t !! (m, p) with
  | Some _ => is_Some e ∧ routes_are r' t
  | None => e = None ∧ routes_are r' (route_add m p h t)
  end.
Proof.
  intros Hr Hp. unfold HttpRouter.insert.
  destruct (HttpRouter.m_insert p h _) as [mr e1] eqn:Hins.
  pose proof (matches_insert _ _ _ _ _ _ (Hr m) Hp Hins) as Hm. simpl in Hm.
  destruct (t !! (m, p)) as [h0|] eqn:Ht.
  - destruct Hm as [[e0 ->] Hm]. intros [= <- <-]. split; [by eexists|]. intros m'. simpl. rewrite routes_lookup_insert.
    destruct (decide (m' = m)) as [->|]; [done|apply Hr].
  - destruct Hm as [-> Hm]. unfold route_add.
    assert (∀ m', matches (λ q, <[(m, p):=h]> t !! (m', q)) (default HttpRouter.m_empty (<[m := mr]> (HttpRouter.routes r) !! m'))) as Hm1.
    { intros m'. rewrite routes_lookup_insert. destruct (decide (m' = m)) as [->|Hne].
      - eapply matches_ext; [|exact Hm]. intros q. simpl. rewrite lookup_insert_pair. by rewrite (decide_True (P := m = m)) by done.
      - eapply matches_ext; [|apply Hr]. intros q. simpl. by rewrite lookup_insert_pair, decide_False. }
    destruct (String.eqb_spec m HttpRouter.GET) as [->|Hget].
    + destruct (HttpRouter.m_insert p h (default _ (<[_ := mr]> _ !! HttpRouter.HEAD))) as [hd e2] eqn:Hh.
      intros [= <- <-]. split; [done|].
      pose proof (matches_insert _ _ _ _ _ _ (Hm1 HttpRouter.HEAD) Hp Hh) as Hhd. simpl in Hhd.
      unfold HttpRouter.HEAD, HttpRouter.GET in *. intros m'. simpl. rewrite routes_lookup_insert.
      destruct (<[("GET", p):=h]> t !! ("HEAD", p)) as [h1|] eqn:Ht1; destruct Hhd as [_ Hhd].
      * destruct (decide (m' = "HEAD")) as [->|]; [done|apply Hm1].
      * destruct (decide (m' = "HEAD")) as [->|Hne].
        -- eapply matches_ext; [|exact Hhd]. intros q. cbv beta. rewrite (lookup_insert_pair _ "HEAD").
           by rewrite (decide_True (P := "HEAD" = "HEAD")) by done.
        -- eapply matches_ext; [|apply Hm1]. intros q. cbv beta. rewrite (lookup_insert_pair _ "HEAD").
           by rewrite (decide_False (P := m' = "HEAD")) by done.
    + intros [= <- <-]. split; [done|]. rewrite (proj2 (String.eqb_neq m "GET")) by done. exact Hm1.
Qed.

Lemma routes_are_at r t m p :
  routes_are r t → HttpRouter.static_path p = true →
  HttpRouter.routes r !! m ≫= HttpRouter.m_at p = (λ h, (h, [])) <$> t !! (m, p).
Proof.
  intros Hr Hp. specialize (Hr m p Hp). destruct (HttpRouter.routes r !! m); simpl in *; [done|].
  rewrite <- Hr. symmetry. apply HttpRouter.at_empty.
Qed.
End static_router.

(** ** Registration fills one map *)

Section registration.
Context {Obj R E A : Type} `{!PyObject Obj} `{!HttpRouter.Matchit R nat E} {JW : JsonWebToken A}.
Context (from_str : string → string + json) (err_text : E → string).

Abbreviation App := (JustAPIApp Obj R A).

(** Everything that is kept for one route. *)
Record Row := mk_row {
  r_handler : Obj; r_native : bool; r_crud : option CrudConfig; r_sse : option (Z * Z); r_schema : option Obj;
  r_schema_json : option string; r_query_json : option string; r_batch : option (Z * Z) }.

Definition tables_of (rows : list Row) : Tables Obj :=
  mk_tables (r_handler <$> rows) (r_native <$> rows) (r_crud <$> rows) (r_sse <$> rows) (r_schema <$> rows)
    (r_schema_json <$> rows) (r_query_json <$> rows) (r_batch <$> rows).

(** What a request for a method and a path finds in the router and the tables. *)
Definition row_at (t : Tables Obj) (i : nat) : option Row :=
  h ← t_handlers t !! i; n ← t_native t !! i; c ← t_crud t !! i; s ← t_sse t !! i; sc ← t_schemas t !! i;
  sj ← t_schema_jsons t !! i; q ← t_query_jsons t !! i; b ← t_batch t !! i; Some (mk_row h n c s sc sj q b).

Definition served (a : App) (m p : string) : option Row :=
  match HttpRouter.at_ m p (app_router a) with
  | inl (i, []) => row_at (tables a) i
  | _ => None
  end.

(** The calls of the Python class. *)
Inductive Call :=
| CPost (path : string) (h : Obj) (args : RouteArgs (Obj := Obj))
| CPut (path : string) (h : Obj) (args : RouteArgs (Obj := Obj))
| CPatch (path : string) (h : Obj) (args : RouteArgs (Obj := Obj))
| CQuery (path : string) (h : Obj) (args : RouteArgs (Obj := Obj))
| CDelete (path : string) (h : Obj) (args : RouteArgs (Obj := Obj))
| CHead (path : string) (h : Obj) (args : RouteArgs (Obj := Obj))
| COptions (path : string) (h : Obj) (args : RouteArgs (Obj := Obj))
| CTrace (path : string) (h : Obj) (args : RouteArgs (Obj := Obj))
| CGet (path : string) (h : Obj) (args : RouteArgs (Obj := Obj))
| CSse (path : string) (count interval : Z) (args : RouteArgs (Obj := Obj)).

Definition call (c : Call) : App → exec ((string + unit) * App) :=
  match c with
  | CPost p h args => post from_str err_text p h args
  | CPut p h args => put from_str err_text p h args
  | CPatch p h args => patch from_str err_text p h args
  | CQuery p h args => query from_str err_text p h args
  | CDelete p h args => delete from_str err_text p h args
  | CHead p h args => head from_str err_text p h args
  | COptions p h args => options from_str err_text p h args
  | CTrace p h args => trace from_str err_text p h args
  | CGet p h args => get from_str err_text p h args
  | CSse p count interval args => sse_native from_str err_text p count interval args
  end.

(** A script that goes on after an exception. *)
Fixpoint calls (cs : list Call) (a : App) : exec (list (string + unit) * App) :=
  match cs with
  | [] => Ret ([], a)
  | c :: cs' =>
      '(r, a) ← call c a;
      '(rs, a) ← calls cs' a;
      Ret (r :: rs, a)
  end.

(** *** The specification: rows, and a map to their numbers *)

Record Spec := mk_spec { sp_rows : list Row; sp_ids : gmap (string * string) nat }.

Definition spec_new : Spec := mk_spec [] ∅.

Definition spec_served (s : Spec) (m p : string) : option Row := sp_ids s !! (m, p) ≫= λ i, sp_rows s !! i.

(** A new row, which a route that is taken does not get. *)
Definition spec_add (m p : string) (row : Row) (s : Spec) : bool * Spec :=
  match sp_ids s !! (m, p) with
  | Some _ => (false, mk_spec (sp_rows s ++ [row])%list (sp_ids s))
  | None => (true, mk_spec (sp_rows s ++ [row])%list (route_add m p (length (sp_rows s)) (sp_ids s)))
  end.

(** A GET route that is known keeps its number. *)
Definition spec_get (p : string) (row : Row) (over : Row → Row) (s : Spec) : bool * Spec :=
  match sp_ids s !! ("GET", p) with
  | Some i => (true, mk_spec (alter over i (sp_rows s)) (sp_ids s))
  | None => spec_add "GET" p row s
  end.

(** The arguments that can be looked up. *)
Record Resolved := mk_resolved { rv_crud : option CrudConfig; rv_schema : option string; rv_query : option string }.

Definition resolve_args (args : RouteArgs (Obj := Obj)) : option Resolved :=
  match make_crud_spec (crud_table args) (crud_columns args), resolve_schema_json (schema args),
        resolve_schema_json (query_schema args) with
  | inr c, inr sj, inr q => Some (mk_resolved c sj q)
  | _, _, _ => None
  end.

Definition call_path (c : Call) : string :=
  match c with
  | CPost p _ _ | CPut p _ _ | CPatch p _ _ | CQuery p _ _ | CDelete p _ _ | CHead p _ _ | COptions p _ _
  | CTrace p _ _ | CGet p _ _ | CSse p _ _ _ => p
  end.

Definition call_args (c : Call) : RouteArgs :=
  match c with
  | CPost _ _ a | CPut _ _ a | CPatch _ _ a | CQuery _ _ a | CDelete _ _ a | CHead _ _ a | COptions _ _ a
  | CTrace _ _ a | CGet _ _ a | CSse _ _ _ a => a
  end.

Definition native_of (args : RouteArgs (Obj := Obj)) : bool := default false (arg_native args).

(** The rows of a method with a body, of one without, and of GET. *)
Definition body_row (batched : bool) (h : Obj) (args : RouteArgs) (rv : Resolved) : Row :=
  mk_row h (native_of args) (rv_crud rv) None (body_schema args) (rv_schema rv) (rv_query rv)
    (if batched then (λ s, (s, default 10%Z (batch_window_ms args))) <$> batch_size args else None).
Definition plain_row (h : Obj) (args : RouteArgs) (rv : Resolved) : Row :=
  mk_row h (native_of args) (rv_crud rv) None None None (rv_query rv) None.
Definition get_over (h : Obj) (args : RouteArgs) (rv : Resolved) (old : Row) : Row :=
  mk_row h (native_of args) (rv_crud rv) (r_sse old) None None (rv_query rv) (r_batch old).
Definition sse_row (count interval : Z) : Row := mk_row py_none false None (Some (count, interval)) None None None None.
Definition sse_over (count interval : Z) (old : Row) : Row :=
  mk_row py_none (r_native old) (r_crud old) (Some (count, interval)) (r_schema old) (r_schema_json old)
    (r_query_json old) (r_batch old).

Definition spec_call (c : Call) (rv : Resolved) (s : Spec) : bool * Spec :=
  match c with
  | CPost p h args => spec_add "POST" p (body_row true h args rv) s
  | CPut p h args => spec_add "PUT" p (body_row true h args rv) s
  | CPatch p h args => spec_add "PATCH" p (body_row true h args rv) s
  | CQuery p h args => spec_add query_method p (body_row false h args rv) s
  | CDelete p h args => spec_add "DELETE" p (plain_row h args rv) s
  | CHead p h args => spec_add "HEAD" p (plain_row h args rv) s
  | COptions p h args => spec_add "OPTIONS" p (plain_row h args rv) s
  | CTrace p h args => spec_add "TRACE" p (plain_row h args rv) s
  | CGet p h args => spec_get p (plain_row h args rv) (get_over h args rv) s
  | CSse p count interval args => spec_get p (sse_row count interval) (sse_over count interval) s
  end.

(** Every call is of a static path, with arguments that can be looked up. *)
Definition call_ok (c : Call) (rv : Resolved) : Prop :=
  HttpRouter.static_path (call_path c) = true ∧ resolve_args (call_args c) = Some rv.

Fixpoint spec_calls (cs : list (Call * Resolved)) (s : Spec) : list bool * Spec :=
  match cs with
  | [] => ([], s)
  | (c, rv) :: cs' =>
      let '(b, s) := spec_call c rv s in
      let '(bs, s) := spec_calls cs' s in
      (b :: bs, s)
  end.

(** *** The object refines it *)

Context `{!HttpRouter.MatchitLaws R nat E} `{!HttpRouter.StaticRoutes R nat E}.

Record refines (a : App) (s : Spec) : Prop := {
  rf_tables : tables a = tables_of (sp_rows s);
  rf_router : routes_are (app_router a) (sp_ids s);
  rf_indices p : HttpRouter.static_path p = true → route_indices a !! ("GET", p) = sp_ids s !! ("GET", p);
  rf_ids k i : sp_ids s !! k = Some i → i < length (sp_rows s) }.

Definition is_inr {X Y} (r : X + Y) : bool := match r with inr _ => true | inl _ => false end.

Lemma refines_new : refines app_new spec_new.
Proof.
  constructor; simpl.
  - done.
  - intros m. simpl. rewrite lookup_empty. simpl. eapply matches_ext; [|apply matches_empty].
    intros q. by rewrite lookup_empty.
  - intros p _. by rewrite !lookup_empty.
  - intros k i. by rewrite lookup_empty.
Qed.

Lemma handler_count_rows (a : App) s : refines a s → handler_count a = length (sp_rows s).
Proof. intros Hr. unfold handler_count. rewrite (rf_tables _ _ Hr). simpl. apply length_fmap. Qed.

Lemma route_add_other (m p : string) (i : nat) (t : gmap (string * string) nat) (q : string) :
  m ≠ "GET" → route_add m p i t !! ("GET", q) = t !! ("GET", q).
Proof.
  intros Hm. unfold route_add. rewrite (proj2 (String.eqb_neq m "GET")) by done. apply lookup_insert_ne. congruence.
Qed.

Lemma route_add_get (p : string) (i : nat) (t : gmap (string * string) nat) (q : string) :
  route_add "GET" p i t !! ("GET", q) = if decide (q = p) then Some i else t !! ("GET", q).
Proof.
  unfold route_add. rewrite String.eqb_refl.
  assert (<[("GET", p) := i]> t !! ("GET", q) = if decide (q = p) then Some i else t !! ("GET", q)) as Heq.
  { destruct (decide (q = p)) as [->|]; [by rewrite lookup_insert_eq|]. apply lookup_insert_ne. congruence. }
  destruct (_ !! ("HEAD", p)); [done|]. rewrite lookup_insert_ne by congruence. done.
Qed.

Lemma route_add_bound (m p : string) (i : nat) (t : gmap (string * string) nat) k (j : nat) :
  route_add m p i t !! k = Some j → j = i ∨ t !! k = Some j.
Proof.
  unfold route_add.
  assert (∀ k0 (t0 : gmap (string * string) nat), <[k0 := i]> t0 !! k = Some j → j = i ∨ t0 !! k = Some j) as Hi.
  { intros k0 t0. destruct (decide (k0 = k)) as [->|]; [rewrite lookup_insert_eq; naive_solver|].
    rewrite lookup_insert_ne by done. by right. }
  destruct (String.eqb m "GET"); [destruct (_ !! ("HEAD", p))|]; intros Hk; apply Hi in Hk; try done.
  destruct Hk as [?|Hk]; [by left|]. by apply Hi in Hk.
Qed.

Definition same_routes (a a1 : App) : Prop := app_router a1 = app_router a ∧ route_indices a1 = route_indices a.

Lemma resolve_args_inv args rv :
  resolve_args args = Some rv →
  make_crud_spec (crud_table args) (crud_columns args) = inr (rv_crud rv) ∧
  resolve_schema_json (schema args) = inr (rv_schema rv) ∧ resolve_schema_json (query_schema args) = inr (rv_query rv).
Proof.
  unfold resolve_args. destruct (make_crud_spec _ _), (resolve_schema_json (schema args)), (resolve_schema_json (query_schema args));
    try done. by intros [= <-].
Qed.

Lemma name_route_tables path args (a : App) :
  ∃ a1, name_route path args a = Ret (inr tt, a1) ∧ tables a1 = tables a ∧ same_routes a a1.
Proof. unfold name_route. destruct (arg_name args); by eexists. Qed.

Lemma body_effect m p h args rv (a : App) rows :
  tables a = tables_of rows → resolve_args args = Some rv →
  ∃ a1, register_body from_str err_text m p h args a = insert_route err_text m p (length rows) a1 ∧
        tables a1 = tables_of (rows ++ [body_row true h args rv]) ∧ same_routes a a1.
Proof.
  intros Ht (Hc & Hs & Hq)%resolve_args_inv. destruct a as [r t me na ix to se st]. simpl in Ht. subst t.
  unfold register_body. unfold m_bind, m_lift, on_tables, push_handler, push_native. cbn.
  rewrite Hc. cbn. rewrite Hs. cbn. rewrite Hq. cbn. rewrite length_fmap.
  match goal with |- context [name_route p args ?a0] =>
    destruct (name_route_tables p args a0) as (a1 & -> & Ht1 & Hr1) end.
  exists a1. split; [done|]. split; [|done]. rewrite Ht1. cbn. unfold tables_of. rewrite !fmap_app. done.
Qed.

Lemma query_effect p h args rv (a : App) rows :
  tables a = tables_of rows → resolve_args args = Some rv →
  ∃ a1, query from_str err_text p h args a = insert_route err_text query_method p (length rows) a1 ∧
        tables a1 = tables_of (rows ++ [body_row false h args rv]) ∧ same_routes a a1.
Proof.
  intros Ht (Hc & Hs & Hq)%resolve_args_inv. destruct a as [r t me na ix to se st]. simpl in Ht. subst t.
  unfold query. unfold m_bind, m_lift, on_tables, push_handler, push_native. cbn.
  rewrite Hc. cbn. rewrite Hs. cbn. rewrite Hq. cbn. rewrite length_fmap.
  match goal with |- context [name_route p args ?a0] =>
    destruct (name_route_tables p args a0) as (a1 & -> & Ht1 & Hr1) end.
  eexists. split; [done|]. cbn. split; [|done]. rewrite Ht1. cbn. unfold tables_of. rewrite !fmap_app. done.
Qed.

Lemma plain_effect m p h args rv (a : App) rows :
  tables a = tables_of rows → resolve_args args = Some rv →
  ∃ a1, register_plain from_str err_text m p h args a = insert_route err_text m p (length rows) a1 ∧
        tables a1 = tables_of (rows ++ [plain_row h args rv]) ∧ same_routes a a1.
Proof.
  intros Ht (Hc & _ & Hq)%resolve_args_inv. destruct a as [r t me na ix to se st]. simpl in Ht. subst t.
  unfold register_plain. unfold m_bind, m_lift, on_tables, push_handler, push_native. cbn.
  rewrite Hc. cbn. rewrite Hq. cbn. rewrite length_fmap.
  match goal with |- context [name_route p args ?a0] =>
    destruct (name_route_tables p args a0) as (a1 & -> & Ht1 & Hr1) end.
  exists a1. split; [done|]. split; [|done]. rewrite Ht1. cbn. unfold tables_of. rewrite !fmap_app. done.
Qed.

(** The router takes the new number, or the row stays unused. *)
Lemma insert_refines m p row a a1 s :
  refines a s → HttpRouter.static_path p = true → m ≠ "GET" →
  tables a1 = tables_of (sp_rows s ++ [row]) → same_routes a a1 →
  ∃ r a2, insert_route err_text m p (length (sp_rows s)) a1 = Ret (r, a2) ∧
    is_inr r = (spec_add m p row s).1 ∧ refines a2 (spec_add m p row s).2.
Proof.
  intros Hr Hp Hm Ht [Hrt Hix]. unfold insert_route. rewrite Hrt.
  destruct (HttpRouter.insert m p _ (app_router a)) as [e r'] eqn:Hins.
  pose proof (insert_static _ _ _ _ _ _ _ (rf_router _ _ Hr) Hp Hins) as Hs. eexists _, _. split; [done|].
  unfold spec_add. destruct (sp_ids s !! (m, p)) as [i|]; simpl.
  - destruct Hs as [[e' ->] Hs]. split; [done|]. constructor; simpl; [done|done| |].
    + intros q Hq. rewrite Hix. by apply (rf_indices _ _ Hr).
    + intros k j Hk%(rf_ids _ _ Hr). rewrite length_app. lia.
  - destruct Hs as [-> Hs]. split; [done|]. constructor; simpl; [done|done| |].
    + intros q Hq. rewrite Hix, route_add_other by done. by apply (rf_indices _ _ Hr).
    + intros k j Hk%route_add_bound. rewrite length_app. simpl. destruct Hk as [->|Hk%(rf_ids _ _ Hr)]; lia.
Qed.

(** *** GET routes *)

Lemma update_alter {X} (f : Row → X) (over : Row → Row) (x : X) (i : nat) (rows : list Row) :
  i < length rows → (∀ r, f (over r) = x) → update i x (f <$> rows) = Ret (f <$> alter over i rows).
Proof.
  intros Hi Hf. unfold update. rewrite length_fmap, (proj2 (Nat.ltb_lt _ _)) by done. f_equal.
  apply list_eq. intros j. rewrite list_lookup_fmap. destruct (decide (i = j)) as [<-|Hne].
  - rewrite list_lookup_insert_eq by (by rewrite length_fmap). rewrite list_lookup_alter_eq.
    destruct (lookup_lt_is_Some_2 rows i Hi) as [r ->]. simpl. by rewrite Hf.
  - rewrite list_lookup_insert_ne, list_lookup_alter_ne by done. by rewrite list_lookup_fmap.
Qed.

Lemma fmap_alter_same {X} (f : Row → X) (over : Row → Row) (i : nat) (rows : list Row) : (∀ r, f (over r) = f r) → f <$> alter over i rows = f <$> rows.
Proof.
  intros Hf. apply list_eq. intros j. rewrite !list_lookup_fmap. destruct (decide (i = j)) as [<-|Hne].
  - rewrite list_lookup_alter_eq. destruct (rows !! i); simpl; [by rewrite Hf|done].
  - by rewrite list_lookup_alter_ne.
Qed.

(** A step that keeps the router and the numbers. *)
Lemma refines_same a a1 s : refines a s → tables a1 = tables a → same_routes a a1 → refines a1 s.
Proof.
  intros [Ha Hb Hc Hd] Ht [Hr Hi]. constructor; [congruence|by rewrite Hr| |done]. intros p Hp. rewrite Hi. by apply Hc.
Qed.

Lemma refines_alter a a1 s i over :
  refines a s → tables a1 = tables_of (alter over i (sp_rows s)) → same_routes a a1 →
  refines a1 (mk_spec (alter over i (sp_rows s)) (sp_ids s)).
Proof.
  intros [Ha Hb Hc Hd] Ht [Hr Hi]. constructor; simpl; [done|by rewrite Hr| |].
  - intros p Hp. rewrite Hi. by apply Hc.
  - intros k j Hk. rewrite length_alter. by apply (Hd k).
Qed.

(** A new GET route is always taken. *)
Lemma new_get_step p row a s :
  refines a s → HttpRouter.static_path p = true → sp_ids s !! ("GET", p) = None →
  r_schema row = None → r_schema_json row = None → r_batch row = None →
  ∃ a2, (m_bind (push_row (r_handler row) (r_native row) (r_crud row) (r_sse row) (r_query_json row)) (λ _,
         m_bind (set_index ("GET", p) (handler_count a)) (λ _,
         insert_route err_text "GET" p (handler_count a)))) a = Ret (inr tt, a2) ∧
    spec_add "GET" p row s = (true, (spec_add "GET" p row s).2) ∧ refines a2 (spec_add "GET" p row s).2.
Proof.
  intros Hr Hp Hnone Hsc Hsj Hb. rewrite (handler_count_rows a s Hr).
  destruct (HttpRouter.insert "GET" p (length (sp_rows s)) (app_router a)) as [e r'] eqn:Hins.
  pose proof (insert_static _ _ _ _ _ _ _ (rf_router _ _ Hr) Hp Hins) as Hs. rewrite Hnone in Hs. destruct Hs as [-> Hs].
  pose proof (rf_tables _ _ Hr) as Ht. destruct a as [r t me na ix to se st]. simpl in Ht. subst t. simpl in Hins.
  unfold m_bind, push_row, on_tables, m_bind, set_index, m_modify, insert_route. cbn. rewrite Hins.
  eexists. split; [done|]. unfold spec_add. rewrite Hnone. split; [done|]. constructor; simpl.
  - unfold tables_of. rewrite !fmap_app. by destruct row; simpl in *; subst.
  - done.
  - intros q Hq. rewrite route_add_get. destruct (decide (q = p)) as [->|Hne]; [by rewrite lookup_insert_eq|].
    rewrite lookup_insert_ne by congruence. by apply (rf_indices _ _ Hr).
  - intros k j Hk%route_add_bound. rewrite length_app. simpl. destruct Hk as [->|Hk%(rf_ids _ _ Hr)]; simpl in *; lia.
Qed.

Lemma bind_ret {X Y} (m : App → exec ((string + X) * App)) (k : X → App → exec ((string + Y) * App)) a x a1 :
  m a = Ret (inr x, a1) → m_bind m k a = k x a1.
Proof. unfold m_bind. by intros ->. Qed.

Lemma meta_and_name m p args args' b (a : App) :
  ∃ a1, m_bind (store_meta from_str m p None None args b) (λ _, name_route p args') a = Ret (inr tt, a1) ∧
        tables a1 = tables a ∧ same_routes a a1.
Proof.
  unfold m_bind, store_meta, m_modify. match goal with |- context [name_route p args' ?a0] =>
    destruct (name_route_tables p args' a0) as (a1 & -> & Ht & Hr) end. by exists a1.
Qed.

Lemma get_step p h args rv a s :
  refines a s → HttpRouter.static_path p = true → resolve_args args = Some rv →
  ∃ r a2, get from_str err_text p h args a = Ret (r, a2) ∧
    is_inr r = (spec_get p (plain_row h args rv) (get_over h args rv) s).1 ∧
    refines a2 (spec_get p (plain_row h args rv) (get_over h args rv) s).2.
Proof.
  intros Hr Hp (Hc & _ & Hq)%resolve_args_inv. unfold get.
  rewrite (bind_ret _ _ a (rv_crud rv) a) by (unfold m_lift; by rewrite Hc).
  rewrite (bind_ret _ _ a (rv_query rv) a) by (unfold m_lift; by rewrite Hq). unfold spec_get.
  destruct (sp_ids s !! ("GET", p)) as [i|] eqn:Hi.
  - set (over := get_over h args rv). assert (i < length (sp_rows s)) as Hlt by by apply (rf_ids _ _ Hr _ _ Hi).
    rewrite (bind_ret _ _ a tt (set_tables (tables_of (alter over i (sp_rows s))) a)).
    + destruct (meta_and_name "GET" p args args false (set_tables (tables_of (alter over i (sp_rows s))) a))
        as (a1 & -> & Ht & Hs). exists (inr tt), a1. split; [done|]. split; [done|]. by apply (refines_alter a).
    + rewrite (rf_indices _ _ Hr p Hp), Hi. unfold try_tables. rewrite (rf_tables _ _ Hr). cbn [tables_of].
      rewrite (update_alter r_handler over h), (update_alter r_native over (native_of args)),
        (update_alter r_crud over (rv_crud rv)), (update_alter r_schema over None),
        (update_alter r_schema_json over None), (update_alter r_query_json over (rv_query rv)) by done.
      cbn [mbind exec_bind]. unfold tables_of. by rewrite (fmap_alter_same r_sse), (fmap_alter_same r_batch) by done.
  - destruct (new_get_step p (plain_row h args rv) a s Hr Hp Hi eq_refl eq_refl eq_refl) as (a1 & Hrun & -> & Hr1).
    rewrite (bind_ret _ _ a tt a1) by (rewrite (rf_indices _ _ Hr p Hp), Hi; exact Hrun).
    destruct (meta_and_name "GET" p args args false a1) as (a2 & -> & Ht & Hs).
    exists (inr tt), a2. split; [done|]. split; [done|]. by apply (refines_same a1).
Qed.

Lemma sse_step p count interval args a s :
  refines a s → HttpRouter.static_path p = true →
  ∃ r a2, sse_native from_str err_text p count interval args a = Ret (r, a2) ∧
    is_inr r = (spec_get p (sse_row count interval) (sse_over count interval) s).1 ∧
    refines a2 (spec_get p (sse_row count interval) (sse_over count interval) s).2.
Proof.
  intros Hr Hp. unfold sse_native. destruct (name_route_tables p args a) as (a0 & Hn & Ht0 & Hs0).
  rewrite (bind_ret _ _ a tt a0 Hn). apply (refines_same a a0) in Hr; [|done..]. clear Hn Ht0 Hs0 a.
  unfold spec_get. destruct (sp_ids s !! ("GET", p)) as [i|] eqn:Hi.
  - set (over := sse_over count interval). assert (i < length (sp_rows s)) as Hlt by by apply (rf_ids _ _ Hr _ _ Hi).
    rewrite (bind_ret _ _ a0 tt (set_tables (tables_of (alter over i (sp_rows s))) a0)).
    + eexists _, _. split; [done|]. split; [done|]. by apply (refines_alter a0).
    + rewrite (rf_indices _ _ Hr p Hp), Hi. unfold try_tables. rewrite (rf_tables _ _ Hr). cbn [tables_of].
      rewrite (update_alter r_handler over py_none), (update_alter r_sse over (Some (count, interval))) by done.
      cbn [mbind exec_bind]. unfold tables_of. by rewrite (fmap_alter_same r_native), (fmap_alter_same r_crud),
        (fmap_alter_same r_schema), (fmap_alter_same r_schema_json), (fmap_alter_same r_query_json),
        (fmap_alter_same r_batch) by done.
  - destruct (new_get_step p (sse_row count interval) a0 s Hr Hp Hi eq_refl eq_refl eq_refl) as (a1 & Hrun & -> & Hr1).
    rewrite (bind_ret _ _ a0 tt a1) by (rewrite (rf_indices _ _ Hr p Hp), Hi; exact Hrun).
    eexists _, _. split; [done|]. split; [done|]. by apply (refines_same a1).
Qed.

Ltac by_insert effect :=
  let a1 := fresh in let Heq := fresh in let Ht1 := fresh in let Hs1 := fresh in
  destruct effect as (a1 & Heq & Ht1 & Hs1); unfold post, put, patch, delete, head, options, trace; rewrite Heq;
  match goal with Hr : refines ?a ?s |- _ => by apply (insert_refines _ _ _ a a1 s) end.

Lemma call_step c rv a s :
  refines a s → call_ok c rv →
  ∃ r a2, call c a = Ret (r, a2) ∧ is_inr r = (spec_call c rv s).1 ∧ refines a2 (spec_call c rv s).2.
Proof.
  intros Hr [Hp Hrv]. pose proof (rf_tables _ _ Hr) as Ht. destruct c as [p h args|p h args|p h args|p h args|p h args|p h args|p h args|p h args|p h args|p n ms args];
    cbn [call_path call_args] in Hp, Hrv; cbn [call spec_call];
    [| | | | | | | |by apply get_step|by apply sse_step].
  - by_insert (body_effect "POST" p h args rv a _ Ht Hrv).
  - by_insert (body_effect "PUT" p h args rv a _ Ht Hrv).
  - by_insert (body_effect "PATCH" p h args rv a _ Ht Hrv).
  - by_insert (query_effect p h args rv a _ Ht Hrv).
  - by_insert (plain_effect "DELETE" p h args rv a _ Ht Hrv).
  - by_insert (plain_effect "HEAD" p h args rv a _ Ht Hrv).
  - by_insert (plain_effect "OPTIONS" p h args rv a _ Ht Hrv).
  - by_insert (plain_effect "TRACE" p h args rv a _ Ht Hrv).
Qed.

Lemma calls_step cs a s :
  refines a s → Forall (λ crv : Call * Resolved, call_ok crv.1 crv.2) cs →
  ∃ rs a2, calls cs.*1 a = Ret (rs, a2) ∧ is_inr <$> rs = (spec_calls cs s).1 ∧ refines a2 (spec_calls cs s).2.
Proof.
  intros Hr Hok. revert a s Hr. induction Hok as [|[c rv] cs Hc Hok IH]; intros a s Hr; [by eexists [], a|].
  cbn [fmap list_fmap fst snd calls spec_calls] in *. destruct (call_step c rv a s Hr Hc) as (r & a1 & -> & Hb & Hr1).
  cbn [mbind exec_bind]. destruct (IH a1 _ Hr1) as (rs & a2 & -> & Hbs & Hr2). cbn [mbind exec_bind].
  eexists _, _. split; [done|]. destruct (spec_call c rv s) as [b s1]. simpl in Hb, Hbs, Hr2.
  destruct (spec_calls cs s1) as [bs s2]. simpl in *. split; [by f_equal|done].
Qed.

Lemma row_at_tables rows i : row_at (tables_of rows) i = rows !! i.
Proof.
  unfold row_at, tables_of. simpl. rewrite !list_lookup_fmap. destruct (rows !! i) as [row|]; [|done]. by destruct row.
Qed.

(** C14: Registration fills one map.  A script that registers routes of static
    paths with arguments that can be looked up, going on after errors, never
    panics; its calls succeed or raise as those of one map from method and path
    to a route do, where a GET route may be replaced and no other; and what a
    request for a method and a path then finds, in the router and in all the
    tables, is what the map holds. *)
Theorem registration_refines_map cs :
  Forall (λ crv : Call * Resolved, call_ok crv.1 crv.2) cs →
  ∃ rs a, calls cs.*1 app_new = Ret (rs, a) ∧ is_inr <$> rs = (spec_calls cs spec_new).1 ∧
    ∀ m p, HttpRouter.static_path p = true → served a m p = spec_served (spec_calls cs spec_new).2 m p.
Proof.
  intros Hok. destruct (calls_step cs app_new spec_new refines_new Hok) as (rs & a & Hrun & Hb & Hr).
  exists rs, a. split; [done|]. split; [done|]. intros m p Hp. unfold served, spec_served, HttpRouter.at_.
  rewrite (routes_are_at _ _ m p (rf_router _ _ Hr) Hp). destruct (sp_ids _ !! (m, p)) as [i|]; simpl; [|done].
  by rewrite (rf_tables _ _ Hr), row_at_tables.
Qed.
End registration.

(** ** Named routes *)

(** A template in its pieces: text, and placeholders. *)
Inductive piece := Lit (s : string) | Par (k : string).

Definition piece_ok (p : piece) : bool :=
  match p with
  | Lit s => str_all (λ c, negb (Ascii.eqb c "{")) s
  | Par k => str_all (λ c, negb (Ascii.eqb c "}")) k
  end.

Definition template (ps : list piece) : string :=
  foldr (λ p t, String.append (match p with Lit s => s | Par k => "{" +:+ k +:+ "}" end) t) "" ps.

Definition filled (params : gmap string string) (ps : list piece) : string :=
  foldr (λ p t, String.append (match p with Lit s => s | Par k => default ("{" +:+ k +:+ "}") (params !! k) end) t) "" ps.

Lemma fill_literal params s t :
  str_all (λ c, negb (Ascii.eqb c "{")) s = true →
  fill_template params None (String.append s t) = String.append s (fill_template params None t).
Proof.
  induction s as [|c s IH]; [done|]. cbn [str_all]. intros [Hc%negb_true_iff Hs]%andb_prop.
  change (String.append (String c s) t) with (String c (String.append s t)). cbn [fill_template].
  rewrite Hc, IH by done. done.
Qed.

Lemma fill_key params k acc t :
  str_all (λ c, negb (Ascii.eqb c "}")) k = true →
  fill_template params (Some acc) (String.append k (String "}" t))
  = String.append (default ("{" +:+ String.append acc k +:+ "}") (params !! String.append acc k)) (fill_template params None t).
Proof.
  revert acc. induction k as [|c k IH]; intros acc.
  - intros _. rewrite str_append_nil_r. simpl. by destruct (params !! acc).
  - cbn [str_all]. intros [Hc%negb_true_iff Hk]%andb_prop.
    change (String.append (String c k) (String "}" t)) with (String c (String.append k (String "}" t))).
    cbn [fill_template]. rewrite Hc, IH by done.
    assert (String.append (String.append acc (String c "")) k = String.append acc (String c k)) as ->; [|done].
    by rewrite <- str_append_assoc.
Qed.

(** Named routes.  The URL of a named route is its template with each
    placeholder replaced by the argument of its name, or left as it is when
    there is none. *)
Theorem url_for_fills {Obj R A} {JW : JsonWebToken A} (a : JustAPIApp Obj R A) name params ps :
  named_routes a !! name = Some (template ps) → forallb piece_ok ps = true →
  url_for name params a = inr (filled params ps).
Proof.
  unfold url_for. intros -> Hok. f_equal. induction ps as [|p ps IH]; [done|]. cbn [forallb] in Hok.
  apply andb_prop in Hok as [Hp Hok]. cbn [template filled foldr]. fold (template ps) (filled params ps).
  destruct p as [s|k]; cbn [piece_ok] in Hp.
  - by rewrite fill_literal, IH.
  - change (String.append ("{" +:+ k +:+ "}") (template ps)) with (String "{" (String.append (String.append k "}") (template ps))).
    rewrite <- str_append_assoc. change (String.append "}" (template ps)) with (String "}" (template ps)).
    change (fill_template params None (String "{" (String.append k (String "}" (template ps)))))
      with (fill_template params (Some "") (String.append k (String "}" (template ps)))).
    rewrite fill_key by done. by rewrite IH.
Qed.

(** ** Examples *)

Module Examples.
#[local] Existing Instance Middleware.Examples.jwt.

(** Handlers are numbers, and so are schemas, which are no strings. *)
#[local] Instance numbers : PyObject nat := {|
  py_string _ := None; py_is_dict _ := false; py_json_dumps _ := inl "not serializable";
  py_call_attr _ _ := None; py_none := 0 |}.

Abbreviation Table := (list (string * nat)).
Abbreviation App := (JustAPIApp nat Table Z).

Definition args0 : RouteArgs (Obj := nat) := no_args.
Definition with_crud (table : option string) (columns : option (list string)) (is_native : bool) : RouteArgs (Obj := nat) :=
  mk_route_args None None None None None None None None None None None None None None None None (Some is_native) table columns.
Definition users : RouteArgs := with_crud (Some "users") (Some ["name"]) false.
Definition batched : RouteArgs (Obj := nat) :=
  mk_route_args None None None (Some 8%Z) None None None None None None None None None None None None None None None.

Definition call_all (cs : list (Call (Obj := nat))) : exec (list (string + unit) * App) :=
  calls (λ _, inl "no JSON") (λ _, "conflict") cs app_new.

Definition served_after (cs : list (Call (Obj := nat))) (m p : string) : option (Row (Obj := nat)) :=
  match call_all cs with Ret (_, a) => served a m p | Panic => None end.

Example get_replaced : r_handler <$> served_after [CGet "/docs" 1 args0; CGet "/docs" 2 args0] "GET" "/docs" = Some 2.
Proof. vm_compute. reflexivity. Qed.

(** A second POST of a path raises and the first one stays. *)
Example post_taken :
  match call_all [CPost "/u" 1 args0; CPost "/u" 2 args0] with
  | Ret (rs, a) => (is_inr <$> rs, r_handler <$> served a "POST" "/u") = ([true; false], Some 1)
  | Panic => False
  end.
Proof. vm_compute. reflexivity. Qed.

(** HEAD cannot be registered where there is a GET route. *)
Example head_taken :
  match call_all [CGet "/u" 1 args0; CHead "/u" 2 args0] with
  | Ret (rs, _) => is_inr <$> rs = [true; false]
  | Panic => False
  end.
Proof. vm_compute. reflexivity. Qed.

(** A GET handler that replaces an event stream is never reached: the row keeps
    the stream. *)
Example stream_stays :
  (λ r, (r_handler r, r_sse r)) <$> served_after [CSse "/events" 10 100 args0; CGet "/events" 7 args0] "GET" "/events"
  = Some (7, Some (10%Z, 100%Z)).
Proof. vm_compute. reflexivity. Qed.

(** After a call whose arguments were refused, the tables are out of step: the
    route registered next gets the table of the one after it. *)
Example refused_call_shifts :
  match call_all [CPost "/bad" 1 (with_crud (Some "t") None false); CGet "/hello" 2 args0; CGet "/users" 3 users] with
  | Ret (rs, a) =>
      (is_inr <$> rs, HttpRouter.at_ "GET" "/hello" (app_router a), t_crud (tables a) !! 1, row_at (tables a) 2)
      = ([false; true; true], inl (1, []), Some (Some ("users", ["name"], "id")), None)
  | Panic => False
  end.
Proof. vm_compute. reflexivity. Qed.

(** An unknown algorithm is taken for HS256. *)
Example unknown_algorithm : jwt_algorithm (Some "PS256") = "HS256" ∧ jwt_algorithm (Some "hs512") = "HS256".
Proof. vm_compute. split; reflexivity. Qed.

(** Arguments of a URL are not escaped, and a catch-all has its star in its name. *)
Example url_unescaped :
  fill_template {["id" := "a/b?c"]} None "/users/{id}" = "/users/a/b?c" ∧
  fill_template {["rest" := "x"]} None "/files/{*rest}" = "/files/{*rest}".
Proof. vm_compute. split; reflexivity. Qed.

Example session_merge :
  merge_session (JObject [("a", json_int 1); ("b", json_int 2)]) (JObject [("b", json_int 3); ("c", JNull)])
  = JObject [("a", json_int 1); ("b", json_int 3); ("c", JNull)].
Proof. vm_compute. reflexivity. Qed.

Definition script : list (Call (Obj := nat) * Resolved) :=
  [(CGet "/docs" 1 args0, mk_resolved None None None); (CPost "/users" 2 users, mk_resolved (Some ("users", ["name"], "id")) None None);
   (CGet "/docs" 3 args0, mk_resolved None None None); (CPost "/users" 4 args0, mk_resolved None None None)].

Lemma registration_refines_map_witness :
  ∃ rs a, calls (λ _, inl "no JSON") (λ _, "conflict") script.*1 app_new = Ret (rs, a) ∧
    is_inr <$> rs = [true; true; true; false] ∧ r_handler <$> served (R := Table) (A := Z) a "GET" "/docs" = Some 3.
Proof.
  destruct (registration_refines_map (R := Table) (A := Z) (λ _, inl "no JSON") (λ _, "conflict") script) as (rs & a & Hrun & Hb & Hs).
  { repeat constructor. }
  exists rs, a. split; [exact Hrun|]. split; [exact Hb|]. rewrite Hs by reflexivity. vm_compute. reflexivity.
Defined.

Lemma url_for_fills_witness :
  url_for "user" {["id" := "42"]} (set_named {["user" := "/users/{id}/{tab}"]} (app_new : App)) = inr "/users/42/{tab}".
Proof.
  exact (url_for_fills (set_named {["user" := "/users/{id}/{tab}"]} (app_new : App)) "user" {["id" := "42"]}
           [Lit "/users/"; Par "id"; Lit "/"; Par "tab"] eq_refl eq_refl).
Defined.
End Examples.
