(* ===== verification/NativeHandler.v ===== *)
(** * NativeHandler: from a request to a Python handler and back

    [crates/justapi-py/src/native/handlers.rs] and the results of a batch in
    [native/app.rs].  A Python value is what the code can tell of it; the
    interpreter, the helper module written in Python, the batchers and the
    database are operations on the world.  Tracing, profiling and the threads
    of the GIL pool are not modelled: a call of Python is one step. *)

From Stdlib Require Import Ascii.
From S2P Require Import Prelude F32 Text F64 HttpRouter OpenAiHttp Http Middleware StaticFiles Validate Crud Xml.
From S2P Require Import Serve Forms OpenApi NativeApp.

#[local] Open Scope string_scope.

(** ** Python values *)

#[local] Unset Elimination Schemes.
Inductive pyval :=
| PNone
| PBool (b : bool)
| PInt (n : Z)
| PFloat (text : string)
| PStr (s : string)
| PBytes (s : string)
| PList (l : list pyval)
| PTuple (l : list pyval)
| PDict (entries : list (pyval * pyval))
| PObject (attrs : list (string * pyval))
| PTokenStream (generator : pyval) (st : Z) (hs : list (string * string))
| PValidatedStream (generator : pyval) (schema_json mode : string) (st : Z) (hs : list (string * string)).
#[local] Set Elimination Schemes.

(** What [extract] makes of a value. *)
Definition extract_u16 (v : pyval) : option Z :=
  match v with
  | PInt n => if (0 <=? n)%Z && (n <=? 65535)%Z then Some n else None
  | PBool b => Some (if b then 1 else 0)%Z
  | _ => None
  end.

Definition extract_byte (v : pyval) : option ascii :=
  match v with
  | PInt n => if (0 <=? n)%Z && (n <=? 255)%Z then Some (ascii_of_nat (Z.to_nat n)) else None
  | PBool b => Some (ascii_of_nat (if b then 1 else 0))
  | _ => None
  end.

Fixpoint extract_all {X} (f : pyval → option X) (l : list pyval) : option (list X) :=
  match l with
  | [] => Some []
  | v :: l' => x ← f v; xs ← extract_all f l'; Some (x :: xs)
  end.

(** [Vec<u8>]. *)
Definition extract_bytes (v : pyval) : option string :=
  match v with
  | PBytes s => Some s
  | PList l | PTuple l => String.string_of_list_ascii <$> extract_all extract_byte l
  | _ => None
  end.

Definition extract_string (v : pyval) : option string := match v with PStr s => Some s | _ => None end.

Definition extract_pair (v : pyval) : option (string * string) :=
  match v with PTuple [a; b] => a ← extract_bytes a; b ← extract_bytes b; Some (a, b) | _ => None end.

(** [Vec<(Vec<u8>, Vec<u8>)>]. *)
Definition extract_headers (v : pyval) : option (list (string * string)) :=
  match v with PList l | PTuple l => extract_all extract_pair l | _ => None end.

(** The keys of a dict, when they are all strings: [HashMap<String, _>]. *)
Definition extract_keys (v : pyval) : option (list string) :=
  match v with PDict es => extract_all (λ k, extract_string k) es.*1 | _ => None end.

Definition py_getattr (name : string) (v : pyval) : option pyval :=
  match v with PObject attrs => assoc_get name attrs | _ => None end.

Fixpoint find_item (name : string) (es : list (pyval * pyval)) : option pyval :=
  match es with
  | [] => None
  | (PStr k, v) :: es' => if String.eqb k name then Some v else find_item name es'
  | _ :: es' => find_item name es'
  end.
Definition py_get_item (name : string) (v : pyval) : option pyval :=
  match v with PDict es => find_item name es | _ => None end.

(** ** Responses *)

Inductive NativeBody := NBytes (s : string) | NStream (s : string) | NAsync (future : pyval).

Record NativeResponse := mk_native { n_status : Z; n_headers : list (string * string); n_body : NativeBody }.

Definition json_type : list (string * string) := [("content-type", "application/json")].

(** [types.rs], [TokenStreamResponse::new], and [app.rs],
    [ValidatedStreamResponse::new], whose schema must be JSON. *)
Definition token_stream_new (generator : pyval) (st : Z) (hs : option (list (string * string))) : pyval :=
  PTokenStream generator st (default [("content-type", "text/event-stream")] hs).
Definition validated_stream_new (from_str : string → string + json) (generator : pyval) (schema_json mode : string)
    (st : Z) (hs : option (list (string * string))) : string + pyval :=
  match from_str schema_json with
  | inl e => inl ("invalid tool schema: " +:+ e)
  | inr _ =>
      inr (PValidatedStream generator schema_json mode st
             (default [("content-type", if String.eqb mode "array" then "application/json" else "application/x-ndjson")] hs))
  end.

(** An exception: its class, as far as the code looks, and its attributes. *)
Inductive exn_class := HTTPException | RequestValidationError | OtherException.
Record PyErr := mk_err { err_class : exn_class; err_attrs : list (string * pyval) }.

(** What the code asks of the interpreter without changing it: the dumps of
    orjson, of [json] read back by serde, and [str]; the bytes that the pumps
    make of a generator. *)
Class PyPure := {
  fast_dumps : pyval → option string;
  dumped_json : pyval → option json;
  py_str : pyval → option string;
  pump_stream : pyval → string;
  pump_validated_stream : pyval → string → string → string }.

Definition default_status (st : Z) (v : option pyval) : Z := default st (v ≫= extract_u16).
Definition default_headers (v : option pyval) : list (string * string) := default [] (v ≫= extract_headers).

(** ** Requests for Python *)

Inductive FormValue := FText (s : string) | FUpload (u : UploadFile).

(** [Request::new] and [set_parsed_body]. *)
Record PyRequest := mk_py_request {
  py_method : string; py_path : string; py_path_params : list (string * string); py_query : string;
  py_headers : list (string * string); py_body : string; py_db_url : option string;
  py_form : option (gmap string FormValue); py_scheme : string; py_client : option string;
  py_http_version : string; py_auth : option string; py_parsed_body : option pyval }.

(** The dictionary of a form: a file takes the place of what has its name. *)
Definition form_dict (f : MultipartForm) : gmap string FormValue :=
  foldl (λ m u, <[field_name u := FUpload u]> m) (FText <$> form_fields f) (form_files f).

(** What the code asks of Python that may change it. *)
Class Python (A : Type) := {
  validate_body : pyval → string → A → (string + option (list string)) * A;
  parse_json_body : string → A → option pyval * A;
  call_handler : pyval → option PyRequest → A → (PyErr + pyval) * A;
  future_result : pyval → A → (PyErr + pyval) * A;
  run_background : pyval → A → A;
  wrap_result : pyval → A → option pyval * A }.

Section responses.
Context {A : Type} `{!PyPure} `{!Python A} `{!SerdeJson}.

Definition detail_body (j : json) : NativeBody := NBytes (json_to_string (JObject [("detail", j)])).

(** [json!({"detail": ..})] with status 422. *)
Definition detail_response (detail : string) : NativeResponse := mk_native 422 json_type (detail_body (JString detail)).

Definition exception_detail (e : PyErr) : json :=
  match assoc_get "detail" (err_attrs e) with
  | Some d =>
      match dumped_json d with
      | Some v => v
      | None => JString (default "" (py_str d))
      end
  | None => JString ""
  end.

(** [Option<HashMap<String, String>>] of the attribute [headers]. *)
Definition extract_string_map (v : pyval) : list (string * string) :=
  match v with
  | PDict es =>
      default [] (extract_all (λ k, extract_string k) es.*1 ≫= λ ks,
                  extract_all (λ x, extract_string x) es.*2 ≫= λ vs, Some (zip ks vs))
  | _ => []
  end.

Definition handle_py_error (e : PyErr) : NativeResponse :=
  match err_class e with
  | HTTPException =>
      mk_native (default_status 500 (assoc_get "status_code" (err_attrs e)))
        (default [] (extract_string_map <$> assoc_get "headers" (err_attrs e)) ++ json_type)
        (detail_body (exception_detail e))
  | RequestValidationError => mk_native 422 json_type (detail_body (exception_detail e))
  | OtherException => mk_native 500 json_type (NBytes ("{" +:+ quote +:+ "detail" +:+ quote +:+ ":" +:+ quote
                                                       +:+ "Internal Server Error" +:+ quote +:+ "}"))
  end.

Definition envelope_key (k : string) : bool := existsb (String.eqb k) ["status"; "headers"; "body"; "__response__"].

(** The body of an envelope. *)
Definition envelope_body (v : option pyval) : string :=
  match v with
  | Some b =>
      match extract_string b with
      | Some s => s
      | None => match extract_bytes b with Some s => s | None => default "" (py_str b) end
      end
  | None => ""
  end.

Definition is_envelope (v : pyval) : bool :=
  forallb envelope_key (default [] (extract_keys v))
  || match py_get_item "__response__" v with Some (PBool b) => b | _ => false end.

Definition is_json (v : pyval) : bool :=
  match v with
  | PDict _ | PList _ | PStr _ | PInt _ | PFloat _ | PBool _ | PNone => true
  | _ => false
  end.

Definition is_dict (v : pyval) : bool := match v with PDict _ => true | _ => false end.

Definition serialization_failed : NativeResponse :=
  mk_native 500 [("content-type", "text/plain")] (NBytes "Internal Server Error: failed to serialize response").

(** The last resort: bytes, and what the Python helper makes of the rest. *)
Definition serialize_other (res : pyval) (w : A) : NativeResponse * A :=
  match res with
  | PBytes b => (mk_native 200 [("content-type", "application/octet-stream")] (NBytes b), w)
  | _ =>
      match wrap_result res w with
      | (Some wrapped, w) =>
          (mk_native (default_status 200 (py_get_item "status" wrapped)) (default_headers (py_get_item "headers" wrapped))
             (NBytes (default "" (py_get_item "body" wrapped ≫= extract_bytes))), w)
      | (None, w) => (serialization_failed, w)
      end
  end.

Definition serialize_response (res : pyval) (w : A) : NativeResponse * A :=
  match py_getattr "_justapi_response" res with
  | Some _ =>
      let w := match py_getattr "background" res with
               | Some PNone | None => w
               | Some bg => match py_getattr "run" bg with Some run => run_background run w | None => w end
               end in
      let b := match py_getattr "body" res with
               | Some (PBytes s) => s
               | Some b => default "" (extract_string b)
               | None => ""
               end in
      (mk_native (default_status 200 (py_getattr "status_code" res)) (default_headers (py_getattr "headers" res)) (NBytes b), w)
  | None =>
      if is_dict res && is_envelope res then
        (mk_native (default_status 200 (py_get_item "status" res)) (default_headers (py_get_item "headers" res))
           (NBytes (envelope_body (py_get_item "body" res))), w)
      else if is_json res then
        match fast_dumps res with
        | Some b => (mk_native 200 json_type (NBytes b), w)
        | None => serialize_other res w
        end
      else serialize_other res w
  end.

Definition handle_ok_result (res : pyval) (w : A) : NativeResponse * A :=
  match res with
  | PValidatedStream g schema_json mode st hs => (mk_native st hs (NStream (pump_validated_stream g schema_json mode)), w)
  | PTokenStream g st hs => (mk_native st hs (NStream (pump_stream g)), w)
  | _ => serialize_response res w
  end.

(** ** The call of a handler *)

Definition has_schema_json (schema : pyval) : bool := bool_decide (is_Some (py_getattr "_schema_json" schema)).

Definition is_future (res : pyval) : bool := bool_decide (is_Some (py_getattr "result" res)) && negb (is_dict res).

Definition call_python_handler (handler : pyval) (schema : option pyval) (needs_request : bool) (req : PyRequest) (w : A)
    : NativeResponse * A :=
  let run w :=
    let '(parsed, w) := match schema with
                        | Some s => if has_schema_json s then parse_json_body (py_body req) w else (None, w)
                        | None => (None, w)
                        end in
    let req := mk_py_request (py_method req) (py_path req) (py_path_params req) (py_query req) (py_headers req)
                 (py_body req) (py_db_url req) (py_form req) (py_scheme req) (py_client req) (py_http_version req)
                 (py_auth req) parsed in
    match call_handler handler (if needs_request then Some req else None) w with
    | (inr res, w) => if is_future res then (mk_native 200 json_type (NAsync res), w) else handle_ok_result res w
    | (inl e, w) => (handle_py_error e, w)
    end in
  match schema with
  | Some s =>
      match validate_body s (py_body req) w with
      | (inr (Some (e :: es)), w) => (detail_response (join "; " (e :: es)), w)
      | (inr _, w) => run w
      | (inl e, w) => (detail_response ("body validation error: " +:+ e), w)
      end
  | None => run w
  end.

(** An asynchronous handler is awaited after the call. *)
Definition resolve_async_response (nr : NativeResponse) (w : A) : NativeResponse * A :=
  match n_body nr with
  | NAsync fut =>
      match future_result fut w with
      | (inr res, w) => handle_ok_result res w
      | (inl e, w) => (handle_py_error e, w)
      end
  | _ => (nr, w)
  end.

(** Each header takes the place of those of its name; one that is no header is
    skipped. *)
Definition insert_header (hs : HeaderMap) (h : string * string) : HeaderMap :=
  match header_name_from h.1, header_value h.2 with
  | Some n, Some v => header_insert n v hs
  | _, _ => hs
  end.

Definition not_resolved : string :=
  "{" +:+ quote +:+ "detail" +:+ quote +:+ ":" +:+ quote +:+ "async handler not resolved" +:+ quote +:+ "}".

Definition nr_to_response (nr : NativeResponse) : Response :=
  match n_body nr with
  | NAsync _ => mk_response 500 [] not_resolved
  | NBytes b => mk_response (safe_status (n_status nr)) (foldl insert_header [] (n_headers nr)) b
  | NStream s =>
      let r := streaming_response (safe_status (n_status nr)) "text/event-stream" s in
      mk_response (status r) (foldl insert_header (headers r) (n_headers nr)) (body r)
  end.
End responses.

(** ** The fast paths *)

Section fast.
Context `{!SerdeJson} `{!JsonSchema}.
(** [serde_urlencoded::from_bytes] into pairs. *)
Context (urlencoded : string → option (list (string * string))).

Definition validate_with (v : option Validator) (schema_json b : string) : ValidationError + unit :=
  match v with Some v => compiled_validate v b | None => validate_json_schema b schema_json end.

(** [get(i).and_then(|v| v.as_ref())] *)
Definition entry {X} (l : list (option X)) (i : nat) : option X := l !! i ≫= id.

Definition flag (l : list bool) (i : nat) : bool := default false (l !! i).

Definition fast_verdict (r : ValidationError + unit) (echo : string) : NativeResponse :=
  match r with
  | inr _ => mk_native 200 json_type (NBytes echo)
  | inl verr => detail_response (verr_text verr)
  end.

Definition try_native_fast_path (i : nat) (native : list bool) (validators : list (option Validator))
    (schema_jsons : list (option string)) (b : string) : option NativeResponse :=
  if flag native i then
    match entry validators i with
    | Some v => Some (fast_verdict (compiled_validate v b) b)
    | None => sj ← entry schema_jsons i; Some (fast_verdict (validate_json_schema b sj) b)
    end
  else None.

(** A value that is JSON is taken as JSON; the last value of a key stays. *)
Definition query_object (pairs : list (string * string)) : json :=
  JObject (foldl (λ o kv, assoc_set kv.1 (match from_json kv.2 with inr j => j | inl _ => JString kv.2 end) o) [] pairs).

Definition try_native_fast_path_query (i : nat) (native : list bool) (query_schema_jsons : list (option string))
    (q : string) : option NativeResponse :=
  if flag native i then
    schema_json ← entry query_schema_jsons i;
    match urlencoded q with
    | None => Some (detail_response "Query string is not valid form encoding")
    | Some pairs =>
        let query_json := json_to_string (query_object pairs) in
        Some (fast_verdict (validate_json_schema query_json schema_json) query_json)
    end
  else None.
End fast.

(** ** The handler of the server *)

Record BatchedReq := mk_batched {
  bq_path : string; bq_method : string; bq_path_params : list (string * string); bq_query : string;
  bq_headers : list (string * string); bq_body : string }.

(** ** Batches *)

Section batch.
Context {A : Type} `{!PyPure} `{!Python A}.
(** [helper.call_batch_handler]. *)
Context (call_batch_handler : pyval → list PyRequest → A → (PyErr + pyval) * A).

Definition batch_request (db_url : option string) (r : BatchedReq) : PyRequest :=
  mk_py_request (bq_method r) (bq_path r) (bq_path_params r) (bq_query r) (bq_headers r) (bq_body r) db_url
    None "http" None "1.1" None None.

(** [Vec<Bound<PyAny>>]: the items of a sequence that is no [str]. *)
Definition extract_items (v : pyval) : option (list pyval) :=
  match v with
  | PList l | PTuple l => Some l
  | PBytes s => Some ((λ c, PInt (code c)) <$> String.list_ascii_of_string s)
  | _ => None
  end.

Definition item_response (item : pyval) : NativeResponse :=
  mk_native (default_status 200 (py_get_item "status" item)) (default_headers (py_get_item "headers" item))
    (NBytes (default "" (py_get_item "body" item ≫= extract_bytes))).

Definition internal_error : NativeResponse := mk_native 500 [] (NBytes "Internal Server Error").
Definition length_mismatch : NativeResponse := mk_native 500 [] (NBytes "Batch length mismatch").

Definition is_list (v : pyval) : bool := match v with PList _ => true | _ => false end.

(** What the handler answered, awaited when it is a future. *)
Definition batch_outcome (handler : pyval) (reqs : list PyRequest) (w : A) : (PyErr + pyval) * A :=
  match call_batch_handler handler reqs w with
  | (inr res, w) =>
      if bool_decide (is_Some (py_getattr "result" res)) && negb (is_list res) then future_result res w else (inr res, w)
  | (inl e, w) => (inl e, w)
  end.

Definition batch_items (n : nat) (r : PyErr + pyval) : list NativeResponse :=
  match r with
  | inr res => item_response <$> default [] (extract_items res)
  | inl _ => replicate n internal_error
  end.

(** [while results.len() < batch.len()] and [truncate]. *)
Definition fit (n : nat) (results : list NativeResponse) : list NativeResponse :=
  take n (results ++ replicate (n - length results) length_mismatch).

Definition batch_results (db_url : option string) (handler : pyval) (batch : list BatchedReq) (w : A)
    : list NativeResponse * A :=
  let '(r, w) := batch_outcome handler (batch_request db_url <$> batch) w in
  (fit (length batch) (batch_items (length batch) r), w).
End batch.

Definition detail_json (text : string) : string :=
  "{" +:+ quote +:+ "detail" +:+ quote +:+ ":" +:+ quote +:+ text +:+ quote +:+ "}".

Section handler.
Context {A R E : Type} `{!PyPure} `{!Python A} `{!SerdeJson} `{!JsonSchema} `{!HttpRouter.Matchit R nat E}.
Context (urlencoded : string → option (list (string * string))).
(** What quick_xml and multer make of a body, and the disk, as in [Xml] and [Forms]. *)
Context (xml_events : string → list XmlEvent) (unescape : string → string).
Context (parts_of : string → option string → list Part * option string) (field_text : Part → string + string).
Context (disk : string → option string) (max_upload : Z) (get_temps : A → Temps) (put_temps : Temps → A → A).
(** The database, and the error of a body that breaks off. *)
Context (query_with_params : string → list json → A → (SqlError + json) * A) (body_error : string).

(** What [run] makes the handler of. *)
Record NativeParts := mk_native_parts {
  np_router : HttpRouter.Router R nat;
  np_tables : Tables pyval;
  np_needs_request : list bool;
  np_validators : list (option Validator);
  np_batchers : list (option (BatchedReq → A → exec ((string + NativeResponse) * A)));
  np_pool : option bool;                     (* a connected pool, and whether it is PostgreSQL *)
  np_db_url : option string;
  np_scheme : string;
  np_max_body : Z }.

Definition content_type_of (req : Request) : string := default "" (header_str "content-type" (req_headers req)).
Definition is_multipart (req : Request) : bool := starts_with "multipart/form-data" (content_type_of req).
Definition is_xml (req : Request) : bool := mentions_xml (lowercase (content_type_of req)).

(** A QUERY request must say what its content is. *)
Definition lacks_content_type (req : Request) : bool :=
  String.eqb (req_method req) query_method
  && match assoc_get "content-type" (req_headers req) with Some _ => false | None => true end.

Definition query_needs_type : Response := json_response 400 (detail_json "QUERY requires a Content-Type header").
Definition payload_too_large : Response := json_response 413 (detail_json "payload too large").
Definition invalid_multipart : Response := json_response 400 (detail_json "invalid multipart body").
Definition method_not_allowed : Response := json_response 405 (detail_json "method not allowed").
Definition not_found : Response := json_response 404 (detail_json "not found").

Definition multipart_refused (e : string) : Response :=
  if contains "exceeds maximum size" e then payload_too_large else invalid_multipart.

(** Either an answer, or the bytes and the form. *)
Definition read_multipart (b : option string) (req : Request) (w : A) : (Response + MultipartForm) * A :=
  let '(r, temps) := parse_multipart parts_of field_text disk max_upload b (content_type_of req) (get_temps w) in
  (match r with inr f => inr f | inl e => inl (multipart_refused e) end, put_temps temps w).

(** [Limited::new(..).collect()]. *)
Definition read_limited (max : Z) (req : Request) : outcome + string :=
  match req_body req with
  | None => inl (inr ("Body error: " +:+ body_error))
  | Some b => if (max <? Forms.len b)%Z then inl (inl payload_too_large) else inr b
  end.

(** An XML body becomes JSON. *)
Definition normalize_xml (req : Request) (b : string) : exec (Response + string) :=
  if is_xml req then
    r ← xml_to_json unescape (xml_events b);
    Ret (match r with
         | inl value => inr (json_to_string value)
         | inr e => inl (json_response 400 (detail_json ("invalid xml body: " +:+ e)))
         end)
  else Ret (inr b).

Definition read_body (max : Z) (req : Request) (w : A) : exec ((outcome + (string * option MultipartForm)) * A) :=
  if is_multipart req then
    match read_multipart (req_body req) req w with
    | (inl resp, w) => Ret (inl (inl resp), w)
    | (inr f, w) => Ret (inr ("", Some f), w)
    end
  else
    match read_limited max req with
    | inl o => Ret (inl o, w)
    | inr b =>
        r ← normalize_xml req b;
        Ret (match r with inl resp => inl (inl resp) | inr b => inr (b, None) end, w)
    end.

Definition crud_op_of (m : string) : option CrudOp :=
  if String.eqb m "POST" then Some Insert
  else if String.eqb m "GET" then Some Select
  else if String.eqb m "PUT" || String.eqb m "PATCH" then Some Update
  else if String.eqb m "DELETE" then Some Crud.Delete
  else None.

(** The CRUD spec of a route, if its pool and the method serve it. *)
Definition crud_of (p : NativeParts) (i : nat) (m : string) : option (bool * CrudSpec) :=
  '(table, columns, id_column) ← entry (t_crud (np_tables p)) i;
  postgres ← np_pool p;
  op ← crud_op_of m;
  Some (postgres, mk_crud op table columns id_column).

(** The part after the fast paths: the schema, then Python. *)
Definition run_python (p : NativeParts) (i : nat) (req : PyRequest) (w : A) : exec (outcome * A) :=
  let t := np_tables p in
  let python (w : A) : exec (outcome * A) :=
    match t_handlers t !! i, t_schemas t !! i, np_needs_request p !! i with
    | Some h, Some s, Some needs =>
        let '(nr, w) := call_python_handler h s needs req w in
        let '(nr, w) := resolve_async_response nr w in
        Ret (inl (nr_to_response nr), w)
    | _, _, _ => Panic
    end in
  match entry (t_schema_jsons t) i with
  | Some schema_json =>
      match validate_with (entry (np_validators p) i) schema_json (py_body req) with
      | inl verr => Ret (inl (validation_response (verr_text verr)), w)
      | inr _ => python w
      end
  | None => python w
  end.

(** [http_version] reads the version of the request line. *)
Context (http_version : Request → string).

Definition client_of (req : Request) : option string := ext_addr (req_ext req).

Definition py_request (p : NativeParts) (req : Request) (scheme : string) (client : option string) (version : string)
    (auth : option string) (params : list (string * string)) (b : string) (form : option MultipartForm) : PyRequest :=
  mk_py_request (req_method req) (req_path req) params (default "" (req_query req)) (req_headers req) b (np_db_url p)
    (form_dict <$> form) scheme client version auth None.

Definition fast_paths (p : NativeParts) (i : nat) (b q : string) : option NativeResponse :=
  let t := np_tables p in
  match try_native_fast_path i (t_native t) (np_validators p) (t_schema_jsons t) b with
  | Some nr => Some nr
  | None => try_native_fast_path_query urlencoded i (t_native t) (t_query_jsons t) q
  end.

(** The closure of [make_native_handler]. *)
Definition make_native_handler (p : NativeParts) : HandlerFn A := λ req w,
  if lacks_content_type req then Ret (inl query_needs_type, w)
  else
    '(read, w) ← read_body (np_max_body p) req w;
    match read with
    | inl o => Ret (o, w)
    | inr (b, form) =>
        match HttpRouter.at_ (req_method req) (req_path req) (np_router p) with
        | inr HttpRouter.MethodNotAllowed => Ret (inl method_not_allowed, w)
        | inr HttpRouter.NotFound => Ret (inl not_found, w)
        | inl (i, params) =>
            let q := default "" (req_query req) in
            match entry (np_batchers p) i with
            | Some execute =>
                '(r, w) ← execute (mk_batched (req_path req) (req_method req) params q (req_headers req) b) w;
                Ret (match r with inr nr => inl (nr_to_response nr) | inl e => inr e end, w)
            | None =>
                match entry (t_sse (np_tables p)) i with
                | Some (count, _) => Ret (inl (sse_stream_response (Z.to_nat count)), w)
                | None =>
                    match crud_of p i (req_method req) with
                    | Some (postgres, spec) =>
                        let '(resp, w) := crud_dispatch_bytes postgres query_with_params spec params q b None w in
                        Ret (inl resp, w)
                    | None =>
                        match fast_paths p i b q with
                        | Some nr => Ret (inl (nr_to_response nr), w)
                        | None =>
                            run_python p i (py_request p req (np_scheme p) (client_of req) (http_version req)
                                              (json_to_string <$> req_claims req) params b form) w
                        end
                    end
                end
            end
        end
    end.

(** The closure of [make_test_handler]: the body is read whole, then again for
    a form; no XML, no batches and no CRUD. *)
Definition make_test_handler (p : NativeParts) : HandlerFn A := λ req w,
  if lacks_content_type req then Ret (inl query_needs_type, w)
  else
    match read_limited (np_max_body p) req with
    | inl o => Ret (o, w)
    | inr b =>
        let '(read, w) := if is_multipart req
                          then match read_multipart (Some b) req w with
                               | (inl resp, w) => (inl resp, w)
                               | (inr f, w) => (inr (Some f), w)
                               end
                          else (inr None, w) in
        match read with
        | inl resp => Ret (inl resp, w)
        | inr form =>
            match HttpRouter.at_ (req_method req) (req_path req) (np_router p) with
            | inr HttpRouter.MethodNotAllowed => Ret (inl method_not_allowed, w)
            | inr HttpRouter.NotFound => Ret (inl not_found, w)
            | inl (i, params) =>
                let q := default "" (req_query req) in
                match entry (t_sse (np_tables p)) i with
                | Some (count, _) => Ret (inl (sse_stream_response (Z.to_nat count)), w)
                | None =>
                    match fast_paths p i b q with
                    | Some nr => Ret (inl (nr_to_response nr), w)
                    | None => run_python p i (py_request p req "http" None "1.1" None params b form) w
                    end
                end
            end
        end
    end.
End handler.

(** ** What holds of them *)

(** The value a header gives to a name. *)
Definition named (n : string) (h : string * string) : option string :=
  v ← header_value h.2; m ← header_name_from h.1; if decide (m = n) then Some v else None.

Lemma insert_headers_get n hs acc :
  assoc_get n (foldl insert_header acc hs)
  = match last (omap (named n) hs) with Some v => Some v | None => assoc_get n acc end.
Proof.
  revert acc. induction hs as [|h hs IH]; intros acc; [done|]. cbn [foldl]. rewrite IH.
  assert (omap (named n) (h :: hs) = match named n h with Some v => v :: omap (named n) hs | None => omap (named n) hs end)
    as -> by done.
  assert (named n h = match header_name_from h.1, header_value h.2 with
                      | Some m, Some v => if decide (m = n) then Some v else None
                      | _, _ => None
                      end) as -> by (unfold named; by destruct (header_value _), (header_name_from _)).
  unfold insert_header. destruct (header_name_from h.1) as [m|], (header_value h.2) as [v|]; try done.
  rewrite header_insert_get. destruct (decide (m = n)); [|done]. rewrite last_cons. by destruct (last _).
Qed.

(** What a Python response becomes: its status, or 500 for one that is
    none; its bytes as they are; and for each header name the value that was
    given last, values and names that are none being skipped.  A stream is an
    event stream unless it says otherwise. *)
Theorem response_headers_last nr :
  match n_body nr with
  | NAsync _ => nr_to_response nr = mk_response 500 [] not_resolved
  | NBytes b | NStream b =>
      let stream := match n_body nr with NStream _ => true | _ => false end in
      status (nr_to_response nr) = safe_status (n_status nr) ∧ body (nr_to_response nr) = b ∧
      ∀ n, assoc_get n (headers (nr_to_response nr))
           = match last (omap (named n) (n_headers nr)) with
             | Some v => Some v
             | None => if stream && String.eqb n "content-type" then Some "text/event-stream" else None
             end
  end.
Proof.
  unfold nr_to_response. destruct (n_body nr) as [b|b|f]; [| |done].
  - split; [done|]. split; [done|]. intros n. apply insert_headers_get.
  - split; [done|]. split; [done|]. intros n. cbn [headers streaming_response]. rewrite insert_headers_get.
    destruct (last _); [done|]. cbn [andb assoc_get]. rewrite String.eqb_sym.
    destruct (decide _) as [<-|Hne]; [by rewrite String.eqb_refl|]. by apply String.eqb_neq in Hne as ->.
Qed.

Lemma fit_length n l : length (fit n l) = n.
Proof. unfold fit. rewrite length_take, length_app, length_replicate. lia. Qed.

Lemma fit_lookup n l i : i < n → fit n l !! i = Some (default length_mismatch (l !! i)).
Proof.
  intros Hi. unfold fit. rewrite lookup_take_lt by done. destruct (decide (i < length l)) as [Hl|Hl].
  - rewrite lookup_app_l by done. by destruct (lookup_lt_is_Some_2 l i Hl) as [x ->].
  - rewrite lookup_app_r by lia. rewrite lookup_replicate_2 by lia.
    by rewrite (proj2 (lookup_ge_None l i)) by lia.
Qed.

(** Every request of a batch gets one answer: the item of the handler's
    sequence at its own place, a 500 where the sequence is too short, and a 500
    when the handler raised; items past the batch are dropped. *)
Theorem batch_answers_each {A} `{!PyPure} `{!Python A} call db_url handler batch (w : A) :
  let '(r, w') := batch_outcome call handler (batch_request db_url <$> batch) w in
  ∃ results, batch_results call db_url handler batch w = (results, w') ∧ length results = length batch ∧
  ∀ i, i < length batch →
    results !! i = Some match r with
                        | inl _ => internal_error
                        | inr res => default length_mismatch (item_response <$> (extract_items res ≫= λ l, l !! i))
                        end.
Proof.
  destruct (batch_outcome call handler (batch_request db_url <$> batch) w) as [r w'] eqn:Hb.
  exists (fit (length batch) (batch_items (length batch) r)). unfold batch_results. rewrite Hb. split; [done|].
  split; [apply fit_length|]. intros i Hi. rewrite fit_lookup by done. f_equal. destruct r as [e|res]; cbn [batch_items].
  - by rewrite lookup_replicate_2.
  - rewrite list_lookup_fmap. by destruct (extract_items res).
Qed.

Section serve.
Context {A R E : Type} `{!PyPure} `{!Python A} `{!SerdeJson} `{!JsonSchema} `{!HttpRouter.Matchit R nat E}.
Context (urlencoded : string → option (list (string * string))).
Context (xml_events : string → list XmlEvent) (unescape : string → string).
Context (parts_of : string → option string → list Part * option string) (field_text : Part → string + string).
Context (disk : string → option string) (max_upload : Z) (get_temps : A → Temps) (put_temps : Temps → A → A).
Context (query_with_params : string → list json → A → (SqlError + json) * A) (body_error : string).
Context (http_version : Request → string).

#[local] Abbreviation native_handler :=
  (make_native_handler (A := A) urlencoded xml_events unescape parts_of field_text disk max_upload get_temps put_temps
     query_with_params body_error http_version).
#[local] Abbreviation test_handler :=
  (make_test_handler (A := A) urlencoded parts_of field_text disk max_upload get_temps put_temps body_error).

(** A request with a body in plain bytes, and a route that Python serves. *)
Definition plain_body (max : Z) (req : Request) (b : string) : Prop :=
  req_body req = Some b ∧ (Forms.len b ≤ max)%Z ∧ is_multipart req = false ∧ is_xml req = false ∧ lacks_content_type req = false.

Definition python_route (p : NativeParts (A := A) (R := R)) (req : Request) (i : nat) (params : list (string * string)) : Prop :=
  HttpRouter.at_ (req_method req) (req_path req) (np_router p) = inl (i, params) ∧
  entry (np_batchers p) i = None ∧ entry (t_sse (np_tables p)) i = None ∧ crud_of p i (req_method req) = None.

Lemma read_limited_plain max req b :
  plain_body max req b → read_limited body_error max req = inr b.
Proof. intros (Hb & Hl & _). unfold read_limited. rewrite Hb. by rewrite (proj2 (Z.ltb_ge _ _)). Qed.

Lemma read_body_plain max req b w :
  plain_body max req b →
  read_body xml_events unescape parts_of field_text disk max_upload get_temps put_temps body_error max req w
  = Ret (inr (b, None), w).
Proof.
  intros Hp. unfold read_body. rewrite (read_limited_plain _ _ _ Hp). destruct Hp as (_ & _ & Hm & Hx & _).
  rewrite Hm. unfold normalize_xml. by rewrite Hx.
Qed.

Lemma native_handler_python p req b i params w :
  plain_body (np_max_body p) req b → python_route p req i params →
  native_handler p req w
  = match fast_paths urlencoded p i b (default "" (req_query req)) with
    | Some nr => Ret (inl (nr_to_response nr), w)
    | None => run_python p i (py_request p req (np_scheme p) (client_of req) (http_version req)
                                (json_to_string <$> req_claims req) params b None) w
    end.
Proof.
  intros Hp (Hat & Hba & Hs & Hc). unfold make_native_handler. rewrite (read_body_plain _ _ _ _ Hp).
  destruct Hp as (_ & _ & _ & _ & ->). cbn [mbind exec_bind]. by rewrite Hat, Hba, Hs, Hc.
Qed.

(** What the schema of a route says of a body. *)
Definition schema_verdict (p : NativeParts (A := A) (R := R)) (i : nat) (b : string) : option (ValidationError + unit) :=
  sj ← entry (t_schema_jsons (np_tables p)) i; Some (validate_with (entry (np_validators p) i) sj b).

(** The validator of a route: the one kept for it, or else the one its schema compiles to. *)
Definition route_validator (p : NativeParts (A := A) (R := R)) (i : nat) (schema_json : string) (v : Validator) : Prop :=
  match entry (np_validators p) i with
  | Some v' => v' = v
  | None => ∃ schema, from_json schema_json = inr schema ∧ build_validator schema = inr v
  end.

(** A body that a route with a schema refuses, and what for: it is no JSON, or the validator finds errors. *)
Inductive refuses (p : NativeParts (A := A) (R := R)) (i : nat) (b : string) : list FieldError → Prop :=
| refuses_text schema_json e :
    entry (t_schema_jsons (np_tables p)) i = Some schema_json → from_json b = inl e →
    refuses p i b [mk_field_error "body" ("Invalid JSON: " +:+ e)]
| refuses_value schema_json v value :
    entry (t_schema_jsons (np_tables p)) i = Some schema_json → from_json b = inr value →
    route_validator p i schema_json v → iter_errors v value ≠ [] →
    refuses p i b ((λ e, mk_field_error (error_field e.1) e.2) <$> iter_errors v value).

Lemma refuses_verdict p i b es : refuses p i b es → schema_verdict p i b = Some (inl es).
Proof.
  intros [sj e Hs He|sj v value Hs Hj Hv Hne]; unfold schema_verdict, validate_with; rewrite Hs; cbn [mbind option_bind]; f_equal.
  - unfold compiled_validate, validate_json_schema. by destruct (entry (np_validators p) i); rewrite He.
  - assert (errors_or_ok (collect_errors v value) = inl ((λ e, mk_field_error (error_field e.1) e.2) <$> iter_errors v value)) as He.
    { unfold errors_or_ok. rewrite collect_errors_map. by destruct (iter_errors v value). }
    unfold route_validator in Hv. destruct (entry (np_validators p) i) as [v'|].
    + unfold compiled_validate. by rewrite Hj, Hv.
    + destruct Hv as (schema & Hsc & Hb). unfold validate_json_schema. by rewrite Hj, Hsc, Hb.
Qed.


(** C34: The test handler is the handler.  For a plain body, no claims, no peer
    and what a test is served over, a route that is neither batched nor CRUD's
    answers both the same way and leaves the same world. *)
Theorem test_handler_agrees p req b w :
  plain_body (np_max_body p) req b →
  (∀ i params, HttpRouter.at_ (req_method req) (req_path req) (np_router p) = inl (i, params) →
     entry (np_batchers p) i = None ∧ crud_of p i (req_method req) = None) →
  req_claims req = None → client_of req = None → http_version req = "1.1" → np_scheme p = "http" →
  test_handler p req w = native_handler p req w.
Proof.
  intros Hp Hr Ha Hc Hv Hs. unfold make_test_handler, make_native_handler.
  rewrite (read_body_plain _ _ _ _ Hp), (read_limited_plain _ _ _ Hp). destruct Hp as (_ & _ & -> & _ & ->).
  cbn [mbind exec_bind]. destruct (HttpRouter.at_ _ _ _) as [[i params]|[]]; [|done..].
  destruct (Hr i params eq_refl) as [-> ->]. by rewrite Ha, Hc, Hv, Hs.
Qed.
End serve.

(** ** Examples *)

Module Examples.
#[local] Existing Instance OpenAi.Examples.serde.

(** A schema is a number, and so is the body it bounds. *)
#[local] Instance digits : JsonSchema := {|
  Validator := Z;
  Validate.build _ s := match s with JNumber (IntNumber n) => inr n | _ => inl "no number" end;
  iter_errors n j := match j with
                     | JNumber (IntNumber m) => if (m <=? n)%Z then [] else [("/size", "too large")]
                     | _ => [("", "not a number")]
                     end;
  from_json s := match parse_signed 64 s with Some n => inr (json_int n) | None => inl "expected value" end |}.

#[local] Instance pure : PyPure := {|
  fast_dumps _ := Some "dumped"; dumped_json v := JString <$> extract_string v; py_str _ := None;
  pump_stream _ := "data: [DONE]"; pump_validated_stream _ _ _ := "" |}.

(** The world counts the calls of Python, and a handler answers what it is. *)
#[local] Instance counting : Python nat := {|
  validate_body _ _ w := (inr None, w);
  parse_json_body _ w := (None, w);
  call_handler h _ w := (inr h, S w);
  future_result v w := (inr v, w);
  run_background _ w := S w;
  wrap_result _ w := (None, w) |}.

Definition served (v : pyval) : NativeResponse := fst (serialize_response v 0).
Definition dict (entries : list (string * pyval)) : pyval := PDict (prod_map PStr id <$> entries).

(** A dict with data is JSON; the comment counts dicts such as
    [{"status": "ok"}] among them, but what has only envelope keys, or none, is
    an envelope with an empty body. *)
Example dict_data : served (dict [("id", PInt 1); ("status", PStr "ok")]) = mk_native 200 json_type (NBytes "dumped").
Proof. vm_compute. reflexivity. Qed.
Example dict_status : served (dict [("status", PStr "ok")]) = mk_native 200 [] (NBytes "").
Proof. vm_compute. reflexivity. Qed.
Example dict_empty : served (dict []) = mk_native 200 [] (NBytes "").
Proof. vm_compute. reflexivity. Qed.
Example dict_int_key : served (PDict [(PInt 1, PStr "a")]) = mk_native 200 [] (NBytes "").
Proof. vm_compute. reflexivity. Qed.

(** Headers of [str] are not bytes: all of them are dropped. *)
Example str_headers :
  served (dict [("status", PInt 201); ("headers", PList [PTuple [PStr "location"; PStr "/x"]]); ("body", PStr "made")])
  = mk_native 201 [] (NBytes "made").
Proof. vm_compute. reflexivity. Qed.

(** Of two cookies the last one stays. *)
Example one_cookie :
  headers (nr_to_response (mk_native 200 [("Set-Cookie", "a=1"); ("set-cookie", "b=2")] (NBytes ""))) = [("set-cookie", "b=2")].
Proof. vm_compute. reflexivity. Qed.

(** A batch whose handler was asynchronous is not wrapped, and a text body of
    an item is dropped; the third request gets no item. *)
Definition batch3 : list BatchedReq := replicate 3 (mk_batched "/" "POST" [] "" [] "").
Definition answered : pyval := PList [dict [("body", PBytes "one")]; dict [("body", PStr "two")]].

Example batch_text :
  batch_results (λ _ _ w, (inr (PObject [("result", PNone)]), w)) None PNone batch3 0
  = (replicate 3 length_mismatch, 0).
Proof. vm_compute. reflexivity. Qed.

Definition answer_list : pyval → list PyRequest → nat → (PyErr + pyval) * nat := λ _ _ w, (inr answered, S w).

Lemma batch_answers_each_witness :
  ∃ results, batch_results answer_list None PNone batch3 0 = (results, 1) ∧
    results !! 1 = Some (mk_native 200 [] (NBytes "")) ∧ results !! 2 = Some length_mismatch.
Proof.
  destruct (batch_answers_each answer_list None PNone batch3 0) as (results & Hr & _ & Hi).
  exists results. split; [exact Hr|]. split; [apply (Hi 1)|apply (Hi 2)]; simpl; lia.
Defined.

(** One route, served natively or not, bounded by ten. *)
Definition parts (is_native : bool) (batcher : option (BatchedReq → nat → exec ((string + NativeResponse) * nat)))
    : NativeParts (A := nat) (R := list (string * nat)) :=
  mk_native_parts (snd (HttpRouter.insert "POST" "/items" 0 HttpRouter.new))
    (mk_tables [dict [("id", PInt 1)]] [is_native] [None] [None] [None] [Some "10"] [None] [None])
    [true] [None] [batcher] None None "http" 100.

Definition handler (p : NativeParts) : HandlerFn nat :=
  make_native_handler (λ _, Some []) (λ _, []) id (λ _ _, ([], None)) (λ _, inl "") (λ _, None) 100%Z (λ _, []) (λ _ w, w)
    (λ _ _ w, (inr JNull, w)) "reset" (λ _, "1.1") p.
Definition in_test (p : NativeParts) : HandlerFn nat :=
  make_test_handler (λ _, Some []) (λ _ _, ([], None)) (λ _, inl "") (λ _, None) 100%Z (λ _, []) (λ _ w, w) "reset" p.

Definition post (content_type b : string) : Request :=
  new_request "POST" "/items" None [("content-type", content_type)] (Some b).

(** Which status a handler answers, and how often Python was called. *)
Definition outcome_of (r : exec (outcome * nat)) : option (Z * nat) :=
  match r with Ret (inl resp, w) => Some (status resp, w) | _ => None end.

Definition number := post "application/json".

Example accepted_calls : outcome_of (handler (parts false None) (number "7") 0) = Some (200%Z, 1).
Proof. vm_compute. reflexivity. Qed.
Example native_echoes :
  match handler (parts true None) (number "7") 0 with Ret (inl resp, w) => (body resp, w) = ("7", 0) | _ => False end.
Proof. vm_compute. reflexivity. Qed.

(** A batched route does not look at its schema. *)
Example batch_unvalidated :
  outcome_of (handler (parts false (Some (λ r w, Ret (inr (mk_native 200 [] (NBytes (bq_body r))), w)))) (number "11") 0)
  = Some (200%Z, 0).
Proof. vm_compute. reflexivity. Qed.

(** The limit on a body is not put on a form, except in the test handler. *)
Definition form (b : string) : Request := post "multipart/form-data; boundary=b" b.
Definition long : string := String.concat "" (replicate 11 "0123456789").
Example form_unlimited :
  outcome_of (handler (parts false (Some (λ r w, Ret (inr (mk_native 200 [] (NBytes "")), w)))) (form long) 0) = Some (200%Z, 0)
  ∧ outcome_of (in_test (parts false None) (form long) 0) = Some (413%Z, 0).
Proof. vm_compute. split; reflexivity. Qed.

(** The error of an XML body is not escaped in the JSON that tells of it. *)
Example xml_detail : detail_json ("invalid xml body: " +:+ quote) = "{" +:+ quote +:+ "detail" +:+ quote +:+ ":" +:+ quote
  +:+ "invalid xml body: " +:+ quote +:+ quote +:+ "}".
Proof. reflexivity. Qed.

Lemma plain_number (p : NativeParts (A := nat) (R := list (string * nat))) b : (String.length b ≤ 10)%nat → np_max_body p = 100%Z → plain_body (np_max_body p) (number b) b.
Proof. intros Hl ->. split; [done|]. split; [unfold Forms.len; lia|]. by repeat split. Qed.

Lemma number_refused is_native : refuses (parts is_native None) 0 "11" [mk_field_error "size" "too large"].
Proof.
  apply (refuses_value (parts is_native None) 0 "11" "10" (10%Z : Validator (JsonSchema := digits)) (json_int 11));
    [reflexivity..| |discriminate].
  exists (json_int 10). split; reflexivity.
Qed.


Lemma test_handler_agrees_witness :
  in_test (parts false None) (number "7") 0 = handler (parts false None) (number "7") 0.
Proof.
  unfold handler, in_test. eapply test_handler_agrees; try reflexivity.
  - apply plain_number; [simpl; lia|reflexivity].
  - intros i params. vm_compute. intros [= <- _]. by split.
Defined.
End Examples.
