(* ===== verification/NativeRun.v ===== *)
(** * NativeRun: the server that an application becomes

    [crates/justapi-py/src/native/app.rs], the parts around [JustAPIApp::run]:
    the cached validators of tools and streams, health checks in Python, the
    description of the routes, the handler and the server that [run] builds
    from the application's tables and settings, and the hooks of its plugins.
    The database pool is a flag here ([DbBridge] connects it), and the sessions
    of WebSockets are in [WebSockets]; the gRPC server and what serves HTTP/3
    besides its handler are not modelled. *)

From Stdlib Require Import Ascii.
From S2P Require Import Prelude F32 Text F64 Resilience HttpRouter OpenAiHttp Http Coalesce Middleware StaticFiles Validate Crud Xml.
From S2P Require Import Metrics Health Memory ReverseGateway Serve Server Forms OpenApi NativeApp NativeHandler.

#[local] Open Scope string_scope.

(** ** Validators by schema *)

Section cache.
Context `{!JsonSchema}.

(** The formats of this file are those of [validate.rs], closure by closure. *)
Definition app_format_validators : list (string * (string → bool)) := Validate.format_validators.

(** The cache of [schema_validator_cache], by the text of the schema. *)
Abbreviation Cache := (gmap string Validator).

Definition app_build_validator (schema_json : string) (schema_value : json) (cache : Cache) : (string + Validator) * Cache :=
  match cache !! schema_json with
  | Some v => (inr v, cache)
  | None =>
      match Validate.build app_format_validators schema_value with
      | inl e => (inl ("schema error: " +:+ e), cache)
      | inr v => (inr v, <[schema_json := v]> cache)
      end
  end.

Definition validate_value (schema_json value_json : string) (cache : Cache) : (string + list string) * Cache :=
  match from_json schema_json with
  | inl e => (inl ("invalid schema: " +:+ e), cache)
  | inr schema_value =>
      match from_json value_json with
      | inl e => (inl ("invalid JSON value: " +:+ e), cache)
      | inr value =>
          let '(r, cache) := app_build_validator schema_json schema_value cache in
          (match r with inl e => inl e | inr v => inr (iter_errors v value).*2 end, cache)
      end
  end.
End cache.

(** ** Values *)

(** Integers of 64 bits are [int]; the rest is a [float]. *)
Fixpoint json_value_to_py (v : json) : pyval :=
  match v with
  | JNull => PNone
  | JBool b => PBool b
  | JNumber (IntNumber n) => PInt n
  | JNumber (FloatNumber t) => PFloat t
  | JString s => PStr s
  | JArray a => PList (json_value_to_py <$> a)
  | JObject o => PDict ((λ kv : string * json, (PStr kv.1, json_value_to_py kv.2)) <$> o)
  end.

(** ** Health *)

Section health.
Context {A : Type} `{!SerdeJson}.
(** The call of a check, the truth of what it answers, and how long it takes. *)
Context (call0 : pyval → A → string + pyval) (truthy : pyval → string + bool) (took : pyval → A → option Z).

Definition py_status (name : string) (r : string + pyval) : HealthStatus :=
  match r with
  | inr v =>
      match truthy v with
      | inr true => Healthy
      | inr false => Unhealthy ("health check '" +:+ name +:+ "' reported unhealthy")
      | inl e => Unhealthy ("health check '" +:+ name +:+ "' eval error: " +:+ e)
      end
  | inl e => Unhealthy ("health check '" +:+ name +:+ "' raised: " +:+ e)
  end.

Definition py_health_check (name : string) (check : pyval) : A → HealthStatus * option Z := λ a,
  (py_status name (call0 check a), took check a).

Definition health_registry_of (checks : list (string * pyval)) : HealthRegistry A :=
  foldl (λ r c, register c.1 (py_health_check c.1 c.2) r) registry_new checks.

Definition health_ready (reg : option (HealthRegistry A)) (a : A) : bool * string :=
  match reg with
  | Some reg =>
      let report := check_all a reg in
      (match overall report with OverallUnhealthy => false | _ => true end, json_to_string (report_json report))
  | None => (true, "{" +:+ quote +:+ "status" +:+ quote +:+ ":" +:+ quote +:+ "ready" +:+ quote +:+ "}")
  end.

Definition metrics_prometheus (m : option (Metrics A)) (a : A) : string :=
  match m with Some m => prometheus m a | None => "# metrics not yet initialised" +:+ String "010" "" end.
End health.

(** ** Two middleware of the chain *)

Section extra.
Context {W : Type}.

(** [PerRouteCircuitBreakerMiddleware::handle], its breakers and the clock in
    the world. *)
Definition breaker_handle (c : CircuitBreakerConfig) (get : W → PerRoute) (put : PerRoute → W → W) (now : W → Z)
    : Middleware W := λ next req w,
  match PerRoute.begin c (now w) (req_path req) (get w) with
  | (Some (i, true), m) =>
      '(r, w) ← next req (put m w);
      Ret (r, put (PerRoute.finish c (now w) i r (get w)) w)
  | (Some (_, false), m) => Ret (inl circuit_open_response, put m w)
  | (None, _) => Panic
  end.

(** [RequestCoalescer::handle] as its caller sees it: [joined] is what the
    leader in flight for the key will publish, if there is one.  [Coalesce]
    has the steps of leaders and followers. *)
Definition coalesce_handle (include_headers : list string) (joined : CoalesceKey → W → option outcome) : Middleware W :=
  λ next req w,
  match joined (key_of include_headers req) w with
  | Some (inl r) => Ret (inl (to_response r), w)
  | Some (inr message) => Ret (inr message, w)
  | None => next req w
  end.
End extra.

Section run.
Context {A R1 E1 R2 E2 GR GE P : Type} `{!PyPure} `{!Python A} `{!SerdeJson} `{!ParseValue} `{!JsonSchema}.
Context `{!HttpRouter.Matchit R1 nat E1} `{!HttpRouter.Matchit R2 (Handler A) E2} `{!HttpRouter.Matchit GR GatewayRoute GE}.
Context {JW : JsonWebToken A} `{!Plugin P A}.

Abbreviation App := (JustAPIApp pyval R1 A).
Abbreviation W := (World R2 A).
Abbreviation Server := (Server R2 A P).

(** ** The description of the routes *)

Context (response_of : json → option DocResponse) (print_document : OpenApiDocument → string).

(** The metadata of a route that stored none. *)
Definition default_meta (m path : string) : RouteMeta :=
  mk_route_meta m path None None [] (if OpenApi.is_body_method m then Some (JObject []) else None) (Some (JObject []))
    false (String.eqb m OpenApi.query_method) None None None None true.

(** HEAD is left out where the path has a GET route. *)
Definition documented_routes (routes : list (string * string)) : list (string * string) :=
  filter (λ mp, ¬ (mp.1 = "HEAD" ∧ ("GET", mp.2) ∈ routes)) routes.

Definition openapi_metas (a : App) : list RouteMeta :=
  (λ mp, default (default_meta mp.1 mp.2) (route_meta a !! mp)) <$> documented_routes (HttpRouter.list_routes (app_router a)).

Definition openapi_spec (a : App) : option string :=
  match HttpRouter.list_routes (app_router a) with
  | [] => None
  | _ => Some (print_document (generate response_of (openapi_metas a) "JustAPI" "2.0.0"))
  end.

(** ** The handler *)

Context (urlencoded : string → option (list (string * string))).
Context (xml_events : string → list XmlEvent) (unescape : string → string).
Context (parts_of : string → option string → list Part * option string) (field_text : Part → string + string).
Context (disk : string → option string) (max_upload : Z) (get_temps : A → Temps) (put_temps : Temps → A → A).
Context (query_with_params : string → list json → A → (SqlError + json) * A) (body_error : string).
Context (http_version : Request → string).
Context (call_batch_handler : pyval → list PyRequest → A → (PyErr + pyval) * A).

(** [getattr(name).and_then(|v| v.extract::<bool>())] *)
Definition bool_attr (name : string) (v : pyval) : option bool :=
  match py_getattr name v with Some (PBool b) => Some b | _ => None end.

Definition needs_request_of (handlers : list pyval) : list bool :=
  (λ h, default true (bool_attr "_needs_request" h)) <$> handlers.

(** A request that shares its batch with no other: [Batching] forms the
    batches.  A handler that is missing panics in the pool, whose result is
    then an empty batch. *)
Definition batcher_of (db_url : option string) (handlers : list pyval) (i : nat)
    : BatchedReq → A → exec ((string + NativeResponse) * A) := λ req w,
  let '(results, w) := match handlers !! i with
                       | Some h => batch_results call_batch_handler db_url h [req] w
                       | None => ([], w)
                       end in
  Ret (match results with r :: _ => inr r | [] => inl "Batcher dropped the response" end, w).

Definition batchers_of (db_url : option string) (t : Tables pyval)
    : list (option (BatchedReq → A → exec ((string + NativeResponse) * A))) :=
  imap (λ i config, match config with Some _ => Some (batcher_of db_url (t_handlers t) i) | None => None end) (t_batch t).

(** The tables that move into the handler; no schema is compiled yet. *)
Definition native_parts (a : App) (pool : option bool) (db_url : option string) (scheme : string) (max_body : Z)
    : NativeParts (A := A) (R := R1) :=
  let t := tables a in
  mk_native_parts (app_router a) t (needs_request_of (t_handlers t)) (replicate (length (t_schema_jsons t)) None)
    (batchers_of db_url t) pool db_url scheme max_body.

Definition native_handler_of (p : NativeParts (A := A) (R := R1)) : HandlerFn A :=
  make_native_handler urlencoded xml_events unescape parts_of field_text disk max_upload get_temps put_temps
    query_with_params body_error http_version p.

(** ** The server *)

Context (ws_accept : string → string).
Context (call0 : pyval → A → string + pyval) (truthy : pyval → string + bool) (took : pyval → A → option Z).
(** The WASM filter that was loaded, if one was, and what the engine makes of it. *)
Context (wasm : option (string + (string → string + string))).
Context (get_breakers : W → PerRoute) (put_breakers : PerRoute → W → W) (now : W → Z).
Context (joined : CoalesceKey → W → option outcome).
Context (gateway_state : string → W → @GatewayState GR).

(** [failure_threshold as u32], and milliseconds as nanoseconds. *)
Definition breaker_config (c : Z * Z) : CircuitBreakerConfig :=
  let d := CircuitBreakerConfig_default in
  mk_breaker_config (c.1 mod 2 ^ 32)%Z (success_threshold d) (c.2 * 1000000)%Z (half_open_max_requests d).

Definition when {X} (o : option X) (f : X → Server → Server) (s : Server) : Server :=
  match o with Some x => f x s | None => s end.

Definition add_circuit_breaker (c : CircuitBreakerConfig) : Server → Server :=
  add_middleware (breaker_handle c get_breakers put_breakers now).

(** Names that are no header names are left out of the key. *)
Definition add_coalescer (names : list string) : Server → Server :=
  add_middleware (coalesce_handle (omap header_name_from names) joined).

Definition secure_config (s : Settings (Obj := pyval) (A := A)) : option SecurityHeaders :=
  if secure_headers s then Some (default (without_hsts security_headers_default) (secure_headers_config s)) else None.

(** The middleware in the order it is added, after the WASM filter. *)
Definition add_configured (st : Settings (Obj := pyval) (A := A)) (s : Server) : Server :=
  let s := when (breaker_config <$> circuit_breaker_config st) add_circuit_breaker s in
  let s := when (coalesce_headers st) add_coalescer s in
  let s := when (secure_config st) add_security_headers s in
  let s := when (jwt_auth st) add_jwt s in
  let s := when (cors st) add_cors s in
  when (gateway_config st) (λ path, add_gateway (gateway_state path)) s.

Definition build_server (a : App) (addr : string) (p : NativeParts (A := A) (R := R1)) : exec (string + Server) :=
  let st := settings a in
  s ← with_handler (native_handler_of p) (server_new ws_accept (Tcp addr));
  let s := with_shutdown s in
  let s := match health_checks st with
           | [] => s
           | cs => with_health_registry (health_registry_of call0 truthy took cs) s
           end in
  let s := when (openapi_spec a) with_openapi_spec s in
  match (match wasm with Some engine => with_wasm_middleware engine s | None => inr s end) with
  | inl e => Ret (inl ("WASM middleware error: " +:+ e))
  | inr s =>
      let s := add_configured st s in
      let s := match frontend_mounts st with [] => s | ms => with_static_mounts ms s end in
      Ret (inr (if decide (ws_routes st = ∅) then s else with_ws ws_accept s))
  end.

(** The handler of HTTP/3, with both files: the same tables behind an empty chain. *)
Definition http3_chain (a : App) (pool : option bool) (db_url : option string) (max_body : Z) : option (MiddlewareChain A) :=
  _ ← http3_files (settings a); Some (chain_new (native_handler_of (native_parts a pool db_url "https" max_body))).

(** ** A run *)

(** What is left in the application: the tables, the plugins and most settings
    have moved out. *)
Definition taken (a : App) : App :=
  let st := settings a in
  mk_app HttpRouter.new tables_new (route_meta a) (named_routes a) (route_indices a) (tools a) (sessions a)
    (mk_settings [] None None None (http3_files st) (secure_headers st) None [] ∅ [] None None).

(** [helper.call_plugin_hook]. *)
Context (plugin_hook : pyval → string → A → option string * A).

(** [on_startup] of the plugins: the first that raises ends the run. *)
Fixpoint start_plugins (ps : list pyval) (w : A) : option string * A :=
  match ps with
  | [] => (None, w)
  | p :: ps' =>
      match plugin_hook p "on_startup" w with
      | (Some e, w) => (Some e, w)
      | (None, w) => start_plugins ps' w
      end
  end.

(** [on_shutdown] of all of them, whatever they raise. *)
Definition stop_plugins (ps : list pyval) (w : A) : A :=
  foldl (λ w p, (plugin_hook p "on_shutdown" w).2) w ps.

Definition crud_without_pool : string :=
  "a route registered with crud_table/crud_columns requires a database connection (set app.database)".

(** [parse] reads the address; [connect] is the database, when one is
    configured and not connected yet; [serve_run] is [Server::run]. *)
Context (parse_addr : string → string + string) (connect : A → (string + option (bool * string)) * A).
Context (serve_run : Server → A → exec (option string * W)).

(** What is served once the hooks have run. *)
Definition run_server (a : App) (addr : string) (max_body : Z) (pool : option (bool * string)) (w : A)
    : exec (option string * A) :=
  if existsb (λ c, match c with Some _ => true | None => false end) (t_crud (tables a)) && bool_decide (pool = None)
  then Ret (Some crud_without_pool, w)
  else
    s ← build_server a addr (native_parts a (fst <$> pool) (snd <$> pool) "http" max_body);
    match s with
    | inl e => Ret (Some e, w)
    | inr s => '(e, ws) ← serve_run s w; Ret (e, w_app ws)
    end.

Definition run (addr : string) (max_body : Z) (a : App) (w : A) : exec ((string + unit) * App * A) :=
  match parse_addr addr with
  | inl e => Ret (inl ("Invalid address: " +:+ e), a, w)
  | inr addr =>
      match connect w with
      | (inl msg, w) => Ret (inl ("Database init error: " +:+ msg), mk_app HttpRouter.new tables_new (route_meta a)
                              (named_routes a) (route_indices a) (tools a) (sessions a) (settings a), w)
      | (inr pool, w) =>
          match start_plugins (plugins (settings a)) w with
          | (Some e, w) => Ret (inl e, taken a, w)
          | (None, w) =>
              '(e, w) ← run_server a addr max_body pool w;
              let w := stop_plugins (plugins (settings a)) w in
              Ret (match e with Some e => inl ("Server error: " +:+ e) | None => inr tt end, taken a, w)
          end
      end
  end.

(** ** The chain of a server *)

Definition opt {X Y} (f : X → Y) (o : option X) : list Y := match o with Some x => [f x] | None => [] end.

(** What [add_configured] adds, from the outside in. *)
Definition configured (st : Settings (Obj := pyval) (A := A)) : list (Middleware W) :=
  (opt (λ c, breaker_handle (breaker_config c) get_breakers put_breakers now) (circuit_breaker_config st)
   ++ opt (λ names, coalesce_handle (omap header_name_from names) joined) (coalesce_headers st)
   ++ opt security_handle (secure_config st)
   ++ opt (λ j, jwt_handle (on_world j)) (jwt_auth st)
   ++ opt cors_handle (cors st)
   ++ opt (λ path, gateway_handle (gateway_state path)) (gateway_config st))%list.

Lemma when_chain {X} (f : X → Middleware W) (o : option X) (s : Server) :
  middlewares (srv_chain (when o (λ x, add_middleware (f x)) s)) = (middlewares (srv_chain s) ++ opt f o)%list ∧
  handler (srv_chain (when o (λ x, add_middleware (f x)) s)) = handler (srv_chain s).
Proof. destruct o, s; [done|]. simpl. by rewrite app_nil_r. Qed.

Lemma add_configured_chain st (s : Server) :
  middlewares (srv_chain (add_configured st s)) = (middlewares (srv_chain s) ++ configured st)%list ∧
  handler (srv_chain (add_configured st s)) = handler (srv_chain s).
Proof.
  unfold add_configured, configured, add_circuit_breaker, add_coalescer, add_security_headers, add_jwt, add_cors, add_gateway.
  assert (∀ o, opt (λ c, breaker_handle (breaker_config c) get_breakers put_breakers now) o
               = opt (λ c, breaker_handle c get_breakers put_breakers now) (breaker_config <$> o)) as Hb by by intros [].
  rewrite Hb. split; repeat first [rewrite (proj1 (when_chain _ _ _)) | rewrite (proj2 (when_chain _ _ _))]; [|done].
  by rewrite <- !app_assoc.
Qed.

Lemma build_server_chain a addr p s :
  build_server a addr p = Ret (inr s) →
  srv_chain s = mk_chain (configured (settings a)) (app_handler (native_handler_of p)).
Proof.
  unfold build_server. cbn [with_handler default_routes_set server_new mbind exec_bind]. intros Hs.
  match type of Hs with
  | match (match wasm with Some engine => with_wasm_middleware engine ?x | None => inr ?x end) with inl _ => _ | inr _ => _ end = _ =>
      assert (middlewares (srv_chain x) = [] ∧ handler (srv_chain x) = app_handler (native_handler_of p)) as [Hm Hh];
        [by destruct (health_checks (settings a)), (openapi_spec a)|revert Hs; generalize dependent x; intros s1 Hm Hh Hs]
  end.
  assert (∃ s2, srv_chain s2 = srv_chain s1 ∧ srv_chain s = srv_chain (add_configured (settings a) s2)) as (s2 & Hs2 & ->).
  { destruct wasm as [[e|run_wasm]|].
    - by destruct s1; simplify_eq/=.
    - exists (match with_wasm_middleware (inr run_wasm) s1 with inr s2 => s2 | inl _ => s1 end).
      destruct s1. simpl in *. split; [done|]. simplify_eq.
      destruct (frontend_mounts _), (decide _); first [done | by destruct (add_configured _ _)].
    - exists s1. split; [done|]. simplify_eq.
      destruct (frontend_mounts _), (decide _); first [done | by destruct (add_configured _ _)]. }
  destruct (add_configured_chain (settings a) s2) as [Hm2 Hh2]. rewrite Hs2, Hm in Hm2. rewrite Hs2, Hh in Hh2.
  destruct (srv_chain (add_configured (settings a) s2)). simpl in *. by subst.
Qed.

(** A configuration of security headers whose texts are header values. *)
Definition security_ok (h : SecurityHeaders) : Prop :=
  (include_hsts h = true → header_value (hsts_value h) = Some (hsts_value h)) ∧
  (include_csp h = true → header_value (join "; " (csp_directives h)) = Some (join "; " (csp_directives h))).

Lemma secured_refusal o r w (next : HandlerFn W) req :
  (∀ h, o = Some h → security_ok h) → next req w = Ret (inl r, w) →
  ∃ r', compose_all (opt security_handle o) next req w = Ret (inl r', w) ∧ status r' = status r.
Proof.
  intros Hok Hn. destruct o as [h|]; [|by exists r]. cbn [opt compose_all foldr]. unfold security_handle, after_ok.
  rewrite Hn. cbn [mbind exec_bind]. destruct (Hok h eq_refl) as [Hh Hc].
  destruct (security_headers_set h r Hh Hc) as (r' & -> & Hst & _). by exists r'.
Qed.

(** C16: The gate of a served application.  With a secret and no breaker, and
    security headers, if they are on, whose texts are header values: a request
    that is no OPTIONS where CORS is configured, and that the gate does not
    authorise, is answered 401 or 403 and nothing of the world changes,
    whatever CORS, the gateway and the handlers are; unless requests are
    coalesced and an equal one is in flight: then it is given the response of
    that one, whoever asked for it.  (The OPTIONS requests of CORS are left
    out: they should get the 204 of a preflight without a token, but CORS
    stands behind the gate, see [Examples.preflight_refused].) *)
Theorem gate_unless_joined a addr p s j req w :
  build_server a addr p = Ret (inr s) → jwt_auth (settings a) = Some j →
  circuit_breaker_config (settings a) = None →
  (∀ h, secure_config (settings a) = Some h → security_ok h) →
  (is_Some (cors (settings a)) → req_method req ≠ "OPTIONS") →
  (¬ ∃ req', authorised (on_world j) req w req') →
  match coalesce_headers (settings a) ≫= λ names, joined (key_of (omap header_name_from names) req) w with
  | Some (inl r) => chain_run (srv_chain s) req w = Ret (inl (to_response r), w)
  | Some (inr e) => chain_run (srv_chain s) req w = Ret (inr e, w)
  | None => ∃ r, chain_run (srv_chain s) req w = Ret (inl r, w) ∧ status r ∈ [401; 403]%Z
  end.
Proof.
  intros Hs%build_server_chain Hj Hcb Hsec _ Hno. rewrite Hs, chain_run_eq. cbn [middlewares handler].
  unfold configured. rewrite Hcb, Hj. cbn [opt app]. rewrite compose_all_app.
  match goal with |- context [compose_all (opt _ (coalesce_headers _)) ?n] => set (next := n) end.
  assert (∃ r, next req w = Ret (inl r, w) ∧ status r ∈ [401; 403]%Z) as Hnext.
  { subst next. rewrite compose_all_app. cbn [compose_all foldr].
    destruct (jwt_handle_cases (on_world j) req w) as [(req' & Ha & _)|(st & msg & Hst & Hr)]; [by destruct Hno; exists req'|].
    match goal with |- context [jwt_handle (on_world j) ?n] =>
      destruct (secured_refusal (secure_config (settings a)) _ w (jwt_handle (on_world j) n) req Hsec (Hr n)) as (r' & Hr' & Hs')
    end.
    exists r'. rewrite Hs'. split; [exact Hr'|done]. }
  clearbody next. destruct (coalesce_headers (settings a)) as [names|]; [|done]. cbn [mbind option_bind opt compose_all foldr].
  unfold coalesce_handle. by destruct (joined _ w) as [[r|e]|].
Qed.

(** ** After a run *)

(** C27: A run takes the routes out of the application.  However it ends, once
    the address was read no route is left to serve, but the paths of GET
    routes are still known: to register one of them again panics. *)
Theorem rerun_get_panics `{!PyObject pyval} addr max_body a w r a' w' path i h args crud query_json :
  run addr max_body a w = Ret (r, a', w') → (∃ addr', parse_addr addr = inr addr') →
  route_indices a !! ("GET", path) = Some i →
  make_crud_spec (crud_table args) (crud_columns args) = inr crud → resolve_schema_json (query_schema args) = inr query_json →
  tables a' = tables_new ∧ HttpRouter.list_routes (app_router a') = [] ∧ route_indices a' = route_indices a ∧
  ∀ from_str err_text, get from_str err_text path h args a' = Panic.
Proof.
  intros Hrun (addr' & Haddr) Hi Hcrud Hq. unfold run in Hrun. rewrite Haddr in Hrun.
  assert (tables a' = tables_new ∧ app_router a' = HttpRouter.new ∧ route_indices a' = route_indices a) as (Ht & Hr & Hx).
  { destruct (connect w) as [[msg|pool] w1]; [by simplify_eq/=|].
    destruct (start_plugins (plugins (settings a)) w1) as [[e|] w2]; [by simplify_eq/=|].
    apply bind_Ret_inv in Hrun as ([e w3] & _ & Hrun). by simplify_eq/=. }
  split; [done|]. split; [by rewrite Hr|]. split; [done|]. intros from_str err_text. unfold get, m_bind, m_lift, try_tables.
  rewrite Hcrud. cbn [mbind exec_bind]. rewrite Hq. cbn [mbind exec_bind]. by rewrite Hx, Hi, Ht.
Qed.
End run.

(** ** Validators: the cache cannot be seen *)

Section cache_lemmas.
Context `{!JsonSchema}.

(** Every entry is what its text compiles to. *)
Definition cache_ok (cache : gmap string Validator) : Prop :=
  ∀ s v, cache !! s = Some v → ∃ j, from_json s = inr j ∧ Validate.build app_format_validators j = inr v.

Lemma validate_value_cached s v cache :
  cache_ok cache →
  (validate_value s v cache).1 = (validate_value s v ∅).1 ∧ cache_ok (validate_value s v cache).2.
Proof.
  intros Hc. unfold validate_value. destruct (from_json s) as [e|j] eqn:Hs; [done|].
  destruct (from_json v) as [e|x]; [done|]. unfold app_build_validator. rewrite lookup_empty.
  destruct (cache !! s) as [v'|] eqn:Hl.
  - destruct (Hc s v' Hl) as (j' & Hj & Hb). rewrite Hs in Hj. injection Hj as <-. by rewrite Hb.
  - destruct (Validate.build app_format_validators j) as [e|v'] eqn:Hb; [done|]. split; [done|].
    intros s' v''. simpl. rewrite lookup_insert. case_decide; [intros [= <-]; subst; eauto|apply Hc].
Qed.

Fixpoint validate_values (calls : list (string * string)) (cache : gmap string Validator) : list (string + list string) :=
  match calls with
  | [] => []
  | (s, v) :: calls' => let '(r, cache) := validate_value s v cache in r :: validate_values calls' cache
  end.

(** The cache of validators cannot be seen: any sequence of calls answers
    as if each compiled its schema anew. *)
Theorem validator_cache_transparent calls :
  validate_values calls ∅ = (λ c : string * string, (validate_value c.1 c.2 ∅).1) <$> calls.
Proof.
  assert (cache_ok ∅) as Hc by (intros s v; by rewrite lookup_empty).
  revert Hc. generalize (∅ : gmap string Validator) at 1 2 as cache.
  induction calls as [|[s v] calls IH]; intros cache Hc; [done|]. cbn [validate_values fmap list_fmap].
  destruct (validate_value_cached s v cache Hc) as [Hr Hok]. destruct (validate_value s v cache) as [r cache'].
  cbn [fst snd] in *. by rewrite Hr, IH.
Qed.
End cache_lemmas.

(** ** Examples *)

Module Examples.
#[local] Existing Instance OpenAi.Examples.serde.
#[local] Existing Instance Middleware.Examples.jwt.
#[local] Existing Instance NativeHandler.Examples.pure.
#[local] Existing Instance NativeHandler.Examples.digits.
#[local] Instance values : ParseValue := {| parse_value _ := None |}.
#[local] Instance named_plugin : Plugin string Z := {|
  plugin_name p := p; on_startup _ w := Ret (None, w); on_shutdown _ w := Ret (None, w) |}.

(** The world counts what is called; a handler answers what it is. *)
#[local] Instance counting : Python Z := {|
  validate_body _ _ w := (inr None, w);
  parse_json_body _ w := (None, w);
  call_handler h _ w := (inr h, w + 1)%Z;
  future_result v w := (inr v, w);
  run_background _ w := w;
  wrap_result _ w := (None, w) |}.

#[local] Instance opaque : PyObject pyval := {|
  py_string _ := None; py_is_dict _ := false; py_json_dumps _ := inl "not serializable"; py_call_attr _ _ := None; py_none := PNone |}.

Lemma validator_cache_transparent_example :
  validate_values [("10", "11"); ("10", "7"); ("x", "7")] ∅
  = [inr ["too large"]; inr []; inl "invalid schema: expected value"].
Proof. vm_compute. reflexivity. Qed.

Abbreviation App := (JustAPIApp pyval (list (string * nat)) Z).

Definition item : pyval := PList [PStr "secret"].
Definition registered (a : exec ((string + unit) * App)) : App := match a with Ret (_, a) => a | Panic => app_new end.
Definition app1 : App := registered (get (λ _, inl "") (λ _, "conflict") "/items" item no_args app_new).
Definition secured (coalesced with_cors : bool) : App :=
  let a := put_jwt (from_secret "s") app1 in
  let a := if with_cors then put_cors cors_permissive a else a in
  if coalesced then enable_request_coalescing None a else a.

Abbreviation W1 := (World (list (string * Handler Z)) Z).
Definition world0 : W1 := mk_world HttpRouter.new pool_new metrics_new 0%Z.

Definition parts1 (a : App) : NativeParts (A := Z) (R := list (string * nat)) :=
  native_parts (λ _ _ w, (inr PNone, w)) a None None "http" 100.
Definition server1 (joined : CoalesceKey → W1 → option outcome) (a : App) : exec (string + Server (list (string * Handler Z)) Z string) :=
  build_server (GR := list (string * GatewayRoute)) (λ _, None) (λ _, "") (λ _, Some []) (λ _, []) id (λ _ _, ([], None)) (λ _, inl "") (λ _, None) 100%Z (λ _, []) (λ _ w, w)
    (λ _ _ w, (inr JNull, w)) "reset" (λ _, "1.1") (λ k, k) (λ _ _, inl "") (λ _, inr true) (λ _ _, None) None
    (λ _, PerRoute.new) (λ _ w, w) (λ _, 0%Z) joined (λ _ _, gateway_new (λ _, inl "") (inl "")) a "127.0.0.1:80" (parts1 a).

(** What is in flight for no key, and for every key. *)
Definition alone (_ : CoalesceKey) (_ : W1) : option outcome := None.
Definition leader : Response := mk_response 200 [("connection", "close"); ("x-user", "ann")] "secret".
Definition led (_ : CoalesceKey) (_ : W1) : option outcome := Some (inl leader).

Definition anonymous (m : string) : Request := new_request m "/items" None [("origin", "https://a.example")] (Some "").

Definition answer (s : exec (string + Server (list (string * Handler Z)) Z string)) (req : Request) : option (Response * Z) :=
  match s with
  | Ret (inr s) => match chain_run (srv_chain s) req world0 with Ret (inl r, w) => Some (r, w_app w) | _ => None end
  | _ => None
  end.
Definition status_of (r : option (Response * Z)) : option (Z * Z) := (λ x : Response * Z, (status x.1, x.2)) <$> r.

Example open_called : status_of (answer (server1 alone app1) (anonymous "GET")) = Some (200%Z, 1%Z).
Proof. vm_compute. reflexivity. Qed.
Example gated : status_of (answer (server1 alone (secured false false)) (anonymous "GET")) = Some (401%Z, 0%Z).
Proof. vm_compute. reflexivity. Qed.

(** The response of another's request, and no token. *)
Example joined_leaks :
  answer (server1 led (secured true false)) (anonymous "GET") = Some (mk_response 200 [("x-user", "ann")] "secret", 0%Z).
Proof. vm_compute. reflexivity. Qed.

(** A preflight carries no token: the gate refuses it before CORS sees it. *)
Example preflight_refused :
  let r := answer (server1 alone (secured false true)) (anonymous "OPTIONS") in
  status_of r = Some (401%Z, 0%Z) ∧ (r ≫= λ x, assoc_get "access-control-allow-origin" (headers x.1)) = None.
Proof. vm_compute. split; reflexivity. Qed.

(** Over HTTP/3 the same application answers without a token. *)
Definition over_http3 (a : App) (req : Request) : option (Z * Z) :=
  c ← http3_chain (λ _, Some []) (λ _, []) id (λ _ _, ([], None)) (λ _, inl "") (λ _, None) 100%Z (λ _, []) (λ _ w, w)
        (λ _ _ w, (inr JNull, w)) "reset" (λ _, "3") (λ _ _ w, (inr PNone, w)) a None None 100%Z;
  match chain_run c req 0%Z with Ret (inl r, w) => Some (status r, w) | _ => None end.
Example http3_ungated : over_http3 (enable_http3 "cert.pem" "key.pem" (secured false false)) (anonymous "GET") = Some (200%Z, 1%Z).
Proof. vm_compute. reflexivity. Qed.

(** The threshold is cut to 32 bits. *)
Example threshold_cut : failure_threshold (breaker_config (2 ^ 32, 1000)%Z) = 0%Z.
Proof. reflexivity. Qed.

(** HEAD of a GET route is not documented. *)
Example documented : documented_routes [("GET", "/a"); ("HEAD", "/a"); ("HEAD", "/b")] = [("GET", "/a"); ("HEAD", "/b")].
Proof. vm_compute. reflexivity. Qed.

(** A plugin that fails to start: those before it are not shut down. *)
Definition hook (p : pyval) (name : string) (w : Z) : option string * Z :=
  match p with
  | PNone => (Some "no licence", w)
  | _ => (None, if String.eqb name "on_startup" then w + 1 else w - 1)%Z
  end.
Definition run1 (a : App) : exec ((string + unit) * App * Z) :=
  run (P := string) (GR := list (string * GatewayRoute)) (λ _, None) (λ _, "") (λ _, Some []) (λ _, []) id (λ _ _, ([], None)) (λ _, inl "") (λ _, None) 100%Z (λ _, []) (λ _ w, w)
    (λ _ _ w, (inr JNull, w)) "reset" (λ _, "1.1") (λ _ _ w, (inr PNone, w)) (λ k, k) (λ _ _, inl "") (λ _, inr true)
    (λ _ _, None) None (λ _, PerRoute.new) (λ _ w, w) (λ _, 0%Z) alone (λ _ _, gateway_new (λ _, inl "") (inl "")) hook
    inr (λ w, (inr None, w)) (λ _ w, Ret (None, mk_world HttpRouter.new pool_new metrics_new w)) "127.0.0.1:80" 100%Z a 0%Z.

Definition with_plugins (ps : list pyval) (a : App) : App := modify_settings (λ s,
  mk_settings ps (gateway_config s) (circuit_breaker_config s) (coalesce_headers s) (http3_files s) (secure_headers s)
    (secure_headers_config s) (health_checks s) (ws_routes s) (frontend_mounts s) (jwt_auth s) (cors s)) a.
Definition world_after (r : exec ((string + unit) * App * Z)) : option (bool * Z) :=
  match r with Ret (res, _, w) => Some (is_inr res, w) | Panic => None end.

Example hooks_balanced : world_after (run1 (with_plugins [PBool true; PBool false] app1)) = Some (true, 0%Z).
Proof. vm_compute. reflexivity. Qed.
Example started_not_stopped : world_after (run1 (with_plugins [PBool true; PNone] app1)) = Some (false, 1%Z).
Proof. vm_compute. reflexivity. Qed.

Lemma gate_unless_joined_witness :
  (∃ s r, server1 alone (secured true true) = Ret (inr s) ∧
     chain_run (srv_chain s) (anonymous "GET") world0 = Ret (inl r, world0) ∧ status r ∈ [401; 403]%Z) ∧
  ∃ s, server1 led (secured true true) = Ret (inr s) ∧
     chain_run (srv_chain s) (anonymous "GET") world0 = Ret (inl (to_response leader), world0).
Proof.
  assert (¬ ∃ req', authorised (on_world (R := list (string * Handler Z)) (from_secret "s")) (anonymous "GET") world0 req') as Hno.
  { intros (req' & Ha). destruct Ha as [Hr|token claims Hh _ _]; vm_compute in *; discriminate. }
  assert (∀ h, secure_config (settings (secured true true)) = Some h → security_ok h) as Hsec by done.
  split.
  - assert (∃ s, server1 alone (secured true true) = Ret (inr s)) as [s Hs] by by eexists.
    pose proof Hs as Hb. unfold server1 in Hb.
    destruct (gate_unless_joined _ _ _ _ _ _ _ _ _ _ _ _ _ _ _ _ _ _ _ _ _ _ _ _ _ _ _ _ _ (anonymous "GET") world0
                Hb eq_refl eq_refl Hsec (λ _ Heq, ltac:(discriminate Heq)) Hno) as (r & Hr & Hst).
    exists s, r. split; [exact Hs|]. by split.
  - assert (∃ s, server1 led (secured true true) = Ret (inr s)) as [s Hs] by by eexists.
    exists s. split; [exact Hs|]. unfold server1 in Hs.
    exact (gate_unless_joined _ _ _ _ _ _ _ _ _ _ _ _ _ _ _ _ _ _ _ _ _ _ _ _ _ _ _ _ _ (anonymous "GET") world0
             Hs eq_refl eq_refl Hsec (λ _ Heq, ltac:(discriminate Heq)) Hno).
Defined.

Lemma rerun_get_panics_witness :
  ∃ a', run1 app1 = Ret (inr tt, a', 0%Z) ∧ get (λ _, inl "") (λ _, "conflict") "/items" item no_args a' = Panic.
Proof.
  assert (∃ a', run1 app1 = Ret (inr tt, a', 0%Z)) as [a' Hrun] by by eexists.
  exists a'. split; [exact Hrun|]. unfold run1 in Hrun.
  destruct (rerun_get_panics _ _ _ _ _ _ _ _ _ _ _ _ _ _ _ _ _ _ _ _ _ _ _ _ _ _ _ _ _ _ _ _ _ _ _ _ "/items" 0 item no_args None None
              Hrun ltac:(by eexists) eq_refl eq_refl eq_refl) as (_ & _ & _ & Hp).
  apply Hp.
Defined.
End Examples.
