(* ===== verification/Requests.v ===== *)
(** * Requests: what a handler sees of its request

    [crates/justapi-py/src/request.rs]: the connection behind [Request] and
    [HTTPConnection], the headers, query parameters, cookies and URL made of
    it, the mapping of the request over its state, forms and the body stream.
    A dict is the list of its entries in the order of insertion; the state is
    one dict that the request and its [State] objects share, so it is passed
    along.  The futures of [receive], [close] and the like are not modelled,
    only what they resolve to. *)

From Stdlib Require Import Ascii.
From S2P Require Import Prelude F32 Text F64 HttpRouter OpenAiHttp Http Middleware StaticFiles Validate Crud Xml.
From S2P Require Import Serve Forms OpenApi NativeApp NativeHandler.

#[local] Open Scope string_scope.

(** A dict with [str] keys. *)
Abbreviation pydict := (list (string * pyval)).
Definition to_dict (d : pydict) : pyval := PDict (prod_map PStr id <$> d).

Record Conn := mk_conn {
  c_method : string; c_path : string; path_params_raw : list (string * string); query_string_raw : string;
  headers_raw : list (string * string); c_scheme : string; c_client : option (string * Z); c_app : option pyval;
  c_http_version : string; c_state : pydict }.

Definition set_state (d : pydict) (c : Conn) : Conn :=
  mk_conn (c_method c) (c_path c) (path_params_raw c) (query_string_raw c) (headers_raw c) (c_scheme c) (c_client c)
    (c_app c) (c_http_version c) d.

(** ** Parts of a connection *)

Definition host_of (c : Conn) : option string :=
  from_utf8_lossy <$> (snd <$> List.find (λ kv : string * string, eq_ignore_case kv.1 "host") (headers_raw c)).

(** The part after the last colon has no colon to trim. *)
Definition split_host_port (host : string) : string * option Z :=
  match rsplit_at ":" host with
  | Some (h, p) => if str_all is_digit p then (h, parse_unsigned 65535 p) else (host, None)
  | None => (host, None)
  end.

Fixpoint replace_plus (s : string) : string :=
  match s with EmptyString => EmptyString | String c s' => String (if Ascii.eqb c "+" then " "%char else c) (replace_plus s') end.

Fixpoint decode_bytes (s : string) : string :=
  match s with
  | EmptyString => EmptyString
  | String b rest =>
      if Ascii.eqb b "%" then
        match rest with
        | String h (String l rest') =>
            match Crud.hex_digit h, Crud.hex_digit l with
            | Some hi, Some lo => String (ascii_of_nat (Z.to_nat (hi * 16 + lo))) (decode_bytes rest')
            | _, _ => String b (decode_bytes rest)
            end
        | _ => String b (decode_bytes rest)
        end
      else String b (decode_bytes rest)
  end.

Definition percent_decode (s : string) : string := from_utf8_lossy (decode_bytes (replace_plus s)).

(** A pair of a form; nothing for an empty piece. *)
Definition form_pair (pair : string) : option (string * string) :=
  if String.eqb pair EmptyString then None
  else let '(k, v) := default (pair, EmptyString) (split_once "=" pair) in Some (percent_decode k, percent_decode v).

Definition form_pairs (s : string) : list (string * string) := omap form_pair (split "&" (from_utf8_lossy s)).

(** [set_item] one by one. *)
Definition dict_of (pairs : list (string * string)) : pydict :=
  foldl (λ d kv, assoc_set kv.1 (PStr kv.2) d) [] pairs.

(** The name is trimmed once more, the value is taken as it is. *)
Definition cookie_of (part : string) : option (string * string) :=
  '(k, v) ← split_once "=" (trim part); Some (trim k, v).

Definition build_cookies (c : Conn) : pydict :=
  dict_of (kv ← headers_raw c;
           if eq_ignore_case kv.1 "cookie" then omap cookie_of (split ";" (from_utf8_lossy kv.2)) else []).

Record URL := mk_url {
  u_scheme : string; u_host : string; u_port : option Z; u_path : string; u_query : string; u_fragment : string }.

Definition build_url (scheme host path query fragment : string) : URL :=
  let '(hostname, port) := split_host_port host in
  mk_url scheme hostname port path (from_utf8_lossy query) fragment.

Definition default_port (scheme : string) (p : Z) : bool :=
  (String.eqb scheme "http" && (p =? 80)%Z) || (String.eqb scheme "https" && (p =? 443)%Z).

Definition prefixed (mark s : string) : string := if String.eqb s EmptyString then EmptyString else mark +:+ s.

Definition url_to_string (u : URL) : string :=
  u_scheme u +:+ "://" +:+ u_host u
  +:+ match u_port u with
      | Some p => if default_port (u_scheme u) p then "" else ":" +:+ decimal p
      | None => ""
      end
  +:+ u_path u +:+ prefixed "?" (u_query u) +:+ prefixed "#" (u_fragment u).

Definition url_repr (u : URL) : string := "URL(" +:+ url_to_string u +:+ ")".
Definition url_eq (u v : URL) : bool := String.eqb (url_to_string u) (url_to_string v).
Definition url_port (u : URL) : pyval := match u_port u with Some p => PInt p | None => PNone end.

(** ** Headers and query parameters *)

Abbreviation Headers := (list (string * string)).
Abbreviation QueryParams := (list (string * string)).

(** The last one of a name. *)
Definition find_last {X} (f : X → bool) (l : list X) : option X := List.find f (rev l).

Definition headers_get (key : string) (h : Headers) : option string :=
  from_utf8_lossy <$> (snd <$> find_last (λ kv : string * string, eq_ignore_case kv.1 key) h).
Definition headers_contains (key : string) (h : Headers) : bool :=
  existsb (λ kv : string * string, eq_ignore_case kv.1 key) (rev h).
Definition headers_getitem (key : string) (h : Headers) : string + string :=
  match headers_get key h with Some v => inr v | None => inl key end.
Definition headers_items (h : Headers) : list (string * string) := prod_map from_utf8_lossy from_utf8_lossy <$> h.
Definition headers_keys (h : Headers) : list string := from_utf8_lossy <$> h.*1.
Definition headers_values (h : Headers) : list string := from_utf8_lossy <$> h.*2.

Definition query_get (key : string) (q : QueryParams) : option string :=
  snd <$> find_last (λ kv : string * string, String.eqb kv.1 key) q.
Definition query_getitem (key : string) (q : QueryParams) : string + string :=
  match query_get key q with Some v => inr v | None => inl key end.
Definition query_getlist (key : string) (q : QueryParams) : list string :=
  (List.filter (λ kv : string * string, String.eqb kv.1 key) q).*2.
Definition query_contains (key : string) (q : QueryParams) : bool :=
  existsb (λ kv : string * string, String.eqb kv.1 key) (rev q).

Definition build_query_params (c : Conn) : QueryParams := form_pairs (query_string_raw c).

(** ** What a key stands for *)

(** The classes of this file, and a view of the shared state. *)
Inductive value := Plain (v : pyval) | VHeaders (h : Headers) | VQuery (q : QueryParams) | VUrl (u : URL) | VState.

Definition client_value (c : Conn) : pyval :=
  match c_client c with Some (h, p) => PTuple [PStr h; PInt p] | None => PNone end.
Definition opt_value (v : option pyval) : pyval := default PNone v.
Definition path_params (c : Conn) : pyval := to_dict (dict_of (path_params_raw c)).

Definition url_of (c : Conn) : URL :=
  build_url (c_scheme c) (default "localhost" (host_of c)) (c_path c) (query_string_raw c) "".
Definition base_url_of (c : Conn) : URL := build_url (c_scheme c) (default "localhost" (host_of c)) "" "" "".

Definition server_value (c : Conn) : pyval :=
  match host_of c with
  | Some h => let '(host, port) := split_host_port h in PTuple [PStr host; PInt (default 0%Z port)]
  | None => PNone
  end.

(** The entry [state] is the shared dict, as it is now. *)
Definition build_scope (c : Conn) : pydict :=
  [("type", PStr "http"); ("method", PStr (c_method c)); ("http_version", PStr (c_http_version c));
   ("scheme", PStr (c_scheme c)); ("path", PStr (c_path c)); ("raw_path", PNone);
   ("query_string", PBytes (query_string_raw c));
   ("headers", PList ((λ kv : string * string, PTuple [PBytes kv.1; PBytes kv.2]) <$> headers_raw c));
   ("client", client_value c); ("server", server_value c); ("app", opt_value (c_app c));
   ("state", to_dict (c_state c)); ("path_params", path_params c)].

(** The keys that both classes know. *)
Definition conn_key (key : string) (c : Conn) : option value :=
  if String.eqb key "method" then Some (Plain (PStr (c_method c)))
  else if String.eqb key "path" then Some (Plain (PStr (c_path c)))
  else if String.eqb key "path_params" then Some (Plain (path_params c))
  else if String.eqb key "query_string" then Some (Plain (PBytes (query_string_raw c)))
  else if String.eqb key "headers" then Some (VHeaders (headers_raw c))
  else if String.eqb key "query_params" then Some (VQuery (build_query_params c))
  else if String.eqb key "cookies" then Some (Plain (to_dict (build_cookies c)))
  else if String.eqb key "scheme" then Some (Plain (PStr (c_scheme c)))
  else if String.eqb key "client" then Some (Plain (client_value c))
  else if String.eqb key "app" then Some (Plain (opt_value (c_app c)))
  else if String.eqb key "url" then Some (VUrl (url_of c))
  else if String.eqb key "base_url" then Some (VUrl (base_url_of c))
  else if String.eqb key "scope" then Some (Plain (to_dict (build_scope c)))
  else if String.eqb key "state" then Some VState
  else None.

(** [state.get_item(key)], else the default. *)
Definition state_value (key : string) (c : Conn) (dflt : option pyval) : value :=
  Plain (match assoc_get key (c_state c) with Some v => v | None => opt_value dflt end).

Record Request := mk_request {
  conn : Conn; body_raw : string; db_url_raw : option string; form_data : option pydict;
  path_params_cached : option pydict; parsed_body : option pyval }.

Definition on_state (f : pydict → pydict) (r : Request) : Request :=
  mk_request (set_state (f (c_state (conn r))) (conn r)) (body_raw r) (db_url_raw r) (form_data r) (path_params_cached r)
    (parsed_body r).

(** [json_value_to_request]: 64 bit integers are [int], larger ones [float];
    an object inside a value is dropped. *)
Section claims.
(** [as_f64] of an integer, as Python prints it. *)
Context (float_of : Z → string).

Fixpoint json_value_to_request (v : json) : pyval :=
  match v with
  | JNull | JObject _ => PNone
  | JBool b => PBool b
  | JNumber (IntNumber n) => if (- 2 ^ 63 <=? n)%Z && (n <=? 2 ^ 63 - 1)%Z then PInt n else PFloat (float_of n)
  | JNumber (FloatNumber t) => PFloat t
  | JString s => PStr s
  | JArray a => PList (json_value_to_request <$> a)
  end.

(** [Request::new]: the claims of a token become [state["auth"]]. *)
Definition auth_state (from_str : string → string + json) (claims : option string) : pydict :=
  match from_str <$> claims with
  | Some (inr (JObject o)) =>
      [("auth", to_dict (foldl (λ d kv, assoc_set kv.1 (json_value_to_request kv.2) d) [] o))]
  | _ => []
  end.

Definition request_new (from_str : string → string + json) (method path : string) (params : list (string * string))
    (query : string) (hs : list (string * string)) (b : string) (db_url : option string) (form : option pydict)
    (scheme : string) (client : option (string * Z)) (app : option pyval) (version : string) (claims : option string)
    : Request :=
  mk_request (mk_conn method path params query hs scheme client app version (auth_state from_str claims)) b db_url form None None.
End claims.

Definition set_parsed_body (v : pyval) (r : Request) : Request :=
  mk_request (conn r) (body_raw r) (db_url_raw r) (form_data r) (path_params_cached r) (Some v).

(** The dict of the path parameters is made once: what a handler writes into
    it is there the next time. *)
Definition params_dict (r : Request) : pydict := default (dict_of (path_params_raw (conn r))) (path_params_cached r).
Definition cache_params (d : pydict) (r : Request) : Request :=
  mk_request (conn r) (body_raw r) (db_url_raw r) (form_data r) (Some d) (parsed_body r).
Definition request_path_params (r : Request) : pydict * Request := (params_dict r, cache_params (params_dict r) r).

(** [Request::get]: its value, and the request after it. *)
Definition request_value (key : string) (dflt : option pyval) (r : Request) : value :=
  if String.eqb key "path_params" then Plain (to_dict (params_dict r))
  else if String.eqb key "body" then Plain (default (PBytes (body_raw r)) (parsed_body r))
  else if String.eqb key "db_url" then Plain (opt_value (PStr <$> db_url_raw r))
  else if String.eqb key "form" then Plain (opt_value (to_dict <$> form_data r))
  else match conn_key key (conn r) with
       | Some v => v
       | None => state_value key (conn r) dflt
       end.
Definition request_get (key : string) (dflt : option pyval) (r : Request) : value * Request :=
  (request_value key dflt r, if String.eqb key "path_params" then (request_path_params r).2 else r).

(** [__getitem__]: what is [None] counts as missing. *)
Definition present_or (key : string) (v : value) : string + value :=
  match v with Plain PNone => inl key | _ => inr v end.
Definition request_getitem (key : string) (r : Request) : (string + value) * Request :=
  let '(v, r) := request_get key None r in (present_or key v, r).
Definition request_setitem (key : string) (v : pyval) : Request → Request := on_state (assoc_set key v).

Definition known_keys : list string :=
  ["method"; "path"; "path_params"; "query_string"; "headers"; "query_params"; "cookies"; "body"; "scope"; "url";
   "base_url"; "state"; "scheme"; "db_url"].
Definition in_state (key : string) (c : Conn) : bool := bool_decide (is_Some (assoc_get key (c_state c))).
Definition request_contains (key : string) (r : Request) : bool :=
  in_state key (conn r) || existsb (String.eqb key) known_keys.

(** [user], [auth] and [session]. *)
Definition state_get (name : string) (c : Conn) : option pyval := assoc_get name (c_state c).

(** [url_for], a method of the application. *)
Definition request_url_for (call : pyval → string → gmap string string → string + string) (name : string)
    (kwargs : gmap string string) (c : Conn) : string + string :=
  match c_app c with
  | Some app => call app name kwargs
  | None => inl "request.url_for requires an app with named routes"
  end.

(** [json.loads] of the body, unless it is parsed already. *)
Definition request_json (loads : string → string + pyval) (r : Request) : string + pyval :=
  match parsed_body r with Some v => inr v | None => loads (body_raw r) end.
Definition validated_body (r : Request) : pyval := opt_value (parsed_body r).

Definition request_form (r : Request) : pydict :=
  match form_data r with
  | Some d => d
  | None =>
      let content_type :=
        default "" ((λ kv : string * string, lowercase (from_utf8_lossy kv.2))
                    <$> List.find (λ kv : string * string, eq_ignore_case kv.1 "content-type") (headers_raw (conn r))) in
      if starts_with "application/x-www-form-urlencoded" content_type then dict_of (form_pairs (body_raw r)) else []
  end.

(** What [receive] resolves to. *)
Definition receive (b : pyval) : pydict := [("type", PStr "http.request"); ("body", b); ("more_body", PBool false)].

(** ** [HTTPConnection] *)

Definition connection_new (method path : string) (params : list (string * string)) (query : string)
    (hs : list (string * string)) (scheme : string) (client : option (string * Z)) (app : option pyval) (version : string)
    : Conn := mk_conn method path params query hs scheme client app version [].

Definition connection_get (key : string) (dflt : option pyval) (c : Conn) : value :=
  match conn_key key c with Some v => v | None => state_value key c dflt end.
Definition connection_getitem (key : string) (c : Conn) : string + value := present_or key (connection_get key None c).
Definition connection_setitem (key : string) (v : pyval) (c : Conn) : Conn := set_state (assoc_set key v (c_state c)) c.
Definition connection_contains (key : string) (c : Conn) : bool :=
  in_state key c || existsb (String.eqb key) (List.filter (λ k, negb (existsb (String.eqb k) ["body"; "db_url"])) known_keys).

(** ** [State] *)

Definition state_getattr (name : string) (d : pydict) : string + pyval :=
  match assoc_get name d with Some v => inr v | None => inl name end.
Definition state_setattr (name : string) (v : pyval) (d : pydict) : pydict := assoc_set name v d.
Definition state_delattr (name : string) (d : pydict) : string + pydict :=
  match assoc_get name d with Some _ => inr (assoc_remove name d) | None => inl name end.
Definition state_contains (name : string) (d : pydict) : bool := bool_decide (is_Some (assoc_get name d)).

(** ** The stream of a body *)

Record RequestStream := mk_stream { rs_body : string; rs_done : bool }.

Definition stream_of (r : Request) : RequestStream := mk_stream (body_raw r) false.
(** [__aiter__] is a clone, and a clone starts again. *)
Definition aiter (s : RequestStream) : RequestStream := mk_stream (rs_body s) false.
(** [__anext__]; [None] is [StopAsyncIteration]. *)
Definition anext (s : RequestStream) : option string * RequestStream :=
  if rs_done s then (None, s) else (Some (rs_body s), mk_stream (rs_body s) true).

(** ** Decoding *)

Lemma replace_plus_head c : Crud.hex_digit (if Ascii.eqb c "+" then " "%char else c) = Crud.hex_digit c.
Proof. destruct c as [[] [] [] [] [] [] [] []]; reflexivity. Qed.

Lemma decode_bytes_spec n s : (String.length s ≤ n)%nat → decode_bytes (replace_plus s) = Crud.percent_bytes s.
Proof.
  revert s. induction n as [|n IH]; intros [|b s] Hn; cbn [String.length] in Hn; [done|lia|done|].
  cbn [replace_plus Crud.percent_bytes]. destruct (Ascii.eqb b "+") eqn:Hb.
  - cbn [decode_bytes]. change (Ascii.eqb " " "%") with false. cbv match. by rewrite IH by lia.
  - cbn [decode_bytes]. destruct (Ascii.eqb b "%") eqn:Hp; [|by rewrite IH by lia].
    destruct s as [|h [|l s]]; [done|by rewrite (IH (String h EmptyString)) by (simpl in *; lia)|].
    cbn [replace_plus]. rewrite !replace_plus_head.
    change (String (if Ascii.eqb h "+" then " "%char else h) (String (if Ascii.eqb l "+" then " "%char else l) (replace_plus s)))
      with (replace_plus (String h (String l s))). rewrite !IH by (simpl in *; lia). done.
Qed.

(** The two decoders of query strings, this one and the one of the CRUD
    routes, decode every text alike, although one replaces the plus signs
    first. *)
Theorem percent_decoders_agree s : percent_decode s = Crud.percent_decode s.
Proof. unfold percent_decode, Crud.percent_decode. by rewrite (decode_bytes_spec (String.length s)). Qed.

Lemma replace_plus_id s : str_all (λ c, negb (Ascii.eqb c "+")) s = true → replace_plus s = s.
Proof.
  induction s as [|c s IH]; [done|]. cbn [str_all replace_plus]. intros [Hc%negb_true_iff Hs]%andb_prop. by rewrite Hc, IH.
Qed.

Lemma decode_escape c s :
  decode_bytes (String.append (pct_byte c) s) = String c (decode_bytes s).
Proof. destruct c as [[] [] [] [] [] [] [] []]; reflexivity. Qed.

Lemma decode_encode s : utf8 s → percent_decode (pct_encode s) = s.
Proof.
  intros Hs. unfold percent_decode. rewrite replace_plus_id by (apply pct_without; each_char).
  assert (decode_bytes (pct_encode s) = s) as ->; [|done]. clear Hs.
  induction s as [|c s IH]; cbn [pct_encode]; [done|]. destruct (is_alphanumeric c) eqn:Hc; [|by rewrite decode_escape, IH].
  cbn [decode_bytes]. assert (Ascii.eqb c "%" = false) as -> by (destruct c as [[] [] [] [] [] [] [] []]; by vm_compute in Hc |- *).
  by rewrite IH.
Qed.

Lemma lossy_ascii s : str_all (λ c, (code c <? 128)%Z) s = true → from_utf8_lossy s = s.
Proof.
  induction s as [|c s IH]; [done|]. cbn [str_all]. intros [Hc Hs]%andb_prop. cbn [from_utf8_lossy]. by rewrite Hc, IH.
Qed.

Lemma split_of_join c l :
  l ≠ [] → Forall (λ s, str_all (λ x, negb (Ascii.eqb c x)) s = true) l → split c (join (String c EmptyString) l) = l.
Proof.
  intros Hne Hl. induction Hl as [|p l Hp Hl IH]; [done|]. destruct l as [|q l].
  - by apply split_with_none.
  - change (join (String c EmptyString) (p :: q :: l))
      with (String.append p (String.append (String c EmptyString) (join (String c EmptyString) (q :: l)))).
    change (String.append (String c EmptyString) (join (String c EmptyString) (q :: l)))
      with (String c (join (String c EmptyString) (q :: l))).
    rewrite split_append, IH by done. unfold split at 1. by rewrite split_with_none.
Qed.

(** A reference encoder of a form. *)
Definition form_encode (pairs : list (string * string)) : string := join "&" (cookie_pair <$> pairs).

Definition query_char (c : ascii) : bool := pct_char c || Ascii.eqb c "=".

Lemma pair_chars p : str_all query_char (cookie_pair p) = true.
Proof.
  unfold cookie_pair. rewrite str_all_append. cbn [str_all]. by rewrite !pct_without by each_char.
Qed.

Lemma form_pair_encode p : utf8 p.1 → utf8 p.2 → form_pair (cookie_pair p) = Some p.
Proof.
  intros Hk Hv. unfold form_pair. destruct (String.eqb_spec (cookie_pair p) EmptyString) as [He|_].
  { unfold cookie_pair in He. by destruct (pct_encode p.1). }
  unfold cookie_pair. rewrite (split_once_char "=") by (apply pct_without; each_char).
  cbn [from_option id]. by rewrite !decode_encode, <-surjective_pairing by done.
Qed.

(** Query parameters and forms round trip: what the encoding of some pairs
    is parsed into are those pairs, repeated names, empty names and empty
    values included, in order. *)
Theorem query_roundtrip pairs :
  Forall (λ kv : string * string, utf8 kv.1 ∧ utf8 kv.2) pairs →
  form_pairs (form_encode pairs) = pairs.
Proof.
  intros Hall. unfold form_pairs, form_encode.
  assert (str_all (λ c, (code c <? 128)%Z) (join "&" (cookie_pair <$> pairs)) = true) as Ha.
  { clear Hall. induction pairs as [|p [|q ps] IH]; [done| |].
    - apply (str_all_impl query_char); [each_char|apply pair_chars].
    - change (join "&" (cookie_pair <$> p :: q :: ps)) with (String.append (cookie_pair p) (String "&" (join "&" (cookie_pair <$> q :: ps)))).
      rewrite str_all_append. cbn [str_all]. rewrite IH, !andb_true_r. apply (str_all_impl query_char); [each_char|apply pair_chars]. }
  rewrite lossy_ascii by done. destruct pairs as [|p ps]; [done|].
  rewrite (split_of_join "&"); [|done|].
  - induction Hall as [|[k v] l [Hk Hv] _ IH]; [done|]. cbn [fmap list_fmap omap list_omap].
    rewrite form_pair_encode by done. f_equal. apply IH. clear -Ha. destruct l as [|q l]; [done|].
    change (join "&" (cookie_pair <$> (k, v) :: q :: l)) with (String.append (cookie_pair (k, v)) (String "&" (join "&" (cookie_pair <$> q :: l)))) in Ha.
    rewrite str_all_append in Ha. cbn [str_all] in Ha. by apply andb_prop in Ha as [_ [_ Ha]%andb_prop].
  - apply Forall_fmap, Forall_true. intros q. unfold compose. apply (str_all_impl query_char); [each_char|apply pair_chars].
Qed.

(** The [Host] of a name and a port. *)
Definition authority (h : string) (p : option Z) : string :=
  match p with Some p => h +:+ String ":" (decimal p) | None => h end.

Definition plain_host (h : string) : Prop :=
  str_all (λ x, negb (Ascii.eqb x ":")) h = true ∨ ∃ s, h = s +:+ "]".

(** A host is split as it was joined: with a port of 16 bits, whatever the
    host is, and without one when the host has no colon or is an address in
    brackets. *)
Theorem host_port_roundtrip h p :
  match p with Some p => (0 ≤ p ≤ 65535)%Z | None => plain_host h end → split_host_port (authority h p) = (h, p).
Proof.
  unfold split_host_port. destruct p as [p|]; cbn [authority].
  - intros Hp. rewrite rsplit_at_last; [|apply (str_all_impl is_digit); [each_char|apply decimal_all_digits]].
    unfold decimal at 1. by rewrite decimal_all_digits, parse_unsigned_decimal by lia.
  - intros [Hh|[s ->]]; [by rewrite rsplit_at_none|].
    destruct (rsplit_at ":" _) as [[h t]|] eqn:Hs; [|done].
    apply rsplit_at_snoc in Hs as [t' ->]; [|done]. by rewrite str_all_append, andb_false_r.
Qed.

(** ** The request as a mapping *)

(** The keys that never reach the state. *)
Definition conn_keys : list string :=
  ["method"; "path"; "path_params"; "query_string"; "headers"; "query_params"; "cookies"; "scheme"; "client"; "app"; "url";
   "base_url"; "scope"; "state"].
Definition reserved : list string := ["body"; "db_url"; "form"] ++ conn_keys.

(** What the request without a state holds under a reserved key. *)
Lemma conn_key_reserved k c : is_Some (conn_key k c) ↔ k ∈ conn_keys.
Proof.
  unfold conn_key, conn_keys.
  repeat (match goal with |- context [String.eqb k ?s] => destruct (String.eqb_spec k s) as [->|] end;
          [split; [set_solver|by eexists]|]).
  split; [by intros []|set_solver].
Qed.

Lemma conn_key_state k d c : k ≠ "scope" → conn_key k (set_state d c) = conn_key k c.
Proof.
  intros Hk. unfold conn_key.
  repeat (match goal with |- context [String.eqb k ?s] => destruct (String.eqb_spec k s) as [->|] end; [done|]). done.
Qed.

Lemma value_reserved k r d :
  k ∈ reserved → k ≠ "scope" →
  request_value k None (on_state d r) = request_value k None r.
Proof.
  intros Hk Hs. unfold request_value. cbn [conn on_state].
  repeat (match goal with |- context [String.eqb k ?s] => destruct (String.eqb_spec k s) as [->|] end; [done|]).
  rewrite conn_key_state by done. assert (k ∈ conn_keys) as [v ->]%(conn_key_reserved k (conn r)); [|done].
  unfold reserved in Hk. set_solver.
Qed.

Lemma value_state k r dflt :
  k ∉ reserved → request_value k dflt r = Plain (default (opt_value dflt) (assoc_get k (c_state (conn r)))).
Proof.
  intros Hk. unfold request_value.
  assert (k ∉ conn_keys) as Hc by (unfold reserved in Hk; set_solver).
  assert (k ≠ "path_params") as He by (intros ->; apply Hc; set_solver). apply String.eqb_neq in He as ->.
  assert (k ∉ ["body"; "db_url"; "form"]) as Hb by (unfold reserved in Hk; set_solver).
  do 3 (match goal with |- context [String.eqb k ?s] => destruct (String.eqb_spec k s) as [->|]; [set_solver|] end).
  destruct (conn_key k (conn r)) as [v|] eqn:Hv.
  { exfalso. apply Hc. apply (conn_key_reserved k (conn r)). by eexists. }
  unfold state_value. by destruct (assoc_get k _).
Qed.

(** A request is a mapping over its state: after [request[k] = v] the key
    is in it, it reads as [v] (or is missing, when [v] is [None]), and no other
    key has changed.  But a reserved key reads as before: what was stored under
    it is never seen. *)
Theorem request_mapping k v r :
  let r' := request_setitem k v r in
  request_contains k r' = true ∧
  (k ∉ reserved → (request_getitem k r').1 = present_or k (Plain v)) ∧
  (∀ k', k' ∈ reserved → k' ≠ "scope" → (request_getitem k' r').1 = (request_getitem k' r).1) ∧
  (∀ k', k' ≠ k → k' ≠ "scope" →
     request_contains k' r' = request_contains k' r ∧ (request_getitem k' r').1 = (request_getitem k' r).1).
Proof.
  cbn zeta. unfold request_getitem, request_get, request_contains, request_setitem, in_state. cbn [fst conn on_state set_state c_state].
  split_and!.
  - rewrite assoc_get_set, decide_True by done. done.
  - intros Hk. rewrite value_state by done. cbn [conn on_state set_state c_state].
    by rewrite assoc_get_set, decide_True.
  - intros k' Hk' Hs. by rewrite value_reserved.
  - intros k' Hk' Hs. rewrite assoc_get_set, decide_False by done. split; [done|].
    destruct (decide (k' ∈ reserved)); [by rewrite value_reserved|].
    rewrite !value_state by done. cbn [conn on_state set_state c_state]. by rewrite assoc_get_set, decide_False.
Qed.

Module Examples.

Definition sample : Request :=
  request_new decimal (λ _, inr (JObject [("sub", JString "ann"); ("address", JObject [("city", JString "Rome")])]))
    "GET" "/search" [("id", "7")] "q=a+b&q=%C3%A9&flag" [("host", "example.org:8080"); ("Cookie", "a=1; b = 2")] "body"
    None None "http" (Some ("10.0.0.1", 5000%Z)) None "1.1" (Some "{}").

Example sample_query : build_query_params (conn sample) = [("q", "a b"); ("q", "é"); ("flag", "")].
Proof. by vm_compute. Qed.

Example sample_query_last : query_get "q" (build_query_params (conn sample)) = Some "é".
Proof. by vm_compute. Qed.

Example sample_url : url_to_string (url_of (conn sample)) = "http://example.org:8080/search?q=a+b&q=%C3%A9&flag".
Proof. by vm_compute. Qed.

(** The value of a cookie keeps a space before it; an object in a claim is
    dropped. *)
Example sample_cookies : build_cookies (conn sample) = [("a", PStr "1"); ("b", PStr " 2")].
Proof. by vm_compute. Qed.

Example sample_auth : state_get "auth" (conn sample) = Some (PDict [(PStr "sub", PStr "ann"); (PStr "address", PNone)]).
Proof. by vm_compute. Qed.

(** [k in request] and [request[k]] do not agree. *)
Example contains_but_missing : request_contains "db_url" sample = true ∧ (request_getitem "db_url" sample).1 = inl "db_url".
Proof. by vm_compute. Qed.

Example missing_but_present :
  request_contains "client" sample = false
  ∧ (request_getitem "client" sample).1 = inr (Plain (PTuple [PStr "10.0.0.1"; PInt 5000])).
Proof. by vm_compute. Qed.

(** An address without brackets loses its last part, a large port is dropped. *)
Example bare_ipv6 : split_host_port "::1" = (":", Some 1%Z).
Proof. by vm_compute. Qed.

Example large_port : split_host_port "localhost:99999" = ("localhost", None).
Proof. by vm_compute. Qed.

Example stream_once : (anext (anext (stream_of sample)).2).1 = None ∧ (anext (aiter (anext (stream_of sample)).2)).1 = Some "body".
Proof. by vm_compute. Qed.

Lemma query_roundtrip_witness : form_pairs (form_encode [("q", "a b&c"); ("q", ""); ("é", "1=2")]) = [("q", "a b&c"); ("q", ""); ("é", "1=2")].
Proof. apply query_roundtrip. repeat constructor; by vm_compute. Defined.

Lemma host_port_roundtrip_witness :
  split_host_port (authority "::1" (Some 8080%Z)) = ("::1", Some 8080%Z) ∧ split_host_port (authority "[::1]" None) = ("[::1]", None).
Proof.
  split.
  - apply (host_port_roundtrip "::1" (Some 8080%Z)). lia.
  - apply (host_port_roundtrip "[::1]" None). right. by exists "[::1".
Defined.

Lemma request_mapping_witness :
  (request_getitem "user" (request_setitem "user" (PStr "ann") sample)).1 = inr (Plain (PStr "ann")).
Proof. refine (proj1 (proj2 (request_mapping "user" (PStr "ann") sample)) _). compute_done. Defined.

End Examples.
