(* ===== verification/Adapters.v ===== *)
(** * Adapters: LoRA adapters and quantisation

    [crates/justapi-inference/src/real/lora.rs] keeps adapters by name with an
    index from routing keys to names, both behind one lock, so that every call
    is one step; [real/quant.rs] says which method a layer is quantised with
    and how much memory that takes.  A [HashMap] that is iterated is given
    with the order of the iteration. *)

From stdpp Require Import gmap strings.
From Stdlib Require Import SpecFloat.
From S2P Require Import Prelude F32 Text F64 ControlPlane.

#[local] Open Scope Z_scope.

(** ** Adapters *)

Record LoraConfig := mk_lora_config {
  lc_rank : Z; lc_alpha : Z; lc_dropout : f32; lc_targets : list string }.

Record LoraAdapter := mk_adapter {
  la_name : string; la_base_model_hash : option string; la_config : LoraConfig; la_routing_key : option string;
  la_active : bool }.

Definition adapter_new (name : string) (rank alpha : Z) : LoraAdapter :=
  mk_adapter name None (mk_lora_config rank alpha f32_zero []) None true.
Definition with_routing_key (key : string) (a : LoraAdapter) : LoraAdapter :=
  mk_adapter (la_name a) (la_base_model_hash a) (la_config a) (Some key) (la_active a).
Definition with_base_model (hash : string) (a : LoraAdapter) : LoraAdapter :=
  mk_adapter (la_name a) (Some hash) (la_config a) (la_routing_key a) (la_active a).
Definition with_targets (modules : list string) (a : LoraAdapter) : LoraAdapter :=
  mk_adapter (la_name a) (la_base_model_hash a)
    (mk_lora_config (lc_rank (la_config a)) (lc_alpha (la_config a)) (lc_dropout (la_config a)) modules)
    (la_routing_key a) (la_active a).
Definition scaling (a : LoraAdapter) : f32 :=
  f32_div (f32_of_Z (lc_alpha (la_config a))) (f32_of_Z (Z.max 1 (lc_rank (la_config a)))).

Definition set_active (b : bool) (a : LoraAdapter) : LoraAdapter :=
  mk_adapter (la_name a) (la_base_model_hash a) (la_config a) (la_routing_key a) b.

(** ** The registry *)

Record LoraRegistry := mk_registry { adapters : gmap string LoraAdapter; routing : gmap string string }.

Definition registry_new : LoraRegistry := mk_registry ∅ ∅.

Definition register (a : LoraAdapter) (r : LoraRegistry) : LoraRegistry :=
  mk_registry (<[la_name a := a]> (adapters r))
    (match la_routing_key a with Some k => <[k := la_name a]> (routing r) | None => routing r end).

Definition unregister (name : string) (r : LoraRegistry) : option LoraAdapter * LoraRegistry :=
  match adapters r !! name with
  | None => (None, r)
  | Some a =>
      (Some a, mk_registry (delete name (adapters r))
                 (match la_routing_key a with Some k => delete k (routing r) | None => routing r end))
  end.

Definition get (name : string) (r : LoraRegistry) : option LoraAdapter := adapters r !! name.
Definition get_by_routing_key (key : string) (r : LoraRegistry) : option LoraAdapter :=
  name ← routing r !! key; adapters r !! name.

(** [order] is what the iteration over the adapters yields. *)
Definition active_adapters (order : list (string * LoraAdapter)) : list string :=
  la_name <$> List.filter la_active order.*2.
Definition all_adapters (order : list (string * LoraAdapter)) : list string := order.*1.
Definition active_for_module (order : list (string * LoraAdapter)) (m : string) : bool :=
  existsb (λ a, existsb (λ t, String.eqb t m) (lc_targets (la_config a))) (List.filter la_active order.*2).

Definition len (r : LoraRegistry) : nat := size (adapters r).
Definition is_empty (r : LoraRegistry) : bool := bool_decide (adapters r = ∅).

Definition mark (b : bool) (name : string) (r : LoraRegistry) : bool * LoraRegistry :=
  match adapters r !! name with
  | Some a => (true, mk_registry (<[name := set_active b a]> (adapters r)) (routing r))
  | None => (false, r)
  end.
Definition activate : string → LoraRegistry → bool * LoraRegistry := mark true.
Definition deactivate : string → LoraRegistry → bool * LoraRegistry := mark false.

Definition when_active (a : LoraAdapter) : option LoraAdapter := if la_active a then Some a else None.

(** A name that is given decides alone, even when it is not registered. *)
Definition resolve (adapter_name routing_key : option string) (r : LoraRegistry) : option LoraAdapter :=
  match adapter_name, routing_key with
  | Some name, _ => a ← get name r; when_active a
  | None, Some key => a ← get_by_routing_key key r; when_active a
  | None, None => None
  end.

(** ** Quantisation *)

Definition as_str (q : QuantMethod) : string :=
  match q with
  | QuantNone => "none" | Gptq => "gptq" | Awq => "awq" | Gguf => "gguf" | Exl2 => "exl2" | BitsAndBytes => "bnb"
  end%string.

(** A number of halves, as [f32]. *)
Definition halves (n : Z) : f32 := f32_scaled n (-1).

Definition approx_bits (q : QuantMethod) : f32 :=
  match q with
  | QuantNone => halves 32 | Gptq => halves 8 | Awq => halves 8 | Gguf => halves 9 | Exl2 => halves 7 | BitsAndBytes => halves 16
  end.

Record LayerQuantConfig := mk_layer_quant { lq_method : QuantMethod; lq_group_size : Z; lq_symmetric : bool }.
Record QuantConfig := mk_quant { qc_method : QuantMethod; qc_layers : gmap string LayerQuantConfig; qc_bits : f32 }.

Definition uniform (m : QuantMethod) (bits : f32) : QuantConfig := mk_quant m ∅ bits.

Definition better (layer : string) (best : option LayerQuantConfig * nat) (e : string * LayerQuantConfig)
    : option LayerQuantConfig * nat :=
  if starts_with e.1 layer && (best.2 <? String.length e.1)%nat then (Some e.2, String.length e.1) else best.

Definition method_for_layer (q : QuantConfig) (order : list (string * LayerQuantConfig)) (layer : string) : QuantMethod :=
  default (qc_method q) (lq_method <$> (foldl (better layer) (None, 0%nat) order).1).

(** [f32::clamp]: a NaN stays. *)
Definition f32_clamp (lo hi x : f32) : f32 := if f32_lt x lo then lo else if f32_gt x hi then hi else x.

Definition memory_bytes (q : QuantConfig) (param_count : Z) : Z :=
  (param_count * f64_to_u64 (f32_clamp (f32_of_Z 1) (f32_of_Z 32) (qc_bits q))) mod u64_modulus / 8.

Inductive GgufType :=
| F32 | F16 | Q4_0 | Q4_1 | Q5_0 | Q5_1 | Q8_0 | Q8_1 | Q2_K | Q3_K_S | Q3_K_M | Q3_K_L | Q4_K_S | Q4_K_M | Q5_K_S | Q5_K_M
| Q6_K | IQ2_XXS | IQ2_XS | IQ3_XXS | IQ1_S | IQ4_NL | IQ3_S | IQ2_S | IQ4_XS.

(** [t as u32] *)
Definition type_id (t : GgufType) : Z :=
  match t with
  | F32 => 0 | F16 => 1 | Q4_0 => 2 | Q4_1 => 3 | Q5_0 => 6 | Q5_1 => 7 | Q8_0 => 8 | Q8_1 => 9 | Q2_K => 10 | Q3_K_S => 11
  | Q3_K_M => 12 | Q3_K_L => 13 | Q4_K_S => 14 | Q4_K_M => 15 | Q5_K_S => 16 | Q5_K_M => 17 | Q6_K => 18 | IQ2_XXS => 19
  | IQ2_XS => 20 | IQ3_XXS => 21 | IQ1_S => 22 | IQ4_NL => 23 | IQ3_S => 24 | IQ2_S => 25 | IQ4_XS => 26
  end.

Definition bits_for_type (t : GgufType) : f32 :=
  halves match t with
         | F32 => 64 | F16 => 32 | Q4_0 | Q4_1 => 9 | Q5_0 | Q5_1 => 11 | Q8_0 | Q8_1 => 17 | Q2_K => 5
         | Q3_K_S | Q3_K_M | Q3_K_L => 7 | Q4_K_S | Q4_K_M => 9 | Q5_K_S | Q5_K_M => 11 | Q6_K => 13
         | IQ2_XXS | IQ2_XS | IQ2_S => 4 | IQ3_XXS | IQ3_S => 6 | IQ1_S => 3 | IQ4_NL | IQ4_XS => 8
         end.

Definition supported_ids : list Z := [0; 1; 2; 3; 6; 7; 8; 9; 10; 11; 12; 13; 14; 15; 16; 17; 18; 19; 20; 21; 22; 23; 24; 25; 26].
Definition is_supported (id : Z) : bool := existsb (Z.eqb id) supported_ids.
Definition to_quant_method (t : GgufType) : QuantMethod := match t with F32 | F16 => QuantNone | _ => Gguf end.

(** ** The registry over a history of calls *)

Inductive call := Register (a : LoraAdapter) | Unregister (name : string) | Activate (name : string) | Deactivate (name : string).

Definition apply_call (r : LoraRegistry) (c : call) : LoraRegistry :=
  match c with
  | Register a => register a r
  | Unregister n => (unregister n r).2
  | Activate n => (activate n r).2
  | Deactivate n => (deactivate n r).2
  end.

(** A registration under a name and a key that are free. *)
Definition respectful (r : LoraRegistry) (c : call) : Prop :=
  match c with
  | Register a =>
      adapters r !! la_name a = None
      ∧ ∀ n b, adapters r !! n = Some b → la_routing_key b ≠ None → la_routing_key b ≠ la_routing_key a
  | _ => True
  end.

Inductive reachable (rule : LoraRegistry → call → Prop) : LoraRegistry → Prop :=
| reachable_new : reachable rule registry_new
| reachable_call r c : reachable rule r → rule r c → reachable rule (apply_call r c).

Definition named (r : LoraRegistry) : Prop := ∀ n a, adapters r !! n = Some a → la_name a = n.

(** The index is the routing keys of the adapters. *)
Definition indexed (r : LoraRegistry) : Prop :=
  ∀ k n, routing r !! k = Some n ↔ ∃ a, adapters r !! n = Some a ∧ la_routing_key a = Some k.

Lemma named_step r c : named r → named (apply_call r c).
Proof.
  intros Hr n a. destruct c as [b|m|m|m]; cbn [apply_call].
  - cbn [register adapters]. rewrite lookup_insert_Some. intros [[<- <-]|[_ Hn]]; [done|by apply Hr].
  - unfold unregister. destruct (adapters r !! m) as [b|]; cbn [snd]; [|apply Hr].
    cbn [adapters]. rewrite lookup_delete_Some. intros [_ Hn]. by apply Hr.
  - unfold activate, mark. destruct (adapters r !! m) as [b|] eqn:Hm; cbn [snd]; [|apply Hr].
    cbn [adapters]. rewrite lookup_insert_Some. intros [[<- <-]|[_ Hn]]; [by apply (Hr m b)|by apply Hr].
  - unfold deactivate, mark. destruct (adapters r !! m) as [b|] eqn:Hm; cbn [snd]; [|apply Hr].
    cbn [adapters]. rewrite lookup_insert_Some. intros [[<- <-]|[_ Hn]]; [by apply (Hr m b)|by apply Hr].
Qed.

Lemma named_reachable rule r : reachable rule r → named r.
Proof. induction 1; [by intros n a|by apply named_step]. Qed.

Lemma mark_indexed b n r : indexed r → indexed (mark b n r).2.
Proof.
  intros Hr k m. unfold mark. destruct (adapters r !! n) as [a|] eqn:Hn; cbn [snd]; [|apply Hr].
  cbn [routing adapters]. rewrite (Hr k m). split; intros (x & Hx & Hk).
  - destruct (decide (n = m)) as [->|Hne].
    + rewrite Hn in Hx. injection Hx as ->. exists (set_active b x). by rewrite lookup_insert_eq.
    + exists x. by rewrite lookup_insert_ne.
  - apply lookup_insert_Some in Hx as [[<- <-]|[_ Hx]]; [by exists a|by exists x].
Qed.

Lemma register_indexed a r : respectful r (Register a) → indexed r → indexed (register a r).
Proof.
  intros [Hname Hkey] Hr k n. cbn [register routing adapters].
  assert ((∃ x, <[la_name a := a]> (adapters r) !! n = Some x ∧ la_routing_key x = Some k)
          ↔ (la_name a = n ∧ la_routing_key a = Some k) ∨ routing r !! k = Some n) as ->.
  { rewrite (Hr k n). split.
    - intros (x & [[<- <-]|[_ Hx]]%lookup_insert_Some & Hk); [by left|by right; exists x].
    - intros [[<- Hk]|(x & Hx & Hk)]; [exists a; by rewrite lookup_insert_eq|].
      exists x. rewrite lookup_insert_ne; [done|]. intros Heq. by rewrite Heq, Hx in Hname. }
  destruct (la_routing_key a) as [k'|] eqn:Hk'; [|naive_solver].
  rewrite lookup_insert_Some. split; [naive_solver|].
  intros [[<- [= ->]]|Hn]; [by left|]. right. split; [|done]. intros ->.
  apply Hr in Hn as (x & Hx & Hk). apply (Hkey n x Hx); congruence.
Qed.

Lemma unregister_indexed n r : indexed r → indexed (unregister n r).2.
Proof.
  intros Hr k m. unfold unregister. destruct (adapters r !! n) as [a|] eqn:Hn; cbn [snd]; [|apply Hr].
  cbn [routing adapters].
  assert ((∃ x, delete n (adapters r) !! m = Some x ∧ la_routing_key x = Some k) ↔ n ≠ m ∧ routing r !! k = Some m) as ->.
  { rewrite (Hr k m). split; [intros (x & [? ?]%lookup_delete_Some & Hk); split; [done|by exists x]|].
    intros (? & x & ? & ?). exists x. by rewrite lookup_delete_Some. }
  assert (n = m → routing r !! k = Some m → la_routing_key a = Some k) as Hown.
  { intros -> (x & Hx & Hk)%Hr. congruence. }
  assert (∀ k', la_routing_key a = Some k' → routing r !! k' = Some n) as Hidx.
  { intros k' Hk'. apply Hr. by exists a. }
  destruct (la_routing_key a) as [k'|] eqn:Hk'; [|naive_solver].
  rewrite lookup_delete_Some. split; intros [Hne Hm]; (split; [|done]); intros ->.
  - apply Hne. by injection (Hown eq_refl Hm).
  - rewrite (Hidx k eq_refl) in Hm. by injection Hm.
Qed.

Lemma indexed_reachable r : reachable respectful r → indexed r.
Proof.
  induction 1 as [|r [a|n|n|n] Hreach IH Hrule]; [|by apply register_indexed|by apply unregister_indexed|by apply mark_indexed
                                                   |by apply mark_indexed].
  intros k n. cbn. rewrite !lookup_empty. split; [done|]. by intros (x & Hx & _).
Qed.

(** Routing to adapters.  Whatever was called before, what is resolved is
    registered and active, and carries the name that was asked for.  If names
    and keys were only registered while they were free, a key is resolved to
    the one active adapter that has it, and to none exactly when there is
    none. *)
Theorem adapter_resolve_spec r :
  (∀ rule n k a, reachable rule r → resolve n k r = Some a →
     adapters r !! la_name a = Some a ∧ la_active a = true ∧ (∀ name, n = Some name → la_name a = name)) ∧
  (reachable respectful r → ∀ k a,
     resolve None (Some k) r = Some a
     ↔ adapters r !! la_name a = Some a ∧ la_active a = true ∧ la_routing_key a = Some k).
Proof.
  assert (∀ a b, when_active a = Some b ↔ a = b ∧ la_active b = true) as Hw.
  { intros a b. unfold when_active. destruct (la_active a) eqn:Ha; split; [by intros [= <-]|by intros [-> _]|done|intros [-> Hb]; congruence]. }
  split.
  - intros rule n k a Hr%named_reachable. destruct n as [name|]; [|destruct k as [k|]; [|done]]; cbn [resolve].
    + unfold get. intros (x & Hx & [-> Hact]%Hw)%bind_Some. pose proof (Hr _ _ Hx) as <-. naive_solver.
    + unfold get_by_routing_key. intros (x & (m & _ & Hx)%bind_Some & [-> Hact]%Hw)%bind_Some.
      pose proof (Hr _ _ Hx) as <-. naive_solver.
  - intros Hr k a. pose proof (named_reachable _ _ Hr) as Hnamed. apply indexed_reachable in Hr.
    cbn [resolve]. unfold get_by_routing_key. rewrite bind_Some. split.
    + intros (x & (m & Hm & Hx)%bind_Some & [-> Hact]%(Hw _ _)). pose proof (Hnamed _ _ Hx) as <-.
      apply Hr in Hm as (y & Hy & Hk). rewrite Hx in Hy. injection Hy as ->. done.
    + intros (Hx & Hact & Hk). exists a. split; [|by apply Hw]. rewrite bind_Some. exists (la_name a). split; [|done].
      apply (Hr k (la_name a)). by exists a.
Qed.

(** ** Layers *)

Lemma prefix_same_length p q s :
  String.prefix p s = true → String.prefix q s = true → String.length p = String.length q → p = q.
Proof.
  revert q s. induction p as [|a p IH]; intros [|b q] [|c s]; try done. simpl.
  destruct (Ascii.ascii_dec a c) as [->|]; [|done]. destruct (Ascii.ascii_dec b c) as [->|]; [|done].
  intros Hp Hq [= Hlen]. by rewrite (IH _ _ Hp Hq Hlen).
Qed.

(** [e] is the longest of the entries that match, and not the empty one. *)
Definition longest (layer : string) (l : list (string * LayerQuantConfig)) (best : option LayerQuantConfig * nat) : Prop :=
  match best.1 with
  | Some c => ∃ p, (p, c) ∈ l ∧ starts_with p layer = true ∧ String.length p = best.2 ∧ (0 < best.2)%nat
  | None => best.2 = 0%nat
  end ∧ ∀ p c, (p, c) ∈ l → starts_with p layer = true → (String.length p ≤ best.2)%nat.

Lemma longest_fold layer order : longest layer order (foldl (better layer) (None, 0%nat) order).
Proof.
  induction order as [|[p c] order IH] using rev_ind; [split; [done|by intros p c ?%elem_of_nil]|].
  rewrite foldl_snoc. destruct (foldl _ _ order) as [best n]. destruct IH as [Hb Hmax]. cbn [fst snd] in *.
  unfold better. cbn [fst snd].
  destruct (starts_with p layer) eqn:Hp, (Nat.ltb_spec n (String.length p)); cbn [andb]; split; cbn [fst snd];
    try (intros p' c'; rewrite elem_of_app, list_elem_of_singleton; intros [Hin|[= -> ->]] Hs;
         [apply Hmax in Hin; [lia|done]|first [lia|congruence]]).
  1: { exists p. split_and!; [set_solver|done|done|lia]. }
  all: destruct best; [|done]; destruct Hb as (q & ? & ? & ? & ?); exists q; split_and!; [set_solver|done|done|lia].
Qed.

(** The method of a layer is that of the longest prefix of its name among
    the overrides, the empty one left aside, and the model's own where none
    fits, in whatever order the map is iterated. *)
Theorem method_for_layer_longest q order layer :
  order ≡ₚ map_to_list (qc_layers q) →
  (∀ p c, qc_layers q !! p = Some c → starts_with p layer = true → p ≠ EmptyString →
     (∀ p' c', qc_layers q !! p' = Some c' → starts_with p' layer = true → (String.length p' ≤ String.length p)%nat) →
     method_for_layer q order layer = lq_method c) ∧
  ((∀ p c, qc_layers q !! p = Some c → starts_with p layer = true → p = EmptyString) →
     method_for_layer q order layer = qc_method q).
Proof.
  intros Ho. unfold method_for_layer.
  assert (∀ p c, (p, c) ∈ order ↔ qc_layers q !! p = Some c) as Hin by (intros p c; by rewrite Ho, elem_of_map_to_list).
  destruct (longest_fold layer order) as [Hb Hmax]. destruct (foldl _ _ order) as [[c|] n]; cbn [fst snd] in *.
  - destruct Hb as (p & Hp%Hin & Hs & <- & Hpos). split.
    + intros p' c' Hp' Hs' Hne Hbig. pose proof (Hmax _ _ (proj2 (Hin _ _) Hp') Hs'). pose proof (Hbig _ _ Hp Hs).
      assert (p = p') as -> by (eapply prefix_same_length; [done|done|lia]). cbn. congruence.
    + intros Hnone. rewrite (Hnone _ _ Hp Hs) in Hpos. simpl in Hpos. lia.
  - subst n. split; [|done]. intros p c Hp Hs Hne _. pose proof (Hmax _ _ (proj2 (Hin _ _) Hp) Hs). destruct p; [done|cbn in *; lia].
Qed.

(** A type of GGUF has an identifier that is supported, no two have the
    same, and every supported identifier is the identifier of a type. *)
Theorem gguf_ids_exact :
  (∀ t, is_supported (type_id t) = true) ∧ (∀ t u, type_id t = type_id u → t = u) ∧
  (∀ id, is_supported id = true → ∃ t, type_id t = id).
Proof.
  split_and!; [by intros []|by intros [] []|].
  intros id. unfold is_supported. rewrite existsb_exists. intros (x & Hx%list_elem_of_In & Heq%Z.eqb_eq). subst x.
  assert (Forall (λ i, existsb (λ t, type_id t =? i)
            [F32; F16; Q4_0; Q4_1; Q5_0; Q5_1; Q8_0; Q8_1; Q2_K; Q3_K_S; Q3_K_M; Q3_K_L; Q4_K_S; Q4_K_M; Q5_K_S; Q5_K_M;
             Q6_K; IQ2_XXS; IQ2_XS; IQ3_XXS; IQ1_S; IQ4_NL; IQ3_S; IQ2_S; IQ4_XS] = true) supported_ids) as Hall
    by (repeat constructor).
  rewrite Forall_forall in Hall. apply Hall, existsb_exists in Hx as (t & _ & Ht%Z.eqb_eq). by exists t.
Qed.

Module Examples.

Definition math : LoraAdapter := with_routing_key "domain:math" (adapter_new "math" 32 64).
Definition maths2 : LoraAdapter := with_routing_key "domain:math" (adapter_new "maths2" 32 64).
Definition plain (name : string) : LoraAdapter := adapter_new name 8 8.

Example scaling_two : scaling math = f32_of_Z 2.
Proof. by vm_compute. Qed.

Example resolve_name_first : resolve (Some "other") (Some "domain:math") (register math registry_new) = None.
Proof. by vm_compute. Qed.

(** An adapter that takes over a key loses it when the older one goes. *)
Example key_lost :
  resolve None (Some "domain:math") (unregister "math" (register maths2 (register math registry_new))).2 = None.
Proof. by vm_compute. Qed.

(** An adapter that replaces another of its name inherits its key. *)
Example key_inherited :
  resolve None (Some "domain:math") (register (plain "math") (register math registry_new)) = Some (plain "math").
Proof. by vm_compute. Qed.

(** A prefix of a name need not end at a dot, and the empty one never fits. *)
Example layer_ten :
  method_for_layer (uniform QuantNone (f32_of_Z 16)) [("model.layers.1", mk_layer_quant Gptq 128 true)] "model.layers.10.mlp" = Gptq
  ∧ method_for_layer (uniform QuantNone (f32_of_Z 16)) [("", mk_layer_quant Gptq 128 true)] "model.layers.10.mlp" = QuantNone.
Proof. by vm_compute. Qed.

(** Half a bit is forgotten: 4.5 bits of 2^33 weights are taken for 4. *)
Example half_bit : memory_bytes (uniform Gguf (approx_bits Gguf)) (2 ^ 33) = 2 ^ 32.
Proof. by vm_compute. Qed.

(** 2^59 weights of 32 bits wrap around. *)
Example wraps : memory_bytes (uniform QuantNone (f32_of_Z 32)) (2 ^ 59) = 0.
Proof. by vm_compute. Qed.

Lemma adapter_resolve_spec_witness : resolve None (Some "domain:math") (register math registry_new) = Some math.
Proof.
  apply (proj2 (adapter_resolve_spec (register math registry_new))); [|split_and!; by vm_compute].
  apply (reachable_call respectful registry_new (Register math)); [constructor|]. split; [done|]. intros n b Hn. by vm_compute in Hn.
Defined.

Lemma method_for_layer_longest_witness :
  let q := mk_quant QuantNone {["model" := mk_layer_quant Awq 128 true; "model.layers.0" := mk_layer_quant Gptq 128 true]} (f32_of_Z 16) in
  method_for_layer q (map_to_list (qc_layers q)) "model.layers.0.mlp" = Gptq.
Proof.
  cbn zeta. refine (proj1 (method_for_layer_longest _ _ _ _) "model.layers.0" (mk_layer_quant Gptq 128 true) _ _ _ _); [done..|].
  intros p c Hp _. assert (p = "model.layers.0" ∨ p = "model") as [->| ->]; [|by vm_compute; lia..].
  change (({["model" := mk_layer_quant Awq 128 true; "model.layers.0" := mk_layer_quant Gptq 128 true]} : gmap string LayerQuantConfig) !! p = Some c) in Hp.
  apply lookup_insert_Some in Hp as [[<- _]|[_ [<- _]%lookup_singleton_Some]]; auto.
Defined.

End Examples.
