(* ===== verification/Background.v ===== *)
(** * Background: the pool of background tasks

    [crates/justapi-py/src/background.rs]: the queue, the counters and the
    worker threads that all requests share, as events on one state.  An event
    is what a thread does between two points where others can come in: one
    atomic, one section of the queue's lock, one call of Python.  The lists
    [pushed] and [started] only record what happened. *)

From S2P Require Import Prelude F32 Text.

#[local] Open Scope Z_scope.

(** ** The pool's size and the queue's *)

(** [JUSTAPI_BG_MAX_QUEUE] *)
Definition max_queue (env : option string) : Z := default 100000 (env ≫= parse_u64).

(** [n] is the parallelism of the machine, where it is known. *)
Definition workers_of (gil_enabled : bool) (n : option Z) : Z :=
  let n := default 4 n in if gil_enabled then Z.min (n + 4) 32 else Z.min (n * 2) 256.

Section pool.
Context {T : Type}.

(** A worker about to look at the queue; one that found it empty and no
    shutdown, and still has the lock; one that waits; one that calls its task;
    one that runs the coroutine that was returned; one that has counted the
    task; one that is gone. *)
Inductive Worker := WPop | WChecked | WAsleep | WCall (t : T) | WAwait (t : T) | WCounted | WExited.

(** What a thread is doing that uses the pool, and whether it holds the GIL
    while it does: nothing, [run] with the tasks to go, a task that passed the
    size check, one that was pushed, one that was also counted as submitted,
    [shutdown] after the flag, and the joining of the workers. *)
Inductive Caller :=
| COut | CRun (gil : bool) (ts : list T) | CPush (gil : bool) (t : T) (ts : list T) | CPushed (gil : bool) (ts : list T)
| CSubmitted (gil : bool) (ts : list T) | CStop (gil wait : bool) | CJoin (gil : bool).

Record Shared := mk_shared {
  queue : list T; queue_size : Z; shutdown : bool;
  submitted : Z; active : Z; completed : Z; failed : Z; dropped : Z; asyncs : Z;
  pushed : list T; started : list T }.

Record State := mk_state { shared : Shared; workers : list Worker; callers : list Caller }.

Definition shared_new : Shared := mk_shared [] 0 false 0 0 0 0 0 0 [] [].
(** [runner()], and the threads that will call it. *)
Definition pool_new (n m : nat) : State := mk_state shared_new (replicate n WPop) (replicate m COut).

(** ** One atomic or one section of the lock *)

Definition push_back (t : T) (h : Shared) : Shared :=
  mk_shared (queue h ++ [t]) (wadd64 (queue_size h) 1) (shutdown h) (submitted h) (active h) (completed h) (failed h)
    (dropped h) (asyncs h) (pushed h ++ [t]) (started h).
Definition pop_front (t : T) (q : list T) (h : Shared) : Shared :=
  mk_shared q (wadd64 (queue_size h) (-1)) (shutdown h) (submitted h) (active h) (completed h) (failed h)
    (dropped h) (asyncs h) (pushed h) (started h ++ [t]).
Definition set_shutdown (h : Shared) : Shared :=
  mk_shared (queue h) (queue_size h) true (submitted h) (active h) (completed h) (failed h) (dropped h) (asyncs h)
    (pushed h) (started h).
Definition add_submitted (h : Shared) : Shared :=
  mk_shared (queue h) (queue_size h) (shutdown h) (wadd64 (submitted h) 1) (active h) (completed h) (failed h)
    (dropped h) (asyncs h) (pushed h) (started h).
Definition add_active (d : Z) (h : Shared) : Shared :=
  mk_shared (queue h) (queue_size h) (shutdown h) (submitted h) (wadd64 (active h) d) (completed h) (failed h)
    (dropped h) (asyncs h) (pushed h) (started h).
Definition add_completed (h : Shared) : Shared :=
  mk_shared (queue h) (queue_size h) (shutdown h) (submitted h) (active h) (wadd64 (completed h) 1) (failed h)
    (dropped h) (asyncs h) (pushed h) (started h).
Definition add_failed (h : Shared) : Shared :=
  mk_shared (queue h) (queue_size h) (shutdown h) (submitted h) (active h) (completed h) (wadd64 (failed h) 1)
    (dropped h) (asyncs h) (pushed h) (started h).
Definition add_dropped (h : Shared) : Shared :=
  mk_shared (queue h) (queue_size h) (shutdown h) (submitted h) (active h) (completed h) (failed h)
    (wadd64 (dropped h) 1) (asyncs h) (pushed h) (started h).
Definition add_asyncs (h : Shared) : Shared :=
  mk_shared (queue h) (queue_size h) (shutdown h) (submitted h) (active h) (completed h) (failed h)
    (dropped h) (wadd64 (asyncs h) 1) (pushed h) (started h).

(** ** Events *)

(** How a call of Python ends, or the run of a coroutine. *)
Inductive Outcome := Returned | Coroutine | Raised.

Inductive Event :=
| EvRun (i : nat) (gil : bool) (ts : list T)
| EvStop (i : nat) (gil wait : bool)
| EvCaller (i : nat) (woken : option nat)
| EvWorker (j : nat)
| EvReturn (j : nat) (o : Outcome)
| EvSpurious (j : nat).

Definition has_lock (w : Worker) : bool := match w with WChecked => true | _ => false end.
Definition asleep (w : Worker) : bool := match w with WAsleep => true | _ => false end.
Definition exited (w : Worker) : bool := match w with WExited => true | _ => false end.
Definition holds (c : Caller) : bool :=
  match c with
  | COut => false
  | CRun g _ | CPush g _ _ | CPushed g _ | CSubmitted g _ | CStop g _ | CJoin g => g
  end.

Definition locked (s : State) : bool := existsb has_lock (workers s).

(** The condition variable: one of those that wait, if any does; all of them. *)
Definition notify_one (woken : option nat) (ws : list Worker) : option (list Worker) :=
  match woken with
  | Some j => match ws !! j with Some WAsleep => Some (<[j := WPop]> ws) | _ => None end
  | None => if existsb asleep ws then None else Some ws
  end.
Definition wake (w : Worker) : Worker := match w with WAsleep => WPop | _ => w end.

(** The interpreter has a GIL; the queue's limit. *)
Context (gil_enabled : bool) (max_total : Z).

(** No thread holds the GIL that Python needs. *)
Definition gil_free (s : State) : bool := negb (gil_enabled && existsb holds (callers s)).

Definition move_caller (i : nat) (c : Caller) (f : Shared → Shared) (s : State) : State :=
  mk_state (f (shared s)) (workers s) (<[i := c]> (callers s)).
Definition move_worker (j : nat) (w : Worker) (f : Shared → Shared) (s : State) : State :=
  mk_state (f (shared s)) (<[j := w]> (workers s)) (callers s).

Definition begin (i : nat) (c : Caller) (f : Shared → Shared) (s : State) : option State :=
  match callers s !! i with
  | Some COut => if negb (holds c) || gil_free s then Some (move_caller i c f s) else None
  | _ => None
  end.

(** [run], [enqueue] and [shutdown], one step. *)
Definition caller_step (i : nat) (woken : option nat) (s : State) : option State :=
  match callers s !! i with
  | None | Some COut => None
  | Some (CRun _ []) => Some (move_caller i COut id s)
  | Some (CRun g (t :: ts)) =>
      if max_total <=? queue_size (shared s) then Some (move_caller i (CRun g ts) add_dropped s)
      else Some (move_caller i (CPush g t ts) id s)
  | Some (CPush g t ts) =>
      if locked s then None
      else ws ← notify_one woken (workers s);
           Some (mk_state (push_back t (shared s)) ws (<[i := CPushed g ts]> (callers s)))
  | Some (CPushed g ts) => Some (move_caller i (CSubmitted g ts) add_submitted s)
  | Some (CSubmitted g ts) => Some (move_caller i (CRun g ts) (add_active 1) s)
  | Some (CStop g wait) =>
      Some (mk_state (shared s) (wake <$> workers s) (<[i := if wait then CJoin g else COut]> (callers s)))
  | Some (CJoin _) => if forallb exited (workers s) then Some (move_caller i COut id s) else None
  end.

(** [pop], and the end of [process]. *)
Definition worker_step (j : nat) (s : State) : option State :=
  match workers s !! j with
  | Some WPop =>
      if locked s then None
      else match queue (shared s) with
           | t :: q => Some (move_worker j (WCall t) (pop_front t q) s)
           | [] => Some (move_worker j (if shutdown (shared s) then WExited else WChecked) id s)
           end
  | Some WChecked => Some (move_worker j WAsleep id s)
  | Some WCounted => Some (move_worker j WPop (add_active (-1)) s)
  | _ => None
  end.

(** [process]: the call, or the run of the coroutine, and its counter. *)
Definition worker_return (j : nat) (o : Outcome) (s : State) : option State :=
  if gil_free s then
    match workers s !! j, o with
    | Some (WCall _ | WAwait _), Returned => Some (move_worker j WCounted add_completed s)
    | Some (WCall _ | WAwait _), Raised => Some (move_worker j WCounted add_failed s)
    | Some (WCall t), Coroutine => Some (move_worker j (WAwait t) add_asyncs s)
    | _, _ => None
    end
  else None.

Definition pool_step (e : Event) (s : State) : option State :=
  match e with
  | EvRun i g ts => begin i (CRun g ts) id s
  | EvStop i g wait => begin i (CStop g wait) set_shutdown s
  | EvCaller i woken => caller_step i woken s
  | EvWorker j => worker_step j s
  | EvReturn j o => worker_return j o s
  | EvSpurious j => match workers s !! j with Some WAsleep => Some (move_worker j WPop id s) | _ => None end
  end.

Fixpoint pool_run (es : list Event) (s : State) : option State :=
  match es with [] => Some s | e :: es => s ← pool_step e s; pool_run es s end.

(** ** [BackgroundTasks] *)

(** [add_task]; [run] takes them all. *)
Definition add_task (t : T) (pending : list T) : list T := pending ++ [t].
Definition task_count (pending : list T) : nat := length pending.
Definition take_pending (i : nat) (pending : list T) : Event * list T := (EvRun i true pending, []).

(** [stats] *)
Definition stats (s : State) : list (string * Z) :=
  let h := shared s in
  [("submitted", submitted h); ("active", active h); ("completed", completed h); ("failed", failed h);
   ("dropped", dropped h); ("async", asyncs h)]%string.
End pool.
Arguments Worker : clear implicits.
Arguments Caller : clear implicits.
Arguments Shared : clear implicits.
Arguments State : clear implicits.
Arguments Event : clear implicits.

(** ** Accounting *)

Section theorems.
Context {T : Type} (gil_enabled : bool) (max_total : Z).
Implicit Types (s : State T) (h : Shared T) (w : Worker T) (c : Caller T).

Definition running w : bool := match w with WCall _ | WAwait _ => true | _ => false end.
Definition busy w : bool := match w with WCall _ | WAwait _ | WCounted => true | _ => false end.
(** A caller between the push and one of the counters. *)
Definition unsubmitted c : bool := match c with CPushed _ _ => true | _ => false end.
Definition inactive c : bool := match c with CPushed _ _ | CSubmitted _ _ => true | _ => false end.
Definition pushing c : bool := match c with CPush _ _ _ => true | _ => false end.

Definition zlen {X} (l : list X) : Z := Z.of_nat (length l).
Definition zcount {X} (f : X → bool) (l : list X) : Z := Z.of_nat (count f l).

(** What holds as long as fewer than 2^64 tasks were pushed; [n] and [m] are
    the numbers of workers and of callers. *)
Record accounts (n m : nat) s : Prop := {
  ac_order : pushed (shared s) = (started (shared s) ++ queue (shared s))%list;
  ac_size : queue_size (shared s) = zlen (queue (shared s));
  ac_done : completed (shared s) + failed (shared s) + zcount running (workers s) = zlen (started (shared s));
  ac_range : 0 ≤ completed (shared s) ∧ 0 ≤ failed (shared s) ∧ 0 ≤ submitted (shared s);
  ac_submitted : submitted (shared s) + zcount unsubmitted (callers s) = zlen (pushed (shared s));
  ac_active : active (shared s)
    = (zlen (queue (shared s)) + zcount busy (workers s) - zcount inactive (callers s)) mod u64_modulus;
  ac_bound : zlen (queue (shared s)) + zcount pushing (callers s) ≤ Z.max 0 max_total + Z.of_nat m - 1;
  ac_workers : length (workers s) = n;
  ac_callers : length (callers s) = m }.

Lemma zcount_insert {X} (f : X → bool) (l : list X) i x y :
  l !! i = Some x → zcount f (<[i := y]> l) = zcount f l + Z.of_nat (bnat (f y)) - Z.of_nat (bnat (f x)).
Proof. intros Hi. unfold zcount. pose proof (count_insert f l i x y Hi). lia. Qed.

Lemma zlen_app {X} (l k : list X) : zlen (l ++ k) = zlen l + zlen k.
Proof. unfold zlen. rewrite length_app. lia. Qed.

Lemma wadd64_active a b d : a = b mod u64_modulus → wadd64 a d = (b + d) mod u64_modulus.
Proof. intros ->. unfold wadd64. by rewrite Zplus_mod_idemp_l. Qed.

Lemma wadd64_in a b : 0 ≤ a + b < u64_modulus → wadd64 a b = a + b.
Proof. apply Z.mod_small. Qed.

Lemma zcount_nonneg {X} (f : X → bool) (l : list X) : 0 ≤ zcount f l.
Proof. unfold zcount. lia. Qed.
Lemma zlen_nonneg {X} (l : list X) : 0 ≤ zlen l.
Proof. unfold zlen. lia. Qed.
Lemma zcount_le {X} (f : X → bool) (l : list X) : zcount f l ≤ zlen l.
Proof. unfold zcount, zlen. pose proof (count_le_length f l). lia. Qed.

Lemma accounts_new n m : (0 < m)%nat → accounts n m (pool_new n m).
Proof.
  intros Hm. assert (∀ {X} (f : X → bool) x k, f x = false → zcount f (replicate k x) = 0) as Hz.
  { intros X f x k Hx. unfold zcount. rewrite count_0; [done|]. by intros a [-> _]%elem_of_replicate. }
  constructor; cbn; rewrite ?Hz, ?length_replicate by done; unfold zlen; cbn; lia || done.
Qed.

Lemma worker_step_accounts n m j s s' :
  accounts n m s → zlen (pushed (shared s)) < u64_modulus → worker_step j s = Some s' → accounts n m s'.
Proof.
  intros Ha Hsmall. unfold worker_step. destruct (workers s !! j) as [[]|] eqn:Hj; try done.
  - destruct (locked s); [done|]. destruct (queue (shared s)) as [|t q] eqn:Hq; intros [= <-].
    + destruct Ha as [Horder Hsize Hdone Hrange Hsub Hact Hbound Hws Hcs].
      constructor; cbn; rewrite ?Hq, ?length_insert in *; try done;
        rewrite (zcount_insert _ _ _ _ _ Hj); destruct (shutdown _); cbn; rewrite ?Z.add_0_r, ?Z.sub_0_r; done.
    + destruct Ha as [Horder Hsize Hdone Hrange Hsub Hact Hbound Hws Hcs]. rewrite Hq in *.
      assert (zlen (pushed (shared s)) = zlen (started (shared s)) + zlen (t :: q)) as Hlen by (by rewrite Horder, zlen_app).
      pose proof (zlen_nonneg (started (shared s))). pose proof (zlen_nonneg q).
      assert (zlen (t :: q) = zlen q + 1) as Htq by (unfold zlen; simpl length; lia).
      constructor; cbn; rewrite ?length_insert, ?zlen_app, ?(zcount_insert _ _ _ _ _ Hj); cbn; try done; try lia.
      * by rewrite Horder, <-app_assoc.
      * rewrite wadd64_in; lia.
      * change (zlen [t]) with 1. lia.
      * rewrite Hact. f_equal. lia.
  - intros [= <-]. destruct Ha. constructor; cbn; rewrite ?length_insert, ?(zcount_insert _ _ _ _ _ Hj); cbn;
      rewrite ?Z.add_0_r, ?Z.sub_0_r; done.
  - intros [= <-]. destruct Ha as [Horder Hsize Hdone Hrange Hsub Hact Hbound Hws Hcs].
    constructor; cbn; rewrite ?length_insert, ?(zcount_insert _ _ _ _ _ Hj); cbn; try done; try lia.
    rewrite (wadd64_active _ _ _ Hact). f_equal. lia.
Qed.

Lemma worker_return_accounts n m j o s s' :
  accounts n m s → zlen (pushed (shared s)) < u64_modulus → worker_return gil_enabled j o s = Some s' → accounts n m s'.
Proof.
  intros [Horder Hsize Hdone Hrange Hsub Hact Hbound Hws Hcs] Hsmall. unfold worker_return. destruct (gil_free _ s); [|done].
  assert (zlen (pushed (shared s)) = zlen (started (shared s)) + zlen (queue (shared s))) as Hlen by (by rewrite Horder, zlen_app).
  pose proof (zlen_nonneg (queue (shared s))).
  destruct (workers s !! j) as [w|] eqn:Hj; [|done].
  assert (running w = true → 0 < zcount running (workers s)) as Hpos.
  { intros Hw. pose proof (zcount_insert running _ _ _ WPop Hj) as Hi. rewrite Hw in Hi. cbn in Hi.
    pose proof (zcount_nonneg running (<[j := WPop]> (workers s))). lia. }
  destruct w as [| | |t|t| |], o; try done; intros [= <-]; specialize (Hpos eq_refl);
    constructor; cbn; rewrite ?length_insert, ?(zcount_insert _ _ _ _ _ Hj); cbn; try done;
    rewrite ?wadd64_in by lia; try lia; rewrite Hact; f_equal; lia.
Qed.

Lemma zcount_pos {X} (f : X → bool) (l : list X) i x : l !! i = Some x → f x = true → 0 < zcount f l.
Proof.
  revert i. induction l as [|y l IH]; intros [|i]; cbn; try done; unfold zcount; cbn.
  - intros [= ->] ->. cbn. lia.
  - intros Hi Hx. pose proof (IH i Hi Hx) as Hl. unfold zcount in Hl. lia.
Qed.

(** A move of a caller that no counter weighs. *)
Lemma move_caller_accounts n m i c c' s :
  accounts n m s → callers s !! i = Some c →
  unsubmitted c' = unsubmitted c → inactive c' = inactive c → (pushing c' = true → pushing c = true) →
  accounts n m (move_caller i c' id s).
Proof.
  intros [Horder Hsize Hdone Hrange Hsub Hact Hbound Hws Hcs] Hi Hu Hn Hp.
  constructor; cbn; rewrite ?length_insert, ?(zcount_insert _ _ _ _ _ Hi), ?Hu, ?Hn; try done; try lia.
  - rewrite Hact. f_equal. lia.
  - specialize (Hp : pushing c' = true → pushing c = true). destruct (pushing c'), (pushing c); cbn; lia || by specialize (Hp eq_refl).
Qed.

Lemma notify_counts woken (ws ws' : list (Worker T)) :
  notify_one woken ws = Some ws' →
  zcount running ws' = zcount running ws ∧ zcount busy ws' = zcount busy ws ∧ length ws' = length ws.
Proof.
  unfold notify_one. destruct woken as [j|].
  - destruct (ws !! j) as [[]|] eqn:Hj; try done. intros [= <-]. rewrite !(zcount_insert _ _ _ _ _ Hj), length_insert. cbn. lia.
  - destruct (existsb asleep ws); [done|]. by intros [= <-].
Qed.

Lemma wake_counts (ws : list (Worker T)) :
  zcount running (wake <$> ws) = zcount running ws ∧ zcount busy (wake <$> ws) = zcount busy ws.
Proof.
  unfold zcount. induction ws as [|w ws [IHr IHb]]; [done|]. cbn. assert (running (wake w) = running w ∧ busy (wake w) = busy w) as [-> ->] by (by destruct w).
  lia.
Qed.

Lemma caller_step_accounts n m i woken s s' :
  accounts n m s → zlen (pushed (shared s')) < u64_modulus → caller_step max_total i woken s = Some s' → accounts n m s'.
Proof.
  intros Ha Hsmall. unfold caller_step. destruct (callers s !! i) as [c|] eqn:Hi; [|done].
  destruct c as [|g [|t ts]|g t ts|g ts|g ts|g wait|g]; try done.
  - intros [= <-]. by eapply move_caller_accounts.
  - destruct (Z.leb_spec max_total (queue_size (shared s))); intros [= <-].
    + destruct (move_caller_accounts n m i _ (CRun g ts) s Ha Hi); done.
    + pose proof (zcount_le pushing (<[i := CPush g t ts]> (callers s))) as Hle. rewrite (zcount_insert _ _ _ _ _ Hi) in Hle.
      unfold zlen in Hle. rewrite length_insert, (ac_callers _ _ _ Ha) in Hle. cbn in Hle.
      destruct Ha as [Horder Hsize Hdone Hrange Hsub Hact Hbound Hws Hcs].
      constructor; cbn; rewrite ?length_insert, ?(zcount_insert _ _ _ _ _ Hi); cbn; try done; try lia.
      rewrite Hact. f_equal. lia.
  - destruct (locked s); [done|]. intros (ws & (Hr & Hb & Hl)%notify_counts & [= <-])%bind_Some.
    cbn in Hsmall. rewrite zlen_app in Hsmall. change (zlen [t]) with 1 in Hsmall.
    destruct Ha as [Horder Hsize Hdone Hrange Hsub Hact Hbound Hws Hcs].
    assert (zlen (pushed (shared s)) = zlen (started (shared s)) + zlen (queue (shared s))) as Hlen by (by rewrite Horder, zlen_app).
    pose proof (zlen_nonneg (started (shared s))). pose proof (zlen_nonneg (queue (shared s))).
    constructor; cbn; rewrite ?length_insert, ?(zcount_insert _ _ _ _ _ Hi), ?zlen_app, ?Hr, ?Hb; cbn;
      change (zlen [t]) with 1; try done; try lia.
    + by rewrite Horder, app_assoc.
    + rewrite wadd64_in; lia.
    + rewrite Hact. f_equal. lia.
  - intros [= <-]. destruct Ha as [Horder Hsize Hdone Hrange Hsub Hact Hbound Hws Hcs].
    pose proof (zcount_pos unsubmitted _ _ _ Hi eq_refl). cbn in Hsmall.
    pose proof (zcount_insert unsubmitted _ _ _ (CSubmitted g ts) Hi) as Hn. cbn in Hn.
    constructor; cbn; rewrite ?length_insert, ?(zcount_insert _ _ _ _ _ Hi); cbn; rewrite ?wadd64_in by lia; try done; try lia.
    rewrite Hact. f_equal. lia.
  - intros [= <-]. destruct Ha as [Horder Hsize Hdone Hrange Hsub Hact Hbound Hws Hcs].
    constructor; cbn; rewrite ?length_insert, ?(zcount_insert _ _ _ _ _ Hi); cbn; try done; try lia.
    rewrite (wadd64_active _ _ _ Hact). f_equal. lia.
  - intros [= <-]. destruct (wake_counts (workers s)) as [Hr Hb].
    destruct Ha as [Horder Hsize Hdone Hrange Hsub Hact Hbound Hws Hcs].
    constructor; cbn; rewrite ?length_insert, ?length_fmap, ?(zcount_insert _ _ _ _ _ Hi), ?Hr, ?Hb; destruct wait; cbn; try done; try lia;
      rewrite Hact; f_equal; lia.
  - destruct (forallb exited (workers s)); [|done]. intros [= <-]. by eapply move_caller_accounts.
Qed.

Lemma begin_accounts n m i c f s s' :
  accounts n m s → begin gil_enabled i c f s = Some s' →
  (∀ h, pushed (f h) = pushed h ∧ started (f h) = started h ∧ queue (f h) = queue h ∧ queue_size (f h) = queue_size h ∧
        completed (f h) = completed h ∧ failed (f h) = failed h ∧ submitted (f h) = submitted h ∧ active (f h) = active h) →
  unsubmitted c = false → inactive c = false → pushing c = false → accounts n m s'.
Proof.
  intros Ha Hb Hf Hu Hn Hp. unfold begin in Hb. destruct (callers s !! i) as [[]|] eqn:Hi; try done.
  destruct (_ || _); [|done]. injection Hb as <-.
  pose proof (move_caller_accounts n m i COut c s Ha Hi) as Hm. rewrite Hu, Hn, Hp in Hm.
  destruct (Hf (shared s)) as (E1 & E2 & E3 & E4 & E5 & E6 & E7 & E8).
  destruct Hm as [H1 H2 H3 H4 H5 H6 H7 H8 H9]; try done. cbn in *.
  constructor; cbn; by rewrite ?E1, ?E2, ?E3, ?E4, ?E5, ?E6, ?E7, ?E8.
Qed.

Lemma step_accounts n m e s s' :
  accounts n m s → zlen (pushed (shared s')) < u64_modulus → pool_step gil_enabled max_total e s = Some s' → accounts n m s'.
Proof.
  intros Ha Hsmall He.
  assert (∀ j s1, worker_step j s = Some s1 → pushed (shared s1) = pushed (shared s)) as Hw.
  { intros j s1. unfold worker_step. destruct (workers s !! j) as [[]|]; try done; [|by intros [= <-]..].
    destruct (locked s); [done|]. destruct (queue (shared s)); by intros [= <-]. }
  destruct e as [i g ts|i g wait|i woken|j|j o|j]; cbn [pool_step] in He.
  - by eapply (begin_accounts n m).
  - by eapply (begin_accounts n m).
  - by eapply caller_step_accounts.
  - rewrite (Hw _ _ He) in Hsmall. by eapply worker_step_accounts.
  - eapply worker_return_accounts; [done| |done].
    unfold worker_return in He. destruct (gil_free _ s); [|done].
    destruct (workers s !! j) as [[]|], o; try done; by injection He as <-.
  - destruct (workers s !! j) as [[]|] eqn:Hj; try done. injection He as <-. destruct Ha.
    constructor; cbn; rewrite ?length_insert, ?(zcount_insert _ _ _ _ _ Hj); cbn; rewrite ?Z.add_0_r, ?Z.sub_0_r; done.
Qed.

Lemma step_pushed e s s' :
  pool_step gil_enabled max_total e s = Some s' → pushed (shared s) `prefix_of` pushed (shared s').
Proof.
  destruct e as [i g ts|i g wait|i woken|j|j o|j]; cbn [pool_step]; intros He.
  - unfold begin in He. destruct (callers s !! i) as [[]|]; try done. destruct (_ || _); [|done]. by injection He as <-.
  - unfold begin in He. destruct (callers s !! i) as [[]|]; try done. destruct (_ || _); [|done]. by injection He as <-.
  - unfold caller_step in He. destruct (callers s !! i) as [[|g [|t ts]|g t ts|g ts|g ts|g wait|g]|]; try done;
      try by injection He as <-.
    + destruct (_ <=? _); by injection He as <-.
    + destruct (locked s); [done|]. apply bind_Some in He as (ws & _ & [= <-]). by eexists.
    + destruct (forallb _ _); [|done]. by injection He as <-.
  - unfold worker_step in He. destruct (workers s !! j) as [[]|]; try done; try by injection He as <-.
    destruct (locked s); [done|]. destruct (queue (shared s)); by injection He as <-.
  - unfold worker_return in He. destruct (gil_free _ s); [|done].
    destruct (workers s !! j) as [[]|], o; try done; by injection He as <-.
  - destruct (workers s !! j) as [[]|]; try done. by injection He as <-.
Qed.

Lemma run_accounts n m es s s' :
  accounts n m s → zlen (pushed (shared s')) < u64_modulus → pool_run gil_enabled max_total es s = Some s' → accounts n m s'.
Proof.
  revert s. induction es as [|e es IH]; intros s Ha Hsmall; cbn [pool_run]; [by intros [= <-]|].
  intros (s1 & He & Hr)%bind_Some. eapply IH; [|done..]. eapply step_accounts; [done| |done].
  assert (pushed (shared s1) `prefix_of` pushed (shared s')) as Hp%prefix_length; [|unfold zlen in *; lia].
  clear -Hr. revert s1 Hr. induction es as [|e es IH]; intros s1; cbn [pool_run]; [by intros [= <-]|].
  intros (s2 & He & Hr)%bind_Some. etrans; [by eapply step_pushed|by eapply IH].
Qed.

(** C18: No background task is lost, run twice or out of order, and the
    counters say so.  Whatever the threads do and however they interleave
    (fewer than 2^64 tasks), the tasks that were started followed by those in
    the queue are the ones that were pushed, in that order; the queue exceeds
    its limit by fewer tasks than there are threads that push; and when no
    thread is between a push and its counters, [submitted] counts the tasks
    that were pushed, of which each is completed, failed, running or queued,
    and [active] those that are not over. *)
Theorem tasks_accounted n m es s :
  (0 < m)%nat → pool_run gil_enabled max_total es (pool_new n m) = Some s → zlen (pushed (shared s)) < u64_modulus →
  pushed (shared s) = (started (shared s) ++ queue (shared s))%list ∧
  zlen (queue (shared s)) ≤ Z.max 0 max_total + Z.of_nat m - 1 ∧
  (forallb (λ c, negb (inactive c)) (callers s) = true →
     submitted (shared s) = zlen (pushed (shared s)) ∧
     submitted (shared s)
       = completed (shared s) + failed (shared s) + zcount running (workers s) + zlen (queue (shared s)) ∧
     active (shared s) = (zlen (queue (shared s)) + zcount busy (workers s)) mod u64_modulus).
Proof.
  intros Hm Hrun Hsmall. eapply run_accounts in Hrun as [Horder Hsize Hdone Hrange Hsub Hact Hbound Hws Hcs]; [|by apply accounts_new|done].
  split; [done|]. pose proof (zcount_nonneg pushing (callers s)). split; [lia|]. intros Hidle.
  rewrite forallb_forall in Hidle.
  assert (∀ f : Caller T → bool, (∀ c, f c = true → inactive c = true) → zcount f (callers s) = 0) as Hz.
  { intros f Hf. unfold zcount. rewrite count_0; [done|]. intros c Hc%list_elem_of_In%Hidle. destruct (f c) eqn:Hfc; [|done].
    by rewrite (Hf c Hfc) in Hc. }
  rewrite (Hz unsubmitted) in Hsub by (by intros []). rewrite (Hz inactive), Z.sub_0_r in Hact by done.
  assert (zlen (pushed (shared s)) = zlen (started (shared s)) + zlen (queue (shared s))) by (by rewrite Horder, zlen_app).
  split_and!; [lia|lia|done].
Qed.

(** ** Shutdown *)

Definition worker_event (e : Event T) : bool := match e with EvWorker _ | EvReturn _ _ => true | _ => false end.

(** What a worker and a queued task have left to do. *)
Definition effort w : nat :=
  match w with WPop => 1 | WChecked => 3 | WAsleep => 2 | WCall _ => 4 | WAwait _ => 3 | WCounted => 2 | WExited => 0 end.
Definition work s : nat := 4 * length (queue (shared s)) + sum_list (effort <$> workers s).

(** The flag is up, no worker is about to wait or waits, one is alive, and
    nothing keeps Python from running. *)
Definition settled s : Prop :=
  shutdown (shared s) = true ∧ gil_free gil_enabled s = true ∧
  (∀ w, w ∈ workers s → w ≠ WChecked ∧ w ≠ WAsleep) ∧
  (queue (shared s) = [] ∨ ∃ w, w ∈ workers s ∧ w ≠ WExited).

Lemma effort_insert (ws : list (Worker T)) j w w' :
  ws !! j = Some w → (sum_list (effort <$> <[j := w']> ws) + effort w = sum_list (effort <$> ws) + effort w')%nat.
Proof.
  intros Hj. rewrite insert_take_drop by (by eapply lookup_lt_Some).
  assert (sum_list (effort <$> ws) = sum_list (effort <$> take j ws) + (effort w + sum_list (effort <$> drop (S j) ws)))%nat as ->.
  { rewrite <-(take_drop_middle ws j w Hj) at 1. by rewrite fmap_app, sum_list_app. }
  rewrite fmap_app, sum_list_app. cbn. lia.
Qed.

(** A step of a worker keeps the state settled and takes from the work. *)
Lemma settled_step e s s' :
  settled s → worker_event e = true → pool_step gil_enabled max_total e s = Some s' →
  settled s' ∧ (work s' < work s)%nat.
Proof.
  intros (Hflag & Hgil & Hws & Halive) He Hs.
  assert (∀ j w w' f, workers s !! j = Some w → s' = move_worker j w' f s → w' ≠ WChecked → w' ≠ WAsleep →
            shutdown (f (shared s)) = true →
            (queue (f (shared s)) = [] ∨ w' ≠ WExited) →
            (4 * length (queue (f (shared s))) + effort w' < 4 * length (queue (shared s)) + effort w)%nat →
            settled s' ∧ (work s' < work s)%nat) as Hmove.
  { intros j w w' f Hj -> Hc Ha Hsd Hq Heff. split.
    - split_and!; [done|done| |].
      + intros x [i Hi]%list_elem_of_lookup. cbn in Hi. apply list_lookup_insert_Some in Hi as [(<- & <- & _)|[_ Hi]]; [done|].
        apply Hws. by eapply list_elem_of_lookup_2.
      + destruct Hq as [Hq|Hq]; [by left|right]. exists w'. split; [|done]. apply (list_elem_of_lookup_2 _ j). cbn.
        rewrite list_lookup_insert_eq; [done|]. by eapply lookup_lt_Some.
    - unfold work. cbn [workers shared move_worker]. pose proof (effort_insert _ _ _ w' Hj). lia. }
  destruct e as [| | |j|j o|]; try done; cbn [pool_step] in Hs.
  - unfold worker_step in Hs. destruct (workers s !! j) as [[]|] eqn:Hj; try done.
    + destruct (locked s); [done|]. destruct (queue (shared s)) as [|t q] eqn:Hq; rewrite ?Hflag in Hs; injection Hs as <-.
      * eapply Hmove; [done|done|done|done|done|by left|cbn; rewrite Hq; cbn; lia].
      * eapply Hmove; [done|done|done|done|done|by right|cbn; lia].
    + by destruct (Hws WChecked (list_elem_of_lookup_2 _ _ _ Hj)).
    + injection Hs as <-. eapply Hmove; [done|done|done|done|done|by right|cbn; lia].
  - unfold worker_return in Hs. rewrite Hgil in Hs.
    destruct (workers s !! j) as [[]|] eqn:Hj, o; try done; injection Hs as <-;
      (eapply Hmove; [done|done|done|done|done|by right|cbn; lia]).
Qed.

Lemma settled_end s :
  settled s → (∀ e, worker_event e = true → pool_step gil_enabled max_total e s = None) →
  queue (shared s) = [] ∧ ∀ w, w ∈ workers s → w = WExited.
Proof.
  intros (Hflag & Hgil & Hws & Halive) Hend.
  assert (∀ w, w ∈ workers s → w = WExited) as Hex; [|split; [|done]].
  - intros w Hw. pose proof Hw as [j Hj]%list_elem_of_lookup. destruct (Hws w Hw) as [Hc Ha].
    pose proof (Hend (EvWorker j) eq_refl) as H1. pose proof (Hend (EvReturn j Returned) eq_refl) as H2.
    cbn [pool_step] in H1, H2. unfold worker_step in H1. unfold worker_return in H2. rewrite Hj in H1, H2. rewrite Hgil in H2.
    assert (locked s = false) as Hl.
    { apply not_true_is_false. unfold locked. rewrite existsb_exists. intros (x & Hx%list_elem_of_In & Hlock).
      destruct (Hws x Hx). by destruct x. }
    rewrite Hl in H1. destruct w; try done. by destruct (queue (shared s)).
  - destruct Halive as [|(w & Hw & Hne)]; [done|]. by rewrite (Hex w Hw) in Hne.
Qed.

(** C10: A shutdown that reaches every worker drains the queue.  From a state
    that any run has led to (with fewer than 2^64 tasks pushed) in which the
    flag is up, no worker waits or is about to, Python can run, and the queue
    is empty or some worker has not left yet, as long as nothing new is pushed:
    the workers take at most the steps their tasks need, whatever the calls
    answer, and when they can take no more they are all gone and every task
    that was pushed has been started.  The last condition is needed: what is
    pushed when the workers have gone stays in the queue
    ([Examples.late_task]); and a worker that is about to wait when the flag
    goes up sleeps for good ([Examples.lost_wakeup_hangs]). *)
Theorem shutdown_drains n m es s es' s' :
  (0 < m)%nat → pool_run gil_enabled max_total es (pool_new n m) = Some s → zlen (pushed (shared s')) < u64_modulus →
  settled s → forallb worker_event es' = true → pool_run gil_enabled max_total es' s = Some s' →
  (length es' ≤ work s)%nat ∧
  ((∀ e, worker_event e = true → pool_step gil_enabled max_total e s' = None) →
   forallb exited (workers s') = true ∧ started (shared s') = pushed (shared s')).
Proof.
  intros Hm Hrun Hsmall Hset Hev Hrun'.
  assert (accounts n m s') as Ha.
  { apply (run_accounts n m (es ++ es') (pool_new n m)); [by apply accounts_new|done|].
    clear -Hrun Hrun'. revert Hrun. generalize (pool_new (T := T) n m). induction es as [|e es IH]; intros s0; cbn [pool_run app].
    - by intros [= ->].
    - intros (s1 & -> & Hr)%bind_Some. cbn. by apply IH. }
  assert (settled s' ∧ (length es' + work s' ≤ work s)%nat) as [Hset' Hle].
  { clear -Hset Hev Hrun'. revert s Hset Hrun'. induction es' as [|e es IH]; intros s Hset; cbn [pool_run]; [intros [= <-]; split; [done|simpl length; lia]|].
    intros (s1 & He & Hr)%bind_Some. cbn [forallb] in Hev. apply andb_prop in Hev as [Hw Hev].
    destruct (settled_step _ _ _ Hset Hw He) as [Hset1 Hlt]. destruct (IH Hev s1 Hset1 Hr) as [? ?]. split; [done|simpl length; lia]. }
  split; [lia|]. intros Hend. destruct (settled_end _ Hset' Hend) as [Hq Hex]. split.
  - apply forallb_forall. intros w Hw%list_elem_of_In. by rewrite (Hex w Hw).
  - by rewrite (ac_order _ _ _ Ha), Hq, app_nil_r.
Qed.

(** Joining the workers with the GIL never ends while a task is being
    called.  Where Python has a GIL and the thread in [shutdown] holds it, a
    worker that has a task to call stays where it is and so does the thread,
    whatever the others do. *)
Theorem join_with_gil_hangs es s s' i j w :
  gil_enabled = true → callers s !! i = Some (CJoin true) → workers s !! j = Some w → running w = true →
  pool_run gil_enabled max_total es s = Some s' →
  callers s' !! i = Some (CJoin true) ∧ workers s' !! j = Some w.
Proof.
  intros Hgil. revert s. induction es as [|e es IH]; intros s Hi Hj Hw; cbn [pool_run]; [by intros [= <-]|].
  intros (s1 & He & Hr)%bind_Some. enough (callers s1 !! i = Some (CJoin true) ∧ workers s1 !! j = Some w) as [? ?] by by eapply IH.
  clear IH Hr s' es.
  assert (gil_free gil_enabled s = false) as Hfree.
  { unfold gil_free. rewrite Hgil. cbn. apply negb_false_iff, existsb_exists. exists (CJoin true).
    split; [|done]. apply list_elem_of_In. by eapply list_elem_of_lookup_2. }
  assert (∀ i' c f, callers s !! i' ≠ Some (CJoin true) → callers (move_caller i' c f s) !! i = Some (CJoin true)) as Hother.
  { intros i' c f Hne. cbn. rewrite list_lookup_insert_ne; [done|]. by intros ->. }
  assert (∀ j' w' f, workers s !! j' ≠ Some w → workers (move_worker j' w' f s) !! j = Some w) as Hworker.
  { intros j' w' f Hne. cbn. rewrite list_lookup_insert_ne; [done|]. by intros ->. }
  destruct e as [i' g ts|i' g wait|i' woken|j'|j' o|j']; cbn [pool_step] in He.
  - unfold begin in He. destruct (callers s !! i') as [[]|] eqn:Hi'; try done. destruct (_ || _); [|done].
    injection He as <-. split; [apply Hother; by rewrite Hi'|done].
  - unfold begin in He. destruct (callers s !! i') as [[]|] eqn:Hi'; try done. destruct (_ || _); [|done].
    injection He as <-. split; [apply Hother; by rewrite Hi'|done].
  - unfold caller_step in He. destruct (callers s !! i') as [[|g [|t ts]|g t ts|g ts|g ts|g wait|g]|] eqn:Hi'; try done;
      try (injection He as <-; split; [apply Hother; by rewrite Hi'|done]).
    + destruct (_ <=? _); injection He as <-; (split; [apply Hother; by rewrite Hi'|done]).
    + destruct (locked s); [done|]. apply bind_Some in He as (ws & Hn & [= <-]). cbn. split.
      { rewrite list_lookup_insert_ne; [done|]. intros ->. by rewrite Hi' in Hi. }
      unfold notify_one in Hn. destruct woken as [k|]; [|destruct (existsb _ _); [done|by injection Hn as <-]].
      destruct (workers s !! k) as [[]|] eqn:Hk; try done. injection Hn as <-. rewrite list_lookup_insert_ne; [done|].
      intros ->. rewrite Hk in Hj. by injection Hj as <-.
    + injection He as <-. cbn. split; [rewrite list_lookup_insert_ne; [done|]; intros ->; by rewrite Hi' in Hi|].
      rewrite list_lookup_fmap, Hj. by destruct w.
    + destruct (forallb exited (workers s)) eqn:Hex; [|done]. rewrite forallb_forall in Hex.
      assert (exited w = true) by (apply Hex, list_elem_of_In; by eapply list_elem_of_lookup_2). by destruct w.
  - unfold worker_step in He. destruct (workers s !! j') as [w0|] eqn:Hj'; [|done].
    assert (workers s !! j' = Some w → False) as Hne.
    { rewrite Hj'. intros [= ->]. by destruct w. }
    destruct w0; try done.
    + destruct (locked s); [done|]. destruct (queue (shared s)); injection He as <-; (split; [done|by apply Hworker]).
    + injection He as <-. split; [done|by apply Hworker].
    + injection He as <-. split; [done|by apply Hworker].
  - unfold worker_return in He. by rewrite Hfree in He.
  - destruct (workers s !! j') as [[]|] eqn:Hj'; try done. injection He as <-. split; [done|]. apply Hworker. rewrite Hj'.
    intros [= <-]. done.
Qed.
End theorems.

Module Examples.

(** Two tasks on one worker: one returns, one is a coroutine that fails. *)
Definition two_tasks : list (Event nat) :=
  [EvRun 0 true [1%nat; 2%nat]; EvCaller 0 None; EvCaller 0 None; EvCaller 0 None; EvCaller 0 None; EvCaller 0 None; EvCaller 0 None;
   EvCaller 0 None; EvCaller 0 None; EvCaller 0 None; EvWorker 0; EvReturn 0 Returned; EvWorker 0; EvWorker 0; EvReturn 0 Coroutine;
   EvReturn 0 Raised; EvWorker 0].

Example two_tasks_stats :
  stats <$> pool_run true 10 two_tasks (pool_new 1 1)
  = Some [("submitted", 2); ("active", 0); ("completed", 1); ("failed", 1); ("dropped", 0); ("async", 1)]%string.
Proof. by vm_compute. Qed.

(** A full queue drops. *)
Example full_queue :
  stats <$> pool_run true 1 (take 7 two_tasks) (pool_new 1 1)
  = Some [("submitted", 1); ("active", 1); ("completed", 0); ("failed", 0); ("dropped", 1); ("async", 0)]%string.
Proof. by vm_compute. Qed.

(** Two threads push at once: the queue goes over its limit. *)
Example over_the_limit :
  (λ s, length (queue (shared s))) <$> pool_run false 1
    [EvRun 0 false [1%nat]; EvRun 1 false [2%nat]; EvCaller 0 None; EvCaller 1 None; EvCaller 0 None; EvCaller 1 None] (pool_new 1 2)
  = Some 2%nat.
Proof. by vm_compute. Qed.

(** A worker is done with a task before it is counted as active: the scheduler
    pushes without the GIL. *)
Example active_wraps :
  (λ s, active (shared s)) <$> pool_run true 10
    [EvRun 0 false [1%nat]; EvCaller 0 None; EvCaller 0 None; EvWorker 0; EvReturn 0 Returned; EvWorker 0] (pool_new 1 1)
  = Some u64_max.
Proof. by vm_compute. Qed.

(** The flag and the signal come between a worker's look at the flag and its
    wait: it waits for good, and so does who joins it, unless it wakes for no
    reason. *)
Definition lost_wakeup : list (Event nat) := [EvWorker 0; EvStop 0 false true; EvCaller 0 None; EvWorker 0].

Example lost_wakeup_hangs :
  ∃ s, pool_run true 10 lost_wakeup (pool_new 1 1) = Some s ∧
    ∀ e, pool_step true 10 e s = None ∨ e = EvSpurious 0.
Proof.
  eexists. split; [reflexivity|]. intros [[|i] g ts|[|i] g w|[|i] k|[|j]|[|j] o|[|j]]; by (left; done) || by right.
Qed.

(** What is pushed after the workers have gone is never run. *)
Example late_task :
  (λ s, (length (queue (shared s)), workers s)) <$> pool_run true 10
    [EvStop 0 true false; EvCaller 0 None; EvWorker 0; EvRun 0 true [1%nat]; EvCaller 0 None; EvCaller 0 None; EvCaller 0 None; EvCaller 0 None]
    (pool_new 1 1)
  = Some (1%nat, [WExited]).
Proof. by vm_compute. Qed.

Example sizes : workers_of true (Some 8) = 12 ∧ workers_of true (Some 64) = 32 ∧ workers_of false (Some 64) = 128 ∧ workers_of false None = 8.
Proof. done. Qed.

Lemma tasks_accounted_witness :
  ∃ s, pool_run true 10 two_tasks (pool_new 1 1) = Some s ∧ submitted (shared s) = 2 ∧ active (shared s) = 0.
Proof.
  destruct (pool_run true 10 two_tasks (pool_new 1 1)) as [s|] eqn:Hs; [|discriminate Hs].
  exists s. split; [reflexivity|].
  destruct (tasks_accounted true 10 1 1 two_tasks s) as (_ & _ & Hc); [apply Nat.lt_0_1|exact Hs|vm_compute in Hs; injection Hs as <-; by vm_compute|].
  destruct Hc as (Hsub & _ & Hact); [vm_compute in Hs; injection Hs as <-; by vm_compute|]. rewrite Hsub, Hact. vm_compute in Hs. injection Hs as <-. by vm_compute.
Defined.

Definition drain_run : list (Event nat) :=
  (take 10 two_tasks ++ [EvStop 0 true false; EvCaller 0 None])%list.
Definition drain_events : list (Event nat) :=
  [EvWorker 0; EvReturn 0 Returned; EvWorker 0; EvWorker 0; EvReturn 0 Coroutine; EvReturn 0 Returned; EvWorker 0; EvWorker 0].

Lemma shutdown_drains_witness :
  ∃ s s', pool_run true 10 drain_run (pool_new 1 1) = Some s ∧ pool_run true 10 drain_events s = Some s'
    ∧ (length drain_events ≤ work s)%nat ∧ started (shared s') = [1%nat; 2%nat].
Proof.
  destruct (pool_run true 10 drain_run (pool_new 1 1)) as [s|] eqn:Hs; [|discriminate Hs].
  destruct (pool_run true 10 drain_events s) as [s'|] eqn:Hs'; [|vm_compute in Hs; injection Hs as <-; discriminate Hs'].
  exists s, s'. split; [reflexivity|]. split; [exact Hs'|].
  destruct (shutdown_drains true 10 1 1 drain_run s drain_events s') as [Hlen Hend]; [apply Nat.lt_0_1|exact Hs| | |reflexivity|exact Hs'|].
  - vm_compute in Hs. injection Hs as <-. vm_compute in Hs'. injection Hs' as <-. by vm_compute.
  - vm_compute in Hs. injection Hs as <-. split_and!; [done|done| |right; exists WPop; split; [by left|done]].
    intros w Hw. apply list_elem_of_singleton in Hw as ->. done.
  - split; [exact Hlen|]. destruct Hend as [_ Heq].
    + vm_compute in Hs. injection Hs as <-. vm_compute in Hs'. injection Hs' as <-. by intros [| | |[|j]|[|j] []|].
    + rewrite Heq. vm_compute in Hs. injection Hs as <-. vm_compute in Hs'. by injection Hs' as <-.
Defined.

Lemma join_with_gil_hangs_witness :
  let s := mk_state shared_new [WCall 1%nat] [CJoin true; COut] in
  ∃ s', pool_run true 10 [EvStop 1 false false; EvCaller 1 None] s = Some s' ∧ callers s' !! 0%nat = Some (CJoin true).
Proof.
  intros s. destruct (pool_run true 10 [EvStop 1 false false; EvCaller 1 None] s) as [s'|] eqn:Hs; [|discriminate Hs].
  exists s'. split; [reflexivity|].
  exact (proj1 (join_with_gil_hangs true 10 _ s s' 0 0 (WCall 1%nat) eq_refl eq_refl eq_refl eq_refl Hs)).
Defined.

End Examples.
