(* ===== verification/GilPool.v ===== *)
(** * GilPool: the threads that run Python

    [crates/justapi-py/src/gil_pool.rs]: how large the pool is, when it is
    built anew, and how [run_python] hands a job to one of its threads.  The
    threads of a pool belong to the process that built it: after a fork the
    child has the pool's memory and none of its threads. *)

From stdpp Require Import gmap strings.
From S2P Require Import Prelude F32 Text.

#[local] Open Scope Z_scope.

Inductive RuntimeMode := GilBased | GilFree.

#[export] Instance RuntimeMode_eq_dec : EqDecision RuntimeMode.
Proof. solve_decision. Defined.

Definition from_gil_enabled (enabled : bool) : RuntimeMode := if enabled then GilBased else GilFree.
Definition is_gil_free (m : RuntimeMode) : bool := bool_decide (m = GilFree).

Definition channel_cap_per_worker : Z := 16.

(** What the process was built and started with: [Py_GIL_DISABLED], what
    [sys._is_gil_enabled] reads as, [JUSTAPI_GIL_WORKERS], the machine. *)
Record Environment := mk_environment {
  py_gil_disabled : bool; sys_gil : option bool; gil_workers : option string; parallelism : option Z }.

Section environment.
Context (env : Environment).

Definition default_pool_size (m : RuntimeMode) : Z :=
  match (n ← gil_workers env ≫= parse_u64; if 0 <? n then Some n else None) with
  | Some n => n
  | None => if is_gil_free m then Z.max 2 (default 4 (parallelism env)) else 1
  end.

Definition detect_mode : RuntimeMode :=
  if py_gil_disabled env then GilFree else from_gil_enabled (default true (sys_gil env)).

(** The mode of a pool that is built without [init]. *)
Definition lazy_mode : RuntimeMode := if py_gil_disabled env then GilFree else GilBased.

(** The capacity of one channel. *)
Definition channel_cap (n : Z) : Z := Z.max 1 n * channel_cap_per_worker.

(** [owner] is the process whose threads read the channels. *)
Record GilPool := mk_pool { senders : Z; pool_mode : RuntimeMode; next : Z; owner : Z }.

(** [POOL] and [POOL_PID]. *)
Record Statics := mk_statics { pool : option GilPool; pool_pid : Z }.
Definition statics_new : Statics := mk_statics None 0.

Definition build_pool (n : Z) (m : RuntimeMode) (pid : Z) : GilPool := mk_pool n m 0 pid.

Definition same_process (pid : Z) (s : Statics) : bool := bool_decide (is_Some (pool s)) && (pool_pid s =? pid).

(** [init] and [init_pool]. *)
Definition init (num_threads : option Z) (pid : Z) (s : Statics) : Statics :=
  if same_process pid s then s
  else mk_statics (Some (build_pool (default (default_pool_size detect_mode) num_threads) detect_mode pid)) pid.

(** The first part of [run_python]: the pool, and the thread that is chosen;
    no threads make the remainder panic. *)
Definition with_pool (pid : Z) (s : Statics) : Statics :=
  if same_process pid s then s else mk_statics (Some (build_pool (default_pool_size lazy_mode) lazy_mode pid)) pid.

Definition choose (p : GilPool) : exec (Z * GilPool) :=
  if senders p =? 1 then Ret (0, p)
  else if senders p =? 0 then Panic
  else Ret (next p mod senders p, mk_pool (senders p) (pool_mode p) (wadd64 (next p) 1) (owner p)).

Definition run_python (pid : Z) (s : Statics) : exec (Z * GilPool * Statics) :=
  let s := with_pool pid s in
  match pool s with
  | None => Panic
  | Some p => '(i, p) ← choose p; Ret (i, p, mk_statics (Some p) (pool_pid s))
  end.

Definition mode (s : Statics) : option RuntimeMode := pool_mode <$> pool s.
End environment.

(** ** The jobs of one pool *)

(** A job is the number of the request that made it, in the order of their
    choices, and the thread that was chosen. *)
Abbreviation job := (nat * nat)%type.

(** A job that was run: the thread that ran it, the job, and whether its
    request was there to take the answer. *)
Abbreviation run_of_job := (nat * job * bool)%type.

(** The channels; how many requests there were; the jobs whose sender waits
    for room; those whose request was dropped while it waited; the requests
    dropped after their job was sent; the jobs that ran. *)
Record Jobs := mk_jobs {
  chans : list (list job); counter : Z; submitted : nat; waiting : list job;
  abandoned : list job; left_alone : list nat; ran : list run_of_job }.

Inductive Event := EvSubmit | EvSend (k : nat) | EvServe (w : nat) | EvDrop (r : nat).

Section jobs.
Context (n : nat).

Definition jobs_new : Jobs := mk_jobs (replicate n []) 0 0 [] [] [] [].

Definition chosen (c : Z) : nat := if (n =? 1)%nat then 0%nat else Z.to_nat (c mod Z.of_nat n).

(** A request chooses its thread; its job is sent once there is room; a thread
    takes a job, runs it and answers, which fails when nobody waits for it.
    The future of a request is dropped, as the server's timeout does, while it
    waits for room (the job is dropped with it) or for the answer (the job
    stays where it is). *)
Definition job_step (e : Event) (s : Jobs) : option Jobs :=
  match e with
  | EvSubmit =>
      Some (mk_jobs (chans s) (if (n =? 1)%nat then counter s else wadd64 (counter s) 1) (S (submitted s))
              (waiting s ++ [(submitted s, chosen (counter s))]) (abandoned s) (left_alone s) (ran s))
  | EvSend k =>
      '(r, w) ← waiting s !! k; q ← chans s !! w;
      if Z.of_nat (length q) <? channel_cap (Z.of_nat n)
      then Some (mk_jobs (<[w := (q ++ [(r, w)])%list]> (chans s)) (counter s) (submitted s)
                   (delete k (waiting s)) (abandoned s) (left_alone s) (ran s))
      else None
  | EvServe w =>
      match chans s !! w with
      | Some (j :: q) =>
          Some (mk_jobs (<[w := q]> (chans s)) (counter s) (submitted s) (waiting s) (abandoned s)
                  (left_alone s) (ran s ++ [(w, j, bool_decide (j.1 ∉ left_alone s))]))
      | _ => None
      end
  | EvDrop r =>
      match list_find (λ j : job, j.1 = r) (waiting s) with
      | Some (k, j) =>
          Some (mk_jobs (chans s) (counter s) (submitted s) (delete k (waiting s)) (abandoned s ++ [j])
                  (left_alone s) (ran s))
      | None =>
          if bool_decide (r ∈ (concat (chans s)).*1 ∧ r ∉ left_alone s)
          then Some (mk_jobs (chans s) (counter s) (submitted s) (waiting s) (abandoned s)
                       (left_alone s ++ [r]) (ran s))
          else None
      end
  end.

Fixpoint job_run (es : list Event) (s : Jobs) : option Jobs :=
  match es with [] => Some s | e :: es => s ← job_step e s; job_run es s end.

Definition is_submit (e : Event) : bool := match e with EvSubmit => true | _ => false end.
Definition is_drop (e : Event) : bool := match e with EvDrop _ => true | _ => false end.
Definition submits (es : list Event) : nat := length (filter (λ e, is_submit e = true) es).
Definition drops (es : list Event) : list nat := omap (λ e, match e with EvDrop r => Some r | _ => None end) es.

(** The jobs of the first requests: dealt out to the threads in turn. *)
Definition dealt (k : nat) : list job := (λ i, (i, chosen (Z.of_nat i mod u64_modulus))) <$> seq 0 k.
End jobs.

(** ** Whose threads *)

Inductive Call := CInit (num_threads : option Z) | CRun | CFork (pid : Z).

(** What happens in a process and, after a fork, in its child.  A process is
    its number: numbers are taken not to be used again. *)
Definition call_step (env : Environment) (c : Call) (st : Z * Statics) : exec (Z * Statics) :=
  let '(pid, s) := st in
  match c with
  | CInit n => Ret (pid, init env n pid s)
  | CRun => '(_, _, s) ← run_python env pid s; Ret (pid, s)
  | CFork pid' => Ret (pid', s)
  end.

Fixpoint calls_run (env : Environment) (cs : list Call) (st : Z * Statics) : exec (Z * Statics) :=
  match cs with [] => Ret st | c :: cs => st ← call_step env c st; calls_run env cs st end.

(** The pool is its owner's; it has threads, unless [init] was told none. *)
Definition owned (st : Z * Statics) : Prop := ∀ p, pool st.2 = Some p → owner p = pool_pid st.2.
Definition threaded (st : Z * Statics) : Prop := ∀ p, pool st.2 = Some p → 0 < senders p.

Definition forks_afresh (c : Call) : Prop := match c with CInit (Some n) => 0 < n | _ => True end.

Lemma default_pool_size_pos env m : 0 < default_pool_size env m.
Proof.
  unfold default_pool_size. destruct (_ ≫= _) as [n|] eqn:Hn; [|destruct (is_gil_free m); lia].
  apply bind_Some in Hn as (k & _ & Hk). destruct (Z.ltb_spec 0 k); [|done]. by injection Hk as <-.
Qed.

Lemma init_owned env num pid s : owned (pid, s) → owned (pid, init env num pid s).
Proof. intros Ho. unfold init. destruct (same_process pid s); [done|]. intros p. cbn. by intros [= <-]. Qed.

Lemma with_pool_spec env pid s :
  owned (pid, s) → threaded (pid, s) →
  ∃ p, pool (with_pool env pid s) = Some p ∧ pool_pid (with_pool env pid s) = pid ∧ owner p = pid ∧ 0 < senders p.
Proof.
  intros Ho Ht. unfold with_pool. destruct (same_process pid s) eqn:Hs.
  - apply andb_prop in Hs as [[p Hp]%bool_decide_eq_true Hpid%Z.eqb_eq]. exists p. split; [done|]. split; [done|].
    rewrite (Ho p Hp). split; [done|by apply Ht].
  - eexists. split; [reflexivity|]. split_and!; [done|done|apply default_pool_size_pos].
Qed.

Lemma choose_spec p : 0 < senders p → ∃ i p', choose p = Ret (i, p') ∧ 0 ≤ i < senders p ∧ owner p' = owner p ∧ senders p' = senders p.
Proof.
  intros Hp. unfold choose. destruct (Z.eqb_spec (senders p) 1) as [He|]; [exists 0, p; split_and!; lia || done|].
  destruct (Z.eqb_spec (senders p) 0); [lia|]. eexists _, _. split; [reflexivity|]. cbn. split; [|done]. by apply Z.mod_pos_bound.
Qed.

(** A job goes to a thread that exists.  Through any calls of [init] (with
    at least one thread), of [run_python] and forks, nothing panics, and a
    call of [run_python] chooses one of the threads of a pool that its own
    process has built, be it a child that inherited another's. *)
Theorem jobs_reach_own_threads env cs pid :
  Forall forks_afresh cs →
  ∃ pid' s, calls_run env cs (pid, statics_new) = Ret (pid', s) ∧
    ∃ i p s', run_python env pid' s = Ret (i, p, s') ∧ 0 ≤ i < senders p ∧ owner p = pid'.
Proof.
  intros Hcs. assert (owned (pid, statics_new) ∧ threaded (pid, statics_new)) as [Ho Ht] by (split; by intros p).
  revert Ho Ht. generalize statics_new. revert pid. induction Hcs as [|c cs Hc _ IH]; intros pid s Ho Ht.
  - exists pid, s. split; [done|]. destruct (with_pool_spec env pid s Ho Ht) as (p & Hp & _ & Hown & Hpos).
    unfold run_python. rewrite Hp. destruct (choose_spec p Hpos) as (i & p' & -> & Hi & Ho' & Hs). cbn.
    eexists i, p', _. split; [reflexivity|]. rewrite Hs, Ho'. done.
  - cbn [calls_run]. destruct c as [num| |pid']; cbn [call_step].
    + apply IH; [by apply init_owned|]. unfold init. destruct (same_process pid s); [done|]. intros p. cbn.
      intros [= <-]. cbn. destruct num; [done|apply default_pool_size_pos].
    + destruct (with_pool_spec env pid s Ho Ht) as (p & Hp & Hpid & Hown & Hpos).
      unfold run_python. rewrite Hp. destruct (choose_spec p Hpos) as (i & p' & -> & Hi & Ho' & Hs). cbn.
      apply IH; intros q; cbn; intros [= <-]; [congruence|lia].
    + by apply IH.
Qed.

(** ** Every job is run once *)

(** The jobs that ran. *)
Definition ran_jobs (s : Jobs) : list job := (λ x : run_of_job, x.1.2) <$> ran s.

Section theorems.
Context (n : nat) (Hn : (0 < n)%nat).
Implicit Types s : Jobs.

(** The jobs that are somewhere, whatever the order. *)
Definition everywhere s : list job := waiting s ++ concat (chans s) ++ abandoned s ++ ran_jobs s.

(** After [k] requests, of which [ds] were dropped. *)
Record jobs_ok (k : nat) (ds : list nat) s : Prop := {
  jo_chans : length (chans s) = n;
  jo_cap : Forall (λ q : list job, Z.of_nat (length q) ≤ channel_cap (Z.of_nat n)) (chans s);
  jo_counter : n = 1%nat ∨ counter s = Z.of_nat k mod u64_modulus;
  jo_count : submitted s = k;
  jo_jobs : everywhere s ≡ₚ dealt n k;
  jo_own : ∀ w q j, chans s !! w = Some q → j ∈ q → j.2 = w;
  jo_live : ∀ j, j ∈ waiting s → j.1 ∉ ds;
  jo_sent : ∀ j, j ∈ concat (chans s) → j.1 ∈ ds → j.1 ∈ left_alone s;
  jo_left : ∀ r, r ∈ left_alone s → r ∈ ds;
  jo_abandoned : ∀ j, j ∈ abandoned s → j.1 ∈ ds;
  jo_ran : ∀ w j b, (w, j, b) ∈ ran s → w = j.2 ∧ (b = true ↔ j.1 ∉ ds);
  jo_fresh : ∀ r, r ∈ ds → (r < k)%nat }.

Lemma chosen_lt c : (chosen n c < n)%nat.
Proof.
  unfold chosen. destruct (Nat.eqb_spec n 1); [lia|]. pose proof (Z.mod_pos_bound c (Z.of_nat n)). lia.
Qed.

Lemma concat_insert {X} (l : list (list X)) i x y :
  l !! i = Some x → ∃ a b, concat l = a ++ x ++ b ∧ concat (<[i := y]> l) = a ++ y ++ b.
Proof.
  intros Hi. exists (concat (take i l)), (concat (drop (S i) l)).
  rewrite insert_take_drop by (by eapply lookup_lt_Some). split.
  - rewrite <-(take_drop_middle l i x Hi) at 1. by rewrite concat_app.
  - by rewrite concat_app.
Qed.

Lemma delete_middle {X} (l : list X) k x : l !! k = Some x → l ≡ₚ x :: delete k l.
Proof. intros Hk. by apply delete_Permutation. Qed.

Lemma dealt_succ k : dealt n (S k) = dealt n k ++ [(k, chosen n (Z.of_nat k mod u64_modulus))].
Proof. unfold dealt. by rewrite seq_S, fmap_app. Qed.

Lemma dealt_ids k : (dealt n k).*1 = seq 0 k.
Proof. unfold dealt. rewrite <- list_fmap_compose. unfold compose. simpl. by rewrite list_fmap_id. Qed.

Lemma dealt_elem k j : j ∈ dealt n k → (j.1 < k)%nat ∧ (j.2 < n)%nat.
Proof.
  intros (i & -> & Hi)%list_elem_of_fmap. apply elem_of_seq in Hi. split; simpl; [lia|apply chosen_lt].
Qed.

(** A request is in one place. *)
Lemma one_place k ds s : jobs_ok k ds s →
  NoDup ((waiting s).*1 ++ (concat (chans s)).*1 ++ (abandoned s).*1 ++ (ran_jobs s).*1).
Proof.
  intros Hs. rewrite <- !fmap_app. change (NoDup (everywhere s).*1).
  rewrite (jo_jobs _ _ _ Hs), dealt_ids. apply NoDup_seq.
Qed.

Lemma jobs_new_ok : jobs_ok 0 [] (jobs_new n).
Proof.
  assert (concat (replicate n (@nil job)) = []) as Hnil by (clear; by induction n).
  constructor; cbn; try done.
  - apply length_replicate.
  - apply Forall_replicate. cbn. unfold channel_cap, channel_cap_per_worker. lia.
  - by right.
  - unfold everywhere. cbn. by rewrite Hnil.
  - intros w q j [-> _]%lookup_replicate Hj%elem_of_nil. done.
  - intros j ?%elem_of_nil. done.
  - intros j ?%elem_of_nil. done.
  - intros w j b ?%elem_of_nil. done.
  - intros r ?%elem_of_nil. done.
Qed.

Lemma submit_ok k ds s s' :
  jobs_ok k ds s → job_step n EvSubmit s = Some s' → jobs_ok (S k) ds s'.
Proof.
  intros Hs [= <-]. destruct Hs as [Hch Hcap Hcnt Hk Hjobs Hown Hlive Hsent Hleft Hab Hran Hfr].
  constructor; cbn [chans counter submitted waiting abandoned left_alone ran]; try done.
  - destruct (Nat.eqb_spec n 1) as [Hone|Hne]; [by left|right]. destruct Hcnt as [?|Hcnt]; [done|].
    rewrite Hcnt. unfold wadd64. rewrite Zplus_mod_idemp_l. f_equal. lia.
  - by rewrite Hk.
  - rewrite dealt_succ, <-Hjobs, Hk. unfold everywhere. cbn.
    assert (chosen n (counter s) = chosen n (Z.of_nat k mod u64_modulus)) as -> by (destruct Hcnt as [->| ->]; done).
    solve_Permutation.
  - intros j [Hj|Hj%list_elem_of_singleton]%elem_of_app; [by apply Hlive|subst j; cbn].
    rewrite Hk. intros ?%Hfr. lia.
  - intros r Hr%Hfr. lia.
Qed.

Lemma send_ok k ds i s s' :
  jobs_ok k ds s → job_step n (EvSend i) s = Some s' → jobs_ok k ds s'.
Proof.
  intros [Hch Hcap Hcnt Hk Hjobs Hown Hlive Hsent Hleft Hab Hran Hfr]. cbn [job_step].
  destruct (waiting s !! i) as [[r w]|] eqn:Hi; [|done]. cbn.
  destruct (chans s !! w) as [q|] eqn:Hw; [|done]. cbn.
  destruct (Z.ltb_spec (Z.of_nat (length q)) (channel_cap (Z.of_nat n))); [|done].
  intros [= <-]. destruct (concat_insert _ _ _ (q ++ [(r, w)])%list Hw) as (a & b & Ha & Hb).
  pose proof (delete_middle _ _ _ Hi) as Hd.
  constructor; cbn [chans counter submitted waiting abandoned left_alone ran]; try done.
  - by rewrite length_insert.
  - apply Forall_insert; [done|]. rewrite length_app. cbn. lia.
  - rewrite <-Hjobs. unfold everywhere, ran_jobs. cbn. rewrite Hb, Ha.
    revert Hd. generalize (delete i (waiting s)). intros d ->. solve_Permutation.
  - intros w' q' j [(<- & <- & _)|[_ Hq']]%list_lookup_insert_Some Hj; [|by eapply Hown].
    apply elem_of_app in Hj as [Hj|Hj%list_elem_of_singleton]; [by eapply Hown|by subst j].
  - intros j Hj. apply Hlive. rewrite Hd. by right.
  - intros j. rewrite Hb. intros Hj Hds. destruct (decide (j = (r, w))) as [->|Hne].
    + destruct (Hlive (r, w)); [|done]. rewrite Hd. left.
    + apply Hsent; [|done]. rewrite Ha. set_solver.
Qed.

Lemma serve_ok k ds w s s' :
  jobs_ok k ds s → job_step n (EvServe w) s = Some s' → jobs_ok k ds s'.
Proof.
  intros [Hch Hcap Hcnt Hk Hjobs Hown Hlive Hsent Hleft Hab Hran Hfr]. cbn [job_step].
  destruct (chans s !! w) as [[|j q]|] eqn:Hw; [done| |done]. intros [= <-].
  destruct (concat_insert _ _ _ q Hw) as (a & b & Ha & Hb).
  assert (∀ x, x ∈ a ++ q ++ b → x ∈ concat (chans s)) as Hsub by (intros x Hx; rewrite Ha; set_solver).
  assert (j ∈ concat (chans s)) as Hj by (rewrite Ha; set_solver).
  constructor; cbn [chans counter submitted waiting abandoned left_alone ran]; try done.
  - by rewrite length_insert.
  - apply Forall_insert; [done|]. eapply Forall_lookup_1 in Hcap; [|exact Hw]. cbn in Hcap. lia.
  - rewrite <-Hjobs. unfold everywhere, ran_jobs. cbn. rewrite Hb, Ha, fmap_app. cbn. solve_Permutation.
  - intros w' q' j' [(<- & <- & _)|[_ Hq']]%list_lookup_insert_Some Hj'; [|by eapply Hown].
    eapply Hown; [exact Hw|by right].
  - rewrite Hb. intros j' Hj'%Hsub. by apply Hsent.
  - intros w' j' b' [Hin|Heq%list_elem_of_singleton]%elem_of_app; [by apply Hran|]. simplify_eq.
    split; [symmetry; eapply Hown; [exact Hw|left]|]. rewrite bool_decide_eq_true.
    split; intros Hnot Hin; apply Hnot; [by apply Hsent|by apply Hleft].
Qed.

Lemma drop_ok k ds r s s' :
  jobs_ok k ds s → job_step n (EvDrop r) s = Some s' → jobs_ok k (ds ++ [r]) s'.
Proof.
  intros Hs. pose proof (one_place _ _ _ Hs) as Hnd.
  destruct Hs as [Hch Hcap Hcnt Hk Hjobs Hown Hlive Hsent Hleft Hab Hran Hfr]. cbn [job_step].
  assert (∀ j, j ∈ everywhere s → (j.1 < k)%nat) as Hlt.
  { intros j Hj. rewrite Hjobs in Hj. by apply dealt_elem in Hj as [? _]. }
  apply NoDup_app in Hnd as (Hndw & Hwo & (_ & Hco & (_ & Hao & _)%NoDup_app)%NoDup_app).
  destruct (list_find _ _) as [[i j]|] eqn:Hf.
  - apply list_find_Some in Hf as (Hi & <- & _). intros [= <-]. pose proof (delete_middle _ _ _ Hi) as Hd.
    assert (j.1 ∈ (waiting s).*1) as Hjw.
    { apply list_elem_of_fmap. exists j. split; [done|]. rewrite Hd. left. }
    specialize (Hwo _ Hjw). rewrite !not_elem_of_app in Hwo. destruct Hwo as (Hjc & Hja & Hjr).
    constructor; cbn [chans counter submitted waiting abandoned left_alone ran]; try done.
    + rewrite <-Hjobs. unfold everywhere, ran_jobs. cbn.
      revert Hd. generalize (delete i (waiting s)). intros d ->. solve_Permutation.
    + intros j' Hj'. rewrite not_elem_of_app, list_elem_of_singleton. split.
      * apply Hlive. rewrite Hd. by right.
      * intros Heq. rewrite Hd in Hndw. apply NoDup_cons in Hndw as [Hni _]. apply Hni.
        rewrite <- Heq. apply list_elem_of_fmap. by exists j'.
    + intros j' Hj' [Hds|Heq%list_elem_of_singleton]%elem_of_app; [by apply Hsent|].
      destruct Hjc. rewrite <- Heq. apply list_elem_of_fmap. by exists j'.
    + intros r Hr%Hleft. apply elem_of_app. by left.
    + intros j' [Hj'%Hab| ->%list_elem_of_singleton]%elem_of_app; apply elem_of_app; [by left|right; left].
    + intros w j' b Hin. destruct (Hran _ _ _ Hin) as [? Hb]. split; [done|].
      rewrite Hb, not_elem_of_app, list_elem_of_singleton. split; [|tauto]. intros Hds. split; [done|]. intros Heq.
      destruct Hjr. rewrite <- Heq. apply list_elem_of_fmap. exists j'. split; [done|].
      apply list_elem_of_fmap. by exists (w, j', b).
    + intros r [Hr%Hfr| ->%list_elem_of_singleton]%elem_of_app; [done|]. apply Hlt. unfold everywhere.
      apply elem_of_app. left. rewrite Hd. left.
  - case_bool_decide as Hc; [|done]. destruct Hc as [Hin Hnl]. intros [= <-].
    specialize (Hco _ Hin). rewrite not_elem_of_app in Hco. destruct Hco as (Hra & Hrr).
    constructor; cbn [chans counter submitted waiting abandoned left_alone ran]; try done.
    + intros j Hj. rewrite not_elem_of_app, list_elem_of_singleton. split; [by apply Hlive|]. intros <-.
      assert (j.1 ∈ (waiting s).*1) as Hjw by (apply list_elem_of_fmap; by exists j).
      specialize (Hwo _ Hjw). rewrite !not_elem_of_app in Hwo. tauto.
    + intros j Hj [Hds|Heq]%elem_of_app; apply elem_of_app; [left; by apply Hsent|by right].
    + intros r' [Hr'%Hleft|Hr']%elem_of_app; apply elem_of_app; [by left|by right].
    + intros j Hj%Hab. apply elem_of_app. by left.
    + intros w j b Hj. destruct (Hran _ _ _ Hj) as [? Hb]. split; [done|].
      rewrite Hb, not_elem_of_app, list_elem_of_singleton. split; [|tauto]. intros Hds. split; [done|]. intros Heq.
      destruct Hrr. rewrite <- Heq. apply list_elem_of_fmap. exists j. split; [done|].
      apply list_elem_of_fmap. by exists (w, j, b).
    + intros r' [Hr'%Hfr| ->%list_elem_of_singleton]%elem_of_app; [done|].
      apply list_elem_of_fmap in Hin as (j & -> & Hj). apply Hlt. unfold everywhere. set_solver.
Qed.

Lemma job_step_ok k ds e s s' :
  jobs_ok k ds s → job_step n e s = Some s' → jobs_ok (k + submits [e]) (ds ++ drops [e]) s'.
Proof.
  intros Hs He. destruct e; cbn; rewrite ?Nat.add_1_r, ?Nat.add_0_r, ?app_nil_r;
    [by eapply submit_ok|by eapply send_ok|by eapply serve_ok|by eapply drop_ok].
Qed.

Lemma job_run_ok k ds es s s' :
  jobs_ok k ds s → job_run n es s = Some s' → jobs_ok (k + submits es) (ds ++ drops es) s'.
Proof.
  revert k ds s. induction es as [|e es IH]; intros k ds s Hs; cbn [job_run].
  - intros [= <-]. by rewrite Nat.add_0_r, app_nil_r.
  - intros (s1 & He & Hr)%bind_Some. apply (job_step_ok _ _ _ _ _ Hs) in He.
    assert (submits (e :: es) = (submits [e] + submits es)%nat) as ->.
    { unfold submits. rewrite !filter_cons, filter_nil. by case_decide. }
    assert (drops (e :: es) = drops [e] ++ drops es) as -> by (unfold drops; by destruct e).
    rewrite app_assoc, Nat.add_assoc. by apply (IH _ _ s1).
Qed.

(** What is left to do: a waiting job may be sent, its request dropped, and
    it may be taken. *)
Definition to_do s (j : job) : nat := if bool_decide (j.1 ∈ left_alone s) then 1 else 2.
Definition pending s : nat := 3 * length (waiting s) + sum_list_with (to_do s) (concat (chans s)).

Lemma to_do_le s j : (1 ≤ to_do s j ≤ 2)%nat.
Proof. unfold to_do. case_bool_decide; lia. Qed.

Lemma sum_le (f g : job → nat) l : (∀ x, (f x ≤ g x)%nat) → (sum_list_with f l ≤ sum_list_with g l)%nat.
Proof. intros Hfg. induction l as [|x l IH]; cbn; [done|]. specialize (Hfg x). lia. Qed.

Lemma sum_lt (f g : job → nat) l x :
  (∀ x, (f x ≤ g x)%nat) → x ∈ l → (f x < g x)%nat → (sum_list_with f l < sum_list_with g l)%nat.
Proof.
  intros Hfg Hx Hlt. induction l as [|y l IH]; [by apply elem_of_nil in Hx|]. cbn.
  pose proof (sum_le f g l Hfg). pose proof (Hfg y). apply elem_of_cons in Hx as [->|Hx]; [lia|].
  specialize (IH Hx). lia.
Qed.

Lemma job_step_pending e s s' : is_submit e = false → job_step n e s = Some s' → (pending s' < pending s)%nat.
Proof.
  intros He Hs. unfold pending. destruct e as [|i|w|r]; [done| | |]; cbn [job_step] in Hs.
  - destruct (waiting s !! i) as [[r w]|] eqn:Hi; [|done]. cbn in Hs. destruct (chans s !! w) as [q|] eqn:Hw; [|done].
    cbn in Hs. destruct (_ <? _); [|done]. injection Hs as <-. cbn [waiting chans].
    destruct (concat_insert _ _ _ (q ++ [(r, w)])%list Hw) as (a & b & -> & ->).
    pose proof (Permutation_length (delete_middle _ _ _ Hi)) as Hl. cbn [length] in Hl.
    rewrite !sum_list_with_app. cbn [sum_list_with]. change (to_do (mk_jobs _ _ _ _ _ _ _)) with (to_do s).
    pose proof (to_do_le s (r, w)). lia.
  - destruct (chans s !! w) as [[|j q]|] eqn:Hw; [done| |done]. injection Hs as <-. cbn [waiting chans].
    destruct (concat_insert _ _ _ q Hw) as (a & b & -> & ->). rewrite !sum_list_with_app. cbn [sum_list_with].
    change (to_do (mk_jobs _ _ _ _ _ _ _)) with (to_do s). pose proof (to_do_le s j). lia.
  - destruct (list_find _ _) as [[i j]|] eqn:Hf.
    + apply list_find_Some in Hf as (Hi & _ & _). injection Hs as <-. cbn [waiting chans].
      pose proof (Permutation_length (delete_middle _ _ _ Hi)) as Hl. cbn [length] in Hl.
      change (to_do (mk_jobs _ _ _ _ _ _ _)) with (to_do s). lia.
    + case_bool_decide as Hc; [|done]. destruct Hc as [(j & -> & Hj)%list_elem_of_fmap Hnl].
      injection Hs as <-. cbn [waiting chans].
      apply Nat.add_lt_mono_l. apply (sum_lt _ _ _ j); [|done|]; unfold to_do; cbn [left_alone].
      * intros x. repeat case_bool_decide; try lia. set_solver.
      * rewrite bool_decide_eq_true_2 by set_solver. rewrite bool_decide_eq_false_2 by done. lia.
Qed.

Lemma pending_le s : (pending s ≤ 3 * length (everywhere s))%nat.
Proof.
  unfold pending, everywhere. rewrite !length_app.
  assert (sum_list_with (to_do s) (concat (chans s)) ≤ 2 * length (concat (chans s)))%nat; [|lia].
  induction (concat (chans s)) as [|j l IH]; cbn; [lia|]. pose proof (to_do_le s j). lia.
Qed.

(** When senders and threads can do nothing more, nothing is left. *)
Lemma job_progress k ds s :
  jobs_ok k ds s → (∀ e, is_submit e = false → is_drop e = false → job_step n e s = None) →
  waiting s = [] ∧ concat (chans s) = [].
Proof.
  intros Hs Hend.
  assert (∀ w q, chans s !! w = Some q → q = []) as Hempty.
  { intros w q Hw. specialize (Hend (EvServe w) eq_refl eq_refl). cbn in Hend. rewrite Hw in Hend. by destruct q. }
  split.
  - destruct (waiting s) as [|[r w] ws] eqn:Hws; [done|]. exfalso.
    assert ((r, w) ∈ everywhere s) as Hin by (unfold everywhere; rewrite Hws; left).
    rewrite (jo_jobs _ _ _ Hs) in Hin. apply dealt_elem in Hin as [_ Hw]. cbn in Hw.
    rewrite <-(jo_chans _ _ _ Hs) in Hw. apply lookup_lt_is_Some in Hw as [q Hq].
    specialize (Hend (EvSend 0) eq_refl eq_refl). cbn in Hend. rewrite Hws in Hend. cbn in Hend. rewrite Hq in Hend. cbn in Hend.
    rewrite (Hempty w q Hq) in Hend. cbn in Hend. unfold channel_cap, channel_cap_per_worker in Hend.
    destruct (Z.ltb_spec (Z.of_nat 0) (Z.max 1 (Z.of_nat n) * 16)); [done|lia].
  - assert (∀ q, q ∈ chans s → q = []) as Hall by (intros q [w Hw]%list_elem_of_lookup; by eapply Hempty).
    clear -Hall. induction (chans s) as [|q qs IH]; [done|]. cbn. rewrite (Hall q), IH; [done| |by left].
    intros q' Hq'. apply Hall. by right.
Qed.

Lemma job_run_pending k ds es s s' :
  jobs_ok k ds s → forallb (λ e, negb (is_submit e)) es = true → job_run n es s = Some s' →
  (length es + pending s' ≤ pending s)%nat ∧ submits es = 0%nat.
Proof.
  revert k ds s. induction es as [|e es IH]; intros k ds s Hs Hno; cbn [job_run]; [by intros [= <-]|].
  intros (s1 & He & Hr)%bind_Some. cbn [forallb] in Hno. apply andb_prop in Hno as [Hne%negb_true_iff Hno].
  pose proof (job_step_pending _ _ _ Hne He). apply (job_step_ok _ _ _ _ _ Hs) in He.
  destruct (IH _ _ s1 He Hno Hr) as [Hl Hsub]. split; [cbn [length]; lia|].
  unfold submits in *. rewrite filter_cons. rewrite decide_False by (by rewrite Hne). done.
Qed.

End theorems.

Module Examples.
#[local] Open Scope string_scope.

Example pool_sizes :
  let e b w p := mk_environment b None w p in
  default_pool_size (e false None (Some 8)) GilBased = 1 ∧ default_pool_size (e true None (Some 8)) GilFree = 8
  ∧ default_pool_size (e true (Some "3") (Some 8)) GilFree = 3 ∧ default_pool_size (e false (Some "0") None) GilBased = 1.
Proof. by vm_compute. Qed.

(** [init] asks the interpreter, a pool that is built without it does not. *)
Example lazy_pool_differs :
  let env := mk_environment false (Some false) None (Some 8) in
  mode (init env None 7 statics_new) = Some GilFree ∧ mode (with_pool env 7 statics_new) = Some GilBased.
Proof. by vm_compute. Qed.

(** The capacity of a channel grows with the number of threads. *)
Example capacity_squared : channel_cap 1 = 16 ∧ 8 * channel_cap 8 = 1024.
Proof. by vm_compute. Qed.

(** A pool of no threads. *)
Example no_threads :
  run_python (mk_environment false None None None) 7 (init (mk_environment false None None None) (Some 0) 7 statics_new) = Panic.
Proof. by vm_compute. Qed.

Lemma jobs_reach_own_threads_witness :
  let env := mk_environment true None (Some "4") None in
  ∃ pid' s, calls_run env [CInit None; CRun; CFork 8; CRun] (7, statics_new) = Ret (pid', s) ∧
    ∃ i p s', run_python env pid' s = Ret (i, p, s') ∧ 0 ≤ i < senders p ∧ owner p = pid'.
Proof. intros env. apply (jobs_reach_own_threads env [CInit None; CRun; CFork 8; CRun] 7). by repeat constructor. Defined.

(** Three requests on two threads; the second is dropped before its job is
    sent, the third while it waits for its answer. *)
Definition three_requests : list Event := [EvSubmit; EvSubmit; EvSubmit; EvDrop 1; EvSend 1; EvDrop 2].


End Examples.
