(* ===== verification/Mail.v ===== *)
(** * Mail: messages, tokens and codes

    [crates/justapi-core/src/mail/]: the messages and how they are laid out
    for [lettre], the queue, and the store of verification tokens and one-time
    codes; [crates/justapi-py/src/message_builder.rs] and [mail.rs] build
    messages of what Python passes.  [lettre] itself (addresses, the rendering
    of parts, the connection), the generator of random tokens and [minijinja]
    are parameters or left out. *)

From stdpp Require Import gmap strings.
From Stdlib Require Import Ascii.
From S2P Require Import Prelude F32 Text F64 Http NativeApp NativeHandler.

#[local] Open Scope string_scope.

(** ** Messages *)

Record EmailAddress := mk_address { ea_address : string; ea_name : option string }.
Definition address_new (a : string) : EmailAddress := mk_address a None.
Definition address_named (a n : string) : EmailAddress := mk_address a (Some n).

Record Attachment := mk_attachment { at_filename : string; at_content_type : string; at_data : string; at_inline : bool }.

(** A name without a dot is its own extension. *)
Definition mime_guess (filename : string) : option string :=
  let ext := lowercase (default "" (last (split "." filename))) in
  assoc_get ext
    [("txt", "text/plain"); ("html", "text/html"); ("json", "application/json"); ("pdf", "application/pdf");
     ("png", "image/png"); ("jpg", "image/jpeg"); ("jpeg", "image/jpeg"); ("gif", "image/gif"); ("svg", "image/svg+xml");
     ("csv", "text/csv"); ("zip", "application/zip"); ("xml", "application/xml")].

Definition attachment_new (filename data : string) : Attachment :=
  mk_attachment filename (default "application/octet-stream" (mime_guess filename)) data false.
Definition with_content_type (filename content_type data : string) : Attachment :=
  mk_attachment filename content_type data false.
Definition inline (a : Attachment) : Attachment := mk_attachment (at_filename a) (at_content_type a) (at_data a) true.

Record SmtpConfig := mk_smtp {
  sc_host : string; sc_port : Z; sc_username : option string; sc_password : option string; sc_use_tls : bool;
  sc_default_from : EmailAddress; sc_default_from_name : option string }.

Definition smtp_new (host : string) (port : Z) (default_from : string) : SmtpConfig :=
  mk_smtp host port None None true (address_new default_from) None.
Definition credentials (user pass : string) (c : SmtpConfig) : SmtpConfig :=
  mk_smtp (sc_host c) (sc_port c) (Some user) (Some pass) (sc_use_tls c) (sc_default_from c) (sc_default_from_name c).
Definition no_tls (c : SmtpConfig) : SmtpConfig :=
  mk_smtp (sc_host c) (sc_port c) (sc_username c) (sc_password c) false (sc_default_from c) (sc_default_from_name c).

Record EmailMessage := mk_message {
  em_to : list EmailAddress; em_cc : list EmailAddress; em_bcc : list EmailAddress; em_reply_to : option EmailAddress;
  em_subject : string; em_text : option string; em_html : option string; em_attachments : list Attachment;
  em_headers : list (string * string) }.

Definition message_new (to : list EmailAddress) (subject : string) : EmailMessage :=
  mk_message to [] [] None subject None None [] [].
Definition with_text (t : string) (m : EmailMessage) : EmailMessage :=
  mk_message (em_to m) (em_cc m) (em_bcc m) (em_reply_to m) (em_subject m) (Some t) (em_html m) (em_attachments m) (em_headers m).
Definition with_html (h : string) (m : EmailMessage) : EmailMessage :=
  mk_message (em_to m) (em_cc m) (em_bcc m) (em_reply_to m) (em_subject m) (em_text m) (Some h) (em_attachments m) (em_headers m).
Definition attach (a : Attachment) (m : EmailMessage) : EmailMessage :=
  mk_message (em_to m) (em_cc m) (em_bcc m) (em_reply_to m) (em_subject m) (em_text m) (em_html m) (em_attachments m ++ [a])%list (em_headers m).
Definition with_cc (l : list EmailAddress) (m : EmailMessage) : EmailMessage :=
  mk_message (em_to m) l (em_bcc m) (em_reply_to m) (em_subject m) (em_text m) (em_html m) (em_attachments m) (em_headers m).
Definition with_bcc (l : list EmailAddress) (m : EmailMessage) : EmailMessage :=
  mk_message (em_to m) (em_cc m) l (em_reply_to m) (em_subject m) (em_text m) (em_html m) (em_attachments m) (em_headers m).
Definition with_reply_to (a : EmailAddress) (m : EmailMessage) : EmailMessage :=
  mk_message (em_to m) (em_cc m) (em_bcc m) (Some a) (em_subject m) (em_text m) (em_html m) (em_attachments m) (em_headers m).
Definition with_header (n v : string) (m : EmailMessage) : EmailMessage :=
  mk_message (em_to m) (em_cc m) (em_bcc m) (em_reply_to m) (em_subject m) (em_text m) (em_html m) (em_attachments m) (em_headers m ++ [(n, v)])%list.

(** ** Sending *)

(** What [lettre] is given: a body of text, one part or several. *)
Inductive Part := Single (content_type : string) (data : string) | Multi (kind : string) (parts : list Part).
Inductive Body := BodyText (s : string) | BodyParts (p : Part).

Record Mailbox := mk_mailbox { mb_name : option string; mb_address : string }.
Record LettreMessage := mk_lettre {
  lm_from : Mailbox; lm_to : list Mailbox; lm_cc : list Mailbox; lm_bcc : list Mailbox; lm_reply_to : option Mailbox;
  lm_subject : string; lm_body : Body }.

(** The server that is connected to; [None] is the port of TLS. *)
Record Transport := mk_transport { tr_host : string; tr_port : option Z; tr_credentials : option (string * string) }.

Section smtp.
(** [Address::from_str] and [ContentType::parse], whether they succeed. *)
Context (address_ok content_type_ok : string → bool).

Definition get_transport (c : SmtpConfig) : Transport :=
  mk_transport (sc_host c) (if sc_use_tls c then None else Some (sc_port c))
    (match sc_username c, sc_password c with Some u, Some p => Some (u, p) | _, _ => None end).

(** [parse().unwrap()] *)
Definition mailbox (a : EmailAddress) : exec Mailbox :=
  if address_ok (ea_address a) then Ret (mk_mailbox (ea_name a) (ea_address a)) else Panic.

Fixpoint mailboxes (l : list EmailAddress) : exec (list Mailbox) :=
  match l with
  | [] => Ret []
  | a :: l => m ← mailbox a; ms ← mailboxes l; Ret (m :: ms)
  end.

Definition text_parts (m : EmailMessage) : list Part :=
  match em_text m, em_html m with
  | Some t, Some h => [Multi "alternative" [Single "text/plain" t; Single "text/html" h]]
  | Some t, None => [Single "text/plain" t]
  | None, Some h => [Single "text/html" h]
  | None, None => []
  end.

Definition attachment_part (a : Attachment) : Part :=
  Single (if content_type_ok (at_content_type a) then at_content_type a else "application/octet-stream") (at_data a).

Definition message_body (m : EmailMessage) : Body :=
  let has_both := match em_text m, em_html m with Some _, Some _ => true | _, _ => false end in
  if match em_attachments m with [] => false | _ => true end || has_both then
    BodyParts (Multi "mixed" (text_parts m ++ (attachment_part <$> em_attachments m))%list)
  else match em_html m with Some h => BodyText h | None => BodyText (default "" (em_text m)) end.

(** [build_lettre_message], before [lettre] checks and renders the message. *)
Definition build_lettre_message (c : SmtpConfig) (m : EmailMessage) : exec LettreMessage :=
  from ← mailbox (sc_default_from c);
  to ← mailboxes (em_to m);
  cc ← mailboxes (em_cc m);
  bcc ← mailboxes (em_bcc m);
  reply ← match em_reply_to m with Some r => b ← mailbox r; Ret (Some b) | None => Ret None end;
  Ret (mk_lettre from to cc bcc reply (em_subject m) (message_body m)).

(** [render] is what [lettre] makes of the message, [deliver] the connection
    and the answer of the server. *)
Definition send (render : LettreMessage → string + string) (deliver : Transport → string → string + unit)
    (c : SmtpConfig) (m : EmailMessage) : exec (string + unit) :=
  lm ← build_lettre_message c m;
  Ret (match render lm with inl e => inl ("Failed to build email: " +:+ e) | inr text => deliver (get_transport c) text end).
End smtp.

(** ** The queue *)

(** The worker sends what is queued in order; an error is logged, a panic ends
    the process. The channel is closed when the runtime has dropped the worker. *)
Record EmailQueue := mk_queue { mq_pending : list EmailMessage; mq_open : bool }.

Definition enqueue (m : EmailMessage) (q : EmailQueue) : (string + unit) * EmailQueue :=
  if mq_open q then (inr (), mk_queue (mq_pending q ++ [m])%list true) else (inl "email queue is closed", q).

(** [enqueue_lossy] *)
Definition enqueue_lossy (m : EmailMessage) (q : EmailQueue) : EmailQueue := (enqueue m q).2.

Definition queue_step (snd_ : EmailMessage → exec (string + unit)) (q : EmailQueue) : option (exec (option string * EmailQueue)) :=
  match mq_open q, mq_pending q with
  | true, m :: ms =>
      Some (match snd_ m with
            | Panic => Panic
            | Ret (inl e) => Ret (Some ("Failed to send queued email: " +:+ e), mk_queue ms true)
            | Ret (inr _) => Ret (None, mk_queue ms true)
            end)
  | _, _ => None
  end.

(** ** What Python passes *)

Definition attachment_of (d : list (string * pyval)) : string + Attachment :=
  match assoc_get "filename" d with
  | None => inl "attachment missing 'filename'"
  | Some f =>
      match extract_string f with
      | None => inl "attachment 'filename' must be a string"
      | Some filename =>
          let content_type := v ← assoc_get "content_type" d; extract_string v in
          match assoc_get "data" d with
          | None => inl "attachment missing 'data'"
          | Some v =>
              match extract_bytes v with
              | None => inl "attachment 'data' must be bytes"
              | Some data =>
                  inr (match content_type with
                       | Some ct => with_content_type filename ct data
                       | None => attachment_new filename data
                       end)
              end
          end
      end
  end.

Fixpoint attach_all (l : list (list (string * pyval))) (m : EmailMessage) : string + EmailMessage :=
  match l with
  | [] => inr m
  | d :: l => match attachment_of d with inl e => inl e | inr a => attach_all l (attach a m) end
  end.

Definition opt {X Y} (o : option X) (f : X → Y → Y) (y : Y) : Y := match o with Some x => f x y | None => y end.

Definition build_message (to subject : string) (body html : option string) (cc bcc : option (list string))
    (reply_to : option string) (attachments : option (list (list (string * pyval)))) : string + EmailMessage :=
  let m := message_new [address_new to] subject in
  let m := opt body with_text m in
  let m := opt html with_html m in
  let m := opt cc (λ l, with_cc (address_new <$> l)) m in
  let m := opt bcc (λ l, with_bcc (address_new <$> l)) m in
  let m := opt reply_to (λ r, with_reply_to (address_new r)) m in
  match attachments with Some l => attach_all l m | None => inr m end.

(** [Mailer(...)] *)
Definition mailer_new (host : string) (port : Z) (username password : option string) (use_tls : bool)
    (default_from default_from_name : option string) : SmtpConfig :=
  let from := default ("noreply@" +:+ host +:+ ".invalid") default_from in
  let c := smtp_new host port from in
  let c := match username, password with Some u, Some p => credentials u p c | _, _ => c end in
  let c := if use_tls then c else no_tls c in
  mk_smtp (sc_host c) (sc_port c) (sc_username c) (sc_password c) (sc_use_tls c) (sc_default_from c) default_from_name.

Definition mailer_send (address_ok content_type_ok : string → bool) (render : LettreMessage → string + string)
    (deliver : Transport → string → string + unit) (c : SmtpConfig) (built : string + EmailMessage) : exec (string + unit) :=
  match built with
  | inl e => Ret (inl e)
  | inr m => r ← send address_ok content_type_ok render deliver c m;
             Ret (match r with inl e => inl ("Failed to send email: " +:+ e) | inr u => inr u end)
  end.

(** ** Tokens *)

Record VerificationEntry := mk_verification { ve_email : string; ve_purpose : string; ve_created_at : Z; ve_used : bool }.
Abbreviation Tokens := (gmap string VerificationEntry).

(** The lifetime that is passed is not kept. *)
Definition create_token (token email purpose : string) (_ttl now : Z) (s : Tokens) : Tokens :=
  <[token := mk_verification email purpose now false]> s.

(** [{:06}] of a number under a million. *)
Definition otp_code (n : Z) : string :=
  let d := decimal n in String.substring 0 (6 - String.length d) "000000" +:+ d.
Definition create_otp (n : Z) (email purpose : string) (ttl now : Z) (s : Tokens) : string * Tokens :=
  (otp_code n, create_token (otp_code n) email purpose ttl now s).

(** [now - created_at] on [u64]: a clock that was set back wraps. *)
Definition age (now : Z) (e : VerificationEntry) : Z := wadd64 now (- ve_created_at e).

Definition verify (token purpose : string) (max_age now : Z) (s : Tokens) : option string * Tokens :=
  match s !! token with
  | None => (None, s)
  | Some e =>
      if ve_used e then (None, s)
      else if negb (String.eqb (ve_purpose e) purpose) then (None, s)
      else if (max_age <? age now e)%Z then (None, base.delete token s)
      else (Some (ve_email e), <[token := mk_verification (ve_email e) (ve_purpose e) (ve_created_at e) true]> s)
  end.

Definition cleanup (max_age now : Z) (s : Tokens) : Tokens :=
  filter (λ kv : string * VerificationEntry, (age now kv.2 <=? max_age)%Z = true) s.

(** A history of calls, each with the clock; a call of [verify] answers. *)
Inductive Op :=
| OpCreate (token email purpose : string) (ttl : Z)
| OpVerify (token purpose : string) (max_age : Z)
| OpCleanup (max_age : Z).

Definition op_step (o : Op) (now : Z) (s : Tokens) : option string * Tokens :=
  match o with
  | OpCreate t e p ttl => (None, create_token t e p ttl now s)
  | OpVerify t p a => verify t p a now s
  | OpCleanup a => (None, cleanup a now s)
  end.

(** The answers, with their calls, in order. *)
Fixpoint ops_run (ops : list (Op * Z)) (s : Tokens) : list (Op * Z * option string) * Tokens :=
  match ops with
  | [] => ([], s)
  | (o, now) :: ops =>
      let '(r, s) := op_step o now s in let '(rs, s) := ops_run ops s in ((o, now, r) :: rs, s)
  end.

(** ** One use *)

(** How often a token was created, and accepted. *)
Definition creates (t : string) (rs : list (Op * Z * option string)) : nat :=
  length (List.filter (λ r, match r.1.1 with OpCreate t' _ _ _ => String.eqb t' t | _ => false end) rs).
Definition accepts (t : string) (rs : list (Op * Z * option string)) : nat :=
  length (List.filter (λ r, match r with (OpVerify t' _ _, _, Some _) => String.eqb t' t | _ => false end) rs).

(** The token waits to be used. *)
Definition live (t : string) (s : Tokens) : nat :=
  match s !! t with Some e => if ve_used e then 0 else 1 | None => 0 end.

Lemma lookup_cleanup t a now s :
  cleanup a now s !! t = match s !! t with Some e => if (age now e <=? a)%Z then Some e else None | None => None end.
Proof.
  unfold cleanup. destruct (s !! t) as [e|] eqn:Ht.
  - destruct (age now e <=? a)%Z eqn:Ha.
    + by apply map_lookup_filter_Some.
    + apply map_lookup_filter_None. right. intros e' He. rewrite Ht in He. injection He as <-. cbn. by rewrite Ha.
  - apply map_lookup_filter_None. by left.
Qed.

(** The call [o] at [now] by itself. *)
Lemma op_live t o now s :
  let r := op_step o now s in
  (accepts t [(o, now, r.1)] + live t r.2 ≤ creates t [(o, now, r.1)] + live t s)%nat.
Proof.
  cbn zeta. destruct o as [t' e p ttl|t' p a|a]; cbn [op_step fst snd]; unfold accepts, creates; cbn.
  - unfold create_token, live. destruct (String.eqb_spec t' t) as [->|Hne]; cbn.
    + rewrite lookup_insert_eq. cbn. lia.
    + by rewrite lookup_insert_ne.
  - unfold verify, live. destruct (s !! t') as [e|] eqn:Ht'; [|done].
    destruct (ve_used e) eqn:Hu; [done|]. destruct (negb _); [done|]. destruct (_ <? _)%Z; cbn.
    + destruct (decide (t = t')) as [->|]; [rewrite lookup_delete_eq|rewrite lookup_delete_ne by done]; [lia|done].
    + destruct (String.eqb_spec t' t) as [->|Hne]; cbn; [rewrite lookup_insert_eq, Ht', Hu; cbn; lia|].
      by rewrite lookup_insert_ne.
  - unfold live. rewrite lookup_cleanup. destruct (s !! t) as [e|]; [|done]. destruct (_ <=? _)%Z; [done|]. destruct (ve_used e); lia.
Qed.

Lemma accepts_cons t r rs : accepts t (r :: rs) = (accepts t [r] + accepts t rs)%nat.
Proof. unfold accepts. cbn. destruct r as [[[] ?] []]; cbn; try done. by case_match. Qed.
Lemma creates_cons t r rs : creates t (r :: rs) = (creates t [r] + creates t rs)%nat.
Proof. unfold creates. cbn. destruct r as [[[] ?] ?]; cbn; try done. by case_match. Qed.

Lemma run_live t ops s : (accepts t (ops_run ops s).1 + live t (ops_run ops s).2 ≤ creates t (ops_run ops s).1 + live t s)%nat.
Proof.
  revert s. induction ops as [|[o now] ops IH]; intros s; cbn [ops_run]; [done|].
  pose proof (op_live t o now s) as Ho. cbn zeta in Ho. destruct (op_step o now s) as [r s1]. specialize (IH s1).
  destruct (ops_run ops s1) as [rs s2]. cbn [fst snd] in *. rewrite accepts_cons, creates_cons. lia.
Qed.

(** Where an entry comes from: the last creation of its token. *)
Definition created_by (t : string) (e : VerificationEntry) (before : list (Op * Z)) : Prop :=
  ∃ l1 l2 ttl, before = (l1 ++ (OpCreate t (ve_email e) (ve_purpose e) ttl, ve_created_at e) :: l2)%list ∧
    Forall (λ o : Op * Z, match o.1 with OpCreate t' _ _ _ => t' ≠ t | _ => True end) l2.

Lemma created_later t e before o :
  created_by t e before → (match o.1 with OpCreate t' _ _ _ => t' ≠ t | _ => True end) → created_by t e (before ++ [o])%list.
Proof.
  intros (l1 & l2 & ttl & -> & Hl) Ho. exists l1, (l2 ++ [o])%list, ttl. split; [by rewrite <-app_assoc|].
  apply Forall_app. split; [done|]. by constructor.
Qed.

Definition store_ok (before : list (Op * Z)) (s : Tokens) : Prop := ∀ t e, s !! t = Some e → created_by t e before.

Lemma op_store o now before s : store_ok before s → store_ok (before ++ [(o, now)])%list (op_step o now s).2.
Proof.
  intros Hs t e. assert (∀ e', s !! t = Some e' → (match o with OpCreate t' _ _ _ => t' ≠ t | _ => True end) →
    ve_email e' = ve_email e → ve_purpose e' = ve_purpose e → ve_created_at e' = ve_created_at e →
    created_by t e (before ++ [(o, now)])%list) as Hold.
  { intros e' He Ho E1 E2 E3. apply created_later; [|done]. destruct (Hs _ _ He) as (l1 & l2 & ttl & -> & Hl).
    exists l1, l2, ttl. by rewrite <-E1, <-E2, <-E3. }
  destruct o as [t' em p ttl|t' p a|a]; cbn [op_step snd].
  - unfold create_token. rewrite lookup_insert_Some. intros [[<- <-]|[Hne He]]; [|by eapply Hold].
    exists before, [], ttl. done.
  - unfold verify. destruct (s !! t') as [e'|] eqn:Ht'; [|intros He; by eapply Hold].
    destruct (ve_used e'); [intros He; by eapply Hold|]. destruct (negb _); [intros He; by eapply Hold|].
    destruct (_ <? _)%Z; cbn [snd].
    + rewrite lookup_delete_Some. intros [_ He]. by eapply Hold.
    + rewrite lookup_insert_Some. intros [[<- <-]|[_ He]]; by eapply Hold.
  - rewrite lookup_cleanup. destruct (s !! t) as [e'|] eqn:Ht; [|done]. destruct (_ <=? _)%Z; [|done]. intros [= <-]. by eapply Hold.
Qed.

(** C25: A token is good for one use, for what it was made for, and for as long
    as the verifier allows.  Over any calls and any clock, starting from an
    empty store, a token is accepted at most as often as it was created; and a
    call that accepts it answers the address of the last creation of the
    token, has its purpose, and comes no later than the age it asks for. *)
Theorem token_used_once ops t :
  (accepts t (ops_run ops ∅).1 ≤ creates t (ops_run ops ∅).1)%nat ∧
  (∀ before p a now email s,
     (before ++ [(OpVerify t p a, now)])%list `prefix_of` ops → s = (ops_run before ∅).2 →
     (op_step (OpVerify t p a) now s).1 = Some email →
     ∃ e, created_by t e before ∧ ve_email e = email ∧ ve_purpose e = p ∧ (age now e ≤ a)%Z).
Proof.
  split.
  - pose proof (run_live t ops ∅) as Hl. unfold live at 2 in Hl. rewrite lookup_empty in Hl. lia.
  - intros before p a now email s _ -> Hv.
    assert (∀ ops b s0, store_ok b s0 → store_ok (b ++ ops)%list (ops_run ops s0).2) as Hrun.
    { clear. induction ops as [|[o now] ops IH]; intros b s0 Hs; cbn [ops_run]; [by rewrite app_nil_r|].
      pose proof (op_store o now b s0 Hs) as Ho. destruct (op_step o now s0) as [r s1]. cbn [snd] in Ho. specialize (IH _ _ Ho).
      revert IH. destruct (ops_run ops s1) as [rs s2]. cbn [snd]. intros IH. rewrite <-app_assoc in IH. exact IH. }
    assert (store_ok [] ∅) as H0 by (intros t' e'; by rewrite lookup_empty).
    specialize (Hrun before [] ∅ H0). cbn [app] in Hrun. cbn [op_step] in Hv. unfold verify in Hv.
    destruct ((ops_run before ∅).2 !! t) as [e|] eqn:Ht; [|done]. exists e. split; [by apply Hrun|].
    destruct (ve_used e); [done|]. destruct (String.eqb_spec (ve_purpose e) p); [|done]. cbn in Hv.
    destruct (Z.ltb_spec a (age now e)); [done|]. by injection Hv as ->.
Qed.

(** ** What is sent *)

(** The texts and data of a body, in order. *)
Fixpoint leaves (p : Part) : list string :=
  match p with Single _ d => [d] | Multi _ ps => concat (leaves <$> ps) end.
Definition body_leaves (b : Body) : list string := match b with BodyText s => [s] | BodyParts p => leaves p end.

Lemma attachment_leaves ok l : concat (leaves <$> (attachment_part ok <$> l)) = at_data <$> l.
Proof. induction l as [|a l IH]; [done|]. cbn. by rewrite <-IH. Qed.

(** A message is sent as it was built, or not at all.  When every address
    parses, what is handed to the mailer has the sender of the configuration,
    the recipients, the subject, and both texts followed by the data of every
    attachment, each once and in order; one address that does not parse
    panics. *)
Theorem message_contents address_ok content_type_ok c m :
  (Forall (λ a, address_ok (ea_address a) = true)
     (sc_default_from c :: em_to m ++ em_cc m ++ em_bcc m ++ option_list (em_reply_to m))%list →
   ∃ lm, build_lettre_message address_ok content_type_ok c m = Ret lm ∧
     mb_address (lm_from lm) = ea_address (sc_default_from c) ∧
     (mb_address <$> lm_to lm) = (ea_address <$> em_to m) ∧ (mb_address <$> lm_cc lm) = (ea_address <$> em_cc m) ∧
     (mb_address <$> lm_bcc lm) = (ea_address <$> em_bcc m) ∧ lm_subject lm = em_subject m ∧
     (em_text m ≠ None ∨ em_html m ≠ None →
        body_leaves (lm_body lm) = (option_list (em_text m) ++ option_list (em_html m) ++ (at_data <$> em_attachments m))%list)) ∧
  (Exists (λ a, address_ok (ea_address a) = false)
     (sc_default_from c :: em_to m ++ em_cc m ++ em_bcc m ++ option_list (em_reply_to m))%list →
   build_lettre_message address_ok content_type_ok c m = Panic).
Proof.
  assert (∀ l, Forall (λ a, address_ok (ea_address a) = true) l →
            ∃ ms, mailboxes address_ok l = Ret ms ∧ mb_address <$> ms = ea_address <$> l) as Hall.
  { intros l. induction 1 as [|a l Ha _ (ms & Hms & Heq)]; [by exists []|]. cbn [mailboxes]. unfold mailbox. rewrite Ha. cbn.
    rewrite Hms. cbn. eexists. split; [done|]. cbn. by f_equal. }
  assert (∀ l, mailboxes address_ok l = Panic ∨ Forall (λ a, address_ok (ea_address a) = true) l) as Hcase.
  { intros l. induction l as [|a l IH]; [by right|]. cbn [mailboxes]. unfold mailbox. destruct (address_ok (ea_address a)) eqn:Ha; [|by left].
    cbn. destruct IH as [->|IH]; [by left|right]. by constructor. }
  split.
  - rewrite Forall_cons, !Forall_app. intros (Hf & Hto & Hcc & Hbcc & Hr).
    destruct (Hall _ Hto) as (to & Eto & Hto'), (Hall _ Hcc) as (cc & Ecc & Hcc'), (Hall _ Hbcc) as (bcc & Ebcc & Hbcc').
    unfold build_lettre_message, mailbox. rewrite Hf. cbn. rewrite Eto. cbn. rewrite Ecc. cbn. rewrite Ebcc. cbn.
    assert (∃ reply, (match em_reply_to m with
                      | Some r => b ← (if address_ok (ea_address r) then Ret (mk_mailbox (ea_name r) (ea_address r)) else Panic); Ret (Some b)
                      | None => Ret None end) = Ret reply) as [reply ->].
    { destruct (em_reply_to m) as [r|]; [|by eexists]. inversion Hr as [|? ? Hok _]. rewrite Hok. by eexists. }
    cbn. eexists. split; [reflexivity|]. cbn. split_and!; try done. intros Hbody.
    unfold message_body, text_parts. destruct (em_text m), (em_html m), (em_attachments m) as [|a l] eqn:Hl; cbn; try done;
      rewrite ?attachment_leaves; try done; naive_solver.
  - rewrite Exists_cons, !Exists_app. intros Hbad. unfold build_lettre_message, mailbox.
    destruct (address_ok (ea_address (sc_default_from c))) eqn:Hf; [|done]. destruct Hbad as [|Hbad]; [done|]. cbn.
    assert (∀ l, Exists (λ a, address_ok (ea_address a) = false) l → Forall (λ a, address_ok (ea_address a) = true) l → False) as Hno.
    { intros l Hex Hfa. rewrite Exists_exists in Hex. destruct Hex as (a & Ha & Hb). rewrite Forall_forall in Hfa. specialize (Hfa a Ha). congruence. }
    destruct (Hcase (em_to m)) as [->|Hto]; [done|]. destruct (Hall _ Hto) as (to & -> & _). cbn.
    destruct (Hcase (em_cc m)) as [->|Hcc]; [done|]. destruct (Hall _ Hcc) as (cc & -> & _). cbn.
    destruct (Hcase (em_bcc m)) as [->|Hbcc]; [done|]. destruct (Hall _ Hbcc) as (bcc & -> & _). cbn.
    destruct Hbad as [Hbad|[Hbad|[Hbad|Hbad]]]; [by destruct (Hno _ Hbad)..|].
    destruct (em_reply_to m) as [r|]; cbn in Hbad; [|by inversion Hbad].
    inversion Hbad as [? ? Hr|? ? Hr]; [by rewrite Hr|by inversion Hr].
Qed.

Module Examples.

Definition letter : EmailMessage :=
  attach (attachment_new "report.PDF" "%PDF") (with_html "<b>hi</b>" (with_text "hi" (message_new [address_new "ann@example.org"] "Hello"))).

Definition config : SmtpConfig := smtp_new "smtp.example.org" 2525 "noreply@example.org".

Example letter_body :
  message_body (λ _, true) letter
  = BodyParts (Multi "mixed" [Multi "alternative" [Single "text/plain" "hi"; Single "text/html" "<b>hi</b>"]; Single "application/pdf" "%PDF"]).
Proof. by vm_compute. Qed.

(** A message of HTML alone is a plain body. *)
Example html_alone : message_body (λ _, true) (with_html "<b>hi</b>" (message_new [] "Hello")) = BodyText "<b>hi</b>".
Proof. by vm_compute. Qed.

(** Headers, the names of attachments, [inline] and the sender's name are lost. *)
Example not_sent :
  let c := mailer_new "smtp.example.org" 587 None None true (Some "noreply@example.org") (Some "Shop") in
  build_lettre_message (λ _, true) (λ _, true) c (with_header "List-Unsubscribe" "<x>" (attach (inline (with_content_type "a.png" "image/png" "1")) letter))
  = build_lettre_message (λ _, true) (λ _, true) (smtp_new "smtp.example.org" 587 "noreply@example.org") (attach (with_content_type "b.png" "image/png" "1") letter).
Proof. by vm_compute. Qed.

(** With TLS the port of the configuration is not used. *)
Example tls_port : tr_port (get_transport config) = None ∧ tr_port (get_transport (no_tls config)) = Some 2525%Z.
Proof. done. Qed.

Example bare_name : mime_guess "json" = Some "application/json".
Proof. by vm_compute. Qed.

Example attachment_errors :
  attachment_of [("data", PBytes "x")] = inl "attachment missing 'filename'"
  ∧ attachment_of [("filename", PStr "a.txt"); ("data", PStr "x")] = inl "attachment 'data' must be bytes"
  ∧ attachment_of [("filename", PStr "a.txt"); ("data", PBytes "x")] = inr (mk_attachment "a.txt" "text/plain" "x" false).
Proof. by vm_compute. Qed.

(** An address that does not parse panics where the message is sent, not where it is queued. *)
Example queue_dies :
  let q := (enqueue letter (enqueue (message_new [address_new "broken"] "x") (mk_queue [] true)).2).2 in
  queue_step (send (λ a, negb (String.eqb a "broken")) (λ _, true) (λ _, inr "") (λ _ _, inr ()) config) q = Some Panic.
Proof. by vm_compute. Qed.

(** The same code for two people: the second takes it over. *)
Example otp_taken :
  let s := (create_otp 7 "bob@example.org" "login" 300 11 (create_otp 7 "ann@example.org" "login" 300 10 ∅).2).2 in
  verify "000007" "login" 300 12 s = (Some "bob@example.org", (verify "000007" "login" 300 12 s).2)
  ∧ (verify "000007" "login" 300 13 (verify "000007" "login" 300 12 s).2).1 = None.
Proof. by vm_compute. Qed.

(** Any number of codes may be tried, and the lifetime of a code is what the
    verifier says, not what its maker did. *)
Example ttl_ignored : (verify "000007" "login" 86400 3600 (create_otp 7 "ann@example.org" "login" 60 10 ∅).2).1 = Some "ann@example.org".
Proof. by vm_compute. Qed.

(** A clock that is set back by a second makes every token old. *)
Example clock_back : (verify "000007" "login" 300 9 (create_otp 7 "ann@example.org" "login" 60 10 ∅).2) = (None, ∅).
Proof. by vm_compute. Qed.

Definition history : list (Op * Z) :=
  [(OpCreate "t" "ann@example.org" "reset" 60, 100%Z); (OpVerify "t" "login" 60, 110%Z); (OpVerify "t" "reset" 60, 120%Z); (OpVerify "t" "reset" 60, 121%Z)].

Lemma token_used_once_witness :
  (op_step (OpVerify "t" "reset" 60) 120 (ops_run (take 2 history) ∅).2).1 = Some "ann@example.org" ∧
  ∃ e, created_by "t" e (take 2 history) ∧ ve_email e = "ann@example.org" ∧ ve_purpose e = "reset" ∧ (age 120 e ≤ 60)%Z.
Proof.
  assert ((op_step (OpVerify "t" "reset" 60) 120 (ops_run (take 2 history) ∅).2).1 = Some "ann@example.org") as Hv by (by vm_compute).
  split; [exact Hv|].
  refine (proj2 (token_used_once history "t") (take 2 history) "reset" 60%Z 120%Z "ann@example.org" _ _ eq_refl Hv).
  exists [(OpVerify "t" "reset" 60, 121%Z)]. reflexivity.
Defined.

Lemma message_contents_witness :
  ∃ lm, build_lettre_message (λ _, true) (λ _, true) config letter = Ret lm ∧ body_leaves (lm_body lm) = ["hi"; "<b>hi</b>"; "%PDF"].
Proof.
  destruct (proj1 (message_contents (λ _, true) (λ _, true) config letter)) as (lm & Hlm & _ & _ & _ & _ & _ & Hb); [by repeat constructor|].
  exists lm. split; [exact Hlm|]. apply Hb. by left.
Defined.

End Examples.
