(* ===== verification/GenClient.v ===== *)
(** * GenClient: clients written from a document

    [crates/justapi-cli/src/gen_client.rs]: the operations of an OpenAPI
    document, their names, and the text of the Python and TypeScript clients.
    What is a letter outside ASCII is a parameter; [{:?}] escapes quotes,
    backslashes and control characters, and leaves other characters alone.
    Writing the file is left out. *)

From stdpp Require Import sorting.
From Stdlib Require Import Ascii.
From S2P Require Import Prelude F32 Text F64 Http OpenApi.

#[local] Open Scope string_scope.

Inductive ClientLanguage := Python | Typescript.

Definition client_from_str (s : string) : string + ClientLanguage :=
  let s := lowercase s in
  if existsb (String.eqb s) ["py"; "python"] then inr Python
  else if existsb (String.eqb s) ["ts"; "typescript"; "js"] then inr Typescript
  else inl ("unsupported language '" +:+ s +:+ "' (expected python or typescript)").

Definition extension (l : ClientLanguage) : string := match l with Python => "py" | Typescript => "ts" end.
Definition module_name (l : ClientLanguage) : string := "client".
Definition file_name (l : ClientLanguage) : string := module_name l +:+ "." +:+ extension l.

Record Param := mk_param { original : string; arg : string; ty : option string }.

Record Op := mk_op {
  g_method : string; g_raw_path : string; g_name : string; g_summary : option string;
  g_path : list Param; g_query : list Param; g_header : list Param; g_has_body : bool }.

(** ** Names *)

(** The characters of a string in UTF-8. *)
Fixpoint chars_from (cur : string) (s : string) : list string :=
  match s with
  | EmptyString => [cur]
  | String c s' =>
      if ((128 <=? code c) && (code c <? 192))%Z then chars_from (cur +:+ String c "") s'
      else cur :: chars_from (String c "") s'
  end.
Definition chars (s : string) : list string :=
  List.filter (λ c, negb (String.eqb c "")) (chars_from "" s).

Fixpoint drop_while {X} (f : X → bool) (l : list X) : list X :=
  match l with [] => [] | x :: l' => if f x then drop_while f l' else l end.
Definition trim_list {X} (f : X → bool) (l : list X) : list X := reverse (drop_while f (reverse (drop_while f l))).

Section names.
(** [is_alphabetic] and [is_alphanumeric] of a character beyond ASCII. *)
Context (letter alnum : string → bool).

Definition is_alphabetic_ch (c : string) : bool :=
  match c with String a "" => is_upper a || is_lower a | _ => letter c end.
Definition is_alphanumeric_ch (c : string) : bool :=
  match c with String a "" => is_alphanumeric a | _ => alnum c end.

Definition upper_ch (c : string) : string := match c with String a "" => String (upper_char a) "" | _ => c end.

Fixpoint camel (upper : bool) (cs : list string) : list string :=
  match cs with
  | [] => []
  | c :: cs => if is_alphanumeric_ch c then (if upper then upper_ch c else c) :: camel false cs else camel true cs
  end.

Definition sanitize_ident (s : string) : string :=
  let out := String.concat "" (trim_list (λ c, negb (is_alphabetic_ch c)) (camel false (chars s))) in
  if String.eqb out "" then "call" else out.

(** ** Operations *)

Definition param_of (p : DocParameter) : Param :=
  mk_param (param_name p) (sanitize_ident (param_name p))
    match param_schema p with Some (SInline (mk_schema_object t _ _ _ _ _ _ _ _ _ _ _ _ _ _ _ _ _ _)) => t | _ => None end.
Definition params_in (l : ParameterLocation) (op : Operation) : list Param :=
  omap (λ p, match location p, l with
             | InPath, InPath | InQuery, InQuery | InHeader, InHeader => Some (param_of p)
             | _, _ => None
             end) (parameters op).

Definition base_name (method raw_path : string) (op : Operation) : string :=
  match op_id op with
  | Some id => sanitize_ident id
  | None => method +:+ "_" +:+ join "_" (sanitize_ident <$> List.filter (λ s, negb (String.eqb s "")) (split "/" raw_path))
  end.

Definition op_of (method raw_path : string) (op : Operation) : Op :=
  mk_op (uppercase method) raw_path (base_name method raw_path op)
    (op_summary op) (params_in InPath op) (params_in InQuery op) (params_in InHeader op)
    (bool_decide (is_Some (request_body op))).

(** The methods in the order they are looked for; no [TRACE]. *)
Definition methods : list (string * (PathItem → option Operation)) :=
  [("get", pi_get); ("post", pi_post); ("put", pi_put); ("delete", pi_delete); ("patch", pi_patch); ("head", pi_head);
   ("options", pi_options); ("query", pi_query)].

(** The entries of the [BTreeMap]. *)
Definition path_le (a b : string * PathItem) : Prop := String.leb a.1 b.1 = true.
#[global] Instance path_le_dec : RelDecision path_le.
Proof. intros a b. unfold path_le. apply _. Defined.
Definition sorted_paths (doc : OpenApiDocument) : list (string * PathItem) := merge_sort path_le (map_to_list (paths doc)).

Definition raw_ops (doc : OpenApiDocument) : list Op :=
  m ← methods; omap (λ e : string * PathItem, op_of m.1 e.1 <$> m.2 e.2) (sorted_paths doc).

(** Names that clash, whatever their case, get the number of those before. *)
Definition with_name (n : string) (o : Op) : Op :=
  mk_op (g_method o) (g_raw_path o) n (g_summary o) (g_path o) (g_query o) (g_header o) (g_has_body o).
Fixpoint dedup (seen : gmap string Z) (ops : list Op) : list Op :=
  match ops with
  | [] => []
  | o :: ops =>
      let key := lowercase (g_name o) in
      let count := default 0%Z (seen !! key) in
      (if (0 <? count)%Z then with_name (g_name o +:+ "_" +:+ decimal count) o else o) :: dedup (<[key := (count + 1)%Z]> seen) ops
  end.

Definition collect_ops (doc : OpenApiDocument) : list Op := dedup ∅ (raw_ops doc).
End names.

Definition base_url (doc : OpenApiDocument) : string :=
  match servers doc with Some (s :: _) => server_url s | _ => "http://localhost:8080" end.

(** ** Text *)

Definition python_type (t : option string) : string :=
  match t with
  | Some "string" => "str" | Some "integer" => "int" | Some "number" => "float" | Some "boolean" => "bool"
  | Some "array" => "list" | Some "object" => "dict" | _ => "Any"
  end.
Definition ts_type (t : option string) : string :=
  match t with
  | Some "string" => "string" | Some "integer" | Some "number" => "number" | Some "boolean" => "boolean"
  | Some "array" => "unknown[]" | Some "object" => "Record<string, unknown>" | _ => "unknown"
  end.

Definition hex_digit_of (n : nat) : ascii := ascii_of_nat (if (n <? 10)%nat then 48 + n else 87 + n).
Definition debug_char (c : ascii) : string :=
  let n := nat_of_ascii c in
  if (n =? 34)%nat then String "\" quote
  else if (n =? 92)%nat then "\\"
  else if (n =? 10)%nat then "\n" else if (n =? 13)%nat then "\r" else if (n =? 9)%nat then "\t" else if (n =? 0)%nat then "\0"
  else if (n <? 32)%nat || (n =? 127)%nat then
    "\u{" +:+ (if (n <? 16)%nat then "" else String (hex_digit_of (n / 16)) "") +:+ String (hex_digit_of (n mod 16)) "}"
  else String c "".
Fixpoint debug_chars (s : string) : string :=
  match s with EmptyString => "" | String c s' => debug_char c +:+ debug_chars s' end.
(** [{:?}] *)
Definition quoted (s : string) : string := quote +:+ debug_chars s +:+ quote.

Definition indent (n : nat) : string := String.string_of_list_ascii (replicate n " "%char).
(** A text with tildes for its quotation marks. *)
Definition q (s : string) : string := replace_char "~" (ascii_of_nat 34) s.

Definition python_args (op : Op) : list string :=
  (((λ p, arg p +:+ ": " +:+ python_type (ty p)) <$> g_path op)
  ++ ((λ p, arg p +:+ ": " +:+ python_type (ty p) +:+ " | None = None") <$> g_query op)
  ++ ((λ p, arg p +:+ ": str | None = None") <$> g_header op)
  ++ (if g_has_body op then ["body: Any | None = None"] else [])
  ++ ["extra_headers: dict[str, str] | None = None"])%list.

Definition python_path (op : Op) : string :=
  match g_path op with
  | [] => indent 8 +:+ "path = " +:+ quoted (g_raw_path op)
  | ps =>
      let fmt := foldl (λ s p, str_replace ("{" +:+ original p +:+ "}") ("{" +:+ arg p +:+ "}") 0 s) (g_raw_path op) ps in
      indent 8 +:+ "path = " +:+ quoted fmt +:+ ".format(" +:+ join ", " ((λ p, arg p +:+ "=" +:+ arg p) <$> ps) +:+ ")"
  end.

Definition python_body_lines (op : Op) : list string :=
  ((match g_query op with
   | [] => []
   | ps => [indent 8 +:+ "params = {k: v for k, v in {" +:+ join ", " ((λ p, quoted (original p) +:+ ": " +:+ arg p) <$> ps)
            +:+ "}.items() if v is not None}"]
   end)
  ++ (match g_header op with
      | [] => []
      | ps => [indent 8 +:+ "headers = {" +:+ newline
               +:+ join newline (((λ p, indent 12 +:+ quoted (original p) +:+ ": " +:+ arg p +:+ " if " +:+ arg p +:+ " is not None else None,") <$> ps)
                                 ++ [indent 12 +:+ "**(extra_headers or {})"])
               +:+ newline +:+ indent 8 +:+ "}"]
      end))%list.

(** The headers of the operation are not passed. *)
Definition python_call_args (op : Op) : list string :=
  ((match g_query op with [] => [] | _ => ["params=params"] end)
  ++ (if g_has_body op then ["json=body"] else [])
  ++ (match g_header op with [] => ["headers=extra_headers"] | _ => [] end))%list.

Definition comma_list (l : list string) : string := match l with [] => "" | _ => ", " +:+ join ", " l end.

Definition python_method (op : Op) : string :=
  let signature := indent 4 +:+ "def " +:+ g_name op +:+ "(self, " +:+ join ", " (python_args op) +:+ ") -> Any:" in
  let doc := indent 8 +:+ q "~~~" +:+ default "Auto-generated endpoint call." (g_summary op) +:+ q "~~~" in
  let call := indent 8 +:+ "result = self._request(" +:+ quoted (g_method op) +:+ ", path" +:+ comma_list (python_call_args op) +:+ ")" in
  let body := doc +:+ newline +:+ python_path op +:+ newline +:+ join newline (python_body_lines op) +:+ newline +:+ call
              +:+ newline +:+ indent 8 +:+ "return result" +:+ newline +:+ newline in
  signature +:+ newline +:+ body +:+ newline.

Definition generate_python (ops : list Op) (base : string) : string :=
  q (join newline
    ["~~~JustAPI generated Python client."; "Auto-generated by `justapi gen client`. Do not edit by hand."; ""; "Base URL: "])
  +:+ base +:+ newline
  +:+ q (join newline
    ["~~~"; "from __future__ import annotations"; ""; "from typing import Any"; ""; "import requests"; ""; "";
     "class Client:"; "    def __init__("; "        self,"; "        base_url: str = "])
  +:+ quoted base
  +:+ q (join newline
    [","; "        *,"; "        timeout: float = 30.0,"; "        headers: dict[str, str] | None = None,"; "    ) -> None:";
     "        self.base_url = base_url.rstrip(~/~)"; "        self.timeout = timeout"; "        self.session = requests.Session()";
     "        if headers:"; "            self.session.headers.update(headers)"; "";
     "    def _request("; "        self,"; "        method: str,"; "        path: str,"; "        *,";
     "        params: dict[str, Any] | None = None,"; "        json: Any | None = None,"; "        data: Any | None = None,";
     "        headers: dict[str, str] | None = None,"; "    ) -> Any:"; "        url = self.base_url + path";
     "        resp = self.session.request("; "            method,"; "            url,"; "            params=params,";
     "            json=json,"; "            data=data,"; "            headers=headers,"; "            timeout=self.timeout,"; "        )";
     "        resp.raise_for_status()"; "        ctype = resp.headers.get(~content-type~, ~~)";
     "        if resp.content and ctype.startswith(~application/json~):"; "            return resp.json()"; "        return resp"; ""; ""])
  +:+ String.concat "" (python_method <$> ops)
  +:+ q (join newline [""; ""; "if __name__ == ~__main__~:"; "    client = Client()"; ""]).

Definition ts_args (op : Op) : list string :=
  (((λ p, arg p +:+ ": " +:+ ts_type (ty p)) <$> g_path op)
  ++ ((λ p, arg p +:+ "?: " +:+ ts_type (ty p)) <$> g_query op)
  ++ ((λ p, arg p +:+ "?: string") <$> g_header op)
  ++ (if g_has_body op then ["body?: unknown"] else [])
  ++ ["extraHeaders?: Record<string, string>"])%list.

Definition ts_path (op : Op) : string :=
  match g_path op with
  | [] => indent 4 +:+ "const path = " +:+ quoted (g_raw_path op) +:+ ";"
  | ps =>
      indent 4 +:+ "let path = " +:+ quoted (g_raw_path op) +:+ ";" +:+ newline +:+ indent 4
      +:+ join (newline +:+ indent 4) ((λ p, "path = path.replace(`{" +:+ original p +:+ "}`, String(" +:+ arg p +:+ "));") <$> ps)
  end.

Definition ts_entries (ps : list Param) : string :=
  join newline ((λ p, indent 6 +:+ quoted (original p) +:+ ": " +:+ arg p +:+ ",") <$> ps).

Definition ts_body_lines (op : Op) : list string :=
  ([ts_path op]
  ++ (match g_query op with
      | [] => []
      | ps => [indent 4 +:+ "const params = {" +:+ newline +:+ ts_entries ps +:+ newline +:+ indent 4 +:+ "};"]
      end)
  ++ (match g_header op with
      | [] => []
      | ps => [indent 4 +:+ "const headers = {" +:+ newline +:+ ts_entries ps +:+ newline
               +:+ indent 6 +:+ "...(extraHeaders ?? {})," +:+ newline +:+ indent 4 +:+ "};"]
      end))%list.

Definition ts_call_args (op : Op) : list string :=
  ((match g_query op with [] => [] | _ => ["params"] end)
  ++ (if g_has_body op then ["body"] else [])
  ++ (match g_header op with [] => ["extraHeaders"] | _ => ["headers"] end))%list.

Definition ts_method (op : Op) : string :=
  let summary := match g_summary op with Some s => "  /** " +:+ s +:+ " */" +:+ newline | None => "" end in
  let call := indent 4 +:+ "return this.request(" +:+ quote +:+ g_method op +:+ quote +:+ ", path, { "
              +:+ join ", " ((λ a, a +:+ ": " +:+ a) <$> ts_call_args op) +:+ " }) as Promise<unknown>;" in
  newline +:+ summary +:+ indent 2 +:+ g_name op +:+ "(" +:+ join ", " (ts_args op) +:+ "): Promise<unknown> {" +:+ newline
  +:+ join newline (ts_body_lines op) +:+ newline +:+ call +:+ newline +:+ indent 2 +:+ "}" +:+ newline.

Definition generate_typescript (ops : list Op) (base : string) : string :=
  join newline
    ["// JustAPI generated TypeScript client."; "// Auto-generated by `justapi gen client`. Do not edit by hand."; "// Base URL: "]
  +:+ base +:+ newline
  +:+ q (join newline
    [""; "export interface ClientOptions {"; "  baseUrl?: string;"; "  headers?: Record<string, string>;"; "  fetch?: typeof fetch;"; "}"; "";
     "export class Client {"; "  private baseUrl: string;"; "  private headers: Record<string, string>;"; "  private fetcher: typeof fetch;"; "";
     "  constructor(opts: ClientOptions = {}) {"; "    this.baseUrl = (opts.baseUrl ?? ~"])
  +:+ base
  +:+ q (join newline
    ["~).replace(/\/$/, ~~);"; "    this.headers = opts.headers ?? {};"; "    this.fetcher = opts.fetch ?? fetch;"; "  }"; "";
     "  private async request<T = unknown>("; "    method: string,"; "    path: string,";
     "    opts: { params?: Record<string, unknown>; body?: unknown; headers?: Record<string, string> } = {},"; "  ): Promise<T> {";
     "    const url = new URL(this.baseUrl + path);"; "    if (opts.params) {"; "      for (const [k, v] of Object.entries(opts.params)) {";
     "        if (v !== undefined && v !== null) url.searchParams.set(k, String(v));"; "      }"; "    }";
     "    const resp = await this.fetcher(url.toString(), {"; "      method,";
     "      headers: { ~content-type~: ~application/json~, ...this.headers, ...(opts.headers ?? {}) },";
     "      body: opts.body !== undefined ? JSON.stringify(opts.body) : undefined,"; "    });";
     "    if (!resp.ok) throw new Error(`Request failed: ${resp.status} ${resp.statusText}`);";
     "    const ctype = resp.headers.get(~content-type~) ?? ~~;";
     "    if (ctype.includes(~application/json~)) return (await resp.json()) as T;"; "    return (await resp.text()) as unknown as T;"; "  }"; ""; ""])
  +:+ String.concat "" (ts_method <$> ops)
  +:+ newline +:+ "}" +:+ newline.

Definition generate_client (letter alnum : string → bool) (doc : OpenApiDocument) (l : ClientLanguage) : string :=
  let ops := collect_ops letter alnum doc in
  match l with Python => generate_python ops (base_url doc) | Typescript => generate_typescript ops (base_url doc) end.

(** ** Identifiers *)

(** A byte of an identifier: a letter, a digit, or part of a character beyond ASCII. *)
Definition start_char (c : ascii) : bool := is_upper c || is_lower c || (128 <=? code c)%Z.
Definition ident_char (c : ascii) : bool := is_alphanumeric c || (128 <=? code c)%Z.

Record ident (s : string) : Prop := {
  ident_chars : str_all ident_char s = true;
  ident_first : ∃ a t, s = String a t ∧ start_char a = true;
  ident_last : ∃ t e, s = t +:+ String e "" ∧ start_char e = true }.

Lemma trim_list_spec {X} (f : X → bool) (l : list X) :
  trim_list f l ⊆ l
  ∧ (trim_list f l = [] ∨ ((∃ x t, trim_list f l = x :: t ∧ f x = false) ∧ ∃ t x, trim_list f l = (t ++ [x])%list ∧ f x = false)).
Proof.
  assert (∀ l, ∃ p, l = (p ++ drop_while f l)%list ∧ (drop_while f l = [] ∨ ∃ x t, drop_while f l = x :: t ∧ f x = false)) as Hdrop.
  { clear. intros l. induction l as [|x l (p & Hl & IH)]; [exists []; auto|]. cbn [drop_while]. destruct (f x) eqn:Hx.
    - exists (x :: p). split; [cbn; by rewrite <- Hl|done].
    - exists []. split; [done|]. right. eauto. }
  unfold trim_list. destruct (Hdrop l) as (p & Hl & Hfirst). set (d := drop_while f l) in *.
  destruct (Hdrop (reverse d)) as (p' & Hd & Hlast). set (d' := drop_while f (reverse d)) in *.
  assert (d = (reverse d' ++ reverse p')%list) as Hr by (by rewrite <- reverse_app, <- Hd, reverse_involutive).
  split; [intros x Hx; rewrite Hl, Hr; set_solver|].
  destruct Hlast as [->|(x & t & Ht & Hx)]; [by left|right]. split.
  - destruct Hfirst as [Hn|(y & u & Hu & Hy)].
    { rewrite Hn in Hd. cbn in Hd. by destruct p', d'. }
    rewrite Ht, reverse_cons in *. rewrite Hu in Hr. destruct (reverse t) as [|z w]; cbn in Hr |- *; simplify_eq; eauto.
  - rewrite Ht, reverse_cons. eauto.
Qed.

Lemma concat_snoc (l : list string) x : String.concat "" (l ++ [x])%list = String.concat "" l +:+ x.
Proof.
  induction l as [|y l IH]; [done|]. change ((y :: l) ++ [x])%list with (y :: (l ++ [x])%list).
  by rewrite !concat_cons, IH, str_append_assoc.
Qed.

Lemma str_all_snoc f s : s ≠ "" → str_all f s = true → ∃ t e, s = t +:+ String e "" ∧ f e = true.
Proof.
  induction s as [|a s IH]; [done|]. intros _. cbn [str_all]. intros [Ha Hs]%andb_prop.
  destruct (decide (s = "")) as [->|Hne]; [by exists "", a|]. destruct (IH Hne Hs) as (t & e & -> & He). by exists (String a t), e.
Qed.

Section identifiers.
Context (letter alnum : string → bool).
(** Only characters beyond ASCII are asked about. *)
Hypothesis alnum_beyond : ∀ c, alnum c = true → str_all (λ a, 128 <=? code a)%Z c = true.
Abbreviation good c := (c ≠ "" ∧ is_alphanumeric_ch alnum c = true).

Lemma chars_from_good cur s : Forall (λ c, c ≠ "") (List.filter (λ c, negb (String.eqb c "")) (chars_from cur s)).
Proof. apply Forall_forall. intros c [_ Hc%negb_true_iff%String.eqb_neq]%list_elem_of_In%filter_In. done. Qed.

Lemma upper_good c : good c → good (upper_ch c).
Proof.
  intros [Hne Hc]. unfold upper_ch. destruct c as [|a [|b c]]; [done| |done]. split; [done|].
  cbn [is_alphanumeric_ch] in *. clear Hne. revert a Hc. each_char.
Qed.

Lemma camel_good u cs : Forall (λ c, c ≠ "") cs → Forall (λ c, good c) (camel alnum u cs).
Proof.
  intros Hcs. revert u. induction Hcs as [|c cs Hc Hcs IH]; intros u; [constructor|]. cbn [camel].
  destruct (is_alphanumeric_ch alnum c) eqn:Ha; [|apply IH]. constructor; [|apply IH]. destruct u; [by apply upper_good|done].
Qed.

Lemma good_chars c : good c → str_all ident_char c = true.
Proof.
  intros [Hne Hc]. assert (str_all (λ a, 128 <=? code a)%Z c = true → str_all ident_char c = true) as Hb.
  { apply str_all_impl. intros a Ha. unfold ident_char. rewrite Ha. apply orb_true_r. }
  destruct c as [|a [|b c]]; [done| |by apply Hb, alnum_beyond].
  cbn [is_alphanumeric_ch] in Hc. cbn [str_all]. unfold ident_char. by rewrite Hc.
Qed.

Lemma alphabetic_chars c : good c → is_alphabetic_ch letter c = true → str_all start_char c = true.
Proof.
  intros [Hne Hc] Hl. assert (str_all (λ a, 128 <=? code a)%Z c = true → str_all start_char c = true) as Hb.
  { apply str_all_impl. intros a Ha. unfold start_char. rewrite Ha. apply orb_true_r. }
  destruct c as [|a [|b c]]; [done| |by apply Hb, alnum_beyond].
  cbn [is_alphabetic_ch] in Hl. cbn [str_all]. unfold start_char. by rewrite Hl.
Qed.

Lemma concat_chars l : Forall (λ c, good c) l → str_all ident_char (String.concat "" l) = true.
Proof.
  induction 1 as [|c l Hc _ IH]; [done|]. by rewrite concat_cons, str_all_append, IH, good_chars.
Qed.

(** What [sanitize_ident] gives is an identifier. *)
Lemma sanitize_ident_ok s : ident (sanitize_ident letter alnum s).
Proof.
  unfold sanitize_ident. set (f := λ c, negb (is_alphabetic_ch letter c)). set (cs := camel alnum false (chars s)).
  assert (Forall (λ c, good c) cs) as Hcs by apply camel_good, chars_from_good.
  destruct (trim_list_spec f cs) as [Hsub Hends]. set (l := trim_list f cs) in *.
  assert (Forall (λ c, good c) l) as Hl.
  { rewrite Forall_forall in *. intros c Hc. apply Hcs, Hsub, Hc. }
  case_match eqn:Hout; [|apply String.eqb_neq in Hout].
  { constructor; [done|by exists "c"%char, "all"|by exists "cal", "l"%char]. }
  destruct Hends as [Hn|[(x & t & Hx & Hfx%negb_false_iff) (t' & y & Hy & Hfy%negb_false_iff)]]; [by rewrite Hn in Hout|].
  constructor; [by apply concat_chars| |].
  - rewrite Hx in Hl |- *. apply Forall_cons_1 in Hl as [Hg _]. rewrite concat_cons.
    pose proof (alphabetic_chars _ Hg Hfx) as Hall. destruct x as [|a x]; [by destruct Hg|].
    exists a, (x +:+ String.concat "" t). split; [done|]. by apply andb_prop in Hall as [? _].
  - rewrite Hy in Hl |- *. apply Forall_app in Hl as [_ [Hg _]%Forall_cons_1]. rewrite concat_snoc.
    destruct (str_all_snoc start_char y) as (u & e & -> & He); [apply Hg|by apply alphabetic_chars|].
    exists (String.concat "" t' +:+ u), e. by rewrite str_append_assoc.
Qed.

(** ** Names of operations *)

Definition name_char (c : ascii) : bool := ident_char c || Ascii.eqb c "_".

(** A name before the numbers: it does not end with a digit. *)
Record plain_name (n : string) : Prop := {
  name_chars : str_all name_char n = true;
  name_first : ∃ a t, n = String a t ∧ start_char a = true;
  name_last : ∃ t e, n = t +:+ String e "" ∧ is_digit e = false }.

Lemma start_not_digit e : start_char e = true → is_digit e = false.
Proof. revert e. each_char. Qed.

Lemma ident_name n : ident n → plain_name n.
Proof.
  intros [Hc Hf (t & e & -> & He)]. constructor; [|done|eauto using start_not_digit].
  revert Hc. apply str_all_impl. intros c Hc. unfold name_char. by rewrite Hc.
Qed.

Lemma join_idents l : Forall ident l →
  str_all name_char (join "_" l) = true ∧ (l = [] ∨ ∃ t e, join "_" l = t +:+ String e "" ∧ is_digit e = false).
Proof.
  induction 1 as [|n l Hn%ident_name Hl [IHc IHe]]; [auto|]. destruct Hn as [Hc _ He]. destruct l as [|m l].
  - split; [done|by right].
  - change (join "_" (n :: m :: l)) with (n +:+ ("_" +:+ join "_" (m :: l))). rewrite !str_all_append, Hc, IHc. split; [done|right].
    destruct IHe as [?|(t & e & -> & ?)]; [done|]. exists (n +:+ "_" +:+ t), e. by rewrite !str_append_assoc.
Qed.

Lemma base_name_plain method raw op : method ∈ methods.*1 → plain_name (base_name letter alnum method raw op).
Proof.
  intros Hm. unfold base_name. destruct (op_id op); [apply ident_name, sanitize_ident_ok|].
  set (l := _ <$> _). assert (Forall ident l) as Hl.
  { apply Forall_forall. intros n (s & -> & _)%list_elem_of_fmap. apply sanitize_ident_ok. }
  destruct (join_idents l Hl) as [Hc He].
  assert (str_all name_char method = true ∧ ∃ a t, method = String a t ∧ start_char a = true) as [Hmc (a & t & -> & Ha)].
  { rewrite list_elem_of_In in Hm. cbn in Hm. repeat destruct Hm as [<-|Hm]; [..|done]; split; try done; eexists _, _; split; try done; done. }
  constructor.
  - by rewrite !str_all_append, Hmc, Hc.
  - eexists a, _. split; [done|done].
  - destruct He as [->|(u & e & -> & He)].
    + exists (String a t), "_"%char. by rewrite str_append_nil_r.
    + exists (String a t +:+ "_" +:+ u), e. by rewrite !str_append_assoc.
Qed.

Lemma raw_ops_plain doc : Forall (λ o, plain_name (g_name o)) (raw_ops letter alnum doc).
Proof.
  apply Forall_forall. intros o (m & Ho & Hm)%list_elem_of_bind. apply list_elem_of_omap in Ho as (e & _ & Ho).
  destruct (m.2 e.2) as [op|]; simplify_eq/=. by apply base_name_plain, list_elem_of_fmap_2.
Qed.
End identifiers.

Lemma ends_with_eq t e t' e' : t +:+ String e "" = t' +:+ String e' "" → e = e'.
Proof.
  revert t'. induction t as [|a t IH]; intros [|b t']; [by intros [=]| | |].
  - intros [= _ Hn]. by destruct t'.
  - intros [= _ Hn]. by destruct t.
  - intros [= _ Hn]. by apply (IH t').
Qed.

Lemma lower_plain n : plain_name n → ∃ t e, lowercase n = t +:+ String e "" ∧ is_digit e = false.
Proof.
  intros [_ _ (t & e & -> & He)]. exists (lowercase t), (lower_char e). split; [|revert e He; each_char].
  induction t as [|a t IH]; [done|]. change (String (lower_char a) (lowercase (t +:+ String e "")) = String (lower_char a) (lowercase t +:+ String (lower_char e) "")).
  by rewrite IH.
Qed.

Lemma decimal_end c : ∃ t e, decimal c = t +:+ String e "" ∧ is_digit e = true.
Proof. apply str_all_snoc; [|apply decimal_all_digits]. destruct (decimal_cons c) as (a & s & -> & _). done. Qed.

Definition numbered (key : string) (count : Z) : string := key +:+ "_" +:+ decimal count.

Lemma numbered_inj k c k' c' : is_u64 c → is_u64 c' → numbered k c = numbered k' c' → k = k' ∧ c = c'.
Proof.
  intros Hc Hc' Heq.
  assert (∀ k c, rsplit_at "_" (numbered k c) = Some (k, decimal c)) as Hr.
  { intros j d. apply rsplit_at_last, (str_all_impl is_digit); [each_char|apply decimal_all_digits]. }
  pose proof (Hr k c) as Hk. rewrite Heq, Hr in Hk. simplify_eq. split; [done|]. by apply decimal_inj.
Qed.

Lemma numbered_not_plain n k c : plain_name n → lowercase n ≠ numbered k c.
Proof.
  intros (t & e & Ht & He)%lower_plain Heq. destruct (decimal_end c) as (u & d & Hd & Hdig).
  unfold numbered in Heq. rewrite Ht, Hd, !str_append_assoc in Heq. apply ends_with_eq in Heq as ->. by rewrite Hdig in He.
Qed.

Lemma lowercase_numbered n c : lowercase (n +:+ "_" +:+ decimal c) = numbered (lowercase n) c.
Proof.
  unfold numbered. induction n as [|a n IH]; [|by apply (f_equal (String (lower_char a)))].
  change (String "_" (lowercase (decimal c)) = String "_" (decimal c)). f_equal.
  pose proof (decimal_all_digits 40 c) as Hall. unfold decimal. induction (decimal_digits 40 c) as [|d s IHs]; [done|].
  cbn [str_all] in Hall. apply andb_prop in Hall as [Hd Hs]. change (String (lower_char d) (lowercase s) = String d s).
  rewrite IHs by done. f_equal. revert d Hd. each_char.
Qed.

Definition taken (seen : gmap string Z) (key : string) : Z := default 0%Z (seen !! key).

Lemma taken_insert seen k c : taken (<[k := c]> seen) k = c.
Proof. unfold taken. by rewrite lookup_insert_eq. Qed.

(** What a new name can be: a plain one not seen, or the next number of one. *)
Definition fresh_name (seen : gmap string Z) (o : Op) : Prop :=
  (plain_name (g_name o) ∧ taken seen (lowercase (g_name o)) = 0%Z)
  ∨ ∃ k c, lowercase (g_name o) = numbered k c ∧ (0 < taken seen k + 1 ≤ c + 1)%Z ∧ (0 < c)%Z ∧ is_u64 c.

Definition counts (seen : gmap string Z) (n : Z) : Prop := ∀ k, (0 ≤ taken seen k ≤ n)%Z.

Lemma counts_insert seen n k : counts seen n → counts (<[k := (taken seen k + 1)%Z]> seen) (n + 1).
Proof.
  intros Hn j. destruct (decide (j = k)) as [->|Hne]; [rewrite taken_insert; specialize (Hn k); lia|].
  specialize (Hn j). unfold taken in *. rewrite lookup_insert_ne by done. lia.
Qed.

Lemma fresh_insert seen n k o : counts seen n → fresh_name (<[k := (taken seen k + 1)%Z]> seen) o → fresh_name seen o.
Proof.
  intros Hn. assert (∀ j, (taken seen j ≤ taken (<[k := (taken seen k + 1)%Z]> seen) j)%Z) as Hle.
  { intros j. destruct (decide (j = k)) as [->|Hne]; [rewrite taken_insert; lia|].
    unfold taken. by rewrite lookup_insert_ne. }
  intros [[Hp Ht]|(j & c & Hj & Hc & Hpos & Hu)]; [left|right].
  - split; [done|]. specialize (Hle (lowercase (g_name o))). specialize (Hn (lowercase (g_name o))). lia.
  - exists j, c. specialize (Hle j). specialize (Hn j). split_and!; [done|lia..|done].
Qed.

Lemma dedup_fresh ops seen n : Forall (λ o, plain_name (g_name o)) ops → counts seen n → (n + Z.of_nat (length ops) < 2 ^ 64)%Z →
  Forall (fresh_name seen) (dedup seen ops) ∧ NoDup ((λ o, lowercase (g_name o)) <$> dedup seen ops).
Proof.
  intros Hops. revert seen n. induction Hops as [|o ops Ho Hops IH]; intros seen n Hn Hlen; [split; constructor|].
  cbn [dedup]. fold (taken seen (lowercase (g_name o))). set (key := lowercase (g_name o)). set (o' := if (0 <? taken seen key)%Z then _ else o).
  assert (is_u64 (taken seen key)) as Hu by (specialize (Hn key); unfold is_u64, u64_max; cbn [length] in Hlen; lia).
  destruct (IH (<[key := (taken seen key + 1)%Z]> seen) (n + 1)%Z) as [Hf Hd];
    [by apply counts_insert|cbn [length] in Hlen; lia|].
  assert (fresh_name seen o' ∧ ∀ x, fresh_name (<[key := (taken seen key + 1)%Z]> seen) x → lowercase (g_name o') ≠ lowercase (g_name x)) as [Ho' Hnew].
  { specialize (Hn key). unfold o'. destruct (Z.ltb_spec 0 (taken seen key)) as [Hc|Hc].
    - cbn [g_name with_name]. rewrite lowercase_numbered. fold key. split.
      + right. exists key, (taken seen key). cbn [g_name with_name]. rewrite lowercase_numbered. split_and!; [done|lia..|done].
      + intros x [[Hp _]|(k & c & Hk & Hx & _ & Hc')] Heq; [by eapply numbered_not_plain|].
        rewrite Hk in Heq. apply numbered_inj in Heq as [<- <-]; [|done..]. rewrite taken_insert in Hx. lia.
    - split; [left; split; [done|fold key; lia]|].
      intros x [[Hp Ht]|(k & c & Hk & _)] Heq; [|rewrite Hk in Heq; by eapply numbered_not_plain].
      rewrite <- Heq in Ht. fold key in Ht. rewrite taken_insert in Ht. lia. }
  split.
  - constructor; [done|]. eapply Forall_impl; [done|]. intros x. by apply (fresh_insert _ n).
  - rewrite fmap_cons. constructor; [|done]. intros (x & Heq & Hx)%list_elem_of_fmap.
    rewrite Forall_forall in Hf. by apply (Hnew x); [apply Hf|].
Qed.

Lemma dedup_pairs {X} (f : Op → X) ops seen : (∀ n o, f (with_name n o) = f o) → f <$> dedup seen ops = f <$> ops.
Proof.
  intros Hf. revert seen. induction ops as [|o ops IH]; intros seen; [done|]. cbn [dedup]. rewrite !fmap_cons, IH. f_equal.
  case_match; [apply Hf|done].
Qed.

Lemma elem_of_raw_ops letter alnum doc o :
  o ∈ raw_ops letter alnum doc ↔
  ∃ m p item op, m ∈ methods ∧ paths doc !! p = Some item ∧ m.2 item = Some op ∧ o = op_of letter alnum m.1 p op.
Proof.
  unfold raw_ops, sorted_paths. rewrite list_elem_of_bind. setoid_rewrite list_elem_of_omap.
  setoid_rewrite merge_sort_Permutation. split.
  - intros (m & ([p item] & Hp%elem_of_map_to_list & Ho) & Hm). cbn in Ho. destruct (m.2 item) as [op|] eqn:Hop; simplify_eq/=. eauto 8.
  - intros (m & p & item & op & Hm & Hp%elem_of_map_to_list & Hop & ->). exists m. split; [|done].
    exists (p, item). cbn. rewrite Hop. done.
Qed.

Lemma fmap_bind_list {X Y Z} (f : Y → Z) (g : X → list Y) l : f <$> (l ≫= g) = l ≫= λ x, f <$> g x.
Proof. induction l as [|x l IH]; [done|]. cbn [mbind list_bind]. by rewrite fmap_app, <- IH. Qed.

Lemma methods_unique m m' : m ∈ methods → m' ∈ methods → uppercase m'.1 = uppercase m.1 → m = m'.
Proof.
  rewrite !list_elem_of_In. cbn. intros Hm Hm'. repeat destruct Hm as [<-|Hm]; [..|done]; repeat destruct Hm' as [<-|Hm']; done.
Qed.

Lemma raw_pairs_unique letter alnum doc : NoDup ((λ o, (g_method o, g_raw_path o)) <$> raw_ops letter alnum doc).
Proof.
  unfold raw_ops. rewrite fmap_bind_list. apply NoDup_bind.
  - intros m m' [M p] Hm Hm' (o & Ho & (e & _ & He)%list_elem_of_omap)%list_elem_of_fmap (o' & Ho' & (e' & _ & He')%list_elem_of_omap)%list_elem_of_fmap.
    destruct (m.2 e.2), (m'.2 e'.2); simplify_eq/=.
    by apply methods_unique.
  - intros m Hm. assert (∀ l : list (string * PathItem), NoDup l.*1 →
      NoDup ((λ o, (g_method o, g_raw_path o)) <$> omap (λ e, op_of letter alnum m.1 e.1 <$> m.2 e.2) l)) as Hl.
    { intros l. induction l as [|e l IH]; [constructor|]. rewrite fmap_cons. intros [Hni Hnd]%NoDup_cons. cbn [omap list_omap].
      destruct (m.2 e.2) as [op|]; cbn [fmap option_fmap option_map]; [|by apply IH]. constructor; [|by apply IH].
      intros (o & Ho & (e' & He' & Hop)%list_elem_of_omap)%list_elem_of_fmap. destruct (m.2 e'.2) as [op'|]; [|done].
      injection Hop as <-. cbn in Ho. injection Ho as Ho. apply Hni. rewrite Ho. by apply list_elem_of_fmap_2. }
    apply Hl. unfold sorted_paths. rewrite merge_sort_Permutation. apply NoDup_fst_map_to_list.
  - unfold methods. repeat (constructor; [rewrite list_elem_of_In; cbn; intuition congruence|]). constructor.
Qed.

(** A Python or TypeScript name: letters, digits and [_], and no digit first. *)
Definition valid_name (n : string) : Prop :=
  str_all name_char n = true ∧ ∃ a t, n = String a t ∧ start_char a = true.

Lemma dedup_valid ops seen : Forall (λ o, plain_name (g_name o)) ops → Forall (λ o, valid_name (g_name o)) (dedup seen ops).
Proof.
  intros Hops. revert seen. induction Hops as [|o ops [Hc (a & t & Ht & Ha) _] Hops IH]; intros seen; [constructor|].
  cbn [dedup]. constructor; [|apply IH]. case_match; [|by split; eauto]. cbn [g_name with_name]. split.
  - rewrite !str_all_append, Hc. cbn [andb]. change (str_all name_char "_") with true. cbn [andb].
    apply (str_all_impl is_digit); [each_char|apply decimal_all_digits].
  - rewrite Ht. eexists a, _. split; done.
Qed.

Definition op_params (o : Op) : list Param := (g_path o ++ g_query o ++ g_header o)%list.

Lemma params_ident letter alnum doc :
  (∀ c, alnum c = true → str_all (λ a, 128 <=? code a)%Z c = true) →
  Forall (Forall (λ p, ident (arg p))) (op_params <$> collect_ops letter alnum doc).
Proof.
  intros Hal. unfold collect_ops. rewrite dedup_pairs by done. rewrite Forall_fmap. apply Forall_forall.
  intros o (m & p & item & op & _ & _ & _ & ->)%elem_of_raw_ops.
  assert (∀ l, Forall (λ p, ident (arg p)) (params_in letter alnum l op)) as Hp.
  { intros l. apply Forall_forall. intros q (d & _ & Hq)%list_elem_of_omap.
    assert (q = param_of letter alnum d) as -> by (destruct (location d), l; by simplify_eq). by apply sanitize_ident_ok. }
  unfold op_params. cbn. rewrite !Forall_app. auto.
Qed.

(** The methods of a generated client have different names, whatever the
    case of the operation ids: each operation of the document with a method the
    generator knows has exactly one method of the client, no other operation has one, and every name
    and argument is an identifier of letters, digits and "_" that does not start with a digit. *)
Theorem client_methods_unique letter alnum doc :
  (∀ c, alnum c = true → str_all (λ a, 128 <=? code a)%Z c = true) →
  (Z.of_nat (length (raw_ops letter alnum doc)) < 2 ^ 64)%Z →
  let ops := collect_ops letter alnum doc in
  let routes := (λ o, (g_method o, g_raw_path o)) <$> ops in
  NoDup ((λ o, lowercase (g_name o)) <$> ops)
  ∧ NoDup routes
  ∧ (∀ M p, (M, p) ∈ routes ↔ ∃ m item op, m ∈ methods ∧ M = uppercase m.1 ∧ paths doc !! p = Some item ∧ m.2 item = Some op)
  ∧ Forall (λ o, valid_name (g_name o)) ops
  ∧ Forall (Forall (λ p, ident (arg p))) (op_params <$> ops).
Proof.
  intros Hal Hlen ops routes. pose proof (raw_ops_plain letter alnum Hal doc) as Hplain.
  assert (routes = (λ o, (g_method o, g_raw_path o)) <$> raw_ops letter alnum doc) as Hr by by apply dedup_pairs.
  split_and!; [|rewrite Hr; apply raw_pairs_unique| |by apply dedup_valid|by apply params_ident].
  - apply (dedup_fresh _ ∅ 0); [done| |done]. intros k. cbn. done.
  - intros M p. rewrite Hr, list_elem_of_fmap. setoid_rewrite elem_of_raw_ops. split.
    + intros (o & Ho & m & q & item & op & Hm & Hq & Hop & ->). cbn in Ho. simplify_eq. eauto 8.
    + intros (m & item & op & Hm & -> & Hp & Hop). eexists. split; [|by exists m, p, item, op]. done.
Qed.

Module Examples.

Definition no_letters (_ : string) : bool := false.
Definition op_with (id : option string) (ps : list DocParameter) : Operation := mk_operation None None id [] ps None ∅ None ∅.
Definition get_item (op : Operation) : PathItem := mk_path_item (Some op) None None None None None None None None.
Definition doc_of (ps : gmap string PathItem) : OpenApiDocument := mk_document "3.1.0" (mk_info "t" "1" None) None ps None None.
Definition header (n : string) : DocParameter := mk_parameter n InHeader None false None.
Definition path_param (n : string) : DocParameter := mk_parameter n InPath None true None.
Definition ops_of (ps : gmap string PathItem) : list Op := collect_ops no_letters no_letters (doc_of ps).

(** Two ids that differ in case, and one without id. *)
Definition clash : gmap string PathItem :=
  <["/a" := get_item (op_with (Some "get-user") [])]> (<["/b" := get_item (op_with (Some "GetUser") [])]>
  (<["/c/{id}" := get_item (op_with None [path_param "id"])]> ∅)).

Example clash_names : g_name <$> ops_of clash = ["getUser"; "GetUser_1"; "get_c_Id"].
Proof. vm_compute. reflexivity. Qed.

Lemma client_methods_unique_witness :
  (Z.of_nat (length (raw_ops no_letters no_letters (doc_of clash))) < 2 ^ 64)%Z
  ∧ NoDup ((λ o, lowercase (g_name o)) <$> ops_of clash).
Proof. split; [vm_compute; done|]. by apply (client_methods_unique no_letters no_letters (doc_of clash)). Defined.

(** Digits are dropped at both ends: two parameters can get the same name. *)
Example arguments_collide :
  python_args <$> ops_of (<["/x/{a1}/{a2}" := get_item (op_with None [path_param "a1"; path_param "a2"])]> ∅)
  = [["a: Any"; "a: Any"; "extra_headers: dict[str, str] | None = None"]].
Proof. vm_compute. reflexivity. Qed.

Definition with_header : gmap string PathItem := <["/x" := get_item (op_with (Some "f") [header "x-token"])]> ∅.

(** The header of the operation is put in a variable that is not used. *)
Example python_headers_dropped : (λ o, (length (python_body_lines o), python_call_args o)) <$> ops_of with_header = [(1%nat, [])].
Proof. vm_compute. reflexivity. Qed.

(** Without a header of its own, the caller's headers go under a name [request] does not read. *)
Example ts_headers_dropped :
  (λ o, (ts_args o, ts_call_args o)) <$> ops_of (<["/x" := get_item (op_with (Some "f") [])]> ∅)
  = [(["extraHeaders?: Record<string, string>"], ["extraHeaders"])].
Proof. vm_compute. reflexivity. Qed.

(** An operation can take the name of the client's own members. *)
Example member_shadowed : g_name <$> ops_of (<["/x" := get_item (op_with (Some "request") [])]> ∅) = ["request"].
Proof. vm_compute. reflexivity. Qed.

(** [trace] is not asked for. *)
Example trace_left_out :
  ops_of (<["/x" := mk_path_item None None None None None None None (Some (op_with None [])) None]> ∅) = [].
Proof. vm_compute. reflexivity. Qed.

End Examples.
