(* ===== verification/Database.v ===== *)
(** * Database: connection pools

    [crates/justapi-core/src/db/pool.rs]: the kinds of database and their
    URLs, the configuration of a pool and how it connects, values and rows to
    and from JSON, queries, streams, transactions and the pools by name.
    The driver [sqlx] is a parameter, [Driver]: a world of type [D], handles
    of pools [P], open transactions [Tx] and rows [R]. A row stream says, at
    each item, the state in which it is left when it is dropped there.
    Base64, the text of a float and the Display of an error are its too.
    Durations are in nanoseconds. *)

From Stdlib Require Import Ascii SpecFloat.
From S2P Require Import Prelude F32 Text F64 Paths Http Validate Migrations Crud.

#[local] Open Scope string_scope.

(** ** Kinds, isolation levels and URLs *)

Definition kind_display (k : DbKind) : string :=
  match k with Postgres => "postgres" | Sqlite => "sqlite" | MySql => "mysql" end.

Definition kind_from_url (url : string) : DbKind :=
  if starts_with "postgres://" url || starts_with "postgresql://" url then Postgres
  else if starts_with "sqlite://" url || starts_with "sqlite:" url then Sqlite
  else if starts_with "mysql://" url || starts_with "mariadb://" url then MySql
  else Postgres.

Inductive IsolationLevel := ReadUncommitted | ReadCommitted | RepeatableRead | Serializable | Snapshot.

Definition isolation_to_sql (i : IsolationLevel) (_ : DbKind) : string :=
  match i with
  | ReadUncommitted => "READ UNCOMMITTED" | ReadCommitted => "READ COMMITTED" | RepeatableRead => "REPEATABLE READ"
  | Serializable => "SERIALIZABLE" | Snapshot => "REPEATABLE READ"
  end.

Definition is_supported (i : IsolationLevel) (k : DbKind) : bool :=
  match k with Sqlite => match i with Serializable => true | _ => false end | _ => true end.

(** [current_dir().ok().map(|c| c.join(rel))] *)
Definition joined (cwd : option string) (rel : string) : string :=
  match cwd with Some c => path_join c rel | None => rel end.

Definition normalize_db_url (cwd : option string) (url : string) : string :=
  match strip_prefix "sqlite://" url with
  | None => url
  | Some rest =>
      match strip_prefix "//" rest with
      | Some abs => "sqlite:/" +:+ abs
      | None =>
          if starts_with "/" rest then
            if is_absolute rest then "sqlite:" +:+ rest
            else "sqlite:" +:+ joined cwd (default rest (strip_prefix "/" rest))
          else if String.eqb rest ":memory:" || starts_with "./" rest || is_absolute rest then "sqlite:" +:+ rest
          else "sqlite:" +:+ joined cwd rest
      end
  end.

(** ** Configuration *)

Definition secs (n : Z) : Z := (n * 10 ^ 9)%Z.

Record DatabaseConfig := mk_db_config {
  db_url : string; max_connections : Z; db_kind : option DbKind; init_sql : option string; pragmas : option (list string);
  acquire_timeout : option Z; request_acquire_timeout : option Z; idle_timeout : option Z; max_lifetime : option Z;
  health_check_interval : option Z; default_isolation : option IsolationLevel }.

Definition db_config_default : DatabaseConfig :=
  mk_db_config "" 10 None None None (Some (secs 30)) (Some (secs 3)) None (Some (secs 1800)) None None.

(** [config] *)
Definition db_config (url : string) (max_connections : Z) (k : DbKind) (ps : option (list string)) : DatabaseConfig :=
  mk_db_config url max_connections (Some k) None ps (Some (secs 30)) (Some (secs 3)) None (Some (secs 1800)) None None.

(** What the pool is built with; [after_connect]'s statements run on each new
    connection, their results ignored. *)
Record PoolOptions := mk_pool_options {
  o_max_connections : Z; o_acquire_timeout : Z; o_idle_timeout : option Z; o_max_lifetime : option Z;
  o_after_connect : option (list string) }.

Definition config_kind (c : DatabaseConfig) : DbKind := default (kind_from_url (db_url c)) (db_kind c).

Definition or_else {X} (a b : option X) : option X := match a with Some _ => a | None => b end.

Definition pool_options (c : DatabaseConfig) : PoolOptions :=
  mk_pool_options (max_connections c) (default (secs 3) (or_else (request_acquire_timeout c) (acquire_timeout c)))
    (idle_timeout c) (max_lifetime c)
    match config_kind c with
    | Sqlite => Some ("PRAGMA busy_timeout=5000" :: default ["journal_mode=WAL"; "synchronous=NORMAL"] (pragmas c))
    | _ => None
    end.

(** [Path::parent], up to repeated slashes. *)
Definition path_parent (p : string) : option string :=
  match reverse (components p) with
  | [] => None
  | _ :: cs => Some ((if is_absolute p then "/" else "") +:+ join "/" (reverse cs))
  end.

(** ** Values *)

Inductive Param :=
| ParamNull | ParamBool (b : bool) | ParamInt (n : Z) | ParamFloat (f : f64) | ParamText (s : string)
| ParamBytes (s : string) | ParamJson (j : json).

(** What is bound to a placeholder. *)
Inductive Bound := BindNull | BindBool (b : bool) | BindInt (n : Z) | BindFloat (f : f64) | BindText (s : string) | BindBytes (s : string).

(** [as_i64] and [as_f64] *)
Definition number_i64 (n : number) : option Z :=
  match n with IntNumber z => if (- 2 ^ 63 <=? z)%Z && (z <=? 2 ^ 63 - 1)%Z then Some z else None | FloatNumber _ => None end.
Definition number_f64 (n : number) : option f64 :=
  match n with IntNumber z => Some (f64_of_Z z) | FloatNumber t => parse_f64 t end.
Definition number_text (n : number) : string := match n with IntNumber z => decimal z | FloatNumber t => t end.

Definition is_finite (f : f64) : bool := match f with S754_zero _ | S754_finite _ _ _ => true | _ => false end.

(** ** The driver *)

(** A stream read to its end, to an error, or to an item: [stop] is the state
    when it is dropped after that item. *)
Inductive stream (X S : Type) :=
| Ended (d : S)
| Broken (e : SqlError) (d : S)
| Item (x : X) (stop : S) (rest : stream X S).
Arguments Ended {X S} d.
Arguments Broken {X S} e d.
Arguments Item {X S} x stop rest.

Inductive StmtItem (R : Type) := Affected (n : Z) | ARow (r : R).
Arguments Affected {R} n.
Arguments ARow {R} r.

Class Base64 := { b64_encode : string → string; b64_decode : string → option string }.

Class Driver (P D Tx R : Type) := {
  pool_connect : PoolOptions → string → D → (SqlError + P) * D;
  path_exists : string → D → bool;
  create_dir_all : string → D → D;
  create_file : string → D → D;
  fetch_all : P → string → list Bound → D → (SqlError + list R) * D;
  fetch : P → string → list Bound → D → stream R D;
  pool_execute : P → string → list Bound → D → (SqlError + Z) * D;
  fetch_one_i64 : P → string → D → (SqlError + Z) * D;
  fetch_all_i64 : P → string → D → (SqlError + list Z) * D;
  tx_begin : P → D → SqlError * D + Tx;
  tx_execute : string → Tx → (SqlError + Z) * Tx;
  fetch_many : string → list Bound → Tx → stream (StmtItem R) Tx;
  tx_commit : Tx → (SqlError + unit) * D;
  tx_rollback : Tx → D;                        (* a transaction that is dropped *)
  row_columns : R → list string;
  try_get_bool : R → nat → option (option bool);     (* [None] for an error *)
  try_get_i32 : R → nat → option (option Z);
  try_get_i64 : R → nat → option (option Z);
  try_get_f64 : R → nat → option (option f64);
  try_get_bytes : R → nat → option (option string);
  try_get_string : R → nat → SqlError + option string;
  f64_text : f64 → string;
  column_not_found : string → SqlError }.

Section pool.
Context `{!SerdeJson} `{!Base64} {P D Tx R : Type} `{!Driver P D Tx R}.

Definition param_of (v : json) : Param :=
  match json_get "$bytes" v ≫= as_str with
  | Some b64 => match b64_decode b64 with Some b => ParamBytes b | None => ParamText b64 end
  | None =>
      match v with
      | JNull => ParamNull
      | JBool b => ParamBool b
      | JNumber n =>
          match number_i64 n with
          | Some i => ParamInt i
          | None => match number_f64 n with Some f => ParamFloat f | None => ParamText (number_text n) end
          end
      | JString s => ParamText s
      | other => ParamJson other
      end
  end.

Definition bind_param (p : Param) : Bound :=
  match p with
  | ParamNull => BindNull | ParamBool b => BindBool b | ParamInt n => BindInt n | ParamFloat f => BindFloat f
  | ParamText s => BindText s | ParamBytes b => BindBytes b | ParamJson j => BindText (json_to_string j)
  end.

Definition json_option {X} (f : X → json) (v : option X) : json := match v with Some x => f x | None => JNull end.

Definition column_to_json (row : R) (idx : nat) : SqlError + json :=
  match try_get_bool row idx with Some v => inr (json_option JBool v) | None =>
  match try_get_i32 row idx with Some v => inr (json_option json_int v) | None =>
  match try_get_i64 row idx with Some v => inr (json_option json_int v) | None =>
  match try_get_f64 row idx with
  | Some v => inr match v with Some f => if is_finite f then JNumber (FloatNumber (f64_text f)) else JNull | None => JNull end
  | None =>
  match try_get_bytes row idx with
  | Some v => inr (json_option (λ b, JObject [("$bytes", JString (b64_encode b))]) v)
  | None =>
  match try_get_string row idx with inr v => inr (json_option JString v) | inl e => inl e end
  end end end end end.

Fixpoint columns_to_json (row : R) (idx : nat) (names : list string) (obj : list (string * json)) : SqlError + json :=
  match names with
  | [] => inr (JObject obj)
  | name :: names =>
      match column_to_json row idx with
      | inl e => inl e
      | inr v => columns_to_json row (S idx) names (assoc_set name v obj)
      end
  end.
Definition row_to_json (row : R) : SqlError + json := columns_to_json row 0 (row_columns row) [].

Fixpoint rows_json (rows : list R) : SqlError + list json :=
  match rows with
  | [] => inr []
  | row :: rows =>
      match row_to_json row with
      | inl e => inl e
      | inr v => match rows_json rows with inl e => inl e | inr vs => inr (v :: vs) end
      end
  end.
Definition rows_to_json (rows : list R) : SqlError + json :=
  match rows_json rows with inl e => inl e | inr vs => inr (JArray vs) end.

(** ** The pool *)

Record AnyPool := mk_pool {
  pool_inner : P; pool_kind : DbKind; pool_isolation : option IsolationLevel; pool_request_timeout : option Z }.

(** The file of an SQLite database is made before it is opened. *)
Definition prepare_file (k : DbKind) (connect_url : string) (d : D) : D :=
  match k with
  | Sqlite =>
      if contains ":memory:" connect_url then d
      else
        match strip_prefix "sqlite:" connect_url with
        | None => d
        | Some path =>
            let d := match path_parent path with
                     | Some parent => if negb (String.eqb parent "") && negb (path_exists parent d) then create_dir_all parent d else d
                     | None => d
                     end in
            if path_exists path d then d else create_file path d
        end
  | _ => d
  end.

Definition connect (cwd : option string) (c : DatabaseConfig) (d : D) : (SqlError + AnyPool) * D :=
  let connect_url := normalize_db_url cwd (db_url c) in
  match pool_connect (pool_options c) connect_url (prepare_file (config_kind c) connect_url d) with
  | (inl e, d) => (inl e, d)
  | (inr p, d) => (inr (mk_pool p (config_kind c) (default_isolation c) (request_acquire_timeout c)), d)
  end.

Definition connect_with (cwd : option string) (url : string) (max : Z) (k : DbKind) (ps : option (list string)) (d : D)
    : (SqlError + AnyPool) * D :=
  connect cwd (db_config url max k ps) d.

Fixpoint number_placeholders (idx : Z) (sql : string) : string :=
  match sql with
  | EmptyString => EmptyString
  | String c sql =>
      if Ascii.eqb c "?" then ("$" +:+ decimal (idx + 1)) +:+ number_placeholders (idx + 1) sql
      else String c (number_placeholders idx sql)
  end.
Definition normalize_sql (p : AnyPool) (sql : string) : string :=
  match pool_kind p with Postgres => number_placeholders 0 sql | _ => sql end.

Definition health_check (p : AnyPool) (d : D) : (SqlError + unit) * D :=
  match pool_execute (pool_inner p) "SELECT 1" [] d with (inl e, d) => (inl e, d) | (inr _, d) => (inr tt, d) end.
Definition execute_sql (p : AnyPool) (sql : string) (d : D) : (SqlError + Z) * D := pool_execute (pool_inner p) sql [] d.
Definition query_single_i64 (p : AnyPool) (sql : string) (d : D) : (SqlError + Z) * D := fetch_one_i64 (pool_inner p) sql d.
Definition pool_query_many_i64 (p : AnyPool) (sql : string) (d : D) : (SqlError + list Z) * D := fetch_all_i64 (pool_inner p) sql d.

(** [Model::count] *)
Definition model_count (table_name : string) (p : AnyPool) (d : D) : (SqlError + Z) * D :=
  query_single_i64 p ("SELECT COUNT(*) as count FROM " +:+ table_name) d.

Definition json_rows (r : (SqlError + list R) * D) : (SqlError + json) * D :=
  match r with (inl e, d) => (inl e, d) | (inr rows, d) => (rows_to_json rows, d) end.

Definition query_json (p : AnyPool) (sql : string) (d : D) : (SqlError + json) * D := json_rows (fetch_all (pool_inner p) sql [] d).
Definition query_with (p : AnyPool) (sql : string) (params : list Param) (d : D) : (SqlError + json) * D :=
  json_rows (fetch_all (pool_inner p) (normalize_sql p sql) (bind_param <$> params) d).
Definition query_with_params (p : AnyPool) (sql : string) (params : list json) (d : D) : (SqlError + json) * D :=
  query_with p sql (param_of <$> params) d.
Definition execute_with (p : AnyPool) (sql : string) (params : list Param) (d : D) : (SqlError + Z) * D :=
  pool_execute (pool_inner p) (normalize_sql p sql) (bind_param <$> params) d.
Definition execute_with_params (p : AnyPool) (sql : string) (params : list json) (d : D) : (SqlError + Z) * D :=
  execute_with p sql (param_of <$> params) d.

(** The loop of [query_stream]. *)
Fixpoint stream_chunks (chunk : nat) (rows : stream R D) (buf chunks : list json) : (SqlError + list json) * D :=
  match rows with
  | Broken e d => (inl e, d)
  | Ended d => (inr (match buf with [] => chunks | _ => chunks ++ [JArray buf] end)%list, d)
  | Item row stop rest =>
      match row_to_json row with
      | inl e => (inl e, stop)
      | inr v =>
          let buf := (buf ++ [v])%list in
          if (length buf =? chunk)%nat then stream_chunks chunk rest [] (chunks ++ [JArray buf])%list
          else stream_chunks chunk rest buf chunks
      end
  end.
Definition query_stream (p : AnyPool) (sql : string) (params : list Param) (chunk : nat) (d : D) : (SqlError + list json) * D :=
  stream_chunks (Nat.max chunk 1) (fetch (pool_inner p) (normalize_sql p sql) (bind_param <$> params) d) [] [].

(** ** Transactions *)

Definition begin_with (p : AnyPool) (isolation : option IsolationLevel) (d : D) : SqlError * D + Tx :=
  match tx_begin (pool_inner p) d with
  | inl e => inl e
  | inr tx =>
      match isolation with
      | Some iso =>
          if is_supported iso (pool_kind p) && match pool_kind p with Sqlite => false | _ => true end then
            match tx_execute ("SET TRANSACTION ISOLATION LEVEL " +:+ isolation_to_sql iso (pool_kind p)) tx with
            | (inl e, tx) => inl (e, tx_rollback tx)
            | (inr _, tx) => inr tx
            end
          else inr tx
      | None => inr tx
      end
  end.
Definition begin_default (p : AnyPool) (d : D) : SqlError * D + Tx := begin_with p (pool_isolation p) d.

Inductive DbAcquireError := TimedOut | AcquireClosed | AcquireOther (e : SqlError).
Definition acquire_error (e : SqlError) : DbAcquireError :=
  match e with PoolTimedOut => TimedOut | PoolClosed => AcquireClosed | e => AcquireOther e end.
Definition begin_request (p : AnyPool) (d : D) : DbAcquireError * D + Tx :=
  match tx_begin (pool_inner p) d with inl (e, d) => inl (acquire_error e, d) | inr tx => inr tx end.

(** The items of one statement: its rows and the last count. *)
Fixpoint read_items (items : stream (StmtItem R) Tx) (rows : list json) (affected : Z) : SqlError * Tx + (list json * Z * Tx) :=
  match items with
  | Broken e tx => inl (e, tx)
  | Ended tx => inr (rows, affected, tx)
  | Item (Affected n) _ rest => read_items rest rows n
  | Item (ARow row) stop rest =>
      match row_to_json row with
      | inl e => inl (e, stop)
      | inr v => read_items rest (rows ++ [v])%list affected
      end
  end.

Fixpoint run_statements (p : AnyPool) (stmts : list (string * list Param)) (last_rows : json) (total : Z) (tx : Tx)
    : SqlError * Tx + (json * Z * Tx) :=
  match stmts with
  | [] => inr (last_rows, total, tx)
  | (sql, params) :: stmts =>
      match read_items (fetch_many (normalize_sql p sql) (bind_param <$> params) tx) [] 0 with
      | inl e => inl e
      | inr (rows, affected, tx) =>
          match rows with
          | [] => run_statements p stmts JNull (wadd64 total affected) tx
          | _ => run_statements p stmts (JArray rows) total tx
          end
      end
  end.

Definition rows_affected (n : Z) : json := JObject [("rows_affected", json_int n)].

Definition transaction_with_isolation (p : AnyPool) (stmts : list (string * list Param)) (isolation : option IsolationLevel) (d : D)
    : (SqlError + json) * D :=
  match begin_with p isolation d with
  | inl (e, d) => (inl e, d)
  | inr tx =>
      match run_statements p stmts JNull 0 tx with
      | inl (e, tx) => (inl e, tx_rollback tx)
      | inr (last_rows, total, tx) =>
          match tx_commit tx with
          | (inl e, d) => (inl e, d)
          | (inr _, d) => (inr match last_rows with JNull => rows_affected total | _ => last_rows end, d)
          end
      end
  end.
Definition transaction_with (p : AnyPool) (stmts : list (string * list Param)) (d : D) : (SqlError + json) * D :=
  transaction_with_isolation p stmts (pool_isolation p) d.
Definition transaction (p : AnyPool) (stmts : list (string * list json)) (d : D) : (SqlError + json) * D :=
  transaction_with p ((λ s : string * list json, (s.1, param_of <$> s.2)) <$> stmts) d.

(** ** Inserts *)

Definition is_postgres (k : DbKind) : bool := match k with Postgres => true | _ => false end.

Definition insert_returning (p : AnyPool) (table : string) (columns : list string) (body : json) (d : D) : (SqlError + json) * D :=
  match as_object body with
  | None => (inl (column_not_found "request body must be a JSON object"), d)
  | Some obj =>
      let cvs := omap (λ c, v ← assoc_get c obj; Some (c, v)) columns in
      match cvs with
      | [] => (inl (column_not_found "no insertable columns matched the request body"), d)
      | _ =>
          let ph i := if is_postgres (pool_kind p) then "$" +:+ decimal (Z.of_nat i + 1) else "?" in
          let sql := "INSERT INTO " +:+ table +:+ " (" +:+ join ", " cvs.*1 +:+ ") VALUES ("
                     +:+ join ", " (ph <$> seq 0 (length cvs)) +:+ ") RETURNING *" in
          json_rows (fetch_all (pool_inner p) sql (bind_param ∘ param_of <$> cvs.*2) d)
      end
  end.

(** ** Pools by name *)

Abbreviation PoolManager := (gmap string AnyPool).

Definition manager_init (cwd : option string) (name : string) (c : DatabaseConfig) (m : PoolManager) (d : D)
    : (SqlError + AnyPool) * PoolManager * D :=
  match connect cwd c d with
  | (inl e, d) => (inl e, m, d)
  | (inr p, d) => (inr p, <[name := p]> m, d)
  end.
Definition manager_get (name : string) (m : PoolManager) : option AnyPool := m !! name.
Definition manager_default (m : PoolManager) : option AnyPool := manager_get "" m.

(** Pools are asked one after the other; the map says no order. *)
Fixpoint check_pools (ps : list AnyPool) (healthy : nat) (d : D) : nat * D :=
  match ps with
  | [] => (healthy, d)
  | p :: ps => match health_check p d with (inr _, d) => check_pools ps (S healthy) d | (inl _, d) => check_pools ps healthy d end
  end.
Definition health_check_all (m : PoolManager) (d : D) : nat * nat * D :=
  let '(healthy, d) := check_pools (map_to_list m).*2 0 d in (healthy, size m, d).

(** One tick of [spawn_health_checks]: the pools it warns of. *)
Fixpoint check_round (ps : list (string * AnyPool)) (d : D) : list (string * SqlError) * D :=
  match ps with
  | [] => ([], d)
  | (name, p) :: ps =>
      match health_check p d with
      | (inl e, d) => let '(ws, d) := check_round ps d in ((name, e) :: ws, d)
      | (inr _, d) => check_round ps d
      end
  end.
Definition health_check_tick (m : PoolManager) (d : D) : list (string * SqlError) * D := check_round (map_to_list m) d.

Definition manager_len (m : PoolManager) : nat := size m.
Definition manager_is_empty (m : PoolManager) : bool := (size m =? 0)%nat.

End pool.
Arguments AnyPool P : clear implicits.

(** ** Placeholders *)

(** The text around the question marks, each replaced by its number. *)
Definition numbered_sql (sql : string) : string :=
  match split "?" sql with
  | [] => ""
  | piece :: pieces => piece +:+ String.concat "" (imap (λ i s, "$" +:+ decimal (Z.of_nat i + 1) +:+ s) pieces)
  end.

Lemma split_not_nil c s : split c s ≠ [].
Proof. unfold split. destruct s; cbn [split_with]; [done|]. by repeat case_match. Qed.

Lemma number_placeholders_split idx sql :
  number_placeholders idx sql = match split "?" sql with
  | [] => ""
  | piece :: pieces => piece +:+ String.concat "" (imap (λ i s, "$" +:+ decimal (idx + Z.of_nat i + 1) +:+ s) pieces)
  end.
Proof.
  revert idx. induction sql as [|c sql IH]; intros idx; [done|].
  assert (split "?" (String c sql) = if Ascii.eqb c "?" then "" :: split "?" sql else
    match split "?" sql with [] => [String c ""] | x :: l => String c x :: l end) as ->.
  { unfold split. cbn [split_with]. rewrite (Ascii.eqb_sym c). done. }
  cbn [number_placeholders]. destruct (Ascii.eqb c "?") eqn:Hc.
  - rewrite IH. destruct (split "?" sql) as [|x l] eqn:Hs; [by destruct (split_not_nil _ _ Hs)|].
    rewrite imap_cons, concat_cons, Z.add_0_r.
    change (String.append "") with (λ s : string, s). cbn beta. rewrite !str_append_assoc. do 2 f_equal.
    apply imap_ext. intros i y _. unfold compose. replace (idx + Z.of_nat (S i) + 1)%Z with (idx + 1 + Z.of_nat i + 1)%Z by lia. done.
  - rewrite IH. destruct (split "?" sql) as [|x l]; done.
Qed.

(** ** What the driver documents *)

(** [fetch_all] collects the rows of [fetch]. *)
Fixpoint collect {R D} (rows : stream R D) : (SqlError + list R) * D :=
  match rows with
  | Ended d => (inr [], d)
  | Broken e d => (inl e, d)
  | Item x _ rest => match collect rest with (inl e, d) => (inl e, d) | (inr xs, d) => (inr (x :: xs), d) end
  end.

Inductive every_state {X S} (Q : S → Prop) : stream X S → Prop :=
| every_ended d : Q d → every_state Q (Ended d)
| every_broken e d : Q d → every_state Q (Broken e d)
| every_item x stop rest : Q stop → every_state Q rest → every_state Q (Item x stop rest).

(** [fetch_all] is [fetch] read to its end. *)
Class DriverLaws (P D Tx R : Type) `{!Driver P D Tx R} := {
  fetch_collects p sql ps d : fetch_all p sql ps d = collect (fetch p sql ps d) }.

Definition set_isolation (level : string) : string := "SET TRANSACTION ISOLATION LEVEL " +:+ level.

(** What a transaction promises.  Only the texts an engine keeps inside the transaction are
    [transactional]: no COMMIT or ROLLBACK of their own, and none of the statements that end a
    transaction by themselves, such as the data definitions of MySQL. *)
Class TxLaws (P D Tx R : Type) `{!Driver P D Tx R} := {
  transactional : string → bool;
  (** The state a transaction goes back to when it is dropped. *)
  base : Tx → D;
  begin_base p d tx : tx_begin p d = inr tx → base tx = d;
  isolation_base level tx : base (tx_execute (set_isolation level) tx).2 = base tx;
  fetch_base sql ps tx : transactional sql = true → every_state (λ tx', base tx' = base tx) (fetch_many sql ps tx);
  rollback_base tx : tx_rollback tx = base tx }.

Section laws.
Context `{!SerdeJson} `{!Base64} {P D Tx R : Type} `{!Driver P D Tx R} `{!DriverLaws P D Tx R}.

(** For PostgreSQL the statement sent is the text cut at its question marks with
    [$1], [$2], ... between the pieces, in order; for the other engines it is the text. *)
Theorem placeholders_numbered (p : AnyPool P) sql :
  normalize_sql p sql = match pool_kind p with Postgres => numbered_sql sql | _ => sql end.
Proof. unfold normalize_sql. destruct (pool_kind p); [|done..]. apply (number_placeholders_split 0). Qed.

(** ** Streams *)

(** The groups rows come in: each of [n] rows but the last, which is not empty. *)
Definition grouped {X} (n : nat) (groups : list (list X)) : Prop :=
  Forall (λ g, length g = n) (removelast groups) ∧ ∀ g, last groups = Some g → (0 < length g ≤ n)%nat.

Lemma grouped_snoc {X} n (groups : list (list X)) g :
  Forall (λ g, length g = n) groups → (0 < length g ≤ n)%nat → grouped n (groups ++ [g])%list.
Proof.
  intros Hg Hl. split; [by rewrite removelast_last|]. rewrite last_snoc. by intros ? [= <-].
Qed.

Lemma full_grouped {X} n (groups : list (list X)) : (0 < n)%nat → Forall (λ g, length g = n) groups → grouped n groups.
Proof.
  intros Hn Hg. destruct groups as [|g groups] using rev_ind; [by split; [constructor|]|].
  apply Forall_app in Hg as [Hg [Hl _]%Forall_cons_1]. apply grouped_snoc; [done|lia].
Qed.

Lemma stream_chunks_spec n (rows : stream R D) buf groups : (0 < n)%nat → (length buf < n)%nat →
  Forall (λ g, length g = n) groups →
  match collect rows with
  | (inl _, _) => ∃ e d, stream_chunks n rows buf (JArray <$> groups) = (inl e, d)
  | (inr rs, d) =>
      match rows_json rs with
      | inl _ => ∃ e d, stream_chunks n rows buf (JArray <$> groups) = (inl e, d)
      | inr vs => ∃ groups', stream_chunks n rows buf (JArray <$> groups) = (inr (JArray <$> groups'), d)
                    ∧ concat groups' = (concat groups ++ buf ++ vs)%list ∧ grouped n groups'
      end
  end.
Proof.
  intros Hn. revert buf groups. induction rows as [d|e d|row stop rest IH]; intros buf groups Hb Hg; cbn [collect stream_chunks].
  - cbn [rows_json]. destruct buf as [|b buf].
    + exists groups. split_and!; [done|by rewrite !app_nil_r|by apply full_grouped].
    + exists (groups ++ [b :: buf])%list. rewrite fmap_app, concat_app. cbn. rewrite !app_nil_r. split_and!; [done..|].
      apply grouped_snoc; [done|cbn [length] in *; lia].
  - by eexists _, _.
  - destruct (row_to_json row) as [e|v] eqn:Hv.
    { destruct (collect rest) as [[e'|rs] d]; [by eexists _, _|]. cbn [rows_json]. rewrite Hv. by eexists _, _. }
    assert ((length (buf ++ [v]) =? n)%nat = true ∧ length (buf ++ [v]) = n ∨ (length (buf ++ [v]) =? n)%nat = false ∧ (length (buf ++ [v]) < n)%nat) as Hlen.
    { rewrite length_app. cbn [length]. destruct (Nat.eqb_spec (length buf + 1) n); [left|right]; split; try done; lia. }
    destruct Hlen as [[-> Hl]|[-> Hl]].
    + specialize (IH [] (groups ++ [(buf ++ [v])%list])%list ltac:(cbn; lia) ltac:(by apply Forall_app; split; [|constructor])).
      rewrite fmap_app in IH.
      destruct (collect rest) as [[e'|rs] d]; [done|]. cbn [rows_json]. rewrite Hv. destruct (rows_json rs) as [e'|vs]; [done|].
      destruct IH as (groups' & Hs & Hc & Hgr). exists groups'. split_and!; [done| |done].
      rewrite Hc, concat_app. cbn. by rewrite app_nil_r, <- !app_assoc.
    + specialize (IH (buf ++ [v])%list groups Hl Hg).
      destruct (collect rest) as [[e'|rs] d]; [done|]. cbn [rows_json]. rewrite Hv. destruct (rows_json rs) as [e'|vs]; [done|].
      destruct IH as (groups' & Hs & Hc & Hgr). exists groups'. split_and!; [done| |done]. by rewrite Hc, <- !app_assoc.
Qed.

(** C29: [query_stream] gives the rows [query_with] gives, in the same order, cut
    into arrays of [chunk] rows (1 when [chunk] is 0), the last one shorter but never empty;
    it fails when [query_with] fails. *)
Theorem query_stream_chunks (p : AnyPool P) sql params chunk d :
  match query_with p sql params d with
  | (inr (JArray rows), d') =>
      ∃ groups, query_stream p sql params chunk d = (inr (JArray <$> groups), d')
        ∧ concat groups = rows ∧ grouped (Nat.max chunk 1) groups
  | (inr _, _) => False
  | (inl _, _) => ∃ e d', query_stream p sql params chunk d = (inl e, d')
  end.
Proof.
  unfold query_with, query_stream, json_rows, rows_to_json. rewrite fetch_collects.
  pose proof (stream_chunks_spec (Nat.max chunk 1) (fetch (pool_inner p) (normalize_sql p sql) (bind_param <$> params) d)
    [] [] ltac:(lia) ltac:(cbn; lia) ltac:(constructor)) as Hs.
  destruct (collect _) as [[e|rs] d']; [exact Hs|]. destruct (rows_json rs) as [e|vs]; [exact Hs|exact Hs].
Qed.

End laws.

(** ** Transactions *)

Section transactions.
Context `{!SerdeJson} `{!Base64} {P D Tx R : Type} `{!Driver P D Tx R} `{!TxLaws P D Tx R}.

(** A statement read to its end: its items, and the transaction after it. *)
Fixpoint items_of (items : stream (StmtItem R) Tx) : option (list (StmtItem R) * Tx) :=
  match items with
  | Ended tx => Some ([], tx)
  | Broken _ _ => None
  | Item x _ rest => match items_of rest with Some (xs, tx) => Some (x :: xs, tx) | None => None end
  end.
Definition rows_of : list (StmtItem R) → list R := omap (λ x, match x with ARow r => Some r | Affected _ => None end).
Definition counts_of : list (StmtItem R) → list Z := omap (λ x, match x with ARow _ => None | Affected n => Some n end).

(** The statements run one after the other in one transaction, each with its
    rows and the last count it reports. *)
Inductive runs (p : AnyPool P) : list (string * list Param) → Tx → list (list json * Z) → Tx → Prop :=
| runs_nil tx : runs p [] tx [] tx
| runs_cons sql ps stmts tx items tx1 rows outs tx2 :
    items_of (fetch_many (normalize_sql p sql) (bind_param <$> ps) tx) = Some (items, tx1) →
    rows_json (rows_of items) = inr rows → runs p stmts tx1 outs tx2 →
    runs p ((sql, ps) :: stmts) tx ((rows, default 0%Z (last (counts_of items))) :: outs) tx2.

(** A statement that fails: its stream breaks, or one of its rows has no JSON, and the
    transaction as it is left there. *)
Inductive fails : stream (StmtItem R) Tx → SqlError → Tx → Prop :=
| fails_broken e tx : fails (Broken e tx) e tx
| fails_row r stop rest e : row_to_json r = inl e → fails (Item (ARow r) stop rest) e stop
| fails_later x stop rest e tx :
    match x with ARow r => ∃ v, row_to_json r = inr v | Affected _ => True end →
    fails rest e tx → fails (Item x stop rest) e tx.

Definition kept_inside (p : AnyPool P) (stmts : list (string * list Param)) : Prop :=
  Forall (λ s, transactional (normalize_sql p s.1) = true) stmts.

Definition writes (outs : list (list json * Z)) : list Z := omap (λ o, match o.1 with [] => Some o.2 | _ => None end) outs.
Definition sum_list_Z (l : list Z) : Z := foldr Z.add 0%Z l.

(** The rows of the last statement if it has any, or the count of all writes. *)
Definition answer (outs : list (list json * Z)) : json :=
  match last outs with
  | Some (v :: vs, _) => JArray (v :: vs)
  | _ => rows_affected (sum_list_Z (writes outs) mod u64_modulus)
  end.

Lemma read_items_spec s rows n :
  match read_items s rows n with
  | inr (rows', n', tx) => ∃ items vs, items_of s = Some (items, tx) ∧ rows_json (rows_of items) = inr vs ∧ rows' = (rows ++ vs)%list
                             ∧ n' = default n (last (counts_of items))
  | inl (e, tx) => fails s e tx
  end.
Proof.
  revert rows n. induction s as [tx|e tx|x stop rest IH]; intros rows n; cbn [read_items].
  - exists [], []. split_and!; try done. by rewrite app_nil_r.
  - constructor.
  - destruct x as [k|r].
    + specialize (IH rows k). destruct (read_items rest rows k) as [[e tx]|[[rows' n'] tx]]; [by apply fails_later|].
      destruct IH as (items & vs & Hi & Hr & -> & ->). exists (Affected k :: items), vs. cbn [items_of]. rewrite Hi.
      split_and!; try done. change (counts_of (Affected k :: items)) with (k :: counts_of items). rewrite last_cons. by destruct (last _).
    + destruct (row_to_json r) as [e|v] eqn:Hv; [by apply fails_row|].
      specialize (IH (rows ++ [v])%list n). destruct (read_items rest _ n) as [[e tx]|[[rows' n'] tx]]; [apply fails_later; eauto|].
      destruct IH as (items & vs & Hi & Hr & -> & ->). exists (ARow r :: items), (v :: vs). cbn [items_of]. rewrite Hi.
      change (rows_of (ARow r :: items)) with (r :: rows_of items). cbn [rows_json]. rewrite Hv, Hr.
      split_and!; try done. by rewrite <- app_assoc.
Qed.

Lemma items_state (Q : Tx → Prop) s items tx : every_state Q s → items_of s = Some (items, tx) → Q tx.
Proof.
  intros HQ. revert items. induction HQ as [d Hd|e d Hd|x stop rest Hstop HQ IH]; intros items; cbn [items_of]; [by intros [= _ <-]|done|].
  destruct (items_of rest) as [[xs tx']|]; [|done]. intros [= _ <-]. by eapply IH.
Qed.

Lemma fails_state (Q : Tx → Prop) s e tx : every_state Q s → fails s e tx → Q tx.
Proof. intros HQ. induction 1 as [| |x stop rest e tx _ _ IH]; inversion HQ; subst; auto. Qed.

Lemma runs_base p stmts tx outs tx' : kept_inside p stmts → runs p stmts tx outs tx' → base tx' = base tx.
Proof.
  intros Hk. induction 1 as [tx|sql ps stmts tx items tx1 rows outs tx2 Hi Hr Hrun IH]; [done|].
  apply Forall_cons_1 in Hk as [Hs Hk]. rewrite IH by done. exact (items_state _ _ _ _ (fetch_base _ _ _ Hs) Hi).
Qed.

(** The statements that ran, the one that failed and what it left. *)
Definition failed_at (p : AnyPool P) stmts tx (e : SqlError) (tx' : Tx) before : Prop :=
  ∃ sql ps rest outs tx1, stmts = (before ++ (sql, ps) :: rest)%list ∧ runs p before tx outs tx1
    ∧ fails (fetch_many (normalize_sql p sql) (bind_param <$> ps) tx1) e tx'.

Lemma failed_base p stmts tx e tx' before : failed_at p stmts tx e tx' before →
  kept_inside p (take (S (length before)) stmts) → base tx' = base tx.
Proof.
  intros (sql & ps & rest & outs & tx1 & -> & Hr & Hf) Hk.
  rewrite cons_middle, app_assoc, take_app_le, take_ge in Hk by (rewrite length_app; cbn; lia).
  apply Forall_app in Hk as [Hk [Hs _]%Forall_cons_1]. rewrite <- (runs_base _ _ _ _ _ Hk Hr).
  exact (fails_state _ _ _ _ (fetch_base _ _ _ Hs) Hf).
Qed.

Lemma run_statements_spec p stmts last total tx : (0 ≤ total < u64_modulus)%Z →
  match run_statements p stmts last total tx with
  | inl (e, tx') => ∃ before, failed_at p stmts tx e tx' before
  | inr (last', total', tx') => ∃ outs, runs p stmts tx outs tx' ∧ total' = ((total + sum_list_Z (writes outs)) mod u64_modulus)%Z
      ∧ last' = match list.last outs with None => last | Some ([], _) => JNull | Some (rows, _) => JArray rows end
  end.
Proof.
  revert last total tx. induction stmts as [|[sql ps] stmts IH]; intros l total tx Ht; cbn [run_statements].
  { exists []. cbn. rewrite Z.add_0_r, Z.mod_small by done. split_and!; [constructor|done..]. }
  pose proof (read_items_spec (fetch_many (normalize_sql p sql) (bind_param <$> ps) tx) [] 0%Z) as Hread.
  destruct (read_items _ [] 0%Z) as [[e tx']|[[rows n] tx']].
  { exists [], sql, ps, stmts, [], tx. split_and!; [done|constructor|done]. }
  destruct Hread as (items & vs & Hi & Hr & Hrows & ->). cbn in Hrows. subst rows.
  set (n := default 0%Z (list.last (counts_of items))) in *.
  assert (∀ l' t', (0 ≤ t' < u64_modulus)%Z → l' = match vs with [] => JNull | _ => JArray vs end →
    t' = match vs with [] => wadd64 total n | _ => total end →
    match run_statements p stmts l' t' tx' with
    | inl (e, tx'') => ∃ before, failed_at p ((sql, ps) :: stmts) tx e tx'' before
    | inr (last', total', tx'') => ∃ outs, runs p ((sql, ps) :: stmts) tx outs tx''
        ∧ total' = ((total + sum_list_Z (writes outs)) mod u64_modulus)%Z
        ∧ last' = match list.last outs with None => l | Some ([], _) => JNull | Some (rows, _) => JArray rows end
    end) as Hstep.
  { intros l' t' Ht' Hl' Htt. specialize (IH l' t' tx' Ht').
    destruct (run_statements p stmts l' t' tx') as [[e tx'']|[[last' total'] tx'']].
    { destruct IH as (before & sql' & ps' & rest & outs & tx1 & -> & Hrun & Hf).
      exists ((sql, ps) :: before), sql', ps', rest, ((vs, n) :: outs), tx1. split_and!; [done|by econstructor|done]. }
    destruct IH as (outs & Hrun & -> & ->). exists ((vs, n) :: outs). split; [by econstructor|]. split.
    - unfold writes. cbn [omap list_omap]. fold (writes outs). rewrite Htt. cbn [fst snd]. destruct vs; [|done].
      unfold wadd64. rewrite Zplus_mod_idemp_l. change (sum_list_Z (n :: writes outs)) with (n + sum_list_Z (writes outs))%Z. by rewrite Z.add_assoc.
    - rewrite last_cons. destruct (list.last outs) as [[]|]; [done|]. rewrite Hl'. by destruct vs. }
  destruct vs as [|v vs]; apply Hstep; try done. unfold wadd64, u64_modulus. apply Z.mod_pos_bound. lia.
Qed.

Lemma begin_with_base (p : AnyPool P) isolation d :
  match begin_with p isolation d with
  | inl (e, d') => tx_begin (pool_inner p) d = inl (e, d') ∨ d' = d
  | inr tx => base tx = d
  end.
Proof.
  unfold begin_with. destruct (tx_begin (pool_inner p) d) as [[e d']|tx] eqn:Hb; [by left|]. apply begin_base in Hb.
  destruct isolation as [iso|]; [|done]. destruct (is_supported iso (pool_kind p) && _); [|done].
  destruct (tx_execute _ tx) as [[e|n] tx'] eqn:Hx; pose proof (f_equal snd Hx) as Hs; cbn in Hs.
  - right. by rewrite rollback_base, <- Hs, isolation_base.
  - by rewrite <- Hs, isolation_base.
Qed.

(** C7: A transaction is all or nothing. When it succeeds, every statement was run to its end in
    one transaction, in order, which was then committed, and the answer is the rows of the last
    statement if it has any, or else the sum, modulo 2^64, of the counts of the statements without
    rows. When a statement fails, those before it were run and none after it, its error is the
    answer and the transaction is rolled back, never committed; the database is then as it was
    before, provided that the statements run are ones the engine keeps inside the transaction --
    what a COMMIT among them, or a statement that commits by itself, has made permanent stays.
    The other failures are those of begin, of setting the isolation level (undone as well) and of
    the commit. *)
Theorem transaction_all_or_nothing (p : AnyPool P) stmts isolation d :
  match transaction_with_isolation p stmts isolation d with
  | (inl e, d') =>
      (begin_with p isolation d = inl (e, d') ∧ (tx_begin (pool_inner p) d = inl (e, d') ∨ d' = d))
      ∨ (∃ tx before tx', begin_with p isolation d = inr tx ∧ failed_at p stmts tx e tx' before
          ∧ d' = tx_rollback tx' ∧ (kept_inside p (take (S (length before)) stmts) → d' = d))
      ∨ ∃ tx outs tx', begin_with p isolation d = inr tx ∧ runs p stmts tx outs tx' ∧ tx_commit tx' = (inl e, d')
  | (inr v, d') =>
      ∃ tx outs tx', begin_with p isolation d = inr tx ∧ runs p stmts tx outs tx' ∧ tx_commit tx' = (inr tt, d') ∧ v = answer outs
  end.
Proof.
  unfold transaction_with_isolation. pose proof (begin_with_base p isolation d) as Hbegin.
  destruct (begin_with p isolation d) as [[e d']|tx] eqn:Hb; [by left|].
  pose proof (run_statements_spec p stmts JNull 0 tx ltac:(done)) as Hrun.
  destruct (run_statements p stmts JNull 0 tx) as [[e tx']|[[last_rows total] tx']].
  { destruct Hrun as [before Hf]. right; left. exists tx, before, tx'. split_and!; [done..|].
    intros Hk. by rewrite rollback_base, (failed_base _ _ _ _ _ _ Hf Hk). }
  destruct Hrun as (outs & Hruns & -> & ->). destruct (tx_commit tx') as [[e|[]] d'] eqn:Hc; [right; right; by eauto 8|].
  exists tx, outs, tx'. split_and!; [done..|]. unfold answer. destruct (last outs) as [[[|v vs] n]|]; done.
Qed.
End transactions.

(** ** The CRUD handlers on a pool *)

Lemma plain_unchanged idx s : plain true s → number_placeholders idx s = s.
Proof.
  revert idx. induction s as [|c s IH]; intros idx; [done|]. unfold plain. cbn [str_all number_placeholders]. intros [Hc Hs]%andb_prop.
  destruct (Ascii.eqb_spec c "?"%char) as [->|]; [done|]. by rewrite IH.
Qed.

Section crud.
Context `{!SerdeJson} `{!JsonSchema} `{!Base64} {P D Tx R : Type} `{!Driver P D Tx R}.

Lemma normalize_plain (p : AnyPool P) sql : plain (is_postgres (pool_kind p)) sql → normalize_sql p sql = sql.
Proof. unfold normalize_sql. destruct (pool_kind p); [apply plain_unchanged|done..]. Qed.

(** C24: What a CRUD route sends to the database engine: for a route whose names pass
    validation, the driver gets the statement of the plan unchanged, and every value of the request
    only as a bound parameter; its rows, or its error, make the response. *)
Theorem crud_reaches_driver (p : AnyPool P) spec path_params query b validator sql params d :
  crud_validate spec = inr tt →
  crud_plan (is_postgres (pool_kind p)) spec path_params query b validator = inr (sql, params) →
  crud_dispatch_bytes (is_postgres (pool_kind p)) (query_with_params p) spec path_params query b validator d
  = match json_rows (fetch_all (pool_inner p) sql (bind_param ∘ param_of <$> params) d) with
    | (inr rows, d') => (crud_answer (crud_op spec) rows, d')
    | (inl e, d') => (db_error_response e, d')
    end.
Proof.
  intros Hv Hplan. destruct (crud_plan_own _ _ _ _ _ _ _ _ Hv Hplan) as [_ Hplain].
  unfold crud_dispatch_bytes. rewrite Hplan. unfold query_with_params, query_with.
  by rewrite normalize_plain, <- list_fmap_compose.
Qed.

Lemma insert_statement (p : AnyPool P) cols :
  ((λ i, if is_postgres (pool_kind p) then "$" +:+ decimal (Z.of_nat i + 1) else "?") <$> seq 0 (length cols))
  = imap (λ i (_ : string), ph (is_postgres (pool_kind p)) (1 + i)) cols.
Proof.
  apply list_eq. intros i. rewrite list_lookup_fmap, list_lookup_imap. unfold ph.
  destruct (cols !! i) eqn:Hi.
  - rewrite lookup_seq_lt by by eapply lookup_lt_Some. cbn. by replace (Z.of_nat i + 1)%Z with (Z.of_nat (S i)) by lia.
  - by rewrite lookup_seq_ge by by apply lookup_ge_None.
Qed.

(** [insert_returning] runs the statement of an insert route. *)
Lemma insert_returning_spec (p : AnyPool P) table columns obj d :
  is_valid_sql_identifier table = true → Forall (λ c, is_valid_sql_identifier c = true) columns →
  insert_returning p table columns (JObject obj) d
  = match present columns obj with
    | [] => (inl (column_not_found "no insertable columns matched the request body"), d)
    | cvs => query_with_params p (insert_sql (is_postgres (pool_kind p)) table cvs.*1) cvs.*2 d
    end.
Proof.
  intros Ht Hc. unfold insert_returning. cbn [as_object]. fold (present columns obj).
  destruct (present_columns columns obj) as [Hsub Hlen]. set (cvs := present columns obj) in *.
  assert (Forall (λ c, is_valid_sql_identifier c = true) cvs.*1) as Hcols.
  { rewrite Forall_forall in *. intros c Hin. apply Hc. by eapply elem_of_sublist. }
  clearbody cvs. destruct cvs as [|cv cvs]; [done|].
  pose proof (plain_insert (is_postgres (pool_kind p)) table (cv :: cvs).*1 Ht Hcols) as Hplain. unfold query_with_params, query_with.
  rewrite normalize_plain, !list_fmap_compose by done. unfold insert_sql. by rewrite <- insert_statement, length_fmap.
Qed.
End crud.

(** Bytes of a column come back as the bytes that were bound. *)
Lemma bytes_round_trip `{!SerdeJson} `{!Base64} s : b64_decode (b64_encode s) = Some s →
  bind_param (param_of (JObject [("$bytes", JString (b64_encode s))])) = BindBytes s.
Proof.
  intros Hs. unfold param_of. change (json_get _ _ ≫= as_str) with (Some (b64_encode s)).
  cbn match. by rewrite Hs.
Qed.

(** ** A small driver *)

Module Examples.

#[local] Instance no_serde : SerdeJson := {| json_to_string _ := "{}" |}.
#[local] Instance no_base64 : Base64 := {| b64_encode s := s; b64_decode s := Some s |}.
#[local] Instance schema : JsonSchema := {|
  Validator := unit; build _ _ := inr tt; iter_errors _ _ := [];
  from_json s := inr (JObject [("name", JString s)]) |}.

(** One table of texts and the statements it got: ["BAD"] fails, ["SELECT"] reads it, ["COMMIT"] keeps what
    was done so far for good, anything else adds its parameters, and a statement ["... RETURNING *"] gives them back. *)
Definition world : Type := list string * list string.
Definition texts (ps : list Bound) : list string := omap (λ b, match b with BindText s => Some s | _ => None end) ps.
Definition after (sql : string) (ps : list Bound) (d : world) : world :=
  ((if starts_with "SELECT" sql then d.1 else (d.1 ++ texts ps)%list), (d.2 ++ [sql])%list).
Definition answers (sql : string) (ps : list Bound) (d : world) : list string :=
  if starts_with "SELECT" sql then d.1 else if contains "RETURNING" sql then texts ps else [].
Definition broken (sql : string) : bool := starts_with "BAD" sql.
Definition to_stream {X S} (xs : list X) (d : S) : stream X S := foldr (λ x rest, Item x d rest) (Ended d) xs.

#[local] Instance table : Driver unit world (world * world) string := {|
  pool_connect _ _ d := (inr tt, d); path_exists _ _ := false; create_dir_all _ d := d; create_file _ d := d;
  fetch_all _ sql ps d := collect (if broken sql then Broken (OtherError "bad") d else to_stream (answers sql ps d) (after sql ps d));
  fetch _ sql ps d := if broken sql then Broken (OtherError "bad") d else to_stream (answers sql ps d) (after sql ps d);
  pool_execute _ sql ps d := if broken sql then (inl (OtherError "bad"), d) else (inr (Z.of_nat (length (texts ps))), after sql ps d);
  fetch_one_i64 _ _ d := (inr 0%Z, d); fetch_all_i64 _ _ d := (inr [], d);
  tx_begin _ d := inr (d, d);
  tx_execute sql tx := (inr 0%Z, (tx.1, after sql [] tx.2));
  fetch_many sql ps tx :=
    if broken sql then Broken (OtherError "bad") tx
    else let tx' := (if starts_with "COMMIT" sql then tx.2 else tx.1, after sql ps tx.2) in
         to_stream ((ARow <$> answers sql ps tx.2) ++ [Affected (Z.of_nat (length (texts ps)))])%list tx';
  tx_commit tx := (inr tt, tx.2); tx_rollback tx := tx.1;
  row_columns _ := ["v"];
  try_get_bool _ _ := None; try_get_i32 _ _ := None; try_get_i64 _ _ := None; try_get_f64 _ _ := None; try_get_bytes _ _ := None;
  try_get_string r _ := inr (Some r); f64_text _ := "0"; column_not_found := OtherError |}.

Lemma to_stream_states {X S} (Q : S → Prop) (xs : list X) d : Q d → every_state Q (to_stream xs d).
Proof. intros Hd. unfold to_stream. induction xs as [|x xs IH]; cbn [foldr]; by constructor. Qed.

#[local] Instance table_laws : DriverLaws unit world (world * world) string := {| fetch_collects _ _ _ _ := eq_refl |}.

#[local] Instance table_tx_laws : TxLaws unit world (world * world) string.
Proof.
  refine {| transactional sql := negb (starts_with "COMMIT" sql); base := fst : world * world → world |}; try done.
  - by intros [] d tx [= <-].
  - intros sql ps tx Hc%negb_true_iff. cbn. destruct (broken sql); [by constructor|]. apply to_stream_states. by rewrite Hc.
Defined.

Definition pool (k : DbKind) : AnyPool unit := mk_pool tt k None None.

Lemma query_stream_chunks_witness :
  ∃ groups, query_stream (pool Sqlite) "SELECT v" [] 2 (["a"; "b"; "c"], []) = (inr (JArray <$> groups), (["a"; "b"; "c"], ["SELECT v"]))
    ∧ grouped 2 groups ∧ length groups = 2%nat.
Proof.
  pose proof (query_stream_chunks (pool Sqlite) "SELECT v" [] 2 (["a"; "b"; "c"], [])) as Hq.
  vm_compute in Hq. destruct Hq as (groups & Heq & _ & Hg). exists groups. split_and!; [exact Heq|exact Hg|].
  injection Heq as Heq. apply (f_equal length) in Heq. rewrite <- (length_fmap JArray groups). symmetry. exact Heq.
Defined.

(** The second statement fails: the first is undone. *)
Definition inserts (bad : string) : list (string * list Param) := [("INSERT ?", [ParamText "x"]); (bad, [])].

Example undone : transaction_with (pool Postgres) (inserts "BAD") (["a"], []) = (inl (OtherError "bad"), (["a"], [])).
Proof. reflexivity. Qed.
Example done_both :
  transaction_with (pool Postgres) (inserts "SELECT v") (["a"], [])
  = (inr (JArray [JObject [("v", JString "a")]; JObject [("v", JString "x")]]), (["a"; "x"], ["INSERT $1"; "SELECT v"])).
Proof. reflexivity. Qed.

(** A COMMIT among the statements: what came before it stays. *)
Example committed_by_hand :
  (transaction_with (pool Postgres) (("INSERT ?", [ParamText "x"]) :: ("COMMIT", []) :: inserts "BAD") (["a"], [])).2
  = (["a"; "x"], ["INSERT $1"]).
Proof. reflexivity. Qed.

Lemma transaction_all_or_nothing_witness : (transaction_with (pool Postgres) (inserts "BAD") (["a"], [])).2 = (["a"], []).
Proof.
  pose proof (transaction_all_or_nothing (pool Postgres) (inserts "BAD") None (["a"], [])) as Ht.
  unfold transaction_with. change (pool_isolation (pool Postgres)) with (@None IsolationLevel).
  destruct (transaction_with_isolation (pool Postgres) (inserts "BAD") None (["a"], [])) as [[e|v] d'] eqn:Hr.
  - destruct Ht as [[Hb _]|[(tx & before & tx' & _ & _ & _ & Ht)|(tx & outs & tx' & _ & _ & Hc)]]; [discriminate Hb| |discriminate Hc].
    apply Ht. apply Forall_take. by repeat constructor.
  - vm_compute in Hr. discriminate Hr.
Defined.

Definition users (op : CrudOp) : CrudSpec := mk_crud op "users" ["name"] "id".

Lemma crud_reaches_driver_witness :
  crud_dispatch_bytes true (query_with_params (pool Postgres)) (users Insert) [] "" "x'; DROP TABLE users" None ([], [])
  = (crud_answer Insert (JArray [JObject [("v", JString "x'; DROP TABLE users")]]),
     (["x'; DROP TABLE users"], ["INSERT INTO users (name) VALUES ($1) RETURNING *"])).
Proof.
  exact (crud_reaches_driver (pool Postgres) (users Insert) [] "" "x'; DROP TABLE users" None
    "INSERT INTO users (name) VALUES ($1) RETURNING *" [JString "x'; DROP TABLE users"] ([], []) eq_refl eq_refl).
Defined.

(** A question mark in a text or in an operator is numbered too. *)
Example quoted_mark : normalize_sql (pool Postgres) "SELECT '?' WHERE a = ?" = "SELECT '$1' WHERE a = $2".
Proof. reflexivity. Qed.

(** The names of the columns are part of the statement: without a list of the allowed ones, they come from the
    keys of the data. *)
Example keys_injected :
  (insert_returning (pool Sqlite) "t" ["a) SELECT 1; --"] (JObject [("a) SELECT 1; --", JString "x")]) ([], [])).2
  = (["x"], ["INSERT INTO t (a) SELECT 1; --) VALUES (?) RETURNING *"]).
Proof. reflexivity. Qed.

(** The default pragmas are sent without [PRAGMA]; what they answer is ignored. *)
Example pragmas_bare :
  o_after_connect (pool_options db_config_default) = None
  ∧ o_after_connect (pool_options (db_config "sqlite://a.db" 2 Sqlite None))
    = Some ["PRAGMA busy_timeout=5000"; "journal_mode=WAL"; "synchronous=NORMAL"].
Proof. done. Qed.

(** A name with three slashes is a file of the root, never of the current directory. *)
Example three_slashes :
  normalize_db_url (Some "/home/u") <$> ["sqlite:///shop.db"; "sqlite://shop.db"; "sqlite:////tmp/a.db"; "sqlite://./a.db"; "sqlite://:memory:"]
  = ["sqlite:/shop.db"; "sqlite:/home/u/shop.db"; "sqlite:/tmp/a.db"; "sqlite:./a.db"; "sqlite::memory:"].
Proof. reflexivity. Qed.

(** The isolation level of the pool is not used for the transaction of a request. *)
Example request_isolation :
  let p := mk_pool tt Postgres (Some Serializable) None in
  begin_default p ([], []) = inr (([], []), ([], ["SET TRANSACTION ISOLATION LEVEL SERIALIZABLE"]))
  ∧ begin_request p ([], []) = inr (([], []), ([], [])).
Proof. done. Qed.

(** A last query without rows is answered like a write. *)
Example empty_query : (transaction_with (pool Sqlite) [("SELECT v", [])] ([], [])).1 = inr (rows_affected 0).
Proof. reflexivity. Qed.

End Examples.
