(* ===== verification/DbBridge.v ===== *)
(** * DbBridge: databases for Python

    [crates/justapi-py/src/database.rs] and the database of
    [native/app.rs]: the configuration and its dict, connecting, values to and
    from JSON, and the methods of the pool handle. A Python float is its text,
    as in [NativeHandler]; [float_of] is the float of an integer that has one.
    The runtime finishes the tasks it is given, so a blocking call gives the
    result of its future; the [async] methods run the same futures. *)

From Stdlib Require Import Ascii SpecFloat.
From S2P Require Import Prelude F32 Text F64 Http Validate Migrations Crud Database NativeHandler.

#[local] Open Scope string_scope.

(** ** Configuration *)

Record PyDatabase := mk_py_database {
  pd_url : string; pd_max_connections : Z; pd_init_sql : option string; pd_pragmas : option (list string);
  pd_acquire_timeout : option string; pd_request_acquire_timeout : string; pd_idle_timeout : option string;
  pd_max_lifetime : option string; pd_health_check_interval : option string; pd_isolation : option string }.

(** [Database::new] *)
Definition py_database_new (url : string) (max : Z) : PyDatabase :=
  mk_py_database url max None None (Some "30.0") "3.0" None (Some "1800.0") None None.

Definition database_repr (db : PyDatabase) : string := "Database(url=" +:+ pd_url db +:+ ")".

Definition py_option {X} (f : X → pyval) (v : option X) : pyval := match v with Some x => f x | None => PNone end.

Definition config_dict (db : PyDatabase) : pyval :=
  PDict ((λ kv : string * pyval, (PStr kv.1, kv.2)) <$>
    [("url", PStr (pd_url db)); ("max_connections", PInt (pd_max_connections db)); ("init_sql", py_option PStr (pd_init_sql db));
     ("pragmas", py_option (λ l, PList (PStr <$> l)) (pd_pragmas db)); ("acquire_timeout", py_option PFloat (pd_acquire_timeout db));
     ("request_acquire_timeout", PFloat (pd_request_acquire_timeout db)); ("idle_timeout", py_option PFloat (pd_idle_timeout db));
     ("max_lifetime", py_option PFloat (pd_max_lifetime db));
     ("health_check_interval", py_option PFloat (pd_health_check_interval db)); ("isolation", py_option PStr (pd_isolation db))]).

(** [Duration::from_secs_f64]; it panics for a negative number, a NaN and what does not fit. *)
Definition from_secs_f64 (x : f64) : option Z :=
  match x with
  | S754_zero _ => Some 0%Z
  | S754_finite false m e =>
      let ns := round_half_even (Zpos m * 10 ^ 9 * 2 ^ Z.max 0 e) (2 ^ Z.max 0 (- e)) in
      if (ns <? 2 ^ 64 * 10 ^ 9)%Z then Some ns else None
  | _ => None
  end.
Definition duration (t : string) : option Z := parse_f64 t ≫= from_secs_f64.

Definition drop_chars (f : ascii → bool) (s : string) : string :=
  String.string_of_list_ascii (List.filter (λ c, negb (f c)) (String.list_ascii_of_string s)).
Definition parse_isolation (s : string) : option IsolationLevel :=
  let s := drop_chars (λ c, Ascii.eqb c "-" || Ascii.eqb c "_") (lowercase s) in
  if String.eqb s "readuncommitted" then Some ReadUncommitted
  else if String.eqb s "readcommitted" then Some ReadCommitted
  else if String.eqb s "repeatableread" then Some RepeatableRead
  else if String.eqb s "serializable" then Some Serializable
  else if String.eqb s "snapshot" then Some Snapshot
  else None.

Definition optional {X Y} (f : X → option Y) (v : option X) : option (option Y) :=
  match v with None => Some None | Some x => Some <$> f x end.

(** [None] when a timeout panics. *)
Definition to_config (db : PyDatabase) : option DatabaseConfig :=
  acquire ← optional duration (pd_acquire_timeout db);
  request ← duration (pd_request_acquire_timeout db);
  idle ← optional duration (pd_idle_timeout db);
  lifetime ← optional duration (pd_max_lifetime db);
  health ← optional duration (pd_health_check_interval db);
  Some (mk_db_config (pd_url db) (pd_max_connections db) None (pd_init_sql db) (pd_pragmas db) acquire (Some request) idle lifetime
          health (pd_isolation db ≫= parse_isolation)).

Section bridge.
Context `{!PyPure} (float_of : Z → option string).

(** ** [extract] *)

Definition extract_u32 (v : pyval) : option Z :=
  match v with
  | PInt n => if (0 <=? n)%Z && (n <=? 2 ^ 32 - 1)%Z then Some n else None
  | PBool b => Some (if b then 1 else 0)%Z
  | _ => None
  end.
Definition extract_f64 (v : pyval) : option string :=
  match v with
  | PFloat t => Some t
  | PInt n => float_of n
  | PBool b => Some (if b then "1.0" else "0.0")
  | _ => None
  end.
Definition extract_strings (v : pyval) : option (list string) :=
  match v with PList l | PTuple l => extract_all extract_string l | _ => None end.
Definition extract_option {X} (f : pyval → option X) (v : pyval) : option (option X) :=
  match v with PNone => Some None | v => Some <$> f v end.

Inductive DatabaseRefused := NotDatabase | BadItem (name : string).

(** [cfg.get_item(name)?.extract()?] *)
Definition item {X} (cfg : pyval) (name : string) (f : pyval → option X) : DatabaseRefused + X :=
  match py_get_item name cfg ≫= f with Some x => inr x | None => inl (BadItem name) end.

Definition set_database (db : pyval) : DatabaseRefused + PyDatabase :=
  match db with
  | PStr url => inr (py_database_new url 10)
  | PDict _ =>
      match item db "url" extract_string with inl e => inl e | inr url =>
      match item db "max_connections" extract_u32 with inl e => inl e | inr max =>
      match item db "init_sql" (extract_option extract_string) with inl e => inl e | inr init =>
      match item db "pragmas" (extract_option extract_strings) with inl e => inl e | inr ps =>
      match item db "acquire_timeout" (extract_option extract_f64) with inl e => inl e | inr acquire =>
      match item db "request_acquire_timeout" extract_f64 with inl e => inl e | inr request =>
      match item db "idle_timeout" (extract_option extract_f64) with inl e => inl e | inr idle =>
      match item db "max_lifetime" (extract_option extract_f64) with inl e => inl e | inr lifetime =>
      match item db "health_check_interval" (extract_option extract_f64) with inl e => inl e | inr health =>
      match item db "isolation" (extract_option extract_string) with inl e => inl e | inr isolation =>
        inr (mk_py_database url max init ps acquire request idle lifetime health isolation)
      end end end end end end end end end end
  | _ => inl NotDatabase
  end.

(** ** Values *)

Fixpoint json_to_python (v : json) : pyval :=
  match v with
  | JNull => PNone
  | JBool b => PBool b
  | JNumber (IntNumber n) => PInt n
  | JNumber (FloatNumber t) => PFloat t
  | JString s => PStr s
  | JArray a => PList (json_to_python <$> a)
  | JObject o => PDict ((λ kv : string * json, (PStr kv.1, json_to_python kv.2)) <$> o)
  end.

(** [Value::from] of a float: a number, unless it is not finite. *)
Definition float_value (t : string) : json :=
  if existsb (String.eqb t) ["inf"; "-inf"; "nan"] then JNull else JNumber (FloatNumber t).

Definition in_i64 (n : Z) : bool := (- 2 ^ 63 <=? n)%Z && (n <=? 2 ^ 63 - 1)%Z.

(** The wire form of a [DbParam]. *)
Context (db_param : pyval → option json).

(** [None] when it raises. *)
Fixpoint python_to_json (v : pyval) : option json :=
  match v with
  | PNone => Some JNull
  | PBool b => Some (JBool b)
  | PInt n =>
      if in_i64 n then Some (json_int n)
      else match float_of n with Some t => Some (float_value t) | None => JString <$> py_str v end
  | PFloat t => Some (float_value t)
  | PStr s => Some (JString s)
  | PList l =>
      JArray <$> (fix go (l : list pyval) : option (list json) :=
                    match l with [] => Some [] | x :: l => j ← python_to_json x; js ← go l; Some (j :: js) end) l
  | PDict es =>
      JObject <$> (fix go (es : list (pyval * pyval)) (out : list (string * json)) : option (list (string * json)) :=
                     match es with
                     | [] => Some out
                     | (k, x) :: es => key ← extract_string k; j ← python_to_json x; go es (assoc_set key j out)
                     end) es []
  | _ => match db_param v with Some w => Some w | None => JString <$> py_str v end
  end.

(** [params.map(python_to_json)] *)
Fixpoint values_json (vs : list pyval) : option (list json) :=
  match vs with [] => Some [] | v :: vs => j ← python_to_json v; js ← values_json vs; Some (j :: js) end.
Definition params_json (params : option (list pyval)) : option (list json) :=
  match params with Some ps => values_json ps | None => Some [] end.

(** [DbParam.bytes] *)
Definition db_param_bytes `{!Base64} (data : string) : json := JObject [("$bytes", JString (b64_encode data))].

(** ** The handle of the pool *)

Section handle.
Context `{!SerdeJson} `{!Base64} {P D Tx R : Type} `{!Driver P D Tx R}.
(** [Display] of an error. *)
Context (sql_text : SqlError → string).

(** What a call raises: while it reads its arguments, or a [RuntimeError]. *)
Inductive DbRaised := BadArgument | RuntimeError (msg : string).

Definition run_blocking {T} (r : (SqlError + T) * D) : (DbRaised + T) * D :=
  match r with (inl e, d) => (inl (RuntimeError (sql_text e)), d) | (inr v, d) => (inr v, d) end.
Definition answer_py {T} (f : T → pyval) (r : (DbRaised + T) * D) : (DbRaised + pyval) * D :=
  match r with (inl e, d) => (inl e, d) | (inr v, d) => (inr (f v), d) end.

Definition db_query (p : AnyPool P) (sql : string) (params : option (list pyval)) (d : D) : (DbRaised + pyval) * D :=
  match params_json params with
  | None => (inl BadArgument, d)
  | Some js => answer_py json_to_python (run_blocking (query_with_params p sql js d))
  end.
Definition db_execute (p : AnyPool P) (sql : string) (params : option (list pyval)) (d : D) : (DbRaised + pyval) * D :=
  match params_json params with
  | None => (inl BadArgument, d)
  | Some js => answer_py PInt (run_blocking (execute_with_params p sql js d))
  end.

Fixpoint stmts_json (stmts : list (string * option (list pyval))) : option (list (string * list json)) :=
  match stmts with
  | [] => Some []
  | (sql, ps) :: stmts => js ← params_json ps; rest ← stmts_json stmts; Some ((sql, js) :: rest)
  end.
Definition db_transaction (p : AnyPool P) (stmts : list (string * option (list pyval))) (isolation : option string) (d : D)
    : (DbRaised + pyval) * D :=
  match stmts_json stmts with
  | None => (inl BadArgument, d)
  | Some js =>
      answer_py json_to_python (run_blocking
        match isolation ≫= parse_isolation with
        | Some level => transaction_with_isolation p ((λ s : string * list json, (s.1, param_of <$> s.2)) <$> js) (Some level) d
        | None => transaction p js d
        end)
  end.
Definition db_query_stream (p : AnyPool P) (sql : string) (params : option (list pyval)) (chunk : nat) (d : D) : (DbRaised + pyval) * D :=
  match params_json params with
  | None => (inl BadArgument, d)
  | Some js => answer_py (λ chunks, json_to_python (JArray chunks)) (run_blocking (query_stream p sql (param_of <$> js) chunk d))
  end.
Definition db_insert (p : AnyPool P) (table : string) (data : pyval) (columns : option (list string)) (d : D) : (DbRaised + pyval) * D :=
  match python_to_json data with
  | None => (inl BadArgument, d)
  | Some j =>
      let cols := default match as_object j with Some o => o.*1 | None => [] end columns in
      answer_py json_to_python (run_blocking (insert_returning p table cols j d))
  end.
(** The error is wrapped once more, with the name of its class. *)
Definition db_health (p : AnyPool P) (d : D) : (DbRaised + pyval) * D :=
  match run_blocking (health_check p d) with
  | (inl (RuntimeError msg), d) => (inl (RuntimeError ("RuntimeError: " +:+ msg)), d)
  | (inl e, d) => (inl e, d)
  | (inr _, d) => (inr (PBool true), d)
  end.

(** ** Connecting *)

(** The statements of [init_sql]. *)
Definition init_statements (sql : string) : list string := List.filter (λ s, negb (String.eqb s "")) (trim <$> split ";" sql).

Fixpoint run_init (p : AnyPool P) (stmts : list string) (d : D) : option SqlError * D :=
  match stmts with
  | [] => (None, d)
  | s :: stmts => match execute_sql p s d with (inl e, d) => (Some e, d) | (inr _, d) => run_init p stmts d end
  end.

(** The pool of the app, and the interval of its health checks. *)
Record AppDb := mk_app_db { app_database : option PyDatabase; app_pool : option (AnyPool P); app_watch : option Z }.

Inductive connected := IsConnected | NoDatabase | ConnectError (msg : string) | BadTimeout.

Definition connect_database (cwd : option string) (app : AppDb) (d : D) : connected * AppDb * D :=
  match app_pool app with
  | Some _ => (IsConnected, app, d)
  | None =>
      match app_database app with
      | None => (NoDatabase, app, d)
      | Some db =>
          match to_config db with
          | None => (BadTimeout, app, d)
          | Some config =>
              match manager_init cwd "" config ∅ d with
              | (inl e, _, d) => (ConnectError (sql_text e), app, d)
              | (inr p, _, d) =>
                  match run_init p (default [] (init_statements <$> init_sql config)) d with
                  | (Some e, d) => (ConnectError (sql_text e), app, d)
                  | (None, d) => (IsConnected, mk_app_db (app_database app) (Some p) (health_check_interval config), d)
                  end
              end
          end
      end
  end.
End handle.
End bridge.

(** ** Round trips *)

(** The JSON values Python can hold as they are: integers of 64 bits, finite floats, objects without
    a key twice. *)
Fixpoint portable (v : json) : bool :=
  match v with
  | JNumber (IntNumber n) => in_i64 n
  | JNumber (FloatNumber t) => negb (existsb (String.eqb t) ["inf"; "-inf"; "nan"])
  | JArray l => forallb portable l
  | JObject o => bool_decide (NoDup o.*1) && forallb (λ kv : string * json, portable kv.2) o
  | _ => true
  end.

(** A JSON value made a Python value and read back is itself, when its
    integers fit in 64 bits, its floats are finite and its objects have no key twice: rows can be given back as parameters. *)
Theorem python_json_round_trip `{!PyPure} float_of db_param v :
  portable v = true → python_to_json float_of db_param (json_to_python v) = Some v.
Proof.
  induction v as [|b|[n|t]|s|l IH|o IH] using json_ind; cbn [portable json_to_python python_to_json]; intros Hp; try done.
  - by rewrite Hp.
  - unfold float_value. apply negb_true_iff in Hp. by rewrite Hp.
  - set (go := fix go (l : list pyval) : option (list json) := _).
    enough (go (json_to_python <$> l) = Some l) as -> by done.
    induction IH as [|x l Hx _ IHl]; [done|]. cbn [forallb] in Hp. apply andb_prop in Hp as [Hpx Hpl].
    rewrite fmap_cons. cbn. rewrite (Hx Hpx). cbn. fold go. by rewrite (IHl Hpl).
  - set (go := fix go (es : list (pyval * pyval)) (out : list (string * json)) : option (list (string * json)) := _).
    apply andb_prop in Hp as [Hnd%bool_decide_eq_true Hp].
    assert (∀ out : list (string * json), NoDup (out ++ o)%list.*1 →
      go ((λ kv : string * json, (PStr kv.1, json_to_python kv.2)) <$> o) out = Some (out ++ o)%list) as Hgo.
    { clear Hnd. induction IH as [|[k x] o Hx _ IHo]; intros out Hnd; [by rewrite app_nil_r|].
      cbn [forallb] in Hp. apply andb_prop in Hp as [Hpx Hpo]. cbn in Hpx, Hx. rewrite fmap_cons. cbn. rewrite (Hx Hpx). cbn. fold go.
      rewrite assoc_set_new.
      - rewrite (IHo Hpo); [by rewrite <- app_assoc|]. by rewrite <- app_assoc.
      - rewrite fmap_app, fmap_cons in Hnd. apply NoDup_app in Hnd as (_ & Hd & _). apply assoc_get_None. intros Hk. apply (Hd _ Hk). by left. }
    by rewrite (Hgo [] Hnd).
Qed.

Lemma extract_texts l : extract_all extract_string (PStr <$> l) = Some l.
Proof. induction l as [|s l IH]; [done|]. cbn. by rewrite IH. Qed.

(** The dict of a configuration gives the configuration back. *)
Lemma config_round_trip float_of db :
  (0 ≤ pd_max_connections db ≤ 2 ^ 32 - 1)%Z → set_database float_of (config_dict db) = inr db.
Proof.
  intros Hmax. destruct db as [url max init ps acquire request idle life health iso]. cbn in Hmax.
  assert (extract_u32 (PInt max) = Some max) as Hu.
  { unfold extract_u32. by destruct (Z.leb_spec 0 max), (Z.leb_spec max (2 ^ 32 - 1)); try lia. }
  unfold set_database, config_dict, item. destruct ps as [l|]; cbn -[extract_u32]; rewrite ?Hu; cbn;
    rewrite ?extract_texts; by destruct init, acquire, idle, life, health, iso.
Qed.

(** Connecting succeeds once: what fails leaves the app as it was, and an app
    that is connected stays as it is. *)
Lemma connect_database_once `{!SerdeJson} {P D Tx R : Type} `{!Driver P D Tx R} sql_text cwd app d :
  match connect_database sql_text cwd app d with
  | (IsConnected, app', d') => is_Some (app_pool app') ∧ connect_database sql_text cwd app' d' = (IsConnected, app', d')
  | (_, app', _) => app' = app
  end.
Proof.
  unfold connect_database. destruct (app_pool app) as [p|] eqn:Hp; [by rewrite Hp|].
  destruct (app_database app) as [db|]; [|done]. destruct (to_config db) as [config|]; [|done].
  destruct (manager_init _ _ _ _ _) as [[[e|p] m] d1]; [done|]. destruct (run_init _ _ _) as [[e|] d2]; [done|]. cbn. by split.
Qed.

Module Examples.

#[local] Instance pure : PyPure := {|
  fast_dumps _ := None; dumped_json _ := None; py_str _ := Some "<object>"; pump_stream _ := ""; pump_validated_stream _ _ _ := "" |}.
Definition float_of (n : Z) : option string := if (Z.abs n <? 2 ^ 1024)%Z then Some (decimal n +:+ ".0") else None.

Definition row : json := JObject [("id", json_int (-7)); ("tags", JArray [JNull; JString "a"; JNumber (FloatNumber "2.5")])].

Lemma python_json_round_trip_witness :
  portable row = true ∧ python_to_json float_of (λ _, None) (json_to_python row) = Some row.
Proof. split; [reflexivity|]. exact (python_json_round_trip float_of (λ _, None) row eq_refl). Defined.

(** An unsigned integer beyond 63 bits goes to Python as an [int] and comes back as a float. *)
Example unsigned_becomes_float :
  python_to_json float_of (λ _, None) (json_to_python (json_int (2 ^ 63))) = Some (JNumber (FloatNumber "9223372036854775808.0")).
Proof. reflexivity. Qed.

(** A tuple and bytes go as the text Python prints. *)
Example tuple_becomes_text : python_to_json float_of (λ _, None) (PTuple [PInt 1]) = Some (JString "<object>").
Proof. reflexivity. Qed.

Definition with_timeout (t : string) : PyDatabase := mk_py_database "sqlite://a.db" 10 None None (Some t) "3.0" None None None None.

(** A timeout below zero panics when the app connects; a quarter of a second is exact. *)
Example negative_timeout : to_config (with_timeout "-1.0") = None ∧ (acquire_timeout <$> to_config (with_timeout "0.25")) = Some (Some 250000000%Z).
Proof. vm_compute. done. Qed.

(** An interval of zero does not disable the health checks: a loop is started with it. *)
Example zero_interval :
  (health_check_interval <$> to_config (mk_py_database "sqlite://a.db" 10 None None None "3.0" None None (Some "0.0") None)) = Some (Some 0%Z).
Proof. vm_compute. done. Qed.

(** A semicolon ends a statement wherever it is. *)
Example semicolon_in_text : init_statements "INSERT INTO t VALUES ('a;b');" = ["INSERT INTO t VALUES ('a"; "b')"].
Proof. reflexivity. Qed.

Example isolation_names :
  parse_isolation <$> ["Read-Committed"; "REPEATABLE_READ"; "serialisable"] = [Some ReadCommitted; Some RepeatableRead; None].
Proof. reflexivity. Qed.

End Examples.
