(* ===== verification/WebSockets.v ===== *)
(** * WebSockets: the sessions of an upgraded connection

    [crates/justapi-core/src/server/ws.rs], [dispatch_ws], the bridge
    [native/app.rs] puts between a connection and its Python handler, and
    [crates/justapi-py/src/websocket.rs].  The stream of frames is what
    tokio-tungstenite yields; [accepts] says which frames its sink takes.  A
    session runs as a sequence of events: the reading task meets an item of the
    stream, the writing task takes a message, the handler calls a method, the
    object is dropped.  A call that has to wait is no event yet. *)

From S2P Require Import Prelude Text Http NativeHandler Requests.

#[local] Open Scope string_scope.

(** ** Frames *)

Inductive Message :=
| Text (s : string) | Binary (s : string) | Ping (s : string) | Pong (s : string)
| Close (frame : option (Z * string)).

(** What the stream yields; the content of an error is not used. *)
Inductive Item := Ok (m : Message) | Err.

Record WsConnInfo := mk_info {
  i_path : string; i_query_string : string; i_headers : list (string * string); i_client : option (string * Z) }.

(** The description of an upgraded request. *)
Definition ws_info (peer : option (string * Z)) (req : Http.Request) : WsConnInfo :=
  mk_info (req_path req) (default "" (req_query req)) (req_headers req) peer.

(** The frames on the wire, and whether the sink is closed. *)
Record Sink := mk_sink { wire : list Message; closed : bool }.

Section sink.
Context (accepts : Sink → Message → bool).

Definition write_send (m : Message) (w : Sink) : bool * Sink :=
  if accepts w m then (true, mk_sink (wire w ++ [m])%list (closed w)) else (false, w).
Definition write_close (w : Sink) : Sink := mk_sink (wire w) true.

(** ** The default handler *)

Fixpoint echo (read : list Item) (w : Sink) : Sink :=
  match read with
  | [] => w
  | Ok (Text _ as m) :: read' | Ok (Binary _ as m) :: read' =>
      match write_send m w with (true, w) => echo read' w | (false, w) => w end
  | Ok (Ping p) :: read' => echo read' (write_send (Pong p) w).2
  | Ok (Close _) :: _ | Err :: _ => (write_send (Close None) w).2
  | Ok (Pong _) :: read' => echo read' w
  end.

Definition default_ws_echo (info : WsConnInfo) (read : list Item) (w : Sink) : (string + unit) * Sink :=
  (inr tt, write_close (echo read w)).

(** [dispatch_ws]: an error of the handler is logged. *)
Definition dispatch_ws (handler : WsConnInfo → list Item → Sink → (string + unit) * Sink) (info : WsConnInfo)
    (read : list Item) (w : Sink) : Sink := (handler info read w).2.

(** ** The Python object *)

Inductive WsMessage := WText (s : string) | WBytes (s : string) | WClose (code : option Z) (reason : option string).

Definition WS_STATE_CONNECTING : Z := 0.
Definition WS_STATE_CONNECTED : Z := 1.
Definition WS_STATE_DISCONNECTED : Z := 2.
Definition WS_STATE_RESPONSE : Z := 3.

Record WebSocket := mk_websocket {
  ws_conn : Conn; client_state : Z; application_state : Z; subprotocol : option string }.

Definition websocket_new (conn : Conn) : WebSocket :=
  mk_websocket conn WS_STATE_CONNECTING WS_STATE_CONNECTING None.

Definition set_states (st : Z) (w : WebSocket) : WebSocket :=
  mk_websocket (ws_conn w) st st (subprotocol w).
Definition set_subprotocol (sp : string) (w : WebSocket) : WebSocket :=
  mk_websocket (ws_conn w) (client_state w) (application_state w) (Some sp).

(** The connection as the handler sees it. *)
Definition ws_url (w : WebSocket) : URL := url_of (ws_conn w).
Definition ws_base_url (w : WebSocket) : URL := base_url_of (ws_conn w).
Definition ws_headers (w : WebSocket) : Headers := headers_raw (ws_conn w).
Definition ws_query_params (w : WebSocket) : QueryParams := build_query_params (ws_conn w).
Definition ws_path_params (w : WebSocket) : pyval := path_params (ws_conn w).
Definition ws_cookies (w : WebSocket) : pydict := build_cookies (ws_conn w).
Definition ws_client (w : WebSocket) : option (string * Z) := c_client (ws_conn w).

Definition ws_url_for (call : pyval → string → gmap string string → string + string) (name : string)
    (kwargs : gmap string string) (w : WebSocket) : string + string :=
  match c_app (ws_conn w) with
  | Some app => call app name kwargs
  | None => inl "websocket.url_for requires an app with named routes"
  end.

Definition ws_repr : string := "WebSocket()".

(** ** A session *)

(** [reading] and [writing] say that the tasks of the bridge run: they hold the
    other ends of the two channels.  [holding] says that Python has the object. *)
Record Session := mk_session {
  reading : bool; in_queue : list WsMessage;
  holding : bool; websocket : WebSocket;
  writing : bool; out_queue : list WsMessage; sink : Sink }.

Definition set_in (r : bool) (q : list WsMessage) (s : Session) : Session :=
  mk_session r q (holding s) (websocket s) (writing s) (out_queue s) (sink s).
Definition set_out (wr : bool) (q : list WsMessage) (w : Sink) (s : Session) : Session :=
  mk_session (reading s) (in_queue s) (holding s) (websocket s) wr q w.
Definition set_object (w : WebSocket) (s : Session) : Session :=
  mk_session (reading s) (in_queue s) (holding s) w (writing s) (out_queue s) (sink s).

(** *** The reading task *)

Definition in_send (m : WsMessage) (s : Session) : Session :=
  if holding s then set_in (reading s) (in_queue s ++ [m])%list s else s.

Definition stop_reading (s : Session) : Session := set_in false (in_queue s) s.

(** [None] is the end of the stream. *)
Definition on_item (item : option Item) (s : Session) : Session :=
  match item with
  | Some (Ok (Text t)) => in_send (WText t) s
  | Some (Ok (Binary b)) => in_send (WBytes b) s
  | Some (Ok (Close _)) | Some Err => stop_reading (in_send (WClose None None) s)
  | Some (Ok _) => s
  | None => stop_reading s
  end.

(** *** The writing task *)

Definition frame_of (m : WsMessage) : Message :=
  match m with
  | WText t => Text t
  | WBytes b => Binary b
  | WClose code reason => Close ((λ c, (c, default "" reason)) <$> code)
  end.

Definition is_close (m : WsMessage) : bool := match m with WClose _ _ => true | _ => false end.

(** One turn of its loop; it waits when the queue is empty and Python may still send. *)
Definition on_write (s : Session) : option Session :=
  if writing s then
    match out_queue s with
    | m :: q =>
        let '(sent, w) := write_send (frame_of m) (sink s) in
        Some (if negb sent || is_close m then set_out false [] (write_close w) s else set_out true q w s)
    | [] => if holding s then None else Some (set_out false [] (write_close (sink s)) s)
    end
  else None.

(** *** The methods *)

Inductive Raised := EOFError | ConnectionError | JsonError (e : string).
Definition answer : Type := Raised + pyval.

Section python.
Context (loads : string → string + pyval).

Inductive Kind := Receive | ReceiveText | ReceiveBytes | ReceiveJson (mode : string).

(** What a receiving method makes of the message it takes. *)
Definition received (k : Kind) (m : option WsMessage) : answer :=
  match k, m with
  | Receive, Some (WText t) => inr (PStr t)
  | Receive, Some (WBytes b) => inr (PStr (from_utf8_lossy b))
  | Receive, _ => inr PNone
  | ReceiveText, Some (WText t) => inr (PStr t)
  | ReceiveText, Some (WBytes b) => inr (PStr (from_utf8_lossy b))
  | ReceiveBytes, Some (WText t) => inr (PBytes t)
  | ReceiveBytes, Some (WBytes b) => inr (PBytes b)
  | ReceiveJson _, Some (WText t) => match loads t with inl e => inl (JsonError e) | inr v => inr v end
  | ReceiveJson _, Some (WBytes b) => match loads (from_utf8_lossy b) with inl e => inl (JsonError e) | inr v => inr v end
  | _, _ => inl EOFError
  end.

(** [None]: the call waits for a message. *)
Definition recv (k : Kind) (s : Session) : option (answer * Session) :=
  match in_queue s with
  | m :: q => Some (received k (Some m), set_in (reading s) q s)
  | [] => if reading s then None else Some (received k None, s)
  end.

Definition out_send (m : WsMessage) (s : Session) : answer * Session :=
  if writing s then (inr PNone, set_out true (out_queue s ++ [m])%list (sink s) s) else (inl ConnectionError, s).

(** [text] is what [json.dumps] gives. *)
Definition json_message (text mode : string) : WsMessage :=
  if String.eqb mode "binary" then WBytes text else WText text.

Inductive Call :=
| Accept (sp : option string) (hs : option pyval)
| Recv (k : Kind)
| SendText (t : string) | SendBytes (b : string) | SendJson (text mode : string)
| CloseWith (code : option Z) (reason : option string).

(** The headers are not used. *)
Definition accept (sp : option string) (hs : option pyval) (s : Session) : answer * Session :=
  let w := match sp with Some sp => set_subprotocol sp (websocket s) | None => websocket s end in
  (inr PNone, set_object (set_states WS_STATE_CONNECTED w) s).

(** A message that cannot be sent any more is dropped silently. *)
Definition close (code : option Z) (reason : option string) (s : Session) : answer * Session :=
  let s := set_object (set_states WS_STATE_DISCONNECTED (websocket s)) s in
  (inr PNone, (out_send (WClose code reason) s).2).

(** [send] is [send_bytes]. *)
Definition call (c : Call) (s : Session) : option (answer * Session) :=
  if holding s then
    match c with
    | Accept sp hs => Some (accept sp hs s)
    | Recv k => recv k s
    | SendText t => Some (out_send (WText t) s)
    | SendBytes b => Some (out_send (WBytes b) s)
    | SendJson text mode => Some (out_send (json_message text mode) s)
    | CloseWith code reason => Some (close code reason s)
    end
  else None.

(** Python drops the object: the receiver goes with its queue, the sender too. *)
Definition release (s : Session) : Session :=
  mk_session (reading s) [] false (websocket s) (writing s) (out_queue s) (sink s).

(** ** Events *)

Inductive Event := Arrives (item : option Item) | Writes | Calls (c : Call) (a : answer) | Dropped.

Inductive step : Session → Event → Session → Prop :=
| step_arrives s item : reading s = true → step s (Arrives item) (on_item item s)
| step_writes s s' : on_write s = Some s' → step s Writes s'
| step_calls s c a s' : call c s = Some (a, s') → step s (Calls c a) s'
| step_dropped s : holding s = true → step s Dropped (release s).

(** A run, with its events in order. *)
Inductive runs (s0 : Session) : list Event → Session → Prop :=
| runs_nil : runs s0 [] s0
| runs_step es s e s' : runs s0 es s → step s e s' → runs s0 (es ++ [e])%list s'.

(** The same run computed; the answers of the calls are filled in. *)
Definition perform (e : Event) (s : Session) : option (Event * Session) :=
  match e with
  | Arrives item => if reading s then Some (e, on_item item s) else None
  | Writes => (e,.) <$> on_write s
  | Calls c _ => (λ r, (Calls c r.1, r.2)) <$> call c s
  | Dropped => if holding s then Some (e, release s) else None
  end.
Fixpoint perform_all (done es : list Event) (s : Session) : option (list Event * Session) :=
  match es with
  | [] => Some (done, s)
  | e :: es' => '(e, s) ← perform e s; perform_all (done ++ [e])%list es' s
  end.

(** ** The bridge *)

(** The handler of a path gets the connection; without one both channels are
    dropped at once, as when the handler cannot be called. *)
Definition ws_conn_of (app : option pyval) (info : WsConnInfo) : Conn :=
  mk_conn "GET" (i_path info) [] (i_query_string info) (i_headers info) "ws" (i_client info) app "1.1" [].

Definition start {A} (routes : gmap string A) (wrap : A → bool) (app : option pyval) (info : WsConnInfo) : Session :=
  let s := mk_session true [] true (websocket_new (ws_conn_of app info)) true [] (mk_sink [] false) in
  match routes !! i_path info with
  | Some h => if wrap h then s else release s
  | None => release s
  end.

(** ** What a run shows *)

Definition message_of (item : option Item) : list WsMessage :=
  match item with
  | Some (Ok (Text t)) => [WText t]
  | Some (Ok (Binary b)) => [WBytes b]
  | Some (Ok (Close _)) | Some Err => [WClose None None]
  | _ => []
  end.
Definition inbound : list Event → list WsMessage :=
  flat_map (λ e, match e with Arrives item => message_of item | _ => [] end).
Definition kinds : list Event → list Kind := omap (λ e, match e with Calls (Recv k) _ => Some k | _ => None end).
Definition answers : list Event → list answer := omap (λ e, match e with Calls (Recv _) a => Some a | _ => None end).

Definition message_sent (c : Call) : option WsMessage :=
  match c with
  | SendText t => Some (WText t)
  | SendBytes b => Some (WBytes b)
  | SendJson text mode => Some (json_message text mode)
  | CloseWith code reason => Some (WClose code reason)
  | _ => None
  end.
(** The messages of the sending calls that raised nothing. *)
Definition outbound : list Event → list WsMessage :=
  omap (λ e, match e with Calls c (inr _) => message_sent c | _ => None end).

Fixpoint until_close (l : list WsMessage) : list WsMessage :=
  match l with [] => [] | m :: l' => m :: if is_close m then [] else until_close l' end.

(** The state the last [accept] or [close] left. *)
Definition lifecycle : list Event → Z :=
  foldl (λ st e, match e with Calls (Accept _ _) _ => WS_STATE_CONNECTED | Calls (CloseWith _ _) _ => WS_STATE_DISCONNECTED | _ => st end)
    WS_STATE_CONNECTING.

(** ** Runs *)

Lemma perform_step e s e' s' : perform e s = Some (e', s') → step s e' s'.
Proof.
  destruct e as [item| |c a|]; simpl.
  - destruct (reading s) eqn:Hr; [|done]. intros [= <- <-]. by constructor.
  - destruct (on_write s) as [t|] eqn:Hw; [|done]. intros [= <- <-]. by constructor.
  - destruct (call c s) as [[x t]|] eqn:Hc; [|done]. intros [= <- <-]. by constructor.
  - destruct (holding s) eqn:Hh; [|done]. intros [= <- <-]. by constructor.
Qed.

Lemma perform_all_runs s0 es done s tr s' :
  runs s0 done s → perform_all done es s = Some (tr, s') → runs s0 tr s'.
Proof.
  revert done s. induction es as [|e es IH]; intros done s Hr; simpl; [by intros [= <- <-]|].
  destruct (perform e s) as [[e' t]|] eqn:Hp; [|done]. simpl. intros Ha.
  apply perform_step in Hp. by eapply IH; [eapply runs_step|].
Qed.

(** ** The frames in *)

Lemma inbound_snoc es e : inbound (es ++ [e]) = (inbound es ++ inbound [e])%list.
Proof. apply flat_map_app. Qed.
Lemma kinds_snoc es e : kinds (es ++ [e]) = (kinds es ++ kinds [e])%list.
Proof. apply omap_app. Qed.
Lemma answers_snoc es e : answers (es ++ [e]) = (answers es ++ answers [e])%list.
Proof. apply omap_app. Qed.
Lemma outbound_snoc es e : outbound (es ++ [e]) = (outbound es ++ outbound [e])%list.
Proof. apply omap_app. Qed.

(** What the calls of the handler leave alone. *)
Lemma call_reads c s a s' :
  call c s = Some (a, s') → (∀ k, c ≠ Recv k) → in_queue s' = in_queue s ∧ reading s' = reading s ∧ holding s' = holding s.
Proof.
  intros Hc Hk. unfold call in Hc. destruct (holding s) eqn:Hh; [|done].
  destruct c as [sp hs|k|t|b|text mode|code reason]; try by destruct (Hk k).
  all: revert Hc; unfold accept, close, out_send; try destruct (writing _) eqn:?; intros [= <- <-]; by rewrite ?Hh.
Qed.

Lemma on_item_in item s :
  in_queue (on_item item s) = (in_queue s ++ if holding s then message_of item else [])%list ∧
  holding (on_item item s) = holding s.
Proof.
  destruct item as [[[t|b|p|p|f]|]|]; simpl; unfold in_send; destruct (holding s) eqn:Hh; simpl; by rewrite ?app_nil_r.
Qed.

Lemma on_write_in s s' :
  on_write s = Some s' → in_queue s' = in_queue s ∧ reading s' = reading s ∧ holding s' = holding s ∧ websocket s' = websocket s.
Proof.
  unfold on_write. destruct (writing s); [|done]. destruct (out_queue s) as [|m q].
  - destruct (holding s) eqn:Hh; [done|]. intros [= <-]. by rewrite <-Hh.
  - destruct (write_send _ _) as [sent w]. intros [= <-]. by destruct (negb sent || is_close m).
Qed.

Section session.
Context (conn : Conn).

Definition fresh : Session := mk_session true [] true (websocket_new conn) true [] (mk_sink [] false).

Lemma inbound_invariant es s :
  runs fresh es s →
  (holding s = true → in_queue s = drop (length (kinds es)) (inbound es)) ∧
  (reading s = true → (length (kinds es) ≤ length (inbound es))%nat) ∧
  answers es = imap (λ i k, received k (inbound es !! i)) (kinds es).
Proof.
  induction 1 as [|es s e s' _ (Hq & Hle & Ha) Hs]; [done|].
  assert (∀ e, kinds [e] = [] → answers [e] = [] →
    (reading s = true ∨ inbound [e] = []) →
    answers (es ++ [e]) = imap (λ i k, received k (inbound (es ++ [e]) !! i)) (kinds (es ++ [e]))) as Hother.
  { clear Hs e. intros e Hk Ha' He. rewrite kinds_snoc, answers_snoc, inbound_snoc, Hk, Ha', !app_nil_r, Ha.
    destruct He as [Hr|He]; [|by rewrite He, app_nil_r]. apply imap_ext. intros i k Hi. simpl.
    rewrite lookup_app_l; [done|]. specialize (Hle Hr). apply lookup_lt_Some in Hi. lia. }
  destruct Hs as [s item Hr|s s' Hw|s c a s' Hc|s Hh].
  - split_and!; [|intros _|by apply Hother; [..|left]]; rewrite kinds_snoc, inbound_snoc; simpl; rewrite ?app_nil_r.
    + destruct (on_item_in item s) as [-> ->]. intros Hh. rewrite Hh, (Hq Hh), drop_app_le by (by apply Hle). done.
    + rewrite length_app. specialize (Hle Hr). lia.
  - destruct (on_write_in _ _ Hw) as (-> & -> & -> & _).
    split_and!; [| |by apply Hother; [..|right]]; rewrite kinds_snoc, inbound_snoc; simpl; rewrite !app_nil_r; done.
  - destruct c as [sp hs|k|t|b|text mode|code reason].
    2: { clear Hother. unfold call in Hc. destruct (holding s) eqn:Hh; [|done]. specialize (Hq eq_refl). unfold recv in Hc.
      rewrite kinds_snoc, answers_snoc, inbound_snoc. simpl. rewrite app_nil_r, length_app, imap_app, Ha. simpl.
      rewrite Nat.add_0_r. destruct (in_queue s) as [|m q] eqn:Hin.
      - destruct (reading s) eqn:Hr; [done|]. injection Hc as <- <-.
        assert (length (inbound es) ≤ length (kinds es))%nat as Hl by (by apply skipn_all_iff).
        rewrite Hin, Hr. split_and!; [|done|by rewrite lookup_ge_None_2].
        intros _. symmetry. apply skipn_all2. lia.
      - injection Hc as <- <-. simpl.
        assert (inbound es !! length (kinds es) = Some m) as Hm.
        { rewrite <-(Nat.add_0_r (length (kinds es))), <-lookup_drop, <-Hq. done. }
        split_and!; [intros _|intros Hr|by rewrite Hm].
        + rewrite Nat.add_1_r, <-(Nat.add_1_r (length _)), <-drop_drop, <-Hq. done.
        + apply lookup_lt_Some in Hm. lia. }
    all: apply call_reads in Hc as (-> & -> & ->); [|done];
      (split_and!; [| |by apply Hother; [..|right]]); rewrite kinds_snoc, inbound_snoc; simpl; rewrite !app_nil_r; done.
  - split_and!; [done| |by apply Hother; [..|right]]. rewrite kinds_snoc, inbound_snoc. simpl. by rewrite !app_nil_r.
Qed.

(** ** The frames out *)

Abbreviation has_close := (existsb is_close).

Lemma until_close_open l k : has_close l = false → until_close (l ++ k) = (l ++ until_close k)%list.
Proof. induction l as [|m l IH]; simpl; [done|]. destruct (is_close m); simpl; [done|]. intros Hl. by rewrite IH. Qed.

Lemma until_close_closed l k : has_close l = true → until_close (l ++ k) = until_close l.
Proof. induction l as [|m l IH]; simpl; [done|]. destruct (is_close m); simpl; [done|]. intros Hl. by rewrite IH. Qed.

Lemma until_close_prefix l k : until_close l `prefix_of` until_close (l ++ k).
Proof.
  destruct (has_close l) eqn:Hl; [by rewrite until_close_closed|].
  rewrite <-(app_nil_r l) at 1. rewrite !until_close_open by done. simpl. rewrite app_nil_r. by apply prefix_app_r.
Qed.

Definition writer_invariant (es : list Event) (s : Session) : Prop :=
  ∃ done, wire (sink s) = frame_of <$> done ∧
    if writing s then outbound es = (done ++ out_queue s)%list ∧ has_close done = false ∧ closed (sink s) = false
    else done `prefix_of` until_close (outbound es) ∧ closed (sink s) = true ∧
      ((∀ w m, accepts w m = true) → done = until_close (outbound es) ∧ (has_close (outbound es) = true ∨ holding s = false)).

(** What a call does to the frames that go out. *)
Lemma call_writes c s a s' :
  call c s = Some (a, s') →
  holding s = true ∧ sink s' = sink s ∧ writing s' = writing s ∧ holding s' = true ∧
  (writing s = true → out_queue s' = (out_queue s ++ outbound [Calls c a])%list).
Proof.
  unfold call. destruct (holding s) eqn:Hh; [|done]. unfold outbound.
  destruct c as [sp hs|k|t|b|text mode|code reason].
  2: { unfold recv. destruct (in_queue s) as [|m q]; [destruct (reading s); [done|]|]; intros [= <- <-]; simpl;
       by destruct (received _ _); rewrite ?app_nil_r. }
  all: unfold accept, close, out_send; simpl; destruct (writing s) eqn:Hw; intros [= <- <-]; simpl; rewrite ?app_nil_r; done.
Qed.

Lemma writer_turn es s s' : writer_invariant es s → on_write s = Some s' → writer_invariant (es ++ [Writes]) s'.
Proof.
  intros (sent & Hwire & Hi) Hw. unfold writer_invariant. rewrite outbound_snoc. simpl. rewrite app_nil_r.
  unfold on_write in Hw. destruct (writing s); [|done]. destruct Hi as (Ho & Hc & Hcl).
  destruct (out_queue s) as [|m q].
  - destruct (holding s) eqn:Hh; [done|]. injection Hw as <-. exists sent. split; [done|]. simpl. rewrite Hh.
    rewrite app_nil_r in Ho. rewrite Ho, <-(app_nil_r sent) at 1. rewrite Ho.
    rewrite <-(app_nil_r sent), (until_close_open _ _ Hc). simpl. rewrite !app_nil_r. auto.
  - unfold write_send in Hw. destruct (accepts (sink s) (frame_of m)) eqn:Hacc.
    + assert (wire (sink s) ++ [frame_of m] = frame_of <$> (sent ++ [m]))%list as Hwire' by (by rewrite Hwire, fmap_app).
      destruct (is_close m) eqn:Hm; injection Hw as <-; exists (sent ++ [m])%list; simpl; (split; [done|]).
      * assert (until_close (outbound es) = sent ++ [m])%list as ->.
        { rewrite Ho, until_close_open by done. simpl. by rewrite Hm. }
        split_and!; [done..|]. intros _. split; [done|]. left. rewrite Ho, existsb_app. simpl. by rewrite Hm, orb_true_r.
      * rewrite Ho, <-app_assoc, existsb_app, Hc. simpl. by rewrite Hm.
    + injection Hw as <-. exists sent. simpl. split_and!; [done|..|done|by intros Hall; rewrite Hall in Hacc].
      rewrite Ho, until_close_open by done. by apply prefix_app_r.
Qed.

Lemma writer_holds es s : runs fresh es s → writer_invariant es s.
Proof.
  induction 1 as [|es s e s' _ (sent & Hwire & Hi) Hs]; [by exists []|].
  destruct Hs as [s item Hr|s s' Hw|s c a s' Hc|s Hh].
  - exists sent. rewrite outbound_snoc. simpl. rewrite app_nil_r.
    assert (sink (on_item item s) = sink s ∧ writing (on_item item s) = writing s ∧ out_queue (on_item item s) = out_queue s ∧
      holding (on_item item s) = holding s) as (-> & -> & -> & ->); [|done].
    destruct item as [[[t|b|p|p|f]|]|]; simpl; unfold in_send; by destruct (holding s) eqn:Hh; simpl; rewrite ?Hh.
  - apply (writer_turn es s); [by exists sent|done].
  - apply call_writes in Hc as (Hh & Hsk & Hwr & Hh' & Ho). exists sent. rewrite outbound_snoc, Hsk, Hwr, Hh'. split; [done|].
    destruct (writing s).
    + destruct Hi as (Hi & ? & ?). by rewrite Ho, Hi, app_assoc.
    + destruct Hi as (Hp & Hcl & Hall). split_and!; [by etrans; [|apply until_close_prefix]|done|].
      intros [-> [Hcl'|Hno]]%Hall; [|congruence]. by rewrite until_close_closed, existsb_app, Hcl'; auto.
  - exists sent. rewrite outbound_snoc. simpl. rewrite app_nil_r. split; [done|]. destruct (writing s); [done|].
    destruct Hi as (Hp & Hcl & Hall). split_and!; [done..|]. intros [? _]%Hall. auto.
Qed.

(** C21: In every run of a session the handler gets the data frames of the peer
    in the order they came, each once and turned into what the method it called
    gives, and after the last one only the end; what is on the wire are the
    messages its sending calls accepted, in their order and none of them after
    a close frame, and when the sink takes everything and the writing task is
    over, all of them up to the first close. *)
Theorem websocket_in_order es s :
  runs fresh es s →
  answers es = imap (λ i k, received k (inbound es !! i)) (kinds es) ∧
  (∃ sent, wire (sink s) = frame_of <$> sent ∧ sent `prefix_of` until_close (outbound es)) ∧
  ((∀ w m, accepts w m = true) → writing s = false → wire (sink s) = frame_of <$> until_close (outbound es)).
Proof.
  intros Hr. destruct (inbound_invariant es s Hr) as (_ & _ & Ha). split; [done|].
  destruct (writer_holds es s Hr) as (sent & Hw & Hi). destruct (writing s).
  - destruct Hi as (Ho & Hc & _). split; [|done]. exists sent. split; [done|].
    rewrite Ho, until_close_open by done. by apply prefix_app_r.
  - destruct Hi as (Hp & _ & Hall). split; [by exists sent|]. intros Hacc _. destruct (Hall Hacc) as [<- _]. done.
Qed.

Fixpoint turns (n : nat) (s : Session) : Session :=
  match n with O => s | S n' => default s (turns n' <$> on_write s) end.

Lemma turns_over n s : writing s = false → turns n s = s.
Proof. intros Hw. destruct n; [done|]. simpl. unfold on_write. by rewrite Hw. Qed.

(** The writing task ends, with the sink closed, once a close is queued or
    Python has dropped the object: it needs no more turns than there are
    messages, and one. *)
Theorem writer_finishes s :
  writing s = true → (has_close (out_queue s) = true ∨ holding s = false) →
  let s' := turns (S (length (out_queue s))) s in writing s' = false ∧ closed (sink s') = true.
Proof.
  cbv zeta. remember (out_queue s) as q eqn:Hq. revert s Hq.
  induction q as [|m q IH]; intros s Hq Hw Hend; cbn [length].
  - destruct Hend as [|Hh]; [done|]. simpl. unfold on_write. rewrite Hw, <-Hq, Hh. done.
  - change (turns (S (S (length q))) s) with (default s (turns (S (length q)) <$> on_write s)).
    unfold on_write. rewrite Hw, <-Hq. destruct (write_send _ _) as [sent w]. cbn [default fmap option_fmap option_map].
    destruct (negb sent || is_close m) eqn:Hb.
    + by rewrite turns_over.
    + apply orb_false_iff in Hb as [_ Hm].
      apply (IH (set_out true q w s)); [done..|]. simpl in Hend. by rewrite Hm in Hend.
Qed.

(** The two states always agree: they are what the last call of accept or
    close left, whatever the peer does, and never RESPONSE. *)
Theorem lifecycle_is_the_callers es s :
  runs fresh es s →
  client_state (websocket s) = lifecycle es ∧ application_state (websocket s) = lifecycle es ∧ lifecycle es ≠ WS_STATE_RESPONSE.
Proof.
  induction 1 as [|es s e s' _ (Hc & Ha & Hn) Hs]; [done|].
  unfold lifecycle. rewrite foldl_app. fold (lifecycle es). simpl.
  destruct Hs as [s item Hr|s s' Hw|s c a s' Hcall|s Hh]; [| | |done].
  - assert (websocket (on_item item s) = websocket s) as ->; [|done].
    destruct item as [[[t|b|p|p|f]|]|]; simpl; unfold in_send; by destruct (holding s).
  - by destruct (on_write_in _ _ Hw) as (_ & _ & _ & ->).
  - unfold call in Hcall. destruct (holding s); [|done].
    destruct c as [sp hs|k|t|b|text mode|code reason].
    2: { revert Hcall. unfold recv. destruct (in_queue s) as [|m q]; [destruct (reading s); [done|]|]; intros [= <- <-]; done. }
    all: revert Hcall; unfold accept, close, out_send; simpl; destruct (writing s); intros [= <- <-]; simpl; try done;
      by destruct sp.
Qed.

(** Once the stream has ended, by a close, an error or its end, no receiving
    call waits: it gives what is left and then None or EOFError, for ever. *)
Theorem receive_never_waits k s :
  reading s = false → holding s = true →
  ∃ a s', call (Recv k) s = Some (a, s') ∧ a = received k (head (in_queue s)) ∧ reading s' = false ∧
    in_queue s' = tail (in_queue s).
Proof.
  intros Hr Hh. simpl. unfold call, recv. rewrite Hh. destruct (in_queue s) as [|m q] eqn:Hq; eexists _, _.
  - rewrite Hr. by rewrite Hq.
  - simpl. rewrite Hr. done.
Qed.

End session.
End python.

(** ** The default handler *)

(** The items up to the one that ends the session. *)
Fixpoint until_end (read : list Item) : list Item :=
  match read with
  | [] => []
  | (Ok (Close _) | Err) as i :: _ => [i]
  | i :: read' => i :: until_end read'
  end.
Definition reply (i : Item) : option Message :=
  match i with
  | Ok (Text s) => Some (Text s)
  | Ok (Binary s) => Some (Binary s)
  | Ok (Ping s) => Some (Pong s)
  | Ok (Pong _) => None
  | Ok (Close _) | Err => Some (Close None)
  end.

(** The default handler answers every data frame with itself and every ping
    with its pong, in order, up to the close or the error that ends the session,
    which it answers with an empty close; it always closes the sink and never
    fails. *)
Theorem echo_replies info read :
  (∀ w m, accepts w m = true) →
  dispatch_ws default_ws_echo info read (mk_sink [] false) = mk_sink (omap reply (until_end read)) true ∧
  (default_ws_echo info read (mk_sink [] false)).1 = inr tt.
Proof.
  intros Hall. split; [|done]. unfold dispatch_ws, default_ws_echo, write_close. simpl.
  assert (∀ w, wire (echo read w) = (wire w ++ omap reply (until_end read))%list) as He; [|by rewrite He].
  induction read as [|i read IH]; intros w; simpl; [by rewrite app_nil_r|].
  destruct i as [[t|b|p|p|f]|]; simpl; unfold write_send; rewrite ?Hall; simpl; try done.
  all: rewrite IH; simpl; by rewrite <-?app_assoc.
Qed.
End sink.

(** ** Examples *)

Module Examples.
Definition takes_all (w : Sink) (m : Message) : bool := true.
Definition loads_text (t : string) : string + pyval := inr (PStr t).
Definition info (path : string) : WsConnInfo := mk_info path "" [("host", "h")] None.
Definition routes : gmap string nat := {["/ws" := 0%nat; "/ws/{id}" := 1%nat]}.
Definition s0 : Session := start routes (λ _, true) None (info "/ws").
Definition call_ (c : Call) : Event := Calls c (inr PNone).
Definition go (es : list Event) : option (list Event * Session) := perform_all takes_all loads_text [] es s0.
Definition trace (es : list Event) : list Event := default [] (fst <$> go es).
Definition final (es : list Event) : Session := default s0 (snd <$> go es).
Definition frames (es : list Event) : list Message := wire (sink (final es)).

(** A session that accepts, greets, reads two frames, closes and is dropped. *)
Definition session : list Event :=
  [call_ (Accept (Some "chat") None); call_ (SendText "hello"); Arrives (Some (Ok (Text "a"))); Writes;
   Arrives (Some (Ok (Ping "p"))); Arrives (Some (Ok (Binary "b"))); call_ (Recv ReceiveText); call_ (Recv ReceiveBytes);
   call_ (SendJson "{}" "binary"); Arrives (Some Err); call_ (Recv ReceiveText); call_ (Recv Receive);
   call_ (CloseWith (Some 1000%Z) None); call_ (SendText "late"); Writes; Writes].

Lemma session_runs : runs takes_all loads_text s0 (trace session) (final session).
Proof. apply (perform_all_runs takes_all loads_text s0 session [] s0); [constructor|vm_compute; reflexivity]. Qed.

Definition conn : Conn := ws_conn_of None (info "/ws").

Lemma websocket_in_order_witness :
  answers (trace session) = [inr (PStr "a"); inr (PBytes "b"); inl EOFError; inr PNone] ∧
  frames session = [Text "hello"; Binary "{}"; Close (Some (1000%Z, ""))].
Proof.
  destruct (websocket_in_order takes_all loads_text conn (trace session) (final session) session_runs) as (Ha & _ & Hw).
  split; [rewrite Ha; vm_compute; reflexivity|].
  change (wire (sink (final session)) = [Text "hello"; Binary "{}"; Close (Some (1000%Z, ""))]).
  rewrite (Hw (λ _ _, eq_refl) ltac:(vm_compute; reflexivity)). vm_compute. reflexivity.
Defined.

Definition dropped : Session := final [call_ (SendText "a"); call_ (SendText "b"); Dropped].
Lemma writer_finishes_witness :
  let s' := turns takes_all 3 dropped in writing s' = false ∧ closed (sink s') = true.
Proof. apply (writer_finishes takes_all dropped); [|right]; vm_compute; reflexivity. Defined.

Lemma lifecycle_is_the_callers_witness :
  client_state (websocket (final session)) = WS_STATE_DISCONNECTED ∧ lifecycle (trace session) ≠ WS_STATE_RESPONSE.
Proof.
  destruct (lifecycle_is_the_callers takes_all loads_text conn (trace session) (final session) session_runs) as (Hc & _ & Hn).
  split; [rewrite Hc; vm_compute; reflexivity|exact Hn].
Defined.

Definition ended : Session := final [Arrives (Some (Ok (Text "a"))); Arrives (Some (Ok (Close None)))].
Lemma receive_never_waits_witness :
  ∃ a s', call loads_text (Recv ReceiveText) ended = Some (a, s') ∧ a = inr (PStr "a") ∧ reading s' = false ∧
    in_queue s' = [WClose None None].
Proof. apply (receive_never_waits loads_text ReceiveText ended); vm_compute; reflexivity. Defined.

Lemma echo_replies_witness :
  dispatch_ws (default_ws_echo takes_all) (info "/") [Ok (Text "a"); Ok (Ping "p"); Ok (Pong "q"); Ok (Close (Some (1000%Z, "bye"))); Ok (Text "b")]
    (mk_sink [] false) = mk_sink [Text "a"; Pong "p"; Close None] true.
Proof. rewrite (proj1 (echo_replies takes_all _ _ (λ _ _, eq_refl))). vm_compute. reflexivity. Defined.

(** A path without a handler is upgraded all the same, and closed at once; so
    is one that only a template matches, so [path_params] is always empty. *)
Example not_routed :
  on_write takes_all (start routes (λ _, true) None (info "/ws/7")) =
    Some (mk_session true [] false (websocket_new (ws_conn_of None (info "/ws/7"))) false [] (mk_sink [] true)) ∧
  ws_path_params (websocket s0) = PDict [].
Proof. vm_compute. auto. Qed.
Example binary_as_text :
  answers (trace [Arrives (Some (Ok (Binary (String (Ascii.ascii_of_nat 255) "")))); call_ (Recv Receive)]) = [inr (PStr replacement)].
Proof. vm_compute. reflexivity. Qed.
(** A reason without a code is not sent. *)
Example reason_dropped : frames [call_ (CloseWith None (Some "bye")); Writes] = [Close None].
Proof. vm_compute. reflexivity. Qed.
(** The peer's close does not show in the state, nor does its code. *)
Example close_unnoticed :
  let s := final [call_ (Accept None None); Arrives (Some (Ok (Close (Some (1001%Z, "away"))))); call_ (Recv ReceiveText)] in
  client_state (websocket s) = WS_STATE_CONNECTED ∧ in_queue s = [] ∧ reading s = false.
Proof. vm_compute. auto. Qed.
(** What is sent after a close is accepted and lost, until the writing task has
    met the close. *)
Example late_send :
  let es := [call_ (CloseWith None None); call_ (SendText "late"); Writes] in
  frames es = [Close None] ∧ (trace es !! 1) = Some (Calls (SendText "late") (inr PNone)) ∧
  (trace (es ++ [call_ (SendText "later")]) !! 3) = Some (Calls (SendText "later") (inl ConnectionError)).
Proof. vm_compute. auto. Qed.
(** Nothing asks for [accept] first, and it reopens the states of a closed session. *)
Example no_handshake :
  frames [call_ (SendText "a"); Writes] = [Text "a"] ∧
  client_state (websocket (final [call_ (CloseWith None None); call_ (Accept None None)])) = WS_STATE_CONNECTED.
Proof. vm_compute. auto. Qed.
(** Without a message a receiving call waits. *)
Example waits : go [call_ (Recv ReceiveText)] = None.
Proof. vm_compute. reflexivity. Qed.
End Examples.
