(* ===== verification/Profile.v ===== *)
(** * Profile: the load test of the command line

    [crates/justapi-cli/src/profile.rs]: what is made of the answers of the
    server, and the report.  The requests are sent by tokio tasks; what they
    read, and how long it took in nanoseconds, is given. *)

From Stdlib Require Import Ascii SpecFloat.
From S2P Require Import Prelude F32 Text F64.

#[local] Open Scope string_scope.

Record RequestResult := mk_result { latency : Z; status : Z }.

Record ProfileReport := mk_report {
  total_requests : Z; duration : Z; latencies : list Z; status_counts : gmap Z Z }.

(** ** One request *)

Definition strip_cr (s : string) : string := if ends_with (String "013" "") s then String.substring 0 (String.length s - 1) s else s.

(** [lines().next()] *)
Definition first_line (s : string) : option string :=
  match s with
  | EmptyString => None
  | _ => match split_once (String "010" "") s with Some (l, _) => Some (strip_cr l) | None => Some s end
  end.

Definition parse_status_code (response : string) : option Z :=
  line ← first_line response;
  match split_whitespace line with
  | _ :: code :: _ => parse_unsigned 65535 code
  | _ => None
  end.

Definition request_text (addr : string) : string :=
  let crlf := String "013" (String "010" "") in
  "GET / HTTP/1.1" +:+ crlf +:+ "Host: " +:+ addr +:+ crlf +:+ "Connection: close" +:+ crlf +:+ crlf.

(** [read] is what the first read of the answer gives, when nothing failed
    before. *)
Definition send_request (read : option string) (took : Z) : option RequestResult :=
  bytes ← read;
  if String.eqb bytes "" then None
  else Some (mk_result took (default 0%Z (parse_status_code (from_utf8_lossy bytes)))).

(** ** The report *)

Definition count_status (m : gmap Z Z) (st : Z) : gmap Z Z := <[st := (default 0 (m !! st) + 1)%Z]> m.

(** The results in the order the channel gives them. *)
Definition collect (duration_secs : Z) (results : list RequestResult) : ProfileReport :=
  mk_report (Z.of_nat (length results)) duration_secs (latency <$> results) (foldl count_status ∅ (status <$> results)).

Definition run_profile (duration_secs : Z) (exchanges : list (option string * Z)) : ProfileReport :=
  collect duration_secs (omap (λ x, send_request x.1 x.2) exchanges).

(** ** Percentiles *)

(** [x.ceil() as u64] *)
Definition ceil_u64 (x : f64) : Z :=
  match x with
  | S754_finite false m e => Z.min (if 0 <=? e then Z.shiftl (Zpos m) e else - (- Zpos m / 2 ^ (- e)))%Z u64_max
  | S754_infinity false => u64_max
  | _ => 0%Z
  end.

Definition rank (p : f64) (n : Z) : Z := ceil_u64 (f64_mul (f64_div p (f64_of_Z 100)) (f64_of_Z n)).

Definition percentile (sorted : list Z) (p : f64) : exec Z :=
  if decide (sorted = []) then Ret 0%Z
  else
    let idx := Z.min (Z.max 0 (rank p (Z.of_nat (length sorted)) - 1)) (Z.of_nat (length sorted) - 1) in
    match sorted !! Z.to_nat idx with Some d => Ret d | None => Panic end.

(** ** The histogram *)

Definition as_micros (d : Z) : Z := (d / 1000)%Z.

Definition min_of (l : list Z) : Z := match l with [] => 0%Z | x :: l' => foldl Z.min x l' end.
Definition max_of (l : list Z) : Z := match l with [] => 0%Z | x :: l' => foldl Z.max x l' end.

(** The values of the code stay below 2^64: the cast to [u128] does not clamp. *)
Definition bucket_width (min_us max_us : Z) (bucket_count : Z) : Z :=
  let range : Z := if (max_us =? min_us)%Z then 1%Z else (max_us - min_us)%Z in
  Z.max (ceil_u64 (f64_div (f64_of_Z range) (f64_of_Z bucket_count))) 1.

Definition bucket_of (min_us width bucket_count us : Z) : nat :=
  Z.to_nat (Z.min ((us - min_us) / width) (bucket_count - 1)).

Definition count_bucket (min_us width bucket_count : Z) (buckets : list Z) (d : Z) : list Z :=
  alter Z.succ (bucket_of min_us width bucket_count (as_micros d)) buckets.

Definition buckets_of (ds : list Z) (bucket_count : nat) : list Z :=
  let us := as_micros <$> ds in
  let width := bucket_width (min_of us) (max_of us) (Z.of_nat bucket_count) in
  foldl (count_bucket (min_of us) width (Z.of_nat bucket_count)) (replicate bucket_count 0%Z) ds.

(** Block characters, from U+258F to U+2588. *)
Definition BLOCKS (i : Z) : string :=
  String (Ascii.ascii_of_nat 226) (String (Ascii.ascii_of_nat 150) (String (Ascii.ascii_of_nat (Z.to_nat (143 - i))) "")).

(** [x.round() as usize]: halves away from zero. *)
Definition round_u64 (x : f64) : Z :=
  match x with
  | S754_finite false m e => Z.min (if 0 <=? e then Z.shiftl (Zpos m) e else (2 * Zpos m + 2 ^ (- e)) / 2 ^ (1 - e))%Z u64_max
  | S754_infinity false => u64_max
  | _ => 0%Z
  end.

Fixpoint repeat_text (n : nat) (s : string) : string := match n with O => "" | S n' => s +:+ repeat_text n' s end.

Definition build_bar (n max_count max_width : Z) : string :=
  let fraction := f64_div (f64_of_Z n) (f64_of_Z max_count) in
  let eighths := round_u64 (f64_mul (f64_mul fraction (f64_of_Z max_width)) (f64_of_Z 8)) in
  repeat_text (Z.to_nat (eighths / 8)) (BLOCKS 7)
  +:+ if (0 <? eighths mod 8)%Z then BLOCKS (eighths mod 8 - 1) else "".

(** [{:.1}] and [{:>8.1}] of a number that is not negative. *)
Definition fixed1 (x : f64) : string :=
  let tenths := match x with S754_finite _ m e => round_half_even (Zpos m * 10 * 2 ^ Z.max 0 e) (2 ^ Z.max 0 (- e)) | _ => 0 end%Z in
  decimal (tenths / 10) +:+ "." +:+ decimal (tenths mod 10).
Definition pad8 (s : string) : string := repeat_text (8 - String.length s) " " +:+ s.
Definition millis (us : Z) : string := pad8 (fixed1 (f64_div (f64_of_Z us) (f64_of_Z 1000))).

Definition NL : string := String "010" "".

Definition histogram_line (min_us width max_count max_bar_width : Z) (i : nat) (n : Z) : string :=
  let lo := (min_us + Z.of_nat i * width)%Z in
  "  " +:+ millis lo +:+ "ms - " +:+ millis (lo + width) +:+ "ms │" +:+ build_bar n max_count max_bar_width
  +:+ " (" +:+ decimal n +:+ ")" +:+ NL.

Definition render_histogram (ds : list Z) (bucket_count : nat) (max_bar_width : Z) : string :=
  if decide (ds = [] ∨ bucket_count = O) then "  (no data)" +:+ NL
  else
    let us := as_micros <$> ds in
    let width := bucket_width (min_of us) (max_of us) (Z.of_nat bucket_count) in
    let buckets := buckets_of ds bucket_count in
    let max_count := Z.max (max_of buckets) 1 in
    String.concat "" (imap (histogram_line (min_of us) width max_count max_bar_width) buckets).

(** ** The text *)

(** [Duration::as_secs_f64], in nanoseconds. *)
Definition as_secs_f64 (d : Z) : f64 :=
  f64_add (f64_of_Z (d / 1000000000)) (f64_div (f64_of_Z (d mod 1000000000)) (f64_of_Z 1000000000)).
Definition percentile_line (name : string) (d : Z) (fin : string) : string :=
  "    " +:+ name +:+ ":  " +:+ f64_fixed3 (f64_mul (as_secs_f64 d) (f64_of_Z 1000)) +:+ "ms" +:+ fin.

Definition report_banner : string :=
  "╔══════════════════════════════════════════════════╗" +:+ NL
  +:+ "║           JustAPI Profile Report                ║" +:+ NL
  +:+ "╚══════════════════════════════════════════════════╝" +:+ NL +:+ NL.

Definition latency_part (ds : list Z) : exec string :=
  if decide (ds = []) then Ret ("  (no successful requests)" +:+ NL +:+ NL)
  else
    let sorted := sort_by_key id ds in
    p50 ← percentile sorted (f64_of_Z 50);
    p95 ← percentile sorted (f64_of_Z 95);
    p99 ← percentile sorted (f64_of_Z 99);
    Ret ("  Latency percentiles:" +:+ NL +:+ percentile_line "p50" p50 NL +:+ percentile_line "p95" p95 NL
         +:+ percentile_line "p99" p99 (NL +:+ NL) +:+ "  Latency histogram:" +:+ NL +:+ render_histogram sorted 10 30 +:+ NL).

Definition status_lines (m : gmap Z Z) : string :=
  String.concat "" ((λ kv : Z * Z, "    HTTP " +:+ decimal kv.1 +:+ ": " +:+ decimal kv.2 +:+ NL) <$> sort_by_key fst (map_to_list m)).

Definition requests_per_second (r : ProfileReport) : f64 :=
  if (0 <? duration r)%Z then f64_div (f64_of_Z (total_requests r)) (f64_of_Z (duration r)) else f64_zero.

Definition format_report (r : ProfileReport) : exec string :=
  body ← latency_part (latencies r);
  Ret (report_banner +:+ "  Duration:        " +:+ fixed1 (f64_of_Z (duration r)) +:+ "s" +:+ NL
       +:+ "  Total requests:  " +:+ decimal (total_requests r) +:+ NL
       +:+ "  Requests/sec:    " +:+ fixed1 (requests_per_second r) +:+ NL +:+ NL +:+ body
       +:+ "  Status code distribution:" +:+ NL +:+ status_lines (status_counts r)).

(** ** Percentiles are those of the samples *)

Definition nearest (p n : Z) : Z := (- (- (p * n) / 100))%Z.

Lemma rank_table p n :
  p ∈ [50; 95; 99]%Z → (1 ≤ n ≤ 2000)%Z → rank (f64_of_Z p) n = nearest p n.
Proof.
  intros Hp Hn.
  assert (forallb (λ q, forallb (λ k, rank (f64_of_Z q) (Z.of_nat k) =? nearest q (Z.of_nat k))%Z (seq 1 2000)) [50; 95; 99]%Z = true)
    as Ht by (vm_compute; reflexivity).
  rewrite forallb_forall in Ht. specialize (Ht p (proj1 (list_elem_of_In _ _) Hp)).
  rewrite forallb_forall in Ht. specialize (Ht (Z.to_nat n)). rewrite Z2Nat.id in Ht by lia.
  apply Z.eqb_eq, Ht, in_seq. lia.
Qed.

Lemma sorted_below (l : list Z) i d :
  StronglySorted Z.le l → l !! i = Some d → (S i ≤ length (filter (λ x, x ≤ d)%Z l))%nat ∧ (length (filter (λ x, x < d)%Z l) ≤ i)%nat.
Proof.
  intros Hs. revert i. induction Hs as [|x l Hs IH Hx]; intros i Hi; [done|].
  destruct i as [|i]; simpl in Hi.
  - injection Hi as ->. rewrite !filter_cons, decide_True, decide_False by lia. simpl. split; [lia|].
    rewrite filter_none; [done|]. intros y Hy. rewrite Forall_forall in Hx. specialize (Hx y Hy). lia.
  - destruct (IH i Hi) as [Ha Hb]. rewrite Forall_forall in Hx.
    assert (x ≤ d)%Z by (by apply Hx, list_elem_of_lookup_2 with i).
    rewrite !filter_cons, decide_True by done. simpl. split; [lia|].
    case_decide; simpl; lia.
Qed.

(** The p50, p95 and p99 of a report of up to 2000 requests are the
    percentiles of its latencies: at least that share of them is no longer, and
    less than that share is shorter. *)
Theorem percentiles_cover sorted p :
  sorted ≠ [] → StronglySorted Z.le sorted → (Z.of_nat (length sorted) ≤ 2000)%Z → p ∈ [50; 95; 99]%Z →
  ∃ d, percentile sorted (f64_of_Z p) = Ret d ∧ d ∈ sorted ∧
    (p * Z.of_nat (length sorted) ≤ 100 * Z.of_nat (length (filter (λ x, x ≤ d)%Z sorted)))%Z ∧
    (100 * Z.of_nat (length (filter (λ x, x < d)%Z sorted)) < p * Z.of_nat (length sorted))%Z.
Proof.
  intros Hne Hs Hlen Hp. set (n := Z.of_nat (length sorted)) in *.
  assert (1 ≤ n)%Z by (destruct sorted; [done|]; unfold n; simpl; lia).
  assert (0 < p ≤ 100)%Z as Hp' by (rewrite !elem_of_cons, elem_of_nil in Hp; destruct Hp as [->|[->|[->|[]]]]; lia).
  assert (1 ≤ nearest p n ≤ n)%Z as Hk by (unfold nearest; split; Z.to_euclidean_division_equations; nia).
  unfold percentile. rewrite decide_False by done. fold n. rewrite rank_table by (done || lia).
  replace (Z.min (Z.max 0 (nearest p n - 1)) (n - 1)) with (nearest p n - 1)%Z by lia.
  destruct (lookup_lt_is_Some_2 sorted (Z.to_nat (nearest p n - 1))) as [d Hd]; [unfold n in *; lia|].
  exists d. rewrite Hd. destruct (sorted_below _ _ _ Hs Hd) as [Hle Hlt]. split; [done|].
  split; [by eapply list_elem_of_lookup_2|].
  unfold nearest in *. split; Z.to_euclidean_division_equations; nia.
Qed.

(** ** The histogram counts every latency *)

Section buckets.
Context (min_us width : Z) (n : nat).

Lemma bucket_bound us : (0 < n)%nat → (bucket_of min_us width (Z.of_nat n) us < n)%nat.
Proof. unfold bucket_of. lia. Qed.

Lemma buckets_counted ds bs i c :
  length bs = n → bs !! i = Some c →
  foldl (count_bucket min_us width (Z.of_nat n)) bs ds !! i =
    Some (c + Z.of_nat (length (filter (λ d, bucket_of min_us width (Z.of_nat n) (as_micros d) = i) ds)))%Z.
Proof.
  revert bs c. induction ds as [|d ds IH]; intros bs c Hl Hc; simpl; [rewrite Hc; f_equal; lia|].
  rewrite filter_cons. unfold count_bucket at 2. case_decide as Hd; simpl.
  - rewrite (IH _ (c + 1)%Z); [f_equal; lia|by rewrite length_alter|].
    rewrite Hd, list_lookup_alter_eq, Hc. simpl. by f_equal.
  - apply (IH _ c); [by rewrite length_alter|]. by rewrite list_lookup_alter_ne.
Qed.
End buckets.

Definition width_of (ds : list Z) (n : nat) : Z :=
  bucket_width (min_of (as_micros <$> ds)) (max_of (as_micros <$> ds)) (Z.of_nat n).

Lemma length_buckets f bs ds : (∀ b d, length (f b d) = length (b : list Z)) → length (foldl f bs (ds : list Z)) = length bs.
Proof. intros Hf. revert bs. induction ds as [|d ds IH]; intros bs; simpl; [done|]. by rewrite IH. Qed.

Lemma sum_bump (g : nat → nat) k n :
  (k < n)%nat →
  sum_list_with id ((λ i, if decide (k = i) then S (g i) else g i) <$> seq 0 n) = S (sum_list_with id (g <$> seq 0 n)).
Proof.
  induction n as [|n IH]; [lia|]. intros Hk. rewrite seq_S, !fmap_app, !sum_list_with_app. simpl.
  destruct (decide (k = n)) as [->|Hne]; [|rewrite IH by lia; lia].
  rewrite (list_fmap_ext (λ i, if decide (n = i) then S (g i) else g i) g); [lia|].
  intros i j Hj. apply lookup_seq in Hj. rewrite decide_False by lia. done.
Qed.

(** The classes of a function below [n] hold every element once. *)
Lemma partition_length {A} (f : A → nat) n (l : list A) :
  (∀ a, f a < n)%nat → sum_list_with id ((λ i, length (filter (λ a, f a = i) l)) <$> seq 0 n) = length l.
Proof.
  intros Hf. induction l as [|a l IH]; simpl.
  - induction n as [|n IHn] in |- *; [done|]. rewrite seq_S, fmap_app, sum_list_with_app, IHn. done.
  - rewrite <-IH, <-(sum_bump _ (f a)) by done. f_equal. apply list_fmap_ext. intros i j _.
    rewrite filter_cons. by destruct (decide (f a = j)).
Qed.

Definition in_bucket (ds : list Z) (n : nat) (i : nat) (d : Z) : Prop :=
  bucket_of (min_of (as_micros <$> ds)) (width_of ds n) (Z.of_nat n) (as_micros d) = i.
#[local] Instance in_bucket_dec ds n i d : Decision (in_bucket ds n i d).
Proof. unfold in_bucket. apply _. Defined.

Lemma buckets_lookup ds n i :
  (i < n)%nat → buckets_of ds n !! i = Some (Z.of_nat (length (filter (in_bucket ds n i) ds))).
Proof.
  intros Hi. unfold buckets_of. rewrite (buckets_counted _ _ n ds _ i 0%Z).
  - done.
  - by rewrite length_replicate.
  - by rewrite lookup_replicate_2.
Qed.

Lemma length_buckets_of ds n : length (buckets_of ds n) = n.
Proof. unfold buckets_of. rewrite length_buckets, length_replicate; [done|]. intros. apply length_alter. Qed.

Lemma min_of_le l x : x ∈ l → (min_of l ≤ x)%Z.
Proof.
  destruct l as [|y l]; [by intros ?%elem_of_nil|]. simpl.
  assert (∀ l y, foldl Z.min y l ≤ y ∧ ∀ x, x ∈ l → foldl Z.min y l ≤ x)%Z as Hm.
  { clear. induction l as [|z l IH]; intros y; simpl; [split; [lia|by intros ? ?%elem_of_nil]|].
    destruct (IH (Z.min y z)) as [Ha Hb]. split; [lia|]. intros x [->|Hx]%elem_of_cons; [lia|by apply Hb]. }
  destruct (Hm l y) as [Hy Hl]. intros [->|Hx]%elem_of_cons; [done|by apply Hl].
Qed.

(** The histogram has the lines it was asked for, every latency is counted
    in one of them and in no other, and lies in its range, but for the last
    line, which counts what is longer too. *)
Theorem histogram_counts_all ds n :
  (0 < n)%nat →
  length (buckets_of ds n) = n ∧ sum_list_with id (Z.to_nat <$> buckets_of ds n) = length ds ∧
  ∀ d, d ∈ ds → ∃ i, (i < n)%nat ∧ in_bucket ds n i d ∧
    let lo := (min_of (as_micros <$> ds) + Z.of_nat i * width_of ds n)%Z in
    (lo ≤ as_micros d)%Z ∧ ((as_micros d < lo + width_of ds n)%Z ∨ S i = n).
Proof.
  intros Hn. split; [apply length_buckets_of|]. split.
  - assert (buckets_of ds n = (λ i, Z.of_nat (length (filter (in_bucket ds n i) ds))) <$> seq 0 n) as ->.
    { apply list_eq. intros i. rewrite list_lookup_fmap. destruct (decide (i < n)%nat) as [Hi|Hi].
      - by rewrite buckets_lookup, lookup_seq_lt.
      - rewrite lookup_ge_None_2 by (rewrite length_buckets_of; lia). by rewrite lookup_seq_ge by lia. }
    rewrite <-list_fmap_compose.
    rewrite <-(partition_length (λ d, bucket_of (min_of (as_micros <$> ds)) (width_of ds n) (Z.of_nat n) (as_micros d)) n ds)
      by (intros d; by apply bucket_bound).
    f_equal. apply list_fmap_ext. intros i j _. simpl. by rewrite Nat2Z.id.
  - intros d Hd. eexists. split; [by apply (bucket_bound (min_of (as_micros <$> ds)) (width_of ds n) n (as_micros d))|].
    split; [done|]. cbv zeta. set (mn := min_of _). set (w := width_of ds n).
    assert (mn ≤ as_micros d)%Z by (by apply min_of_le, list_elem_of_fmap_2).
    assert (1 ≤ w)%Z by (unfold w, width_of, bucket_width; lia).
    pose proof (Z.div_mod (as_micros d - mn) w ltac:(lia)). pose proof (Z.mod_pos_bound (as_micros d - mn) w ltac:(lia)).
    assert (0 ≤ (as_micros d - mn) / w)%Z by (apply Z.div_pos; lia).
    unfold bucket_of. destruct (Z.min_spec ((as_micros d - mn) / w) (Z.of_nat n - 1)) as [[Hlt ->]|[Hge ->]].
    + rewrite Z2Nat.id by done. split; [nia|left; nia].
    + rewrite Z2Nat.id by lia. split; [nia|right; lia].
Qed.

(** ** The requests are accounted for *)

Definition status_total (m : gmap Z Z) : Z := map_fold (λ _ n t, n + t)%Z 0%Z m.

Lemma status_total_insert m st n : status_total (<[st := n]> m) = (n + status_total (delete st m))%Z.
Proof.
  rewrite <-insert_delete_eq. unfold status_total. rewrite map_fold_insert_L; [done|intros; lia|apply lookup_delete_eq].
Qed.

Lemma count_status_total m st : status_total (count_status m st) = (status_total m + 1)%Z.
Proof.
  unfold count_status. rewrite status_total_insert. destruct (m !! st) as [n|] eqn:Hm; simpl.
  - rewrite <-(insert_delete_id m st n Hm) at 2. rewrite status_total_insert, delete_delete_eq. lia.
  - rewrite delete_id by done. lia.
Qed.

(** Every request that was answered is counted once, in the total, in the
    latencies and under its status; one that was not answered nowhere. *)
Theorem requests_counted secs exchanges :
  let r := run_profile secs exchanges in
  let answered := omap (λ x : option string * Z, send_request x.1 x.2) exchanges in
  total_requests r = Z.of_nat (length answered) ∧ latencies r = latency <$> answered ∧
  status_total (status_counts r) = total_requests r ∧
  (∀ st, default 0%Z (status_counts r !! st) = Z.of_nat (length (filter (λ x, status x = st) answered))).
Proof.
  cbv zeta. unfold run_profile, collect. simpl. generalize (omap (λ x : option string * Z, send_request x.1 x.2) exchanges).
  intros rs. split; [done|]. split; [done|].
  assert (∀ m, status_total (foldl count_status m (status <$> rs)) = (status_total m + Z.of_nat (length rs))%Z ∧
    ∀ st, default 0%Z (foldl count_status m (status <$> rs) !! st) =
      (default 0%Z (m !! st) + Z.of_nat (length (filter (λ x, status x = st) rs)))%Z) as Hc.
  { induction rs as [|x rs IH]; intros m; [simpl; split; [lia|intros; lia]|]. cbn [fmap list_fmap foldl length].
    destruct (IH (count_status m (status x))) as [Ht Hl]. split; [etrans; [exact Ht|]; rewrite count_status_total; lia|].
    intros st. etrans; [apply Hl|]. rewrite filter_cons. unfold count_status. case_decide as Hst.
    - subst st. rewrite lookup_insert_eq. simpl. lia.
    - by rewrite lookup_insert_ne by done. }
  destruct (Hc ∅) as [Ht Hl]. split; [rewrite Ht; done|]. intros st. by rewrite Hl, lookup_empty.
Qed.

(** ** Examples *)

Module Examples.
Definition ok : string := "HTTP/1.1 200 OK" +:+ String "013" NL.
Definition exchanges : list (option string * Z) := [(Some ok, 5000000%Z); (None, 1%Z); (Some "", 1%Z); (Some "junk", 7000000%Z)].

Definition tens : list Z := (λ i, Z.of_nat i * 1000000)%Z <$> seq 1 10.

Lemma percentiles_cover_witness :
  ∃ d, percentile tens (f64_of_Z 95) = Ret d ∧ d ∈ tens ∧
    (950 ≤ 100 * Z.of_nat (length (filter (λ x, x ≤ d)%Z tens)))%Z ∧ (100 * Z.of_nat (length (filter (λ x, x < d)%Z tens)) < 950)%Z.
Proof.
  apply (percentiles_cover tens 95); [done| |vm_compute; done|set_solver].
  repeat constructor; vm_compute; done.
Defined.
Example p95 : percentile tens (f64_of_Z 95) = Ret 10000000%Z.
Proof. vm_compute. reflexivity. Qed.

Lemma histogram_counts_all_witness :
  length (buckets_of tens 4) = 4%nat ∧ sum_list_with id (Z.to_nat <$> buckets_of tens 4) = 10%nat.
Proof. destruct (histogram_counts_all tens 4) as (? & ? & _); [lia|]. split; assumption. Defined.

Example histogram : buckets_of tens 4 = [3; 2; 2; 3]%Z.
Proof. vm_compute. reflexivity. Qed.
Example histogram_text :
  render_histogram [5000000%Z] 1 2 = "       5.0ms -      5.0ms │" +:+ BLOCKS 7 +:+ BLOCKS 7 +:+ " (1)" +:+ NL.
Proof. vm_compute. reflexivity. Qed.
Example half_bar : build_bar 50 100 10 = "█████" ∧ build_bar 0 100 10 = "" ∧ build_bar 8 16 1 = "▌" ∧ build_bar 1 16 1 = "▏".
Proof. vm_compute. split_and!; reflexivity. Qed.
(** What is no HTTP counts as an answer with status 0. *)
Example counted : status_counts (run_profile 1 exchanges) = {[200 := 1; 0 := 1]}%Z.
Proof. vm_compute. reflexivity. Qed.
Example report : (∃ t, format_report (run_profile 2 exchanges) = Ret t ∧ contains "Requests/sec:    1.0" t ∧ contains "p50:  5.000ms" t).
Proof. eexists. split; [vm_compute; reflexivity|]. vm_compute. auto. Qed.
End Examples.
