(* ===== verification/FrontEnds.v ===== *)
(** * FrontEnds: messages of gRPC, GraphQL, typed responses and logging

    [crates/justapi-core/src/grpc.rs] with the handler [native/app.rs] gives
    it, [graphql.rs], [serialize.rs] and the choice of layers of
    [tracing_setup.rs].  The frames of tonic, the GraphQL engine, serde and the
    exporters are parameters or left out. *)

From Stdlib Require Import Ascii.
From S2P Require Import Prelude Text HttpRouter Http Paths NativeHandler GenClient.

#[local] Open Scope string_scope.

(** ** gRPC *)

Definition MAX_GRPC_MESSAGE_SIZE : Z := 4 * 1024 * 1024.

Record RawBytesDecoder := mk_decoder { max_message_size : Z }.
Definition decoder_default : RawBytesDecoder := mk_decoder MAX_GRPC_MESSAGE_SIZE.

Inductive Status := ResourceExhausted (msg : string) | Internal (msg : string) | Unimplemented (msg : string).

Definition encode (item dst : string) : string := dst +:+ item.

(** The message, if there is one, and what is left of the buffer. *)
Definition decode (d : RawBytesDecoder) (src : string) : Status + (option string * string) :=
  if String.eqb src "" then inr (None, "")
  else
    let remaining := Z.of_nat (String.length src) in
    if (max_message_size d <? remaining)%Z
    then inl (ResourceExhausted ("gRPC message too large: " +:+ decimal remaining +:+ " bytes (max "
                                 +:+ decimal (max_message_size d) +:+ ")"))
    else inr (Some src, "").

(** [call] is what calling the Python handler gives: an error's text, or a value. *)
Definition grpc_call {H} (handlers : gmap string H) (call : H → string → string + pyval) (path body : string) : Status + string :=
  match handlers !! path with
  | None => inl (Unimplemented "Method not found")
  | Some h =>
      match call h body with
      | inl e => inl (Internal e)
      | inr v => match extract_bytes v with
                 | Some b => inr b
                 | None => inl (Internal "Invalid return type from python gRPC handler")
                 end
      end
  end.

(** ** GraphQL *)

Section graphql.
(** The requests of the engine: reading one, and the answer's text. *)
Context {Q : Type} (parse : string → string + Q) (execute : Q → string + string) (body_error graphiql_source : string).

Definition quote : string := String "034" "".
Definition graphql_error (st : Z) (message : string) : Response :=
  mk_response st [("content-type", "application/json")]
    ("{" +:+ quote +:+ "error" +:+ quote +:+ ":" +:+ quote +:+ message +:+ quote +:+ "}").

Definition execute_graphql_bytes (bytes : string) : string + string :=
  match parse bytes with inl e => inl e | inr q => execute q end.

Definition handle_graphql (req : Request) (enable_graphiql : bool) : outcome :=
  if String.eqb (req_method req) "GET" then
    inl (if enable_graphiql then mk_response 200 [("content-type", "text/html; charset=utf-8")] graphiql_source
         else graphql_error 403 "GraphiQL is disabled in production")
  else
    match req_body req with
    | None => inr body_error
    | Some bytes =>
        if (1048576 <? Z.of_nat (String.length bytes))%Z then inl (graphql_error 413 "Query body too large (max 1MB)")
        else match execute_graphql_bytes bytes with
             | inl e => inr e
             | inr text => inl (mk_response 200 [("content-type", "application/json")] text)
             end
    end.

(** The endpoint of a Python application. *)
Definition graphql_handle (method : string) (bytes : option string) : Z * string * string :=
  if String.eqb method "GET" then (200%Z, "text/html; charset=utf-8", graphiql_source)
  else
    (200%Z, "application/json",
     match execute_graphql_bytes (default "" bytes) with
     | inr text => text
     | inl e => "{" +:+ quote +:+ "errors" +:+ quote +:+ ":[{" +:+ quote +:+ "message" +:+ quote +:+ ":" +:+ GenClient.quoted e +:+ "}]}"
     end).
End graphql.

(** ** Typed responses *)

Record JsonResponse (T : Type) := mk_json_response { jr_data : T; jr_status : Z; jr_headers : list (string * string) }.
Arguments mk_json_response {T}.
Arguments jr_data {T}.
Arguments jr_status {T}.
Arguments jr_headers {T}.

Definition json_response_from {T} (data : T) : JsonResponse T := mk_json_response data 200 [].
Definition with_status {T} (st : Z) (r : JsonResponse T) : JsonResponse T := mk_json_response (jr_data r) st (jr_headers r).
(** A name that is no header name is left out. *)
Definition with_header {T} (name value : string) (r : JsonResponse T) : JsonResponse T :=
  match header_name_from name with
  | Some h => mk_json_response (jr_data r) (jr_status r) (jr_headers r ++ [(h, value)])%list
  | None => r
  end.

(** [to_vec] is the serialiser. *)
Definition into_response {T} (to_vec : T → string + string) (r : JsonResponse T) : exec (string + Response) :=
  match to_vec (jr_data r) with
  | inl e => Ret (inl e)
  | inr b =>
      resp ← build_response (jr_status r) ([("content-type", "application/json"); content_length b] ++ jr_headers r)%list b;
      Ret (inr resp)
  end.

(** ** Logging *)

Inductive LogFormat := LogText | LogJson.
Inductive FileRotation := Daily | Hourly | Never.
Inductive OtelExporter := Stdout | Oltp.

Record LoggingConfig := mk_logging {
  log_format : LogFormat; log_level : string; file_path : option string; file_rotation : FileRotation;
  otel_exporter : option OtelExporter; otlp_endpoint : option string; service_name : string }.

Definition logging_default : LoggingConfig := mk_logging LogText "info" None Daily None None "justapi".
Definition json_logging : LoggingConfig := mk_logging LogJson "info" None Daily None None "justapi".
Definition file_logging (path : string) : LoggingConfig := mk_logging LogJson "info" (Some path) Daily None None "justapi".
Definition otlp_tracing (endpoint service : string) : LoggingConfig :=
  mk_logging LogText "info" None Daily (Some Oltp) (Some endpoint) service.

Inductive Layer :=
| JsonLayer | CliLayer | FileLayer (directory file : string) (rotation : FileRotation)
| OtelStdout (service : string) | OtelOtlp (endpoint service : string).

(** [parent] of a path; [parent_of] is [Path::parent]. *)
Definition file_layer (parent_of : string → option string) (path : string) (rotation : FileRotation) : Layer :=
  FileLayer (default "." (parent_of path)) (default "justapi.log" (Paths.file_name path)) rotation.

(** [otel] is the feature. *)
Definition init_logging (parent_of : string → option string) (otel : bool) (c : LoggingConfig) : list Layer :=
  ((if otel then
      match otel_exporter c with
      | Some Stdout => [OtelStdout (service_name c)]
      | Some Oltp => [OtelOtlp (default "http://localhost:4317" (otlp_endpoint c)) (service_name c)]
      | None => []
      end
    else [])
   ++ [match file_path c with
       | Some path => file_layer parent_of path (file_rotation c)
       | None => match log_format c with LogJson => JsonLayer | LogText => CliLayer end
       end])%list.

(** The subscriber is set once; setting it again panics. *)
Definition install (parent_of : string → option string) (otel : bool) (c : LoggingConfig) (current : option (list Layer))
    : exec (option (list Layer)) :=
  match current with Some _ => Panic | None => Ret (Some (init_logging parent_of otel c)) end.
Definition init_default_if_unset (parent_of : string → option string) (otel : bool) (current : option (list Layer))
    : exec (option (list Layer)) :=
  match current with Some _ => Ret current | None => install parent_of otel logging_default current end.

Definition two_digits (n : Z) : string := (if (n <? 10)%Z then "0" else "") +:+ decimal n.
Definition format_time (secs : Z) : string :=
  two_digits (secs / 3600 mod 24) +:+ ":" +:+ two_digits (secs / 60 mod 60) +:+ ":" +:+ two_digits (secs mod 60).

(** ** Theorems *)

(** A message that is not empty and within the limit is decoded as it was
    encoded, and nothing is left; a longer one is refused. *)
Theorem grpc_roundtrip d m :
  m ≠ "" →
  decode d (encode m "") =
    if (Z.of_nat (String.length m) <=? max_message_size d)%Z then inr (Some m, "")
    else inl (ResourceExhausted ("gRPC message too large: " +:+ decimal (Z.of_nat (String.length m)) +:+ " bytes (max "
                                 +:+ decimal (max_message_size d) +:+ ")")).
Proof.
  intros Hm. unfold encode, decode. change ("" +:+ m) with m. rewrite (proj2 (String.eqb_neq _ _) Hm).
  rewrite Z.leb_antisym. by destruct (_ <? _)%Z.
Qed.

(** No query of more than a mebibyte is parsed, the page is served only
    where it is enabled, and what the engine answers is the body as it is. *)
Theorem graphql_answers {Q} (parse : string → string + Q) execute body_error source req enable :
  let run := handle_graphql parse execute body_error source req enable in
  (req_method req = "GET" → run = inl (if enable then mk_response 200 [("content-type", "text/html; charset=utf-8")] source
                                       else graphql_error 403 "GraphiQL is disabled in production")) ∧
  (req_method req ≠ "GET" → ∀ b, req_body req = Some b →
    ((1048576 < Z.of_nat (String.length b))%Z → ∀ parse' execute', run = handle_graphql (Q := Q) parse' execute' body_error source req enable) ∧
    ((Z.of_nat (String.length b) ≤ 1048576)%Z → ∀ q text, parse b = inr q → execute q = inr text →
       run = inl (mk_response 200 [("content-type", "application/json")] text))).
Proof.
  cbv zeta. unfold handle_graphql. split.
  - intros ->. done.
  - intros Hm b Hb. rewrite (proj2 (String.eqb_neq _ _) Hm), Hb. split.
    + intros Hl%Z.ltb_lt parse' execute'. by rewrite Hl.
    + intros Hl q text Hp He. rewrite (proj2 (Z.ltb_ge _ _) Hl). unfold execute_graphql_bytes. by rewrite Hp, He.
Qed.

(** A typed response has its status, the length of its body and, after the
    headers of its own, those that were added with a valid name, in order; it
    panics on a value that is no header value, and on nothing else. *)
Theorem json_response_built {T} (to_vec : T → string + string) (r : JsonResponse T) b :
  to_vec (jr_data r) = inr b →
  into_response to_vec r =
    if forallb (λ h : string * string, bool_decide (is_Some (header_value h.2))) (jr_headers r)
    then Ret (inr (mk_response (jr_status r) ([("content-type", "application/json"); content_length b] ++ jr_headers r)%list b))
    else Panic.
Proof.
  intros Hb. unfold into_response, build_response. rewrite Hb. cbn [app forallb snd].
  assert (bool_decide (is_Some (header_value "application/json")) = true) as -> by (vm_compute; reflexivity).
  assert (bool_decide (is_Some (header_value (content_length b).2)) = true) as ->.
  { apply bool_decide_eq_true. unfold content_length, header_value. cbn [snd].
    rewrite (str_all_impl is_digit); [by eexists| |apply decimal_all_digits].
    intros c Hc. unfold is_digit in Hc. rewrite orb_true_iff, andb_true_iff, negb_true_iff. lia. }
  simpl. by destruct (forallb _ _).
Qed.

(** Logging to a file leaves no layer on the terminal, whatever the format;
    a subscriber is installed once, and the default one never replaces it. *)
Theorem logging_layers parent_of otel c current :
  (∀ path, file_path c = Some path →
    init_logging parent_of otel c = (init_logging parent_of otel (mk_logging LogText (log_level c) (file_path c) (file_rotation c)
      (otel_exporter c) (otlp_endpoint c) (service_name c)))%list ∧
    JsonLayer ∉ init_logging parent_of otel c ∧ CliLayer ∉ init_logging parent_of otel c) ∧
  (∃ layers, init_default_if_unset parent_of otel current = Ret (Some layers) ∧ (∀ l, current = Some l → layers = l)) ∧
  (install parent_of otel c current = Panic ↔ is_Some current).
Proof.
  split_and!.
  - intros path Hp. unfold init_logging. simpl. rewrite Hp. split; [done|].
    destruct otel; [destruct (otel_exporter c) as [[]|]|]; simpl; unfold file_layer; set_solver.
  - destruct current as [l|]; [exists l|exists (init_logging parent_of otel logging_default)]; (split; [done|]);
      by intros ? [= ->].
  - destruct current as [l|]; simpl; (split; [|done || by intros [? ?]]); intros He; [by exists l|done].
Qed.

(** ** Examples *)

Module Examples.
Lemma grpc_roundtrip_witness : decode decoder_default (encode "abc" "") = inr (Some "abc", "").
Proof. rewrite (grpc_roundtrip decoder_default "abc"); [vm_compute; reflexivity|done]. Defined.
(** An empty message is no message: a call without arguments has none. *)
Example empty_message : decode decoder_default (encode "" "") = inr (None, "").
Proof. vm_compute. reflexivity. Qed.
(** A list of small integers is taken for bytes. *)
Example list_as_bytes : grpc_call {["/s/m" := tt]} (λ _ _, inr (PList [PInt 104; PInt 105])) "/s/m" "" = inr "hi".
Proof. vm_compute. reflexivity. Qed.

Lemma json_response_built_witness :
  into_response (λ s : string, inr s) (with_header "X-Id" "7" (with_status 201 (json_response_from "[]"))) =
    Ret (inr (mk_response 201 [("content-type", "application/json"); ("content-length", "2"); ("x-id", "7")] "[]")).
Proof. by rewrite (json_response_built (λ s : string, inr s) _ "[]"). Defined.
Example bad_value : into_response (λ s : string, inr s) (with_header "x" (String "010" "") (json_response_from "[]")) = Panic.
Proof. vm_compute. reflexivity. Qed.
(** A second content type is added to the first. *)
Example two_types :
  into_response (λ s : string, inr s) (with_header "content-type" "text/plain" (json_response_from "x")) =
    Ret (inr (mk_response 200 [("content-type", "application/json"); ("content-length", "1"); ("content-type", "text/plain")] "x")).
Proof. vm_compute. reflexivity. Qed.

(** The endpoint of a Python application serves the page always, and queries of
    any length. *)
Example page_always : graphql_handle (λ _, inr tt) (λ _, inr "{}") "page" "GET" None = (200%Z, "text/html; charset=utf-8", "page").
Proof. reflexivity. Qed.

(** The JSON file logger writes text. *)
Example json_file_is_text :
  init_logging (λ _, Some "logs") false (file_logging "logs/app.log") = [FileLayer "logs" "app.log" Daily].
Proof. vm_compute. reflexivity. Qed.
Example clock_text : format_time 90061 = "01:01:01".
Proof. vm_compute. reflexivity. Qed.
End Examples.
