(* ===== verification/PyTypes.v ===== *)
(** * PyTypes: tokens and uploaded files for Python

    [crates/justapi-py/src/auth.rs] and [multipart.rs].  jsonwebtoken is the
    parameter [Jwt]; the temporary file of an upload is its bytes, while it
    exists, and a read gets all it asks for.  The futures give what they
    resolve to. *)

From Stdlib Require Import Ascii.
From S2P Require Import Prelude F32 Text F64 Http Validate Migrations Crud Database NativeHandler DbBridge.

#[local] Open Scope string_scope.

(** ** Tokens *)

Inductive Algorithm := HS256 | HS384 | HS512 | RS256 | RS384 | RS512 | ES256 | ES384 | EdDSA.

(** [validation_exp] is [validate_exp] of a [Validation] that has the
    algorithm and is otherwise the crate's default. *)
Class Jwt := {
  jwt_encode : Algorithm → json → string → string + string;
  jwt_decode : string → string → Algorithm → bool → string + json }.

Record PyJwtAuth := mk_jwt { secret : string; algorithm : Algorithm }.

Definition algorithm_names : list (string * Algorithm) :=
  [("HS256", HS256); ("HS384", HS384); ("HS512", HS512); ("RS256", RS256); ("RS384", RS384); ("RS512", RS512);
   ("ES256", ES256); ("ES384", ES384); ("ED25519", EdDSA)].

Definition unsupported (s : string) : string :=
  "Unsupported algorithm: " +:+ s +:+ ". Use HS256, HS384, HS512, RS256, RS384, RS512, ES256, ES384, or ED25519".

Definition parse_algorithm (s : string) : string + Algorithm :=
  match assoc_get (uppercase s) algorithm_names with Some a => inr a | None => inl (unsupported s) end.

Definition jwt_new (secret algorithm : string) : string + PyJwtAuth :=
  match parse_algorithm algorithm with inl e => inl e | inr a => inr (mk_jwt secret a) end.

(** [Number::from_f64], and the text of what is no number. *)
Definition float_json (t : string) : json :=
  if existsb (String.eqb t) ["inf"; "-inf"] then JString t
  else if String.eqb t "nan" then JString "NaN"
  else JNumber (FloatNumber t).

Section tokens.
(** The float of an integer, when it has one. *)
Context `{!Jwt} (float_of : Z → option string).

(** What extracts as a sequence is a list: a list, a tuple, bytes. *)
Fixpoint py_any_to_json (obj : pyval) : json :=
  match obj with
  | PStr s => JString s
  | PInt n => if in_i64 n then json_int n else match float_of n with Some t => float_json t | None => JNull end
  | PBool b => json_int (if b then 1 else 0)
  | PFloat t => float_json t
  | PList l | PTuple l => JArray (py_any_to_json <$> l)
  | PBytes s => JArray ((λ c : ascii, json_int (code c)) <$> String.list_ascii_of_string s)
  | _ => JNull
  end.

Definition claims_to_json (claims : list (pyval * pyval)) : json :=
  JObject (foldl (λ m (kv : pyval * pyval), assoc_set (default "" (extract_string kv.1)) (py_any_to_json kv.2) m) [] claims).

Definition json_value_to_py : json → pyval := json_to_python.
Definition json_value_to_py_dict (value : json) : string + list (pyval * pyval) :=
  match value with
  | JObject o => inr ((λ kv : string * json, (PStr kv.1, json_value_to_py kv.2)) <$> o)
  | _ => inl "expected object"
  end.

Definition encode_claims (auth : PyJwtAuth) (claims : list (pyval * pyval)) : string + string :=
  jwt_encode (algorithm auth) (claims_to_json claims) (secret auth).

Inductive DecodeError := BadOption | InvalidToken (msg : string) | NotAnObject (msg : string).

(** Options other than [verify_exp] are read and not used. *)
Fixpoint read_options (opts : list (pyval * pyval)) (validate_exp : bool) : option bool :=
  match opts with
  | [] => Some validate_exp
  | (k, v) :: opts =>
      key ← extract_string k;
      val ← match v with PBool b => Some b | _ => None end;
      read_options opts (if String.eqb key "verify_exp" then val else validate_exp)
  end.

Definition decode_token (auth : PyJwtAuth) (token : string) (options : option (list (pyval * pyval)))
    : DecodeError + list (pyval * pyval) :=
  match read_options (default [] options) true with
  | None => inl BadOption
  | Some validate_exp =>
      match jwt_decode token (secret auth) (algorithm auth) validate_exp with
      | inl e => inl (InvalidToken ("Invalid token: " +:+ e))
      | inr claims => match json_value_to_py_dict claims with inl e => inl (NotAnObject e) | inr d => inr d end
      end
  end.

(** ** What comes back *)

(** The values a token keeps: texts, integers of 64 bits, None and lists of
    them.  Not floats: serde_json reads them back exactly only with its
    [float_roundtrip] feature. *)
Fixpoint kept (v : pyval) : bool :=
  match v with
  | PNone | PStr _ => true
  | PInt n => in_i64 n
  | PList l => forallb kept l
  | _ => false
  end.
Definition kept_claims (d : list (string * pyval)) : bool := bool_decide (NoDup d.*1) && forallb (λ kv : string * pyval, kept kv.2) d.
Definition py_dict (d : list (string * pyval)) : list (pyval * pyval) := prod_map PStr id <$> d.
End tokens.

(** ** Uploaded files *)

(** The bytes of the temporary file, while it exists, and the handle on it. *)
Record UploadFile := mk_upload { file : option (list ascii); pos : Z; closed : bool }.

Inductive FileError := FileClosed | NotFound.

Definition upload_new (content : list ascii) : UploadFile := mk_upload (Some content) 0 false.

Definition upload_read (size : Z) (u : UploadFile) : (FileError + list ascii) * UploadFile :=
  if closed u then (inl FileClosed, u)
  else match file u with
       | None => (inl NotFound, u)
       | Some content =>
           let remaining := Z.max 0 (Z.of_nat (length content) - pos u) in
           let limit := if (size <? 0)%Z then u64_max else size in
           let buf := take (Z.to_nat (Z.min remaining limit)) (drop (Z.to_nat (pos u)) content) in
           (inr buf, mk_upload (file u) (pos u + Z.of_nat (length buf)) false)
       end.

(** Writing behind the end leaves zeros before. *)
Definition write_at (at_ : nat) (data content : list ascii) : list ascii :=
  let padded := (content ++ replicate (at_ - length content) "000"%char)%list in
  (take at_ padded ++ data ++ drop (at_ + length data) padded)%list.

(** A file that is gone is made again. *)
Definition upload_write (data : list ascii) (u : UploadFile) : (FileError + unit) * UploadFile :=
  if closed u then (inl FileClosed, u)
  else (inr tt, mk_upload (Some (match data with [] => default [] (file u) | _ => write_at (Z.to_nat (pos u)) data (default [] (file u)) end))
                  (pos u + Z.of_nat (length data)) false).

(** A negative offset counts from the end. *)
Definition upload_seek (offset : Z) (u : UploadFile) : (FileError + Z) * UploadFile :=
  if closed u then (inl FileClosed, u)
  else match file u with
       | None => (inl NotFound, u)
       | Some content =>
           let p := if (offset <? 0)%Z then Z.max 0 (Z.of_nat (length content) + offset) else offset in
           (inr p, mk_upload (file u) p false)
       end.

Definition upload_close (u : UploadFile) : UploadFile := if closed u then u else mk_upload None (pos u) true.
(** [Drop] *)
Definition upload_drop (u : UploadFile) : UploadFile := if closed u then u else mk_upload None (pos u) (closed u).

(** ** Theorems *)

(** The JSON values whose text reads back as they are: null, booleans, integers
    of 64 bits, strings and arrays of these; objects may come back with their
    keys in another order, floats with other digits. *)
Fixpoint read_back (v : json) : bool :=
  match v with
  | JNull | JBool _ | JString _ => true
  | JNumber (IntNumber n) => in_i64 n
  | JArray l => forallb read_back l
  | _ => false
  end.

(** A token that is accepted carries the claims that were encoded. *)
Class JwtLaws `{!Jwt} : Prop := {
  jwt_same a o s e tok w :
    NoDup o.*1 → forallb (λ kv : string * json, read_back kv.2) o = true →
    jwt_encode a (JObject o) s = inr tok → jwt_decode tok s a e = inr w →
    ∃ o', w = JObject o' ∧ o' ≡ₚ o }.

Lemma kept_back float_of v :
  kept v = true →
  json_value_to_py (py_any_to_json float_of v) = v ∧ read_back (py_any_to_json float_of v) = true.
Proof.
  revert v. fix IH 1. intros [|b|n|t|s|s|l|l|es|attrs|g st hs|g sj mode st hs]; cbn [kept]; try done; intros Hk.
  - unfold py_any_to_json. rewrite Hk. by split.
  - cbn [py_any_to_json read_back]. unfold json_value_to_py. cbn [json_to_python].
    cut (json_value_to_py <$> (py_any_to_json float_of <$> l) = l ∧
         forallb read_back (py_any_to_json float_of <$> l) = true).
    { intros [Heq ->]. split; [|done]. f_equal. exact Heq. }
    induction l as [|x l IHl]; [done|]. cbn [forallb] in Hk. apply andb_prop in Hk as [Hx Hl].
    destruct (IH x Hx) as [Hxb Hxr]. destruct (IHl Hl) as [Hlb Hlr].
    rewrite !fmap_cons, Hxb, Hlb. cbn [forallb]. by rewrite Hxr, Hlr.
Qed.

Lemma claims_fields float_of d :
  NoDup d.*1 → claims_to_json float_of (py_dict d) = JObject ((λ kv, (kv.1, py_any_to_json float_of kv.2)) <$> d).
Proof.
  intros Hnd. unfold claims_to_json. f_equal.
  assert (∀ m : list (string * json), NoDup (m.*1 ++ d.*1)%list →
    foldl (λ m (kv : pyval * pyval), assoc_set (default "" (extract_string kv.1)) (py_any_to_json float_of kv.2) m) m (py_dict d) =
      (m ++ ((λ kv, (kv.1, py_any_to_json float_of kv.2)) <$> d))%list) as Hf; [|by apply (Hf [])].
  clear. induction d as [|[k v] d IH]; intros m Hnd; simpl; [by rewrite app_nil_r|].
  rewrite assoc_set_new.
  - etrans; [apply IH|by rewrite <-app_assoc]. rewrite fmap_app. simpl. by rewrite <-app_assoc.
  - apply assoc_get_None. apply NoDup_app in Hnd as (_ & Hdis & _). intros Hin. apply (Hdis k Hin). by left.
Qed.

(** C37: The claims of a token come back.  Take a dict of claims under distinct
    texts whose values are texts, integers of 64 bits, None and lists of these,
    and the token it was encoded to: whatever the options, decoding the token
    with the same secret and algorithm gives that dict, in some order of its
    keys, or refuses the options, or passes on the refusal of jsonwebtoken (an
    expired token); it never finds the claims to be no object. *)
Theorem token_roundtrip `{!Jwt} `{!JwtLaws} float_of auth d tok opts :
  kept_claims d = true → encode_claims float_of auth (py_dict d) = inr tok →
  match decode_token auth tok opts with
  | inr out => out ≡ₚ py_dict d
  | inl (NotAnObject _) => False
  | inl (InvalidToken _ | BadOption) => True
  end.
Proof.
  intros [Hnd%bool_decide_eq_true Hk]%andb_prop He.
  unfold decode_token. destruct (read_options _ _) as [e|]; [|done].
  destruct (jwt_decode _ _ _ _) as [err|w] eqn:Hw; [done|].
  unfold encode_claims in He. rewrite claims_fields in He by done.
  assert (∀ kv, kv ∈ d → kept kv.2 = true) as Hkept.
  { intros kv Hin%list_elem_of_In. exact (proj1 (forallb_forall _ _) Hk kv Hin). }
  assert (NoDup ((λ kv : string * pyval, (kv.1, py_any_to_json float_of kv.2)) <$> d).*1) as Hnd'.
  { by rewrite <-list_fmap_compose. }
  destruct (λ Hr, jwt_same _ _ _ _ _ _ Hnd' Hr He Hw) as (o' & -> & Ho').
  { apply forallb_forall. intros [k v] ((k' & v') & [= -> ->] & Hin)%list_elem_of_In%list_elem_of_fmap.
    by apply kept_back, (Hkept (k', v')). }
  simpl. rewrite Ho'. unfold py_dict. rewrite <-list_fmap_compose. apply Permutation_refl'.
  apply list_fmap_ext. intros i [k v] Hi. simpl.
  f_equal. apply kept_back, (Hkept (k, v)). by eapply list_elem_of_lookup_2.
Qed.

Lemma length_write_at n data content : length (write_at n data content) = Nat.max (length content) (n + length data).
Proof. unfold write_at. rewrite !length_app, length_take, length_drop, !length_app, length_replicate. lia. Qed.

(** What is written at a position is what a read of that length from there
    gives; the rest of the file stays, with zeros before when the position was
    behind its end. *)
Theorem upload_write_read data u content :
  file u = Some content → closed u = false → (0 ≤ pos u)%Z → data ≠ [] →
  let '(r, u1) := upload_write data u in
  r = inr tt ∧ pos u1 = (pos u + Z.of_nat (length data))%Z ∧
  (upload_read (Z.of_nat (length data)) (upload_seek (pos u) u1).2).1 = inr data ∧
  ∃ content', file u1 = Some content' ∧ drop (Z.to_nat (pos u) + length data) content' = drop (Z.to_nat (pos u) + length data) content ∧
    take (Z.to_nat (pos u)) content' = take (Z.to_nat (pos u)) (content ++ replicate (Z.to_nat (pos u) - length content) "000"%char)%list.
Proof.
  intros Hf Hc Hp Hd. unfold upload_write. rewrite Hc, Hf. cbn [default from_option]. change (id content) with content.
  destruct data as [|x xs] eqn:Hx; [done|]. rewrite <-Hx in *. clear Hx Hd.
  set (n := Z.to_nat (pos u)). set (padded := (content ++ replicate (n - length content) "000"%char)%list).
  assert (n ≤ length padded)%nat as Hn by (unfold padded; rewrite length_app, length_replicate; lia).
  assert (length (take n padded) = n) as Ht by (rewrite length_take; lia).
  split; [done|]. split; [done|]. split.
  - unfold upload_seek. cbn [closed file]. rewrite (proj2 (Z.ltb_ge _ _) Hp). unfold upload_read. cbn [snd closed file pos fst].
    rewrite length_write_at, (proj2 (Z.ltb_ge (Z.of_nat (length data)) 0)) by lia. f_equal. fold n.
    replace (Z.to_nat (Z.min _ _)) with (length data) by lia.
    unfold write_at. fold padded. by rewrite drop_app_length', take_app_length.
  - eexists. split; [done|]. fold n. unfold write_at. fold padded. split; [|by rewrite take_app_length'].
    rewrite (drop_app_ge (take n padded)), Ht by lia.
    rewrite drop_app_ge, Nat.add_comm, Nat.add_sub, Nat.sub_diag by lia. rewrite drop_0.
    unfold padded. rewrite drop_app. replace (drop (length data + n - length content) (replicate _ _)) with (@nil ascii); [by rewrite app_nil_r|].
    symmetry. apply skipn_all2. rewrite length_replicate. lia.
Qed.

(** Two reads, whatever their sizes, give what one read of both would, and
    leave the file at the same place; reading never changes the file. *)
Theorem upload_reads_join a b u content :
  file u = Some content → closed u = false → (0 ≤ pos u)%Z → (0 ≤ a)%Z → (0 ≤ b)%Z → (a + b ≤ u64_max)%Z →
  ∃ x y, (upload_read a u).1 = inr x ∧ (upload_read b (upload_read a u).2).1 = inr y ∧
    upload_read (a + b) u = (inr (x ++ y)%list, (upload_read b (upload_read a u).2).2) ∧ file (upload_read b (upload_read a u).2).2 = Some content.
Proof.
  intros Hf Hc Hp Ha Hb Hab. unfold upload_read. rewrite Hc, Hf. cbn [fst snd closed file pos].
  rewrite !(proj2 (Z.ltb_ge _ 0)) by lia. eexists _, _. split; [done|]. split; [done|].
  set (n := Z.to_nat (pos u)). set (l := drop n content).
  assert (Z.of_nat (length l) = Z.max 0 (Z.of_nat (length content) - pos u)) as Hl by (unfold l; rewrite length_drop; lia).
  rewrite <-Hl. set (k := Z.to_nat (Z.min (Z.of_nat (length l)) a)).
  assert (length (take k l) = k) as Hk by (rewrite length_take; lia).
  rewrite Hk. replace (Z.max 0 (Z.of_nat (length content) - (pos u + Z.of_nat k))) with (Z.of_nat (length l) - Z.of_nat k)%Z by lia.
  replace (Z.to_nat (pos u + Z.of_nat k)) with (n + k)%nat by lia. rewrite <-drop_drop. fold l.
  set (j := Z.to_nat (Z.min (Z.of_nat (length l) - Z.of_nat k) b)).
  replace (Z.to_nat (Z.min (Z.of_nat (length l)) (a + b))) with (k + j)%nat by lia.
  rewrite <-take_take_drop. split; [|done]. f_equal. f_equal. rewrite length_app, Hk. lia.
Qed.

(** A closed upload has no file any more and refuses every operation;
    closing it again, or dropping it, changes nothing. *)
Theorem upload_closed data size offset u :
  closed u = false →
  let v := upload_close u in
  file v = None ∧ upload_close v = v ∧ upload_drop v = v ∧
  (upload_read size v).1 = inl FileClosed ∧ (upload_write data v).1 = inl FileClosed ∧ (upload_seek offset v).1 = inl FileClosed.
Proof. intros Hc. unfold upload_close. by rewrite Hc. Qed.

(** ** Examples *)

Module Examples.
(** One token, of the claims below. *)
Definition some_claims : list (string * pyval) := [("sub", PStr "ann"); ("n", PInt 7); ("roles", PList [PStr "admin"])].
Definition some_json : json := claims_to_json (λ _, None) (py_dict some_claims).
#[local] Instance one_token : Jwt := {|
  jwt_encode a v s := if decide (v = some_json) then inr "token" else inl "InvalidKeyFormat";
  jwt_decode tok s a e := if e then inl "ExpiredSignature" else inr some_json |}.
#[local] Instance one_token_laws : JwtLaws.
Proof.
  constructor. intros a o s e tok w _ _. cbn. destruct (decide (JObject o = some_json)) as [Ho|]; [|done].
  destruct e; [done|]. intros _ [= <-]. exists o. by rewrite Ho.
Qed.

Definition auth : PyJwtAuth := mk_jwt "s3cret" HS256.
Definition no_exp : option (list (pyval * pyval)) := Some [(PStr "verify_exp", PBool false)].

Lemma token_roundtrip_witness :
  ∃ out, decode_token auth "token" no_exp = inr out ∧ out ≡ₚ py_dict some_claims.
Proof.
  eexists. split; [reflexivity|].
  exact (token_roundtrip (λ _, None) auth some_claims "token" no_exp
           ltac:(vm_compute; reflexivity) ltac:(vm_compute; reflexivity)).
Defined.

(** Booleans become integers; a dict, a set or an object inside is lost. *)
Example not_kept :
  claims_to_json (λ _, None) [(PStr "admin", PBool true); (PStr "org", PDict [(PStr "id", PInt 1)]); (PInt 3, PStr "x")] =
    JObject [("admin", json_int 1); ("org", JNull); ("", JString "x")].
Proof. vm_compute. reflexivity. Qed.
(** Only [verify_exp] counts; an option that is not a bool is refused. *)
Example options_ignored :
  read_options [(PStr "verify_signature", PBool false); (PStr "verify_aud", PBool false)] true = Some true ∧
  read_options [(PStr "algorithms", PList [])] true = None.
Proof. vm_compute. auto. Qed.
Example names : parse_algorithm "hs512" = inr HS512 ∧ parse_algorithm "EdDSA" = inl (unsupported "EdDSA").
Proof. vm_compute. auto. Qed.

Definition abc : list ascii := String.list_ascii_of_string "abc".
Definition upload : UploadFile := (upload_seek 1 (upload_new abc)).2.

Lemma upload_write_read_witness :
  (upload_write ["z"%char] upload).1 = inr tt ∧ (upload_read 1 (upload_seek 1 (upload_write ["z"%char] upload).2).2).1 = inr ["z"%char].
Proof.
  pose proof (upload_write_read ["z"%char] upload abc eq_refl eq_refl ltac:(vm_compute; done) ltac:(done)) as Hw.
  destruct (upload_write ["z"%char] upload) as [r u1]. destruct Hw as (Hr & _ & Hd & _). split; [exact Hr|exact Hd].
Defined.

Lemma upload_reads_join_witness :
  ∃ x y, (upload_read 1 upload).1 = inr x ∧ (upload_read 1 (upload_read 1 upload).2).1 = inr y ∧
    upload_read 2 upload = (inr (x ++ y)%list, (upload_read 1 (upload_read 1 upload).2).2).
Proof.
  destruct (upload_reads_join 1 1 upload abc) as (x & y & Hx & Hy & Hxy & _); [done|done|vm_compute; done..|].
  exists x, y. split; [exact Hx|]. split; [exact Hy|exact Hxy].
Defined.

Lemma upload_closed_witness : file (upload_close upload) = None ∧ upload_close (upload_close upload) = upload_close upload.
Proof. destruct (upload_closed [] 0 0 upload) as (Hf & Hc & _); [done|]. split; assumption. Defined.

Example from_the_end : (upload_seek (-2) (upload_new abc)).1 = inr 1%Z ∧ (upload_read (-1) upload).1 = inr (drop 1 abc).
Proof. vm_compute. auto. Qed.
End Examples.
